(* ===== verification/_CoqProject ===== *)
-Q . S2P
Prelude.v
GoStd.v
GoIO.v
GoText.v
Primitives.v
ObjectAAD.v
ChunkLayout.v
ChunkRecord.v
ChunkedStream.v
ChunkedCorrect.v
ChunkedTheorems.v
RangeReader.v
MPUManifest.v
MPUStream.v
MPUCorrect.v
MPUTheorems.v
KeyManager.v
MemoryKeyManager.v
CircuitBreaker.v
KeyStack.v
KeyCache.v
Rotation.v
Metadata.v
ObjectFormat.v
Kdf.v
PasswordKeyManager.v
MPUState.v
MPUStateSafe.v
ObjectMeta.v
Engine.v
EngineRead.v
EngineMeta.v
EngineSeal.v
EngineFields.v
EngineCorrect.v
EngineBodies.v
EngineHeaders.v
EngineTheorems.v
EngineRoundTrip.v
Spool.v
Http.v
SelfContained.v
AwsChunked.v
AwsChunkedSpec.v
AwsChunkedCorrect.v
AwsTrailer.v
AwsBody.v
AwsTheorems.v
AmzTime.v
SigV4.v
SigV4Theorems.v
Credentials.v
Authn.v
Authz.v
Policy.v
ObjectWrite.v
MPUHandlers.v
MPUHandlersTheorems.v
Retry.v
MPURange.v
RangeHeader.v
ObjectResponse.v
ObjectPlan.v
ObjectServe.v
ObjectHeaders.v
EngineTrailer.v
ObjectReadMeta.v
ObjectReadTheorems.v
