(* ===== verification/Prelude.v ===== *)
(** * S3 encryption gateway: verification development

    The gateway is an HTTP proxy in front of an S3 backend. A request is
    authenticated and authorized, its body is verified and staged, and object
    data is encrypted before it reaches the backend and decrypted on the way
    back. This library models the parts of the Go code under [src/] that carry
    this logic and proves what makes them correct. It is a shallow embedding:
    Go functions are Rocq functions on values, mutable state is passed
    explicitly, [(T, error)] is [result], and steps that other requests can
    interleave with are step relations.

    ** Parts of the program and how they interact

    A request passes these parts in this order.
    - Authentication ([internal/api/auth_middleware.go], [auth.go],
      [session_auth.go], [credential_store.go]) finds the credential and checks
      a Version 4 or Version 2 signature: Authn.v, SigV4.v, AmzTime.v,
      Credentials.v.
    - Authorization ([internal/api/authorization.go]) classifies the request
      and checks it against the grants of the credential: Authz.v.
    - Signed bodies ([aws_chunked_reader.go], [aws_chunked_trailer.go],
      [verified_aws_body.go], [spool_manager.go]) are decoded, verified and
      staged in files under a quota: Spool.v, AwsChunked.v, AwsTrailer.v,
      AwsBody.v.
    - The handlers ([internal/api/handlers.go], [object_write.go],
      [object_read_policy.go], [internal/config/policy.go]) take the bucket's
      policy, parse the client's metadata, and drive the upload: Policy.v,
      ObjectWrite.v, MPUHandlers.v.
    - Reads ([object_stream.go], [object_size.go], [object_view.go],
      [object_response.go], [mpu_manifest_loader.go]) are planned before
      anything is sent and then executed: RangeHeader.v, ObjectPlan.v,
      ObjectServe.v, MPURange.v, ObjectResponse.v.
    - The engine ([internal/crypto/engine.go] and its options) draws a data
      key, has it wrapped by a key manager, encrypts the body in chunks (or in
      one piece) and describes it in metadata: Engine.v, EngineRead.v, over
      ChunkedStream.v, RangeReader.v, Metadata.v, ObjectFormat.v.
    - Multipart uploads keep their state in Valkey ([internal/mpu/state.go])
      and encrypt part by part ([mpu_encrypter.go], [mpu_manifest.go]):
      MPUState.v, MPUStream.v, MPUManifest.v.
    - Key managers ([keymanager*.go], [password_keymanager.go]) wrap data keys;
      decorators add retries, a circuit breaker and a cache; rotation changes
      the active key: KeyManager.v, MemoryKeyManager.v, PasswordKeyManager.v,
      SelfContained.v, CircuitBreaker.v, KeyStack.v, KeyCache.v, Rotation.v.
    - The backend client retries failed calls ([internal/s3/retry.go]):
      Retry.v.

    ** Files

    Shared.
    - Prelude.v (this file): machine integers with wrap-around, errors and
      [result], bytes, chunking of lists, tactics ([nowrap], [zbool], [inv_ok])
      and the lemmas on lists the components share.
    - GoStd.v, GoIO.v, GoText.v, Http.v: what the code uses of [strconv],
      [strings], [encoding/base64], [encoding/hex], [fmt], [io], [bufio],
      [net/http] and [net/url]. Text is ASCII. A reader is the class
      [StreamReader]; draining one is [drain] with fuel.
    - Primitives.v: AES-GCM, ChaCha20-Poly1305, SHA-256, HMAC, HKDF and the
      randomness of the process as classes with the laws the code relies on
      (opening what was sealed, tag lengths). Forgery and collisions are not
      excluded: the theorems that need this name the event.

    Objects.
    - ObjectAAD.v: [ObjectContext], binding identifiers and the associated data
      of every format ([engine.go]).
    - ChunkLayout.v, ChunkRecord.v, ChunkedStream.v, ChunkedCorrect.v,
      ChunkedTheorems.v: sizes and encrypted ranges ([range_optimization.go],
      [chunked_size.go]), nonces and associated data of a chunk, the encrypting
      and the decrypting reader of [chunked.go] as state machines, and their
      correctness for every chunk size, every split of reads and every stored
      body.
    - RangeReader.v: the reader of [range_decrypt.go].
    - Metadata.v, ObjectMeta.v, ObjectFormat.v, ObjectWrite.v: the registry of
      metadata keys, compaction, provider limits, the standard headers,
      classification of stored objects, the client's view, the metadata of a
      write.
    - Engine.v (construction, options, [Encrypt]) and EngineRead.v ([Decrypt]);
      EngineMeta.v, EngineSeal.v, EngineFields.v, EngineCorrect.v,
      EngineBodies.v, EngineHeaders.v, EngineTheorems.v and EngineRoundTrip.v
      prove that what was encrypted is read back. EngineTrailer.v: the check of
      the terminal record alone.
    - RangeHeader.v (the two parsers of a [Range] header), ObjectResponse.v (the
      headers of an answer), ObjectPlan.v (the plaintext size and the plan of a
      read), ObjectServe.v (its execution). ObjectHeaders.v and ObjectReadMeta.v
      are about what a backend returns for a written object;
      ObjectReadTheorems.v puts the writer, the backend and the read path
      together.

    Multipart uploads.
    - MPUManifest.v, MPUStream.v, MPUCorrect.v, MPUTheorems.v: the manifest, the
      part writer and the object reader. MPURange.v: the reader of ranges.
    - MPUState.v: the Lua scripts and every operation of the state store.
      MPUStateSafe.v: all interleavings of its clients as a step relation.
    - MPUHandlers.v, MPUHandlersTheorems.v: the four handlers as transitions of
      key manager, store and backend calls.

    Keys.
    - KeyManager.v: the interface as a class with its contract, the retry and
      fallback decorators. MemoryKeyManager.v, PasswordKeyManager.v (with
      Kdf.v) and SelfContained.v (AES table, RSA key pair and their factory)
      implement it; KeyStack.v proves that the decorators keep the
      contract; CircuitBreaker.v and KeyCache.v model every critical section
      and every interleaving of requests; Rotation.v the rotation state
      machine.

    Requests.
    - Spool.v, AwsChunked.v (decoder), AwsChunkedSpec.v (the wire format),
      AwsChunkedCorrect.v, AwsTrailer.v, AwsBody.v, AwsTheorems.v.
    - AmzTime.v, SigV4.v, SigV4Theorems.v, Credentials.v, Authn.v, Authz.v.
    - Policy.v, Retry.v.

    ** What the theorems show

    - Round trips: what the engine, the chunked writer and the multipart writer
      produce is read back exactly, for every key manager that meets the
      contract ([engine_roundtrip], [chunked_v2_roundtrip],
      [mpu_object_roundtrip], [mpu_part_roundtrip], [password_keys_recovered],
      [chunked_size_roundtrip], [compaction_roundtrip]).
    - Reads: a GET of a written chunked object answers with exactly the
      plaintext, or the requested range of it, and the headers that announce it
      ([get_returns_written]); no gateway field reaches the client
      ([response_headers_exact]).
    - Integrity: a reader that ends without error has delivered the sealed
      plaintext unless a record was forged ([chunked_v2_integrity]); associated
      data determines the object ([object_aad_injective]); a range read returns
      the requested bytes ([range_read_correct], [mpu_range_correct],
      [mpu_range_read]); the two range parsers agree ([range_parsers_agree]).
    - Nonces: no two contents are sent under one part number
      ([part_nonce_safe], [mpu_state_safe]); no part of an encrypted upload is
      sent in clear ([upload_part_encrypted]).
    - Requests: no request reaches a handler without a valid signature and
      the grants of its operation ([authn_complete_mediation],
      [authz_enforced]); the canonical request determines the request
      ([canonical_request_injective]); the chunked decoder accepts exactly the
      signed wire format and returns its payload ([aws_chunked_exact],
      [aws_body_verified], [aws_chunked_terminates]); quotas hold
      ([spool_quota_safe]).
    - Configuration: policies and credentials are replaced all or nothing
      ([policy_reload_exact], [policy_set_wellformed],
      [credential_store_exact]); retries are bounded ([retry_delay_bounded]).
    - Keys: rotation keeps every key readable ([memory_rotation_keeps_keys],
      [selfcontained_keeps_keys], [rotation_safe]); the cache returns only keys that were unwrapped
      ([cache_returns_fresh_keys]); the breaker recovers ([breaker_recovers]).
    - Defects the model shows are theorems too: [chunked_source_error],
      [password_buffered_unreadable], [sigv2_deadline_unsigned],
      [rotation_terminal], [mpu_create_routing], [mpu_complete_order],
      [retry_installed_policy]; the panics and misreads of the read path are
      examples ([projection_panics], [range_over_empty_part],
      [truncated_range_ends_clean]).

    ** Bounds and fuel

    - Recursion that is not structural has fuel, and [None] means that it was
      used up. The theorems state how much is enough and that the result then
      exists: draining a reader needs more than the length of its output (for
      an encrypted part at most 17 bytes per plaintext byte plus one), the
      decoder of a signed body the length of the body plus one, the range
      reader [range_fuel], the whole-object reader the length of the stored
      body, a GET more than the length of the plaintext, staging a chunk its size divided by 32 KiB plus one, the
      environment loop of the policies the number of variables plus one.
    - Optimistic transactions of the state store are retried 16 times as in the
      source; revisions stay below 2^53 - 1, where Lua numbers are exact.
    - Integers are [Z] with the wrapping operators [+i], [*u] and so on wherever
      the source could overflow.

    ** Not modelled

    - Cryptographic primitives, the AWS SDK, the Valkey server beyond the
      scripts it runs, YAML, XML and JSON decoding, the file system: parameters,
      with the behaviour the code relies on as class laws or hypotheses.
    - The rendering of errors, audit, metrics (but for those of the retryer),
      logging, tracing and the admin server: they do not feed back into the
      modelled state.
    - The handlers for PUT, HEAD, DELETE, copies and lists, CORS, object lock and
      the object cache of [handlers.go] and its siblings; the
      KMIP, OpenBao and HSM adapters, which are clients of external services;
      the command line tools. *)
From Stdlib Require Export ZArith Lia.
From Stdlib Require Export Strings.Byte.
From stdpp Require Export base numbers list strings gmap fin_maps.

(** ** Machine integers

    Go's [int]/[int64], [uint64], [int32], [uint32] are [Z] values; every
    arithmetic operation of the source that could leave the width is written
    with the wrapping operator of that width. *)

Declare Scope go_scope.
Delimit Scope go_scope with go.

Definition MaxInt64 : Z := 9223372036854775807.
Definition MaxUint64 : Z := 18446744073709551615.
Definition MaxInt32 : Z := 2147483647.
Definition MaxUint32 : Z := 4294967295.

Definition wrap_u64 (z : Z) : Z := z `mod` 18446744073709551616.
Definition wrap_i64 (z : Z) : Z :=
  (z + 9223372036854775808) `mod` 18446744073709551616 - 9223372036854775808.
Definition wrap_u32 (z : Z) : Z := z `mod` 4294967296.
Definition wrap_i32 (z : Z) : Z := (z + 2147483648) `mod` 4294967296 - 2147483648.

Definition is_i64 (z : Z) : Prop := (-9223372036854775808 ≤ z ≤ 9223372036854775807)%Z.
Definition is_u64 (z : Z) : Prop := (0 ≤ z ≤ 18446744073709551615)%Z.

Notation "a +i b" := (wrap_i64 (a + b)) (at level 50, left associativity) : go_scope.
Notation "a -i b" := (wrap_i64 (a - b)) (at level 50, left associativity) : go_scope.
Notation "a *i b" := (wrap_i64 (a * b)) (at level 40, left associativity) : go_scope.
Notation "a /i b" := (wrap_i64 (Z.quot a b)) (at level 40, left associativity) : go_scope.
Notation "a %i b" := (Z.rem a b) (at level 40, left associativity) : go_scope.
Notation "a +u b" := (wrap_u64 (a + b)) (at level 50, left associativity) : go_scope.
Notation "a -u b" := (wrap_u64 (a - b)) (at level 50, left associativity) : go_scope.
Notation "a *u b" := (wrap_u64 (a * b)) (at level 40, left associativity) : go_scope.

Section wrap.
Local Open Scope Z_scope.

Lemma wrap_i64_id z : -9223372036854775808 ≤ z ≤ 9223372036854775807 → wrap_i64 z = z.
Proof. intros. unfold wrap_i64. rewrite Z.mod_small; lia. Qed.

Lemma wrap_u64_id z : 0 ≤ z ≤ 18446744073709551615 → wrap_u64 z = z.
Proof. intros. unfold wrap_u64. rewrite Z.mod_small; lia. Qed.

Lemma wrap_i32_id z : -2147483648 ≤ z ≤ 2147483647 → wrap_i32 z = z.
Proof. intros. unfold wrap_i32. rewrite Z.mod_small; lia. Qed.

Lemma wrap_u32_id z : 0 ≤ z ≤ 4294967295 → wrap_u32 z = z.
Proof. intros. unfold wrap_u32. rewrite Z.mod_small; lia. Qed.

Lemma wrap_i64_range z : is_i64 (wrap_i64 z).
Proof. unfold is_i64, wrap_i64. pose proof (Z.mod_pos_bound (z + 9223372036854775808) 18446744073709551616). lia. Qed.

Lemma wrap_u64_range z : is_u64 (wrap_u64 z).
Proof. unfold is_u64, wrap_u64. pose proof (Z.mod_pos_bound z 18446744073709551616). lia. Qed.
End wrap.

(** [nowrap] removes every wrapping operator whose argument is provably in
    range; the side conditions go to [lia]. *)
Ltac nowrap :=
  repeat first
    [ rewrite wrap_i64_id by lia | rewrite wrap_u64_id by lia
    | rewrite wrap_i32_id by lia | rewrite wrap_u32_id by lia ].
Ltac nowrap_in H :=
  repeat first
    [ rewrite wrap_i64_id in H by lia | rewrite wrap_u64_id in H by lia
    | rewrite wrap_i32_id in H by lia | rewrite wrap_u32_id in H by lia ].

(** [zbool] turns boolean tests on [Z] in the context into propositions. *)
Ltac zbool :=
  repeat match goal with
  | H : (_ && _)%bool = true |- _ => apply andb_prop in H as [? ?]
  | H : (_ || _)%bool = false |- _ => apply orb_false_elim in H as [? ?]
  | H : (_ =? _)%Z = true |- _ => apply Z.eqb_eq in H
  | H : (_ =? _)%Z = false |- _ => apply Z.eqb_neq in H
  | H : (_ <? _)%Z = true |- _ => apply Z.ltb_lt in H
  | H : (_ <? _)%Z = false |- _ => apply Z.ltb_ge in H
  | H : (_ <=? _)%Z = true |- _ => apply Z.leb_le in H
  | H : (_ <=? _)%Z = false |- _ => apply Z.leb_gt in H
  | H : (_ >? _)%Z = _ |- _ => rewrite Z.gtb_ltb in H
  | H : (_ >=? _)%Z = _ |- _ => rewrite Z.geb_leb in H
  | H : negb _ = true |- _ => apply negb_true_iff in H
  | H : negb _ = false |- _ => apply negb_false_iff in H
  end.

(** ** Errors and results

    A Go [error] is either one of the package's sentinels or a formatted
    message, which may wrap another error ([%w]). Only the format string is
    kept of a message, not the values printed into it. *)

Inductive error :=
| EOF
| ErrUnexpectedEOF
| Sentinel (name : string)
| Errorf (msg : string)
| Wrapf (msg : string) (inner : error).

#[export] Instance error_eq_dec : EqDecision error.
Proof. solve_decision. Defined.

(** [errors.Is]. *)
Fixpoint error_is (e target : error) : bool :=
  bool_decide (e = target) ||
  match e with Wrapf _ inner => error_is inner target | _ => false end.

Inductive result (A : Type) :=
| Ok (a : A)
| Err (e : error).
Arguments Ok {A} _.
Arguments Err {A} _.

#[export] Instance result_ret : MRet result := λ A, Ok.
#[export] Instance result_bind : MBind result := λ A B f m,
  match m with Ok a => f a | Err e => Err e end.
#[export] Instance result_fmap : FMap result := λ A B f m,
  match m with Ok a => Ok (f a) | Err e => Err e end.
#[export] Instance result_eq_dec `{EqDecision A} : EqDecision (result A).
Proof. solve_decision. Defined.

Lemma Ok_inj {A} (a b : A) : Ok a = Ok b → a = b.
Proof. by intros [= ->]. Qed.

Lemma bind_Ok {A B} (f : A → result B) (m : result A) b :
  m ≫= f = Ok b ↔ ∃ a, m = Ok a ∧ f a = Ok b.
Proof. destruct m; cbn; naive_solver. Qed.

(** [inv_ok H] decomposes an equation [H : (x ← m; k) = Ok v] or
    [H : (if b then Err _ else k) = Ok v] into its successful branch. *)
Ltac inv_ok H :=
  repeat (
    cbn -[Z.add Z.sub Z.mul Z.quot Z.rem wrap_i64 wrap_u64 Z.leb Z.ltb Z.eqb Z.gtb Z.geb] in H;
    match type of H with
    | (match ?m with Ok _ => _ | Err _ => _ end) = Ok _ =>
        let E := fresh "E" in destruct m eqn:E; [|discriminate H]
    | (_ ≫= _) = Ok _ => apply bind_Ok in H as (? & ? & H)
    | (if ?b then Err _ else _) = Ok _ =>
        let E := fresh "E" in destruct b eqn:E; [discriminate H|]
    | (if ?b then _ else Err _) = Ok _ =>
        let E := fresh "E" in destruct b eqn:E; [|discriminate H]
    | Err _ = Ok _ => discriminate H
    end).

(** ** Bytes and big-endian integers ([encoding/binary].BigEndian) *)

#[export] Instance byte_eq_dec : EqDecision byte := Byte.byte_eq_dec.

Definition byte_val (b : byte) : Z := Z.of_N (Byte.to_N b).
Definition byte_of (z : Z) : byte :=
  default x00 (Byte.of_N (Z.to_N (z `mod` 256))).

#[export] Program Instance byte_countable : Countable byte := inj_countable Byte.to_N Byte.of_N _.
Next Obligation. apply Byte.of_to_N. Qed.

(** The bytes of a Go string. *)
Definition bytes_of_string (s : string) : list byte := String.list_byte_of_string s.

(** [len] of a slice, as Go's [int]. *)
Abbreviation len l := (Z.of_nat (length l)).
Definition strlen (s : string) : Z := Z.of_nat (String.length s).

Fixpoint be_encode (n : nat) (z : Z) : list byte :=
  match n with
  | O => []
  | S k => byte_of (Z.shiftr z (8 * Z.of_nat k)) :: be_encode k z
  end.

Fixpoint be_decode (bs : list byte) : Z :=
  match bs with
  | [] => 0
  | b :: bs => byte_val b * 2 ^ (8 * Z.of_nat (length bs)) + be_decode bs
  end.

Section bytes.
Local Open Scope Z_scope.

Lemma byte_val_range b : 0 ≤ byte_val b < 256.
Proof.
  unfold byte_val. pose proof (Byte.to_N_bounded b). lia.
Qed.

Lemma byte_val_of z : byte_val (byte_of z) = z `mod` 256.
Proof.
  unfold byte_val, byte_of.
  pose proof (Z.mod_pos_bound z 256 ltac:(lia)).
  destruct (Byte.of_N (Z.to_N (z `mod` 256))) eqn:E; cbn.
  - apply Byte.to_of_N in E. rewrite E. lia.
  - apply Byte.of_N_None_iff in E. lia.
Qed.

Lemma byte_val_inj b c : byte_val b = byte_val c → b = c.
Proof.
  unfold byte_val. intros H%N2Z.inj.
  pose proof (Byte.of_to_N b) as Hb. pose proof (Byte.of_to_N c) as Hc.
  rewrite H in Hb. congruence.
Qed.

Lemma byte_of_val b : byte_of (byte_val b) = b.
Proof.
  apply byte_val_inj. rewrite byte_val_of, Z.mod_small; [done|].
  apply byte_val_range.
Qed.

Lemma length_be_encode n z : length (be_encode n z) = n.
Proof. induction n; cbn; congruence. Qed.

Lemma be_decode_encode n z : be_decode (be_encode n z) = z `mod` 2 ^ (8 * Z.of_nat n).
Proof.
  induction n as [|n IH]; cbn -[Z.of_nat Z.mul]; [by rewrite Z.mod_1_r|].
  rewrite length_be_encode, byte_val_of, IH, Z.shiftr_div_pow2 by lia.
  replace (8 * Z.of_nat (S n)) with (8 * Z.of_nat n + 8) by lia.
  rewrite Z.pow_add_r, Z.rem_mul_r by lia. change (2 ^ 8) with 256. ring.
Qed.

Lemma be_decode_range bs : 0 ≤ be_decode bs < 2 ^ (8 * len bs).
Proof.
  induction bs as [|b bs IH]; cbn -[Z.of_nat Z.mul]; [lia|].
  replace (8 * Z.of_nat (S (length bs))) with (8 * len bs + 8) by lia.
  rewrite Z.pow_add_r by lia. pose proof (byte_val_range b). nia.
Qed.

Lemma be_encode_inj n x y :
  0 ≤ x < 2 ^ (8 * Z.of_nat n) → 0 ≤ y < 2 ^ (8 * Z.of_nat n) →
  be_encode n x = be_encode n y → x = y.
Proof.
  intros Hx Hy H%(f_equal be_decode). rewrite !be_decode_encode in H.
  by rewrite !Z.mod_small in H.
Qed.

Lemma be_encode_decode n bs :
  length bs = n → be_encode n (be_decode bs) = bs.
Proof.
  enough (G : ∀ h bs, 0 ≤ h → be_encode (length bs) (h * 2 ^ (8 * len bs) + be_decode bs) = bs).
  { intros <-. specialize (G 0 bs ltac:(lia)). rewrite Z.mul_0_l, Z.add_0_l in G. done. }
  clear n bs. intros h bs; revert h.
  induction bs as [|b bs IH]; intros h Hh; cbn -[Z.of_nat Z.mul Z.add]; [done|].
  pose proof (be_decode_range bs). pose proof (byte_val_range b).
  replace (8 * Z.of_nat (S (length bs))) with (8 + 8 * len bs) by lia.
  rewrite Z.pow_add_r by lia.
  replace (h * (2 ^ 8 * 2 ^ (8 * len bs)) + (byte_val b * 2 ^ (8 * len bs) + be_decode bs))
    with ((h * 256 + byte_val b) * 2 ^ (8 * len bs) + be_decode bs) by lia.
  f_equal; [|apply IH; lia].
  rewrite Z.shiftr_div_pow2, Z.div_add_l, (Z.div_small (be_decode bs)), Z.add_0_r by lia.
  apply byte_val_inj. rewrite byte_val_of, Z.add_comm, Z.mod_add, Z.mod_small; lia.
Qed.

Lemma length_bytes_of_string s : length (bytes_of_string s) = String.length s.
Proof.
  unfold bytes_of_string, String.list_byte_of_string. rewrite length_map.
  induction s; cbn; congruence.
Qed.

Lemma bytes_of_string_inj s t : bytes_of_string s = bytes_of_string t → s = t.
Proof.
  intros H%(f_equal String.string_of_list_byte). unfold bytes_of_string in H.
  by rewrite !String.string_of_list_byte_of_string in H.
Qed.

Lemma len_bytes_of_string s : len (bytes_of_string s) = strlen s.
Proof. unfold strlen. by rewrite length_bytes_of_string. Qed.
End bytes.

#[global] Arguments be_encode : simpl never.
#[global] Arguments be_decode : simpl never.

(** ** Splitting a byte sequence into fixed-size chunks *)

Fixpoint chunks_fuel {A} (fuel : nat) (cs : nat) (l : list A) : list (list A) :=
  match fuel, l with
  | _, [] => []
  | O, _ => []
  | S f, _ => take cs l :: chunks_fuel f cs (drop cs l)
  end.

(** The chunks a writer with chunk size [cs] cuts [l] into: all of size [cs]
    except possibly the last, none of them empty. *)
Definition chunks_of {A} (cs : nat) (l : list A) : list (list A) :=
  chunks_fuel (length l) cs l.

Section chunks.
Context {A : Type}.
Implicit Types l : list A.

Lemma chunks_fuel_enough cs l n m :
  (0 < cs)%nat → (length l ≤ n)%nat → (length l ≤ m)%nat →
  chunks_fuel n cs l = chunks_fuel m cs l.
Proof.
  intros Hcs. revert l m. induction n as [|n IH]; intros [|a l] [|m]; cbn; try done; try lia.
  intros. f_equal. apply IH; rewrite length_drop; cbn; lia.
Qed.

Lemma chunks_of_nil cs : chunks_of cs (@nil A) = [].
Proof. done. Qed.

Lemma chunks_of_step cs l :
  (0 < cs)%nat → l ≠ [] → chunks_of cs l = take cs l :: chunks_of cs (drop cs l).
Proof.
  intros Hcs Hl. destruct l as [|a l]; [done|]. unfold chunks_of at 1. cbn [length chunks_fuel].
  f_equal. apply chunks_fuel_enough; [done| |done]. rewrite length_drop. cbn. lia.
Qed.

(** Induction following the way a writer cuts its input. *)
Lemma chunks_ind (cs : nat) (Hcs : (0 < cs)%nat) (P : list A → Prop) :
  P [] → (∀ l, l ≠ [] → P (drop cs l) → P l) → ∀ l, P l.
Proof.
  intros H0 HS l. remember (length l) as n eqn:En. revert l En.
  induction n as [n IH] using lt_wf_ind. intros [|a l] ->; [done|].
  apply HS; [done|]. eapply IH; [|done]. rewrite length_drop. cbn. lia.
Qed.

Lemma concat_chunks_of cs l : (0 < cs)%nat → concat (chunks_of cs l) = l.
Proof.
  intros Hcs. induction l as [|l Hl IH] using (chunks_ind cs Hcs); [done|].
  rewrite chunks_of_step by done. cbn. by rewrite IH, take_drop.
Qed.

Lemma chunks_of_small cs l :
  (0 < length l ≤ cs)%nat → chunks_of cs l = [l].
Proof.
  intros H. rewrite chunks_of_step; [|lia|by intros ->; cbn in *; lia].
  by rewrite take_ge, drop_ge by lia.
Qed.

Lemma chunks_of_app_full cs c l :
  (0 < cs)%nat → length c = cs → chunks_of cs (c ++ l) = c :: chunks_of cs l.
Proof.
  intros Hcs Hc. rewrite chunks_of_step; [|done|].
  - by rewrite take_app_length', drop_app_length'.
  - destruct c; cbn in *; [lia|done].
Qed.

Lemma chunks_of_nonempty cs l : (0 < cs)%nat → Forall (λ c, c ≠ []) (chunks_of cs l).
Proof.
  intros Hcs. induction l as [|l Hl IH] using (chunks_ind cs Hcs); [constructor|].
  rewrite chunks_of_step by done. constructor; [|done].
  destruct l, cs; cbn; [done|done|lia|done].
Qed.

Lemma chunks_of_size cs l : (0 < cs)%nat → Forall (λ c, (length c ≤ cs)%nat) (chunks_of cs l).
Proof.
  intros Hcs. induction l as [|l Hl IH] using (chunks_ind cs Hcs); [constructor|].
  rewrite chunks_of_step by done. constructor; [|done]. rewrite length_take. lia.
Qed.

Lemma lookup_chunks_of cs l k c :
  (0 < cs)%nat → chunks_of cs l !! k = Some c → (k * cs < length l)%nat ∧ c = take cs (drop (k * cs) l).
Proof.
  intros Hcs. revert l. induction k as [|k IH]; intros l; (destruct (decide (l = [])) as [->|Hl]; [done|]);
    rewrite chunks_of_step by done; cbn.
  - intros [= <-]. split; [destruct l; cbn; [done|lia]|done].
  - intros [Hlt ->]%IH. rewrite length_drop in Hlt. split; [lia|]. by rewrite drop_drop.
Qed.

Lemma take_add_drop (n m : nat) l : take (n + m) l = take n l ++ take m (drop n l).
Proof.
  revert l. induction n as [|n IH]; intros l; [done|].
  destruct l as [|x l]; cbn; [by rewrite take_nil|]. by rewrite IH.
Qed.

(** The number of chunks is the ceiling of the quotient. *)
Lemma length_chunks_of cs l :
  (0 < cs)%nat →
  len (chunks_of cs l) = ((len l + Z.of_nat cs - 1) / Z.of_nat cs)%Z.
Proof.
  intros Hcs. induction l as [|l Hl IH] using (chunks_ind cs Hcs).
  { cbn. by rewrite Z.div_small by lia. }
  rewrite chunks_of_step by done. cbn [length]. rewrite Nat2Z.inj_succ, IH, length_drop.
  assert (0 < length l)%nat by (destruct l; cbn; [done|lia]).
  destruct (decide (length l ≤ cs)%nat).
  - replace (length l - cs)%nat with 0%nat by lia.
    rewrite (Z.div_small (_ + _ - 1)) by lia.
    apply Z.div_unique with (len l - 1)%Z; lia.
  - replace (len l + Z.of_nat cs - 1)%Z
      with (Z.of_nat (length l - cs) + Z.of_nat cs - 1 + 1 * Z.of_nat cs)%Z by lia.
    rewrite Z.div_add by lia. lia.
Qed.
End chunks.

(** ** Runs of records

    [records f i chs] is the concatenation of the records [f] makes of
    consecutive chunks, the first with index [i]. *)
Fixpoint records (f : Z → list byte → list byte) (i : Z) (chs : list (list byte)) : list byte :=
  match chs with
  | [] => []
  | c :: chs => f i c ++ records f (i + 1)%Z chs
  end.

Section records.
Context (f : Z → list byte → list byte) (t : nat) (Hf : ∀ i c, length (f i c) = (length c + t)%nat).

Lemma length_records i chs : length (records f i chs) = (length (concat chs) + t * length chs)%nat.
Proof using Hf.
  revert i. induction chs as [|c chs IH]; intros i; cbn [records concat length]; [lia|].
  rewrite !length_app, Hf, IH. lia.
Qed.

Context (cs : nat) (Hcs : (0 < cs)%nat).

(** What follows a prefix of whole records. *)
Lemma drop_records k i l :
  drop (k * (cs + t)) (records f i (chunks_of cs l)) =
  records f (i + Z.of_nat k)%Z (chunks_of cs (drop (k * cs) l)).
Proof using Hf Hcs.
  revert i l. induction k as [|k IH]; intros i l; [by rewrite Z.add_0_r|].
  destruct (decide (l = [])) as [->|Hl]; [rewrite drop_nil, chunks_of_nil; cbn [records]; by rewrite drop_nil|].
  rewrite (chunks_of_step cs l) by done. cbn [records Nat.mul].
  pose proof (Hf i (take cs l)) as Hrl. rewrite length_take in Hrl.
  replace (i + Z.of_nat (S k))%Z with (i + 1 + Z.of_nat k)%Z by lia.
  rewrite <-(drop_drop l), <-IH. destruct (decide (length l ≤ cs)%nat) as [Hlast|].
  - rewrite (drop_ge l cs) by lia. cbn. rewrite drop_nil, app_nil_r. apply drop_ge. lia.
  - rewrite <-drop_drop. f_equal. replace (cs + t)%nat with (length (f i (take cs l))) by lia.
    apply drop_app_length.
Qed.

(** Cutting at the record size finds the first record of a run. *)
Lemma take_drop_record i l :
  l ≠ [] →
  let r := f i (take cs l) in let rest := records f (i + 1)%Z (chunks_of cs (drop cs l)) in
  take (cs + t) (r ++ rest) = r ∧ drop (cs + t) (r ++ rest) = rest.
Proof using Hf Hcs.
  intros Hl r rest. assert (Hr : length r = (Nat.min cs (length l) + t)%nat) by (unfold r; by rewrite Hf, length_take).
  destruct (decide (length l ≤ cs)%nat) as [Hlast|].
  - unfold rest. rewrite (drop_ge l cs) by lia. cbn. rewrite app_nil_r, take_ge, drop_ge by lia. done.
  - replace (cs + t)%nat with (length r) by lia. by rewrite take_app_length, drop_app_length.
Qed.
End records.

(** ** Hint database of the development *)

Create HintDb gw.
Create Rewrite HintDb gw.
#[export] Hint Resolve wrap_i64_range wrap_u64_range byte_val_range be_decode_range : gw.
#[export] Hint Rewrite @length_take @length_drop @length_app length_be_encode
  length_bytes_of_string : gw.
