(* ===== verification/GoStd.v ===== *)
(** * The parts of Go's standard library the modelled code uses

    [strconv] decimal parsing, [strings] helpers on ASCII text, [fmt.Sscanf]
    with ["%d"], [encoding/base64] in its padded and raw variants, and string
    maps. Case folding is the ASCII one: header and metadata names are ASCII
    tokens. *)
From S2P Require Import Prelude.
Local Open Scope Z_scope.

(** ** Characters *)

Definition chr_eqb (a b : byte) : bool := Byte.eqb a b.
Definition is_digit (b : byte) : bool := (48 <=? byte_val b) && (byte_val b <=? 57).
Definition digit_val (b : byte) : Z := byte_val b - 48.
Definition is_upper (b : byte) : bool := (65 <=? byte_val b) && (byte_val b <=? 90).
Definition lower (b : byte) : byte := if is_upper b then byte_of (byte_val b + 32) else b.
(** [unicode.IsSpace] on ASCII. *)
Definition is_space (b : byte) : bool :=
  ((9 <=? byte_val b) && (byte_val b <=? 13)) || (byte_val b =? 32).

(** [context.Canceled] and [context.DeadlineExceeded]. *)
Definition ContextCanceled : error := Sentinel "context canceled".
Definition ContextDeadlineExceeded : error := Sentinel "context deadline exceeded".
Definition string_of_bytes (l : list byte) : string := String.string_of_list_byte l.

(** ** [strings] *)

Definition ToLower (s : string) : string :=
  string_of_bytes (lower <$> bytes_of_string s).
Definition EqualFold (s t : string) : bool := bool_decide (ToLower s = ToLower t).
Definition HasPrefix (s p : string) : bool :=
  bool_decide (take (String.length p) (bytes_of_string s) = bytes_of_string p).
Definition HasSuffix (s p : string) : bool :=
  bool_decide (drop (String.length s - String.length p) (bytes_of_string s) = bytes_of_string p).
Definition TrimPrefix (s p : string) : string :=
  if HasPrefix s p then string_of_bytes (drop (String.length p) (bytes_of_string s)) else s.

(** [strings.Split(s, sep)] for a one-byte separator. *)
Fixpoint split_bytes (sep : byte) (l cur : list byte) : list (list byte) :=
  match l with
  | [] => [cur]
  | b :: l => if chr_eqb b sep then cur :: split_bytes sep l [] else split_bytes sep l (cur ++ [b])
  end.
Definition Split (s : string) (sep : byte) : list string :=
  string_of_bytes <$> split_bytes sep (bytes_of_string s) [].

(** ** [strconv] and [fmt.Sscanf] *)

(** Value of a digit string, most significant digit first. *)
Definition digits_val (l : list byte) : Z := foldl (λ acc b, acc * 10 + digit_val b) 0 l.

(** [strconv.ParseUint(s, 10, 64)]; [None] is an error (syntax or range). *)
Definition ParseUint_bytes (l : list byte) : option Z :=
  match l with
  | [] => None
  | _ => if forallb is_digit l then
           (if digits_val l <=? MaxUint64 then Some (digits_val l) else None)
         else None
  end.
Definition ParseUint (s : string) : option Z := ParseUint_bytes (bytes_of_string s).

(** [strconv.ParseInt(s, 10, 64)]. *)
Definition ParseInt_bytes (l : list byte) : option Z :=
  match l with
  | "+"%byte :: l => n ← ParseUint_bytes l; if n <=? MaxInt64 then Some n else None
  | "-"%byte :: l => n ← ParseUint_bytes l; if n <=? MaxInt64 + 1 then Some (-n) else None
  | l => n ← ParseUint_bytes l; if n <=? MaxInt64 then Some n else None
  end.
Definition ParseInt (s : string) : option Z := ParseInt_bytes (bytes_of_string s).

(** [fmt.Sscanf(s, "%d", &v)]: leading blanks, a sign, a run of digits; what
    follows is ignored, a leading newline is an error. *)
Fixpoint skip_space (l : list byte) : option (list byte) :=
  match l with
  | [] => Some []
  | b :: l' => if chr_eqb b "010" then None
               else if is_space b then skip_space l' else Some l
  end.
Fixpoint digit_run (l : list byte) : list byte :=
  match l with
  | [] => []
  | b :: l => if is_digit b then b :: digit_run l else []
  end.
Definition Sscanf_d (s : string) : option Z :=
  l ← skip_space (bytes_of_string s);
  match l with
  | "+"%byte :: l => ParseInt_bytes (digit_run l)
  | "-"%byte :: l => ParseInt_bytes ("-"%byte :: digit_run l)
  | l => ParseInt_bytes (digit_run l)
  end.

(** [strconv.FormatInt(v, 10)] / [fmt.Sprintf("%d", v)]. *)
Fixpoint digits_fuel (fuel : nat) (z : Z) (acc : list byte) : list byte :=
  match fuel with
  | O => acc
  | S f => let acc := byte_of (48 + z `mod` 10) :: acc in
           if z <? 10 then acc else digits_fuel f (z / 10) acc
  end.
Definition FormatInt_bytes (z : Z) : list byte :=
  if z <? 0 then "-"%byte :: digits_fuel 20 (- z) [] else digits_fuel 20 z [].
Definition FormatInt (z : Z) : string := string_of_bytes (FormatInt_bytes z).

(** ** String maps

    A Go [map[string]string] as the list of its entries in the order the
    runtime happens to iterate them; keys are distinct. Statements quantify
    over all such lists, hence over all iteration orders. *)
Abbreviation gomap := (list (string * string)).
Definition wf_map (m : gomap) : Prop := NoDup m.*1.

Fixpoint map_lookup (m : gomap) (k : string) : option string :=
  match m with
  | [] => None
  | (k', v) :: m => if decide (k' = k) then Some v else map_lookup m k
  end.
(** [m[k]]: the zero value when absent. *)
Definition mget (m : gomap) (k : string) : string := default "" (map_lookup m k).
Fixpoint map_set (m : gomap) (k v : string) : gomap :=
  match m with
  | [] => [(k, v)]
  | (k', v') :: m => if decide (k' = k) then (k, v) :: m else (k', v') :: map_set m k v
  end.
Definition map_delete (m : gomap) (k : string) : gomap :=
  filter (λ kv, kv.1 ≠ k) m.

(** ** [encoding/base64] *)

Definition std_alphabet : list byte :=
  bytes_of_string "ABCDEFGHIJKLMNOPQRSTUVWXYZabcdefghijklmnopqrstuvwxyz0123456789+/".
Definition url_alphabet : list byte :=
  bytes_of_string "ABCDEFGHIJKLMNOPQRSTUVWXYZabcdefghijklmnopqrstuvwxyz0123456789-_".

Definition b64_char (alpha : list byte) (v : Z) : byte := nth (Z.to_nat v) alpha x00.
Fixpoint index_of (b : byte) (l : list byte) (i : Z) : option Z :=
  match l with
  | [] => None
  | c :: l => if chr_eqb c b then Some i else index_of b l (i + 1)
  end.
Definition b64_val (alpha : list byte) (b : byte) : option Z := index_of b alpha 0.

Fixpoint b64_encode (alpha : list byte) (pad : bool) (l : list byte) : list byte :=
  match l with
  | [] => []
  | [a] =>
      b64_char alpha (byte_val a / 4) :: b64_char alpha (byte_val a `mod` 4 * 16) ::
      (if pad then ["="%byte; "="%byte] else [])
  | [a; b] =>
      b64_char alpha (byte_val a / 4) ::
      b64_char alpha (byte_val a `mod` 4 * 16 + byte_val b / 16) ::
      b64_char alpha (byte_val b `mod` 16 * 4) ::
      (if pad then ["="%byte] else [])
  | a :: b :: c :: l =>
      b64_char alpha (byte_val a / 4) ::
      b64_char alpha (byte_val a `mod` 4 * 16 + byte_val b / 16) ::
      b64_char alpha (byte_val b `mod` 16 * 4 + byte_val c / 64) ::
      b64_char alpha (byte_val c `mod` 64) :: b64_encode alpha pad l
  end.

Definition b64_byte1 (va vb : Z) : byte := byte_of (va * 4 + vb / 16).
Definition b64_byte2 (vb vc : Z) : byte := byte_of (vb `mod` 16 * 16 + vc / 4).
Definition b64_byte3 (vc vd : Z) : byte := byte_of (vc `mod` 4 * 64 + vd).

(** Decoding is not strict: unused trailing bits are ignored. *)
Fixpoint b64_decode (alpha : list byte) (pad : bool) (l : list byte) : option (list byte) :=
  match l with
  | [] => Some []
  | [a; b] =>
      if pad then None
      else va ← b64_val alpha a; vb ← b64_val alpha b; Some [b64_byte1 va vb]
  | [a; b; c] =>
      if pad then None
      else va ← b64_val alpha a; vb ← b64_val alpha b; vc ← b64_val alpha c;
           Some [b64_byte1 va vb; b64_byte2 vb vc]
  | a :: b :: c :: d :: l =>
      va ← b64_val alpha a; vb ← b64_val alpha b;
      if pad && chr_eqb c "=" then
        (if chr_eqb d "=" && bool_decide (l = []) then Some [b64_byte1 va vb] else None)
      else
        vc ← b64_val alpha c;
        if pad && chr_eqb d "=" then
          (if bool_decide (l = []) then Some [b64_byte1 va vb; b64_byte2 vb vc] else None)
        else
          vd ← b64_val alpha d;
          r ← b64_decode alpha pad l;
          Some (b64_byte1 va vb :: b64_byte2 vb vc :: b64_byte3 vc vd :: r)
  | _ => None
  end.

(** Carriage returns and newlines are skipped by the decoder. *)
Definition strip_newlines (l : list byte) : list byte :=
  filter (λ b, b ≠ "010"%byte ∧ b ≠ "013"%byte) l.

Definition EncodeToString (alpha : list byte) (pad : bool) (l : list byte) : string :=
  string_of_bytes (b64_encode alpha pad l).
Definition DecodeString (alpha : list byte) (pad : bool) (s : string) : option (list byte) :=
  b64_decode alpha pad (strip_newlines (bytes_of_string s)).

(** ** Lemmas *)

Lemma bytes_of_string_of_bytes l : bytes_of_string (string_of_bytes l) = l.
Proof. apply String.list_byte_of_string_of_list_byte. Qed.
Lemma bytes_of_string_app s t :
  bytes_of_string (s +:+ t) = bytes_of_string s ++ bytes_of_string t.
Proof.
  unfold bytes_of_string. induction s as [|a s IH]; [done|].
  change (String a s +:+ t) with (String a (s +:+ t)).
  unfold String.list_byte_of_string in *. cbn [String.list_ascii_of_string map]. by rewrite IH.
Qed.
Lemma string_of_bytes_of_string s : string_of_bytes (bytes_of_string s) = s.
Proof. apply String.string_of_list_byte_of_string. Qed.

(** A base64 alphabet: the 64 characters are distinct and none is a newline
    or the padding character. *)
Definition alphabet_ok (alpha : list byte) : bool :=
  forallb (λ i, bool_decide (b64_val alpha (b64_char alpha (Z.of_nat i)) = Some (Z.of_nat i)) &&
                negb (chr_eqb (b64_char alpha (Z.of_nat i)) "=") &&
                negb (chr_eqb (b64_char alpha (Z.of_nat i)) "010") &&
                negb (chr_eqb (b64_char alpha (Z.of_nat i)) "013")) (seq 0 64).

Lemma std_alphabet_ok : alphabet_ok std_alphabet = true.
Proof. vm_compute. reflexivity. Qed.
Lemma url_alphabet_ok : alphabet_ok url_alphabet = true.
Proof. vm_compute. reflexivity. Qed.

Lemma alphabet_spec alpha v :
  alphabet_ok alpha = true → 0 ≤ v < 64 →
  b64_val alpha (b64_char alpha v) = Some v ∧ chr_eqb (b64_char alpha v) "=" = false ∧
  b64_char alpha v ≠ "010"%byte ∧ b64_char alpha v ≠ "013"%byte.
Proof.
  intros Ha Hv. unfold alphabet_ok in Ha. rewrite forallb_forall in Ha.
  specialize (Ha (Z.to_nat v)). rewrite in_seq, Z2Nat.id in Ha by lia.
  specialize (Ha ltac:(lia)). apply andb_prop in Ha as [[[? ?]%andb_prop ?]%andb_prop ?].
  rewrite negb_true_iff in *. split_and!; [by eapply bool_decide_eq_true_1|done|..];
    intros E; rewrite E in *; by vm_compute in *.
Qed.

(** Three-step induction, the way the encoder consumes its input. *)
Lemma list_ind3 {A} (P : list A → Prop) :
  P [] → (∀ a, P [a]) → (∀ a b, P [a; b]) → (∀ a b c l, P l → P (a :: b :: c :: l)) → ∀ l, P l.
Proof.
  intros H0 H1 H2 H3. fix IH 1. intros [|a [|b [|c l]]]; [done..|]. apply H3, IH.
Qed.

Section base64.
Context (alpha : list byte) (Halpha : alphabet_ok alpha = true).
#[local] Ltac Zify.zify_post_hook ::= Z.div_mod_to_equations.

Lemma b64_char_val v : 0 ≤ v < 64 → b64_val alpha (b64_char alpha v) = Some v.
Proof. intros. by apply alphabet_spec. Qed.
Lemma b64_char_pad v : 0 ≤ v < 64 → chr_eqb (b64_char alpha v) "=" = false.
Proof. intros. by apply alphabet_spec. Qed.

Lemma b64_byte1_enc a w :
  0 ≤ w < 16 → b64_byte1 (byte_val a / 4) (byte_val a `mod` 4 * 16 + w) = a.
Proof.
  intros. pose proof (byte_val_range a). apply byte_val_inj.
  unfold b64_byte1. rewrite byte_val_of.
  replace (byte_val a / 4 * 4 + (byte_val a `mod` 4 * 16 + w) / 16) with (byte_val a) by lia.
  by rewrite Z.mod_small by lia.
Qed.
Lemma b64_byte2_enc a b w :
  0 ≤ w < 4 → b64_byte2 (byte_val a `mod` 4 * 16 + byte_val b / 16) (byte_val b `mod` 16 * 4 + w) = b.
Proof.
  intros. pose proof (byte_val_range a). pose proof (byte_val_range b). apply byte_val_inj.
  unfold b64_byte2. rewrite byte_val_of.
  replace ((byte_val a `mod` 4 * 16 + byte_val b / 16) `mod` 16 * 16 +
           (byte_val b `mod` 16 * 4 + w) / 4) with (byte_val b) by lia.
  by rewrite Z.mod_small by lia.
Qed.
Lemma b64_byte3_enc b c :
  b64_byte3 (byte_val b `mod` 16 * 4 + byte_val c / 64) (byte_val c `mod` 64) = c.
Proof.
  pose proof (byte_val_range b). pose proof (byte_val_range c). apply byte_val_inj.
  unfold b64_byte3. rewrite byte_val_of.
  replace ((byte_val b `mod` 16 * 4 + byte_val c / 64) `mod` 4 * 64 + byte_val c `mod` 64)
    with (byte_val c) by lia.
  by rewrite Z.mod_small by lia.
Qed.

Lemma b64_decode_encode pad l : b64_decode alpha pad (b64_encode alpha pad l) = Some l.
Proof.
  induction l as [|a|a b|a b c l IH] using list_ind3.
  - done.
  - pose proof (byte_val_range a). pose proof (b64_byte1_enc a 0 ltac:(lia)) as E.
    rewrite Z.add_0_r in E.
    destruct pad; cbn -[b64_val b64_char Z.mul Z.div Z.modulo];
      rewrite !b64_char_val by lia; cbn -[b64_val b64_char Z.mul Z.div Z.modulo]; by rewrite E.
  - pose proof (byte_val_range a). pose proof (byte_val_range b).
    pose proof (b64_byte2_enc a b 0 ltac:(lia)) as E. rewrite Z.add_0_r in E.
    destruct pad; cbn -[b64_val b64_char Z.mul Z.div Z.modulo];
      rewrite ?b64_char_pad, !b64_char_val by lia;
      cbn -[b64_val b64_char Z.mul Z.div Z.modulo]; by rewrite E, b64_byte1_enc by lia.
  - pose proof (byte_val_range a). pose proof (byte_val_range b). pose proof (byte_val_range c).
    cbn -[b64_val b64_char Z.mul Z.div Z.modulo].
    rewrite !b64_char_pad, !andb_false_r, !b64_char_val by lia.
    cbn -[b64_val b64_char Z.mul Z.div Z.modulo].
    rewrite IH, b64_byte1_enc, b64_byte2_enc, b64_byte3_enc by lia. done.
Qed.

Lemma strip_newlines_encode pad l : strip_newlines (b64_encode alpha pad l) = b64_encode alpha pad l.
Proof.
  assert (Hk : ∀ v r, 0 ≤ v < 64 →
    strip_newlines (b64_char alpha v :: r) = b64_char alpha v :: strip_newlines r).
  { intros v r Hv. unfold strip_newlines. rewrite filter_cons_True; [done|].
    by apply alphabet_spec. }
  induction l as [|a|a b|a b c l IH] using list_ind3; [done|..];
    cbn [b64_encode];
    repeat match goal with b : byte |- _ => lazymatch goal with
      H : 0 ≤ byte_val b < 256 |- _ => fail | _ => pose proof (byte_val_range b) end end;
    rewrite !Hk by lia; [by destruct pad..|]. by rewrite IH.
Qed.

(** [DecodeString] inverts [EncodeToString]. *)
Lemma DecodeString_EncodeToString pad l :
  DecodeString alpha pad (EncodeToString alpha pad l) = Some l.
Proof.
  unfold DecodeString, EncodeToString.
  by rewrite bytes_of_string_of_bytes, strip_newlines_encode, b64_decode_encode.
Qed.
End base64.

(** ** Decimal round trip *)

Lemma digits_val_from a l :
  foldl (λ acc b, acc * 10 + digit_val b) a l = a * 10 ^ len l + digits_val l.
Proof.
  unfold digits_val. revert a. induction l as [|b l IH]; intros a; cbn [foldl length].
  - rewrite Z.mul_1_r. lia.
  - rewrite IH, (IH (0 * 10 + digit_val b)), Nat2Z.inj_succ, Z.pow_succ_r by lia. ring.
Qed.

Lemma digits_val_cons b l : digits_val (b :: l) = digit_val b * 10 ^ len l + digits_val l.
Proof. unfold digits_val at 1. cbn [foldl]. by rewrite digits_val_from. Qed.

Lemma digit_char d : 0 ≤ d < 10 → digit_val (byte_of (48 + d)) = d ∧ is_digit (byte_of (48 + d)) = true.
Proof.
  intros. unfold digit_val, is_digit. rewrite byte_val_of, Z.mod_small by lia.
  split; [lia|]. apply andb_true_intro. split; apply Z.leb_le; lia.
Qed.

Lemma digits_fuel_spec f z acc :
  0 ≤ z < 10 ^ Z.of_nat f → (0 < f)%nat →
  digits_val (digits_fuel f z acc) = z * 10 ^ len acc + digits_val acc ∧
  (forallb is_digit acc = true → forallb is_digit (digits_fuel f z acc) = true) ∧
  digits_fuel f z acc ≠ [].
Proof.
  revert z acc. induction f as [|f IH]; intros z acc Hz Hf; [lia|].
  cbn [digits_fuel]. pose proof (Z.mod_pos_bound z 10 ltac:(lia)).
  pose proof (Z.div_mod z 10 ltac:(lia)). destruct (digit_char (z `mod` 10)) as [Hv Hd]; [lia|].
  destruct (Z.ltb_spec z 10).
  - rewrite digits_val_cons, Hv, Z.mod_small by lia. split_and!; [done| |done].
    intros. cbn [forallb]. rewrite Z.mod_small in Hd by lia. by rewrite Hd.
  - rewrite Nat2Z.inj_succ, Z.pow_succ_r in Hz by lia.
    destruct f as [|f]; [cbn in Hz; lia|].
    destruct (IH (z / 10) (byte_of (48 + z `mod` 10) :: acc)) as (IH1 & IH2 & IH3).
    { split; [apply Z.div_pos; lia|apply Z.div_lt_upper_bound; lia]. }
    { lia. }
    split_and!; [|intros Ha; apply IH2; cbn [forallb]; by rewrite Hd, Ha|done].
    rewrite IH1, digits_val_cons, Hv. cbn [length]. rewrite Nat2Z.inj_succ, Z.pow_succ_r by lia. nia.
Qed.

Lemma ParseUint_FormatInt z : 0 ≤ z ≤ MaxInt64 → ParseUint_bytes (FormatInt_bytes z) = Some z.
Proof.
  intros Hz. unfold MaxInt64 in Hz. unfold FormatInt_bytes. rewrite (proj2 (Z.ltb_ge z 0)) by lia.
  destruct (digits_fuel_spec 20 z []) as (H1 & H2 & H3); [lia..|].
  unfold ParseUint_bytes. destruct (digits_fuel 20 z []) eqn:E; [done|].
  rewrite H2 by done. rewrite H1. cbn [length digits_val foldl].
  rewrite Z.mul_1_r, Z.add_0_r. unfold MaxUint64. by rewrite (proj2 (Z.leb_le _ _)) by lia.
Qed.

Lemma FormatInt_digits z : 0 ≤ z ≤ MaxInt64 →
  forallb is_digit (FormatInt_bytes z) = true ∧ FormatInt_bytes z ≠ [].
Proof.
  intros Hz. unfold MaxInt64 in Hz. unfold FormatInt_bytes. rewrite (proj2 (Z.ltb_ge z 0)) by lia.
  destruct (digits_fuel_spec 20 z []) as (_ & H2 & H3); [lia..|]. auto.
Qed.

(** A digit string starts with no sign. *)
Lemma ParseInt_digits l :
  forallb is_digit l = true →
  ParseInt_bytes l = (n ← ParseUint_bytes l; if n <=? MaxInt64 then Some n else None).
Proof.
  intros Hl. destruct l as [|b l]; [done|]. cbn [forallb] in Hl. apply andb_prop in Hl as [Hb _].
  unfold ParseInt_bytes. destruct b; try done; vm_compute in Hb; done.
Qed.

Lemma ParseInt_FormatInt z : 0 ≤ z ≤ MaxInt64 → ParseInt_bytes (FormatInt_bytes z) = Some z.
Proof.
  intros Hz. rewrite ParseInt_digits by (by apply FormatInt_digits).
  rewrite ParseUint_FormatInt by done. cbn. by rewrite (proj2 (Z.leb_le _ _)) by lia.
Qed.

Lemma digits_val_nonneg l : forallb is_digit l = true → 0 ≤ digits_val l.
Proof.
  induction l as [|b l IH]; [done|]. cbn [forallb]. intros [Hb Hl]%andb_prop.
  rewrite digits_val_cons. unfold is_digit, digit_val in *.
  apply andb_prop in Hb as [Hb%Z.leb_le _]. specialize (IH Hl).
  pose proof (Z.pow_nonneg 10 (len l) ltac:(lia)). nia.
Qed.

Lemma ParseUint_range l n : ParseUint_bytes l = Some n → 0 ≤ n ≤ MaxUint64.
Proof.
  unfold ParseUint_bytes. destruct l as [|b l]; [done|].
  destruct (forallb is_digit (b :: l)) eqn:E; [|done].
  apply digits_val_nonneg in E. case_match eqn:E2; [|done]. zbool. intros [= <-]. lia.
Qed.

Lemma ParseInt_range l n : ParseInt_bytes l = Some n → is_i64 n.
Proof.
  assert (G : ∀ l, (n ← ParseUint_bytes l; if n <=? MaxInt64 then Some n else None) = Some n → is_i64 n).
  { intros l'. destruct (ParseUint_bytes l') eqn:E; cbn; [|done]. apply ParseUint_range in E.
    case_match eqn:E2; [|done]. zbool. intros [= <-]. unfold is_i64, MaxInt64 in *. lia. }
  unfold ParseInt_bytes. destruct l as [|b l]; [done|]. destruct b; try apply G.
  destruct (ParseUint_bytes l) eqn:E; cbn; [|done]. apply ParseUint_range in E.
  case_match eqn:E2; [|done]. zbool. intros [= <-]. unfold is_i64, MaxInt64 in *. lia.
Qed.

Lemma split_bytes_none sep l cur :
  Forall (λ b, chr_eqb b sep = false) l → split_bytes sep l cur = [cur ++ l].
Proof.
  intros Hl. revert cur. induction Hl as [|b l Hb Hl IH]; intros cur; cbn.
  - by rewrite app_nil_r.
  - rewrite Hb, IH, <-(assoc_L (++)). done.
Qed.

Lemma split_bytes_app sep l r cur :
  Forall (λ b, chr_eqb b sep = false) l →
  split_bytes sep (l ++ sep :: r) cur = (cur ++ l) :: split_bytes sep r [].
Proof.
  intros Hl. revert cur. induction Hl as [|b l Hb Hl IH]; intros cur; cbn.
  - replace (chr_eqb sep sep) with true by (by destruct sep). by rewrite app_nil_r.
  - rewrite Hb, IH, <-(assoc_L (++)). done.
Qed.
