(* ===== verification/GoIO.v ===== *)
(** * Byte sources and readers

    What the gateway uses of Go's [io] package: a byte source with a sticky
    final error, [io.ReadFull], context polling, and the contract of
    [io.Reader]. The contract is the type class [StreamReader]; every
    streaming reader of the gateway is proved to be an instance, so that the
    round-trip theorems hold for every sequence of buffer sizes a caller may
    use. [Pull] captures the loop the chunk-oriented readers share: serve the
    pending bytes, otherwise advance by one record. *)
From S2P Require Import Prelude.

(** ** Sources *)

(** An [io.Reader] seen by a consumer: the bytes it will deliver and the
    error it reports from then on ([EOF] for a stream that just ends). *)
Record Source := mkSource { src_data : list byte; src_end : error }.

Definition src_of (data : list byte) : Source := mkSource data EOF.

(** [io.ReadFull(src, buf[:n])]: the bytes read, the error and the source
    afterwards. A source that ends early reports [ErrUnexpectedEOF] after a
    partial read and its own error when nothing was read. *)
Definition ReadFull (s : Source) (n : nat) : list byte * option error * Source :=
  if decide (n ≤ length (src_data s))%nat then
    (take n (src_data s), None, mkSource (drop n (src_data s)) (src_end s))
  else
    match src_data s with
    | [] => ([], Some (src_end s), s)
    | _ => (src_data s,
            Some (if decide (src_end s = EOF) then ErrUnexpectedEOF else src_end s),
            mkSource [] (src_end s))
    end.

(** [io.CopyN(io.Discard, src, n)]: bytes skipped, error, source. *)
Definition DiscardN (s : Source) (n : nat) : nat * option error * Source :=
  if decide (n ≤ length (src_data s))%nat then
    (n, None, mkSource (drop n (src_data s)) (src_end s))
  else (length (src_data s), Some (src_end s), mkSource [] (src_end s)).

(** A context: the answers [ctx.Done()]/[ctx.Err()] gives at the successive
    polls, [None] while the context is live. An exhausted list stays live. *)
Definition Ctx := list (option error).
Definition ctx_poll (c : Ctx) : option error * Ctx :=
  match c with [] => (None, []) | a :: c => (a, c) end.

Lemma ReadFull_enough s n :
  (n ≤ length (src_data s))%nat →
  ReadFull s n = (take n (src_data s), None, mkSource (drop n (src_data s)) (src_end s)).
Proof. intros. unfold ReadFull. by rewrite decide_True. Qed.

Lemma ReadFull_empty s n :
  (0 < n)%nat → src_data s = [] → ReadFull s n = ([], Some (src_end s), s).
Proof. intros ? E. unfold ReadFull. rewrite decide_False, E; [done|]. rewrite E; cbn; lia. Qed.

Lemma ReadFull_short s n :
  (0 < length (src_data s) < n)%nat → src_end s = EOF →
  ReadFull s n = (src_data s, Some ErrUnexpectedEOF, mkSource [] EOF).
Proof.
  intros ? E. unfold ReadFull. rewrite decide_False by lia.
  destruct (src_data s) eqn:Ed; [cbn in *; lia|]. by rewrite E.
Qed.

(** Whatever happens, the bytes read and the bytes left are the source. *)
Lemma ReadFull_app s n bs e s' :
  ReadFull s n = (bs, e, s') →
  src_data s = bs ++ src_data s' ∧ src_end s' = src_end s ∧ (length bs ≤ n)%nat ∧
  (e = None → length bs = n) ∧ (e ≠ None → src_data s' = [] ∧ (length bs < n)%nat) ∧
  (e ≠ None → bs = [] → e = Some (src_end s)) ∧
  (e ≠ None → bs ≠ [] → e = Some (if decide (src_end s = EOF) then ErrUnexpectedEOF else src_end s)).
Proof.
  unfold ReadFull. case_decide.
  - intros [= <- <- <-]. cbn. rewrite take_drop, length_take. naive_solver lia.
  - destruct (src_data s) eqn:E; intros [= <- <- <-]; cbn in *; rewrite ?E, ?app_nil_r;
      naive_solver lia.
Qed.

(** ** Readers *)

(** The contract of a streaming reader. [sr_rem s O e] says that in state [s]
    the reader still owes the bytes [O] and then the error [e]. A [Read] into
    a non-empty buffer either hands out a non-empty prefix of [O], or hands
    out all of [O] together with [e]; [None] would be a read that does not
    return, which the law excludes. *)
Class StreamReader (T : Type) := {
  sr_read : T → nat → option (list byte * option error * T);
  sr_rem : T → list byte → error → Prop;
  sr_law : ∀ s O e n, sr_rem s O e → (0 < n)%nat →
    ∃ bs oe s', sr_read s n = Some (bs, oe, s') ∧ (length bs ≤ n)%nat ∧
      ((oe = None ∧ bs ≠ [] ∧ ∃ O', O = bs ++ O' ∧ sr_rem s' O' e) ∨
       (oe = Some e ∧ bs = O)) }.

(** Read until an error, with the [k]-th buffer of size [sz k]. *)
Fixpoint drain `{StreamReader T} (fuel : nat) (sz : nat → nat) (s : T) : option (list byte * error) :=
  match fuel with
  | O => None
  | S f =>
      match sr_read s (sz f) with
      | None => None
      | Some (bs, Some e, _) => Some (bs, e)
      | Some (bs, None, s') =>
          match drain f sz s' with
          | None => None
          | Some (bs', e) => Some (bs ++ bs', e)
          end
      end
  end.

Lemma drain_rem `{StreamReader T} sz (s : T) O e :
  (∀ k, 0 < sz k)%nat → sr_rem s O e →
  ∀ fuel, (length O < fuel)%nat → drain fuel sz s = Some (O, e).
Proof.
  intros Hsz. revert s. induction O as [O IH] using (induction_ltof1 _ length).
  intros s Hrem [|f] Hf; [lia|].
  destruct (sr_law s O e (sz f) Hrem (Hsz f)) as (bs & oe & s' & Hr & _ & Hcase).
  cbn. rewrite Hr. destruct Hcase as [(-> & Hne & O' & -> & Hrem')|(-> & ->)]; [|done].
  assert (0 < length bs)%nat by (destruct bs; cbn; [done|lia]).
  rewrite length_app in Hf. rewrite (IH O'); [done| |done|lia].
  unfold ltof. rewrite length_app. lia.
Qed.

(** A drain that returns, whatever its fuel, returns what was owed. *)
Lemma drain_inv `{StreamReader T} sz (s : T) O e fuel O' e' :
  (∀ k, 0 < sz k)%nat → sr_rem s O e → drain fuel sz s = Some (O', e') → O' = O ∧ e' = e.
Proof.
  intros Hsz. revert s O O'. induction fuel as [|f IH]; intros s O O' Hrem; cbn; [done|].
  destruct (sr_law s O e (sz f) Hrem (Hsz f)) as (bs & oe & s' & -> & _ & Hcase).
  destruct Hcase as [(-> & _ & O1 & -> & Hrem')|(-> & ->)]; [|by intros [= <- <-]].
  destruct (drain f sz s') as [[bs' x]|] eqn:E; [|done]. intros [= <- <-].
  by destruct (IH _ _ _ Hrem' E) as [-> ->].
Qed.

(** ** Pull-style readers

    The state of a reader that produces one record at a time: the bytes
    already produced and not yet handed out, whether production has finished,
    and one production step, which may fail. [pl_ok] holds of the states the
    constructors build and the successful steps keep. *)
Class Pull (T : Type) := {
  pl_pending : T → list byte;
  pl_set_pending : list byte → T → T;
  pl_finished : T → bool;
  pl_advance : T → T * option error;
  pl_measure : T → nat;
  pl_ok : T → Prop;
  pl_get_set : ∀ p s, pl_pending (pl_set_pending p s) = p;
  pl_set_set : ∀ p q s, pl_set_pending p (pl_set_pending q s) = pl_set_pending p s;
  pl_set_get : ∀ s, pl_set_pending (pl_pending s) s = s;
  pl_finished_set : ∀ p s, pl_finished (pl_set_pending p s) = pl_finished s;
  pl_measure_set : ∀ p s, pl_measure (pl_set_pending p s) = pl_measure s;
  pl_ok_set : ∀ p s, pl_ok s → pl_ok (pl_set_pending p s);
  pl_advance_ok : ∀ s s', pl_ok s → pl_pending s = [] → pl_finished s = false →
    pl_advance s = (s', None) → pl_ok s' ∧ (pl_measure s' < pl_measure s)%nat }.

(** The loop [for written < len(p) { ... }] of the chunk readers; [acc] is
    what has been written into the caller's buffer, [room] what is left of
    it. *)
Fixpoint pull_loop `{Pull T} (fuel : nat) (s : T) (room : nat) (acc : list byte)
    : option (list byte * option error * T) :=
  match fuel with
  | O => None
  | S f =>
      if decide (room = 0)%nat then Some (acc, None, s)
      else match pl_pending s with
      | [] =>
          if pl_finished s then Some (acc, None, s)
          else match pl_advance s with
          | (s', None) => pull_loop f s' room acc
          | (s', Some e) => Some (acc, Some e, s')
          end
      | p => let n := Nat.min room (length p) in
             pull_loop f (pl_set_pending (drop n p) s) (room - n) (acc ++ take n p)
      end
  end.

(** Enough fuel for one [Read]: every turn of the loop uses up room or
    lowers the measure. *)
Definition pull_fuel `{Pull T} (s : T) (room : nat) : nat := S (room + pl_measure s).

(** What a pull reader still owes: by rule induction on its production steps. *)
Inductive pulls `{Pull T} : T → list byte → error → Prop :=
| pulls_pending s O e :
    pl_pending s ≠ [] → pulls (pl_set_pending [] s) O e → pulls s (pl_pending s ++ O) e
| pulls_end s :
    pl_pending s = [] → pl_finished s = true → pulls s [] EOF
| pulls_step s s' O e :
    pl_pending s = [] → pl_finished s = false → pl_advance s = (s', None) →
    pulls s' O e → pulls s O e
| pulls_fail s s' e :
    pl_pending s = [] → pl_finished s = false → pl_advance s = (s', Some e) →
    pulls s [] e.

Section pull.
Context {T : Type} `{Pull T}.
Implicit Types s : T.

Lemma pulls_set_pending p s O e :
  pulls (pl_set_pending [] s) O e → pulls (pl_set_pending p s) (p ++ O) e.
Proof.
  intros Hp. destruct p as [|b p]; [done|].
  rewrite <-(pl_get_set (b :: p) s) at 2. apply pulls_pending.
  - by rewrite pl_get_set.
  - by rewrite pl_set_set.
Qed.

Lemma pulls_pending_inv s O e :
  pulls s O e → ∃ O', O = pl_pending s ++ O' ∧ pulls (pl_set_pending [] s) O' e.
Proof.
  intros Hp. destruct (pl_pending s) as [|b p] eqn:Ep.
  - exists O. split; [done|]. by rewrite <-Ep, pl_set_get.
  - inversion Hp; subst; try congruence. rewrite Ep. eauto.
Qed.

Lemma pulls_idle_inv s O e :
  pulls s O e → pl_pending s = [] → pl_finished s = false →
  (∃ s', pl_advance s = (s', None) ∧ pulls s' O e) ∨ (∃ s', pl_advance s = (s', Some e) ∧ O = []).
Proof. intros Hp Hpe Hf. inversion Hp; subst; try congruence; eauto. Qed.

Lemma pulls_done s O : pl_finished s = true → pl_pending s = O → pulls s O EOF.
Proof.
  intros Hf <-. destruct (pl_pending s) as [|b p] eqn:Ep; [by apply pulls_end|].
  rewrite <-Ep, <-(app_nil_r (pl_pending s)). apply pulls_pending; [by rewrite Ep|].
  apply pulls_end; [apply pl_get_set|by rewrite pl_finished_set].
Qed.

(** Every pull reader owes something: production terminates. *)
Lemma pulls_total s : pl_ok s → ∃ O e, pulls s O e.
Proof.
  remember (pl_measure s) as m eqn:Em. revert s Em.
  induction m as [m IH] using lt_wf_ind. intros s -> Hok.
  assert (Hempty : ∀ t, pl_ok t → pl_pending t = [] → pl_measure t = pl_measure s → ∃ O e, pulls t O e).
  { intros t Htok Ht Hm. destruct (pl_finished t) eqn:Ef; [eauto using pulls|].
    destruct (pl_advance t) as [t' [e|]] eqn:Ea; [eauto using pulls|].
    destruct (pl_advance_ok t t') as [? ?]; [done..|].
    destruct (IH (pl_measure t')) with (s := t') as (O & e & ?); [lia|done|done|eauto using pulls]. }
  destruct (pl_pending s) as [|b p] eqn:Ep; [by apply Hempty|].
  destruct (Hempty (pl_set_pending [] s)) as (O & e & Hp);
    [by apply pl_ok_set|apply pl_get_set|apply pl_measure_set|].
  exists ((b :: p) ++ O), e. rewrite <-Ep. apply pulls_pending; [by rewrite Ep|done].
Qed.

Lemma pulls_det s O1 e1 O2 e2 : pulls s O1 e1 → pulls s O2 e2 → O1 = O2 ∧ e1 = e2.
Proof.
  intros H1. revert O2 e2. induction H1; inversion 1; subst; try congruence; try done.
  - match goal with Hq : pulls _ ?O ?e |- _ ++ _ = _ ++ ?O ∧ _ = ?e =>
      by destruct (IHpulls _ _ Hq) as [-> ->] end.
  - apply IHpulls. congruence.
  - split; congruence.
Qed.

(** One [Read]: with the fuel above the loop returns, and it hands out a
    prefix of what is owed. *)
Lemma pull_loop_spec fuel s room acc O e :
  pl_ok s → pulls s O e → (room + pl_measure s < fuel)%nat →
  ∃ bs oe s', pull_loop fuel s room acc = Some (acc ++ bs, oe, s') ∧ (length bs ≤ room)%nat ∧
    ((oe = None ∧ (length bs = room ∨ (O = bs ∧ e = EOF ∧ pl_finished s' = true ∧ pl_pending s' = [])) ∧
      pl_ok s' ∧ ∃ O', O = bs ++ O' ∧ pulls s' O' e) ∨
     (oe = Some e ∧ bs = O)).
Proof.
  revert s room acc O. induction fuel as [|fuel IH]; intros s room acc O Hok Hp Hf; [lia|].
  cbn [pull_loop]. case_decide as Hr.
  { exists [], None, s. rewrite app_nil_r. split_and!; [done|cbn; lia|].
    left. split_and!; eauto. }
  destruct (pl_pending s) as [|b p] eqn:Ep.
  - inversion Hp; subst; try congruence.
    + rewrite H1. exists [], None, s. rewrite app_nil_r. split_and!; [done|cbn; lia|].
      left. split_and!; eauto 6.
    + rewrite H1, H2. destruct (pl_advance_ok s s') as [? ?]; [done..|].
      destruct (IH s' room acc O) as (bs & oe & t & ? & ? & ?); [done|done|lia|eauto 7].
    + rewrite H1, H2. exists [], (Some e), s'. rewrite app_nil_r.
      split_and!; [done|cbn; lia|]. by right.
  - inversion Hp; subst; try congruence. clear Hp. rewrite Ep in *. clear H0.
    set (n := Nat.min room (length (b :: p))).
    destruct (IH (pl_set_pending (drop n (b :: p)) s) (room - n) (acc ++ take n (b :: p))
                (drop n (b :: p) ++ O0)) as (bs & oe & t & Hl & Hlen & Hc).
    { by apply pl_ok_set. }
    { apply pulls_set_pending. done. }
    { rewrite pl_measure_set. subst n. cbn. lia. }
    exists (take n (b :: p) ++ bs), oe, t. rewrite (assoc_L (++)). split; [done|].
    rewrite length_app, length_take. split; [subst n; cbn in *; lia|].
    assert (Hsplit : (b :: p) ++ O0 = take n (b :: p) ++ (drop n (b :: p) ++ O0))
      by (rewrite (assoc_L (++)), take_drop; done).
    rewrite Hsplit. destruct Hc as [(-> & Hb & ? & O' & HO' & ?)|(-> & ->)]; [left|by right].
    split_and!; [done| |done|exists O'; by rewrite HO', (assoc_L (++))].
    destruct Hb as [Hb|(HO & ? & ? & ?)]; [left; subst n; cbn in *; lia|right].
    by rewrite HO.
Qed.

(** The variant that returns as soon as it has served something. *)
Fixpoint pull_one (fuel : nat) (s : T) (n : nat) : option (list byte * option error * T) :=
  match fuel with
  | O => None
  | S f =>
      match pl_pending s with
      | [] =>
          if pl_finished s then Some ([], Some EOF, s)
          else match pl_advance s with
          | (s', None) => pull_one f s' n
          | (s', Some e) => Some ([], Some e, s')
          end
      | p => let k := Nat.min n (length p) in Some (take k p, None, pl_set_pending (drop k p) s)
      end
  end.

Lemma pull_one_law fuel s O e n :
  pl_ok s → pulls s O e → (0 < n)%nat → (pl_measure s < fuel)%nat →
  ∃ bs oe s', pull_one fuel s n = Some (bs, oe, s') ∧ (length bs ≤ n)%nat ∧
    ((oe = None ∧ bs ≠ [] ∧ ∃ O', O = bs ++ O' ∧ pl_ok s' ∧ pulls s' O' e) ∨
     (oe = Some e ∧ bs = O)).
Proof.
  intros Hok Hp Hn. revert s Hok Hp. induction fuel as [|f IH]; intros s Hok Hp Hf; [lia|].
  cbn [pull_one]. destruct (pl_pending s) as [|b p] eqn:Ep.
  - destruct (pl_finished s) eqn:Efin.
    + destruct (pulls_det s [] EOF O e) as [<- <-]; [by apply pulls_end|done|].
      exists [], (Some EOF), s. split_and!; [done|cbn; lia|by right].
    + destruct (pulls_idle_inv s O e Hp Ep Efin) as [(s' & Ha & Hp')|(s' & Ha & ->)].
      * rewrite Ha. destruct (pl_advance_ok s s') as [? ?]; [done..|]. apply IH; [done|done|lia].
      * rewrite Ha. exists [], (Some e), s'. split_and!; [done|cbn; lia|by right].
  - apply pulls_pending_inv in Hp as (O' & -> & Hp). rewrite Ep.
    set (k := Nat.min n (length (b :: p))). assert (1 ≤ k)%nat by (subst k; cbn; lia).
    eexists _, _, _. split; [done|]. rewrite length_take. split; [lia|]. left.
    split_and!; [done|by destruct k; [lia|]|].
    exists (drop k (b :: p) ++ O'). rewrite (assoc_L (++)), take_drop. split_and!; [done|by apply pl_ok_set|].
    by apply pulls_set_pending.
Qed.

(** What a [Read] does once the loop has ended: bytes without an error are
    handed out as they are, an empty result is [EOF] if [atEOF] says so. *)
Definition pull_finish (atEOF : T → bool) (r : option (list byte * option error * T))
    : option (list byte * option error * T) :=
  match r with
  | None => None
  | Some (bs, Some e, s) => Some (bs, Some e, s)
  | Some ([], None, s) => if atEOF s then Some ([], Some EOF, s) else Some ([], None, s)
  | Some (bs, None, s) => Some (bs, None, s)
  end.

Lemma pull_finish_law atEOF s O e n :
  (∀ t, pl_finished t = true → atEOF t = true) →
  pl_ok s → pulls s O e → (0 < n)%nat →
  ∃ bs oe s', pull_finish atEOF (pull_loop (pull_fuel s n) s n []) = Some (bs, oe, s') ∧
    (length bs ≤ n)%nat ∧
    ((oe = None ∧ bs ≠ [] ∧ ∃ O', O = bs ++ O' ∧ pl_ok s' ∧ pulls s' O' e) ∨
     (oe = Some e ∧ bs = O)).
Proof.
  intros Hend Hok Hp Hn.
  destruct (pull_loop_spec (pull_fuel s n) s n [] O e) as (bs & oe & s' & Hl & Hlen & Hc);
    [done..|unfold pull_fuel; lia|].
  rewrite Hl. cbn [app].
  destruct Hc as [(-> & Hb & Hok' & O' & HO & Hp')|(-> & ->)];
    [|exists O, (Some e), s'; split_and!; [by destruct O|done|by right]].
  destruct bs as [|b bs]; cbn [pull_finish].
  - destruct Hb as [Hb|(-> & -> & Hf & _)]; [cbn in Hb; lia|]. rewrite (Hend _ Hf). eauto 10.
  - exists (b :: bs), None, s'. split_and!; [done|done|]. left. eauto 10.
Qed.
End pull.
