(* ===== verification/GoText.v ===== *)
(** * Text handling of the request path

    The parts of Go's [encoding/hex], [strconv] (base 16), [strings] and
    [bufio] that request authentication and body decoding use. Wire text is a
    byte list here, as it is read from a connection. *)
From S2P Require Import Prelude GoStd GoIO.
Local Open Scope Z_scope.

Abbreviation bytes := (list byte).

(** ** [encoding/hex] *)

Definition hex_digit (v : Z) : byte := byte_of (if v <? 10 then 48 + v else 87 + v).
(** [hex.EncodeToString], as bytes. *)
Definition hex_bytes (l : bytes) : bytes :=
  l ≫= λ b, [hex_digit (byte_val b / 16); hex_digit (byte_val b `mod` 16)].
Definition hex_encode (l : bytes) : string := string_of_bytes (hex_bytes l).

Definition is_lower_hex (b : byte) : bool :=
  ((48 <=? byte_val b) && (byte_val b <=? 57)) || ((97 <=? byte_val b) && (byte_val b <=? 102)).
(** The value of a hexadecimal digit of either case. *)
Definition hex_val (b : byte) : option Z :=
  if is_digit b then Some (byte_val b - 48)
  else if (97 <=? byte_val b) && (byte_val b <=? 102) then Some (byte_val b - 87)
  else if (65 <=? byte_val b) && (byte_val b <=? 70) then Some (byte_val b - 55)
  else None.
(** [hex.DecodeString]: both cases are accepted, an odd length is an error. *)
Fixpoint hex_decode (l : bytes) : option bytes :=
  match l with
  | [] => Some []
  | a :: b :: l =>
      va ← hex_val a; vb ← hex_val b; r ← hex_decode l; Some (byte_of (va * 16 + vb) :: r)
  | [_] => None
  end.

(** ** [strconv] in base 16 *)

(** Value of a digit string whose characters are all hexadecimal digits. *)
Definition hexval (l : bytes) : Z := foldl (λ acc b, acc * 16 + default 0 (hex_val b)) 0 l.
(** [strconv.ParseUint(s, 16, 64)]. *)
Definition ParseHex (l : bytes) : option Z :=
  match l with
  | [] => None
  | _ => if forallb (λ b, bool_decide (is_Some (hex_val b))) l then
           (if hexval l <=? MaxUint64 then Some (hexval l) else None)
         else None
  end.
(** [strconv.FormatUint(v, 16)]. *)
Fixpoint hexn_fuel (fuel : nat) (z : Z) (acc : bytes) : bytes :=
  match fuel with
  | O => acc
  | S f => let acc := hex_digit (z `mod` 16) :: acc in
           if z <? 16 then acc else hexn_fuel f (z / 16) acc
  end.
Definition hexn (z : Z) : bytes := hexn_fuel 16 z [].

(** ** [bufio.Reader] *)

Definition bufio_size : nat := Z.to_nat 4096.
#[global] Arguments bufio_size : simpl never.
(** The prefix up to and including the first [d], if there is one. *)
Fixpoint upto (d : byte) (l : bytes) : option bytes :=
  match l with
  | [] => None
  | b :: l => if chr_eqb b d then Some [b] else p ← upto d l; Some (b :: p)
  end.

(** [ReadSlice(d)]: up to the delimiter, the whole buffer when it holds none
    ([ErrBufferFull]), or what is left with the source's error. *)
Definition ErrBufferFull : error := Sentinel "bufio: buffer full".
Definition ReadSlice (s : Source) (d : byte) : bytes * option error * Source :=
  let buf := take bufio_size (src_data s) in
  match upto d buf with
  | Some p => (p, None, mkSource (drop (length p) (src_data s)) (src_end s))
  | None =>
      if decide (bufio_size ≤ length (src_data s))%nat then
        (buf, Some ErrBufferFull, mkSource (drop bufio_size (src_data s)) (src_end s))
      else (buf, Some (src_end s), mkSource [] (src_end s))
  end.
(** [ReadByte]. *)
Definition ReadByte (s : Source) : byte + error :=
  match src_data s with b :: _ => inl b | [] => inr (src_end s) end.
Definition advance1 (s : Source) : Source := mkSource (drop 1 (src_data s)) (src_end s).

(** ** Lemmas *)

Lemma hex_digit_val v : 0 ≤ v < 16 → hex_val (hex_digit v) = Some v ∧ is_lower_hex (hex_digit v) = true.
Proof.
  intros Hv. assert (Hb : forallb (λ i, bool_decide (hex_val (hex_digit (Z.of_nat i)) = Some (Z.of_nat i)) &&
    is_lower_hex (hex_digit (Z.of_nat i))) (seq 0 16) = true) by (vm_compute; reflexivity).
  rewrite forallb_forall in Hb. specialize (Hb (Z.to_nat v)).
  rewrite in_seq, Z2Nat.id in Hb by lia. specialize (Hb ltac:(lia)).
  apply andb_prop in Hb as [Hb ?]. by apply bool_decide_eq_true_1 in Hb.
Qed.

(** A lower-case digit is the digit of its value. *)
Lemma lower_hex_digit b : is_lower_hex b = true → ∃ v, 0 ≤ v < 16 ∧ b = hex_digit v ∧ hex_val b = Some v.
Proof.
  intros Hb. assert (Hd : ∃ v, 0 ≤ v < 16 ∧ b = hex_digit v).
  { unfold is_lower_hex in Hb. apply orb_true_iff in Hb as [Hb|Hb]; zbool.
    - exists (byte_val b - 48). split; [lia|]. unfold hex_digit.
      rewrite (proj2 (Z.ltb_lt _ _)) by lia. rewrite <-(byte_of_val b) at 1. f_equal. lia.
    - exists (byte_val b - 87). split; [lia|]. unfold hex_digit.
      rewrite (proj2 (Z.ltb_ge _ _)) by lia. rewrite <-(byte_of_val b) at 1. f_equal. lia. }
  destruct Hd as (v & Hv & ->). exists v. destruct (hex_digit_val v Hv). auto.
Qed.

Lemma length_hex_bytes l : length (hex_bytes l) = (2 * length l)%nat.
Proof. unfold hex_bytes. induction l; cbn in *; [done|]. rewrite IHl. lia. Qed.

Lemma hex_bytes_cons b l :
  hex_bytes (b :: l) = hex_digit (byte_val b / 16) :: hex_digit (byte_val b `mod` 16) :: hex_bytes l.
Proof. done. Qed.

Lemma nibble_range b : 0 ≤ byte_val b / 16 < 16 ∧ 0 ≤ byte_val b `mod` 16 < 16.
Proof.
  pose proof (byte_val_range b). split; [|apply Z.mod_pos_bound; lia].
  split; [apply Z.div_pos; lia|apply Z.div_lt_upper_bound; lia].
Qed.

Lemma hex_bytes_lower l : forallb is_lower_hex (hex_bytes l) = true.
Proof.
  induction l as [|b l IH]; [done|]. rewrite hex_bytes_cons. cbn [forallb].
  destruct (nibble_range b) as [Hh Hl]. rewrite IH.
  by rewrite (proj2 (hex_digit_val _ Hh)), (proj2 (hex_digit_val _ Hl)).
Qed.

Lemma hex_decode_bytes l : hex_decode (hex_bytes l) = Some l.
Proof.
  induction l as [|b l IH]; [done|]. rewrite hex_bytes_cons. cbn [hex_decode].
  destruct (nibble_range b) as [Hh Hl].
  rewrite (proj1 (hex_digit_val _ Hh)), (proj1 (hex_digit_val _ Hl)).
  cbn. rewrite IH. cbn. rewrite Z.mul_comm, <-Z_div_mod_eq_full, byte_of_val. done.
Qed.

(** A lower-case text has one reading and is the encoding of it. *)
Lemma hex_decode_lower l :
  forallb is_lower_hex l = true → Nat.Even (length l) →
  ∃ r, hex_decode l = Some r ∧ hex_bytes r = l.
Proof.
  remember (length l) as n eqn:En. revert l En. induction n as [n IH] using lt_wf_ind.
  intros [|a [|b l]] -> Hl [k Hk]; cbn [length] in *; [by exists []|lia|].
  cbn [forallb] in Hl. apply andb_prop in Hl as [Ha [Hb Hl]%andb_prop].
  destruct (IH (length l)) with (l := l) as (r & Hr & Hrl); [lia|done|done|by exists (k - 1)%nat; lia|].
  apply lower_hex_digit in Ha as (va & ? & -> & Ha), Hb as (vb & ? & -> & Hb).
  cbn [hex_decode]. rewrite Ha, Hb. cbn. rewrite Hr. cbn. eexists. split; [done|].
  rewrite hex_bytes_cons, byte_val_of, Z.mod_small by lia.
  rewrite Z.div_add_l, (Z.div_small vb), Z.add_0_r by lia.
  rewrite Z.add_comm, Z.mod_add, Z.mod_small by lia. by rewrite Hrl.
Qed.

Lemma hexval_snoc l b v : hex_val b = Some v → hexval (l ++ [b]) = hexval l * 16 + v.
Proof. intros E. unfold hexval. rewrite foldl_app. cbn [foldl]. by rewrite E. Qed.

Lemma hexval_range l : forallb is_lower_hex l = true → 0 ≤ hexval l < 16 ^ len l.
Proof.
  induction l as [|b l IH] using rev_ind; [by cbn|].
  rewrite forallb_app. intros [Hl Hb]%andb_prop. cbn in Hb. rewrite andb_true_r in Hb.
  apply lower_hex_digit in Hb as (v & ? & _ & Hv). rewrite (hexval_snoc _ _ _ Hv), length_app. cbn.
  rewrite Nat2Z.inj_add, Z.pow_add_r by lia. specialize (IH Hl). cbn. lia.
Qed.

Lemma hex_val_some l : forallb is_lower_hex l = true →
  forallb (λ b, bool_decide (is_Some (hex_val b))) l = true.
Proof.
  rewrite !forallb_forall. intros Hl b Hb%Hl.
  apply lower_hex_digit in Hb as (v & _ & _ & ->). by apply bool_decide_eq_true_2.
Qed.

(** At most sixteen lower-case digits always fit 64 bits. *)
Lemma ParseHex_lower l :
  l ≠ [] → (length l ≤ 16)%nat → forallb is_lower_hex l = true → ParseHex l = Some (hexval l).
Proof.
  intros Hne Hlen Hl. unfold ParseHex. rewrite hex_val_some by done.
  pose proof (hexval_range l Hl) as Hr. destruct l; [done|].
  rewrite (proj2 (Z.leb_le _ _)); [done|].
  assert (16 ^ len (b :: l) ≤ 16 ^ 16) by (apply Z.pow_le_mono_r; lia).
  unfold MaxUint64. lia.
Qed.

Lemma hexval_pos b l :
  forallb is_lower_hex (b :: l) = true → b ≠ "0"%byte → 1 ≤ hexval (b :: l).
Proof.
  intros Hl Hb. induction l as [|c l IH] using rev_ind.
  - cbn in Hl. rewrite andb_true_r in Hl. apply lower_hex_digit in Hl as (v & ? & -> & Hv).
    unfold hexval. cbn [foldl]. rewrite Hv.
    destruct (decide (v = 0)) as [->|]; [|cbn; lia]. by contradict Hb.
  - rewrite app_comm_cons in Hl |- *. rewrite forallb_app in Hl. apply andb_prop in Hl as [Hl Hc].
    cbn in Hc. rewrite andb_true_r in Hc. apply lower_hex_digit in Hc as (v & ? & _ & Hv).
    rewrite (hexval_snoc _ _ _ Hv). specialize (IH Hl). lia.
Qed.

(** A digit string with no superfluous leading zero is what [FormatUint]
    prints for its value. *)
Definition canonical_hex (l : bytes) : Prop :=
  match l with [] => False | [_] => True | b :: _ => b ≠ "0"%byte end.

Lemma hexn_fuel_canonical f l acc :
  canonical_hex l → forallb is_lower_hex l = true → (length l ≤ f)%nat →
  hexn_fuel f (hexval l) acc = l ++ acc.
Proof.
  revert l acc. induction f as [|f IH]; intros l acc Hc Hl Hf;
    [destruct l; cbn in *; [done|lia]|].
  destruct l as [|c l _] using rev_ind; [done|].
  rewrite forallb_app in Hl. apply andb_prop in Hl as [Hl Hd]. cbn in Hd. rewrite andb_true_r in Hd.
  apply lower_hex_digit in Hd as (v & ? & -> & Hv).
  rewrite (hexval_snoc _ _ _ Hv). cbn [hexn_fuel].
  rewrite (Z.add_comm (_ * _)), Z.mod_add, Z.div_add, Z.mod_small, Z.div_small, Z.add_0_l by lia.
  rewrite length_app in Hf. cbn in Hf.
  destruct l as [|b l].
  - cbn. by rewrite (proj2 (Z.ltb_lt _ _)) by lia.
  - assert (Hb : b ≠ "0"%byte) by (destruct l; done).
    pose proof (hexval_pos b l Hl Hb). rewrite (proj2 (Z.ltb_ge _ _)) by lia.
    rewrite IH, <-(assoc_L (++)); [done| |done|cbn in *; lia]. by destruct l.
Qed.
Lemma hexn_canonical l :
  canonical_hex l → forallb is_lower_hex l = true → (length l ≤ 16)%nat → hexn (hexval l) = l.
Proof. intros. unfold hexn. rewrite hexn_fuel_canonical by done. apply app_nil_r. Qed.

Lemma hexn_fuel_spec f z acc :
  0 ≤ z < 16 ^ Z.of_nat f → (0 < f)%nat → ∃ l, hexn_fuel f z acc = l ++ acc ∧
    hexval l = z ∧ forallb is_lower_hex l = true ∧ canonical_hex l ∧ (length l ≤ f)%nat ∧
    (0 < z → ∀ b r, l = b :: r → b ≠ "0"%byte).
Proof.
  revert z acc. induction f as [|f IH]; intros z acc Hz Hf; [lia|]. cbn [hexn_fuel].
  pose proof (Z.mod_pos_bound z 16 ltac:(lia)) as Hm.
  destruct (hex_digit_val _ Hm) as [Hv Hlow].
  destruct (z <? 16) eqn:E; zbool.
  - rewrite Z.mod_small in * by lia. exists [hex_digit z]. cbn. rewrite Hlow. unfold hexval. cbn. rewrite Hv.
    split_and!; [done|done|done|done|lia|].
    intros Hp b r [= <- <-] E0. rewrite E0 in Hv. cbn in Hv. simplify_eq. lia.
  - rewrite Nat2Z.inj_succ, Z.pow_succ_r in Hz by lia.
    destruct f as [|f]; [cbn in Hz; lia|].
    destruct (IH (z / 16) (hex_digit (z `mod` 16) :: acc)) as (l & -> & Hl & Hlo & Hc & Hn & Hz0);
      [split; [apply Z.div_pos; lia|apply Z.div_lt_upper_bound; lia]|lia|].
    assert (0 < z / 16) by (apply Z.div_str_pos; lia).
    exists (l ++ [hex_digit (z `mod` 16)]). rewrite <-(assoc_L (++)), (hexval_snoc _ _ _ Hv), Hl, forallb_app, Hlo, length_app.
    cbn [forallb length]. rewrite Hlow. split_and!; [done| |done| |cbn; lia|].
    + rewrite Z.mul_comm. symmetry. apply Z_div_mod_eq_full.
    + destruct l as [|b l]; [done|]. specialize (Hz0 ltac:(lia) b l eq_refl). by destruct l.
    + intros _ b r E'. destruct l as [|b' l]; [done|]. cbn in E'. simplify_eq. by apply (Hz0 ltac:(lia) b l).
Qed.
(** What [FormatUint] prints for a 64-bit value. *)
Lemma hexn_spec z : 0 ≤ z ≤ MaxUint64 →
  hexval (hexn z) = z ∧ forallb is_lower_hex (hexn z) = true ∧ canonical_hex (hexn z) ∧
  (length (hexn z) ≤ 16)%nat.
Proof.
  intros Hz. destruct (hexn_fuel_spec 16 z []) as (l & E & ? & ? & ? & ? & _);
    [unfold MaxUint64 in Hz; lia|lia|]. unfold hexn. rewrite E, app_nil_r. auto.
Qed.

Lemma upto_Some d l p : upto d l = Some p →
  ∃ q r, p = q ++ [d] ∧ l = p ++ r ∧ Forall (λ b, b ≠ d) q.
Proof.
  revert p. induction l as [|b l IH]; intros p; cbn; [done|].
  destruct (chr_eqb b d) eqn:E.
  - intros [= <-]. apply Byte.byte_dec_bl in E as ->. by exists [], l.
  - destruct (upto d l) as [p'|]; cbn; [|done]. intros [= <-].
    destruct (IH p' eq_refl) as (q & r & -> & -> & Hq). exists (b :: q), r.
    split_and!; [done|done|]. constructor; [|done]. intros ->. by destruct d.
Qed.
Lemma upto_app d q r : Forall (λ b, b ≠ d) q → upto d (q ++ d :: r) = Some (q ++ [d]).
Proof.
  induction 1 as [|b q Hb Hq IH]; cbn.
  - replace (chr_eqb d d) with true by (by destruct d). done.
  - destruct (chr_eqb b d) eqn:E; [by apply Byte.byte_dec_bl in E|]. by rewrite IH.
Qed.
Lemma upto_None d q : Forall (λ b, b ≠ d) q → upto d q = None.
Proof.
  induction 1 as [|b q Hb Hq IH]; cbn; [done|].
  destruct (chr_eqb b d) eqn:E; [by apply Byte.byte_dec_bl in E|]. by rewrite IH.
Qed.

(** Whatever [ReadSlice] returns is the front of the source. *)
Lemma ReadSlice_app s d p e s' :
  ReadSlice s d = (p, e, s') →
  src_data s = p ++ src_data s' ∧ src_end s' = src_end s ∧
  (e = None → ∃ q, p = q ++ [d] ∧ Forall (λ b, b ≠ d) q) ∧
  (e = Some ErrBufferFull → src_end s ≠ ErrBufferFull → length p = bufio_size).
Proof.
  unfold ReadSlice. destruct (upto d _) as [q|] eqn:E.
  - intros [= <- <- <-]. cbn [src_data src_end]. apply upto_Some in E as (q' & r & -> & E & Hq).
    split_and!; [|done|by eauto|done].
    rewrite <-(take_drop bufio_size (src_data s)) at 1. rewrite E, <-!(assoc_L (++)).
    f_equal. assert (Hl : length (take bufio_size (src_data s)) = length ((q' ++ [d]) ++ r)) by (by rewrite E).
    rewrite <-(take_drop bufio_size (src_data s)) at 2. rewrite E, <-(assoc_L (++)), drop_app_length. done.
  - case_decide; intros [= <- <- <-]; cbn [src_data src_end].
    + rewrite take_drop. split_and!; [done|done|done|]. intros _ _. rewrite length_take. lia.
    + rewrite app_nil_r, take_ge by lia. split_and!; [done|done|done|]. intros [= ->]. done.
Qed.
