(* ===== verification/Primitives.v ===== *)
(** * Cryptographic primitives as interfaces

    The gateway calls AES-256-GCM and ChaCha20-Poly1305 through Go's
    [cipher.AEAD] interface, HKDF from golang.org/x/crypto, and SHA-256.
    They are parameters here: [AEAD] is the interface, the classes state the
    documented behaviour the code relies on, and the toy instances at the end
    show that the hypotheses can hold. The algorithm selection
    ([internal/crypto/algorithms.go], [createaead_default.go],
    [createaead_fips.go]) is modelled. *)
From S2P Require Import Prelude GoStd.
Local Open Scope Z_scope.

Definition tagSize : Z := 16.
Definition nonceSize : Z := 12.
Definition aesKeySize : Z := 32.
Definition chacha20KeySize : Z := 32.
Definition chacha20NonceSize : Z := 12.

(** [cipher.AEAD]: [Seal(nil, nonce, plaintext, aad)] and
    [Open(nil, nonce, ciphertext, aad)]. *)
Record AEAD := mkAEAD {
  Seal : list byte → list byte → list byte → list byte;
  Open : list byte → list byte → list byte → option (list byte);
  Overhead : Z }.

(** Correctness of an AEAD with a 12-byte nonce and a 16-byte tag. [open_tidy]
    says that decryption accepts nothing but encryptions: both algorithms
    recompute the tag over the ciphertext and decrypt with a keystream. *)
Class AEADLaws (a : AEAD) : Prop := {
  aead_overhead : Overhead a = tagSize;
  aead_seal_length : ∀ n p ad, length n = 12%nat →
    length (Seal a n p ad) = (length p + 16)%nat;
  aead_open_seal : ∀ n p ad, length n = 12%nat →
    Open a n (Seal a n p ad) ad = Some p;
  aead_open_tidy : ∀ n c ad p, length n = 12%nat →
    Open a n c ad = Some p → c = Seal a n p ad }.

(** HKDF with SHA-256 (golang.org/x/crypto/hkdf) read to a given length:
    [hkdf_new] is [hkdf.New] (extract and expand), [hkdf_expand] is
    [hkdf.Expand]. *)
Class HKDF := {
  hkdf_new : list byte → list byte → list byte → nat → option (list byte);
  hkdf_expand : list byte → list byte → nat → option (list byte) }.

(** At most 255 hash blocks can be read; below that the read succeeds. *)
Class HKDFLaws `{HKDF} : Prop := {
  hkdf_new_length : ∀ secret salt info n, (n ≤ 255 * 32)%nat →
    ∃ out, hkdf_new secret salt info n = Some out ∧ length out = n;
  hkdf_expand_length : ∀ prk info n, (n ≤ 255 * 32)%nat →
    ∃ out, hkdf_expand prk info n = Some out ∧ length out = n }.

(** SHA-256. *)
Class SHA256 := { sha256 : list byte → list byte }.
Class SHA256Laws `{SHA256} : Prop := { sha256_length : ∀ m, length (sha256 m) = 32%nat }.

(** The two ciphers, from a 32-byte key. *)
Class Ciphers := {
  aes_gcm : list byte → AEAD;
  chacha20poly1305 : list byte → AEAD }.
Class CiphersLaws `{Ciphers} : Prop := {
  aes_gcm_laws :: ∀ key, AEADLaws (aes_gcm key);
  chacha20poly1305_laws :: ∀ key, AEADLaws (chacha20poly1305 key) }.

(** ** Algorithm selection *)

Definition AlgorithmAES256GCM : string := "AES256-GCM".
Definition AlgorithmChaCha20Poly1305 : string := "ChaCha20-Poly1305".
Definition ErrAlgorithmNotApproved : error :=
  Sentinel "crypto: algorithm not FIPS-approved in this build".

Section algorithms.
Context `{Ciphers}.

Definition createAESGCMCipher (key : list byte) : result AEAD :=
  if negb (len key =? aesKeySize) then
    Err (Errorf "invalid key size for AES-256: expected %d bytes, got %d")
  else Ok (aes_gcm key).

(** [fips] is the build tag that selects the variant of the file. *)
Definition createChaCha20Poly1305Cipher (fips : bool) (key : list byte) : result AEAD :=
  if fips then Err ErrAlgorithmNotApproved
  else if negb (len key =? chacha20KeySize) then
    Err (Errorf "invalid key size for ChaCha20: expected %d bytes, got %d")
  else Ok (chacha20poly1305 key).

Definition createAEADCipher (fips : bool) (algorithm : string) (key : list byte) : result AEAD :=
  if decide (algorithm = AlgorithmAES256GCM) then createAESGCMCipher key
  else if decide (algorithm = AlgorithmChaCha20Poly1305) then
    createChaCha20Poly1305Cipher fips key
  else Err (Errorf "unsupported algorithm: %s").

(** [createMPUAEADCipher] of mpu_encrypter.go: an empty name and the legacy
    spelling without a hyphen mean AES-256-GCM. *)
Definition createMPUAEADCipher (fips : bool) (algorithm : string) (key : list byte) : result AEAD :=
  let algorithm := if decide (algorithm = "") then AlgorithmAES256GCM else algorithm in
  let algorithm := if decide (algorithm = "AES256GCM") then AlgorithmAES256GCM else algorithm in
  match createAEADCipher fips algorithm key with
  | Ok c => Ok c
  | Err e => Err (Wrapf "mpu_encrypter: create AEAD for algorithm %s: %w" e)
  end.

Lemma createMPUAEADCipher_laws fips alg key c `{!CiphersLaws} :
  createMPUAEADCipher fips alg key = Ok c → AEADLaws c.
Proof.
  unfold createMPUAEADCipher, createAEADCipher, createAESGCMCipher, createChaCha20Poly1305Cipher.
  intros Hc. repeat case_match; simplify_eq; apply _.
Qed.
End algorithms.

Definition AEADOverheadForAlgorithm (algorithm : string) : result Z :=
  if decide (algorithm = AlgorithmAES256GCM ∨ algorithm = AlgorithmChaCha20Poly1305)
  then Ok tagSize else Err (Errorf "unsupported algorithm: %s").

Definition getNonceSize (algorithm : string) : result Z :=
  if decide (algorithm = AlgorithmAES256GCM) then Ok nonceSize
  else if decide (algorithm = AlgorithmChaCha20Poly1305) then Ok chacha20NonceSize
  else Err (Errorf "unsupported algorithm: %s").

Definition isAlgorithmSupported (algorithm : string) (supported : list string) : bool :=
  match supported with
  | [] => bool_decide (algorithm = AlgorithmAES256GCM) || bool_decide (algorithm = AlgorithmChaCha20Poly1305)
  | _ => bool_decide (algorithm ∈ supported)
  end.

(** ** Instances that show the laws are consistent *)

Module Toy.
(** A checksum, as a stand-in for an authentication tag. *)
Definition checksum (l : list byte) : Z := foldl (λ a b, (a * 31 + byte_val b + 1) `mod` 65521) 7 l.
Definition tag (key n p ad : list byte) : list byte :=
  be_encode 16 (checksum (key ++ n ++ ad ++ p)).
Definition seal (key n p ad : list byte) : list byte := p ++ tag key n p ad.
Definition open (key n c ad : list byte) : option (list byte) :=
  let p := take (length c - 16) c in
  if decide (c = seal key n p ad) then Some p else None.
Definition aead (key : list byte) : AEAD := mkAEAD (seal key) (open key) 16.

Definition kdf (secret salt info : list byte) (n : nat) : option (list byte) :=
  if decide (n ≤ 255 * 32)%nat then
    Some (resize n x00 (be_encode 8 (checksum (secret ++ salt ++ info)) ++ reverse info)) else None.
End Toy.

#[export] Instance toy_aead_laws key : AEADLaws (Toy.aead key).
Proof.
  split; cbn.
  - done.
  - intros. unfold Toy.seal, Toy.tag. by rewrite length_app, length_be_encode.
  - intros n p ad _. unfold Toy.open, Toy.seal, Toy.tag.
    rewrite length_app, length_be_encode, Nat.add_sub, take_app_length.
    by rewrite decide_True.
  - intros n c ad p _. unfold Toy.open. case_decide as E; [|done]. by intros [= <-].
Qed.

Module ToyInstances.
#[export] Instance toy_hkdf : HKDF :=
  {| hkdf_new := Toy.kdf; hkdf_expand prk := Toy.kdf prk [] |}.
#[export] Instance toy_hkdf_laws : HKDFLaws.
Proof.
  split; intros; cbn; unfold Toy.kdf; rewrite decide_True by done;
    eexists; split; [done| |done|]; apply length_resize.
Qed.
#[export] Instance toy_sha256 : SHA256 := {| sha256 m := be_encode 32 (Toy.checksum m) |}.
#[export] Instance toy_sha256_laws : SHA256Laws.
Proof. split. intros. apply length_be_encode. Qed.
#[export] Instance toy_ciphers : Ciphers :=
  {| aes_gcm := Toy.aead; chacha20poly1305 key := Toy.aead (x01 :: key) |}.
#[export] Instance toy_ciphers_laws : CiphersLaws.
Proof. split; intros; apply _. Qed.
End ToyInstances.
