(* ===== verification/ObjectAAD.v ===== *)
(** * Object identity and additional authenticated data

    [internal/crypto/engine.go]: [ObjectContext], the binding identifier and
    the two AAD encodings. The encodings decide which object a ciphertext
    record belongs to, so what matters is that they are injective: no two
    identities share an encoding. *)
From S2P Require Import Prelude GoStd.
Local Open Scope Z_scope.

Record ObjectContext := mkObject { Bucket : string; Key : string }.

#[export] Instance object_eq_dec : EqDecision ObjectContext.
Proof. solve_decision. Defined.

(** [ObjectContext.Validate]. *)
Definition Validate (o : ObjectContext) : result unit :=
  if bool_decide (Bucket o = "") || (63 <? strlen (Bucket o)) then
    Err (Errorf "invalid object bucket")
  else if bool_decide (Key o = "") || (1024 <? strlen (Key o)) then
    Err (Errorf "invalid object key")
  else Ok tt.

(** ** Length-prefixed fields *)

(** [checkedLengthPrefix]. *)
Definition checkedLengthPrefix (length : Z) : result (list byte) :=
  if MaxUint32 <? length then Err (Errorf "length %d exceeds uint32")
  else Ok (be_encode 4 (wrap_u32 length)).

(** [checkedMetadataEnd]. *)
Definition checkedMetadataEnd (metadataLength plaintextLength : Z) : result Z :=
  if (plaintextLength <? 4) || (wrap_u64 (plaintextLength - 4) <? metadataLength) then
    Err (Errorf "invalid metadata length in fallback format")
  else Ok (wrap_u64 (4 + metadataLength)).

(** [writeLengthPrefixed(buf, data)]: the buffer afterwards. *)
Definition writeLengthPrefixed (buf data : list byte) : result (list byte) :=
  prefix ← checkedLengthPrefix (len data);
  Ok (buf ++ prefix ++ data).

(** ** Object-bound AAD (format v2) *)

Definition aadBufferedV2 : string := "s3eg/buffered/v2".
Definition aadChunkedV2Data : string := "s3eg/chunked/v2/data".
Definition aadChunkedV2Trailer : string := "s3eg/chunked/v2/trailer".
Definition aadMPUV2Chunk : string := "s3eg/mpu/v2/chunk".
Definition aadMPUV2Manifest : string := "s3eg/mpu/v2/manifest".
Definition aadDomains : list string :=
  [aadBufferedV2; aadChunkedV2Data; aadChunkedV2Trailer; aadMPUV2Chunk; aadMPUV2Manifest].

(** The [bytes.Buffer] after the magic and the version. *)
Definition aadMagic : list byte := bytes_of_string "S3EGAAD" ++ [x00] ++ be_encode 2 1.

Definition writeFields (out : list byte) (fields : list Z) : list byte :=
  foldl (λ out field, out ++ be_encode 8 field) out fields.

Definition buildObjectAAD (domain : string) (object : ObjectContext) (bindingID : list byte)
    (fields : list Z) : result (list byte) :=
  _ ← Validate object;
  if negb (bool_decide (domain ∈ aadDomains)) then Err (Errorf "unsupported AAD domain %q")
  else if negb (len bindingID =? 16) then Err (Errorf "binding ID must be exactly 16 bytes")
  else if 65535 <? len fields then Err (Errorf "AAD field count exceeds uint16")
  else
    out ← writeLengthPrefixed aadMagic (bytes_of_string domain);
    out ← writeLengthPrefixed out (bytes_of_string (Bucket object));
    out ← writeLengthPrefixed out (bytes_of_string (Key object));
    out ← writeLengthPrefixed out bindingID;
    Ok (writeFields (out ++ be_encode 2 (len fields)) fields).

(** ** Metadata AAD (format v1) *)

Definition MetaKeyVersion : string := "x-amz-meta-encryption-key-version".
Definition MetaOriginalSize : string := "x-amz-meta-encryption-original-size".

Fixpoint writeAll (out : list byte) (fields : list (list byte)) : result (list byte) :=
  match fields with
  | [] => Ok out
  | f :: fields => out ← writeLengthPrefixed out f; writeAll out fields
  end.

Definition aadFields (algorithm : string) (salt nonce : list byte) (meta : gomap) : list (list byte) :=
  [bytes_of_string algorithm; salt; nonce; bytes_of_string (mget meta MetaKeyVersion);
   bytes_of_string (mget meta "Content-Type"); bytes_of_string (mget meta MetaOriginalSize)].

(** [buildAAD]. *)
Definition buildAAD (algorithm : string) (salt nonce : list byte) (meta : gomap) : result (list byte) :=
  writeAll [] (aadFields algorithm salt nonce meta).

(** [encodeBase64] / [decodeBase64] of base64.go. *)
Definition encodeBase64 (data : list byte) : string := EncodeToString std_alphabet true data.
Definition decodeBase64 (s : string) : result (list byte) :=
  match DecodeString std_alphabet true s with
  | Some data => Ok data
  | None => Err (Errorf "invalid base64 string: %w")
  end.

(** [buildAADLegacy], the pipe-delimited predecessor. *)
Definition buildAADLegacy (algorithm : string) (salt nonce : list byte) (meta : gomap) : list byte :=
  let opt (tag : string) (v : string) :=
    if decide (v = "") then [] else bytes_of_string tag ++ bytes_of_string v in
  bytes_of_string "alg:" ++ bytes_of_string algorithm ++
  bytes_of_string "|salt:" ++ bytes_of_string (encodeBase64 salt) ++
  bytes_of_string "|iv:" ++ bytes_of_string (encodeBase64 nonce) ++
  opt "|kv:" (mget meta MetaKeyVersion) ++ opt "|ct:" (mget meta "Content-Type") ++
  opt "|osz:" (mget meta MetaOriginalSize).

(** ** Binding identifiers *)

(** [parseObjectBindingID]: unpadded base64url of exactly 16 bytes, and only
    the canonical spelling of them. *)
Definition parseObjectBindingID (value : string) : result (list byte) :=
  match DecodeString url_alphabet false value with
  | Some bindingID =>
      if negb (len bindingID =? 16) ||
         negb (bool_decide (EncodeToString url_alphabet false bindingID = value))
      then Err (Errorf "invalid encryption binding ID") else Ok bindingID
  | None => Err (Errorf "invalid encryption binding ID")
  end.

(** ** Lemmas *)

#[local] Arguments writeFields : simpl never.
#[local] Arguments writeLengthPrefixed : simpl never.

Lemma writeLengthPrefixed_Ok buf data :
  len data ≤ MaxUint32 →
  writeLengthPrefixed buf data = Ok (buf ++ be_encode 4 (len data) ++ data).
Proof.
  intros Hl. unfold writeLengthPrefixed, checkedLengthPrefix, MaxUint32 in *.
  rewrite (proj2 (Z.ltb_ge _ _)) by lia. cbn. by rewrite wrap_u32_id by lia.
Qed.

Lemma writeLengthPrefixed_inv buf data out :
  writeLengthPrefixed buf data = Ok out →
  len data ≤ MaxUint32 ∧ out = buf ++ be_encode 4 (len data) ++ data.
Proof.
  intros H. destruct (decide (len data ≤ MaxUint32)) as [Hl|Hl].
  - rewrite writeLengthPrefixed_Ok in H by done. by simplify_eq.
  - unfold writeLengthPrefixed, checkedLengthPrefix in H.
    rewrite (proj2 (Z.ltb_lt _ _)) in H by lia. done.
Qed.

(** A length-prefixed field can be read back off the front. *)
Lemma length_prefixed_inj (x y r s : list byte) :
  len x ≤ MaxUint32 → len y ≤ MaxUint32 →
  be_encode 4 (len x) ++ x ++ r = be_encode 4 (len y) ++ y ++ s → x = y ∧ r = s.
Proof.
  unfold MaxUint32. intros Hx Hy H.
  apply app_inj_1 in H as [Hl H]; [|by rewrite !length_be_encode].
  apply be_encode_inj in Hl; [|lia..]. apply app_inj_1 in H; [done|lia].
Qed.

Lemma writeFields_app out fields :
  writeFields out fields = out ++ concat (be_encode 8 <$> fields).
Proof.
  unfold writeFields. revert out. induction fields as [|f fs IH]; intros out;
    cbn [foldl fmap list_fmap concat].
  - by rewrite app_nil_r.
  - by rewrite IH, (assoc_L (++)).
Qed.

Lemma fields_inj fs gs :
  Forall is_u64 fs → Forall is_u64 gs →
  concat (be_encode 8 <$> fs) = concat (be_encode 8 <$> gs) → fs = gs.
Proof.
  intros Hf. revert gs. induction Hf as [|f fs Hf Hfs IH]; intros gs Hg H;
    destruct Hg as [|g gs Hg Hgs]; cbn [fmap list_fmap concat] in H; [done|..].
  - apply (f_equal length) in H. rewrite length_app, length_be_encode in H. done.
  - apply (f_equal length) in H. rewrite length_app, length_be_encode in H. done.
  - apply app_inj_1 in H as [H1 H2]; [|by rewrite !length_be_encode].
    apply be_encode_inj in H1; [|unfold is_u64 in *; lia..]. f_equal; [done|by apply IH].
Qed.

Lemma Validate_Ok o :
  Validate o = Ok tt ↔ 1 ≤ strlen (Bucket o) ≤ 63 ∧ 1 ≤ strlen (Key o) ≤ 1024.
Proof.
  assert (Hs : ∀ s, s = "" ↔ strlen s < 1).
  { intros [|c s]; unfold strlen; cbn; split; intros; done || lia. }
  unfold Validate. case_bool_decide as H1; rewrite Hs in H1; cbn [orb]; [split; [done|lia]|].
  destruct (Z.ltb_spec 63 (strlen (Bucket o))); [split; [done|lia]|].
  case_bool_decide as H2; rewrite Hs in H2; cbn [orb]; [split; [done|lia]|].
  destruct (Z.ltb_spec 1024 (strlen (Key o))); [split; [done|lia]|].
  split; [lia|done].
Qed.

(** What a successful [buildObjectAAD] writes. *)
Lemma buildObjectAAD_inv domain o b fs out :
  buildObjectAAD domain o b fs = Ok out →
  Validate o = Ok tt ∧ domain ∈ aadDomains ∧ len b = 16 ∧ len fs ≤ 65535 ∧
  len (bytes_of_string domain) ≤ MaxUint32 ∧
  len (bytes_of_string (Bucket o)) ≤ MaxUint32 ∧
  len (bytes_of_string (Key o)) ≤ MaxUint32 ∧
  out = aadMagic ++ be_encode 4 (len (bytes_of_string domain)) ++ bytes_of_string domain ++
    be_encode 4 (len (bytes_of_string (Bucket o))) ++ bytes_of_string (Bucket o) ++
    be_encode 4 (len (bytes_of_string (Key o))) ++ bytes_of_string (Key o) ++
    be_encode 4 (len b) ++ b ++ be_encode 2 (len fs) ++ concat (be_encode 8 <$> fs).
Proof.
  unfold buildObjectAAD. destruct (Validate o) as [[]|] eqn:Hv; [|done]. cbn.
  case_bool_decide as Hd; [|done]. cbn. destruct (Z.eqb_spec (len b) 16) as [Hb|]; [|done]. cbn.
  destruct (Z.ltb_spec 65535 (len fs)) as [|Hf]; [done|].
  intros H. do 4 (apply bind_Ok in H; destruct H as (x & W & H);
    apply writeLengthPrefixed_inv in W; destruct W as [? ->]).
  apply Ok_inj in H as <-. rewrite writeFields_app. split_and!; try done. by rewrite <-!(assoc_L (++)).
Qed.

(** On valid inputs the encoder succeeds. *)
Lemma buildObjectAAD_total domain o b fs :
  Validate o = Ok tt → domain ∈ aadDomains → len b = 16 → len fs ≤ 65535 →
  ∃ out, buildObjectAAD domain o b fs = Ok out.
Proof.
  intros Hv Hd Hb Hf. unfold buildObjectAAD. rewrite Hv. cbn.
  rewrite bool_decide_eq_true_2, Hb, (proj2 (Z.ltb_ge _ _)) by done. cbn.
  assert (Hdl : len (bytes_of_string domain) ≤ MaxUint32).
  { unfold aadDomains in Hd. repeat (apply elem_of_cons in Hd as [->|Hd]; [vm_compute; congruence|]).
    by apply elem_of_nil in Hd. }
  apply Validate_Ok in Hv as [[? ?] [? ?]].
  rewrite writeLengthPrefixed_Ok by done. cbn.
  rewrite writeLengthPrefixed_Ok by (rewrite len_bytes_of_string; unfold MaxUint32; lia). cbn.
  rewrite writeLengthPrefixed_Ok by (rewrite len_bytes_of_string; unfold MaxUint32; lia). cbn.
  rewrite writeLengthPrefixed_Ok by (rewrite Hb; unfold MaxUint32; lia). cbn. eauto.
Qed.

Lemma buildObjectAAD_injective domain domain' o o' b b' fs fs' out :
  Forall is_u64 fs → Forall is_u64 fs' →
  buildObjectAAD domain o b fs = Ok out → buildObjectAAD domain' o' b' fs' = Ok out →
  domain = domain' ∧ o = o' ∧ b = b' ∧ fs = fs'.
Proof.
  intros Hf Hf' H1 H2.
  apply buildObjectAAD_inv in H1 as (_ & _ & Hb & Hn & ? & ? & ? & ->).
  apply buildObjectAAD_inv in H2 as (_ & _ & Hb' & Hn' & ? & ? & ? & He).
  apply app_inv_head in He.
  apply length_prefixed_inj in He as [Hd He]; [|done..]. apply bytes_of_string_inj in Hd.
  apply length_prefixed_inj in He as [Hbk He]; [|done..]. apply bytes_of_string_inj in Hbk.
  apply length_prefixed_inj in He as [Hk He]; [|done..]. apply bytes_of_string_inj in Hk.
  apply length_prefixed_inj in He as [-> He]; [|unfold MaxUint32; lia..].
  apply app_inj_1 in He as [_ He]; [|by rewrite !length_be_encode].
  apply fields_inj in He; [|done..]. destruct o, o'; cbn in *; by subst.
Qed.

Lemma writeAll_inj fs gs out a b :
  writeAll a fs = Ok out → writeAll b gs = Ok out → length fs = length gs → a = b → fs = gs.
Proof.
  enough (G : ∀ fs a out, writeAll a fs = Ok out →
    Forall (λ f, len f ≤ MaxUint32) fs ∧ out = a ++ concat ((λ f, be_encode 4 (len f) ++ f) <$> fs)).
  { intros [Hf Hfe]%G [Hg Hge]%G Hlen ->. rewrite Hfe in Hge. apply app_inv_head in Hge.
    clear Hfe. revert gs Hg Hlen Hge. induction Hf as [|f fs Hf _ IH];
      intros gs Hg Hlen H; destruct Hg as [|g gs Hg Hgs]; cbn in Hlen; try done.
    cbn [fmap list_fmap concat] in H. rewrite <-!(assoc_L (++)) in H.
    apply length_prefixed_inj in H as [-> H]; [|done..]. f_equal. apply IH; [done|lia|done]. }
  clear. induction fs as [|f fs IH]; intros a out H; cbn in H |- *.
  - rewrite app_nil_r. simplify_eq. by split.
  - destruct (writeLengthPrefixed a f) as [x|] eqn:E; cbn in H; [|done].
    apply writeLengthPrefixed_inv in E as [? ->]. apply IH in H as [? ->].
    split; [by constructor|]. by rewrite <-!(assoc_L (++)).
Qed.

(** ** Properties *)

(** The object-bound AAD identifies the record. Two calls that produce the
    same bytes were given the same domain, bucket, key, binding identifier and
    counters: a record can not be replayed for another object, another domain
    or another position. *)
Theorem object_aad_injective domain domain' o o' b b' fs fs' out :
  Forall is_u64 fs → Forall is_u64 fs' →
  buildObjectAAD domain o b fs = Ok out → buildObjectAAD domain' o' b' fs' = Ok out →
  domain = domain' ∧ o = o' ∧ b = b' ∧ fs = fs'.
Proof. apply buildObjectAAD_injective. Qed.

Lemma object_aad_injective_witness :
  ∃ out, buildObjectAAD aadMPUV2Chunk (mkObject "b" "k") (repeat x01 16) [1; 2] = Ok out ∧
    (aadMPUV2Chunk = aadMPUV2Chunk ∧ mkObject "b" "k" = mkObject "b" "k" ∧
     repeat x01 16 = repeat x01 16 ∧ [1; 2] = [1; 2]).
Proof.
  eexists. split; [vm_compute; reflexivity|].
  eapply (object_aad_injective aadMPUV2Chunk aadMPUV2Chunk (mkObject "b" "k") (mkObject "b" "k")
            (repeat x01 16) (repeat x01 16) [1; 2] [1; 2]).
  - repeat constructor; vm_compute; congruence.
  - repeat constructor; vm_compute; congruence.
  - vm_compute; reflexivity.
  - vm_compute; reflexivity.
Defined.

(** The length-prefixed metadata AAD of the buffered format is injective in
    all its six fields, which the pipe-delimited predecessor is not. *)
Theorem metadata_aad_canonical :
  (∀ alg alg' salt salt' nonce nonce' m m' out,
    buildAAD alg salt nonce m = Ok out → buildAAD alg' salt' nonce' m' = Ok out →
    alg = alg' ∧ salt = salt' ∧ nonce = nonce' ∧
    mget m MetaKeyVersion = mget m' MetaKeyVersion ∧
    mget m "Content-Type" = mget m' "Content-Type" ∧
    mget m MetaOriginalSize = mget m' MetaOriginalSize) ∧
  (∃ alg salt nonce m m', buildAADLegacy alg salt nonce m = buildAADLegacy alg salt nonce m' ∧
    mget m MetaOriginalSize ≠ mget m' MetaOriginalSize).
Proof.
  split.
  - intros * H1 H2. pose proof (writeAll_inj _ _ _ _ _ H1 H2 eq_refl eq_refl) as H.
    unfold aadFields in H. injection H as H3 -> -> H4 H5 H6.
    by apply bytes_of_string_inj in H3, H4, H5, H6.
  - exists "a", [], [], [("Content-Type", "x|osz:5")],
      [("Content-Type", "x"); (MetaOriginalSize, "5")].
    split; [vm_compute; reflexivity|]. vm_compute. congruence.
Qed.

(** Binding identifiers have one spelling. *)
Lemma parseObjectBindingID_Ok s b :
  parseObjectBindingID s = Ok b ↔ s = EncodeToString url_alphabet false b ∧ len b = 16.
Proof.
  unfold parseObjectBindingID. split.
  - repeat case_match; intros; simplify_eq; rewrite orb_false_iff, !negb_false_iff in *.
    destruct_and?. split; [symmetry; by eapply bool_decide_eq_true_1|lia].
  - intros [-> Hb]. rewrite DecodeString_EncodeToString by apply url_alphabet_ok.
    rewrite Hb, bool_decide_eq_true_2; done.
Qed.
