(* ===== verification/ChunkLayout.v ===== *)
(** * Layout of chunked objects

    The size arithmetic of [internal/crypto/range_optimization.go] and
    [chunked_size.go], and the manifest of [chunked.go] it is driven by.
    A chunked object is a sequence of records, one per plaintext chunk, each
    16 bytes longer than its chunk; version 2 adds a 32-byte terminal record.
    All arithmetic is at the width the source uses. *)
From S2P Require Import Prelude GoStd Primitives ObjectAAD.
Local Open Scope Z_scope.
Local Open Scope go_scope.

Definition ChunkedFormatV1 : Z := 1.
Definition ChunkedFormatV2 : Z := 2.
Definition ChunkedTerminalSize : Z := 32.
Definition chunkedTerminalPlainSize : Z := 16.
Definition DefaultChunkSize : Z := 65536.
Definition MinChunkSize : Z := 16384.
Definition MaxChunkSize : Z := 1048576.

Definition MetaChunkedFormat : string := "x-amz-meta-encryption-chunked".
Definition MetaChunkSize : string := "x-amz-meta-encryption-chunk-size".
Definition MetaChunkCount : string := "x-amz-meta-encryption-chunk-count".
Definition MetaManifest : string := "x-amz-meta-encryption-manifest".
Definition MetaIVDerivation : string := "x-amz-meta-enc-iv-deriv".

Definition ErrUnsupportedChunkedVersion : error := Sentinel "unsupported chunked format version".
Definition ErrChunkedObjectIncomplete : error := Sentinel "chunked object completeness check failed".

(** ** Validation *)

Definition validateChunkedVersion (version : Z) : result unit :=
  if negb (version =? ChunkedFormatV1) && negb (version =? ChunkedFormatV2)
  then Err ErrUnsupportedChunkedVersion else Ok tt.

Definition validateChunkSize (chunkSize : Z) : result unit :=
  if MaxInt64 -i tagSize <? chunkSize then Err (Errorf "invalid chunk size: %d")
  else if (chunkSize <? MinChunkSize) || (MaxChunkSize <? chunkSize)
  then Err (Errorf "invalid chunk size: %d") else Ok tt.

(** ** Sizes *)

Definition ChunkedDataChunkCount (plaintextSize chunkSize : Z) : result Z :=
  if plaintextSize <? 0 then Err (Errorf "negative plaintext size")
  else
    _ ← validateChunkSize chunkSize;
    if plaintextSize =? 0 then Ok 0
    else
      let count := (plaintextSize -i 1) /i chunkSize +i 1 in
      if count <? 0 then Err (Errorf "chunk count overflow") else Ok (wrap_u64 count).

Definition ChunkedCiphertextSize (plaintextSize chunkSize version : Z) : result Z :=
  _ ← validateChunkedVersion version;
  count ← ChunkedDataChunkCount plaintextSize chunkSize;
  if Z.quot (MaxInt64 -u ChunkedTerminalSize) tagSize <? count
  then Err (Errorf "chunked ciphertext size overflow")
  else
    let overhead := count *u tagSize in
    if (version =? ChunkedFormatV2) && (MaxInt64 -u ChunkedTerminalSize <? overhead)
    then Err (Errorf "chunked ciphertext size overflow")
    else
      let overhead := if version =? ChunkedFormatV2 then overhead +u ChunkedTerminalSize else overhead in
      if (MaxInt64 <? overhead) || (MaxInt64 -i wrap_i64 overhead <? plaintextSize)
      then Err (Errorf "chunked ciphertext size overflow")
      else Ok (plaintextSize +i wrap_i64 overhead).

(** One turn of the candidate loop of [ChunkedPlaintextSize]. *)
Definition try_count (dataSize chunkSize count : Z) : option (Z * Z) :=
  if Z.quot MaxInt64 tagSize <? count then None
  else
    let plain := dataSize -i wrap_i64 (count *u tagSize) in
    if plain <? 0 then None
    else match ChunkedDataChunkCount plain chunkSize with
         | Ok actual => if actual =? count then Some (plain, count) else None
         | Err _ => None
         end.

(** The loop over the two candidate counts. *)
Definition searchCount (dataSize chunkSize : Z) : result (Z * Z) :=
  let unit := chunkSize +i tagSize in
  let candidate := wrap_u64 (dataSize /i unit) in
  let candidate := if candidate =? 0 then 1 else candidate in
  match try_count dataSize chunkSize candidate with
  | Some r => Ok r
  | None =>
      match try_count dataSize chunkSize (candidate +u 1) with
      | Some r => Ok r
      | None => Err (Errorf "non-canonical chunked ciphertext size")
      end
  end.

Definition ChunkedPlaintextSize (ciphertextSize chunkSize version : Z) : result (Z * Z) :=
  _ ← validateChunkedVersion version;
  _ ← validateChunkSize chunkSize;
  if ciphertextSize <? 0 then Err (Errorf "negative ciphertext size")
  else
    let overhead := if version =? ChunkedFormatV2 then ChunkedTerminalSize else 0 in
    if ciphertextSize <? overhead then Err (Errorf "ciphertext shorter than terminal")
    else
      let dataSize := ciphertextSize -i overhead in
      if dataSize =? 0 then Ok (0, 0)
      else if (version =? ChunkedFormatV2) && (dataSize <? tagSize)
      then Err (Errorf "non-canonical chunked ciphertext size")
      else searchCount dataSize chunkSize.

(** ** Encrypted byte ranges *)

(** Inclusive byte range of the records [startChunk..endChunk], all taken to
    be full. *)
Definition ChunkedEncryptedDataRange (startChunk endChunk chunkSize version : Z) : result (Z * Z) :=
  _ ← validateChunkedVersion version;
  _ ← validateChunkSize chunkSize;
  if endChunk <? startChunk then Err (Errorf "invalid chunk range")
  else
    let unit := chunkSize +u tagSize in
    if (endChunk =? MaxUint64) || (Z.quot MaxInt64 unit <? startChunk) || (Z.quot MaxInt64 unit <=? endChunk)
    then Err (Errorf "encrypted range overflow")
    else
      let start := startChunk *u unit in
      let end_ := (endChunk +u 1) *u unit -u 1 in
      if MaxInt64 <? end_ then Err (Errorf "encrypted range overflow")
      else Ok (wrap_i64 start, wrap_i64 end_).

Definition calculateEncryptedByteRange (startChunk endChunk chunkSize : Z) : result (Z * Z) :=
  if (startChunk <? 0) || (endChunk <? 0) then Err (Errorf "invalid chunk range")
  else ChunkedEncryptedDataRange (wrap_u64 startChunk) (wrap_u64 endChunk) chunkSize ChunkedFormatV1.

(** The same, clipped to the data of an object of the given plaintext size. *)
Definition ChunkedEncryptedDataRangeForPlaintextSize
    (startChunk endChunk plaintextSize chunkSize version : Z) : result (Z * Z) :=
  count ← ChunkedDataChunkCount plaintextSize chunkSize;
  if (count =? 0) || (endChunk <? startChunk) || (count <=? endChunk)
  then Err (Errorf "invalid chunk range")
  else
    '(start, end_) ← ChunkedEncryptedDataRange startChunk endChunk chunkSize version;
    canonical ← ChunkedCiphertextSize plaintextSize chunkSize version;
    let dataEnd := if version =? ChunkedFormatV2 then canonical -i ChunkedTerminalSize else canonical in
    Ok (start, if dataEnd <=? end_ then dataEnd -i 1 else end_).

(** First and last chunk of a plaintext range and the offsets in them. *)
Definition calculateChunkRangeFromPlaintext (plaintextStart plaintextEnd chunkSize totalChunks : Z)
    : Z * Z * Z * Z :=
  if (chunkSize <=? 0) || (totalChunks <=? 0) then (0, 0, 0, 0)
  else if (plaintextStart <? 0) || (plaintextEnd <? 0) then (0, 0, 0, 0)
  else
    let startChunk := wrap_u64 (plaintextStart /i chunkSize) in
    let endChunk := wrap_u64 (plaintextEnd /i chunkSize) in
    let startChunk := if totalChunks <=? startChunk then totalChunks -u 1 else startChunk in
    let endChunk := if totalChunks <=? endChunk then totalChunks -u 1 else endChunk in
    (startChunk, endChunk, plaintextStart %i chunkSize, plaintextEnd %i chunkSize).

(** ** The manifest *)

Record ChunkManifest := mkManifest {
  mf_Version : Z; mf_ChunkSize : Z; mf_ChunkCount : Z;
  mf_BaseIV : string; mf_IVs : list string; mf_IVDerivation : string }.

(** [encoding/json] on [ChunkManifest]: its field tags are fixed by the
    source, the encoder is a parameter. *)
Class ManifestJSON := {
  json_marshal_manifest : ChunkManifest → list byte;
  json_unmarshal_manifest : list byte → option ChunkManifest }.

(** Decoding inverts encoding on manifests whose integers fit their Go types;
    the text of a struct is never empty. *)
Class ManifestJSONLaws `{ManifestJSON} : Prop := {
  json_manifest_text : ∀ m, json_marshal_manifest m ≠ [];
  json_manifest_roundtrip : ∀ m,
    is_i64 (mf_Version m) → is_i64 (mf_ChunkSize m) → is_u64 (mf_ChunkCount m) → mf_IVs m = [] →
    json_unmarshal_manifest (json_marshal_manifest m) = Some m }.

Section manifest.
Context `{ManifestJSON}.

Definition encodeManifest (m : ChunkManifest) : string := encodeBase64 (json_marshal_manifest m).

Definition decodeManifest (encoded : string) : result ChunkManifest :=
  match decodeBase64 encoded with
  | Err e => Err (Wrapf "failed to decode manifest: %w" e)
  | Ok data =>
      match json_unmarshal_manifest data with
      | Some m => Ok m
      | None => Err (Errorf "failed to parse manifest: %w")
      end
  end.

Definition IsChunkedFormat (metadata : gomap) : bool :=
  bool_decide (mget metadata MetaChunkedFormat = "true").

Definition loadManifestFromMetadata (metadata : gomap) : result ChunkManifest :=
  match map_lookup metadata MetaManifest with
  | None => Err (Errorf "manifest not found in metadata")
  | Some encoded => decodeManifest encoded
  end.

Definition ChunkedFormatVersion (metadata : gomap) : result Z :=
  manifest ← loadManifestFromMetadata metadata;
  if (mf_Version manifest =? ChunkedFormatV1) || (mf_Version manifest =? ChunkedFormatV2)
  then Ok (mf_Version manifest `mod` 256) else Err ErrUnsupportedChunkedVersion.

(** [parseChunkSize] of object_format.go. *)
Definition parseChunkSize (meta : gomap) : Z :=
  if decide (mget meta MetaChunkSize = "") then DefaultChunkSize
  else match Sscanf_d (mget meta MetaChunkSize) with
       | Some parsed => if 0 <? parsed then parsed else DefaultChunkSize
       | None => DefaultChunkSize
       end.

Definition chunkedVersionForMetadata (meta : gomap) : result Z :=
  if decide (mget meta MetaManifest = "") then Ok ChunkedFormatV1 else ChunkedFormatVersion meta.

Definition CiphertextSizeForPlaintext (meta : gomap) (plain : Z) : result Z :=
  version ← chunkedVersionForMetadata meta;
  ChunkedCiphertextSize plain (parseChunkSize meta) version.

Definition PlaintextSizeForCiphertext (meta : gomap) (ciphertext : Z) : result (Z * Z) :=
  version ← chunkedVersionForMetadata meta;
  if ciphertext <? 0 then Err (Errorf "ciphertext size must not be negative")
  else ChunkedPlaintextSize ciphertext (parseChunkSize meta) version.

(** The upper bound from the legacy chunk-count and chunk-size headers. *)
Definition legacySizeBound (metadata : gomap) : result Z :=
  let unavailable := Err (Errorf "exact plaintext size not available in metadata") in
  match map_lookup metadata MetaChunkCount, map_lookup metadata MetaChunkSize with
  | Some countText, Some sizeText =>
      match ParseUint countText, ParseUint sizeText with
      | Some count, Some chunkSize =>
          _ ← (if (0 <? count) && (chunkSize <=? MaxInt64) then validateChunkSize chunkSize else Ok tt);
          if (0 <? count) && (0 <? chunkSize) && (chunkSize <=? MaxInt64) &&
             (count <=? Z.quot MaxInt64 chunkSize)
          then Ok (wrap_i64 (count *u chunkSize)) else unavailable
      | _, _ => unavailable
      end
  | _, _ => unavailable
  end.

Definition GetPlaintextSizeFromMetadata (metadata : gomap) : result Z :=
  let hinted :=
    match original ← map_lookup metadata MetaOriginalSize; ParseInt original with
    | Some size => if 0 <=? size then Ok size else legacySizeBound metadata
    | None => legacySizeBound metadata
    end in
  match map_lookup metadata MetaManifest with
  | None => hinted
  | Some _ =>
      version ← ChunkedFormatVersion metadata;
      match map_lookup metadata "Content-Length" with
      | None => hinted
      | Some ciphertext =>
          match ParseInt ciphertext with
          | None => Err (Errorf "invalid ciphertext size")
          | Some size =>
              manifest ← loadManifestFromMetadata metadata;
              '(plain, _) ← ChunkedPlaintextSize size (mf_ChunkSize manifest) version;
              Ok plain
          end
      end
  end.

(** The manifest's chunk count, recomputed from the plaintext size when the
    writer left it at zero. *)
Definition backfillChunkCount (metadata : gomap) (manifest : ChunkManifest) : Z :=
  if (mf_ChunkCount manifest =? 0) && (0 <? mf_ChunkSize manifest) then
    match GetPlaintextSizeFromMetadata metadata with
    | Ok plaintextSize =>
        if 0 <? plaintextSize then
          match ChunkedDataChunkCount plaintextSize (mf_ChunkSize manifest) with
          | Ok count => count
          | Err _ => mf_ChunkCount manifest
          end
        else mf_ChunkCount manifest
    | Err _ => mf_ChunkCount manifest
    end
  else mf_ChunkCount manifest.

Definition CalculateEncryptedRangeForPlaintextRange (metadata : gomap)
    (plaintextStart plaintextEnd : Z) : result (Z * Z) :=
  match loadManifestFromMetadata metadata with
  | Err e => Err (Wrapf "failed to load manifest: %w" e)
  | Ok manifest =>
      version ← ChunkedFormatVersion metadata;
      let chunkCount := backfillChunkCount metadata manifest in
      if (chunkCount =? 0) || (mf_ChunkSize manifest <=? 0)
      then Err (Errorf "invalid chunked manifest")
      else
        let '(startChunk, endChunk, _, _) :=
          calculateChunkRangeFromPlaintext plaintextStart plaintextEnd (mf_ChunkSize manifest) chunkCount in
        plaintextSize ←
          match GetPlaintextSizeFromMetadata metadata with
          | Ok size => Ok size
          | Err sizeErr =>
              if Z.quot MaxInt64 (mf_ChunkSize manifest) <? chunkCount
              then Err (Wrapf "failed to determine plaintext size: %w" sizeErr)
              else Ok (wrap_i64 chunkCount *i mf_ChunkSize manifest)
          end;
        match ChunkedEncryptedDataRangeForPlaintextSize startChunk endChunk plaintextSize
                (mf_ChunkSize manifest) version with
        | Ok r => Ok r
        | Err e => Err (Wrapf "failed to calculate encrypted byte range: %w" e)
        end
  end.
End manifest.

(** ** The HTTP Range header *)

(** The range the header asks for, before the consistency checks. *)
Definition parseRangeSpec (rangeSpec : list byte) (totalSizeHint : Z) : result (Z * Z) :=
  match rangeSpec with
  | [] => Err (Errorf "invalid range format")
  | "-"%byte :: suffixText =>
      if totalSizeHint <=? 0 then Err (Errorf "suffix range requires known total size")
      else match ParseInt_bytes suffixText with
           | None => Err (Errorf "invalid suffix range: %w")
           | Some suffix =>
               let start := totalSizeHint -i suffix in
               Ok (if start <? 0 then 0 else start, totalSizeHint -i 1)
           end
  | _ =>
      match split_bytes "-" rangeSpec [] with
      | [p0; p1] =>
          match ParseInt_bytes p0 with
          | None => Err (Errorf "invalid start: %w")
          | Some start =>
              match p1 with
              | [] => if totalSizeHint <=? 0
                      then Err (Errorf "open-ended range requires known total size")
                      else Ok (start, totalSizeHint -i 1)
              | _ => match ParseInt_bytes p1 with
                     | None => Err (Errorf "invalid end: %w")
                     | Some end_ => Ok (start, end_)
                     end
              end
          end
      | _ => Err (Errorf "invalid range format")
      end
  end.

Definition ParseHTTPRangeHeader (rangeHeader : string) (totalSizeHint : Z) : result (Z * Z) :=
  if (strlen rangeHeader <? 6) ||
     negb (bool_decide (take 6 (bytes_of_string rangeHeader) = bytes_of_string "bytes="))
  then Err (Errorf "invalid range header format")
  else
    '(start, end_) ← parseRangeSpec (drop 6 (bytes_of_string rangeHeader)) totalSizeHint;
    if start <? 0 then Err (Errorf "invalid range: start must be non-negative")
    else if end_ <? start then Err (Errorf "invalid range: end must be >= start")
    else if (0 <? totalSizeHint) && ((totalSizeHint <=? start) || (totalSizeHint <=? end_))
    then Err (Errorf "range not satisfiable: %d-%d (size: %d)")
    else Ok (start, end_).

Example range_ex1 : ParseHTTPRangeHeader "bytes=10-20" 100 = Ok (10, 20).
Proof. vm_compute. reflexivity. Qed.
Example range_ex2 : ParseHTTPRangeHeader "bytes=-30" 100 = Ok (70, 99).
Proof. vm_compute. reflexivity. Qed.
Example size_ex1 : ChunkedCiphertextSize 100000 65536 2 = Ok 100064.
Proof. vm_compute. reflexivity. Qed.
Example size_ex2 : ChunkedPlaintextSize 100064 65536 2 = Ok (100000, 2).
Proof. vm_compute. reflexivity. Qed.

(** ** The size equation *)

Definition valid_chunk_size (cs : Z) : Prop := MinChunkSize ≤ cs ≤ MaxChunkSize.
Definition valid_version (v : Z) : Prop := v = ChunkedFormatV1 ∨ v = ChunkedFormatV2.

(** Number of chunks, trailer and total size of a chunked object, over [Z]. *)
Definition nchunks (p cs : Z) : Z := (p + cs - 1) / cs.
Definition trailer (v : Z) : Z := if v =? ChunkedFormatV2 then ChunkedTerminalSize else 0.
Definition ctsize (p cs v : Z) : Z := p + tagSize * nchunks p cs + trailer v.

#[local] Ltac unfold_consts :=
  unfold valid_chunk_size, MinChunkSize, MaxChunkSize, ChunkedTerminalSize, tagSize, MaxInt64,
    MaxUint64, ChunkedFormatV1, ChunkedFormatV2 in *.

Lemma nchunks_iff p cs n : 0 < cs → nchunks p cs = n ↔ (n - 1) * cs < p ≤ n * cs.
Proof.
  intros Hcs. unfold nchunks. split.
  - intros <-. pose proof (Z.div_mod (p + cs - 1) cs ltac:(lia)).
    pose proof (Z.mod_pos_bound (p + cs - 1) cs Hcs). nia.
  - intros Hn. symmetry. apply Z.div_unique with (p + cs - 1 - cs * n); [left; nia|lia].
Qed.

Lemma nchunks_bounds p cs : 0 < cs → 0 ≤ p → 0 ≤ nchunks p cs ≤ p.
Proof.
  intros Hcs Hp. pose proof (proj1 (nchunks_iff p cs _ Hcs) eq_refl). nia.
Qed.

Lemma validateChunkSize_Ok cs : validateChunkSize cs = Ok tt ↔ valid_chunk_size cs.
Proof.
  unfold validateChunkSize. unfold_consts. rewrite wrap_i64_id by lia.
  destruct (Z.ltb_spec (9223372036854775807 - 16) cs); [split; [done|lia]|].
  destruct (Z.ltb_spec cs 16384); [split; [done|lia]|].
  destruct (Z.ltb_spec 1048576 cs); split; done || lia.
Qed.

Lemma validateChunkedVersion_Ok v : validateChunkedVersion v = Ok tt ↔ valid_version v.
Proof.
  unfold validateChunkedVersion, valid_version.
  destruct (Z.eqb_spec v ChunkedFormatV1), (Z.eqb_spec v ChunkedFormatV2); cbn; naive_solver.
Qed.

Lemma ChunkedDataChunkCount_Ok p cs :
  0 ≤ p ≤ MaxInt64 → valid_chunk_size cs → ChunkedDataChunkCount p cs = Ok (nchunks p cs).
Proof.
  intros Hp Hcs. unfold ChunkedDataChunkCount.
  rewrite (proj2 (Z.ltb_ge p 0)), (proj2 (validateChunkSize_Ok cs)) by (done || lia). cbn.
  unfold_consts. destruct (Z.eqb_spec p 0) as [->|].
  { unfold nchunks. by rewrite Z.div_small by lia. }
  rewrite (wrap_i64_id (p - 1)) by lia. rewrite Z.quot_div_nonneg by lia.
  assert (Hn : (p - 1) / cs + 1 = nchunks p cs).
  { unfold nchunks. replace (p + cs - 1) with (p - 1 + 1 * cs) by lia.
    by rewrite Z.div_add by lia. }
  pose proof (nchunks_bounds p cs ltac:(lia) ltac:(lia)).
  rewrite (wrap_i64_id ((p - 1) / cs)) by lia. rewrite Hn, wrap_i64_id, wrap_u64_id by lia.
  by rewrite (proj2 (Z.ltb_ge _ 0)) by lia.
Qed.

Lemma ChunkedDataChunkCount_inv p cs n :
  p ≤ MaxInt64 → ChunkedDataChunkCount p cs = Ok n →
  0 ≤ p ∧ valid_chunk_size cs ∧ n = nchunks p cs.
Proof.
  intros Hp H. pose proof H as H'. unfold ChunkedDataChunkCount in H.
  destruct (Z.ltb_spec p 0); [done|].
  destruct (validateChunkSize cs) as [[]|] eqn:E; [|done].
  apply validateChunkSize_Ok in E. rewrite ChunkedDataChunkCount_Ok in H' by done.
  by simplify_eq.
Qed.

Lemma ChunkedCiphertextSize_spec p cs v :
  0 ≤ p ≤ MaxInt64 → valid_chunk_size cs → valid_version v →
  ChunkedCiphertextSize p cs v =
    if ctsize p cs v <=? MaxInt64 then Ok (ctsize p cs v)
    else Err (Errorf "chunked ciphertext size overflow").
Proof.
  intros Hp Hcs Hv. unfold ChunkedCiphertextSize.
  rewrite (proj2 (validateChunkedVersion_Ok v)) by done. cbn.
  rewrite ChunkedDataChunkCount_Ok by done. cbn. unfold ctsize, trailer.
  set (n := nchunks p cs). assert (Hn := proj1 (nchunks_iff p cs n ltac:(unfold_consts; lia)) eq_refl).
  unfold_consts. rewrite wrap_u64_id by lia.
  change (Z.quot (9223372036854775807 - 32) 16) with 576460752303423485.
  destruct (Z.ltb_spec 576460752303423485 n).
  { rewrite (proj2 (Z.leb_gt _ _)); [done|]. case_match; nia. }
  rewrite !(wrap_u64_id (n * 16)) by nia. rewrite (proj2 (Z.ltb_ge _ (n * 16))) by lia.
  rewrite andb_false_r. destruct Hv as [->| ->]; cbn -[Z.ltb Z.leb].
  - rewrite (proj2 (Z.ltb_ge _ (n * 16))) by lia. cbn -[Z.ltb Z.leb].
    rewrite !(wrap_i64_id (n * 16)) by nia. rewrite (wrap_i64_id (_ - n * 16)) by nia.
    destruct (Z.ltb_spec (9223372036854775807 - n * 16) p).
    + by rewrite (proj2 (Z.leb_gt _ _)) by lia.
    + rewrite (proj2 (Z.leb_le _ _)) by lia. f_equal. rewrite wrap_i64_id by nia. lia.
  - rewrite !(wrap_u64_id (n * 16 + 32)) by nia.
    destruct (Z.ltb_spec 9223372036854775807 (n * 16 + 32)).
    { by rewrite (proj2 (Z.leb_gt _ _)) by lia. }
    cbn -[Z.ltb Z.leb]. rewrite !(wrap_i64_id (n * 16 + 32)) by nia.
    rewrite (wrap_i64_id (_ - (n * 16 + 32))) by nia.
    destruct (Z.ltb_spec (9223372036854775807 - (n * 16 + 32)) p).
    + by rewrite (proj2 (Z.leb_gt _ _)) by lia.
    + rewrite (proj2 (Z.leb_le _ _)) by lia. f_equal. rewrite wrap_i64_id by nia. lia.
Qed.

Lemma try_count_spec d cs n p m :
  0 ≤ d ≤ MaxInt64 → valid_chunk_size cs → 0 ≤ n →
  try_count d cs n = Some (p, m) ↔ m = n ∧ p = d - tagSize * n ∧ 0 ≤ p ∧ nchunks p cs = n.
Proof.
  intros Hd Hcs Hn. unfold try_count. unfold_consts.
  change (Z.quot 9223372036854775807 16) with 576460752303423487.
  destruct (Z.ltb_spec 576460752303423487 n); [split; [done|lia]|].
  rewrite !(wrap_u64_id (n * 16)), !(wrap_i64_id (n * 16)), !(wrap_i64_id (d - n * 16)) by lia.
  replace (d - 16 * n) with (d - n * 16) by lia.
  destruct (Z.ltb_spec (d - n * 16) 0); [split; [done|lia]|].
  rewrite ChunkedDataChunkCount_Ok by (unfold_consts; lia).
  destruct (Z.eqb_spec (nchunks (d - n * 16) cs) n); naive_solver lia.
Qed.

(** Only two counts can fit a given amount of data. *)
Lemma count_candidates d cs q k :
  valid_chunk_size cs → 0 ≤ q → d = q + tagSize * nchunks q cs → 0 < d →
  k = d / (cs + 16) → nchunks q cs = Z.max 1 k ∨ nchunks q cs = Z.max 1 k + 1.
Proof.
  intros Hcs Hq Heq Hd ->. unfold_consts. set (m := nchunks q cs) in *.
  assert (Hm := proj1 (nchunks_iff q cs m ltac:(lia)) eq_refl).
  assert (Hdm := Z.div_mod d (cs + 16) ltac:(lia)).
  assert (Hmb := Z.mod_pos_bound d (cs + 16) ltac:(lia)).
  assert (m * (cs + 16) - cs < d ≤ m * (cs + 16)) by lia.
  assert (1 ≤ m) by nia. nia.
Qed.

Lemma searchCount_spec d cs p n :
  0 < d ≤ MaxInt64 → valid_chunk_size cs →
  searchCount d cs = Ok (p, n) ↔ 0 ≤ p ∧ n = nchunks p cs ∧ d = p + tagSize * nchunks p cs.
Proof.
  intros Hd Hcs. unfold searchCount.
  assert (Hq : 0 ≤ d / (cs + 16) ≤ d).
  { unfold_consts. split; [apply Z.div_pos; lia|apply Z.div_le_upper_bound; nia]. }
  assert (Hcand := λ q, count_candidates d cs q (d / (cs + 16)) Hcs).
  rewrite (wrap_i64_id (cs + tagSize)), Z.quot_div_nonneg by (unfold_consts; lia).
  rewrite (wrap_i64_id (d / _)), (wrap_u64_id (d / _)) by (unfold_consts; lia).
  replace (if d / (cs + tagSize) =? 0 then 1 else d / (cs + tagSize))
    with (Z.max 1 (d / (cs + 16))) by (unfold tagSize in *; case_match; zbool; lia).
  set (k := Z.max 1 (d / (cs + 16))) in *. assert (Hk : 1 ≤ k ≤ d) by lia.
  rewrite (wrap_u64_id (k + 1)) by (unfold_consts; lia).
  assert (Hs := λ m q, try_count_spec d cs k q m ltac:(lia) Hcs ltac:(lia)).
  assert (Hs1 := λ m q, try_count_spec d cs (k + 1) q m ltac:(lia) Hcs ltac:(lia)).
  destruct (try_count d cs k) as [[p0 n0]|].
  - pose proof (proj1 (Hs _ _) eq_refl) as (-> & Hp0 & ? & Hn0). split.
    + intros [= <- <-]. rewrite Hn0. lia.
    + intros (Hp & -> & Heq). destruct (Hcand p Hp Heq ltac:(lia) eq_refl) as [E|E].
      * rewrite E in Heq |- *. do 2 f_equal. lia.
      * exfalso. rewrite E in Heq. apply nchunks_iff in E; [|unfold_consts; lia].
        apply nchunks_iff in Hn0; [|unfold_consts; lia].
        replace (k + 1 - 1) with k in E by lia. unfold_consts. lia.
  - destruct (try_count d cs (k + 1)) as [[p1 n1]|].
    + pose proof (proj1 (Hs1 _ _) eq_refl) as (-> & Hp1 & ? & Hn1). split.
      * intros [= <- <-]. rewrite Hn1. lia.
      * intros (Hp & -> & Heq). destruct (Hcand p Hp Heq ltac:(lia) eq_refl) as [E|E].
        -- pose proof (proj2 (Hs k p) ltac:(rewrite E in Heq; split_and!; lia || done)). done.
        -- rewrite E in Heq |- *. do 2 f_equal. lia.
    + split; [done|]. intros (Hp & -> & Heq).
      destruct (Hcand p Hp Heq ltac:(lia) eq_refl) as [E|E].
      * pose proof (proj2 (Hs k p) ltac:(rewrite E in Heq; split_and!; lia || done)). done.
      * pose proof (proj2 (Hs1 (k + 1) p) ltac:(rewrite E in Heq; split_and!; lia || done)). done.
Qed.

Lemma ChunkedPlaintextSize_spec c cs v p n :
  c ≤ MaxInt64 →
  ChunkedPlaintextSize c cs v = Ok (p, n) ↔
  valid_version v ∧ valid_chunk_size cs ∧ 0 ≤ p ∧ n = nchunks p cs ∧ c = ctsize p cs v.
Proof.
  intros Hc. unfold ChunkedPlaintextSize.
  destruct (validateChunkedVersion v) as [[]|] eqn:Hv; cbn [mbind result_bind];
    [apply validateChunkedVersion_Ok in Hv|
     split; [done|intros [?%validateChunkedVersion_Ok _]; congruence]].
  destruct (validateChunkSize cs) as [[]|] eqn:Hcs; cbn [mbind result_bind];
    [apply validateChunkSize_Ok in Hcs|
     split; [done|intros (_ & ?%validateChunkSize_Ok & _); congruence]].
  assert (Hpos : 0 < cs) by (unfold_consts; lia). fold (trailer v). unfold ctsize.
  assert (Ht : 0 ≤ trailer v ≤ 32) by (unfold trailer; unfold_consts; case_match; lia).
  assert (Hb : ∀ q, 0 ≤ q → 0 ≤ nchunks q cs) by (intros; apply nchunks_bounds; lia).
  destruct (Z.ltb_spec c 0).
  { split; [done|]. intros (_ & _ & Hp & _ & ->). specialize (Hb p Hp). unfold_consts. lia. }
  destruct (Z.ltb_spec c (trailer v)).
  { split; [done|]. intros (_ & _ & Hp & _ & ->). specialize (Hb p Hp). unfold_consts. lia. }
  rewrite !(wrap_i64_id (c - trailer v)) by (unfold_consts; lia).
  destruct (Z.eqb_spec (c - trailer v) 0) as [Hd0|Hd0].
  { split.
    - intros [= <- <-]. assert (nchunks 0 cs = 0) by (apply nchunks_iff; lia).
      unfold_consts. split_and!; try done; lia.
    - intros (_ & _ & Hp & -> & E). specialize (Hb p Hp). unfold_consts.
      assert (p = 0) as -> by lia. do 2 f_equal. lia. }
  destruct ((v =? ChunkedFormatV2) && (c - trailer v <? tagSize)) eqn:Hshort.
  { zbool. split; [done|]. intros (_ & _ & Hp & -> & E). specialize (Hb p Hp).
    assert (nchunks p cs = 0) as Hn0 by (unfold_consts; lia).
    apply nchunks_iff in Hn0; unfold_consts; lia. }
  rewrite searchCount_spec by (done || lia). naive_solver lia.
Qed.

(** ** Properties *)



(** ** Ranges of an object *)

(** Chunks of a plaintext range that lies inside the object. *)
Lemma calculateChunkRangeFromPlaintext_Ok p cs s e :
  valid_chunk_size cs → p ≤ MaxInt64 → 0 ≤ s ≤ e → e < p →
  calculateChunkRangeFromPlaintext s e cs (nchunks p cs) = (s / cs, e / cs, s `mod` cs, e `mod` cs) ∧
  0 ≤ s / cs ≤ e / cs ∧ e / cs < nchunks p cs.
Proof.
  intros Hcs Hp Hse He. unfold calculateChunkRangeFromPlaintext. unfold_consts.
  assert (Hn := proj1 (nchunks_iff p cs (nchunks p cs) ltac:(lia)) eq_refl).
  assert (Hb : 0 ≤ s / cs ≤ e / cs ∧ e / cs < nchunks p cs).
  { split_and!; [apply Z.div_pos; lia|apply Z.div_le_mono; lia|apply Z.div_lt_upper_bound; lia]. }
  split; [|done]. assert (e / cs ≤ e) by (apply Z.div_le_upper_bound; nia).
  rewrite (proj2 (Z.leb_gt cs 0)), (proj2 (Z.leb_gt (nchunks p cs) 0)) by lia.
  rewrite (proj2 (Z.ltb_ge s 0)), (proj2 (Z.ltb_ge e 0)) by lia. cbn [orb].
  rewrite !Z.quot_div_nonneg, !Z.rem_mod_nonneg by lia. nowrap.
  by rewrite !(proj2 (Z.leb_gt (nchunks p cs) _)) by lia.
Qed.

(** The ciphertext range of a run of chunks: whole records, clipped at the
    end of the data, so that the terminal record is never part of it. *)
Lemma ChunkedEncryptedDataRangeForPlaintextSize_Ok p cs v a b :
  valid_chunk_size cs → valid_version v → 0 ≤ p → ctsize p cs v ≤ MaxInt64 →
  0 ≤ a ≤ b → b < nchunks p cs → (b + 1) * (cs + tagSize) ≤ MaxInt64 →
  ChunkedEncryptedDataRangeForPlaintextSize a b p cs v =
    Ok (a * (cs + tagSize), Z.min ((b + 1) * (cs + tagSize)) (p + tagSize * nchunks p cs) - 1).
Proof.
  intros Hcs Hv Hp Hct Hab Hb HU. unfold ChunkedEncryptedDataRangeForPlaintextSize.
  assert (Hn0 := nchunks_bounds p cs ltac:(unfold_consts; lia) Hp).
  assert (Ht : 0 ≤ trailer v ≤ 32) by (unfold trailer; unfold_consts; case_match; lia).
  assert (p ≤ MaxInt64) by (unfold ctsize in Hct; unfold tagSize in *; lia).
  rewrite ChunkedDataChunkCount_Ok by done. cbn -[Z.eqb Z.leb Z.ltb Z.mul].
  rewrite (proj2 (Z.eqb_neq _ 0)), (proj2 (Z.ltb_ge b a)), (proj2 (Z.leb_gt _ b)) by lia. cbn [orb].
  unfold ChunkedEncryptedDataRange.
  rewrite (proj2 (validateChunkedVersion_Ok v)), (proj2 (validateChunkSize_Ok cs)) by done.
  cbn -[Z.eqb Z.leb Z.ltb Z.mul]. rewrite (proj2 (Z.ltb_ge b a)) by lia.
  rewrite (wrap_u64_id (cs + tagSize)) by (unfold_consts; lia).
  set (U := cs + tagSize) in *. assert (HUb : 16400 ≤ U ≤ 1048592) by (unfold U; unfold_consts; lia).
  rewrite Z.quot_div_nonneg by (unfold_consts; lia).
  assert (Hq : b + 1 ≤ MaxInt64 / U) by (apply Z.div_le_lower_bound; lia).
  assert (Hq' : MaxInt64 / U ≤ MaxInt64) by (apply Z.div_le_upper_bound; unfold_consts; nia).
  rewrite (proj2 (Z.eqb_neq b MaxUint64)) by (unfold_consts; lia).
  rewrite (proj2 (Z.ltb_ge _ a)), (proj2 (Z.leb_gt _ b)) by lia. cbn [orb].
  assert (HaU : 0 ≤ a * U < (b + 1) * U) by nia. assert (1 ≤ (b + 1) * U) by lia.
  rewrite (wrap_u64_id (b + 1)), (wrap_u64_id (a * U)), (wrap_u64_id ((b + 1) * U)) by (unfold_consts; lia).
  rewrite (wrap_u64_id ((b + 1) * U - 1)) by (unfold_consts; lia).
  rewrite (proj2 (Z.ltb_ge MaxInt64 _)) by lia. cbn -[Z.eqb Z.leb Z.ltb Z.mul].
  rewrite ChunkedCiphertextSize_spec by done. rewrite (proj2 (Z.leb_le _ _)) by done.
  cbn -[Z.eqb Z.leb Z.ltb Z.mul]. rewrite !(wrap_i64_id (a * U)) by (unfold_consts; lia).
  rewrite !(wrap_i64_id ((b + 1) * U - 1)) by (unfold_consts; lia). unfold ctsize, trailer in *.
  destruct (v =? ChunkedFormatV2); do 2 f_equal; unfold_consts; nowrap; case_match; zbool; nowrap; lia.
Qed.

(** ** Parsing the Range header *)

Lemma parseRangeSpec_int64 spec hint s e :
  is_i64 hint → parseRangeSpec spec hint = Ok (s, e) → is_i64 s ∧ is_i64 e.
Proof.
  intros Hh. unfold parseRangeSpec. repeat case_match; intros; simplify_eq;
    split; eauto using wrap_i64_range, ParseInt_range; unfold is_i64; lia.
Qed.

Lemma digits_no_dash l : forallb is_digit l = true → Forall (λ b, chr_eqb b "-" = false) l.
Proof.
  induction l as [|b l IH]; [done|]. cbn. intros [Hb Hl]%andb_prop. constructor; [|by apply IH].
  by destruct b.
Qed.

Lemma ParseHTTPRangeHeader_spec r hint s e :
  parseRangeSpec (bytes_of_string r) hint = Ok (s, e) → 0 ≤ s ≤ e → (0 < hint → e < hint) →
  ParseHTTPRangeHeader ("bytes=" +:+ r) hint = Ok (s, e).
Proof.
  intros Hr Hse Hh. unfold ParseHTTPRangeHeader.
  rewrite bytes_of_string_app. change (bytes_of_string "bytes=") with (take 6 (bytes_of_string "bytes=")).
  rewrite take_app_length', drop_app_length' by done.
  rewrite bool_decide_eq_true_2 by done.
  replace (strlen ("bytes=" +:+ r) <? 6) with false
    by (symmetry; apply Z.ltb_ge; rewrite <-len_bytes_of_string, bytes_of_string_app, length_app;
        change (length (bytes_of_string "bytes=")) with 6%nat; lia).
  cbn [orb negb]. rewrite Hr. cbn -[Z.ltb Z.leb].
  rewrite (proj2 (Z.ltb_ge s 0)), (proj2 (Z.ltb_ge e s)) by lia.
  destruct (Z.ltb_spec 0 hint); [|done].
  by rewrite !(proj2 (Z.leb_gt hint _)) by lia.
Qed.

Lemma parseRangeSpec_closed s r hint :
  0 ≤ s ≤ MaxInt64 → Forall (λ b, chr_eqb b "-" = false) r →
  parseRangeSpec (FormatInt_bytes s ++ bytes_of_string "-" ++ r) hint =
    match r with
    | [] => if hint <=? 0 then Err (Errorf "open-ended range requires known total size")
            else Ok (s, hint -i 1)
    | _ => match ParseInt_bytes r with
           | None => Err (Errorf "invalid end: %w")
           | Some e => Ok (s, e)
           end
    end.
Proof.
  intros Hs Hr. destruct (FormatInt_digits s Hs) as [Hd Hne].
  pose proof (ParseInt_FormatInt s Hs) as Hp.
  apply digits_no_dash in Hd. change (bytes_of_string "-" ++ r) with ("-"%byte :: r).
  assert (Hsplit : split_bytes "-" (FormatInt_bytes s ++ "-"%byte :: r) [] = [FormatInt_bytes s; r])
    by (by rewrite split_bytes_app, split_bytes_none).
  destruct (FormatInt_bytes s) as [|b l] eqn:E; [done|].
  unfold parseRangeSpec. rewrite <-app_comm_cons in Hsplit |- *.
  inversion Hd as [|?? Hb _]; subst. rewrite Hsplit, Hp. by destruct b.
Qed.

(** The Range header. Whatever text a client sends, an accepted range is
    non-empty, starts at or after zero and, when the object size is known,
    ends inside the object; and the three forms of RFC 7233 are understood:
    a closed range, an open-ended one and a suffix, the latter two exactly
    when the size is known. *)
Theorem range_header_correct hint :
  0 ≤ hint ≤ MaxInt64 →
  (∀ h s e, ParseHTTPRangeHeader h hint = Ok (s, e) →
     0 ≤ s ≤ e ∧ e ≤ MaxInt64 ∧ (0 < hint → e < hint)) ∧
  (∀ s e, 0 ≤ s ≤ e → e ≤ MaxInt64 → (0 < hint → e < hint) →
     ParseHTTPRangeHeader ("bytes=" +:+ FormatInt s +:+ "-" +:+ FormatInt e) hint = Ok (s, e)) ∧
  (∀ s, 0 ≤ s < hint →
     ParseHTTPRangeHeader ("bytes=" +:+ FormatInt s +:+ "-") hint = Ok (s, hint - 1)) ∧
  (∀ k, 0 < k ≤ MaxInt64 → 0 < hint →
     ParseHTTPRangeHeader ("bytes=-" +:+ FormatInt k) hint = Ok (Z.max 0 (hint - k), hint - 1)).
Proof.
  intros Hh. split_and!.
  - intros h s e Hok. unfold ParseHTTPRangeHeader in Hok. inv_ok Hok.
    destruct x as [s' e']. inv_ok Hok. zbool. simplify_eq.
    apply parseRangeSpec_int64 in H; [|unfold is_i64, MaxInt64 in *; lia]. unfold is_i64 in H.
    split_and!; [lia..|unfold MaxInt64; lia|]. intros Hpos.
    apply Z.ltb_lt in Hpos. rewrite Hpos in E2. cbn [andb] in E2. zbool. lia.
  - intros s e Hse He Hhe. apply ParseHTTPRangeHeader_spec; [|done..].
    unfold FormatInt. rewrite !bytes_of_string_app, !bytes_of_string_of_bytes.
    destruct (FormatInt_digits e ltac:(lia)) as [Hd Hne].
    rewrite parseRangeSpec_closed by (lia || by apply digits_no_dash).
    rewrite ParseInt_FormatInt by lia. by destruct (FormatInt_bytes e).
  - intros s Hs. apply ParseHTTPRangeHeader_spec; [|lia..].
    unfold FormatInt. rewrite bytes_of_string_app, bytes_of_string_of_bytes.
    rewrite <-(app_nil_r (bytes_of_string "-")), parseRangeSpec_closed by (lia || constructor). cbn -[Z.leb].
    rewrite (proj2 (Z.leb_gt hint 0)) by lia. unfold MaxInt64 in *. by nowrap.
  - intros k Hk Hpos. change ("bytes=-" +:+ FormatInt k) with ("bytes=" +:+ ("-" +:+ FormatInt k)).
    apply ParseHTTPRangeHeader_spec; [|lia..].
    unfold FormatInt. rewrite bytes_of_string_app, bytes_of_string_of_bytes. cbn -[Z.leb].
    rewrite (proj2 (Z.leb_gt hint 0)), ParseInt_FormatInt by lia. unfold MaxInt64 in *. nowrap.
    do 2 f_equal. case_match; zbool; lia.
Qed.

Lemma range_header_correct_witness :
  ParseHTTPRangeHeader "bytes=-30" 100 = Ok (70, 99).
Proof.
  pose proof (range_header_correct 100 ltac:(vm_compute; split; congruence)) as (_ & _ & _ & Hsuffix).
  apply (Hsuffix 30); [vm_compute; split; congruence|reflexivity].
Defined.
