(* ===== verification/ChunkRecord.v ===== *)
(** * Records of a chunked object

    The per-record derivations of [internal/crypto/chunked.go]: nonces, AAD
    and the terminal record, for both wire versions. [ChunkedParams] groups
    the fields of the Go readers that are fixed at construction; [data_args]
    and [terminal_args] are the blocks of the readers that select a record's
    nonce and AAD. *)
From S2P Require Import Prelude GoStd Primitives ObjectAAD ChunkLayout.
Local Open Scope Z_scope.
Local Open Scope go_scope.
#[local] Arguments bytes_of_string : simpl never.

Section derive.
Context `{HKDF}.

(** ** Version 1 nonces *)

Definition deriveChunkIVHKDFIndex (baseIV : list byte) (chunkIndex : Z) : result (list byte) :=
  if MaxUint32 <? chunkIndex then Err (Errorf "chunk index %d exceeds v1 wire limit")
  else
    let info := bytes_of_string "chunk-iv" ++ be_encode 4 (wrap_u32 chunkIndex) in
    match hkdf_expand baseIV info (length baseIV) with
    | Some iv => Ok iv
    | None => Err (Errorf "hkdf: entropy limit reached")
    end.

(** [deriveChunkIVHKDF]: a nil slice for a negative index or an error. *)
Definition deriveChunkIVHKDF (baseIV : list byte) (chunkIndex : Z) : list byte :=
  if chunkIndex <? 0 then []
  else match deriveChunkIVHKDFIndex baseIV (wrap_u64 chunkIndex) with
       | Ok iv => iv
       | Err _ => []
       end.

Definition byte_xor (a b : byte) : byte := byte_of (Z.lxor (byte_val a) (byte_val b)).

(** The loop [for i := 0; i < 4 && i < len(iv); i++]. *)
Fixpoint xor_tail (n i : nat) (index iv : list byte) : list byte :=
  match n with
  | O => iv
  | S n =>
      if decide (i < length iv)%nat then
        let k := (length iv - 1 - i)%nat in
        xor_tail n (S i) index
          (<[k := byte_xor (default x00 (iv !! k)) (default x00 (index !! (3 - i)%nat))]> iv)
      else iv
  end.

Definition deriveLegacyChunkIVIndex (baseIV : list byte) (chunkIndex : Z) : result (list byte) :=
  if MaxUint32 <? chunkIndex then Err (Errorf "chunk index %d exceeds v1 wire limit")
  else Ok (xor_tail 4 0 (be_encode 4 (wrap_u32 chunkIndex)) baseIV).

(** ** Version 2 nonces and AAD *)

Definition readHKDFNonce (baseIV info : list byte) : result (list byte) :=
  match hkdf_new baseIV [] info (Z.to_nat nonceSize) with
  | Some nonce => Ok nonce
  | None => Err (Errorf "derive chunk nonce: %w")
  end.

Definition deriveChunkNonceHKDF (baseIV : list byte) (version chunkIndex : Z) : result (list byte) :=
  if negb (version =? ChunkedFormatV2) then Err ErrUnsupportedChunkedVersion
  else readHKDFNonce baseIV
         (bytes_of_string "chunked-v2/data-nonce" ++ [x00] ++ be_encode 8 chunkIndex).

Definition deriveTerminalNonceHKDF (baseIV : list byte) (version : Z) : result (list byte) :=
  if negb (version =? ChunkedFormatV2) then Err ErrUnsupportedChunkedVersion
  else readHKDFNonce baseIV (bytes_of_string "chunked-v2/terminal-nonce" ++ [x00]).

Definition buildChunkAAD (version chunkIndex : Z) : list byte :=
  if negb (version =? ChunkedFormatV2) then []
  else bytes_of_string "chunked-v2/data" ++ [x00] ++ be_encode 8 chunkIndex.

Definition buildTerminalAAD (version : Z) : list byte :=
  if negb (version =? ChunkedFormatV2) then []
  else bytes_of_string "chunked-v2/terminal" ++ [x00].

Definition encodeChunkedTerminal (chunkCount plaintextSize : Z) : list byte :=
  be_encode 8 chunkCount ++ be_encode 8 plaintextSize.

Definition decodeChunkedTerminal (plaintext : list byte) : result (Z * Z) :=
  if negb (len plaintext =? chunkedTerminalPlainSize)
  then Err (Wrapf "%w: invalid terminal length" ErrChunkedObjectIncomplete)
  else Ok (be_decode (take 8 plaintext), be_decode (drop 8 plaintext)).

(** ** Selecting nonce and AAD *)

Record ChunkedParams := mkParams {
  cp_aead : AEAD;
  cp_terminalAEAD : option AEAD;
  cp_baseIV : list byte;
  cp_chunkSize : Z;
  cp_version : Z;
  cp_ivDerivation : string;
  cp_object : ObjectContext;
  cp_bindingID : list byte;
  cp_boundV2 : bool }.

(** A Go assignment [x, err = f()] whose error is overwritten before it is
    looked at keeps the nil slice. *)
Definition or_nil (r : result (list byte)) : list byte :=
  match r with Ok x => x | Err _ => [] end.

(** Nonce and AAD of data record [i] of a version 2 object. In the bound case
    the error of the nonce derivation is overwritten by that of
    [buildObjectAAD]. *)
Definition data_args_v2 (P : ChunkedParams) (i : Z) : result (list byte * list byte) :=
  if cp_boundV2 P then
    aad ← buildObjectAAD aadChunkedV2Data (cp_object P) (cp_bindingID P) [i];
    Ok (or_nil (deriveChunkNonceHKDF (cp_baseIV P) (cp_version P) i), aad)
  else
    nonce ← deriveChunkNonceHKDF (cp_baseIV P) (cp_version P) i;
    Ok (nonce, buildChunkAAD (cp_version P) i).

(** The writer's choice: version 1 always derives with HKDF. *)
Definition enc_data_args (P : ChunkedParams) (i : Z) : result (list byte * list byte) :=
  if cp_version P =? ChunkedFormatV2 then data_args_v2 P i
  else nonce ← deriveChunkIVHKDFIndex (cp_baseIV P) i; Ok (nonce, []).

(** The reader's choice: version 1 follows the manifest. *)
Definition dec_data_args (P : ChunkedParams) (i : Z) : result (list byte * list byte) :=
  if cp_version P =? ChunkedFormatV2 then data_args_v2 P i
  else
    nonce ← (if decide (cp_ivDerivation P = "hkdf-sha256")
             then deriveChunkIVHKDFIndex (cp_baseIV P) i
             else deriveLegacyChunkIVIndex (cp_baseIV P) i);
    Ok (nonce, []).

(** Nonce and AAD of the terminal of an object of [count] chunks and [size]
    bytes. *)
Definition terminal_args (P : ChunkedParams) (count size : Z) : result (list byte * list byte) :=
  nonce ← deriveTerminalNonceHKDF (cp_baseIV P) (cp_version P);
  if cp_boundV2 P then
    aad ← buildObjectAAD aadChunkedV2Trailer (cp_object P) (cp_bindingID P) [count; size];
    Ok (nonce, aad)
  else Ok (nonce, buildTerminalAAD (cp_version P)).

(** ** Facts *)

Lemma decode_encode_terminal n s :
  is_u64 n → is_u64 s → decodeChunkedTerminal (encodeChunkedTerminal n s) = Ok (n, s).
Proof.
  intros Hn Hs. unfold decodeChunkedTerminal, encodeChunkedTerminal, is_u64 in *.
  rewrite length_app, !length_be_encode. cbn.
  rewrite take_app_length', drop_app_length' by (by rewrite length_be_encode).
  by rewrite !be_decode_encode, !Z.mod_small by (cbn; lia).
Qed.

Lemma decodeChunkedTerminal_inv p n s :
  decodeChunkedTerminal p = Ok (n, s) → p = encodeChunkedTerminal n s ∧ is_u64 n ∧ is_u64 s.
Proof.
  unfold decodeChunkedTerminal, chunkedTerminalPlainSize.
  destruct (Z.eqb_spec (len p) 16) as [Hp|]; [|done]. intros [= <- <-].
  assert (length (take 8 p) = 8%nat) as H1 by (rewrite length_take; lia).
  assert (length (drop 8 p) = 8%nat) as H2 by (rewrite length_drop; lia).
  pose proof (be_decode_range (take 8 p)) as R1. pose proof (be_decode_range (drop 8 p)) as R2.
  rewrite H1 in R1. rewrite H2 in R2. unfold encodeChunkedTerminal, is_u64.
  rewrite !be_encode_decode, take_drop by done. cbn in R1, R2. split_and!; [done|lia..].
Qed.

Context `{!HKDFLaws}.

Lemma readHKDFNonce_Ok baseIV info :
  ∃ nonce, readHKDFNonce baseIV info = Ok nonce ∧ length nonce = 12%nat.
Proof.
  unfold readHKDFNonce.
  destruct (hkdf_new_length baseIV [] info (Z.to_nat nonceSize)) as (nonce & -> & Hl);
    [vm_compute; lia|]. eauto.
Qed.

Lemma deriveChunkIVHKDFIndex_Ok baseIV i :
  length baseIV = 12%nat → i ≤ MaxUint32 →
  ∃ nonce, deriveChunkIVHKDFIndex baseIV i = Ok nonce ∧ length nonce = 12%nat.
Proof.
  intros Hl Hi. unfold deriveChunkIVHKDFIndex. rewrite (proj2 (Z.ltb_ge _ _)) by lia. cbn.
  rewrite Hl.
  destruct (hkdf_expand_length baseIV (bytes_of_string "chunk-iv" ++ be_encode 4 (wrap_u32 i)) 12)
    as (nonce & -> & ?); [lia|]. eauto.
Qed.

Lemma length_xor_tail n i index iv : length (xor_tail n i index iv) = length iv.
Proof.
  revert i iv. induction n as [|n IH]; intros i iv; cbn; [done|]. case_decide; [|done].
  by rewrite IH, length_insert.
Qed.

(** Parameters under which a writer and its readers can work. *)
Record params_ok (P : ChunkedParams) : Prop := {
  po_aead : AEADLaws (cp_aead P);
  po_size : valid_chunk_size (cp_chunkSize P);
  po_version : valid_version (cp_version P);
  po_iv : cp_version P = ChunkedFormatV1 → length (cp_baseIV P) = 12%nat;
  po_terminal : cp_version P = ChunkedFormatV2 →
    ∃ t, cp_terminalAEAD P = Some t ∧ AEADLaws t;
  po_bound : cp_boundV2 P = true →
    Validate (cp_object P) = Ok tt ∧ len (cp_bindingID P) = 16 }.

(** Largest number of records a version can address. *)
Definition max_records (v : Z) : Z := if v =? ChunkedFormatV2 then MaxUint64 else MaxUint32 + 1.

Lemma data_args_v2_Ok P i :
  params_ok P → cp_version P = ChunkedFormatV2 →
  ∃ n a, data_args_v2 P i = Ok (n, a) ∧ length n = 12%nat.
Proof.
  intros HP Hv. unfold data_args_v2, deriveChunkNonceHKDF. rewrite Hv. cbn -[readHKDFNonce buildObjectAAD].
  match goal with |- context [readHKDFNonce ?b ?i] =>
    destruct (readHKDFNonce_Ok b i) as (n & -> & Hl) end.
  destruct (cp_boundV2 P) eqn:Hb.
  - destruct (po_bound P HP Hb) as [Hval Hlen].
    destruct (buildObjectAAD_total aadChunkedV2Data (cp_object P) (cp_bindingID P) [i]) as [a ->];
      [done|unfold aadDomains; set_solver|done|cbn; lia|].
    cbn. eauto.
  - cbn. eauto.
Qed.

Lemma enc_data_args_Ok P i :
  params_ok P → 0 ≤ i < max_records (cp_version P) →
  ∃ n a, enc_data_args P i = Ok (n, a) ∧ length n = 12%nat.
Proof.
  intros HP Hi. unfold enc_data_args, max_records in *.
  destruct (Z.eqb_spec (cp_version P) ChunkedFormatV2) as [Hv|Hv]; [by apply data_args_v2_Ok|].
  destruct (po_version P HP) as [Hv'|]; [|done].
  destruct (deriveChunkIVHKDFIndex_Ok (cp_baseIV P) i) as (n & -> & ?);
    [by apply po_iv|lia|]. cbn. eauto.
Qed.

Lemma terminal_args_Ok P n s :
  params_ok P → cp_version P = ChunkedFormatV2 →
  ∃ nonce a, terminal_args P n s = Ok (nonce, a) ∧ length nonce = 12%nat.
Proof.
  intros HP Hv. unfold terminal_args, deriveTerminalNonceHKDF. rewrite Hv. cbn -[readHKDFNonce buildObjectAAD].
  match goal with |- context [readHKDFNonce ?b ?i] =>
    destruct (readHKDFNonce_Ok b i) as (nonce & -> & Hl) end.
  cbn [mbind result_bind]. destruct (cp_boundV2 P) eqn:Hb; [|eauto].
  destruct (po_bound P HP Hb) as [Hval Hlen].
  destruct (buildObjectAAD_total aadChunkedV2Trailer (cp_object P) (cp_bindingID P) [n; s]) as [a ->];
    [done|unfold aadDomains; set_solver|done|cbn; lia|].
  cbn. eauto.
Qed.
End derive.
