(* ===== verification/ChunkedStream.v ===== *)
(** * The chunked encrypting and decrypting readers

    [chunkedEncryptReader] and [chunkedDecryptReader] of
    [internal/crypto/chunked.go] as state machines: the mutable fields of the
    Go structs are the records [encReader] and [decReader], one turn of the
    [Read] loop that does not serve pending bytes is [enc_advance] /
    [dec_advance], and [enc_Read] / [dec_Read] are the [Read] methods. Both
    are instances of [Pull] and [StreamReader]. *)
From S2P Require Import Prelude GoStd GoIO Primitives ObjectAAD ChunkLayout ChunkRecord.
Local Open Scope Z_scope.
Local Open Scope go_scope.
#[local] Arguments bytes_of_string : simpl never.

(** ** State *)

Record encReader := mkEnc {
  er_params : ChunkedParams;
  er_manifest : ChunkManifest;
  er_source : Source;
  er_ctx : Ctx;
  er_index : Z;
  er_plainSize : Z;
  er_pending : list byte;
  er_done : bool;
  er_err : option error }.

Record decReader := mkDec {
  dr_params : ChunkedParams;
  dr_source : Source;
  dr_ctx : Ctx;
  dr_index : Z;
  dr_plainSize : Z;
  dr_pending : list byte;
  dr_lookbehind : list byte;
  dr_done : bool;
  dr_err : option error }.

Definition er_set_pending (p : list byte) (r : encReader) : encReader :=
  mkEnc (er_params r) (er_manifest r) (er_source r) (er_ctx r) (er_index r) (er_plainSize r)
    p (er_done r) (er_err r).
Definition er_set_err (e : error) (r : encReader) : encReader :=
  mkEnc (er_params r) (er_manifest r) (er_source r) (er_ctx r) (er_index r) (er_plainSize r)
    (er_pending r) (er_done r) (Some e).
Definition enc_fail (r : encReader) (e : error) : encReader * option error := (er_set_err e r, Some e).

Definition dr_set_pending (p : list byte) (r : decReader) : decReader :=
  mkDec (dr_params r) (dr_source r) (dr_ctx r) (dr_index r) (dr_plainSize r)
    p (dr_lookbehind r) (dr_done r) (dr_err r).
Definition dr_set_lookbehind (l : list byte) (r : decReader) : decReader :=
  mkDec (dr_params r) (dr_source r) (dr_ctx r) (dr_index r) (dr_plainSize r)
    (dr_pending r) l (dr_done r) (dr_err r).
Definition dr_set_done (r : decReader) : decReader :=
  mkDec (dr_params r) (dr_source r) (dr_ctx r) (dr_index r) (dr_plainSize r)
    (dr_pending r) (dr_lookbehind r) true (dr_err r).
Definition dr_set_err (e : error) (r : decReader) : decReader :=
  mkDec (dr_params r) (dr_source r) (dr_ctx r) (dr_index r) (dr_plainSize r)
    (dr_pending r) (dr_lookbehind r) (dr_done r) (Some e).
Definition dec_fail (r : decReader) (e : error) : decReader * option error := (dr_set_err e r, Some e).

(** [err != io.EOF && err != io.ErrUnexpectedEOF]. *)
Definition is_end (e : error) : bool := bool_decide (e = EOF) || bool_decide (e = ErrUnexpectedEOF).

Section readers.
Context `{HKDF}.

(** ** Constructors *)

Definition newChunkedEncryptReaderForVersion (ctx : Ctx) (source : Source) (aead : AEAD)
    (baseIV : list byte) (chunkSize version : Z) (terminalAEAD : option AEAD)
    : encReader * ChunkManifest :=
  let chunkSize := if chunkSize <? MinChunkSize then MinChunkSize else chunkSize in
  let chunkSize := if MaxChunkSize <? chunkSize then MaxChunkSize else chunkSize in
  let manifest := mkManifest version chunkSize 0 (encodeBase64 baseIV) [] "hkdf-sha256" in
  let P := mkParams aead terminalAEAD baseIV chunkSize version "hkdf-sha256" (mkObject "" "") [] false in
  (mkEnc P manifest source ctx 0 0 [] false None, manifest).

Definition newChunkedEncryptReaderV1 (ctx : Ctx) (source : Source) (aead : AEAD)
    (baseIV : list byte) (chunkSize : Z) : encReader * ChunkManifest :=
  newChunkedEncryptReaderForVersion ctx source aead baseIV chunkSize ChunkedFormatV1 None.

(** With [context.Background()], which is never done. *)
Definition newChunkedEncryptReader (source : Source) (aead : AEAD) (baseIV : list byte) (chunkSize : Z)
    : encReader * ChunkManifest :=
  newChunkedEncryptReaderV1 [] source aead baseIV chunkSize.

Definition newLegacyChunkedEncryptReaderV2 (ctx : Ctx) (source : Source) (aead : AEAD)
    (baseIV : list byte) (chunkSize version : Z) (terminalAEAD : option AEAD)
    : result (encReader * ChunkManifest) :=
  if negb (version =? ChunkedFormatV2) then Err (Errorf "unsupported v2 chunked writer version: %d")
  else match terminalAEAD with
       | None => Err (Errorf "v2 chunked writer requires terminal AEAD")
       | Some _ => Ok (newChunkedEncryptReaderForVersion ctx source aead baseIV chunkSize version terminalAEAD)
       end.

Definition bind_params (P : ChunkedParams) (object : ObjectContext) (bindingID : list byte) : ChunkedParams :=
  mkParams (cp_aead P) (cp_terminalAEAD P) (cp_baseIV P) (cp_chunkSize P) (cp_version P)
    (cp_ivDerivation P) object bindingID true.

Definition newChunkedEncryptReaderV2Bound (ctx : Ctx) (source : Source) (aead : AEAD)
    (baseIV : list byte) (chunkSize : Z) (terminalAEAD : option AEAD)
    (object : ObjectContext) (bindingID : list byte) : result (encReader * ChunkManifest) :=
  _ ← Validate object;
  if negb (len bindingID =? 16) then Err (Errorf "binding ID must be exactly 16 bytes")
  else
    '(r, m) ← newLegacyChunkedEncryptReaderV2 ctx source aead baseIV chunkSize ChunkedFormatV2 terminalAEAD;
    Ok (mkEnc (bind_params (er_params r) object bindingID) (er_manifest r) (er_source r) (er_ctx r)
          (er_index r) (er_plainSize r) (er_pending r) (er_done r) (er_err r), m).

Definition newChunkedEncryptReaderWithContext (ctx : Ctx) (source : Source) (aead : AEAD)
    (terminalAEAD : option AEAD) (baseIV : list byte) (chunkSize version : Z)
    : result (encReader * ChunkManifest) :=
  if version =? ChunkedFormatV2 then Err (Errorf "current chunked-v2 writer requires object binding")
  else if negb (version =? ChunkedFormatV1) then Err (Errorf "unsupported chunked format version: %d")
  else Ok (newChunkedEncryptReaderForVersion ctx source aead baseIV chunkSize version None).

Definition newChunkedDecryptReaderForVersion (ctx : Ctx) (source : Source) (aead : AEAD)
    (manifest : option ChunkManifest) (terminalAEAD : option AEAD) : result decReader :=
  match manifest with
  | None => Err (Errorf "missing chunk manifest")
  | Some m =>
      if negb (mf_Version m =? ChunkedFormatV1) && negb (mf_Version m =? ChunkedFormatV2)
      then Err ErrUnsupportedChunkedVersion
      else
        let version := if mf_Version m =? ChunkedFormatV2 then ChunkedFormatV2 else ChunkedFormatV1 in
        _ ← validateChunkedVersion version;
        _ ← validateChunkSize (mf_ChunkSize m);
        match decodeBase64 (mf_BaseIV m) with
        | Err e => Err (Wrapf "failed to decode base IV: %w" e)
        | Ok baseIV =>
            if (mf_Version m =? ChunkedFormatV2) && match terminalAEAD with None => true | Some _ => false end
            then Err (Errorf "v2 chunked reader requires terminal AEAD")
            else
              let P := mkParams aead terminalAEAD baseIV (mf_ChunkSize m) version (mf_IVDerivation m)
                         (mkObject "" "") [] false in
              Ok (mkDec P source ctx 0 0 [] [] false None)
        end
  end.

Definition newChunkedDecryptReaderV1 (ctx : Ctx) (source : Source) (aead : AEAD)
    (manifest : option ChunkManifest) : result decReader :=
  newChunkedDecryptReaderForVersion ctx source aead manifest None.

Definition newChunkedDecryptReader (source : Source) (aead : AEAD) (manifest : option ChunkManifest)
    : result decReader :=
  newChunkedDecryptReaderV1 [] source aead manifest.

Definition newLegacyChunkedDecryptReaderV2 (ctx : Ctx) (source : Source) (aead : AEAD)
    (manifest : option ChunkManifest) (terminalAEAD : option AEAD) : result decReader :=
  let supported := match manifest with Some m => mf_Version m =? ChunkedFormatV2 | None => false end in
  if negb supported then Err (Errorf "v2 chunked reader requires version 2 manifest")
  else match terminalAEAD with
       | None => Err (Errorf "v2 chunked reader requires terminal AEAD")
       | Some _ => newChunkedDecryptReaderForVersion ctx source aead manifest terminalAEAD
       end.

Definition newChunkedDecryptReaderV2Bound (ctx : Ctx) (source : Source) (aead : AEAD)
    (manifest : option ChunkManifest) (terminalAEAD : option AEAD)
    (object : ObjectContext) (bindingID : list byte) : result decReader :=
  _ ← Validate object;
  if negb (len bindingID =? 16) then Err (Errorf "binding ID must be exactly 16 bytes")
  else
    r ← newLegacyChunkedDecryptReaderV2 ctx source aead manifest terminalAEAD;
    Ok (mkDec (bind_params (dr_params r) object bindingID) (dr_source r) (dr_ctx r) (dr_index r)
          (dr_plainSize r) (dr_pending r) (dr_lookbehind r) (dr_done r) (dr_err r)).

Definition newChunkedDecryptReaderWithContext (ctx : Ctx) (source : Source) (dataAEAD : AEAD)
    (terminalAEAD : option AEAD) (manifest : option ChunkManifest) : result decReader :=
  match manifest with
  | Some m => if mf_Version m =? ChunkedFormatV2
              then Err (Errorf "current chunked-v2 reader requires object binding")
              else newChunkedDecryptReaderV1 ctx source dataAEAD manifest
  | None => newChunkedDecryptReaderV1 ctx source dataAEAD manifest
  end.

(** ** Encrypting *)

(** A turn in which [io.ReadFull] delivered the bytes [pt]. *)
Definition enc_data (r : encReader) (pt : list byte) : encReader * option error :=
  match enc_data_args (er_params r) (er_index r) with
  | Err e => enc_fail r e
  | Ok (nonce, aad) =>
      let r := er_set_pending (Seal (cp_aead (er_params r)) nonce pt aad) r in
      if MaxUint64 -u er_plainSize r <? len pt then enc_fail r (Errorf "plaintext size overflow")
      else
        let plainSize := er_plainSize r +u len pt in
        let r := mkEnc (er_params r) (er_manifest r) (er_source r) (er_ctx r) (er_index r) plainSize
                   (er_pending r) (er_done r) (er_err r) in
        if er_index r =? MaxUint64 then enc_fail r (Errorf "chunk count overflow")
        else
          let index := er_index r +u 1 in
          let m := er_manifest r in
          let manifest := mkManifest (mf_Version m) (mf_ChunkSize m) index (mf_BaseIV m) (mf_IVs m)
                            (mf_IVDerivation m) in
          (mkEnc (er_params r) manifest (er_source r) (er_ctx r) index (er_plainSize r)
             (er_pending r) (er_done r) (er_err r), None)
  end.

(** The turn in which the source has ended. *)
Definition enc_finish (r : encReader) : encReader * option error :=
  let r := mkEnc (er_params r) (er_manifest r) (er_source r) (er_ctx r) (er_index r) (er_plainSize r)
             (er_pending r) true (er_err r) in
  if cp_version (er_params r) =? ChunkedFormatV2 then
    match cp_terminalAEAD (er_params r) with
    | None => enc_fail r (Errorf "terminal AEAD is not configured")
    | Some t =>
        match terminal_args (er_params r) (er_index r) (er_plainSize r) with
        | Err e => enc_fail r e
        | Ok (nonce, aad) =>
            (er_set_pending (Seal t nonce (encodeChunkedTerminal (er_index r) (er_plainSize r)) aad) r, None)
        end
    end
  else (r, None).

Definition enc_advance (r : encReader) : encReader * option error :=
  let '(polled, ctx) := ctx_poll (er_ctx r) in
  let r := mkEnc (er_params r) (er_manifest r) (er_source r) ctx (er_index r) (er_plainSize r)
             (er_pending r) (er_done r) (er_err r) in
  match polled with
  | Some e => enc_fail r e
  | None =>
      let '(pt, err, source) := ReadFull (er_source r) (Z.to_nat (cp_chunkSize (er_params r))) in
      let r := mkEnc (er_params r) (er_manifest r) source (er_ctx r) (er_index r) (er_plainSize r)
                 (er_pending r) (er_done r) (er_err r) in
      match pt with
      | _ :: _ => enc_data r pt
      | [] => match err with
              | Some e => if is_end e then enc_finish r else enc_fail r e
              | None => enc_finish r
              end
      end
  end.

(** ** Decrypting *)

Definition decryptData (r : decReader) (ciphertext : list byte) : decReader * option error :=
  match dec_data_args (dr_params r) (dr_index r) with
  | Err e => (r, Some e)
  | Ok (nonce, aad) =>
      match Open (cp_aead (dr_params r)) nonce ciphertext aad with
      | None => (r, Some (Errorf "failed to decrypt chunk %d: %w"))
      | Some pt =>
          let r := mkDec (dr_params r) (dr_source r) (dr_ctx r) (dr_index r +u 1) (dr_plainSize r)
                     (dr_pending r ++ pt) (dr_lookbehind r) (dr_done r) (dr_err r) in
          if MaxUint64 -u dr_plainSize r <? len pt then (r, Some (Errorf "plaintext size overflow"))
          else (mkDec (dr_params r) (dr_source r) (dr_ctx r) (dr_index r) (dr_plainSize r +u len pt)
                  (dr_pending r) (dr_lookbehind r) (dr_done r) (dr_err r), None)
      end
  end.

Definition verifyTerminal (r : decReader) (terminal : list byte) : option error :=
  match cp_terminalAEAD (dr_params r) with
  | Some t =>
      if negb (len terminal =? ChunkedTerminalSize)
      then Some (Wrapf "%w: missing or short terminal" ErrChunkedObjectIncomplete)
      else match terminal_args (dr_params r) (dr_index r) (dr_plainSize r) with
           | Err e => Some e
           | Ok (nonce, aad) =>
               match Open t nonce terminal aad with
               | None => Some (Wrapf "%w: terminal authentication failed: %v" ErrChunkedObjectIncomplete)
               | Some plain =>
                   match decodeChunkedTerminal plain with
                   | Err e => Some e
                   | Ok (count, size) =>
                       if negb (count =? dr_index r) || negb (size =? dr_plainSize r)
                       then Some (Wrapf "%w: terminal mismatch" ErrChunkedObjectIncomplete)
                       else None
                   end
               end
           end
  | None => Some (Wrapf "%w: missing or short terminal" ErrChunkedObjectIncomplete)
  end.

(** [chunkSize + tagSize], the size of a full record. *)
Definition unitSize (P : ChunkedParams) : Z := cp_chunkSize P +i tagSize.

Definition ErrInvalidRecord : error := Wrapf "%w: invalid data record: %v" ErrChunkedObjectIncomplete.

(** The inner loop that decrypts records while more than a record and a
    terminal are buffered. *)
Fixpoint dec_flush (fuel : nat) (r : decReader) : decReader * option error :=
  match fuel with
  | O => (r, None)
  | S f =>
      if ChunkedTerminalSize + unitSize (dr_params r) <? len (dr_lookbehind r) then
        let u := Z.to_nat (unitSize (dr_params r)) in
        match decryptData r (take u (dr_lookbehind r)) with
        | (r, Some _) => dec_fail r ErrInvalidRecord
        | (r, None) => dec_flush f (dr_set_lookbehind (drop u (dr_lookbehind r)) r)
        end
      else (r, None)
  end.

(** What happens after the source has ended: the last record, then the
    terminal. *)
Definition dec_last (r : decReader) : decReader * option error :=
  if len (dr_lookbehind r) <? ChunkedTerminalSize
  then dec_fail r (Wrapf "%w: missing or short terminal" ErrChunkedObjectIncomplete)
  else
    let bodyLen := (length (dr_lookbehind r) - Z.to_nat ChunkedTerminalSize)%nat in
    let '(r, failed) :=
      if decide (0 < bodyLen)%nat then decryptData r (take bodyLen (dr_lookbehind r)) else (r, None) in
    match failed with
    | Some _ => dec_fail r ErrInvalidRecord
    | None =>
        match verifyTerminal r (drop bodyLen (dr_lookbehind r)) with
        | Some e => dec_fail r e
        | None => (dr_set_done (dr_set_lookbehind [] r), None)
        end
    end.

Definition dec_advance (r : decReader) : decReader * option error :=
  let '(polled, ctx) := ctx_poll (dr_ctx r) in
  let r := mkDec (dr_params r) (dr_source r) ctx (dr_index r) (dr_plainSize r) (dr_pending r)
             (dr_lookbehind r) (dr_done r) (dr_err r) in
  match polled with
  | Some e => dec_fail r e
  | None =>
      let '(buf, err, source) := ReadFull (dr_source r) (Z.to_nat (unitSize (dr_params r))) in
      let r := mkDec (dr_params r) source (dr_ctx r) (dr_index r) (dr_plainSize r) (dr_pending r)
                 (dr_lookbehind r) (dr_done r) (dr_err r) in
      if cp_version (dr_params r) =? ChunkedFormatV2 then
        let r := dr_set_lookbehind (dr_lookbehind r ++ buf) r in
        match dec_flush (length (dr_lookbehind r)) r with
        | (r, Some e) => (r, Some e)
        | (r, None) =>
            match err with
            | None => (r, None)
            | Some e => if is_end e then dec_last r else dec_fail r e
            end
        end
      else
        match buf with
        | _ :: _ =>
            match decryptData r buf with
            | (r, Some e) => dec_fail r e
            | (r, None) => (r, None)
            end
        | [] =>
            match err with
            | Some e => if is_end e then (dr_set_done r, None) else dec_fail r e
            | None => (dr_set_done r, None)
            end
        end
  end.

(** ** The readers as instances of the interfaces *)

Definition enc_measure (r : encReader) : nat :=
  (length (src_data (er_source r)) + if er_done r then 0 else 1)%nat.
Definition dec_measure (r : decReader) : nat :=
  (length (src_data (dr_source r)) + if dr_done r then 0 else 1)%nat.

Lemma ReadFull_length s n bs e s' :
  ReadFull s n = (bs, e, s') → (length (src_data s) = length bs + length (src_data s'))%nat.
Proof. intros (Hd & _)%ReadFull_app. by rewrite Hd, length_app. Qed.

Lemma enc_data_Some r pt r' :
  enc_data r pt = (r', None) →
  er_err r' = er_err r ∧ er_source r' = er_source r ∧ er_done r' = er_done r.
Proof. unfold enc_data, enc_fail. repeat case_match; intros; by simplify_eq/=. Qed.

Lemma enc_finish_Some r r' :
  enc_finish r = (r', None) →
  er_err r' = er_err r ∧ er_source r' = er_source r ∧ er_done r' = true.
Proof. unfold enc_finish, enc_fail. repeat case_match; intros; by simplify_eq/=. Qed.

Lemma enc_advance_ok r r' :
  er_err r = None → er_done r = false → enc_advance r = (r', None) →
  er_err r' = None ∧ (enc_measure r' < enc_measure r)%nat.
Proof.
  intros He Hd. unfold enc_advance, enc_fail, enc_measure. rewrite Hd.
  destruct (ctx_poll (er_ctx r)) as [[e|] c]; [done|]. cbn [er_source er_params].
  destruct (ReadFull _ _) as [[pt err] src] eqn:ER. apply ReadFull_length in ER.
  intros H'. destruct pt as [|b pt].
  - assert (Hf : enc_finish (mkEnc (er_params r) (er_manifest r) src c (er_index r) (er_plainSize r)
      (er_pending r) false (er_err r)) = (r', None)) by (repeat case_match; done).
    apply enc_finish_Some in Hf as (-> & -> & ->). cbn in *. split; [done|lia].
  - apply enc_data_Some in H' as (-> & -> & ->). cbn in *. split; [done|lia].
Qed.

#[global] Program Instance enc_pull : Pull encReader := {|
  pl_pending := er_pending; pl_set_pending := er_set_pending; pl_finished := er_done;
  pl_advance := enc_advance; pl_measure := enc_measure; pl_ok r := er_err r = None |}.
Next Obligation. done. Qed.
Next Obligation. done. Qed.
Next Obligation. by intros []. Qed.
Next Obligation. done. Qed.
Next Obligation. done. Qed.
Next Obligation. done. Qed.
Next Obligation. intros r r' He _ Hd Ha. by apply enc_advance_ok. Qed.

(** [chunkedEncryptReader.Read] into a buffer of [n] bytes. *)
Definition enc_Read (r : encReader) (n : nat) : option (list byte * option error * encReader) :=
  match er_err r with
  | Some e => Some ([], Some e, r)
  | None =>
      if er_done r && bool_decide (er_pending r = []) then Some ([], Some EOF, r)
      else pull_finish er_done (pull_loop (pull_fuel r n) r n [])
  end.

#[global] Program Instance enc_stream : StreamReader encReader := {|
  sr_read := enc_Read; sr_rem r O e := er_err r = None ∧ pulls r O e |}.
Next Obligation.
  intros r O e n [He Hp] Hn. unfold enc_Read. rewrite He.
  destruct (er_done r && bool_decide (er_pending r = [])) eqn:E.
  - apply andb_prop in E as [Hd Hpe%bool_decide_eq_true_1].
    destruct (pulls_det r [] EOF O e) as [<- <-]; [by apply pulls_end|done|].
    exists [], (Some EOF), r. split_and!; [done|cbn; lia|by right].
  - destruct (pull_finish_law er_done r O e n) as (bs & oe & r' & -> & ? & Hc); [done..|].
    exists bs, oe, r'. split_and!; [done..|]. naive_solver.
Qed.

Lemma decryptData_fields r ct r' oe :
  decryptData r ct = (r', oe) →
  dr_params r' = dr_params r ∧ dr_source r' = dr_source r ∧ dr_lookbehind r' = dr_lookbehind r ∧
  dr_done r' = dr_done r ∧ dr_err r' = dr_err r.
Proof. unfold decryptData. repeat case_match; intros; by simplify_eq/=. Qed.

Lemma dec_flush_fields fuel r r' :
  dec_flush fuel r = (r', None) →
  dr_params r' = dr_params r ∧ dr_source r' = dr_source r ∧
  dr_done r' = dr_done r ∧ dr_err r' = dr_err r.
Proof.
  revert r. induction fuel as [|f IH]; intros r; cbn -[Z.add Z.ltb]; [by intros [= ->]|].
  case_match; [|by intros [= ->]].
  destruct (decryptData r _) as [r1 [e|]] eqn:E; [done|].
  apply decryptData_fields in E as (? & ? & _ & ? & ?).
  intros (Hp & Hs & Hd & He)%IH. cbn in *. split_and!; congruence.
Qed.

Lemma dec_last_fields r r' :
  dec_last r = (r', None) →
  dr_params r' = dr_params r ∧ dr_source r' = dr_source r ∧ dr_done r' = true ∧ dr_err r' = dr_err r.
Proof.
  unfold dec_last, dec_fail. case_match; [done|].
  destruct (if decide _ then _ else _) as [r1 oe] eqn:E.
  assert (dr_params r1 = dr_params r ∧ dr_source r1 = dr_source r ∧ dr_err r1 = dr_err r).
  { case_decide; [apply decryptData_fields in E; naive_solver|by simplify_eq]. }
  repeat case_match; intros; simplify_eq/=; naive_solver.
Qed.

Lemma dec_advance_ok r r' :
  dr_err r = None → 0 < unitSize (dr_params r) → dr_done r = false → dec_advance r = (r', None) →
  (dr_err r' = None ∧ 0 < unitSize (dr_params r')) ∧ (dec_measure r' < dec_measure r)%nat.
Proof.
  intros He Hu Hd. unfold dec_advance, dec_measure. rewrite Hd.
  destruct (ctx_poll (dr_ctx r)) as [[e|] c]; [done|]. cbn [dr_source dr_params].
  destruct (ReadFull _ _) as [[buf err] src] eqn:ER. pose proof (ReadFull_length _ _ _ _ _ ER) as Hl.
  apply ReadFull_app in ER as (_ & _ & _ & Hn & _). case_match eqn:Hv.
  - destruct (dec_flush _ _) as [r1 [e|]] eqn:Ef; [done|].
    apply dec_flush_fields in Ef as (Hp1 & Hs1 & Hd1 & He1). cbn in Hp1, Hs1, Hd1, He1.
    destruct err as [e|].
    + case_match; [|done]. intros (Hp & Hs & Hdn & Hen)%dec_last_fields.
      rewrite Hp, Hp1, Hen, He1, Hdn, Hs, Hs1. split; [done|lia].
    + intros [= <-]. rewrite He1, Hp1, Hd1, Hs1. specialize (Hn eq_refl).
      split; [done|lia].
  - destruct buf as [|b buf].
    + intros H1. assert (r' = dr_set_done (mkDec (dr_params r) src c (dr_index r) (dr_plainSize r)
        (dr_pending r) (dr_lookbehind r) false (dr_err r))) as -> by (repeat case_match; by simplify_eq).
      cbn in *. split; [done|lia].
    + destruct (decryptData _ _) as [r1 [e|]] eqn:Ed; [done|]. intros [= <-].
      apply decryptData_fields in Ed as (-> & -> & _ & -> & ->). cbn in *.
      split; [done|lia].
Qed.

#[global] Program Instance dec_pull : Pull decReader := {|
  pl_pending := dr_pending; pl_set_pending := dr_set_pending; pl_finished := dr_done;
  pl_advance := dec_advance; pl_measure := dec_measure;
  pl_ok r := dr_err r = None ∧ 0 < unitSize (dr_params r) |}.
Next Obligation. done. Qed.
Next Obligation. done. Qed.
Next Obligation. by intros []. Qed.
Next Obligation. done. Qed.
Next Obligation. done. Qed.
Next Obligation. done. Qed.
Next Obligation. intros r r' [He Hu] _ Hd Ha. by apply dec_advance_ok. Qed.

(** [chunkedDecryptReader.Read]. *)
Definition dec_Read (r : decReader) (n : nat) : option (list byte * option error * decReader) :=
  match dr_err r with
  | Some e => Some ([], Some e, r)
  | None =>
      if decide (n = 0)%nat then Some ([], None, r)
      else pull_finish (λ _, true) (pull_loop (pull_fuel r n) r n [])
  end.

#[global] Program Instance dec_stream : StreamReader decReader := {|
  sr_read := dec_Read; sr_rem r O e := (dr_err r = None ∧ 0 < unitSize (dr_params r)) ∧ pulls r O e |}.
Next Obligation.
  intros r O e n [[He Hu] Hp] Hn. unfold dec_Read. rewrite He, decide_False by lia.
  destruct (pull_finish_law (λ _, true) r O e n) as (bs & oe & r' & -> & ? & Hc); [done..|].
  exists bs, oe, r'. split_and!; [done..|]. naive_solver.
Qed.
End readers.
