(* ===== verification/ChunkedCorrect.v ===== *)
(** * Correctness of the chunked format

    The abstract object: the sealed chunks of the plaintext followed, in
    version 2, by the sealed terminal. The encrypting reader produces exactly
    this object, the decrypting reader accepts it and gives the plaintext
    back, and, in the object-bound version 2, accepts nothing else built from
    records the writer sealed. *)
From S2P Require Import Prelude GoStd GoIO Primitives ObjectAAD ChunkLayout ChunkRecord ChunkedStream.
Local Open Scope Z_scope.
Local Open Scope go_scope.
#[local] Arguments bytes_of_string : simpl never.

(** A context that is never cancelled. *)
Definition live (c : Ctx) : Prop := Forall (λ a, a = None) c.

Lemma ctx_poll_live c : live c → ∃ c', ctx_poll c = (None, c') ∧ live c'.
Proof. intros [|a c' -> Hc]; cbn; eexists; split; done || by constructor. Qed.

(** On a non-empty source [io.ReadFull] delivers the next [n] bytes, or all
    that is left. *)
Lemma ReadFull_take l e n :
  (0 < n)%nat → l ≠ [] → ∃ err, ReadFull (mkSource l e) n = (take n l, err, mkSource (drop n l) e) ∧
    (err = None ↔ (n ≤ length l)%nat) ∧
    (∀ x, err = Some x → x = if decide (e = EOF) then ErrUnexpectedEOF else e).
Proof.
  intros Hn Hl. unfold ReadFull. cbn. case_decide.
  - exists None. naive_solver.
  - eexists. rewrite take_ge, drop_ge by lia. destruct l; [done|]. naive_solver lia.
Qed.

Section format.
Context `{HKDF}.

(** ** The object *)

Definition sealed_record (P : ChunkedParams) (i : Z) (c : list byte) : list byte :=
  match enc_data_args P i with
  | Ok (nonce, aad) => Seal (cp_aead P) nonce c aad
  | Err _ => []
  end.

Fixpoint seal_chunks (P : ChunkedParams) (i : Z) (chs : list (list byte)) : list byte :=
  match chs with
  | [] => []
  | c :: chs => sealed_record P i c ++ seal_chunks P (i + 1) chs
  end.

Definition sealed_terminal (P : ChunkedParams) (count size : Z) : list byte :=
  if cp_version P =? ChunkedFormatV2 then
    match cp_terminalAEAD P, terminal_args P count size with
    | Some t, Ok (nonce, aad) => Seal t nonce (encodeChunkedTerminal count size) aad
    | _, _ => []
    end
  else [].

Definition plain_chunks (P : ChunkedParams) (pt : list byte) : list (list byte) :=
  chunks_of (Z.to_nat (cp_chunkSize P)) pt.

Definition sealed_object (P : ChunkedParams) (pt : list byte) : list byte :=
  seal_chunks P 0 (plain_chunks P pt) ++ sealed_terminal P (len (plain_chunks P pt)) (len pt).

(** Opening data record [i]. *)
Definition open_data (P : ChunkedParams) (i : Z) (ct : list byte) : option (list byte) :=
  match dec_data_args P i with
  | Ok (nonce, aad) => Open (cp_aead P) nonce ct aad
  | Err _ => None
  end.

(** Chunk lists of which only the last may be short. *)
Fixpoint full_but_last (cs : Z) (chs : list (list byte)) : Prop :=
  match chs with
  | [] => True
  | [c] => len c ≤ cs
  | c :: chs => len c = cs ∧ full_but_last cs chs
  end.

(** Plaintexts a version can hold. *)
Definition fits (P : ChunkedParams) (pt : list byte) : Prop :=
  len pt ≤ MaxInt64 ∧ len (plain_chunks P pt) ≤ max_records (cp_version P).

Context `{!HKDFLaws}.
Context (P : ChunkedParams) (HP : params_ok P).

#[local] Instance data_laws : AEADLaws (cp_aead P) := po_aead P HP.

Lemma chunk_size_pos : (0 < Z.to_nat (cp_chunkSize P))%nat.
Proof using HP. pose proof (po_size P HP). unfold valid_chunk_size, MinChunkSize in *. lia. Qed.

Lemma max_records_u64 : max_records (cp_version P) ≤ MaxUint64.
Proof using. unfold max_records, MaxUint64, MaxUint32. case_match; lia. Qed.

Lemma length_sealed_record i c :
  0 ≤ i < max_records (cp_version P) → length (sealed_record P i c) = (length c + 16)%nat.
Proof using All.
  intros Hi. destruct (enc_data_args_Ok P i HP Hi) as (n & a & E & Hn).
  unfold sealed_record. rewrite E. by apply aead_seal_length.
Qed.

Lemma length_seal_chunks i chs :
  0 ≤ i → i + len chs ≤ max_records (cp_version P) →
  len (seal_chunks P i chs) = len (concat chs) + 16 * len chs.
Proof using All.
  revert i. induction chs as [|c chs IH]; intros i Hi Hm; cbn [seal_chunks concat length] in *; [lia|].
  rewrite !length_app, length_sealed_record by lia. specialize (IH (i + 1)). lia.
Qed.

Lemma length_sealed_terminal n s : len (sealed_terminal P n s) = trailer (cp_version P).
Proof using All.
  unfold sealed_terminal, trailer.
  destruct (Z.eqb_spec (cp_version P) ChunkedFormatV2) as [Hv|]; [|done].
  destruct (po_terminal P HP Hv) as (t & -> & Ht).
  destruct (terminal_args_Ok P n s HP Hv) as (nonce & a & -> & Hl).
  rewrite aead_seal_length by done. unfold encodeChunkedTerminal.
  by rewrite length_app, !length_be_encode.
Qed.

(** The object has the size the layout arithmetic predicts. *)
Lemma length_sealed_object pt :
  fits P pt → len (sealed_object P pt) = ctsize (len pt) (cp_chunkSize P) (cp_version P).
Proof using All.
  intros [Hl Hm]. pose proof chunk_size_pos as Hcs. unfold sealed_object, ctsize, plain_chunks in *.
  rewrite length_app, Nat2Z.inj_add, length_seal_chunks, length_sealed_terminal by lia.
  rewrite concat_chunks_of, length_chunks_of by done. unfold nchunks, tagSize.
  rewrite Z2Nat.id by lia. lia.
Qed.

(** ** The encrypting reader *)

Lemma enc_data_Ok m src ctx i ps pt :
  0 ≤ i < max_records (cp_version P) → 0 ≤ ps → ps + len pt ≤ MaxInt64 →
  ∃ m', enc_data (mkEnc P m src ctx i ps [] false None) pt =
    (mkEnc P m' src ctx (i + 1) (ps + len pt) (sealed_record P i pt) false None, None).
Proof using All.
  intros Hi Hps Hfit. pose proof max_records_u64. unfold enc_data, sealed_record. cbn [er_params er_index].
  destruct (enc_data_args_Ok P i HP Hi) as (n & a & -> & _).
  cbn [er_set_pending er_params er_index er_plainSize er_manifest er_source er_ctx er_pending er_done er_err].
  unfold MaxUint64, MaxInt64 in *. nowrap.
  rewrite (proj2 (Z.ltb_ge _ _)), (proj2 (Z.eqb_neq _ _)) by lia. eauto.
Qed.

Lemma enc_finish_Ok m src ctx i ps :
  enc_finish (mkEnc P m src ctx i ps [] false None) =
    (mkEnc P m src ctx i ps (sealed_terminal P i ps) true None, None).
Proof using All.
  unfold enc_finish, sealed_terminal. cbn -[terminal_args Z.eqb].
  destruct (Z.eqb_spec (cp_version P) ChunkedFormatV2) as [Hv|]; [|done].
  destruct (po_terminal P HP Hv) as (t & -> & Ht).
  by destruct (terminal_args_Ok P i ps HP Hv) as (nonce & a & -> & Hl).
Qed.

(** What the reader still owes: a source that ends makes it complete the
    object, a source that fails makes it report the error and no terminal. *)
Lemma enc_pulls m l e ctx i ps :
  live ctx → 0 ≤ i → i + len (plain_chunks P l) ≤ max_records (cp_version P) →
  0 ≤ ps → ps + len l ≤ MaxInt64 →
  pulls (mkEnc P m (mkSource l e) ctx i ps [] false None)
    (seal_chunks P i (plain_chunks P l) ++
       if is_end e then sealed_terminal P (i + len (plain_chunks P l)) (ps + len l) else [])
    (if is_end e then EOF else e).
Proof using All.
  unfold plain_chunks. set (cs := Z.to_nat (cp_chunkSize P)). pose proof chunk_size_pos as Hcs. fold cs in Hcs.
  revert m ctx i ps. induction l as [|l Hl IH] using (chunks_ind cs Hcs); intros m ctx i ps Hctx Hi Hm Hps Hfit.
  - destruct (ctx_poll_live ctx Hctx) as (c' & Hpoll & Hc').
    assert (Ha : enc_advance (mkEnc P m (mkSource [] e) ctx i ps [] false None) =
      if is_end e then (mkEnc P m (mkSource [] e) c' i ps (sealed_terminal P i ps) true None, None)
      else enc_fail (mkEnc P m (mkSource [] e) c' i ps [] false None) e).
    { unfold enc_advance. cbn -[ReadFull enc_finish]. rewrite Hpoll.
      cbn -[ReadFull enc_finish]. fold cs. rewrite ReadFull_empty by done. cbn -[enc_finish].
      by rewrite enc_finish_Ok. }
    cbn [length seal_chunks app chunks_of chunks_fuel]. rewrite !Z.add_0_r.
    destruct (is_end e); [|by eapply pulls_fail].
    eapply pulls_step; [done..|]. clear Ha.
    destruct (sealed_terminal P i ps) as [|b t] eqn:Et; [by apply pulls_end|].
    rewrite <-(app_nil_r (b :: t)) at 2.
    change (b :: t) with (pl_pending (mkEnc P m (mkSource [] e) c' i ps (b :: t) true None)) at 2.
    apply pulls_pending; [done|]. by apply pulls_end.
  - rewrite chunks_of_step in * by done. cbn [length seal_chunks] in *.
    assert (Hl0 : (0 < length l)%nat) by (destruct l; cbn; [done|lia]).
    destruct (ctx_poll_live ctx Hctx) as (c' & Hpoll & Hc').
    destruct (ReadFull_take l e cs) as (err & HR & _); [done..|].
    assert (Htd : len l = len (take cs l) + len (drop cs l)) by (rewrite length_take, length_drop; lia).
    assert (Htk : (0 < length (take cs l))%nat) by (rewrite length_take; lia).
    destruct (enc_data_Ok m (mkSource (drop cs l) e) c' i ps (take cs l)) as (m' & Hdata); [lia..|].
    eapply pulls_step with (s' := mkEnc P m' (mkSource (drop cs l) e) c' (i + 1) (ps + len (take cs l))
      (sealed_record P i (take cs l)) false None); [done|done|..].
    { cbn [pl_advance enc_pull]. unfold enc_advance. cbn -[ReadFull enc_data]. rewrite Hpoll.
      cbn -[ReadFull enc_data]. fold cs. rewrite HR. cbn -[enc_data].
      destruct (take cs l) as [|b t] eqn:Et; [cbn in Htk; lia|]. exact Hdata. }
    rewrite <-(assoc_L (++)). set (s' := mkEnc _ _ _ _ _ _ _ _ _).
    change (sealed_record P i (take cs l)) with (pl_pending s') at 1. apply pulls_pending.
    { cbn. intros Hnil. apply (f_equal length) in Hnil. rewrite length_sealed_record in Hnil by lia. cbn in Hnil. lia. }
    replace (i + Z.of_nat (S (length (chunks_of cs (drop cs l))))) with (i + 1 + len (chunks_of cs (drop cs l))) by lia.
    replace (ps + len l) with (ps + len (take cs l) + len (drop cs l)) by lia.
    apply IH; [done|lia..].
Qed.

(** ** The decrypting reader, version 2 *)

Abbreviation U := (cp_chunkSize P + 16).

Section version2.
Context (HV2 : cp_version P = ChunkedFormatV2).

Lemma unitSize_eq : unitSize P = U ∧ 16400 ≤ U ≤ 1048592.
Proof using HP.
  pose proof (po_size P HP) as Hs. unfold unitSize, valid_chunk_size, MinChunkSize, MaxChunkSize, tagSize in *.
  nowrap. lia.
Qed.

Lemma open_data_iff i ct pt : open_data P i ct = Some pt ↔ ct = sealed_record P i pt.
Proof using All.
  unfold open_data, sealed_record, dec_data_args, enc_data_args. rewrite HV2. cbn [Z.eqb].
  destruct (data_args_v2_Ok P i HP HV2) as (n & a & -> & Hn). split.
  - intros Ho. by apply aead_open_tidy.
  - intros ->. by apply aead_open_seal.
Qed.

Lemma length_sealed_record_v2 i c : length (sealed_record P i c) = (length c + 16)%nat.
Proof using All.
  unfold sealed_record, enc_data_args. rewrite HV2. cbn [Z.eqb].
  destruct (data_args_v2_Ok P i HP HV2) as (n & a & E & Hn). cbn in *. rewrite E.
  by apply aead_seal_length.
Qed.

Lemma length_seal_chunks_v2 i chs : len (seal_chunks P i chs) = len (concat chs) + 16 * len chs.
Proof using All.
  revert i. induction chs as [|c chs IH]; intros i; cbn [seal_chunks concat length]; [done|].
  rewrite !length_app, length_sealed_record_v2. specialize (IH (i + 1)). lia.
Qed.

Lemma verifyTerminal_iff src ctx i ps pend lb d er t :
  is_u64 i → is_u64 ps →
  verifyTerminal (mkDec P src ctx i ps pend lb d er) t = None ↔ t = sealed_terminal P i ps.
Proof using All.
  intros Hi Hps. unfold verifyTerminal. cbn [dr_params dr_index dr_plainSize].
  pose proof (length_sealed_terminal i ps) as Hlen. revert Hlen.
  unfold sealed_terminal, trailer. rewrite HV2. cbn [Z.eqb].
  destruct (po_terminal P HP HV2) as (T & -> & HT).
  destruct (terminal_args_Ok P i ps HP HV2) as (nonce & a & -> & Hn). cbn. intros Hlen. split.
  - repeat case_match; intros; try done. zbool. subst.
    match goal with Hd : decodeChunkedTerminal _ = _ |- _ => apply decodeChunkedTerminal_inv in Hd as (-> & _) end.
    by apply aead_open_tidy.
  - intros ->. rewrite Hlen, aead_open_seal by done. cbn.
    rewrite decode_encode_terminal by done. by rewrite !Z.eqb_refl.
Qed.

Lemma verifyTerminal_sealed src ctx i ps pend lb d er :
  is_u64 i → is_u64 ps →
  verifyTerminal (mkDec P src ctx i ps pend lb d er) (sealed_terminal P i ps) = None.
Proof using All. intros. by apply verifyTerminal_iff. Qed.

(** Every way the terminal check fails is an error other than [EOF]. *)
Lemma verifyTerminal_neq_EOF r t e :
  dr_params r = P → verifyTerminal r t = Some e → e ≠ EOF.
Proof using All.
  intros HPr. unfold verifyTerminal. rewrite HPr.
  destruct (po_terminal P HP HV2) as (T & -> & HT).
  destruct (terminal_args_Ok P (dr_index r) (dr_plainSize r) HP HV2) as (nonce & a & -> & Hn).
  unfold decodeChunkedTerminal. repeat case_match; intros; by simplify_eq.
Qed.

Lemma decryptData_spec src ctx i ps pend lb d er ct :
  0 ≤ i < MaxInt64 → 0 ≤ ps → ps + len ct ≤ MaxInt64 →
  match open_data P i ct with
  | Some pt => len ct = len pt + 16 ∧
      decryptData (mkDec P src ctx i ps pend lb d er) ct =
      (mkDec P src ctx (i + 1) (ps + len pt) (pend ++ pt) lb d er, None)
  | None => ∃ e, decryptData (mkDec P src ctx i ps pend lb d er) ct =
      (mkDec P src ctx i ps pend lb d er, Some e)
  end.
Proof using All.
  intros Hi Hps Hfit. destruct (open_data P i ct) as [pt|] eqn:Eo.
  - assert (Hl : len ct = len pt + 16).
    { apply open_data_iff in Eo as ->. rewrite length_sealed_record_v2. lia. }
    split; [done|]. unfold open_data, decryptData in *. cbn [dr_params dr_index].
    destruct (dec_data_args P i) as [[n a]|]; [|done]. rewrite Eo. cbn -[Z.ltb Z.add Z.sub].
    unfold MaxUint64, MaxInt64 in *. nowrap. by rewrite (proj2 (Z.ltb_ge _ _)) by lia.
  - unfold open_data, decryptData in *. cbn [dr_params dr_index].
    destruct (dec_data_args P i) as [[n a]|]; [rewrite Eo|]; eauto.
Qed.

(** At most one record is flushed per turn. *)
Lemma dec_flush_spec src ctx i ps lb er :
  0 ≤ i < MaxInt64 → 0 ≤ ps → ps + len lb ≤ MaxInt64 → len lb ≤ 32 + 2 * U →
  dec_flush (length lb) (mkDec P src ctx i ps [] lb false er) =
    if 32 + U <? len lb then
      match open_data P i (take (Z.to_nat U) lb) with
      | Some pt => (mkDec P src ctx (i + 1) (ps + len pt) pt (drop (Z.to_nat U) lb) false er, None)
      | None => dec_fail (mkDec P src ctx i ps [] lb false er) ErrInvalidRecord
      end
    else (mkDec P src ctx i ps [] lb false er, None).
Proof using All.
  intros Hi Hps Hfit Hlb. destruct unitSize_eq as [HU HUb].
  destruct (length lb) as [|f] eqn:El; cbn [dec_flush dr_params dr_lookbehind].
  { by rewrite (proj2 (Z.ltb_ge _ _)) by lia. }
  rewrite HU, El. unfold ChunkedTerminalSize.
  destruct (Z.ltb_spec (32 + U) (Z.of_nat (S f))); [|done].
  pose proof (decryptData_spec src ctx i ps [] lb false er (take (Z.to_nat U) lb)) as Hd.
  specialize (Hd ltac:(lia) ltac:(lia) ltac:(rewrite length_take; lia)).
  destruct (open_data P i _) as [pt|].
  - destruct Hd as [Hlen ->]. cbn [app dr_lookbehind].
    destruct f as [|f]; [lia|]. cbn [dec_flush dr_set_lookbehind dr_params dr_lookbehind].
    rewrite HU, length_drop, (proj2 (Z.ltb_ge _ _)) by (unfold ChunkedTerminalSize; lia). done.
  - by destruct Hd as [e ->].
Qed.

Lemma sealed_terminal_32 n s : length (sealed_terminal P n s) = 32%nat.
Proof using All.
  pose proof (length_sealed_terminal n s) as Hl. unfold trailer in Hl.
  rewrite HV2 in Hl. cbn [Z.eqb] in Hl. unfold ChunkedTerminalSize in Hl. cbn -[Z.of_nat] in Hl. lia.
Qed.

(** The end of the stream: at most one record and the terminal are left. *)
Definition tail_of (i ps : Z) (chs : list (list byte)) : list byte :=
  seal_chunks P i chs ++ sealed_terminal P (i + len chs) (ps + len (concat chs)).

Lemma dec_last_Ok src ctx i ps pend er chs lb :
  (length chs ≤ 1)%nat → lb = tail_of i ps chs →
  0 ≤ i < MaxInt64 → 0 ≤ ps → ps + len lb ≤ MaxInt64 →
  dec_last (mkDec P src ctx i ps pend lb false er) =
    (mkDec P src ctx (i + len chs) (ps + len (concat chs)) (pend ++ concat chs) [] true er, None).
Proof using All.
  intros Hchs Hlb Hi Hps Hfit. unfold dec_last. cbn [dr_lookbehind].
  assert (Hl32 : (length lb = length (seal_chunks P i chs) + 32)%nat).
  { rewrite Hlb. unfold tail_of. by rewrite length_app, sealed_terminal_32. }
  change (Z.to_nat ChunkedTerminalSize) with 32%nat. rewrite Hl32.
  rewrite (proj2 (Z.ltb_ge _ _)) by (unfold ChunkedTerminalSize; lia). rewrite Nat.add_sub.
  destruct chs as [|pt [|]]; [| |cbn in Hchs; lia]; unfold tail_of in Hlb; cbn [seal_chunks length concat app] in *.
  - rewrite decide_False by lia. rewrite drop_0, Hlb. cbn [app].
    rewrite !Z.add_0_r, app_nil_r in *.
    by rewrite verifyTerminal_sealed by (unfold is_u64, MaxInt64 in *; lia).
  - rewrite !app_nil_r in *.
    pose proof (length_sealed_record_v2 i pt) as Hr.
    rewrite decide_True by lia.
    pose proof (decryptData_spec src ctx i ps pend lb false er (sealed_record P i pt)) as Hd.
    specialize (Hd ltac:(lia) ltac:(lia) ltac:(lia)).
    rewrite (proj2 (open_data_iff i _ pt) eq_refl) in Hd. destruct Hd as [_ Hd].
    replace (take (length (sealed_record P i pt)) lb) with (sealed_record P i pt)
      by (rewrite Hlb; by rewrite take_app_length).
    rewrite Hd. cbn [dr_lookbehind].
    replace (drop (length (sealed_record P i pt)) lb) with (sealed_terminal P (i + 1) (ps + len pt))
      by (rewrite Hlb; by rewrite drop_app_length).
    by rewrite verifyTerminal_sealed by (unfold is_u64, MaxInt64 in *; lia).
Qed.

Lemma dec_last_inv src ctx i ps pend er lb r' oe :
  0 ≤ i < MaxInt64 → 0 ≤ ps → ps + len lb ≤ MaxInt64 →
  dec_last (mkDec P src ctx i ps pend lb false er) = (r', oe) →
  (∀ e, oe = Some e → e ≠ EOF) ∧
  (oe = None → ∃ chs, (len lb ≤ 32 + U → full_but_last (cp_chunkSize P) chs) ∧ lb = tail_of i ps chs ∧
     r' = mkDec P src ctx (i + len chs) (ps + len (concat chs)) (pend ++ concat chs) [] true er).
Proof using All.
  intros Hi Hps Hfit. unfold dec_last. cbn [dr_lookbehind]. unfold ChunkedTerminalSize.
  destruct (Z.ltb_spec (len lb) 32); [intros [= <- <-]; naive_solver|].
  change (Z.to_nat 32) with 32%nat. set (k := (length lb - 32)%nat).
  destruct (decide (0 < k)%nat) as [Hk|Hk].
  - pose proof (decryptData_spec src ctx i ps pend lb false er (take k lb)) as Hd.
    specialize (Hd ltac:(lia) ltac:(lia) ltac:(rewrite length_take; lia)).
    destruct (open_data P i (take k lb)) as [pt|] eqn:Eo.
    + destruct Hd as [Hl ->]. cbn [dr_lookbehind]. rewrite length_take in Hl.
      apply open_data_iff in Eo. destruct (verifyTerminal _ _) as [e|] eqn:Ev.
      * intros [= <- <-]. split; [|done]. intros e' [= <-]. eapply verifyTerminal_neq_EOF; [|exact Ev]; done.
      * apply verifyTerminal_iff in Ev; [|unfold is_u64, MaxInt64 in *; lia..].
        intros [= <- <-]. split; [done|]. intros _. exists [pt]. unfold tail_of.
        cbn [length seal_chunks concat dr_set_done dr_set_lookbehind dr_params dr_source dr_ctx dr_index
          dr_plainSize dr_pending dr_err]. rewrite !app_nil_r.
        change (Z.of_nat 1) with 1. split; [cbn; lia|]. split; [|done]. by rewrite <-Eo, <-Ev, take_drop.
    + destruct Hd as [e ->]. intros [= <- <-]. naive_solver.
  - destruct (verifyTerminal _ _) as [e|] eqn:Ev.
    + intros [= <- <-]. split; [|done]. intros e' [= <-]. eapply verifyTerminal_neq_EOF; [|exact Ev]; done.
    + cbn [dr_lookbehind] in Ev. apply verifyTerminal_iff in Ev; [|unfold is_u64, MaxInt64 in *; lia..].
      replace k with 0%nat in Ev by lia. intros [= <- <-]. split; [done|]. intros _. exists [].
      unfold tail_of. cbn. rewrite !Z.add_0_r, app_nil_r. split_and!; [done|by rewrite <-Ev|done].
Qed.

(** Either the rest fits the look-behind buffer, or a full record comes first. *)
Lemma tail_cases l i ps :
  ((length (plain_chunks P l) ≤ 1)%nat ∧ len (tail_of i ps (plain_chunks P l)) ≤ 32 + U) ∨
  (let c := take (Z.to_nat (cp_chunkSize P)) l in
   let l' := drop (Z.to_nat (cp_chunkSize P)) l in
   tail_of i ps (plain_chunks P l) = sealed_record P i c ++ tail_of (i + 1) (ps + len c) (plain_chunks P l') ∧
   32 + U < len (tail_of i ps (plain_chunks P l)) ∧
   length (sealed_record P i c) = Z.to_nat U ∧ c ++ l' = l ∧ c ≠ []).
Proof using All.
  pose proof chunk_size_pos as Hcs. unfold plain_chunks in *.
  set (cs := Z.to_nat (cp_chunkSize P)) in *. set (chs := chunks_of cs l) in *.
  assert (Hlen : len (tail_of i ps chs) = len l + 16 * len chs + 32).
  { unfold tail_of. rewrite length_app, Nat2Z.inj_add, sealed_terminal_32, length_seal_chunks_v2.
    unfold chs. rewrite concat_chunks_of by done. lia. }
  destruct (decide (length l ≤ cs)%nat) as [Hsmall|Hbig].
  - left. assert (length chs ≤ 1)%nat.
    { subst chs. destruct l as [|b l]; [cbn; lia|]. rewrite chunks_of_small; [done|]. cbn in *. lia. }
    split; [done|]. unfold cs in *. lia.
  - right. assert (Hne : l ≠ []) by (intros ->; cbn in Hbig; lia).
    assert (Htk : length (take cs l) = cs) by (rewrite length_take; lia).
    assert (Hch : chs = take cs l :: chunks_of cs (drop cs l)) by (by apply chunks_of_step).
    assert (Hdne : (1 ≤ length (chunks_of cs (drop cs l)))%nat).
    { rewrite chunks_of_step; [cbn; lia|done|]. intros E%(f_equal length). rewrite length_drop in E. cbn in E. lia. }
    assert (Hb : 32 + U < len (tail_of i ps chs)).
    { rewrite Hlen, Hch. cbn [length]. unfold cs in *. lia. }
    cbn zeta. split_and!; [|done| |by rewrite take_drop|by intros E; rewrite E in Htk; cbn in Htk; lia].
    + rewrite Hch. unfold tail_of. cbn [seal_chunks concat length]. rewrite <-(assoc_L (++)), length_app.
      do 2 f_equal. f_equal; lia.
    + rewrite length_sealed_record_v2. unfold cs in *. lia.
Qed.

(** One turn of the reader's loop, once the context has been polled. *)
Lemma dec_advance_v2 d e ctx c' i ps lb :
  ctx_poll ctx = (None, c') →
  dec_advance (mkDec P (mkSource d e) ctx i ps [] lb false None) =
    let u := Z.to_nat U in let lb' := lb ++ take u d in
    match dec_flush (length lb') (mkDec P (mkSource (drop u d) e) c' i ps [] lb' false None) with
    | (r, Some e) => (r, Some e)
    | (r, None) => if decide (u ≤ length d)%nat then (r, None)
                   else if is_end e then dec_last r else dec_fail r e
    end.
Proof using All.
  intros Hpoll. destruct unitSize_eq as [HU HUb].
  unfold dec_advance. cbn [dr_ctx dr_params dr_source]. rewrite Hpoll. cbn [dr_params dr_source].
  rewrite HU, HV2. cbn zeta.
  destruct (decide (d = [])) as [->|Hd].
  - rewrite ReadFull_empty by (done || lia). cbn [Z.eqb].
    cbn [dr_set_lookbehind dr_params dr_source dr_ctx dr_index dr_plainSize dr_pending dr_lookbehind dr_done dr_err src_end].
    rewrite take_nil, drop_nil. cbn [ChunkedFormatV2 Z.eqb Pos.eqb].
    destruct (dec_flush _ _) as [r [x|]]; [done|]. by rewrite decide_False by (cbn; lia).
  - destruct (ReadFull_take d e (Z.to_nat U)) as (err & -> & Herr & Hx); [lia|done|].
    cbn [ChunkedFormatV2 Z.eqb Pos.eqb].
    cbn [dr_set_lookbehind dr_params dr_source dr_ctx dr_index dr_plainSize dr_pending dr_lookbehind dr_done dr_err src_end].
    destruct (dec_flush _ _) as [r [x|]]; [done|].
    destruct err as [x|]; [|by rewrite decide_True by (by apply Herr)].
    rewrite decide_False by (by intros ?%Herr). specialize (Hx x eq_refl). subst x.
    case_decide as He; [by subst e|done].
Qed.

(** The reader accepts the object and owes its plaintext, however the source
    and the look-behind buffer currently split it. *)
Lemma dec_pulls d e lb i ps ctx l :
  live ctx → is_end e = true → lb ++ d = tail_of i ps (plain_chunks P l) → len lb ≤ 32 + U →
  0 ≤ i → i + len (lb ++ d) ≤ MaxInt64 → 0 ≤ ps → ps + len (lb ++ d) ≤ MaxInt64 →
  pulls (mkDec P (mkSource d e) ctx i ps [] lb false None) l EOF.
Proof using All.
  revert lb i ps ctx l. induction d as [d IH] using (induction_ltof1 _ length); unfold ltof in IH.
  intros lb i ps ctx l Hctx He HT Hlb Hi Him Hps Hpm. destruct unitSize_eq as [_ HUb].
  destruct (ctx_poll_live ctx Hctx) as (c' & Hpoll & Hc').
  pose proof (dec_advance_v2 d e ctx c' i ps lb Hpoll) as Ha. cbn zeta in Ha. rewrite He in Ha.
  set (u := Z.to_nat U) in *. set (lb' := lb ++ take u d) in *.
  assert (Hlb' : (length lb' ≤ length (lb ++ d) ∧ length lb' ≤ length lb + u)%nat)
    by (unfold lb'; rewrite !length_app, !length_take; lia).
  assert (HTd : lb' ++ drop u d = lb ++ d) by (unfold lb'; by rewrite <-(assoc_L (++)), take_drop).
  assert (HiM : 0 ≤ i < MaxInt64).
  { split; [done|]. rewrite HT in Him. unfold tail_of in Him. rewrite length_app, sealed_terminal_32 in Him. lia. }
  rewrite dec_flush_spec in Ha by (unfold u in *; lia).
  destruct (tail_cases l i ps) as [[Hone Hsmall]|(HTr & Hbig & Hrl & Hcl & Hc)].
  - rewrite <-HT in Hsmall. rewrite (proj2 (Z.ltb_ge _ _)) in Ha by lia.
    case_decide as Hd.
    + eapply pulls_step; [done..|]. apply IH; try done; rewrite ?HTd; try done; [|lia].
      rewrite length_drop. unfold u in *. lia.
    + assert (Hall : lb' = tail_of i ps (plain_chunks P l)) by (rewrite <-HT; unfold lb'; rewrite take_ge; [done|lia]).
      rewrite (dec_last_Ok _ _ i ps [] None (plain_chunks P l)) in Ha by (done || lia).
      eapply pulls_step; [done..|]. apply pulls_done; [done|]. apply concat_chunks_of, chunk_size_pos.
  - cbn zeta in *. set (c := take _ l) in *. set (l' := drop _ l) in *. rewrite <-HT in HTr, Hbig.
    fold u in Hrl. rewrite HTr in HTd.
    destruct (Z.ltb_spec (32 + U) (len lb')) as [Hf|Hf].
    + apply app_eq_inv in HTd as [(k & Hk1 & Hk2)|(k & Hk1 & Hk2)].
      2: { exfalso. apply (f_equal length) in Hk1. rewrite length_app in Hk1. unfold u in *. lia. }
      assert (Htk : take u lb' = sealed_record P i c) by (rewrite Hk1, <-Hrl; apply take_app_length).
      assert (Hdk : drop u lb' = k) by (rewrite Hk1, <-Hrl; apply drop_app_length).
      fold u in Ha. rewrite Htk, Hdk in Ha. rewrite (proj2 (open_data_iff i _ c) eq_refl) in Ha.
      assert (Hcl' : len (sealed_record P i c) = len c + 16) by (rewrite length_sealed_record_v2; lia).
      assert (HlenT : len (lb ++ d) = len c + 16 + len (k ++ drop u d)) by (rewrite HTr, Hk2, length_app; lia).
      assert (Hlk : len lb' = len (sealed_record P i c) + len k) by (rewrite Hk1, length_app; lia).
      case_decide as Hd.
      * eapply pulls_step; [done..|]. rewrite <-Hcl.
        change c with (pl_pending (mkDec P (mkSource (drop u d) e) c' (i + 1) (ps + len c) c k false None)) at 3.
        apply pulls_pending; [done|].
        apply IH; try done; cbn [dr_index dr_plainSize dr_lookbehind]; rewrite ?length_drop; unfold u in *; lia.
      * rewrite (drop_ge d) in * by lia. rewrite app_nil_r in Hk2.
        destruct (tail_cases l' (i + 1) (ps + len c)) as [[Hone _]|(_ & Hbig' & _)];
          [|exfalso; rewrite Hk2 in Hbig'; unfold u in *; lia].
        rewrite (dec_last_Ok _ _ (i + 1) (ps + len c) c None (plain_chunks P l')) in Ha
          by (done || rewrite ?app_nil_r in *; lia).
        eapply pulls_step; [done..|]. apply pulls_done; [done|]. cbn [pl_pending dec_pull dr_pending].
        rewrite <-Hcl. f_equal. apply concat_chunks_of, chunk_size_pos.
    + case_decide as Hd.
      * eapply pulls_step; [done..|]. apply IH; try done; [rewrite length_drop; unfold u in *; lia|..];
          unfold lb'; rewrite <-(assoc_L (++)), take_drop; done || lia.
      * exfalso. unfold lb' in Hf. rewrite take_ge in Hf by lia. lia.
Qed.

Lemma seal_chunks_app i chs chs' :
  seal_chunks P i (chs ++ chs') = seal_chunks P i chs ++ seal_chunks P (i + len chs) chs'.
Proof using.
  revert i. induction chs as [|c chs IH]; intros i; cbn [seal_chunks length app]; [by rewrite Z.add_0_r|].
  rewrite IH, <-(assoc_L (++)). do 3 f_equal. lia.
Qed.

(** A flush moves at most one authentic record from the buffer. *)
Lemma dec_flush_inv src ctx i ps lb er r' oe :
  0 ≤ i < MaxInt64 → 0 ≤ ps → ps + len lb ≤ MaxInt64 → len lb ≤ 32 + 2 * U →
  dec_flush (length lb) (mkDec P src ctx i ps [] lb false er) = (r', oe) →
  (∀ e, oe = Some e → e ≠ EOF) ∧
  (oe = None → ∃ chs lb', lb = seal_chunks P i chs ++ lb' ∧ len lb' ≤ 32 + U ∧
     len (seal_chunks P i chs) = len (concat chs) + 16 * len chs ∧
     Forall (λ c, len c = cp_chunkSize P) chs ∧
     r' = mkDec P src ctx (i + len chs) (ps + len (concat chs)) (concat chs) lb' false er).
Proof using All.
  intros Hi Hps Hfit Hlb Hf. rewrite dec_flush_spec in Hf by done. destruct unitSize_eq as [_ HUb].
  destruct (Z.ltb_spec (32 + U) (len lb)).
  - destruct (open_data P i _) as [pt|] eqn:Eo; unfold dec_fail in Hf; simplify_eq; [|naive_solver].
    apply open_data_iff in Eo. split; [done|]. intros _. exists [pt], (drop (Z.to_nat U) lb).
    cbn [seal_chunks concat length]. rewrite !app_nil_r, <-Eo, take_drop, length_drop, length_take.
    assert (Hl := f_equal length Eo). rewrite length_take, length_sealed_record_v2 in Hl.
    split_and!; [done|lia|lia| |done]. constructor; [lia|constructor].
  - simplify_eq. split; [done|]. intros _. exists [], lb. cbn. rewrite !Z.add_0_r. split_and!; done || constructor.
Qed.

Lemma full_but_last_app cs chs chs' :
  Forall (λ c, len c = cs) chs → full_but_last cs chs' → full_but_last cs (chs ++ chs').
Proof using.
  induction 1 as [|c chs Hc _ IH]; cbn; [done|]. intros Hf. specialize (IH Hf).
  destruct (chs ++ chs'); [lia|done].
Qed.

(** Whatever the source and the context do, what the reader hands out is the
    plaintext of authentic records in order, and it reports [EOF] only after
    the authentic terminal for exactly these records. *)
Lemma dec_pulls_inv d e lb i ps ctx O oe :
  Forall (λ a, a ≠ Some EOF) ctx → len lb ≤ 32 + U →
  0 ≤ i → i + len (lb ++ d) < MaxInt64 → 0 ≤ ps → ps + len (lb ++ d) ≤ MaxInt64 →
  pulls (mkDec P (mkSource d e) ctx i ps [] lb false None) O oe →
  ∃ chs rest, lb ++ d = seal_chunks P i chs ++ rest ∧ O = concat chs ∧
    full_but_last (cp_chunkSize P) chs ∧
    (oe = EOF → rest = sealed_terminal P (i + len chs) (ps + len O)).
Proof using All.
  revert lb i ps ctx O. induction d as [d IH] using (induction_ltof1 _ length); unfold ltof in IH.
  intros lb i ps ctx O Hctx Hlb Hi Him Hps Hpm Hp. destruct unitSize_eq as [_ HUb].
  assert (Hquit : oe ≠ EOF → O = [] → ∃ chs rest, lb ++ d = seal_chunks P i chs ++ rest ∧ O = concat chs ∧
    full_but_last (cp_chunkSize P) chs ∧ (oe = EOF → rest = sealed_terminal P (i + len chs) (ps + len O))).
  { intros Hne ->. exists [], (lb ++ d). by split_and!. }
  assert (Hpoll : ∃ x c', ctx_poll ctx = (x, c') ∧ x ≠ Some EOF ∧ Forall (λ a, a ≠ Some EOF) c').
  { destruct Hctx; cbn; eexists _, _; split_and!; done || by constructor. }
  destruct Hpoll as (x & c' & Hpoll & Hx & Hc').
  apply pulls_idle_inv in Hp; [|done..]. cbn [pl_advance dec_pull] in Hp. destruct x as [x|].
  { unfold dec_advance in Hp. cbn [dr_ctx] in Hp. rewrite Hpoll in Hp. unfold dec_fail in Hp.
    destruct Hp as [(s' & ? & ?)|(s' & ? & ->)]; simplify_eq. apply Hquit; congruence. }
  rewrite (dec_advance_v2 d e ctx c' i ps lb Hpoll) in Hp. cbn zeta in Hp. clear Hpoll.
  set (u := Z.to_nat U) in *. set (lb' := lb ++ take u d) in *.
  assert (HTd : lb ++ d = lb' ++ drop u d) by (unfold lb'; by rewrite <-(assoc_L (++)), take_drop).
  assert (Hll : len lb' ≤ len lb + Z.of_nat u ∧ len (lb ++ d) = len lb' + len (drop u d)).
  { rewrite HTd, length_app. unfold lb'. rewrite length_app, length_take. lia. }
  destruct (dec_flush _ _) as [r1 oe1] eqn:Ef.
  apply dec_flush_inv in Ef as [Herr Hok]; [|unfold u in *; lia..].
  destruct oe1 as [x|].
  { destruct Hp as [(s' & ? & ?)|(s' & ? & ->)]; simplify_eq. apply Hquit; naive_solver. }
  destruct (Hok eq_refl) as (chs0 & lb'' & Hlb' & Hlb'' & Hsl & Hfull & ->). clear Herr Hok.
  assert (Hlen' : len lb' = len (seal_chunks P i chs0) + len lb'') by (rewrite Hlb', length_app; lia).
  case_decide as Hd.
  - destruct Hp as [(s' & ? & Hp)|(s' & ? & ->)]; simplify_eq.
    apply pulls_pending_inv in Hp as (O' & -> & Hp). cbn [pl_pending dec_pull dr_pending].
    apply IH in Hp as (chs1 & rest & HT & -> & Hfbl & HE);
      [|rewrite length_drop; unfold u in *; lia|done|done|cbn; rewrite ?length_app; lia..].
    cbn [dr_lookbehind] in HT. exists (chs0 ++ chs1), rest. rewrite seal_chunks_app, concat_app.
    split_and!; [|done|by apply full_but_last_app|].
    + by rewrite HTd, Hlb', <-!(assoc_L (++)), HT.
    + intros Heof. rewrite (HE Heof), !length_app. cbn [dr_index dr_plainSize]. f_equal; lia.
  - rewrite (drop_ge d) in * by lia. rewrite app_nil_r in HTd. destruct (is_end e) eqn:Ee.
    + destruct (dec_last _) as [r2 oe2] eqn:El. apply dec_last_inv in El as [Herr Hok]; [|lia..].
      destruct oe2 as [x|].
      { destruct Hp as [(s' & ? & ?)|(s' & ? & ->)]; simplify_eq. apply Hquit; naive_solver. }
      destruct (Hok eq_refl) as (chs1 & Hfbl & Ht & ->). specialize (Hfbl Hlb'').
      destruct Hp as [(s' & ? & Hp)|(s' & ? & ->)]; simplify_eq.
      eapply pulls_det in Hp as [<- <-]; [|by apply pulls_done].
      exists (chs0 ++ chs1), (sealed_terminal P (i + len chs0 + len chs1) (ps + len (concat chs0) + len (concat chs1))).
      rewrite seal_chunks_app, concat_app. cbn [pl_pending dec_pull dr_pending]. split_and!; [|done|by apply full_but_last_app|].
      * rewrite HTd, Hlb'. unfold tail_of. by rewrite <-!(assoc_L (++)).
      * intros _. rewrite !length_app. f_equal; lia.
    + unfold dec_fail in Hp. destruct Hp as [(s' & ? & ?)|(s' & ? & ->)]; simplify_eq. apply Hquit; [|done]. intros ->. by vm_compute in Ee.
Qed.
End version2.

(** A record-aligned prefix of the object is the object of a prefix. *)
Lemma take_seal_chunks k i l :
  0 ≤ i → i + len (plain_chunks P l) ≤ max_records (cp_version P) →
  take (k * Z.to_nat U) (seal_chunks P i (plain_chunks P l)) =
  seal_chunks P i (plain_chunks P (take (k * Z.to_nat (cp_chunkSize P)) l)).
Proof using All.
  unfold plain_chunks. set (cs := Z.to_nat (cp_chunkSize P)). pose proof chunk_size_pos as Hcs. fold cs in Hcs.
  revert i l. induction k as [|k IH]; intros i l Hi Hm; [done|].
  destruct (decide (l = [])) as [->|Hl]; [rewrite chunks_of_nil; cbn [seal_chunks]; by rewrite !take_nil|].
  rewrite (chunks_of_step cs l) in * by done. cbn [seal_chunks length] in *.
  assert (Hrl := length_sealed_record i (take cs l) ltac:(lia)). rewrite length_take in Hrl.
  assert (Hl0 : (0 < length l)%nat) by (destruct l; cbn; [done|lia]).
  rewrite (chunks_of_step cs (take _ l)); [|done|].
  2: { intros E%(f_equal length). rewrite length_take in E. cbn in E. lia. }
  rewrite take_take, skipn_firstn_comm. cbn [seal_chunks]. cbn [Nat.mul].
  rewrite Nat.min_l, Nat.add_sub' by lia. rewrite <-IH by lia.
  destruct (decide (length l ≤ cs)%nat) as [Hlast|].
  - rewrite (drop_ge l cs) by lia. cbn. rewrite take_nil, app_nil_r. apply take_ge. unfold cs in *. lia.
  - replace (Z.to_nat U) with (length (sealed_record P i (take cs l))) at 1 by (unfold cs in *; lia).
    by rewrite take_app_add.
Qed.

(** Likewise for what follows a record-aligned prefix. *)
Lemma drop_seal_chunks k i l :
  0 ≤ i → i + len (plain_chunks P l) ≤ max_records (cp_version P) →
  drop (k * Z.to_nat U) (seal_chunks P i (plain_chunks P l)) =
  seal_chunks P (i + Z.of_nat k) (plain_chunks P (drop (k * Z.to_nat (cp_chunkSize P)) l)).
Proof using All.
  unfold plain_chunks. set (cs := Z.to_nat (cp_chunkSize P)). pose proof chunk_size_pos as Hcs. fold cs in Hcs.
  revert i l. induction k as [|k IH]; intros i l Hi Hm; [by rewrite Z.add_0_r|].
  destruct (decide (l = [])) as [->|Hl]; [rewrite drop_nil, chunks_of_nil; cbn [seal_chunks]; by rewrite drop_nil|].
  rewrite (chunks_of_step cs l) in * by done. cbn [seal_chunks length] in *.
  assert (Hrl := length_sealed_record i (take cs l) ltac:(lia)). rewrite length_take in Hrl.
  replace (i + Z.of_nat (S k)) with (i + 1 + Z.of_nat k) by lia. cbn [Nat.mul].
  rewrite <-(drop_drop l). rewrite <-IH by lia.
  destruct (decide (length l ≤ cs)%nat) as [Hlast|].
  - rewrite (drop_ge l cs) by lia. cbn. rewrite drop_nil, app_nil_r. apply drop_ge. unfold cs in *. lia.
  - rewrite <-drop_drop. f_equal.
    replace (Z.to_nat U) with (length (sealed_record P i (take cs l))) by (unfold cs in *; lia).
    apply drop_app_length.
Qed.

(** ** The decrypting reader, version 1 *)

Section version1.
Context (HV1 : cp_version P = ChunkedFormatV1) (Hder : cp_ivDerivation P = "hkdf-sha256").

Lemma decryptData_v1 src ctx i ps c :
  0 ≤ i < max_records (cp_version P) → 0 ≤ ps → ps + len c ≤ MaxInt64 →
  decryptData (mkDec P src ctx i ps [] [] false None) (sealed_record P i c) =
    (mkDec P src ctx (i + 1) (ps + len c) c [] false None, None).
Proof using All.
  intros Hi Hps Hfit. destruct (enc_data_args_Ok P i HP Hi) as (n & a & He & Hn).
  pose proof max_records_u64. unfold decryptData, sealed_record. cbn [dr_params dr_index]. rewrite He.
  assert (Hd : dec_data_args P i = Ok (n, a)).
  { unfold enc_data_args in He. unfold dec_data_args. rewrite HV1 in *. cbn [Z.eqb Pos.eqb] in *.
    by rewrite decide_True. }
  rewrite Hd, aead_open_seal by done. cbn -[Z.ltb Z.add Z.sub].
  unfold MaxUint64, MaxInt64 in *. nowrap. by rewrite (proj2 (Z.ltb_ge _ _)) by lia.
Qed.

Lemma dec_pulls_v1 l e ctx i ps :
  live ctx → is_end e = true → 0 ≤ i → i + len (plain_chunks P l) ≤ max_records (cp_version P) →
  0 ≤ ps → ps + len l ≤ MaxInt64 →
  pulls (mkDec P (mkSource (seal_chunks P i (plain_chunks P l)) e) ctx i ps [] [] false None) l EOF.
Proof using All.
  unfold plain_chunks. set (cs := Z.to_nat (cp_chunkSize P)). pose proof chunk_size_pos as Hcs. fold cs in Hcs.
  destruct unitSize_eq as [HU HUb].
  revert ctx i ps. induction l as [|l Hl IH] using (chunks_ind cs Hcs); intros ctx i ps Hctx He Hi Hm Hps Hfit;
    destruct (ctx_poll_live ctx Hctx) as (c' & Hpoll & Hc').
  - eapply pulls_step with (s' := dr_set_done (mkDec P (mkSource [] e) c' i ps [] [] false None)); [done|done| |by apply pulls_done].
    cbn [pl_advance dec_pull]. unfold dec_advance. cbn [dr_ctx dr_params dr_source]. rewrite Hpoll. cbn [dr_params dr_source].
    rewrite HU, ReadFull_empty, HV1 by (done || lia). cbn [Z.eqb Pos.eqb src_end seal_chunks chunks_of chunks_fuel length].
    by rewrite He.
  - rewrite chunks_of_step in * by done. cbn [length seal_chunks] in *.
    assert (Hl0 : (0 < length l)%nat) by (destruct l; cbn; [done|lia]).
    assert (Htd : len l = len (take cs l) + len (drop cs l)) by (rewrite length_take, length_drop; lia).
    set (c := take cs l) in *. set (rest := seal_chunks P (i + 1) (chunks_of cs (drop cs l))).
    assert (Hrl := length_sealed_record i c ltac:(lia)).
    assert (Htake : take (Z.to_nat U) (sealed_record P i c ++ rest) = sealed_record P i c ∧
                    drop (Z.to_nat U) (sealed_record P i c ++ rest) = rest).
    { destruct (decide (length l ≤ cs)%nat) as [Hlast|].
      - unfold rest. rewrite (drop_ge l cs) by lia. cbn. rewrite app_nil_r.
        unfold c in *. rewrite length_take in Hrl. rewrite take_ge, drop_ge by (unfold cs in *; lia). done.
      - replace (Z.to_nat U) with (length (sealed_record P i c))
          by (rewrite Hrl; unfold c; rewrite length_take; unfold cs in *; lia).
        by rewrite take_app_length, drop_app_length. }
    destruct Htake as [Htk Hdr].
    assert (Hne : sealed_record P i c ++ rest ≠ []).
    { intros Hnil%(f_equal length). rewrite length_app, Hrl in Hnil. cbn in Hnil. lia. }
    destruct (ReadFull_take (sealed_record P i c ++ rest) e (Z.to_nat U)) as (err & HR & _); [lia|done|].
    rewrite Htk, Hdr in HR.
    set (s' := mkDec P (mkSource rest e) c' (i + 1) (ps + len c) c [] false None).
    rewrite <-(take_drop cs l). fold c.
    eapply pulls_step with (s' := s'); [done|done|..].
    { cbn [pl_advance dec_pull]. unfold dec_advance. cbn [dr_ctx dr_params dr_source]. rewrite Hpoll. cbn [dr_params dr_source].
      rewrite HU, HR, HV1. cbn [Z.eqb Pos.eqb ChunkedFormatV1 ChunkedFormatV2].
      cbn [dr_ctx dr_index dr_plainSize dr_pending dr_lookbehind dr_done dr_err].
      destruct (sealed_record P i c) as [|b t] eqn:Er; [cbn in Hrl; lia|]. rewrite <-Er.
      by rewrite decryptData_v1 by lia. }
    change c with (pl_pending s') at 1. apply pulls_pending.
    { cbn. unfold c. intros E%(f_equal length). rewrite length_take in E. cbn in E. lia. }
    apply IH; try done; cbn [s' dr_index dr_plainSize]; lia.
Qed.

End version1.
End format.
