(* ===== verification/ChunkedTheorems.v ===== *)
(** * Theorems on chunked objects

    The correctness statements of the chunked format at the level of the
    constructors and of [Read] with arbitrary buffer sizes. *)
From S2P Require Import Prelude GoStd GoIO Primitives ObjectAAD ChunkLayout ChunkRecord.
From S2P Require Import ChunkedStream ChunkedCorrect.
Local Open Scope Z_scope.
Local Open Scope go_scope.
#[local] Arguments bytes_of_string : simpl never.
#[local] Arguments Validate : simpl never.

(** The chunk size a writer uses. *)
Definition clampChunkSize (cs : Z) : Z := Z.min MaxChunkSize (Z.max MinChunkSize cs).

Section theorems.
Context `{HKDF}.

Definition writer_params (a t : AEAD) (baseIV : list byte) (cs : Z) (obj : ObjectContext) (bid : list byte) :=
  mkParams a (Some t) baseIV (clampChunkSize cs) ChunkedFormatV2 "hkdf-sha256" obj bid true.
Definition v1_params (a : AEAD) (baseIV : list byte) (cs : Z) :=
  mkParams a None baseIV (clampChunkSize cs) ChunkedFormatV1 "hkdf-sha256" (mkObject "" "") [] false.

Definition writer_manifest (baseIV : list byte) (cs : Z) :=
  mkManifest ChunkedFormatV2 (clampChunkSize cs) 0 (encodeBase64 baseIV) [] "hkdf-sha256".

(** ** Sealings *)

(** A record as the AEAD sees it: nonce, AAD and ciphertext. *)
Abbreviation sealing := (list byte * list byte * list byte)%type.

Definition args_of (r : result (list byte * list byte)) : list byte * list byte :=
  match r with Ok x => x | Err _ => ([], []) end.

(** The data records a writer seals, and its terminal. *)
Definition written_records (P : ChunkedParams) (pt : list byte) : list sealing :=
  imap (λ i c, (args_of (enc_data_args P (Z.of_nat i)), sealed_record P (Z.of_nat i) c)) (plain_chunks P pt).
Definition written_terminal (P : ChunkedParams) (pt : list byte) : sealing :=
  let count := len (plain_chunks P pt) in
  (args_of (terminal_args P count (len pt)), sealed_terminal P count (len pt)).

(** The records a reader asks the AEAD to open when it is given [C]: the last
    32 bytes are the terminal, the rest is cut into full records. *)
Definition data_records (P : ChunkedParams) (C : list byte) : list (list byte) :=
  chunks_of (Z.to_nat (cp_chunkSize P + 16)) (take (length C - 32) C).
Definition run_records (P : ChunkedParams) (C : list byte) : list sealing :=
  imap (λ i ct, (args_of (dec_data_args P (Z.of_nat i)), ct)) (data_records P C).
Definition run_terminal (P : ChunkedParams) (C : list byte) : sealing :=
  let count := len (data_records P C) in
  (args_of (terminal_args P count (len C - 32 - 16 * count)), drop (length C - 32) C).

(** No forgery happened: what the reader could open was sealed by the writer. *)
Definition unforged (a : AEAD) (run written : list sealing) : Prop :=
  ∀ n ad ct, (n, ad, ct) ∈ run → is_Some (Open a n ct ad) → (n, ad, ct) ∈ written.

Lemma clamp_eq cs :
  (if MaxChunkSize <? (if cs <? MinChunkSize then MinChunkSize else cs) then MaxChunkSize
   else if cs <? MinChunkSize then MinChunkSize else cs) = clampChunkSize cs.
Proof. unfold clampChunkSize, MaxChunkSize, MinChunkSize. repeat case_match; zbool; lia. Qed.

Lemma newEncBound_Ok ctx src a t baseIV cs obj bid :
  Validate obj = Ok tt → len bid = 16 →
  newChunkedEncryptReaderV2Bound ctx src a baseIV cs (Some t) obj bid =
    Ok (mkEnc (writer_params a t baseIV cs obj bid) (writer_manifest baseIV cs) src ctx 0 0 [] false None,
        writer_manifest baseIV cs).
Proof.
  intros Hv Hb. unfold newChunkedEncryptReaderV2Bound, newLegacyChunkedEncryptReaderV2.
  rewrite Hv, Hb. cbn [mbind result_bind Z.eqb Pos.eqb negb ChunkedFormatV2].
  unfold newChunkedEncryptReaderForVersion. cbn [er_params er_manifest er_source er_ctx er_index
    er_plainSize er_pending er_done er_err bind_params].
  unfold writer_params, writer_manifest, bind_params. cbn.
  by rewrite clamp_eq.
Qed.

Lemma newEncBound_Ok_inv ctx src a t baseIV cs obj bid w m :
  newChunkedEncryptReaderV2Bound ctx src a baseIV cs (Some t) obj bid = Ok (w, m) →
  Validate obj = Ok tt ∧ len bid = 16 ∧
  w = mkEnc (writer_params a t baseIV cs obj bid) (writer_manifest baseIV cs) src ctx 0 0 [] false None ∧
  m = writer_manifest baseIV cs.
Proof.
  intros Hw. assert (Hobj : Validate obj = Ok tt ∧ len bid = 16).
  { unfold newChunkedEncryptReaderV2Bound in Hw. destruct (Validate obj) as [[]|]; [|done].
    cbn [mbind result_bind] in Hw. destruct (Z.eqb_spec (len bid) 16); done. }
  destruct Hobj. rewrite newEncBound_Ok in Hw by done. by simplify_eq.
Qed.

Lemma newDecBound_Ok ctx src a t m obj bid baseIV :
  Validate obj = Ok tt → len bid = 16 → mf_Version m = ChunkedFormatV2 →
  valid_chunk_size (mf_ChunkSize m) → decodeBase64 (mf_BaseIV m) = Ok baseIV →
  newChunkedDecryptReaderV2Bound ctx src a (Some m) (Some t) obj bid =
    Ok (mkDec (mkParams a (Some t) baseIV (mf_ChunkSize m) ChunkedFormatV2 (mf_IVDerivation m) obj bid true)
          src ctx 0 0 [] [] false None).
Proof.
  intros Hv Hb Hm Hcs Hiv. unfold newChunkedDecryptReaderV2Bound, newLegacyChunkedDecryptReaderV2,
    newChunkedDecryptReaderForVersion.
  rewrite Hv, Hb, Hm, Hiv. cbn [mbind result_bind Z.eqb Pos.eqb negb andb ChunkedFormatV2 ChunkedFormatV1].
  change (validateChunkedVersion _) with (Ok tt). cbn [mbind result_bind].
  by rewrite (proj2 (validateChunkSize_Ok _)).
Qed.

Lemma newDecBound_inv ctx src a t m obj bid r :
  newChunkedDecryptReaderV2Bound ctx src a (Some m) (Some t) obj bid = Ok r →
  ∃ baseIV, Validate obj = Ok tt ∧ len bid = 16 ∧ valid_chunk_size (mf_ChunkSize m) ∧
    r = mkDec (mkParams a (Some t) baseIV (mf_ChunkSize m) ChunkedFormatV2 (mf_IVDerivation m) obj bid true)
          src ctx 0 0 [] [] false None.
Proof.
  intros Hr. pose proof Hr as Hr'. unfold newChunkedDecryptReaderV2Bound in Hr.
  destruct (Validate obj) as [[]|] eqn:Hv; [|done]. cbn [mbind result_bind] in Hr.
  destruct (Z.eqb_spec (len bid) 16) as [Hb|]; [|done]. cbn [negb] in Hr.
  unfold newLegacyChunkedDecryptReaderV2, newChunkedDecryptReaderForVersion in Hr.
  destruct (Z.eqb_spec (mf_Version m) ChunkedFormatV2) as [Hm|]; [|done]. cbn [negb] in Hr.
  rewrite andb_false_r in Hr.
  destruct (validateChunkedVersion ChunkedFormatV2); [|done]. cbn [mbind result_bind] in Hr.
  destruct (validateChunkSize (mf_ChunkSize m)) as [[]|] eqn:Hcs; [|done]. cbn [mbind result_bind] in Hr.
  apply validateChunkSize_Ok in Hcs.
  destruct (decodeBase64 (mf_BaseIV m)) as [iv|] eqn:Hiv; [|done].
  rewrite (newDecBound_Ok ctx src a t m obj bid iv) in Hr' by done. simplify_eq. eauto 6.
Qed.

Lemma newEncV1_eq ctx src a baseIV cs :
  newChunkedEncryptReaderV1 ctx src a baseIV cs =
    let m := mkManifest ChunkedFormatV1 (clampChunkSize cs) 0 (encodeBase64 baseIV) [] "hkdf-sha256" in
    (mkEnc (v1_params a baseIV cs) m src ctx 0 0 [] false None, m).
Proof. unfold newChunkedEncryptReaderV1, newChunkedEncryptReaderForVersion. by rewrite clamp_eq. Qed.

Lemma newDecV1_Ok ctx src a m baseIV :
  mf_Version m = ChunkedFormatV1 → valid_chunk_size (mf_ChunkSize m) → decodeBase64 (mf_BaseIV m) = Ok baseIV →
  newChunkedDecryptReaderForVersion ctx src a (Some m) None =
    Ok (mkDec (mkParams a None baseIV (mf_ChunkSize m) ChunkedFormatV1 (mf_IVDerivation m) (mkObject "" "") [] false)
          src ctx 0 0 [] [] false None).
Proof.
  intros Hm Hcs Hiv. unfold newChunkedDecryptReaderForVersion. rewrite Hm, Hiv.
  cbn [Z.eqb Pos.eqb negb andb ChunkedFormatV2 ChunkedFormatV1].
  change (validateChunkedVersion _) with (Ok tt). cbn [mbind result_bind].
  by rewrite (proj2 (validateChunkSize_Ok _)).
Qed.

Lemma bound_params_ok a t iv cs d obj bid `{!AEADLaws a, !AEADLaws t} :
  valid_chunk_size cs → Validate obj = Ok tt → len bid = 16 →
  params_ok (mkParams a (Some t) iv cs ChunkedFormatV2 d obj bid true).
Proof. intros. split; cbn; eauto; [by right|done]. Qed.

Lemma clamp_valid cs : valid_chunk_size (clampChunkSize cs).
Proof. unfold valid_chunk_size, clampChunkSize, MinChunkSize, MaxChunkSize. lia. Qed.

Lemma decodeBase64_encode data : decodeBase64 (encodeBase64 data) = Ok data.
Proof.
  unfold decodeBase64, encodeBase64.
  by rewrite DecodeString_EncodeToString by apply std_alphabet_ok.
Qed.

(** A plaintext whose object has an [int64] size fits. *)
Lemma fits_bound P pt :
  params_ok P → cp_version P = ChunkedFormatV2 →
  ctsize (len pt) (cp_chunkSize P) (cp_version P) ≤ MaxInt64 → fits P pt.
Proof.
  intros HP Hv Hc. pose proof (chunk_size_pos P HP) as Hcs. unfold fits, plain_chunks.
  rewrite length_chunks_of by done. rewrite Z2Nat.id by lia.
  pose proof (nchunks_bounds (len pt) (cp_chunkSize P) ltac:(lia) ltac:(lia)) as Hn.
  unfold ctsize, trailer, nchunks, max_records, tagSize, ChunkedTerminalSize in *. rewrite Hv in *.
  cbn -[Z.div Z.mul Z.of_nat] in *. unfold MaxInt64, MaxUint64 in *. lia.
Qed.

Context `{!HKDFLaws}.

(** ** Records and sealings *)

Fixpoint seal_list (P : ChunkedParams) (i : Z) (chs : list (list byte)) : list (list byte) :=
  match chs with
  | [] => []
  | c :: chs => sealed_record P i c :: seal_list P (i + 1) chs
  end.

Lemma lookup_seal_list P i chs k :
  seal_list P i chs !! k = sealed_record P (i + Z.of_nat k) <$> chs !! k.
Proof.
  revert i k. induction chs as [|c chs IH]; intros i [|k]; cbn; [done..|by rewrite Z.add_0_r|].
  rewrite IH. do 2 f_equal. lia.
Qed.

Lemma length_seal_list P i chs : length (seal_list P i chs) = length chs.
Proof. revert i. induction chs; intros; cbn; auto. Qed.

(** Cutting the data part at the record size finds the records. *)
Lemma chunks_of_seal P i chs :
  params_ok P → full_but_last (cp_chunkSize P) chs → 0 ≤ i → i + len chs ≤ max_records (cp_version P) →
  chunks_of (Z.to_nat (cp_chunkSize P + 16)) (seal_chunks P i chs) = seal_list P i chs.
Proof.
  intros HP. pose proof (chunk_size_pos P HP) as Hcs.
  revert i. induction chs as [|c [|c2 chs] IH]; intros i Hf Hi Hm; [done|..].
  - cbn in *. rewrite app_nil_r. apply chunks_of_small. rewrite length_sealed_record by (done || lia). lia.
  - destruct Hf as [Hc Hf]. cbn [seal_chunks seal_list length] in *. rewrite chunks_of_app_full.
    + f_equal. apply IH; [done|lia..].
    + lia.
    + rewrite length_sealed_record by (done || lia). lia.
Qed.

Lemma seal_chunks_ext P P' i chs :
  (∀ k c, chs !! k = Some c → sealed_record P' (i + Z.of_nat k) c = sealed_record P (i + Z.of_nat k) c) →
  seal_chunks P' i chs = seal_chunks P i chs.
Proof.
  revert i. induction chs as [|c chs IH]; intros i Hk; cbn; [done|]. f_equal.
  - specialize (Hk 0%nat c eq_refl). by rewrite Z.add_0_r in Hk.
  - apply IH. intros k c' Hc'. specialize (Hk (S k) c' Hc').
    by replace (i + 1 + Z.of_nat k) with (i + Z.of_nat (S k)) by lia.
Qed.

(** Two bound readers that use the same AAD are about the same record. *)
Lemma data_args_inj P P' i j x :
  cp_version P = ChunkedFormatV2 → cp_version P' = ChunkedFormatV2 →
  cp_boundV2 P = true → cp_boundV2 P' = true → is_u64 i → is_u64 j →
  enc_data_args P i = Ok x → dec_data_args P' j = Ok x →
  cp_object P' = cp_object P ∧ cp_bindingID P' = cp_bindingID P ∧ j = i.
Proof.
  intros Hv Hv' Hb Hb' Hi Hj. unfold enc_data_args, dec_data_args, data_args_v2.
  rewrite Hv, Hv', Hb, Hb'. cbn [Z.eqb Pos.eqb ChunkedFormatV2].
  destruct (buildObjectAAD _ _ _ [i]) as [ad|] eqn:E1; [|done].
  destruct (buildObjectAAD _ _ _ [j]) as [ad'|] eqn:E2; [|done].
  cbn. intros [= <-] [= _ ->].
  destruct (buildObjectAAD_injective aadChunkedV2Data aadChunkedV2Data (cp_object P) (cp_object P')
    (cp_bindingID P) (cp_bindingID P') [i] [j] ad) as (_ & -> & -> & ?);
    [by auto using Forall_cons_2, Forall_nil_2|by auto using Forall_cons_2, Forall_nil_2|done|done|by simplify_eq].
Qed.

Lemma terminal_args_inj P P' n s n' s' x :
  cp_boundV2 P = true → cp_boundV2 P' = true →
  is_u64 n → is_u64 s → is_u64 n' → is_u64 s' →
  terminal_args P n s = Ok x → terminal_args P' n' s' = Ok x →
  cp_object P' = cp_object P ∧ cp_bindingID P' = cp_bindingID P ∧ n' = n ∧ s' = s.
Proof.
  intros Hb Hb' Hn Hs Hn' Hs'. unfold terminal_args. rewrite Hb, Hb'.
  intros H1 H2. apply bind_Ok in H1 as (nonce & _ & H1), H2 as (nonce' & _ & H2).
  apply bind_Ok in H1 as (ad & E1 & H1), H2 as (ad' & E2 & H2). simplify_eq.
  destruct (buildObjectAAD_injective aadChunkedV2Trailer aadChunkedV2Trailer (cp_object P) (cp_object P')
    (cp_bindingID P) (cp_bindingID P') [n; s] [n'; s'] ad') as (_ & -> & -> & ?);
    [by auto using Forall_cons_2, Forall_nil_2|by auto using Forall_cons_2, Forall_nil_2|done|done|by simplify_eq].
Qed.

(** What a fresh bound writer will deliver, and what a fresh bound reader
    delivers of it. *)
Lemma bound_written a t baseIV cs obj bid pt ctx m `{!AEADLaws a, !AEADLaws t} :
  Validate obj = Ok tt → len bid = 16 → ctsize (len pt) (clampChunkSize cs) ChunkedFormatV2 ≤ MaxInt64 → live ctx →
  let P := writer_params a t baseIV cs obj bid in
  sr_rem (mkEnc P m (src_of pt) ctx 0 0 [] false None) (sealed_object P pt) EOF.
Proof.
  intros Hv Hb Hfit Hctx P. pose proof (clamp_valid cs) as Hcs.
  assert (HP : params_ok P) by (by apply bound_params_ok).
  assert (HF : fits P pt) by (by apply fits_bound). destruct HF as [Hl Hm].
  split; [done|]. unfold sealed_object.
  exact (enc_pulls P HP _ pt EOF ctx 0 0 Hctx ltac:(lia) Hm ltac:(lia) Hl).
Qed.

Lemma bound_read a t baseIV cs obj bid pt ctx `{!AEADLaws a, !AEADLaws t} :
  Validate obj = Ok tt → len bid = 16 → ctsize (len pt) (clampChunkSize cs) ChunkedFormatV2 ≤ MaxInt64 → live ctx →
  let P := writer_params a t baseIV cs obj bid in
  sr_rem (mkDec P (src_of (sealed_object P pt)) ctx 0 0 [] [] false None) pt EOF.
Proof.
  intros Hv Hb Hfit Hctx P. pose proof (clamp_valid cs) as Hcs.
  assert (HP : params_ok P) by (by apply bound_params_ok).
  assert (HF : fits P pt) by (by apply fits_bound).
  pose proof (length_sealed_object P HP pt HF) as Hlen. pose proof (unitSize_eq P HP) as [HU HUb].
  split; [split; [done|]|].
  { cbn [dr_params]. rewrite HU. lia. }
  assert (HT : [] ++ sealed_object P pt = tail_of P 0 0 (plain_chunks P pt)).
  { unfold tail_of, sealed_object. cbn [app]. rewrite !Z.add_0_l. do 2 f_equal.
    unfold plain_chunks. by rewrite concat_chunks_of by apply (chunk_size_pos P HP). }
  apply (dec_pulls P HP eq_refl); try done; cbn [app length] in *; lia || by rewrite Hlen.
Qed.

(** C3: round trip of object-bound chunked objects. For every plaintext whose
    object size fits an [int64], every key pair, base IV, requested chunk size
    and object identity, and every sequence of buffer sizes on both sides: the
    writer's constructor succeeds, reading it to the end yields an object of
    exactly the predicted size, and a reader opened on that object with the
    writer's manifest yields the plaintext and then [EOF]. Both drains return
    with any fuel above the number of bytes they deliver. *)
Theorem chunked_v2_roundtrip a t baseIV cs obj bid pt ctx ctx' sz sz' `{!AEADLaws a, !AEADLaws t} :
  Validate obj = Ok tt → len bid = 16 →
  ctsize (len pt) (clampChunkSize cs) ChunkedFormatV2 ≤ MaxInt64 →
  live ctx → live ctx' → (∀ k, 0 < sz k)%nat → (∀ k, 0 < sz' k)%nat →
  ∃ w m C r,
    newChunkedEncryptReaderV2Bound ctx (src_of pt) a baseIV cs (Some t) obj bid = Ok (w, m) ∧
    (∀ fuel, (length C < fuel)%nat → drain fuel sz w = Some (C, EOF)) ∧
    ChunkedCiphertextSize (len pt) (mf_ChunkSize m) ChunkedFormatV2 = Ok (len C) ∧
    newChunkedDecryptReaderV2Bound ctx' (src_of C) a (Some m) (Some t) obj bid = Ok r ∧
    (∀ fuel, (length pt < fuel)%nat → drain fuel sz' r = Some (pt, EOF)).
Proof.
  intros Hv Hb Hfit Hctx Hctx' Hsz Hsz'. pose proof (clamp_valid cs) as Hcs.
  set (P := writer_params a t baseIV cs obj bid).
  assert (HP : params_ok P) by (by apply bound_params_ok).
  assert (HF : fits P pt) by (by apply fits_bound).
  pose proof (length_sealed_object P HP pt HF) as Hlen.
  eexists _, _, (sealed_object P pt), _. split; [by apply newEncBound_Ok|]. split_and!.
  - apply drain_rem; [done|]. by apply bound_written.
  - cbn [mf_ChunkSize writer_manifest]. destruct HF as [Hl _].
    rewrite Hlen, ChunkedCiphertextSize_spec by (done || lia || by right).
    by rewrite (proj2 (Z.leb_le _ _)).
  - apply newDecBound_Ok; try done. apply decodeBase64_encode.
  - apply drain_rem; [done|]. by apply bound_read.
Qed.

(** A fresh reader over arbitrary bytes: what it hands out before it stops
    comes from authentic records at the front of [C]. *)
Lemma drain_released P (HP : params_ok P) C e ctx fuel sz O oe :
  cp_version P = ChunkedFormatV2 → len C < MaxInt64 → Forall (λ x, x ≠ Some EOF) ctx → (∀ k, 0 < sz k)%nat →
  drain fuel sz (mkDec P (mkSource C e) ctx 0 0 [] [] false None) = Some (O, oe) →
  ∃ chs rest, C = seal_chunks P 0 chs ++ rest ∧ O = concat chs ∧ full_but_last (cp_chunkSize P) chs ∧
    (oe = EOF → rest = sealed_terminal P (len chs) (len O)).
Proof.
  intros HV HC Hctx Hsz Hdrain. set (r := mkDec P (mkSource C e) ctx 0 0 [] [] false None) in *.
  pose proof (unitSize_eq P HP) as [HU HUb].
  assert (Hok : pl_ok r) by (split; [done|cbn; lia]).
  destruct (pulls_total r Hok) as (O1 & e1 & Hp).
  eapply drain_inv in Hdrain as [-> ->]; [|done|by split].
  apply (dec_pulls_inv P HP HV) in Hp as (chs & rest & HT & -> & Hfbl & HE);
    [|done|cbn [app length] in *; lia..].
  rewrite !Z.add_0_l in HE. eauto 7.
Qed.

(** When it reads to [EOF], the bytes are exactly an authentic object. *)
Lemma drain_accepted P (HP : params_ok P) C e ctx fuel sz O :
  cp_version P = ChunkedFormatV2 → len C < MaxInt64 → Forall (λ x, x ≠ Some EOF) ctx → (∀ k, 0 < sz k)%nat →
  drain fuel sz (mkDec P (mkSource C e) ctx 0 0 [] [] false None) = Some (O, EOF) →
  ∃ chs, C = seal_chunks P 0 chs ++ sealed_terminal P (len chs) (len (concat chs)) ∧ O = concat chs ∧
    data_records P C = seal_list P 0 chs ∧
    drop (length C - 32) C = sealed_terminal P (len chs) (len (concat chs)) ∧
    len C = len (concat chs) + 16 * len chs + 32.
Proof.
  intros HV HC Hctx Hsz Hdrain.
  apply drain_released in Hdrain as (chs & rest & HT & -> & Hfbl & HE); [|done..].
  specialize (HE eq_refl). subst rest. exists chs.
  pose proof (sealed_terminal_32 P HP HV (len chs) (len (concat chs))) as H32.
  pose proof (length_seal_chunks_v2 P HP HV 0 chs) as Hlen.
  assert (HlenC : len C = len (concat chs) + 16 * len chs + 32) by (rewrite HT, length_app, H32; lia).
  assert (Htk : take (length C - 32) C = seal_chunks P 0 chs)
    by (rewrite HT, length_app, H32, Nat.add_sub; apply take_app_length).
  split_and!; [done|done| | |done].
  - unfold data_records. rewrite Htk. apply chunks_of_seal; [done..|]. rewrite HV. cbn.
    unfold MaxUint64, MaxInt64 in *. lia.
  - rewrite HT, length_app, H32, Nat.add_sub. apply drop_app_length.
Qed.

(** What the unforged records of a run say, for a reader that accepted the
    object as the chunks [chs]. *)
Lemma unforged_records P P' pt chs C k c :
  params_ok P → params_ok P' → cp_version P = ChunkedFormatV2 → cp_version P' = ChunkedFormatV2 →
  cp_boundV2 P = true → cp_boundV2 P' = true → cp_aead P' = cp_aead P →
  len pt ≤ MaxInt64 → len chs < MaxInt64 →
  data_records P' C = seal_list P' 0 chs →
  unforged (cp_aead P) (run_records P' C) (written_records P pt) →
  chs !! k = Some c →
  plain_chunks P pt !! k = Some c ∧ sealed_record P' (Z.of_nat k) c = sealed_record P (Z.of_nat k) c.
Proof.
  intros HP HP' Hv Hv' Hb Hb' Ha Hpt Hn HC Hu Hk.
  pose proof (lookup_lt_Some _ _ _ Hk) as Hlt. pose proof (po_aead P HP) as Hlaws.
  assert (Hmax : ∀ i, 0 ≤ i < MaxInt64 → 0 ≤ i < max_records ChunkedFormatV2)
    by (intros i Hi; cbn; unfold MaxUint64, MaxInt64 in *; lia).
  destruct (data_args_v2_Ok P' (Z.of_nat k) HP' Hv') as (n & ad & Hargs & Hnl).
  assert (Hdec : dec_data_args P' (Z.of_nat k) = Ok (n, ad)) by (unfold dec_data_args; by rewrite Hv').
  assert (Henc : enc_data_args P' (Z.of_nat k) = Ok (n, ad)) by (unfold enc_data_args; by rewrite Hv').
  assert (Hrec : sealed_record P' (Z.of_nat k) c = Seal (cp_aead P) n c ad)
    by (unfold sealed_record; by rewrite Henc, Ha).
  assert (Hin : (n, ad, Seal (cp_aead P) n c ad) ∈ written_records P pt).
  { apply Hu; [|rewrite aead_open_seal by done; eauto].
    unfold run_records. rewrite HC. apply elem_of_lookup_imap. exists k, (sealed_record P' (Z.of_nat k) c).
    rewrite lookup_seal_list, Hk, Hdec, Z.add_0_l. cbn. by rewrite Hrec. }
  unfold written_records in Hin. apply elem_of_lookup_imap in Hin as (j & c' & Heq & Hj).
  pose proof (lookup_lt_Some _ _ _ Hj) as Hjlt.
  assert (Hjb : len (plain_chunks P pt) ≤ len pt).
  { unfold plain_chunks. rewrite length_chunks_of by by apply chunk_size_pos.
    pose proof (chunk_size_pos P HP). rewrite Z2Nat.id by lia. apply nchunks_bounds; lia. }
  destruct (enc_data_args_Ok P (Z.of_nat j)) as (n2 & ad2 & Henc2 & Hn2); [done|rewrite Hv; apply Hmax; lia|].
  unfold sealed_record in Heq. rewrite Henc2 in Heq. cbn [args_of] in Heq.
  injection Heq as <- <- Hct.
  destruct (data_args_inj P P' (Z.of_nat j) (Z.of_nat k) (n, ad)) as (_ & _ & Hkj);
    try done; try (unfold is_u64, MaxInt64 in *; lia).
  apply Nat2Z.inj in Hkj as <-.
  assert (c = c') as <-.
  { apply (f_equal (λ x, Open (cp_aead P) n x ad)) in Hct. rewrite !aead_open_seal in Hct by done. congruence. }
  split; [done|]. rewrite Hrec. unfold sealed_record. by rewrite Henc2.
Qed.

(** The terminal of the run is the writer's. *)
Lemma unforged_terminal P P' t (pt : list byte) (chs : list (list byte)) (C : list byte) :
  params_ok P → params_ok P' → cp_version P = ChunkedFormatV2 → cp_version P' = ChunkedFormatV2 →
  cp_boundV2 P = true → cp_boundV2 P' = true →
  cp_terminalAEAD P = Some t → cp_terminalAEAD P' = Some t → AEADLaws t →
  len pt ≤ MaxInt64 → len chs ≤ MaxInt64 → len (concat chs) ≤ MaxInt64 →
  len (data_records P' C) = len chs → len C - 32 - 16 * len chs = len (concat chs) →
  drop (length C - 32) C = sealed_terminal P' (len chs) (len (concat chs)) →
  unforged t [run_terminal P' C] [written_terminal P pt] →
  cp_object P' = cp_object P ∧ cp_bindingID P' = cp_bindingID P ∧
  length chs = length (plain_chunks P pt) ∧ len (concat chs) = len pt ∧
  drop (length C - 32) C = sealed_terminal P (len (plain_chunks P pt)) (len pt).
Proof.
  intros HP HP' Hv Hv' Hb Hb' Ht Ht' Hlaws Hpt Hn Hs Hcount Hsize HC Hu.
  destruct (terminal_args_Ok P' (len chs) (len (concat chs)) HP' Hv') as (n & ad & Hargs & Hnl).
  assert (Hjb : len (plain_chunks P pt) ≤ len pt).
  { unfold plain_chunks. rewrite length_chunks_of by by apply chunk_size_pos.
    pose proof (chunk_size_pos P HP). rewrite Z2Nat.id by lia. apply nchunks_bounds; lia. }
  destruct (terminal_args_Ok P (len (plain_chunks P pt)) (len pt) HP Hv) as (n2 & ad2 & Hargs2 & _).
  specialize (Hu n ad (drop (length C - 32) C)). unfold run_terminal, written_terminal in Hu.
  rewrite Hcount, Hsize, Hargs, Hargs2 in Hu. cbn [args_of] in Hu.
  rewrite !list_elem_of_singleton in Hu. specialize (Hu eq_refl).
  assert (Heq : (n, ad, drop (length C - 32) C) =
    (n2, ad2, sealed_terminal P (len (plain_chunks P pt)) (len pt))).
  { apply Hu. rewrite HC. unfold sealed_terminal. rewrite Hv', Ht', Hargs. cbn.
    rewrite aead_open_seal by done. eauto. }
  injection Heq as <- <- Hct.
  destruct (terminal_args_inj P P' (len (plain_chunks P pt)) (len pt) (len chs) (len (concat chs)) (n, ad))
    as (? & ? & ? & ?); try done; unfold is_u64, MaxInt64 in *; try lia.
  split_and!; done || lia.
Qed.

(** C4: integrity of object-bound chunked objects. Let a reader be given
    arbitrary bytes [C'], an arbitrary manifest and an arbitrary object
    identity. If it reads to [EOF] and every record it opened on the way is
    one the writer sealed, then the identity is the writer's, [C'] is the
    writer's object byte for byte, and the output is the writer's plaintext:
    no truncation, extension, reordering, duplication or substitution under
    another name is accepted, whatever the source, the context and the buffer
    sizes do. *)
Theorem chunked_v2_integrity a t baseIV cs obj bid pt w m ctx ctx' m' obj' bid' C' e r fuel sz O
    `{!AEADLaws a, !AEADLaws t} :
  newChunkedEncryptReaderV2Bound ctx (src_of pt) a baseIV cs (Some t) obj bid = Ok (w, m) →
  newChunkedDecryptReaderV2Bound ctx' (mkSource C' e) a (Some m') (Some t) obj' bid' = Ok r →
  len pt ≤ MaxInt64 → len C' < MaxInt64 → Forall (λ x, x ≠ Some EOF) ctx' → (∀ k, 0 < sz k)%nat →
  drain fuel sz r = Some (O, EOF) →
  unforged a (run_records (dr_params r) C') (written_records (er_params w) pt) →
  unforged t [run_terminal (dr_params r) C'] [written_terminal (er_params w) pt] →
  obj' = obj ∧ bid' = bid ∧ C' = sealed_object (er_params w) pt ∧ O = pt.
Proof.
  intros Hw Hr Hpt HC Hctx Hsz Hdrain Hud Hut.
  apply newEncBound_Ok_inv in Hw as (Hv & Hb & -> & ->). cbn [er_params] in *.
  apply newDecBound_inv in Hr as (iv & Hv' & Hb' & Hcs' & ->). cbn [dr_params] in *.
  set (P := writer_params a t baseIV cs obj bid) in *. set (P' := mkParams _ _ _ _ _ _ _ _ _) in *.
  assert (HP : params_ok P) by (pose proof (clamp_valid cs); by apply bound_params_ok).
  assert (HP' : params_ok P') by (by apply bound_params_ok).
  apply drain_accepted in Hdrain as (chs & HT & -> & Hrecs & Hdr & HlenC); [|done..].
  destruct (unforged_terminal P P' t pt chs C') as (Ho & Hi & Hn & Hs & HtC); try done; try lia.
  { by rewrite Hrecs, length_seal_list. }
  assert (Hchs : ∀ k c, chs !! k = Some c →
    plain_chunks P pt !! k = Some c ∧ sealed_record P' (Z.of_nat k) c = sealed_record P (Z.of_nat k) c).
  { intros k c. apply (unforged_records P P' pt chs C'); try done; lia. }
  assert (chs = plain_chunks P pt) as Heq.
  { eapply list_eq_same_length; [done|done|]. intros k x y _ Hx Hy. destruct (Hchs k x Hx) as [? _]. congruence. }
  split_and!; [done..| |].
  - unfold sealed_object. rewrite <-HtC, Hdr, <-Heq. rewrite HT at 1. f_equal.
    apply seal_chunks_ext. intros k c Hk. rewrite Z.add_0_l. by apply Hchs.
  - rewrite Heq. unfold plain_chunks. apply concat_chunks_of, chunk_size_pos, HP.
Qed.

(** ** Sources that fail *)

(** C38: what a source error leaves behind. A plaintext source that fails with
    any error but [EOF] and [ErrUnexpectedEOF] makes the writer hand out the
    data records it has sealed and then that error, and never a terminal. A
    source that ends with [ErrUnexpectedEOF], the error of a connection closed
    early, is taken for a complete plaintext: the writer seals a terminal for
    the bytes that arrived. *)
Theorem chunked_source_error a t baseIV cs obj bid pt e ctx sz w m `{!AEADLaws a, !AEADLaws t} :
  newChunkedEncryptReaderV2Bound ctx (mkSource pt e) a baseIV cs (Some t) obj bid = Ok (w, m) →
  ctsize (len pt) (clampChunkSize cs) ChunkedFormatV2 ≤ MaxInt64 →
  live ctx → (∀ k, 0 < sz k)%nat →
  let records := seal_chunks (er_params w) 0 (plain_chunks (er_params w) pt) in
  let C := if is_end e then sealed_object (er_params w) pt else records in
  ∀ fuel, (length C < fuel)%nat →
    drain fuel sz w = Some (C, if is_end e then EOF else e).
Proof.
  intros Hw Hfit Hctx Hsz.
  apply newEncBound_Ok_inv in Hw as (Hv & Hb & -> & ->). cbn [er_params].
  set (P := writer_params a t baseIV cs obj bid).
  assert (HP : params_ok P) by (pose proof (clamp_valid cs); by apply bound_params_ok).
  assert (HF : fits P pt) by (by apply fits_bound). destruct HF as [Hl Hm].
  pose proof (enc_pulls P HP (writer_manifest baseIV cs) pt e ctx 0 0 Hctx ltac:(lia) Hm ltac:(lia) Hl) as Hp.
  cbn zeta. apply drain_rem; [done|]. split; [done|].
  destruct (is_end e); [exact Hp|]. by rewrite app_nil_r in Hp.
Qed.

(** ** Version 1 *)

(** Version 1 objects. Writing and reading back is the identity for every
    plaintext of at most 2^32 chunks; but version 1 has no terminal, and any
    prefix of the object cut at a record boundary reads as a complete object
    whose plaintext is the corresponding prefix: only version 2 detects this
    truncation. *)
Theorem chunked_v1_roundtrip a baseIV cs pt k ctx ctx' sz sz' `{!AEADLaws a} :
  length baseIV = 12%nat → len pt ≤ MaxInt64 → nchunks (len pt) (clampChunkSize cs) ≤ MaxUint32 + 1 →
  live ctx → live ctx' → (∀ k, 0 < sz k)%nat → (∀ k, 0 < sz' k)%nat →
  let '(w, m) := newChunkedEncryptReaderV1 ctx (src_of pt) a baseIV cs in
  let U := Z.to_nat (mf_ChunkSize m + tagSize) in
  ∃ C r,
    (∀ fuel, (length C < fuel)%nat → drain fuel sz w = Some (C, EOF)) ∧
    ChunkedCiphertextSize (len pt) (mf_ChunkSize m) ChunkedFormatV1 =
      (if len C <=? MaxInt64 then Ok (len C) else Err (Errorf "chunked ciphertext size overflow")) ∧
    newChunkedDecryptReaderV1 ctx' (src_of (take (k * U) C)) a (Some m) = Ok r ∧
    (∀ fuel, (length pt < fuel)%nat →
       drain fuel sz' r = Some (take (k * Z.to_nat (mf_ChunkSize m)) pt, EOF)).
Proof.
  intros Hiv Hpt Hn Hctx Hctx' Hsz Hsz'. pose proof (clamp_valid cs) as Hcs.
  rewrite newEncV1_eq. cbn zeta. cbn [mf_ChunkSize].
  set (P := v1_params a baseIV cs).
  assert (HP : params_ok P) by (split; cbn; try done; by left).
  assert (Hpos : 0 < clampChunkSize cs) by (unfold valid_chunk_size, MinChunkSize in Hcs; lia).
  assert (Hm : len (plain_chunks P pt) ≤ max_records (cp_version P)).
  { unfold plain_chunks. rewrite length_chunks_of by (by apply chunk_size_pos). cbn [cp_chunkSize P v1_params].
    rewrite Z2Nat.id by lia. exact Hn. }
  assert (HF : fits P pt) by done.
  pose proof (length_sealed_object P HP pt HF) as Hlen.
  assert (Hobj : sealed_object P pt = seal_chunks P 0 (plain_chunks P pt)) by (apply app_nil_r).
  set (pt' := take (k * Z.to_nat (clampChunkSize cs)) pt).
  assert (Hpt' : (length pt' ≤ length pt)%nat) by (unfold pt'; rewrite length_take; lia).
  exists (sealed_object P pt).
  exists (mkDec P (src_of (take (k * Z.to_nat (clampChunkSize cs + tagSize)) (sealed_object P pt))) ctx' 0 0 [] [] false None).
  split_and!.
  - apply drain_rem; [done|]. split; [done|].
    exact (enc_pulls P HP _ pt EOF ctx 0 0 Hctx ltac:(lia) Hm ltac:(lia) Hpt).
  - rewrite Hlen. apply ChunkedCiphertextSize_spec; [lia|done|by left].
  - unfold newChunkedDecryptReaderV1. by rewrite (newDecV1_Ok _ _ _ _ baseIV) by (done || apply decodeBase64_encode).
  - intros fuel Hfuel. apply drain_rem; [done| |lia]. split; [split; [done|]|].
    { cbn [dr_params]. pose proof (unitSize_eq P HP) as [-> ?]. lia. }
    rewrite Hobj. change (clampChunkSize cs + tagSize) with (cp_chunkSize P + 16).
    rewrite (take_seal_chunks P HP) by (done || lia). change (take _ pt) with pt'.
    assert (Hmono : len (plain_chunks P pt') ≤ len (plain_chunks P pt)).
    { unfold plain_chunks. rewrite !length_chunks_of by (by apply chunk_size_pos).
      apply Z.div_le_mono; [cbn [cp_chunkSize P v1_params]; lia|lia]. }
    apply (dec_pulls_v1 P HP eq_refl eq_refl); try done; lia.
Qed.
End theorems.

(** ** The theorems at concrete inputs *)

Module ChunkedWitness.
Import ToyInstances.
Definition dataKey : AEAD := Toy.aead [x01].
Definition terminalKey : AEAD := Toy.aead [x02].
Definition iv : list byte := repeat x03 12.
Definition object : ObjectContext := mkObject "bucket" "key".
Definition binding : list byte := repeat x04 16.
Definition text : list byte := bytes_of_string "hello".
Definition params : ChunkedParams := writer_params dataKey terminalKey iv 16384 object binding.
End ChunkedWitness.

Section witnesses.
Import ToyInstances ChunkedWitness.

Lemma chunked_v2_roundtrip_witness :
  ∃ w m C r,
    newChunkedEncryptReaderV2Bound [] (src_of text) dataKey iv 16384 (Some terminalKey) object binding = Ok (w, m) ∧
    (∀ fuel, (length C < fuel)%nat → drain fuel (λ _, 3%nat) w = Some (C, EOF)) ∧
    ChunkedCiphertextSize (len text) (mf_ChunkSize m) ChunkedFormatV2 = Ok (len C) ∧
    newChunkedDecryptReaderV2Bound [] (src_of C) dataKey (Some m) (Some terminalKey) object binding = Ok r ∧
    (∀ fuel, (length text < fuel)%nat → drain fuel (λ _, 2%nat) r = Some (text, EOF)).
Proof.
  apply (chunked_v2_roundtrip dataKey terminalKey iv 16384 object binding text [] [] (λ _, 3%nat) (λ _, 2%nat));
    [reflexivity|reflexivity|vm_compute; congruence|constructor|constructor|lia|lia].
Defined.

Lemma chunked_v2_integrity_witness :
  object = object ∧ binding = binding ∧
  sealed_object params text = sealed_object (er_params (mkEnc params (writer_manifest iv 16384) (src_of text) [] 0 0 [] false None)) text ∧
  text = text.
Proof.
  apply (chunked_v2_integrity dataKey terminalKey iv 16384 object binding text
    (mkEnc params (writer_manifest iv 16384) (src_of text) [] 0 0 [] false None) (writer_manifest iv 16384)
    [] [] (writer_manifest iv 16384) object binding (sealed_object params text) EOF
    (mkDec params (src_of (sealed_object params text)) [] 0 0 [] [] false None) 10 (λ _, 2%nat) text).
  - apply newEncBound_Ok; reflexivity.
  - apply newDecBound_Ok; [reflexivity|reflexivity|reflexivity|apply clamp_valid|apply decodeBase64_encode].
  - vm_compute. congruence.
  - vm_compute. reflexivity.
  - constructor.
  - lia.
  - vm_compute. reflexivity.
  - replace (run_records _ _) with (written_records params text) by (vm_compute; reflexivity).
    intros n ad ct Hin _. exact Hin.
  - replace (run_terminal _ _) with (written_terminal params text) by (vm_compute; reflexivity).
    intros n ad ct Hin _. exact Hin.
Defined.

Lemma chunked_source_error_witness :
  drain 100 (λ _, 3%nat) (mkEnc params (writer_manifest iv 16384) (mkSource text (Errorf "reset")) [] 0 0 [] false None) =
    Some (seal_chunks params 0 (plain_chunks params text), Errorf "reset").
Proof.
  apply (chunked_source_error dataKey terminalKey iv 16384 object binding text (Errorf "reset") [] (λ _, 3%nat)
    (mkEnc params (writer_manifest iv 16384) (mkSource text (Errorf "reset")) [] 0 0 [] false None)
    (writer_manifest iv 16384)).
  - apply newEncBound_Ok; reflexivity.
  - vm_compute. congruence.
  - constructor.
  - lia.
  - apply Nat.ltb_lt. vm_compute. reflexivity.
Defined.

Lemma chunked_v1_roundtrip_witness :
  let '(w, m) := newChunkedEncryptReaderV1 [] (src_of text) dataKey iv 16384 in
  let U := Z.to_nat (mf_ChunkSize m + tagSize) in
  ∃ C r,
    (∀ fuel, (length C < fuel)%nat → drain fuel (λ _, 3%nat) w = Some (C, EOF)) ∧
    ChunkedCiphertextSize (len text) (mf_ChunkSize m) ChunkedFormatV1 =
      (if len C <=? MaxInt64 then Ok (len C) else Err (Errorf "chunked ciphertext size overflow")) ∧
    newChunkedDecryptReaderV1 [] (src_of (take (1 * U) C)) dataKey (Some m) = Ok r ∧
    (∀ fuel, (length text < fuel)%nat →
       drain fuel (λ _, 2%nat) r = Some (take (1 * Z.to_nat (mf_ChunkSize m)) text, EOF)).
Proof.
  apply (chunked_v1_roundtrip dataKey iv 16384 text 1 [] [] (λ _, 3%nat) (λ _, 2%nat));
    [reflexivity|vm_compute; congruence|vm_compute; congruence|constructor|constructor|lia|lia].
Defined.
End witnesses.
