(* ===== verification/RangeReader.v ===== *)
(** * Range reads of chunked objects

    [rangeDecryptReader] of [internal/crypto/range_decrypt.go]: decrypts only
    the records that overlap a plaintext range, from a source that is either
    the whole object or the ciphertext range computed by the layout
    ([ChunkLayout]). The [Read] loop keeps its own count of the bytes handed
    out and stops at the end of the range. *)
From S2P Require Import Prelude GoStd GoIO Primitives ObjectAAD ChunkLayout ChunkRecord.
From S2P Require Import ChunkedStream ChunkedCorrect ChunkedTheorems.
Local Open Scope Z_scope.
Local Open Scope go_scope.
#[local] Arguments bytes_of_string : simpl never.
#[local] Arguments Validate : simpl never.

(** The mutable fields; [rr_params] and [rr_count] hold the fields taken from
    the manifest and the constructor's arguments. *)
Record rangeReader := mkRange {
  rr_params : ChunkedParams;
  rr_count : Z;
  rr_source : Source;
  rr_plaintextStart : Z;
  rr_plaintextEnd : Z;
  rr_startChunk : Z;
  rr_endChunk : Z;
  rr_startOffset : Z;
  rr_endOffset : Z;
  rr_current : list byte;
  rr_index : Z;
  rr_sourceIndex : Z;
  rr_returned : Z;
  rr_closed : bool;
  rr_err : option error;
  rr_optimized : bool;
  rr_plaintextSize : Z }.

Definition rr_set_source (src : Source) (r : rangeReader) : rangeReader :=
  mkRange (rr_params r) (rr_count r) src (rr_plaintextStart r) (rr_plaintextEnd r) (rr_startChunk r)
    (rr_endChunk r) (rr_startOffset r) (rr_endOffset r) (rr_current r) (rr_index r) (rr_sourceIndex r)
    (rr_returned r) (rr_closed r) (rr_err r) (rr_optimized r) (rr_plaintextSize r).
Definition rr_set_current (cur : list byte) (returned : Z) (r : rangeReader) : rangeReader :=
  mkRange (rr_params r) (rr_count r) (rr_source r) (rr_plaintextStart r) (rr_plaintextEnd r) (rr_startChunk r)
    (rr_endChunk r) (rr_startOffset r) (rr_endOffset r) cur (rr_index r) (rr_sourceIndex r)
    returned (rr_closed r) (rr_err r) (rr_optimized r) (rr_plaintextSize r).
Definition rr_next (cur : list byte) (r : rangeReader) : rangeReader :=
  mkRange (rr_params r) (rr_count r) (rr_source r) (rr_plaintextStart r) (rr_plaintextEnd r) (rr_startChunk r)
    (rr_endChunk r) (rr_startOffset r) (rr_endOffset r) cur (rr_index r +u 1) (rr_sourceIndex r +u 1)
    (rr_returned r) (rr_closed r) (rr_err r) (rr_optimized r) (rr_plaintextSize r).
Definition rr_finish (closed : bool) (err : option error) (r : rangeReader) : rangeReader :=
  mkRange (rr_params r) (rr_count r) (rr_source r) (rr_plaintextStart r) (rr_plaintextEnd r) (rr_startChunk r)
    (rr_endChunk r) (rr_startOffset r) (rr_endOffset r) (rr_current r) (rr_index r) (rr_sourceIndex r)
    (rr_returned r) closed err (rr_optimized r) (rr_plaintextSize r).

Section range.
Context `{HKDF}.

(** ** Constructors *)

Definition newRangeDecryptReader (source : Source) (aead : AEAD) (manifest : option ChunkManifest)
    (baseIV : list byte) (plaintextStart plaintextEnd : Z) (isOptimizedSource : bool)
    (plaintextSizes : list Z) : result rangeReader :=
  match manifest with
  | None => Err (Errorf "missing chunk manifest")
  | Some m =>
      if negb (mf_Version m =? ChunkedFormatV1) && negb (mf_Version m =? ChunkedFormatV2)
      then Err (Wrapf "%w: %d" ErrUnsupportedChunkedVersion)
      else
        _ ← validateChunkSize (mf_ChunkSize m);
        let plaintextSize := match plaintextSizes with [] => -1 | p :: _ => p end in
        let '(startChunk, endChunk, startOffset, endOffset) :=
          calculateChunkRangeFromPlaintext plaintextStart plaintextEnd (mf_ChunkSize m) (mf_ChunkCount m) in
        if (mf_ChunkCount m <=? endChunk) || (endChunk <? startChunk)
        then Err (Errorf "invalid chunk range: %d-%d (total chunks: %d)")
        else
          let encryptedChunkSize := mf_ChunkSize m +i tagSize in
          source ←
            (if negb isOptimizedSource && (0 <? startChunk) then
               if (encryptedChunkSize <=? 0) ||
                  (Z.quot MaxInt64 (wrap_u64 encryptedChunkSize) <? startChunk)
               then Err (Errorf "chunk range overflow")
               else
                 let skipBytes := wrap_i64 (startChunk *u wrap_u64 encryptedChunkSize) in
                 let '(skipped, err, source) := DiscardN source (Z.to_nat skipBytes) in
                 match err with
                 | Some e => if decide (e = EOF) then
                               (if Z.of_nat skipped <? skipBytes
                                then Err (Errorf "unexpected EOF while skipping to chunk %d") else Ok source)
                             else Err (Wrapf "failed to skip to start chunk: %w" e)
                 | None => if Z.of_nat skipped <? skipBytes
                           then Err (Errorf "unexpected EOF while skipping to chunk %d") else Ok source
                 end
             else Ok source);
          let P := mkParams aead None baseIV (mf_ChunkSize m) (mf_Version m) (mf_IVDerivation m)
                     (mkObject "" "") [] false in
          Ok (mkRange P (mf_ChunkCount m) source plaintextStart plaintextEnd startChunk endChunk
                startOffset endOffset [] startChunk 0 0 false None isOptimizedSource plaintextSize)
  end.

Definition newRangeDecryptReaderBound (source : Source) (aead : AEAD) (manifest : option ChunkManifest)
    (baseIV : list byte) (start end_ : Z) (optimized : bool) (plaintextSize : Z)
    (object : ObjectContext) (bindingID : list byte) : result rangeReader :=
  _ ← Validate object;
  if negb (len bindingID =? 16) then Err (Errorf "binding ID must be exactly 16 bytes")
  else
    r ← newRangeDecryptReader source aead manifest baseIV start end_ optimized [plaintextSize];
    Ok (mkRange (bind_params (rr_params r) object bindingID) (rr_count r) (rr_source r)
          (rr_plaintextStart r) (rr_plaintextEnd r) (rr_startChunk r) (rr_endChunk r) (rr_startOffset r)
          (rr_endOffset r) (rr_current r) (rr_index r) (rr_sourceIndex r) (rr_returned r) (rr_closed r)
          (rr_err r) (rr_optimized r) (rr_plaintextSize r)).

(** ** Reading *)

Definition deriveChunkIV (P : ChunkedParams) (chunkIndex : Z) : result (list byte) :=
  if cp_version P =? ChunkedFormatV2 then deriveChunkNonceHKDF (cp_baseIV P) ChunkedFormatV2 chunkIndex
  else if decide (cp_ivDerivation P = "hkdf-sha256") then deriveChunkIVHKDFIndex (cp_baseIV P) chunkIndex
  else deriveLegacyChunkIVIndex (cp_baseIV P) chunkIndex.

(** The size of the next record: the last one of a version 2 object is sized
    from the object's plaintext size. *)
Definition expectedRecordSize (r : rangeReader) : result Z :=
  let P := rr_params r in
  let encryptedChunkSize := cp_chunkSize P +i tagSize in
  if (cp_version P =? ChunkedFormatV2) && (rr_index r =? rr_count r -u 1) &&
     (cp_boundV2 P || (0 <=? rr_plaintextSize r)) then
    if (rr_plaintextSize r <? 0) && cp_boundV2 P
    then Err (Errorf "exact plaintext size required for optimized v2 final chunk")
    else if (cp_chunkSize P <=? 0) || (Z.quot MaxInt64 (cp_chunkSize P) <? rr_index r)
    then Err (Errorf "final chunk offset overflow")
    else
      let finalPlainSize := rr_plaintextSize r -i wrap_i64 (rr_index r) *i cp_chunkSize P in
      Ok (if (0 <? finalPlainSize) && (finalPlainSize <? cp_chunkSize P)
          then finalPlainSize +i tagSize else encryptedChunkSize)
  else Ok encryptedChunkSize.

(** The AAD of the record; [err] is the error the read has left, which only
    the bound case overwrites before it is tested. *)
Definition rangeAAD (P : ChunkedParams) (index : Z) (err : option error) : result (list byte) :=
  if cp_version P =? ChunkedFormatV2 then
    if cp_boundV2 P then buildObjectAAD aadChunkedV2Data (cp_object P) (cp_bindingID P) [index]
    else match err with
         | Some e => Err e
         | None => Ok (buildChunkAAD ChunkedFormatV2 index)
         end
  else Ok [].

(** The part of a decrypted chunk that the range needs. *)
Definition trimChunk (r : rangeReader) (plaintext : list byte) : result (list byte) :=
  chunkData ←
    (if rr_index r =? rr_startChunk r then
       if len plaintext <=? rr_startOffset r then Err (Errorf "start offset %d exceeds chunk size %d")
       else Ok (drop (Z.to_nat (rr_startOffset r)) plaintext)
     else Ok plaintext);
  Ok (if (rr_index r =? rr_endChunk r) && (rr_endOffset r <? len chunkData)
      then take (Z.to_nat (rr_endOffset r + 1)) chunkData else chunkData).

(** Decrypting what was read as the next record. *)
Definition range_decrypt (r : rangeReader) (buf : list byte) (err : option error) : rangeReader * option error :=
  let P := rr_params r in
  let failed e := (rr_finish (rr_closed r) (Some e) r, Some e) in
  match deriveChunkIV P (rr_index r) with
  | Err e => failed e
  | Ok chunkIV =>
      match rangeAAD P (rr_index r) err with
      | Err e => failed e
      | Ok aad =>
          match Open (cp_aead P) chunkIV buf aad with
          | None => failed (Errorf "failed to decrypt chunk %d: %w")
          | Some plaintext =>
              match trimChunk r plaintext with
              | Err e => failed e
              | Ok chunkData => (rr_next (rr_current r ++ chunkData) r, None)
              end
          end
      end
  end.

(** [maxBytes]. *)
Definition rangeLength (r : rangeReader) : Z := rr_plaintextEnd r -i rr_plaintextStart r +i 1.

(** [Read]'s exits that close the reader. *)
Definition range_close (r : rangeReader) (acc : list byte) : list byte * option error * rangeReader :=
  (acc, match acc with [] => Some EOF | _ => None end, rr_finish true (rr_err r) r).

Fixpoint range_loop (fuel : nat) (r : rangeReader) (room : nat) (acc : list byte)
    : option (list byte * option error * rangeReader) :=
  match fuel with
  | O => None
  | S f =>
      if decide (room = 0)%nat then Some (acc, None, r)
      else if rangeLength r <=? rr_returned r then Some (acc, None, r)
      else match rr_current r with
      | (_ :: _) as cur =>
          let n := Nat.min (Nat.min (length cur) (Z.to_nat (rangeLength r -i rr_returned r))) room in
          let r := rr_set_current (drop n cur) (rr_returned r +i Z.of_nat n) r in
          let acc := acc ++ take n cur in
          if rangeLength r <=? rr_returned r then Some (acc, Some EOF, rr_finish true (rr_err r) r)
          else range_loop f r (room - n) acc
      | [] =>
          if rr_endChunk r <? rr_index r then Some (range_close r acc)
          else match expectedRecordSize r with
          | Err e => Some (acc, Some e, rr_finish (rr_closed r) (Some e) r)
          | Ok size =>
              let '(buf, err, source) := ReadFull (rr_source r) (Z.to_nat size) in
              let r := rr_set_source source r in
              let fetched :=
                match range_decrypt r buf err with
                | (r, Some e) => Some (acc, Some e, r)
                | (r, None) => range_loop f r room acc
                end in
              match err with
              | None => fetched
              | Some e =>
                  if decide (e = EOF) then
                    match buf with
                    | [] => Some (range_close r acc)
                    | _ => fetched
                    end
                  else if decide (e = ErrUnexpectedEOF) then fetched
                  else Some (acc, Some e, rr_finish (rr_closed r) (Some e) r)
              end
          end
      end
  end.

(** Each turn fills the buffer or moves to the next record. *)
Definition range_fuel (r : rangeReader) (n : nat) : nat :=
  (2 + n + Z.to_nat (rr_endChunk r + 1 - rr_index r))%nat.

Definition range_Read (r : rangeReader) (n : nat) : option (list byte * option error * rangeReader) :=
  if rr_closed r then Some ([], Some EOF, r)
  else match rr_err r with
       | Some e => Some ([], Some e, r)
       | None => range_loop (range_fuel r n) r n []
       end.

(** ** What a range read owes *)

(** Inclusive slice. *)
Definition slice {A} (l : list A) (s e : Z) : list A :=
  take (Z.to_nat (e - s + 1)) (drop (Z.to_nat s) l).

(** The part of chunk [i] that the range [a..b] with offsets [so], [eo] keeps. *)
Definition keep (a b so eo i : Z) (c : list byte) : list byte :=
  let c := if i =? a then drop (Z.to_nat so) c else c in
  if (i =? b) && (eo <? len c) then take (Z.to_nat (eo + 1)) c else c.

Fixpoint kept (a b so eo i : Z) (chs : list (list byte)) : list byte :=
  match chs with
  | [] => []
  | c :: chs => keep a b so eo i c ++ kept a b so eo (i + 1) chs
  end.

(** The reader has no use for the terminal key. *)
Definition no_terminal (P : ChunkedParams) : ChunkedParams :=
  mkParams (cp_aead P) None (cp_baseIV P) (cp_chunkSize P) (cp_version P) (cp_ivDerivation P)
    (cp_object P) (cp_bindingID P) (cp_boundV2 P).

Section reader.
Context `{!HKDFLaws}.
Context (P : ChunkedParams) (HP : params_ok P) (HV2 : cp_version P = ChunkedFormatV2) (Hbound : cp_boundV2 P = true).
Context (size n s e a b so eo : Z) (extra : list byte) (fin : error) (opt : bool).

(** The chunk at [i] has the size the reader expects. *)
Definition chunk_fits (i : Z) (c : list byte) : Prop :=
  0 ≤ i < n ∧ i * cp_chunkSize P + len c ≤ size ∧ size ≤ MaxInt64 ∧ n ≤ MaxInt64 ∧
  (i = n - 1 → len c = size - i * cp_chunkSize P) ∧ 0 < len c ≤ cp_chunkSize P ∧
  (i ≠ n - 1 → len c = cp_chunkSize P) ∧ (i = a → 0 ≤ so < len c).

(** The reader before record [i], with [chs] the chunks that are left. *)
Definition at_record (cur : list byte) (i k R : Z) (chs : list (list byte)) : rangeReader :=
  mkRange (no_terminal P) n (mkSource (seal_chunks P i chs ++ extra) fin) s e a b so eo cur i k R false None opt size.

Definition fits_from (i : Z) (chs : list (list byte)) : Prop :=
  i + len chs = b + 1 ∧ ∀ k c, chs !! k = Some c → chunk_fits (i + Z.of_nat k) c.

Lemma fits_from_cons i c chs :
  fits_from i (c :: chs) → chunk_fits i c ∧ fits_from (i + 1) chs.
Proof.
  intros [Hl Hk]. split; [specialize (Hk 0%nat c eq_refl); by rewrite Z.add_0_r in Hk|].
  split; [cbn in Hl; lia|]. intros k c' Hc'. specialize (Hk (S k) c' Hc').
  by replace (i + 1 + Z.of_nat k) with (i + Z.of_nat (S k)) by lia.
Qed.

Lemma expectedRecordSize_at cur i k R chs c :
  chunk_fits i c → expectedRecordSize (at_record cur i k R chs) = Ok (len c + 16).
Proof using HP HV2 Hbound.
  intros (Hi & Hsz & Hm & Hnm & Hlast & Hc & Hfull & _). destruct (unitSize_eq P HP) as [_ HU].
  unfold expectedRecordSize, at_record.
  cbn [rr_params rr_index rr_count rr_plaintextSize no_terminal cp_chunkSize cp_version cp_boundV2].
  rewrite HV2, Hbound. cbn [Z.eqb Pos.eqb ChunkedFormatV2 andb orb].
  unfold tagSize, MaxInt64 in *. rewrite (wrap_u64_id (n - 1)) by lia.
  rewrite (wrap_i64_id (cp_chunkSize P + 16)) by lia.
  destruct (Z.eqb_spec i (n - 1)) as [El|El]; [|by rewrite Hfull by done].
  specialize (Hlast El). rewrite (proj2 (Z.ltb_ge size 0)) by nia. cbn [andb].
  rewrite (proj2 (Z.leb_gt (cp_chunkSize P) 0)) by lia. cbn [orb].
  rewrite Z.quot_div_nonneg by lia.
  rewrite (proj2 (Z.ltb_ge (9223372036854775807 / cp_chunkSize P) i)) by (apply Z.div_le_lower_bound; nia).
  rewrite (wrap_i64_id i), (wrap_i64_id (i * _)), (wrap_i64_id (size - _)) by nia.
  rewrite <-Hlast. rewrite (proj2 (Z.ltb_lt 0 (len c))) by lia. cbn [andb].
  destruct (Z.ltb_spec (len c) (cp_chunkSize P)); [|f_equal; lia].
  by rewrite wrap_i64_id by lia.
Qed.

Lemma trimChunk_at i k R chs c src :
  chunk_fits i c → trimChunk (rr_set_source src (at_record [] i k R chs)) c = Ok (keep a b so eo i c).
Proof using.
  intros (_ & _ & _ & _ & _ & _ & _ & Hso). unfold trimChunk, keep, at_record, rr_set_source.
  cbn [rr_index rr_startChunk rr_startOffset rr_endChunk rr_endOffset].
  destruct (Z.eqb_spec i a); cbn [mbind result_bind]; [|done].
  by rewrite (proj2 (Z.leb_gt _ _)) by lia.
Qed.

(** The turn that fetches record [i]. *)
Lemma range_decrypt_at i k R chs c err :
  chunk_fits i c → 0 ≤ k < MaxInt64 →
  range_decrypt (rr_set_source (mkSource (seal_chunks P (i + 1) chs ++ extra) fin)
                   (at_record [] i k R (c :: chs))) (sealed_record P i c) err =
    (at_record (keep a b so eo i c) (i + 1) (k + 1) R chs, None).
Proof using All.
  intros Hc Hk. unfold range_decrypt. cbn [rr_params rr_index rr_set_source at_record].
  unfold deriveChunkIV, rangeAAD.
  cbn [no_terminal cp_aead cp_baseIV cp_version cp_ivDerivation cp_object cp_bindingID cp_boundV2]. rewrite HV2, Hbound. cbn [Z.eqb Pos.eqb ChunkedFormatV2].
  destruct (data_args_v2_Ok P i HP HV2) as (nonce & ad & Hargs & Hnl).
  assert (Hrec : sealed_record P i c = Seal (cp_aead P) nonce c ad)
    by (unfold sealed_record, enc_data_args; rewrite HV2; cbn [Z.eqb Pos.eqb ChunkedFormatV2]; by rewrite Hargs).
  unfold data_args_v2 in Hargs. rewrite Hbound in Hargs. apply bind_Ok in Hargs as (ad' & Had & Heq).
  injection Heq as Hnonce ->. rewrite HV2 in Hnonce. rewrite Had.
  destruct (readHKDFNonce_Ok (cp_baseIV P)
    (bytes_of_string "chunked-v2/data-nonce" ++ [x00] ++ be_encode 8 i)) as (nn & Hnn & _).
  unfold deriveChunkNonceHKDF in *. cbn [Z.eqb Pos.eqb ChunkedFormatV2 negb] in *.
  rewrite Hnn in *. cbn [or_nil] in Hnonce. subst nn.
  pose proof (po_aead P HP). rewrite Hrec, aead_open_seal by done.
  pose proof (trimChunk_at i k R (c :: chs) c (mkSource (seal_chunks P (i + 1) chs ++ extra) fin) Hc) as Ht.
  unfold at_record, rr_set_source in Ht. cbn in Ht. unfold rr_set_source, at_record. cbn -[trimChunk seal_chunks].
  cbn -[trimChunk seal_chunks] in Ht. rewrite Ht. unfold rr_next. cbn -[seal_chunks].
  destruct Hc as (Hi & _ & _ & Hn & _). unfold MaxInt64 in *. unfold at_record. by nowrap.
Qed.

Definition range_inv (r : rangeReader) (O : list byte) : Prop :=
  ∃ cur i k R chs, r = at_record cur i k R chs ∧ fits_from i chs ∧ 0 ≤ k ∧ k + len chs < MaxInt64 ∧
    0 ≤ R < e - s + 1 ∧ e - s + 1 - R ≤ len (cur ++ kept a b so eo i chs) ∧
    O = take (Z.to_nat (e - s + 1 - R)) (cur ++ kept a b so eo i chs).

Context (Hse : 0 ≤ s ≤ e) (HeM : e < MaxInt64).

Lemma rangeLength_at cur i k R chs : rangeLength (at_record cur i k R chs) = e - s + 1.
Proof using Hse HeM.
  unfold rangeLength, at_record. cbn [rr_plaintextEnd rr_plaintextStart].
  unfold MaxInt64 in *. rewrite (wrap_i64_id (e - s)) by lia. by rewrite wrap_i64_id by lia.
Qed.

(** One [Read]: a full buffer of what is owed, or all of it with [EOF]. *)
Lemma range_loop_spec fuel r O room acc :
  range_inv r O → (room + Z.to_nat (rr_endChunk r + 1 - rr_index r) < fuel)%nat →
  ∃ r', range_loop fuel r room acc =
      Some (acc ++ take room O, if decide (length O ≤ room)%nat then Some EOF else None, r') ∧
    ((length O ≤ room)%nat ∨ range_inv r' (drop room O)).
Proof using All.
  revert r O room acc. induction fuel as [|f IH]; intros r O room acc Hinv Hf; [lia|].
  pose proof Hinv as (cur & i & k & R & chs & -> & Hfit & Hk & Hkb & HR & HK & HO).
  change (room + Z.to_nat (b + 1 - i) < S f)%nat in Hf.
  assert (HlO : len O = e - s + 1 - R) by (rewrite HO, length_take; lia).
  cbn [range_loop]. destruct (decide (room = 0)%nat) as [->|Hroom].
  { eexists. rewrite take_0, app_nil_r, decide_False by lia. split; [done|]. right. by rewrite drop_0. }
  rewrite !rangeLength_at.
  rewrite (proj2 (Z.leb_gt (e - s + 1) _)) by (cbn [at_record rr_returned]; lia).
  destruct cur as [|x cur]; cbn [at_record rr_current].
  - destruct chs as [|c chs]; [cbn in HK; lia|].
    destruct (fits_from_cons i c chs Hfit) as [Hc Hfit']. destruct Hfit as [Hlen _]. cbn [length] in *.
    rewrite (proj2 (Z.ltb_ge _ _)) by (cbn; lia).
    change (mkRange _ n _ s e a b so eo [] i k R false None opt size) with (at_record [] i k R (c :: chs)) in *.
    rewrite (expectedRecordSize_at _ _ _ _ _ c) by done. cbn [rr_source at_record seal_chunks].
    pose proof (length_sealed_record_v2 P HP HV2 i c) as Hrl.
    assert (HZ : Z.to_nat (len c + 16) = length (sealed_record P i c)) by lia.
    rewrite ReadFull_enough by (cbn [src_data]; rewrite !length_app; lia). cbn [src_data src_end].
    rewrite <-(assoc_L (++)), HZ, take_app_length, drop_app_length.
    pose proof (range_decrypt_at i k R chs c None Hc ltac:(lia)) as Hd.
    match goal with |- context [range_decrypt ?x ?y ?z] =>
      replace (range_decrypt x y z) with (at_record (keep a b so eo i c) (i + 1) (k + 1) R chs, @None error)
        by (symmetry; exact Hd) end.
    apply IH.
    + exists (keep a b so eo i c), (i + 1), (k + 1), R, chs. split_and!; try done; lia.
    + cbn [rr_endChunk rr_index at_record]. lia.
  - change (mkRange _ n _ s e a b so eo (x :: cur) i k R false None opt size) with (at_record (x :: cur) i k R chs) in *.
    cbn [rr_returned at_record]. set (M := e - s + 1) in *.
    unfold MaxInt64 in *. rewrite (wrap_i64_id (M - R)) by lia.
    set (m := Nat.min (Nat.min (length (x :: cur)) (Z.to_nat (M - R))) room).
    assert (Hm : (1 ≤ m ≤ room)%nat ∧ (m ≤ Z.to_nat (M - R))%nat ∧ (m ≤ length (x :: cur))%nat)
      by (subst m; cbn [length]; lia).
    rewrite (wrap_i64_id (R + Z.of_nat m)) by lia.
    change (rr_set_current (drop m (x :: cur)) (R + Z.of_nat m) _)
      with (at_record (drop m (x :: cur)) i k (R + Z.of_nat m) chs).
    rewrite rangeLength_at. fold M. cbn [rr_returned at_record].
    assert (Htm : take m (x :: cur) = take m O).
    { rewrite HO, take_take, Nat.min_l, take_app_le by lia. done. }
    rewrite Htm. destruct (Z.leb_spec M (R + Z.of_nat m)).
    + assert (m = length O) by lia. rewrite decide_True by lia. eexists. split; [|left; lia].
      rewrite !(take_ge O) by lia. done.
    + change (mkRange _ n _ s e a b so eo _ i k _ false None opt size)
        with (at_record (drop m (x :: cur)) i k (R + Z.of_nat m) chs).
      assert (HdO : drop m O = take (Z.to_nat (M - (R + Z.of_nat m))) (drop m (x :: cur) ++ kept a b so eo i chs)).
      { rewrite HO, skipn_firstn_comm, drop_app_le by lia. f_equal. lia. }
      destruct (IH (at_record (drop m (x :: cur)) i k (R + Z.of_nat m) chs) (drop m O) (room - m)%nat (acc ++ take m O))
        as (r' & Hl & Hr').
      { exists (drop m (x :: cur)), i, k, (R + Z.of_nat m), chs. split_and!; try done; try lia.
        rewrite length_app, ?length_drop in *. fold M. lia. }
      { cbn [rr_endChunk rr_index at_record]. lia. }
      exists r'. rewrite Hl. rewrite length_drop in *. split.
      * rewrite <-(assoc_L (++)). replace (take m O ++ take (room - m) (drop m O)) with (take room O).
        { f_equal. destruct (decide (length O ≤ room)%nat); [by rewrite decide_True by lia|by rewrite decide_False by lia]. }
        rewrite <-(take_drop m (take room O)), take_take, Nat.min_l, skipn_firstn_comm by lia. done.
      * destruct Hr' as [?|Hr']; [left; lia|right]. rewrite drop_drop in Hr'.
        by replace (m + (room - m))%nat with room in Hr' by lia.
Qed.
End reader.

(** ** The chunks of a range *)

Section cover.
Context (cs : nat) (Hcs : (0 < cs)%nat).

(** After the first chunk only the end is trimmed. *)
Lemma kept_tail a b so eo i X :
  a < i → X ≠ [] → i + len (chunks_of cs X) = b + 1 → 0 ≤ eo < Z.of_nat cs →
  kept a b so eo i (chunks_of cs X) = take (Z.to_nat ((b - i) * Z.of_nat cs + eo + 1)) X.
Proof using Hcs.
  intros Ha HX Hi Heo. revert i Ha HX Hi.
  induction X as [|X HX IH] using (chunks_ind cs Hcs); intros i Ha HX' Hi; [done|].
  rewrite chunks_of_step in * by done. cbn [kept length] in *.
  unfold keep. rewrite (proj2 (Z.eqb_neq i a)) by lia.
  destruct (decide (drop cs X = [])) as [Hd|Hd].
  - rewrite Hd in *. cbn [chunks_of chunks_fuel length kept] in *. rewrite app_nil_r.
    assert (i = b) as -> by lia. rewrite Z.eqb_refl. cbn [andb].
    replace (Z.to_nat ((b - b) * Z.of_nat cs + eo + 1)) with (Z.to_nat (eo + 1)) by lia.
    destruct (Z.ltb_spec eo (len (take cs X))) as [Hlt|Hge].
    + rewrite take_take, Nat.min_l by lia. done.
    + rewrite length_take in Hge. rewrite !take_ge by lia. done.
  - assert (0 < len (chunks_of cs (drop cs X))) by (rewrite chunks_of_step by done; cbn; lia).
    rewrite (proj2 (Z.eqb_neq i b)) by lia. cbn [andb]. rewrite IH by (done || lia).
    rewrite <-take_add_drop. f_equal. nia.
Qed.

(** The kept parts of the chunks that cover a range start with the range. *)
Lemma kept_cover a b so eo X :
  X ≠ [] → a + len (chunks_of cs X) = b + 1 → 0 ≤ so < Z.of_nat cs → 0 ≤ eo < Z.of_nat cs →
  so ≤ (b - a) * Z.of_nat cs + eo → (b - a) * Z.of_nat cs + eo < len X →
  let L := (b - a) * Z.of_nat cs + eo - so + 1 in
  take (Z.to_nat L) (kept a b so eo a (chunks_of cs X)) = take (Z.to_nat L) (drop (Z.to_nat so) X) ∧
  L ≤ len (kept a b so eo a (chunks_of cs X)).
Proof using Hcs.
  intros HX Hi Hso Heo Hle HlX L. rewrite chunks_of_step in * by done. cbn [kept length] in *.
  unfold keep. rewrite Z.eqb_refl. destruct (decide (drop cs X = [])) as [Hd|Hd].
  - rewrite Hd in *. cbn [chunks_of chunks_fuel length kept] in *. rewrite app_nil_r.
    assert (a = b) as -> by lia. rewrite Z.eqb_refl. cbn [andb].
    apply (f_equal length) in Hd. rewrite length_drop in Hd. cbn in Hd. rewrite (take_ge X cs) by lia.
    destruct (Z.ltb_spec eo (len (drop (Z.to_nat so) X))) as [Hlt|Hge].
    + rewrite take_take, Nat.min_l, length_take, length_drop in * by lia. split; [done|lia].
    + rewrite length_drop in *. split; [done|lia].
  - assert (0 < len (chunks_of cs (drop cs X))) by (rewrite chunks_of_step by done; cbn; lia).
    assert (HcsX : (cs < length X)%nat).
    { destruct (decide (cs < length X)%nat); [done|]. rewrite drop_ge in Hd by lia. done. }
    rewrite (proj2 (Z.eqb_neq a b)) by lia. cbn [andb]. rewrite kept_tail by (done || lia).
    replace (drop (Z.to_nat so) (take cs X)) with (take (cs - Z.to_nat so) (drop (Z.to_nat so) X))
      by (by rewrite skipn_firstn_comm).
    replace (drop cs X) with (drop (cs - Z.to_nat so) (drop (Z.to_nat so) X)) by (rewrite drop_drop; f_equal; lia).
    rewrite <-take_add_drop.
    replace ((cs - Z.to_nat so) + Z.to_nat ((b - (a + 1)) * Z.of_nat cs + eo + 1))%nat with (Z.to_nat L) by nia.
    rewrite take_take, Nat.min_id, length_take, length_drop. split; [done|lia].
Qed.
End cover.

Context `{!HKDFLaws}.

(** ** The range reader as a stream *)

(** A reader positioned inside a range of a version 2 object, or closed. *)
Definition range_rem (r : rangeReader) (O : list byte) (x : error) : Prop :=
  x = EOF ∧ ((rr_closed r = true ∧ O = []) ∨
    ∃ P size n s e a b so eo extra fin opt,
      (params_ok P ∧ cp_version P = ChunkedFormatV2 ∧ cp_boundV2 P = true) ∧ (0 ≤ s ≤ e ∧ e < MaxInt64) ∧
      range_inv P size n s e a b so eo extra fin opt r O).

#[global] Program Instance range_stream : StreamReader rangeReader := {|
  sr_read := range_Read; sr_rem := range_rem |}.
Next Obligation.
  intros r O x m [-> [[Hc ->]|(P & size & n & s & e & a & b & so & eo & extra & fin & opt &
    (HP & HV & HB) & (Hse & He) & Hinv)]] Hm; unfold range_Read.
  - rewrite Hc. exists [], (Some EOF), r. split_and!; [done|cbn; lia|by right].
  - pose proof Hinv as (cur & i & k & R & chs & -> & _ & _ & _ & HR & HK & HO).
    set (r := at_record P size n s e a b so eo extra fin opt cur i k R chs) in *.
    change (rr_closed r) with false. change (rr_err r) with (@None error). cbn iota.
    destruct (range_loop_spec P HP HV HB size n s e a b so eo extra fin opt Hse He
      (range_fuel r m) r O m [] Hinv) as (r' & -> & Hr'); [unfold range_fuel; lia|]. cbn [app].
    assert (HlO : len O = e - s + 1 - R) by (rewrite HO, length_take; lia).
    eexists _, _, _. split; [done|]. rewrite length_take. split; [lia|].
    case_decide as Hd; [right; split; [done|by apply take_ge]|left].
    split_and!; [done|intros E%(f_equal length); rewrite length_take in E; cbn in E; lia|].
    exists (drop m O). rewrite take_drop. split; [done|]. split; [done|]. right.
    destruct Hr' as [?|Hr']; [lia|]. exists P, size, n, s, e, a, b, so, eo, extra, fin, opt. done.
Qed.

(** ** Range reads of an object *)

Section object.
Context (P : ChunkedParams) (HP : params_ok P) (HV2 : cp_version P = ChunkedFormatV2).
Context (pt : list byte) (s e : Z) (Hse : 0 ≤ s ≤ e) (He : e < len pt).
Context (Hfit : ctsize (len pt) (cp_chunkSize P) ChunkedFormatV2 + MaxChunkSize ≤ MaxInt64).

Abbreviation cs := (cp_chunkSize P).
Abbreviation a := (s / cs).
Abbreviation b := (e / cs).
Abbreviation n := (nchunks (len pt) cs).

(** The chunk-aligned part of the plaintext that covers the range. *)
Definition covering : list byte :=
  take (Z.to_nat (b + 1 - a) * Z.to_nat cs) (drop (Z.to_nat a * Z.to_nat cs) pt).

Lemma range_facts :
  0 < cs ≤ 1048576 ∧ 0 ≤ a ≤ b ∧ b < n ∧ a * cs ≤ s ∧ b * cs ≤ e < (b + 1) * cs ∧ s < (a + 1) * cs ∧
  (n - 1) * cs < len pt ≤ n * cs ∧ n ≤ len pt ∧ len pt + 16 * n + 32 + 1048576 ≤ MaxInt64.
Proof using All.
  pose proof (po_size P HP) as Hs. unfold valid_chunk_size, MinChunkSize, MaxChunkSize in Hs.
  assert (Hcs : 0 < cs) by lia.
  pose proof (proj1 (nchunks_iff (len pt) cs n Hcs) eq_refl) as Hn.
  pose proof (nchunks_bounds (len pt) cs Hcs ltac:(lia)) as Hnb.
  pose proof (Z.div_mod s cs ltac:(lia)). pose proof (Z.mod_pos_bound s cs Hcs).
  pose proof (Z.div_mod e cs ltac:(lia)). pose proof (Z.mod_pos_bound e cs Hcs).
  unfold ctsize, trailer, tagSize, ChunkedTerminalSize, MaxChunkSize in Hfit. cbn -[nchunks Z.mul] in Hfit.
  assert (0 ≤ a) by (apply Z.div_pos; lia). assert (a ≤ b) by (apply Z.div_le_mono; lia).
  split_and!; try nia.
Qed.

Lemma to_nat_mul x y : 0 ≤ x → 0 ≤ y → (Z.to_nat x * Z.to_nat y)%nat = Z.to_nat (x * y).
Proof using. intros. by rewrite Z2Nat.inj_mul. Qed.

Lemma length_covering : len covering = Z.min ((b + 1 - a) * cs) (len pt - a * cs).
Proof using All.
  pose proof range_facts as (? & ? & ? & ? & ? & ? & ? & ? & ?).
  unfold covering. rewrite length_take, length_drop, !to_nat_mul by lia.
  assert (0 ≤ (b + 1 - a) * cs) by (apply Z.mul_nonneg_nonneg; lia). lia.
Qed.

Lemma count_covering : a + len (plain_chunks P covering) = b + 1.
Proof using All.
  pose proof range_facts as (? & ? & ? & ? & ? & ? & ? & ? & ?). pose proof length_covering as Hl.
  unfold plain_chunks. rewrite length_chunks_of by lia. rewrite Z2Nat.id by lia.
  enough (nchunks (len covering) cs = b + 1 - a) by (unfold nchunks in *; lia).
  apply nchunks_iff; nia.
Qed.

Lemma fits_covering : fits_from P (len pt) n a b (s `mod` cs) a (plain_chunks P covering).
Proof using All.
  pose proof range_facts as (Hcs & Hab & Hbn & Has & Hbe & Hsa & Hn & Hnb & Hmax). pose proof length_covering as Hl.
  split; [apply count_covering|]. intros k c Hk. pose proof (lookup_lt_Some _ _ _ Hk) as Hkl.
  pose proof count_covering as Hcount.
  apply lookup_chunks_of in Hk as [Hlt ->]; [|lia].
  assert (Hlc : len (take (Z.to_nat cs) (drop (k * Z.to_nat cs) covering)) = Z.min cs (len covering - Z.of_nat k * cs)).
  { rewrite length_take, length_drop, Nat2Z.inj_min, Nat2Z.inj_sub, Nat2Z.inj_mul, !Z2Nat.id by lia. done. }
  unfold chunk_fits. rewrite Hlc, Hl. pose proof (Z.mod_pos_bound s cs ltac:(lia)).
  pose proof (Z.div_mod s cs ltac:(lia)). unfold MaxInt64 in *.
  assert (Hka : a + Z.of_nat k ≤ b) by lia.
  assert (HkZ : Z.of_nat k * cs < len covering)
    by (apply Nat2Z.inj_lt in Hlt; rewrite Nat2Z.inj_mul, Z2Nat.id in Hlt by lia; done).
  rewrite Hl in HkZ. clear Hlc Hl Hlt Hkl Hcount Hfit.
  set (x := a) in *. set (y := b) in *. set (m := n) in *. clearbody x y m.
  assert (A1 : 1 * cs ≤ (y + 1 - x - Z.of_nat k) * cs) by (apply Z.mul_le_mono_nonneg_r; lia).
  assert (A2 : x + Z.of_nat k ≠ m - 1 → (x + Z.of_nat k + 1) * cs ≤ (m - 1) * cs)
    by (intros; apply Z.mul_le_mono_nonneg_r; lia).
  assert (A3 : x + Z.of_nat k = m - 1 → m * cs = (x + Z.of_nat k + 1) * cs) by (intros; f_equal; lia).
  assert (A4 : x + Z.of_nat k = x → Z.of_nat k * cs = 0) by (intros; replace (Z.of_nat k) with 0; lia).
  split_and!; intros; lia.
Qed.

(** The ciphertext of the covering chunks, cut out of the object. *)
Lemma drop_object : drop (Z.to_nat a * Z.to_nat (cs + 16)) (sealed_object P pt) =
  seal_chunks P a (plain_chunks P (drop (Z.to_nat a * Z.to_nat cs) pt)) ++
  sealed_terminal P (len (plain_chunks P pt)) (len pt).
Proof using All.
  pose proof range_facts as (Hcs & Hab & Hbn & Has & Hbe & Hsa & Hn & Hnb & Hmax).
  assert (Hcnt : len (plain_chunks P pt) = n).
  { unfold plain_chunks. rewrite length_chunks_of by lia. by rewrite Z2Nat.id by lia. }
  assert (Hmr : 0 + len (plain_chunks P pt) ≤ max_records (cp_version P))
    by (rewrite HV2, Hcnt; cbn; unfold MaxUint64, MaxInt64 in *; lia).
  pose proof (length_seal_chunks_v2 P HP HV2 0 (plain_chunks P pt)) as Hl.
  unfold plain_chunks in Hl at 2. rewrite concat_chunks_of in Hl by lia.
  unfold sealed_object. rewrite drop_app_le by nia. rewrite drop_seal_chunks by (done || lia). f_equal.
  by rewrite Z.add_0_l, Z2Nat.id by lia.
Qed.

Lemma object_range : 
  ChunkedEncryptedDataRangeForPlaintextSize a b (len pt) cs ChunkedFormatV2 =
    Ok (a * (cs + 16), Z.min ((b + 1) * (cs + 16)) (len pt + 16 * n) - 1) ∧
  slice (sealed_object P pt) (a * (cs + 16)) (Z.min ((b + 1) * (cs + 16)) (len pt + 16 * n) - 1) =
    seal_chunks P a (plain_chunks P covering).
Proof using All.
  pose proof range_facts as (Hcs & Hab & Hbn & Has & Hbe & Hsa & Hn & Hnb & Hmax).
  assert (HU : (b + 1) * (cs + 16) ≤ n * (cs + 16)) by (apply Z.mul_le_mono_nonneg_r; lia).
  assert (HaU : a * (cs + 16) ≤ b * (cs + 16)) by (apply Z.mul_le_mono_nonneg_r; lia).
  assert (HaU0 : 0 ≤ a * (cs + 16)) by (apply Z.mul_nonneg_nonneg; lia).
  split.
  - apply ChunkedEncryptedDataRangeForPlaintextSize_Ok; try lia; [apply (po_size P HP)|by right| |];
      unfold MaxChunkSize, tagSize in *; lia.
  - pose proof (length_seal_chunks_v2 P HP HV2 a (plain_chunks P (drop (Z.to_nat a * Z.to_nat cs) pt))) as Hl.
    assert (Hdl : len (drop (Z.to_nat a * Z.to_nat cs) pt) = len pt - a * cs).
    { rewrite length_drop, to_nat_mul by lia. lia. }
    assert (Hcnt : len (plain_chunks P (drop (Z.to_nat a * Z.to_nat cs) pt)) = n - a).
    { unfold plain_chunks. rewrite length_chunks_of, Hdl, Z2Nat.id by lia. fold (nchunks (len pt - a * cs) cs).
      apply nchunks_iff; lia. }
    unfold plain_chunks in Hl at 2. rewrite concat_chunks_of, Hcnt, Hdl in Hl by lia.
    unfold slice. rewrite <-(to_nat_mul a) by lia. rewrite drop_object.
    rewrite take_app_le by lia. unfold covering. rewrite <-(take_seal_chunks P HP).
    + rewrite (to_nat_mul (b + 1 - a)) by lia.
      destruct (Z.min_spec ((b + 1) * (cs + 16)) (len pt + 16 * n)) as [[? ->]|[? ->]].
      * f_equal. lia.
      * rewrite !take_ge by lia. done.
    + lia.
    + rewrite Hcnt, HV2. cbn. unfold MaxUint64, MaxInt64 in *. lia.
Qed.

(** The whole object from record [a] on: the covering records and the rest. *)
Lemma object_tail : ∃ extra,
  drop (Z.to_nat a * Z.to_nat (cs + 16)) (sealed_object P pt) = seal_chunks P a (plain_chunks P covering) ++ extra.
Proof using All.
  destruct object_range as [_ Hs]. pose proof range_facts as (Hcs & Hab & _).
  unfold slice in Hs. rewrite <-(to_nat_mul a) in Hs by lia.
  eexists. rewrite <-Hs. symmetry. apply take_drop.
Qed.

(** The range reader at its first record owes the slice of the plaintext. *)
Lemma range_start extra fin opt :
  cp_boundV2 P = true →
  range_rem (at_record P (len pt) n s e a b (s `mod` cs) (e `mod` cs) extra fin opt [] a 0 0
               (plain_chunks P covering)) (slice pt s e) EOF.
Proof using All.
  intros HB. split; [done|right]. exists P, (len pt), n, s, e, a, b, (s `mod` cs), (e `mod` cs), extra, fin, opt.
  pose proof range_facts as (Hcs & Hab & Hbn & Has & Hbe & Hsa & Hn & Hnb & Hmax).
  pose proof count_covering as Hcnt. pose proof length_covering as Hl.
  pose proof (Z.div_mod s cs ltac:(lia)) as Hs. pose proof (Z.mod_pos_bound s cs ltac:(lia)).
  pose proof (Z.div_mod e cs ltac:(lia)) as Hee. pose proof (Z.mod_pos_bound e cs ltac:(lia)).
  assert (A1 : 1 * cs ≤ (b + 1 - a) * cs) by (apply Z.mul_le_mono_nonneg_r; lia).
  split; [done|]. split; [lia|]. exists [], a, 0, 0, (plain_chunks P covering).
  destruct (kept_cover (Z.to_nat cs) ltac:(lia) a b (s `mod` cs) (e `mod` cs) covering) as [Hk1 Hk2];
    rewrite ?Z2Nat.id in * by lia; [intros E; rewrite E in Hl; cbn in Hl; lia|done|lia..|].
  replace ((b - a) * cs + e `mod` cs - s `mod` cs + 1) with (e - s + 1) in Hk1, Hk2 by lia.
  split_and!; [done|apply fits_covering|lia|unfold MaxInt64 in *; lia|lia|lia|rewrite Z.sub_0_r; exact Hk2|].
  rewrite Z.sub_0_r. cbn [app]. fold (plain_chunks P covering) in Hk1. rewrite Hk1. unfold slice, covering.
  rewrite skipn_firstn_comm, take_take, drop_drop, !to_nat_mul by lia. f_equal; [lia|f_equal; lia].
Qed.
End object.

(** The constructor on a manifest with the chunk count of the object. *)
Lemma newRangeBound_Ok aead baseIV m obj bid (pt : list byte) s e opt source :
  Validate obj = Ok tt → len bid = 16 → mf_Version m = ChunkedFormatV2 → valid_chunk_size (mf_ChunkSize m) →
  mf_ChunkCount m = nchunks (len pt) (mf_ChunkSize m) → 0 ≤ s ≤ e → e < len pt → len pt + 1048592 ≤ MaxInt64 →
  (opt = false → s / mf_ChunkSize m * (mf_ChunkSize m + 16) ≤ MaxInt64) →
  (opt = false → s / mf_ChunkSize m * (mf_ChunkSize m + 16) ≤ len (src_data source)) →
  let cs := mf_ChunkSize m in
  let skip := if opt then 0%nat else (Z.to_nat (s / cs) * Z.to_nat (cs + 16))%nat in
  newRangeDecryptReaderBound source aead (Some m) baseIV s e opt (len pt) obj bid =
    Ok (mkRange (mkParams aead None baseIV cs ChunkedFormatV2 (mf_IVDerivation m) obj bid true)
          (nchunks (len pt) cs) (mkSource (drop skip (src_data source)) (src_end source)) s e (s / cs) (e / cs)
          (s `mod` cs) (e `mod` cs) [] (s / cs) 0 0 false None opt (len pt)).
Proof.
  intros Hv Hb Hm Hcs Hcount Hse He Hmax Hskip Hlen cs skip. unfold newRangeDecryptReaderBound, newRangeDecryptReader.
  rewrite Hv, Hb, Hm. cbn [mbind result_bind Z.eqb Pos.eqb negb andb ChunkedFormatV2 ChunkedFormatV1].
  rewrite (proj2 (validateChunkSize_Ok _)) by done. cbn [mbind result_bind]. rewrite Hcount. fold cs in Hcs, Hcount |- *.
  destruct (calculateChunkRangeFromPlaintext_Ok (len pt) cs s e Hcs ltac:(lia) Hse He) as (-> & Hab & Hbn).
  rewrite (proj2 (Z.leb_gt _ _)), (proj2 (Z.ltb_ge _ _)) by lia. cbn [orb].
  unfold valid_chunk_size, MinChunkSize, MaxChunkSize, tagSize in *.
  rewrite (wrap_i64_id (cs + 16)) by lia.
  destruct opt; cbn [negb andb].
  { cbn [mbind result_bind rr_params rr_count rr_source]. unfold skip. rewrite drop_0. by destruct source. }
  specialize (Hskip eq_refl). specialize (Hlen eq_refl). fold cs in Hskip, Hlen.
  destruct (Z.ltb_spec 0 (s / cs)) as [Ha|Ha]; cycle 1.
  { cbn [mbind result_bind rr_params rr_count rr_source]. unfold skip. replace (s / cs) with 0 by lia.
    rewrite drop_0. by destruct source. }
  rewrite (proj2 (Z.leb_gt (cs + 16) 0)), (wrap_u64_id (cs + 16)), Z.quot_div_nonneg by (unfold MaxInt64; lia).
  rewrite (proj2 (Z.ltb_ge _ (s / cs))) by (apply Z.div_le_lower_bound; lia). cbn [orb].
  assert (0 ≤ s / cs * (cs + 16)) by (apply Z.mul_nonneg_nonneg; lia). unfold MaxInt64 in *.
  rewrite (wrap_u64_id (s / cs * _)), (wrap_i64_id (s / cs * _)) by lia.
  unfold DiscardN. rewrite decide_True by lia. rewrite Z2Nat.id, (proj2 (Z.ltb_ge _ _)) by lia.
  cbn [mbind result_bind rr_params rr_count rr_source]. unfold skip. by rewrite to_nat_mul by lia.
Qed.

(** The writer's manifest with the chunk count filled in. *)
Definition counted_manifest (baseIV : list byte) (cs count : Z) : ChunkManifest :=
  mkManifest ChunkedFormatV2 (clampChunkSize cs) count (encodeBase64 baseIV) [] "hkdf-sha256".

End range.

Section witness.
Import ToyInstances ChunkedWitness.

End witness.
