(* ===== verification/MPUManifest.v ===== *)
(** * The multipart manifest

    [internal/crypto/mpu_manifest.go]: the record of a completed encrypted
    multipart upload and the translation of plaintext offsets into backend
    offsets. Each part is a run of records of [ChunkSize + 16] bytes, the last
    one possibly shorter; the backend object is the concatenation of its
    parts. *)
From Stdlib Require Import Sorting.Sorted.
From S2P Require Import Prelude GoStd Primitives ObjectAAD ChunkLayout.
Local Open Scope Z_scope.
Local Open Scope go_scope.
#[local] Arguments Validate : simpl never.

Definition mpuManifestVersion : Z := 2.
Definition mpuInlineLimit : Z := 1800.
Definition mpuAEADTagSize : Z := 16.

Record MPUPartRecord := mkPart {
  PartNumber : Z; pr_ETag : string; PlainLen : Z; EncLen : Z; ChunkCount : Z }.

Record MultipartManifest := mkMPUManifest {
  mm_Version : Z;
  mm_ParentBucket : string; mm_ParentKey : string;
  mm_CompanionBucket : string; mm_CompanionKey : string;
  mm_BindingID : string;
  mm_Algorithm : string;
  mm_ChunkSize : Z;
  mm_IVPrefix : string; mm_UploadIDHash : string;
  mm_WrappedDEK : string; mm_KMSKeyID : string; mm_KMSProvider : string; mm_KMSKeyVersion : Z;
  mm_Parts : list MPUPartRecord;
  mm_OriginalETag : string;
  mm_TotalPlainSize : Z }.

(** ** Layout validation *)

(** The checks on one part, with the running totals: the new part number and
    totals, or [Err]. *)
Definition validatePart (chunkSize previous totalPlain totalEnc : Z) (part : MPUPartRecord)
    : result (Z * Z * Z) :=
  if (PartNumber part <=? previous) || (10000 <? PartNumber part) || (PlainLen part <? 0) ||
     (EncLen part <? 0) || (ChunkCount part <? 0)
  then Err (Errorf "mpu_manifest: invalid part layout")
  else
    let count := PlainLen part /i chunkSize in
    let count := if negb (PlainLen part %i chunkSize =? 0) then count +i 1 else count in
    if (MaxInt32 <? count) || negb (count =? ChunkCount part) ||
       ((MaxInt64 -i PlainLen part) /i mpuAEADTagSize <? count)
    then Err (Errorf "mpu_manifest: invalid chunk count or ciphertext size")
    else if negb (EncLen part =? PlainLen part +i (count *i mpuAEADTagSize)) ||
            (MaxInt64 -i totalPlain <? PlainLen part) || (MaxInt64 -i totalEnc <? EncLen part)
    then Err (Errorf "mpu_manifest: inconsistent or overflowing part sizes")
    else Ok (PartNumber part, totalPlain +i PlainLen part, totalEnc +i EncLen part).

Fixpoint validateParts (chunkSize previous totalPlain totalEnc : Z) (parts : list MPUPartRecord) : result Z :=
  match parts with
  | [] => Ok totalPlain
  | part :: parts =>
      '(previous, totalPlain, totalEnc) ← validatePart chunkSize previous totalPlain totalEnc part;
      validateParts chunkSize previous totalPlain totalEnc parts
  end.

(** [validateLayout] on a non-nil manifest. *)
Definition validateLayout (m : MultipartManifest) : result unit :=
  if (mm_TotalPlainSize m <? 0) || (10000 <? len (mm_Parts m))
  then Err (Errorf "mpu_manifest: invalid total size or part count")
  else if bool_decide (mm_Parts m = []) && (mm_TotalPlainSize m =? 0) then Ok tt
  else if (mm_ChunkSize m <=? 0) || (MaxChunkSize <? mm_ChunkSize m)
  then Err (Errorf "mpu_manifest: invalid chunk size %d")
  else
    totalPlain ← validateParts (mm_ChunkSize m) 0 0 0 (mm_Parts m);
    if negb (totalPlain =? mm_TotalPlainSize m)
    then Err (Errorf "mpu_manifest: total plaintext size does not match parts") else Ok tt.

(** [ValidateFor]. *)
Definition ValidateFor (m : MultipartManifest) (parent companion : ObjectContext) (bindingID : list byte)
    : result unit :=
  _ ← validateLayout m;
  _ ← Validate parent;
  _ ← Validate companion;
  if mm_Version m =? 1 then Ok tt
  else if negb (mm_Version m =? mpuManifestVersion) then Err (Errorf "mpu_manifest: unsupported version %d")
  else if negb (bool_decide (mm_ParentBucket m = Bucket parent)) || negb (bool_decide (mm_ParentKey m = Key parent)) ||
          negb (bool_decide (mm_CompanionBucket m = Bucket companion)) ||
          negb (bool_decide (mm_CompanionKey m = Key companion))
  then Err (Errorf "mpu_manifest: object relationship mismatch")
  else match DecodeString url_alphabet false (mm_BindingID m) with
       | Some b => if negb (len b =? 16) || negb (bool_decide (b = bindingID))
                   then Err (Errorf "mpu_manifest: binding mismatch") else Ok tt
       | None => Err (Errorf "mpu_manifest: binding mismatch")
       end.

(** ** Serialisation; the JSON encoder is a parameter *)

Class MPUManifestJSON := {
  json_marshal_mpu : MultipartManifest → list byte;
  json_unmarshal_mpu : list byte → option MultipartManifest }.

Section json.
Context `{MPUManifestJSON}.

Definition Marshal (m : MultipartManifest) : result (list byte) :=
  _ ← validateLayout m; Ok (json_marshal_mpu m).

Definition MarshalBase64 (m : MultipartManifest) : result string :=
  b ← Marshal m; Ok (EncodeToString url_alphabet true b).

Definition FitsInline (m : MultipartManifest) (limit : Z) : bool :=
  match Marshal m with Ok b => len b <=? limit | Err _ => false end.

Definition FitsInlineDefault (m : MultipartManifest) : bool := FitsInline m mpuInlineLimit.

Definition UnmarshalMultipartManifest (data : list byte) : result MultipartManifest :=
  match json_unmarshal_mpu data with
  | None => Err (Errorf "mpu_manifest: unmarshal: %w")
  | Some m =>
      if negb (mm_Version m =? 1) && negb (mm_Version m =? mpuManifestVersion)
      then Err (Errorf "mpu_manifest: unsupported version %d (want %d)")
      else _ ← validateLayout m; Ok m
  end.

Definition UnmarshalMultipartManifestBase64 (s : string) : result MultipartManifest :=
  match DecodeString url_alphabet true s with
  | None => Err (Errorf "mpu_manifest: base64 decode: %w")
  | Some b => UnmarshalMultipartManifest b
  end.
End json.

(** ** Offsets *)

Fixpoint locate (chunkSize offset : Z) (i cumPlain : Z) (parts : list MPUPartRecord) : result (Z * Z * Z) :=
  match parts with
  | [] => Err (Errorf "mpu_manifest: offset %d beyond total plain size %d")
  | part :: parts =>
      if offset <? cumPlain +i PlainLen part then
        let relOffset := offset -i cumPlain in
        let index := relOffset /i chunkSize in
        if (index <? 0) || (MaxInt32 <? index) then Err (Errorf "mpu_manifest: chunk index overflow")
        else Ok (i, wrap_i32 index, relOffset %i chunkSize)
      else locate chunkSize offset (i + 1) (cumPlain +i PlainLen part) parts
  end.

Definition PlainOffsetToPartChunk (m : MultipartManifest) (offset : Z) : result (Z * Z * Z) :=
  _ ← validateLayout m;
  if (offset <? 0) || (mm_TotalPlainSize m <=? offset)
  then Err (Errorf "mpu_manifest: offset %d out of range [0, %d)")
  else locate (mm_ChunkSize m) offset 0 0 (mm_Parts m).

(** [for i := 0; i < partIdx; i++ { base += m.Parts[i].EncLen }]. *)
Definition encBase (m : MultipartManifest) (partIdx : Z) : Z :=
  foldl (λ base part, base +i EncLen part) 0 (take (Z.to_nat partIdx) (mm_Parts m)).

Definition EncOffsetForPartChunk (m : MultipartManifest) (partIdx chunkIdx : Z) : result Z :=
  _ ← validateLayout m;
  if (partIdx <? 0) || (len (mm_Parts m) <=? partIdx)
  then Err (Errorf "mpu_manifest: part index %d out of range")
  else match mm_Parts m !! Z.to_nat partIdx with
       | None => Err (Errorf "mpu_manifest: part index %d out of range")
       | Some part =>
           if (chunkIdx <? 0) || (ChunkCount part <=? chunkIdx)
           then Err (Errorf "mpu_manifest: chunk index out of range")
           else Ok (encBase m partIdx +i (chunkIdx *i (mm_ChunkSize m +i 16)))
       end.

Record MPURangeResult := mkMPURange {
  EncStart : Z; EncEnd : Z; PartStartIdx : Z; ChunkStart : Z; PartEndIdx : Z; ChunkEnd : Z }.

Definition EncRangeForPlaintextRange (m : MultipartManifest) (pStart pEnd : Z) : result MPURangeResult :=
  _ ← validateLayout m;
  if (pStart <? 0) || (pEnd <? pStart) || (mm_TotalPlainSize m <=? pEnd)
  then Err (Errorf "mpu_manifest: range [%d,%d] out of [0,%d)")
  else
    let encChunkSize := mm_ChunkSize m +i 16 in
    '(partStartIdx, chunkStart, _) ← PlainOffsetToPartChunk m pStart;
    '(partEndIdx, chunkEnd, _) ← PlainOffsetToPartChunk m pEnd;
    let partStartOff := encBase m partStartIdx in
    let partEndOff := encBase m partEndIdx in
    let encStart := partStartOff +i (chunkStart *i encChunkSize) in
    match mm_Parts m !! Z.to_nat partEndIdx with
    | None => Err (Errorf "index out of range")
    | Some part =>
        let encEnd :=
          if chunkEnd =? ChunkCount part - 1 then partEndOff +i EncLen part -i 1
          else partEndOff +i (wrap_i32 (chunkEnd + 1) *i encChunkSize) -i 1 in
        Ok (mkMPURange encStart encEnd partStartIdx chunkStart partEndIdx chunkEnd)
    end.

(** ** What a valid layout means *)

Definition part_ok (cs : Z) (p : MPUPartRecord) : Prop :=
  1 ≤ PartNumber p ≤ 10000 ∧ 0 ≤ PlainLen p ∧ ChunkCount p = nchunks (PlainLen p) cs ∧
  ChunkCount p ≤ MaxInt32 ∧ EncLen p = PlainLen p + 16 * ChunkCount p.

Definition total (f : MPUPartRecord → Z) (parts : list MPUPartRecord) : Z :=
  foldr (λ p acc, f p + acc) 0 parts.

Definition layout_ok (m : MultipartManifest) : Prop :=
  Forall (part_ok (mm_ChunkSize m)) (mm_Parts m) ∧
  mm_TotalPlainSize m = total PlainLen (mm_Parts m) ∧
  total PlainLen (mm_Parts m) ≤ MaxInt64 ∧ total EncLen (mm_Parts m) ≤ MaxInt64 ∧
  (mm_Parts m ≠ [] → 0 < mm_ChunkSize m ≤ MaxChunkSize) ∧
  StronglySorted (λ p q, PartNumber p < PartNumber q) (mm_Parts m).

(** The fields hold values of their Go types. *)
Definition typed_part (p : MPUPartRecord) : Prop :=
  is_i64 (PlainLen p) ∧ is_i64 (EncLen p) ∧
  -2147483648 ≤ ChunkCount p ≤ 2147483647 ∧ -2147483648 ≤ PartNumber p ≤ 2147483647.
Definition typed_manifest (m : MultipartManifest) : Prop :=
  is_i64 (mm_ChunkSize m) ∧ is_i64 (mm_TotalPlainSize m) ∧ Forall typed_part (mm_Parts m).

#[local] Ltac unfold_sizes := unfold is_i64, MaxInt64, MaxInt32, MaxChunkSize, mpuAEADTagSize in *.

Lemma ceil_div_nchunks p cs :
  0 ≤ p → 0 < cs → (if negb (p `mod` cs =? 0) then p / cs + 1 else p / cs) = nchunks p cs.
Proof.
  intros Hp Hcs. pose proof (Z.div_mod p cs ltac:(lia)). pose proof (Z.mod_pos_bound p cs Hcs).
  symmetry. destruct (Z.eqb_spec (p `mod` cs) 0); cbn [negb]; apply nchunks_iff; nia.
Qed.

Lemma validatePart_spec cs prev tp te p r :
  typed_part p → 0 < cs ≤ MaxChunkSize → 0 ≤ tp ≤ MaxInt64 → 0 ≤ te ≤ MaxInt64 → 0 ≤ prev →
  validatePart cs prev tp te p = Ok r ↔
  prev < PartNumber p ∧ part_ok cs p ∧ tp + PlainLen p ≤ MaxInt64 ∧ te + EncLen p ≤ MaxInt64 ∧
  r = (PartNumber p, tp + PlainLen p, te + EncLen p).
Proof.
  intros (Hpl & Hel & Hcc & Hpn) Hcs Htp Hte Hprev. unfold validatePart, part_ok.
  destruct (Z.leb_spec (PartNumber p) prev); [split; [done|lia]|].
  destruct (Z.ltb_spec 10000 (PartNumber p)); [split; [done|lia]|].
  destruct (Z.ltb_spec (PlainLen p) 0); [split; [done|lia]|].
  destruct (Z.ltb_spec (EncLen p) 0); [split; [done|]|].
  { intros (_ & (_ & Hp0 & Hc & _ & He) & _). pose proof (nchunks_bounds (PlainLen p) cs ltac:(lia) Hp0). lia. }
  destruct (Z.ltb_spec (ChunkCount p) 0); [split; [done|]|].
  { intros (_ & (_ & Hp0 & Hc & _ & He) & _). pose proof (nchunks_bounds (PlainLen p) cs ltac:(lia) Hp0). lia. }
  cbn [orb]. rewrite Z.quot_div_nonneg, Z.rem_mod_nonneg by lia.
  pose proof (nchunks_bounds (PlainLen p) cs ltac:(lia) ltac:(lia)) as Hn.
  assert (Hq : 0 ≤ PlainLen p / cs ≤ PlainLen p).
  { split; [apply Z.div_pos; lia|apply Z.div_le_upper_bound; nia]. }
  pose proof (ceil_div_nchunks (PlainLen p) cs ltac:(lia) ltac:(lia)) as Hcd.
  unfold_sizes. rewrite (wrap_i64_id (PlainLen p / cs)) by lia.
  replace (if negb (PlainLen p `mod` cs =? 0) then PlainLen p / cs +i 1 else PlainLen p / cs)
    with (nchunks (PlainLen p) cs).
  2: { rewrite <-Hcd. case_match eqn:Em; [|done]. rewrite wrap_i64_id; [done|].
       rewrite Hcd in *. zbool. lia. }
  set (n := nchunks (PlainLen p) cs) in *.
  destruct (Z.ltb_spec 2147483647 n); [split; [done|lia]|].
  destruct (Z.eqb_spec n (ChunkCount p)) as [Hc|]; [|split; [done|lia]]. cbn [orb negb].
  rewrite (wrap_i64_id (_ - PlainLen p)), Z.quot_div_nonneg by lia.
  assert (Hd : 0 ≤ (9223372036854775807 - PlainLen p) / 16 ≤ 9223372036854775807).
  { split; [apply Z.div_pos; lia|apply Z.div_le_upper_bound; lia]. }
  rewrite (wrap_i64_id (_ / 16)) by lia.
  destruct (Z.ltb_spec ((9223372036854775807 - PlainLen p) / 16) n) as [Hlt|Hge].
  { split; [done|]. intros (_ & (_ & _ & _ & _ & He) & _).
    enough (n ≤ (9223372036854775807 - PlainLen p) / 16) by lia. apply Z.div_le_lower_bound; lia. }
  assert (n * 16 ≤ 9223372036854775807 - PlainLen p).
  { pose proof (Z.mul_div_le (9223372036854775807 - PlainLen p) 16 ltac:(lia)). lia. }
  rewrite (wrap_i64_id (n * 16)), (wrap_i64_id (PlainLen p + n * 16)) by lia.
  rewrite (wrap_i64_id (_ - tp)), (wrap_i64_id (_ - te)) by lia.
  destruct (Z.eqb_spec (EncLen p) (PlainLen p + n * 16)); cbn [negb orb]; [|split; [done|lia]].
  destruct (Z.ltb_spec (9223372036854775807 - tp) (PlainLen p)); [split; [done|lia]|].
  destruct (Z.ltb_spec (9223372036854775807 - te) (EncLen p)); [split; [done|lia]|].
  cbn [orb]. rewrite !wrap_i64_id by lia. split; [intros [= <-]; split_and!; done || lia|by intros (_ & _ & _ & _ & ->)].
Qed.

Lemma validateParts_spec cs parts prev tp te t :
  Forall typed_part parts → 0 < cs ≤ MaxChunkSize → 0 ≤ tp ≤ MaxInt64 → 0 ≤ te ≤ MaxInt64 → 0 ≤ prev →
  validateParts cs prev tp te parts = Ok t ↔
  Forall (part_ok cs) parts ∧ Forall (λ p, prev < PartNumber p) parts ∧
  StronglySorted (λ p q, PartNumber p < PartNumber q) parts ∧
  tp + total PlainLen parts ≤ MaxInt64 ∧ te + total EncLen parts ≤ MaxInt64 ∧ t = tp + total PlainLen parts.
Proof.
  intros Hty Hcs. revert prev tp te. induction Hty as [|p parts Hp Hty IH]; intros prev tp te Htp Hte Hprev; cbn [validateParts total foldr].
  - split; [intros [= <-]|intros (_ & _ & _ & _ & _ & ->)]; [|f_equal; lia].
    split_and!; try constructor; lia.
  - destruct (validatePart cs prev tp te p) as [[[pr' tp'] te']|] eqn:E; cbn [mbind result_bind].
    + apply validatePart_spec in E as (Hpr & Hok & Htp' & Hte' & [= -> -> ->]); [|done..].
      pose proof Hok as (Hpn & Hpl & Hcc & _ & Hel).
      pose proof (nchunks_bounds (PlainLen p) cs ltac:(lia) ltac:(lia)).
      rewrite IH by lia. fold (total PlainLen parts) (total EncLen parts). split.
      * intros (Hf & Hg & Hs & H1 & H2 & ->). split_and!; try lia; try (by constructor).
        constructor; [done|]. eapply Forall_impl; [exact Hg|]. cbn. lia.
      * intros (Hf & Hg & Hs & H1 & H2 & ->). inversion Hf; inversion Hs; subst. split_and!; try done; lia.
    + split; [done|]. intros (Hf & Hg & _ & H1 & H2 & _). exfalso.
      inversion Hf as [|?? Hok Hf']; inversion Hg; subst.
      assert (0 ≤ total PlainLen parts ∧ 0 ≤ total EncLen parts).
      { clear -Hf' Hcs. induction Hf' as [|q qs Hq _ IH]; cbn [total foldr]; [lia|].
        destruct Hq as (_ & ? & Hc & _ & ?). pose proof (nchunks_bounds (PlainLen q) cs ltac:(lia) ltac:(lia)).
        unfold total in IH. lia. }
      fold (total PlainLen parts) (total EncLen parts) in H1, H2.
      assert (validatePart cs prev tp te p = Ok (PartNumber p, tp + PlainLen p, te + EncLen p)).
      { apply validatePart_spec; try done. split_and!; done || lia. }
      congruence.
Qed.

Lemma total_app f ps qs : total f (ps ++ qs) = total f ps + total f qs.
Proof. induction ps as [|p ps IH]; cbn [total foldr app]; [done|]. unfold total in *. lia. Qed.

Lemma total_snoc f ps p : total f (ps ++ [p]) = total f ps + f p.
Proof. rewrite total_app. cbn [total foldr]. lia. Qed.

Lemma total_nonneg cs ps :
  0 < cs → Forall (part_ok cs) ps → 0 ≤ total PlainLen ps ∧ 0 ≤ total EncLen ps.
Proof.
  intros Hcs. induction 1 as [|q qs Hq _ IH]; cbn [total foldr]; [lia|].
  destruct Hq as (_ & ? & Hc & _ & ?). pose proof (nchunks_bounds (PlainLen q) cs ltac:(lia) ltac:(lia)).
  unfold total in IH. lia.
Qed.

(** [validateLayout] accepts exactly the valid layouts. *)
Lemma validateLayout_spec m :
  typed_manifest m → validateLayout m = Ok tt ↔ layout_ok m ∧ len (mm_Parts m) ≤ 10000.
Proof.
  intros (Hcs & Htot & Hty). unfold validateLayout, layout_ok.
  destruct (Z.ltb_spec (mm_TotalPlainSize m) 0) as [Hneg|Hneg]; cbn [orb].
  { split; [done|]. intros [(Hf & Ht & _ & _ & Hc & _) _]. exfalso. rewrite Ht in Hneg.
    destruct (decide (mm_Parts m = [])) as [E|E]; [rewrite E in Hneg; cbn in Hneg; lia|].
    destruct (total_nonneg (mm_ChunkSize m) (mm_Parts m)); [apply Hc, E|done|lia]. }
  destruct (Z.ltb_spec 10000 (len (mm_Parts m))); [split; [done|lia]|].
  case_bool_decide as Hnil; cbn [andb].
  - rewrite Hnil. cbn [total foldr]. destruct (Z.eqb_spec (mm_TotalPlainSize m) 0) as [->|Hz].
    { split; [intros _|done]. split; [|cbn; lia]. split_and!; try done; try constructor; vm_compute; congruence. }
    split; [|intros [(_ & ? & _) _]; lia].
    destruct ((mm_ChunkSize m <=? 0) || (MaxChunkSize <? mm_ChunkSize m)); [done|]. cbn [validateParts mbind result_bind].
    by rewrite (proj2 (Z.eqb_neq 0 _)) by lia.
  - destruct (Z.leb_spec (mm_ChunkSize m) 0) as [Hc|Hc]; cbn [orb].
    { split; [done|]. intros [(_ & _ & _ & _ & Hc' & _) _]. specialize (Hc' Hnil). lia. }
    destruct (Z.ltb_spec MaxChunkSize (mm_ChunkSize m)) as [Hc2|Hc2].
    { split; [done|]. intros [(_ & _ & _ & _ & Hc' & _) _]. specialize (Hc' Hnil). lia. }
    assert (Hs := λ t, validateParts_spec (mm_ChunkSize m) (mm_Parts m) 0 0 0 t Hty ltac:(lia)
      ltac:(unfold MaxInt64; lia) ltac:(unfold MaxInt64; lia) ltac:(lia)). rewrite !Z.add_0_l in Hs.
    destruct (validateParts _ 0 0 0 _) as [t|x]; cbn [mbind result_bind].
    + destruct (proj1 (Hs t) eq_refl) as (Hf & _ & Hss & H1 & H2 & ->).
      destruct (Z.eqb_spec (total PlainLen (mm_Parts m)) (mm_TotalPlainSize m)); cbn [negb].
      * split; [intros _|done]. split_and!; done || lia.
      * split; [done|]. intros [(_ & ? & _) _]. lia.
    + split; [done|]. intros [(Hf & _ & H1 & H2 & _ & Hss) _]. exfalso.
      assert (Err x = Ok (total PlainLen (mm_Parts m))); [|done]. apply Hs. split_and!; try done.
      eapply Forall_impl; [exact Hf|]. intros p (? & _). cbn. lia.
Qed.

Section layout.
Context (m : MultipartManifest) (Hok : layout_ok m).

Lemma chunk_size_bounds p : p ∈ mm_Parts m → 0 < mm_ChunkSize m ≤ MaxChunkSize.
Proof using Hok. destruct Hok as (_ & _ & _ & _ & Hc & _). intros Hp. apply Hc. by intros E; rewrite E in Hp; apply elem_of_nil in Hp. Qed.

(** Where a plaintext offset lies: part [k], chunk [c], offset [o]. *)
Definition located (offset k c o : Z) (p : MPUPartRecord) : Prop :=
  mm_Parts m !! Z.to_nat k = Some p ∧ 0 ≤ k ∧
  offset = total PlainLen (take (Z.to_nat k) (mm_Parts m)) + c * mm_ChunkSize m + o ∧
  0 ≤ o < mm_ChunkSize m ∧ 0 ≤ c < ChunkCount p ∧ c * mm_ChunkSize m + o < PlainLen p.

Lemma locate_spec offset pre post :
  mm_Parts m = pre ++ post →
  total PlainLen pre ≤ offset < total PlainLen (mm_Parts m) →
  ∃ k c o p, locate (mm_ChunkSize m) offset (len pre) (total PlainLen pre) post = Ok (k, c, o) ∧
    located offset k c o p.
Proof using Hok.
  destruct Hok as (Hf & _ & HtP & _ & Hc & _). revert pre. induction post as [|p post IH]; intros pre Heq Hoff.
  { rewrite app_nil_r in Heq. rewrite Heq in Hoff. lia. }
  assert (Hcs : 0 < mm_ChunkSize m ≤ MaxChunkSize) by (apply Hc; rewrite Heq; by destruct pre).
  pose proof Hf as Hf'. rewrite Heq in Hf'. apply Forall_app in Hf' as [Hfpre Hfpost].
  inversion Hfpost as [|?? Hp Hfpost']; subst.
  destruct (total_nonneg (mm_ChunkSize m) pre) as [Hpre0 _]; [lia|done|].
  destruct (total_nonneg (mm_ChunkSize m) post) as [Hpost0 _]; [lia|done|].
  assert (Htot : total PlainLen (mm_Parts m) = total PlainLen pre + (PlainLen p + total PlainLen post))
    by (rewrite Heq, total_app; done).
  destruct Hp as (_ & Hpl & Hcc & Hmax & _). cbn [locate]. unfold_sizes.
  rewrite (wrap_i64_id (_ + PlainLen p)) by lia.
  destruct (Z.ltb_spec offset (total PlainLen pre + PlainLen p)) as [Hlt|Hge].
  - rewrite !(wrap_i64_id (offset - _)) by lia. set (rel := offset - total PlainLen pre).
    rewrite Z.quot_div_nonneg, Z.rem_mod_nonneg by lia.
    pose proof (Z.div_mod rel (mm_ChunkSize m) ltac:(lia)) as Hdm.
    pose proof (Z.mod_pos_bound rel (mm_ChunkSize m) ltac:(lia)) as Hmb.
    pose proof (proj1 (nchunks_iff (PlainLen p) (mm_ChunkSize m) (ChunkCount p) ltac:(lia)) (eq_sym Hcc)) as Hn.
    assert (Hci : 0 ≤ rel / mm_ChunkSize m < ChunkCount p).
    { split; [apply Z.div_pos; lia|apply Z.div_lt_upper_bound; lia]. }
    rewrite (wrap_i64_id (rel / _)) by lia.
    rewrite (proj2 (Z.ltb_ge _ 0)), (proj2 (Z.ltb_ge _ _)) by lia. cbn [orb]. rewrite wrap_i32_id by lia.
    eexists _, _, _, p. split; [done|]. unfold located. rewrite Nat2Z.id. rewrite Heq.
    rewrite list_lookup_middle, take_app_length by done. split_and!; done || lia.
  - replace (len pre + 1) with (len (pre ++ [p])) by (rewrite length_app; cbn; lia).
    replace (total PlainLen pre + PlainLen p) with (total PlainLen (pre ++ [p]))
      by apply total_snoc.
    apply IH; [by rewrite <-(assoc_L (++))|]. rewrite total_snoc. lia.
Qed.

(** Backend bytes before part [k]. *)
Lemma encBase_spec k : encBase m k = total EncLen (take (Z.to_nat k) (mm_Parts m)).
Proof using Hok.
  destruct Hok as (Hf & _ & _ & HtE & Hc & _). unfold encBase.
  destruct (decide (mm_Parts m = [])) as [->|Hne]; [by rewrite take_nil|].
  assert (G : ∀ ps acc, Forall (part_ok (mm_ChunkSize m)) ps → 0 ≤ acc → acc + total EncLen ps ≤ MaxInt64 →
    foldl (λ base part, base +i EncLen part) acc ps = acc + total EncLen ps).
  { induction ps as [|p ps IH]; intros acc Hfp Ha Hb; cbn [foldl]; [cbn; lia|].
    inversion Hfp as [|?? Hp Hfp']; subst. destruct (total_nonneg _ ps (proj1 (Hc Hne)) Hfp') as [_ Hps].
    destruct Hp as (_ & ? & Hcc & _ & He). pose proof (nchunks_bounds (PlainLen p) _ (proj1 (Hc Hne)) ltac:(lia)).
    change (total EncLen (p :: ps)) with (EncLen p + total EncLen ps) in *. unfold_sizes.
    rewrite wrap_i64_id by lia. rewrite IH by (done || lia). lia. }
  assert (Hsplit : total EncLen (mm_Parts m) = total EncLen (take (Z.to_nat k) (mm_Parts m)) + total EncLen (drop (Z.to_nat k) (mm_Parts m)))
    by (by rewrite <-total_app, take_drop).
  destruct (total_nonneg (mm_ChunkSize m) (drop (Z.to_nat k) (mm_Parts m))) as [_ Hd];
    [apply Hc, Hne|by apply Forall_drop|].
  rewrite G; [lia|by apply Forall_take|lia|lia].
Qed.

(** A located chunk lies inside the backend object. *)
Lemma located_enc offset k c o p :
  located offset k c o p →
  let base := total EncLen (take (Z.to_nat k) (mm_Parts m)) in
  0 < mm_ChunkSize m ≤ MaxChunkSize ∧ part_ok (mm_ChunkSize m) p ∧ 0 ≤ base ∧
  base + EncLen p ≤ total EncLen (mm_Parts m) ∧ total EncLen (mm_Parts m) ≤ MaxInt64 ∧
  (c + 1 < ChunkCount p → (c + 1) * (mm_ChunkSize m + 16) < EncLen p) ∧
  c * (mm_ChunkSize m + 16) < EncLen p ∧
  (c = ChunkCount p - 1 → EncLen p ≤ (c + 1) * (mm_ChunkSize m + 16)).
Proof using Hok.
  intros (Hp & Hk & _ & Ho & Hc & Hlt). pose proof (list_elem_of_lookup_2 _ _ _ Hp) as Hin.
  pose proof (chunk_size_bounds p Hin) as Hcs. destruct Hok as (Hf & _ & _ & HtE & _).
  pose proof (proj1 (Forall_forall _ _) Hf p Hin) as Hpok.
  destruct (total_nonneg (mm_ChunkSize m) (take (Z.to_nat k) (mm_Parts m))) as [_ Hb]; [lia|by apply Forall_take|].
  destruct (total_nonneg (mm_ChunkSize m) (drop (S (Z.to_nat k)) (mm_Parts m))) as [_ Hd]; [lia|by apply Forall_drop|].
  assert (Hsplit : total EncLen (mm_Parts m) = total EncLen (take (Z.to_nat k) (mm_Parts m)) +
    (EncLen p + total EncLen (drop (S (Z.to_nat k)) (mm_Parts m)))).
  { rewrite <-(take_drop_middle _ _ _ Hp) at 1. by rewrite total_app. }
  destruct Hpok as (Hpn & Hpl & Hcc & Hmax & He).
  pose proof (proj1 (nchunks_iff (PlainLen p) (mm_ChunkSize m) (ChunkCount p) ltac:(lia)) (eq_sym Hcc)) as Hn.
  cbn zeta. split_and!; try done; try lia; intros; nia.
Qed.

Lemma total_take_mono f (k k' : nat) p :
  Forall (λ q, 0 ≤ f q) (mm_Parts m) → (k < k')%nat → mm_Parts m !! k = Some p →
  total f (take k (mm_Parts m)) + f p ≤ total f (take k' (mm_Parts m)).
Proof using.
  intros Hf Hk Hp. pose proof (lookup_lt_Some _ _ _ Hp).
  assert (Htk : take k' (mm_Parts m) !! k = Some p) by (by rewrite lookup_take_lt).
  rewrite <-(take_drop_middle _ _ _ Htk), take_take, Nat.min_l by lia.
  rewrite total_app. change (total f (p :: ?l)) with (f p + total f l).
  enough (∀ l, Forall (λ q, 0 ≤ f q) l → 0 ≤ total f l) as G by (specialize (G _ (Forall_drop _ (S k) _ (Forall_take _ k' _ Hf))); lia).
  induction 1 as [|q l Hq _ IH]; [done|]. change (total f (q :: l)) with (f q + total f l). lia.
Qed.

(** Offsets and positions are in the same order. *)
Lemma located_mono s e k1 c1 o1 p1 k2 c2 o2 p2 :
  s ≤ e → located s k1 c1 o1 p1 → located e k2 c2 o2 p2 → k1 ≤ k2 ∧ (k1 = k2 → c1 ≤ c2).
Proof using Hok.
  intros Hse (Hp1 & Hk1 & Hs & Ho1 & Hc1 & Hl1) (Hp2 & Hk2 & He & Ho2 & Hc2 & Hl2). split.
  - destruct (decide (k1 ≤ k2)) as [|Hn]; [done|exfalso]. destruct Hok as (Hf & _).
    assert (Hnn : Forall (λ q, 0 ≤ PlainLen q) (mm_Parts m)) by (eapply Forall_impl; [exact Hf|]; by intros q (_ & ? & _)).
    pose proof (total_take_mono PlainLen (Z.to_nat k2) (Z.to_nat k1) p2 Hnn ltac:(lia) Hp2). nia.
  - intros ->. assert (p1 = p2) as <- by congruence. nia.
Qed.

Lemma PlainOffsetToPartChunk_spec offset :
  validateLayout m = Ok tt → 0 ≤ offset < mm_TotalPlainSize m →
  ∃ k c o p, PlainOffsetToPartChunk m offset = Ok (k, c, o) ∧ located offset k c o p.
Proof using Hok.
  intros Hv Hoff. unfold PlainOffsetToPartChunk. rewrite Hv. cbn [mbind result_bind].
  rewrite (proj2 (Z.ltb_ge offset 0)), (proj2 (Z.leb_gt _ offset)) by lia. cbn [orb].
  apply (locate_spec offset [] (mm_Parts m)); [done|].
  destruct Hok as (_ & Ht & _). rewrite <-Ht. change (total PlainLen []) with 0. lia.
Qed.
End layout.

(** Where a plaintext range starts and ends, and the backend bytes it needs. *)
Lemma range_located m s e :
  typed_manifest m → validateLayout m = Ok tt → 0 ≤ s ≤ e → e < mm_TotalPlainSize m →
  ∃ r o1 o2 p1 p2,
    EncRangeForPlaintextRange m s e = Ok r ∧
    PlainOffsetToPartChunk m s = Ok (PartStartIdx r, ChunkStart r, o1) ∧
    PlainOffsetToPartChunk m e = Ok (PartEndIdx r, ChunkEnd r, o2) ∧
    located m s (PartStartIdx r) (ChunkStart r) o1 p1 ∧
    located m e (PartEndIdx r) (ChunkEnd r) o2 p2 ∧
    EncOffsetForPartChunk m (PartStartIdx r) (ChunkStart r) = Ok (EncStart r) ∧
    EncStart r = total EncLen (take (Z.to_nat (PartStartIdx r)) (mm_Parts m)) + ChunkStart r * (mm_ChunkSize m + 16) ∧
    EncEnd r + 1 = total EncLen (take (Z.to_nat (PartEndIdx r)) (mm_Parts m)) +
      Z.min ((ChunkEnd r + 1) * (mm_ChunkSize m + 16)) (EncLen p2) ∧
    0 ≤ EncStart r ≤ EncEnd r ∧ EncEnd r < total EncLen (mm_Parts m).
Proof.
  intros Hty Hv Hse He. pose proof (proj1 (validateLayout_spec m Hty) Hv) as [Hok _].
  destruct (PlainOffsetToPartChunk_spec m Hok s Hv ltac:(lia)) as (k1 & c1 & o1 & p1 & H1 & Hl1).
  destruct (PlainOffsetToPartChunk_spec m Hok e Hv ltac:(lia)) as (k2 & c2 & o2 & p2 & H2 & Hl2).
  destruct (located_mono m Hok s e _ _ _ _ _ _ _ _ ltac:(lia) Hl1 Hl2) as [Hkk Hcc].
  pose proof (located_enc m Hok _ _ _ _ _ Hl1) as (Hcs & Hp1 & Hb1 & Hbe1 & HtE & Hmid1 & Hst1 & _).
  pose proof (located_enc m Hok _ _ _ _ _ Hl2) as (_ & Hp2 & Hb2 & Hbe2 & _ & Hmid2 & Hst2 & Hlast2).
  unfold EncRangeForPlaintextRange. rewrite Hv, H1, H2. cbn [mbind result_bind].
  rewrite (proj2 (Z.ltb_ge s 0)), (proj2 (Z.ltb_ge e s)), (proj2 (Z.leb_gt _ e)) by lia. cbn [orb].
  pose proof Hl2 as (Hlook2 & Hk2 & _ & _ & Hc2 & _). pose proof Hl1 as (Hlook1 & Hk1 & _ & _ & Hc1 & _).
  rewrite Hlook2, !(encBase_spec m Hok).
  set (b1 := total EncLen (take (Z.to_nat k1) (mm_Parts m))) in *.
  set (b2 := total EncLen (take (Z.to_nat k2) (mm_Parts m))) in *.
  assert (Hb12 : k1 < k2 → b1 + EncLen p1 ≤ b2).
  { intros. apply total_take_mono; [|lia|done]. destruct Hok as (Hf & _).
    eapply Forall_impl; [exact Hf|]. intros q (_ & ? & Hc & _ & ?).
    pose proof (nchunks_bounds (PlainLen q) (mm_ChunkSize m) ltac:(lia) ltac:(lia)). cbn. lia. }
  assert (Hend : (if c2 =? ChunkCount p2 - 1 then b2 +i EncLen p2 -i 1
      else b2 +i (wrap_i32 (c2 + 1) *i (mm_ChunkSize m +i 16)) -i 1) =
    b2 + Z.min ((c2 + 1) * (mm_ChunkSize m + 16)) (EncLen p2) - 1).
  { destruct Hp2 as (_ & _ & _ & Hmax2 & _). unfold_sizes.
    rewrite (wrap_i64_id (mm_ChunkSize m + 16)) by lia.
    destruct (Z.eqb_spec c2 (ChunkCount p2 - 1)) as [Hc|Hc].
    - specialize (Hlast2 Hc). rewrite (wrap_i64_id (b2 + _)), wrap_i64_id by lia. lia.
    - specialize (Hmid2 ltac:(lia)). rewrite (wrap_i32_id (c2 + 1)) by lia.
      rewrite (wrap_i64_id ((c2 + 1) * _)) by nia.
      rewrite (wrap_i64_id (b2 + _)), (wrap_i64_id (_ - 1)) by nia. lia. }
  assert (HU : mm_ChunkSize m +i 16 = mm_ChunkSize m + 16) by (unfold_sizes; rewrite wrap_i64_id; lia).
  assert (HS : b1 +i (c1 *i (mm_ChunkSize m +i 16)) = b1 + c1 * (mm_ChunkSize m + 16)).
  { rewrite HU. unfold_sizes. rewrite (wrap_i64_id (c1 * _)) by nia. rewrite wrap_i64_id by nia. done. }
  assert (Hle : b1 + c1 * (mm_ChunkSize m + 16) ≤ b2 + c2 * (mm_ChunkSize m + 16)).
  { destruct (decide (k1 = k2)) as [->|]; [specialize (Hcc eq_refl); fold b1 in b2; nia|nia]. }
  rewrite Hend, HS. exists (mkMPURange (b1 + c1 * (mm_ChunkSize m + 16))
    (b2 + Z.min ((c2 + 1) * (mm_ChunkSize m + 16)) (EncLen p2) - 1) k1 c1 k2 c2), o1, o2, p1, p2.
  cbn [PartStartIdx ChunkStart PartEndIdx ChunkEnd EncStart EncEnd]. split_and!; try done; try (fold b2; lia); try nia.
  unfold EncOffsetForPartChunk. rewrite Hv. cbn [mbind result_bind]. pose proof (lookup_lt_Some _ _ _ Hlook1).
  rewrite (proj2 (Z.ltb_ge k1 0)), (proj2 (Z.leb_gt _ k1)), Hlook1 by lia. cbn [orb].
  rewrite (proj2 (Z.ltb_ge c1 0)), (proj2 (Z.leb_gt _ c1)), (encBase_spec m Hok) by lia. cbn [orb].
  fold b1. by rewrite HS.
Qed.

(** ** Properties *)

(** What the manifest check accepts. On a manifest with fields of their Go
    types, [validateLayout] succeeds exactly when every part has a number in
    1..10000 above its predecessor's, a chunk count that is the ceiling of its
    plaintext length by the chunk size, an encrypted length with one tag per
    chunk, and the totals match and fit an [int64]: no arithmetic of the check
    itself can wrap into accepting anything else. *)
Theorem mpu_layout_exact m :
  typed_manifest m → validateLayout m = Ok tt ↔ layout_ok m ∧ len (mm_Parts m) ≤ 10000.
Proof. apply validateLayout_spec. Qed.

(** Plaintext ranges of multipart objects. On a valid manifest, every
    range [s..e] inside the object is translated into the backend bytes from
    the first byte of the record that holds [s] to the last byte of the record
    that holds [e]: the located part, chunk and in-chunk offset add up to the
    plaintext offset, the backend range is non-empty and inside the object,
    and no byte of a later record is included. *)
Theorem mpu_range_correct m s e :
  typed_manifest m → validateLayout m = Ok tt → 0 ≤ s ≤ e → e < mm_TotalPlainSize m →
  ∃ r o1 o2 p1 p2,
    EncRangeForPlaintextRange m s e = Ok r ∧
    PlainOffsetToPartChunk m s = Ok (PartStartIdx r, ChunkStart r, o1) ∧
    PlainOffsetToPartChunk m e = Ok (PartEndIdx r, ChunkEnd r, o2) ∧
    located m s (PartStartIdx r) (ChunkStart r) o1 p1 ∧
    located m e (PartEndIdx r) (ChunkEnd r) o2 p2 ∧
    EncOffsetForPartChunk m (PartStartIdx r) (ChunkStart r) = Ok (EncStart r) ∧
    EncStart r = total EncLen (take (Z.to_nat (PartStartIdx r)) (mm_Parts m)) + ChunkStart r * (mm_ChunkSize m + 16) ∧
    EncEnd r + 1 = total EncLen (take (Z.to_nat (PartEndIdx r)) (mm_Parts m)) +
      Z.min ((ChunkEnd r + 1) * (mm_ChunkSize m + 16)) (EncLen p2) ∧
    0 ≤ EncStart r ≤ EncEnd r ∧ EncEnd r < total EncLen (mm_Parts m).
Proof. apply range_located. Qed.

(** ** The theorems at concrete inputs *)

Module MPUWitness.
Definition manifest : MultipartManifest :=
  mkMPUManifest 2 "b" "k" "b" "c" "" "AES256-GCM" 10 "" "" "" "" "" 0
    [mkPart 1 "e1" 25 73 3; mkPart 4 "e2" 7 23 1] "" 32.
End MPUWitness.

Section witnesses.
Import MPUWitness.

Lemma manifest_typed : typed_manifest manifest.
Proof.
  split; [vm_compute; split; congruence|]. split; [vm_compute; split; congruence|].
  repeat (apply Forall_cons; split); [..|apply Forall_nil; exact I]; repeat split; vm_compute; congruence.
Qed.

Example range_example :
  EncRangeForPlaintextRange manifest 12 27 = Ok (mkMPURange 26 95 0 1 1 0).
Proof. vm_compute. reflexivity. Qed.

Lemma mpu_layout_exact_witness :
  validateLayout manifest = Ok tt ↔ layout_ok manifest ∧ len (mm_Parts manifest) ≤ 10000.
Proof. apply (mpu_layout_exact manifest). apply manifest_typed. Defined.

Lemma mpu_range_correct_witness :
  ∃ r o1 o2 p1 p2,
    EncRangeForPlaintextRange manifest 12 27 = Ok r ∧
    PlainOffsetToPartChunk manifest 12 = Ok (PartStartIdx r, ChunkStart r, o1) ∧
    PlainOffsetToPartChunk manifest 27 = Ok (PartEndIdx r, ChunkEnd r, o2) ∧
    located manifest 12 (PartStartIdx r) (ChunkStart r) o1 p1 ∧
    located manifest 27 (PartEndIdx r) (ChunkEnd r) o2 p2 ∧
    EncOffsetForPartChunk manifest (PartStartIdx r) (ChunkStart r) = Ok (EncStart r) ∧
    EncStart r = total EncLen (take (Z.to_nat (PartStartIdx r)) (mm_Parts manifest)) + ChunkStart r * (mm_ChunkSize manifest + 16) ∧
    EncEnd r + 1 = total EncLen (take (Z.to_nat (PartEndIdx r)) (mm_Parts manifest)) +
      Z.min ((ChunkEnd r + 1) * (mm_ChunkSize manifest + 16)) (EncLen p2) ∧
    0 ≤ EncStart r ≤ EncEnd r ∧ EncEnd r < total EncLen (mm_Parts manifest).
Proof.
  apply (mpu_range_correct manifest 12 27); [apply manifest_typed|reflexivity|lia|reflexivity].
Defined.
End witnesses.
