(* ===== verification/MPUStream.v ===== *)
(** * Encrypting and decrypting multipart uploads

    [internal/crypto/mpu_iv.go] and [mpu_encrypter.go]: the nonce derivation,
    the encrypting reader of one part ([mpuEncryptReader]), the decrypting
    reader of a whole object ([mpuDecryptReader]) and the in-memory range
    decryption. Buffers from the pools are fresh slices of the right size; the
    zeroing of the key copy on release is modelled. The constructors' context
    argument is not used by the source. *)
From S2P Require Import Prelude GoStd GoIO Primitives ObjectAAD ChunkLayout MPUManifest.
Local Open Scope Z_scope.
Local Open Scope go_scope.
#[local] Arguments bytes_of_string : simpl never.
#[local] Arguments Validate : simpl never.

(** ** State *)

(** The fields both readers share. *)
Record MPUParams := mkMPUParams {
  mp_gcm : AEAD;
  mp_hash : list byte;
  mp_prefix : list byte;
  mp_object : ObjectContext;
  mp_binding : list byte;
  mp_bound : bool }.

Record mpuEncReader := mkMPUEnc {
  me_params : MPUParams;
  me_dek : list byte;
  me_part : Z;
  me_csz : Z;
  me_src : Source;
  me_pending : list byte;
  me_chunkIdx : Z;
  me_srcDone : bool;
  me_remaining : Z;
  me_eof : bool;
  me_err : option error }.

Record mpuDecReader := mkMPUDec {
  md_params : MPUParams;
  md_dek : list byte;
  md_manifest : MultipartManifest;
  md_src : Source;
  md_partIdx : Z;
  md_chunkIdx : Z;
  md_buf : list byte;
  md_done : bool;
  md_err : option error }.

Definition me_set_pending (p : list byte) (r : mpuEncReader) : mpuEncReader :=
  mkMPUEnc (me_params r) (me_dek r) (me_part r) (me_csz r) (me_src r) p (me_chunkIdx r) (me_srcDone r)
    (me_remaining r) (me_eof r) (me_err r).
Definition me_set_src (src : Source) (r : mpuEncReader) : mpuEncReader :=
  mkMPUEnc (me_params r) (me_dek r) (me_part r) (me_csz r) src (me_pending r) (me_chunkIdx r) (me_srcDone r)
    (me_remaining r) (me_eof r) (me_err r).

(** [returnPlainBuf]: the key copy is overwritten with zeros. *)
Definition returnPlainBuf (r : mpuEncReader) : mpuEncReader :=
  mkMPUEnc (me_params r) (repeat x00 (length (me_dek r))) (me_part r) (me_csz r) (me_src r) (me_pending r)
    (me_chunkIdx r) (me_srcDone r) (me_remaining r) (me_eof r) (me_err r).
Definition me_fail (r : mpuEncReader) (e : error) : mpuEncReader * option error :=
  (returnPlainBuf (mkMPUEnc (me_params r) (me_dek r) (me_part r) (me_csz r) (me_src r) (me_pending r)
     (me_chunkIdx r) (me_srcDone r) (me_remaining r) (me_eof r) (Some e)), Some e).

Definition md_set_buf (b : list byte) (r : mpuDecReader) : mpuDecReader :=
  mkMPUDec (md_params r) (md_dek r) (md_manifest r) (md_src r) (md_partIdx r) (md_chunkIdx r) b (md_done r) (md_err r).
(** [returnEncBuf]. *)
Definition returnEncBuf (r : mpuDecReader) : mpuDecReader :=
  mkMPUDec (md_params r) (repeat x00 (length (md_dek r))) (md_manifest r) (md_src r) (md_partIdx r) (md_chunkIdx r)
    (md_buf r) (md_done r) (md_err r).
Definition md_fail (r : mpuDecReader) (e : error) : mpuDecReader * option error :=
  (returnEncBuf (mkMPUDec (md_params r) (md_dek r) (md_manifest r) (md_src r) (md_partIdx r) (md_chunkIdx r)
     (md_buf r) (md_done r) (Some e)), Some e).

Section mpu.
Context `{HKDF} `{SHA256} `{Ciphers}.

(** ** Nonces *)

(** [DeriveMultipartIV]; the panic of the impossible HKDF failure is the
    empty nonce. *)
Definition DeriveMultipartIV (dek uploadIDHash ivPrefix : list byte) (partNumber chunkIndex : Z) : list byte :=
  let info := ivPrefix ++ be_encode 4 partNumber ++ be_encode 4 chunkIndex in
  default [] (hkdf_new dek uploadIDHash info 12).

Definition UploadIDHash (uploadID : string) : list byte := sha256 (bytes_of_string uploadID).

(** The AAD of a chunk: none for version 1. *)
Definition chunkAAD (P : MPUParams) (part chunkIdx : Z) : result (list byte) :=
  if mp_bound P then buildObjectAAD aadMPUV2Chunk (mp_object P) (mp_binding P) [part; chunkIdx] else Ok [].

(** ** Encrypting a part *)

Definition newMPUPartEncryptReader (fips : bool) (object : ObjectContext) (bindingID : list byte) (body : Source)
    (dek uploadIDHash ivPrefix : list byte) (partNumber chunkSize plainLen : Z) (algorithm : string)
    (bound : bool) : result (mpuEncReader * Z) :=
  _ ← Validate object;
  let chunkSize := if chunkSize <=? 0 then DefaultChunkSize else chunkSize in
  if (partNumber <? 1) || (10000 <? partNumber) || (plainLen <? 0) || (MaxChunkSize <? chunkSize)
  then Err (Errorf "mpu_encrypter: invalid part number, plaintext length, or chunk size")
  else
    aead ← createMPUAEADCipher fips algorithm dek;
    let tagSize := Overhead aead in
    let count := plainLen /i chunkSize in
    let count := if negb (plainLen %i chunkSize =? 0) then count +i 1 else count in
    if (MaxInt32 <? count) || ((MaxInt64 -i plainLen) /i tagSize <? count)
    then Err (Errorf "mpu_encrypter: chunk count or ciphertext length overflow")
    else
      let encLen := plainLen +i (count *i tagSize) in
      Ok (mkMPUEnc (mkMPUParams aead uploadIDHash ivPrefix object bindingID bound) dek (wrap_u32 partNumber)
            chunkSize body [] 0 false plainLen false None, encLen).

(** [bindingID == [16]byte{}]. *)
Definition zero_binding (bindingID : list byte) : bool := bool_decide (bindingID = repeat x00 16).

Definition NewMPUPartEncryptReader (fips : bool) (object : ObjectContext) (bindingID : list byte) (body : Source)
    (dek uploadIDHash ivPrefix : list byte) (partNumber chunkSize plainLen : Z) (algorithm : string)
    : result (mpuEncReader * Z) :=
  _ ← Validate object;
  if zero_binding bindingID then Err (Errorf "mpu: v2 binding ID is required")
  else newMPUPartEncryptReader fips object bindingID body dek uploadIDHash ivPrefix partNumber chunkSize plainLen
         algorithm true.

Definition NewMPUPartEncryptReaderV1 (fips : bool) (object : ObjectContext) (src : Source)
    (dek uploadIDHash ivPrefix : list byte) (partNumber chunkSize plainLen : Z) (algorithm : string)
    : result (mpuEncReader * Z) :=
  newMPUPartEncryptReader fips object (repeat x00 16) src dek uploadIDHash ivPrefix partNumber chunkSize plainLen
    algorithm false.

Definition me_advance (r : mpuEncReader) : mpuEncReader * option error :=
  if me_remaining r =? 0 then
    let '(extra, err, src) := ReadFull (me_src r) 1 in
    let r := me_set_src src r in
    if negb (bool_decide (extra = [])) || negb (bool_decide (err = Some EOF))
    then me_fail r (Errorf "mpu_encrypter: source exceeds declared plaintext length")
    else (mkMPUEnc (me_params r) (me_dek r) (me_part r) (me_csz r) (me_src r) (me_pending r) (me_chunkIdx r) true
            (me_remaining r) (me_eof r) (me_err r), None)
  else if MaxInt32 <=? me_chunkIdx r then me_fail r (Errorf "mpu_encrypter: chunk index overflow")
  else
    let want := Z.min (me_csz r) (me_remaining r) in
    let '(pt, readErr, src) := ReadFull (me_src r) (Z.to_nat want) in
    let r := me_set_src src r in
    match readErr with
    | Some e => me_fail r (Wrapf "mpu_encrypter: read source: %w" e)
    | None =>
        let remaining := me_remaining r -i len pt in
        let r := mkMPUEnc (me_params r) (me_dek r) (me_part r) (me_csz r) (me_src r) (me_pending r) (me_chunkIdx r)
                   (me_srcDone r) remaining (me_eof r) (me_err r) in
        let P := me_params r in
        let iv := DeriveMultipartIV (me_dek r) (mp_hash P) (mp_prefix P) (me_part r) (me_chunkIdx r) in
        match chunkAAD P (me_part r) (me_chunkIdx r) with
        | Err e => me_fail r e
        | Ok aad =>
            (mkMPUEnc P (me_dek r) (me_part r) (me_csz r) (me_src r) (Seal (mp_gcm P) iv pt aad)
               (wrap_u32 (me_chunkIdx r + 1)) (me_srcDone r) (me_remaining r) (me_eof r) (me_err r), None)
        end
    end.

(** ** Decrypting an object *)

(** [decryptNextChunk]. *)
Definition decryptNextChunk (r : mpuDecReader) (part : MPUPartRecord) : mpuDecReader * option error :=
  if (PartNumber part <? 1) || (10000 <? PartNumber part) || (md_chunkIdx r <? 0) || (ChunkCount part <=? md_chunkIdx r)
  then (r, Some (Errorf "mpu_decrypt: invalid part or chunk index"))
  else
    let m := md_manifest r in
    let encSize :=
      if md_chunkIdx r =? wrap_i32 (ChunkCount part - 1) then
        PlainLen part -i (wrap_i32 (ChunkCount part - 1) *i mm_ChunkSize m) +i mpuAEADTagSize
      else mm_ChunkSize m +i mpuAEADTagSize in
    let '(encChunk, err, src) := ReadFull (md_src r) (Z.to_nat encSize) in
    let r := mkMPUDec (md_params r) (md_dek r) m src (md_partIdx r) (md_chunkIdx r) (md_buf r) (md_done r) (md_err r) in
    match err with
    | Some e => (r, Some (Wrapf "mpu_decrypt: part %d chunk %d: read: %w" e))
    | None =>
        let P := md_params r in
        let iv := DeriveMultipartIV (md_dek r) (mp_hash P) (mp_prefix P) (wrap_u32 (PartNumber part)) (wrap_u32 (md_chunkIdx r)) in
        match chunkAAD P (wrap_u64 (PartNumber part)) (wrap_u64 (md_chunkIdx r)) with
        | Err e => (r, Some e)
        | Ok aad =>
            match Open (mp_gcm P) iv encChunk aad with
            | None => (r, Some (Errorf "mpu_decrypt: part %d chunk %d auth failure: %w"))
            | Some plain =>
                let chunkIdx := wrap_i32 (md_chunkIdx r + 1) in
                let '(partIdx, chunkIdx) :=
                  if ChunkCount part <=? chunkIdx then (md_partIdx r + 1, 0) else (md_partIdx r, chunkIdx) in
                let done := if len (mm_Parts m) <=? partIdx then true else md_done r in
                (mkMPUDec P (md_dek r) m (md_src r) partIdx chunkIdx plain done (md_err r), None)
            end
        end
    end.

Definition newMPUDecryptReader (fips : bool) (object : ObjectContext) (bindingID : list byte) (src : Source)
    (manifest : MultipartManifest) (dek uploadIDHash ivPrefix : list byte) (algorithm : string) (bound : bool)
    : result (option mpuDecReader) :=
  _ ← Validate object;
  _ ← validateLayout manifest;
  if bool_decide (mm_Parts manifest = []) then Ok None
  else
    aead ← createMPUAEADCipher fips algorithm dek;
    Ok (Some (mkMPUDec (mkMPUParams aead uploadIDHash ivPrefix object bindingID bound) dek manifest src 0 0 []
                false None)).

(** [NewMPUDecryptReader]; [None] is the empty reader for a manifest without
    parts. *)
Definition NewMPUDecryptReader (fips : bool) (object : ObjectContext) (bindingID : list byte) (src : Source)
    (manifest : MultipartManifest) (dek uploadIDHash ivPrefix : list byte) (algorithm : string)
    : result (option mpuDecReader) :=
  _ ← Validate object;
  if mm_Version manifest =? 1 then
    newMPUDecryptReader fips object bindingID src manifest dek uploadIDHash ivPrefix algorithm false
  else if negb (mm_Version manifest =? 2) || zero_binding bindingID
  then Err (Errorf "mpu: v2 binding ID is required")
  else newMPUDecryptReader fips object bindingID src manifest dek uploadIDHash ivPrefix algorithm true.

Definition NewMPUDecryptReaderV1 (fips : bool) (object : ObjectContext) (src : Source)
    (manifest : MultipartManifest) (dek uploadIDHash ivPrefix : list byte) (algorithm : string)
    : result (option mpuDecReader) :=
  newMPUDecryptReader fips object (repeat x00 16) src manifest dek uploadIDHash ivPrefix algorithm false.

(** A turn of the [Read] loop with an empty buffer and parts left. *)
Definition md_advance (r : mpuDecReader) : mpuDecReader * option error :=
  match mm_Parts (md_manifest r) !! Z.to_nat (md_partIdx r) with
  | None => (r, None)
  | Some part =>
      if ChunkCount part =? 0 then
        (mkMPUDec (md_params r) (md_dek r) (md_manifest r) (md_src r) (md_partIdx r + 1) (md_chunkIdx r)
           (md_buf r) (md_done r) (md_err r), None)
      else match decryptNextChunk r part with
           | (r, Some e) => md_fail r e
           | (r, None) => (r, None)
           end
  end.

(** ** Decrypting a run of chunks in memory *)

Fixpoint decryptRun (fuel : nat) (aead : AEAD) (P : MPUParams) (dek : list byte) (partNumber encChunkSize chunkIndex : Z)
    (ciphertext out : list byte) : result (list byte) :=
  match fuel, ciphertext with
  | _, [] => Ok out
  | O, _ => Err (Errorf "out of fuel")
  | S f, _ =>
      if MaxInt32 <=? chunkIndex then Err (Errorf "mpu_encrypter: chunk index overflow")
      else
        let u := Z.to_nat encChunkSize in
        let iv := DeriveMultipartIV dek (mp_hash P) (mp_prefix P) (wrap_u32 partNumber) chunkIndex in
        aad ← chunkAAD P (wrap_u64 partNumber) chunkIndex;
        match Open aead iv (take u ciphertext) aad with
        | None => Err (Errorf "mpu_encrypter: chunk %d auth failure in part %d: %w")
        | Some plain =>
            decryptRun f aead P dek partNumber encChunkSize (wrap_u32 (chunkIndex + 1)) (drop u ciphertext) (out ++ plain)
        end
  end.

Definition decryptMPUPartRange (fips : bool) (object : ObjectContext) (bindingID ciphertext : list byte)
    (dek uploadIDHash ivPrefix : list byte) (partNumber chunkSize startChunkIdx : Z) (algorithm : string)
    (bound : bool) : result (list byte) :=
  _ ← Validate object;
  let chunkSize := if chunkSize <=? 0 then DefaultChunkSize else chunkSize in
  if (partNumber <? 1) || (10000 <? partNumber) || (startChunkIdx <? 0) || (MaxChunkSize <? chunkSize)
  then Err (Errorf "mpu_encrypter: invalid part number, chunk index, or chunk size")
  else
    aead ← createMPUAEADCipher fips algorithm dek;
    decryptRun (length ciphertext) aead (mkMPUParams aead uploadIDHash ivPrefix object bindingID bound) dek partNumber
      (chunkSize +i Overhead aead) (wrap_u32 startChunkIdx) ciphertext [].

Definition DecryptMPUPartRange (fips : bool) (object : ObjectContext) (bindingID ciphertext : list byte)
    (dek uploadIDHash ivPrefix : list byte) (partNumber chunkSize startChunkIdx : Z) (algorithm : string)
    : result (list byte) :=
  _ ← Validate object;
  if zero_binding bindingID then Err (Errorf "mpu: v2 binding ID is required")
  else decryptMPUPartRange fips object bindingID ciphertext dek uploadIDHash ivPrefix partNumber chunkSize
         startChunkIdx algorithm true.

Definition DecryptMPUPartRangeV1 (fips : bool) (object : ObjectContext) (ciphertext : list byte)
    (dek uploadIDHash ivPrefix : list byte) (partNumber chunkSize startChunkIdx : Z) (algorithm : string)
    : result (list byte) :=
  decryptMPUPartRange fips object (repeat x00 16) ciphertext dek uploadIDHash ivPrefix partNumber chunkSize
    startChunkIdx algorithm false.

(** [DecryptMPUPart]: a whole part, without AAD. *)
Definition DecryptMPUPart (fips : bool) (ciphertext dek uploadIDHash ivPrefix : list byte)
    (partNumber chunkSize : Z) (algorithm : string) : result (list byte) :=
  let chunkSize := if chunkSize <=? 0 then DefaultChunkSize else chunkSize in
  if (partNumber <? 1) || (10000 <? partNumber) || (MaxChunkSize <? chunkSize)
  then Err (Errorf "mpu_encrypter: invalid part number or chunk size")
  else
    aead ← createMPUAEADCipher fips algorithm dek;
    decryptRun (length ciphertext) aead (mkMPUParams aead uploadIDHash ivPrefix (mkObject "" "") [] false) dek
      partNumber (chunkSize +i Overhead aead) 0 ciphertext [].
End mpu.
