(* ===== verification/MPUCorrect.v ===== *)
(** * Correctness of the multipart readers

    Both readers are proved to be streams ([StreamReader]); the ciphertext of
    a part is the concatenation of its sealed chunks, decryption inverts it
    from every chunk boundary on, and a source whose length differs from the
    declared one is never reported as complete. *)
From Stdlib Require Import Sorting.Sorted.
From S2P Require Import Prelude GoStd GoIO Primitives ObjectAAD ChunkLayout MPUManifest MPUStream.
Local Open Scope Z_scope.
Local Open Scope go_scope.
#[local] Arguments bytes_of_string : simpl never.
#[local] Arguments Validate : simpl never.

Section readers.
Context `{HKDF} `{Ciphers}.

(** ** [Read] of the encrypting reader *)

Definition me_measure (r : mpuEncReader) : nat :=
  (length (src_data (me_src r)) + if me_srcDone r then 0 else 1)%nat.
Definition me_good (r : mpuEncReader) : Prop :=
  me_err r = None ∧ me_eof r = false ∧ 0 < me_csz r ∧ 0 ≤ me_remaining r ≤ MaxInt64.

Lemma me_advance_ok r r' :
  me_good r → me_srcDone r = false → me_advance r = (r', None) →
  me_good r' ∧ (me_measure r' < me_measure r)%nat.
Proof.
  intros (He & Heof & Hcs & Hrem) Hd. unfold me_advance, me_fail, me_measure. rewrite Hd.
  destruct (Z.eqb_spec (me_remaining r) 0) as [Hz|Hz].
  - destruct (ReadFull _ 1) as [[extra err] src] eqn:ER. apply ReadFull_app in ER as (Hs & _).
    case_match; [done|]. intros [= <-]. cbn. rewrite Hs, length_app. split; [done|lia].
  - destruct (MaxInt32 <=? me_chunkIdx r); [done|].
    destruct (ReadFull _ _) as [[pt err] src] eqn:ER. apply ReadFull_app in ER as (Hs & _ & _ & Hn & _).
    destruct err; [done|]. specialize (Hn eq_refl). cbn [me_set_src me_params me_remaining].
    destruct (chunkAAD _ _ _); [|done]. intros [= <-]. cbn. rewrite Hs, length_app.
    unfold me_good. cbn. unfold MaxInt64 in *. rewrite !wrap_i64_id by lia. split; [split_and!; done || lia|]. rewrite Hd. lia.
Qed.

#[global] Program Instance me_pull : Pull mpuEncReader := {|
  pl_pending := me_pending; pl_set_pending := me_set_pending; pl_finished := me_srcDone;
  pl_advance := me_advance; pl_measure := me_measure; pl_ok := me_good |}.
Next Obligation. done. Qed.
Next Obligation. done. Qed.
Next Obligation. by intros []. Qed.
Next Obligation. done. Qed.
Next Obligation. done. Qed.
Next Obligation. done. Qed.
Next Obligation. intros r r' Hok _ Hd Ha. by apply me_advance_ok. Qed.

(** [mpuEncryptReader.Read]: when the loop stops before the buffer is full,
    the source is done and the reader releases its buffers. *)
Definition me_Read (r : mpuEncReader) (n : nat) : option (list byte * option error * mpuEncReader) :=
  match me_err r with
  | Some e => Some ([], Some e, r)
  | None =>
      if me_eof r then Some ([], Some EOF, returnPlainBuf r)
      else match pull_loop (pull_fuel r n) r n [] with
      | None => None
      | Some (bs, Some e, r) => Some (bs, Some e, r)
      | Some (bs, None, r) =>
          if decide (length bs = n)%nat then Some (bs, None, r)
          else
            let r := mkMPUEnc (me_params r) (me_dek r) (me_part r) (me_csz r) (me_src r) (me_pending r)
                       (me_chunkIdx r) (me_srcDone r) (me_remaining r) true (me_err r) in
            Some (bs, match bs with [] => Some EOF | _ => None end, returnPlainBuf r)
      end
  end.

#[global] Program Instance me_stream : StreamReader mpuEncReader := {|
  sr_read := me_Read;
  sr_rem r O e := (me_err r = None ∧ me_eof r = true ∧ O = [] ∧ e = EOF) ∨ (me_good r ∧ pulls r O e) |}.
Next Obligation.
  intros r O e n [(He & Heof & -> & ->)|[Hok Hp]] Hn; unfold me_Read.
  - rewrite He, Heof. exists [], (Some EOF), (returnPlainBuf r). split_and!; [done|cbn; lia|by right].
  - pose proof Hok as (He & Heof & _). rewrite He, Heof.
    destruct (pull_loop_spec (pull_fuel r n) r n [] O e) as (bs & oe & r' & -> & Hlen & Hc);
      [done|done|unfold pull_fuel; lia|]. cbn [app].
    destruct Hc as [(-> & Hb & Hok' & O' & HO & Hp')|(-> & ->)];
      [|exists O, (Some e), r'; split_and!; [done|done|by right]].
    case_decide as Hd.
    + exists bs, None, r'. split_and!; [done|done|]. left. split_and!; [done|by intros ->; cbn in Hd; lia|eauto].
    + destruct Hb as [|(-> & -> & _)]; [done|]. pose proof Hok' as (He' & _).
      destruct bs as [|b bs]; (eexists _, _, _; split; [done|]); [split; [cbn; lia|by right]|].
      split; [done|]. left. split_and!; [done|done|]. exists []. rewrite app_nil_r. split; [done|]. by left.
Qed.

(** ** [Read] of the decrypting reader *)

Definition md_measure (r : mpuDecReader) : nat :=
  (length (src_data (md_src r)) + Z.to_nat (len (mm_Parts (md_manifest r)) - md_partIdx r))%nat.
Definition md_finished (r : mpuDecReader) : bool :=
  md_done r || (len (mm_Parts (md_manifest r)) <=? md_partIdx r).
Definition md_good (r : mpuDecReader) : Prop :=
  md_err r = None ∧ layout_ok (md_manifest r) ∧ 0 ≤ md_partIdx r.

(** The size of the encrypted chunk [i] of a part. *)
Definition encChunkLen (cs : Z) (p : MPUPartRecord) (i : Z) : Z :=
  if i =? ChunkCount p - 1 then PlainLen p - (ChunkCount p - 1) * cs + 16 else cs + 16.

Lemma encSize_eq m p i :
  layout_ok m → p ∈ mm_Parts m → 0 ≤ i < ChunkCount p →
  (if i =? wrap_i32 (ChunkCount p - 1) then
     PlainLen p -i (wrap_i32 (ChunkCount p - 1) *i mm_ChunkSize m) +i mpuAEADTagSize
   else mm_ChunkSize m +i mpuAEADTagSize) = encChunkLen (mm_ChunkSize m) p i ∧
  16 < encChunkLen (mm_ChunkSize m) p i ≤ mm_ChunkSize m + 16.
Proof.
  intros Hok Hin Hi. pose proof (chunk_size_bounds m Hok p Hin) as Hcs.
  destruct Hok as (Hf & _ & HtP & _). pose proof (proj1 (Forall_forall _ _) Hf p Hin) as (_ & Hpl & Hcc & Hmax & He).
  pose proof (proj1 (nchunks_iff (PlainLen p) (mm_ChunkSize m) (ChunkCount p) ltac:(lia)) (eq_sym Hcc)) as Hn.
  assert (PlainLen p ≤ MaxInt64).
  { apply list_elem_of_split in Hin as (l1 & l2 & Heq). rewrite Heq, total_app in HtP.
    rewrite Heq in Hf. apply Forall_app in Hf as [H1 H2]. inversion H2 as [|?? _ H3]; subst.
    destruct (total_nonneg (mm_ChunkSize m) l1 ltac:(lia) H1). destruct (total_nonneg (mm_ChunkSize m) l2 ltac:(lia) H3).
    change (total PlainLen (p :: l2)) with (PlainLen p + total PlainLen l2) in HtP. lia. }
  unfold encChunkLen, mpuAEADTagSize, MaxChunkSize, MaxInt32, MaxInt64 in *.
  rewrite (wrap_i32_id (ChunkCount p - 1)) by lia.
  destruct (Z.eqb_spec i (ChunkCount p - 1)); [|rewrite wrap_i64_id by lia; lia].
  rewrite (wrap_i64_id (_ * _)), (wrap_i64_id (PlainLen p - _)), wrap_i64_id by nia. nia.
Qed.

Lemma md_advance_ok r r' :
  md_good r → md_finished r = false → md_advance r = (r', None) →
  md_good r' ∧ (md_measure r' < md_measure r)%nat.
Proof.
  intros (He & Hok & Hp0) Hfin. unfold md_finished in Hfin. apply orb_false_elim in Hfin as [Hd Hpi%Z.leb_gt].
  unfold md_advance. destruct (lookup_lt_is_Some_2 (mm_Parts (md_manifest r)) (Z.to_nat (md_partIdx r))) as [p Hp]; [lia|].
  rewrite Hp. pose proof (list_elem_of_lookup_2 _ _ _ Hp) as Hin. unfold md_measure.
  destruct (Z.eqb_spec (ChunkCount p) 0); [intros [= <-]; cbn [md_src md_manifest md_partIdx]; split; [unfold md_good; cbn [md_err md_manifest md_partIdx]; split_and!; done || lia|lia]|].
  unfold md_fail. destruct (decryptNextChunk r p) as [r1 [e|]] eqn:E; [done|]. intros [= <-]. revert E.
  unfold decryptNextChunk. case_match eqn:Eg; [done|]. zbool.
  destruct (encSize_eq (md_manifest r) p (md_chunkIdx r) Hok Hin ltac:(lia)) as [-> Hs].
  destruct (ReadFull _ _) as [[bs err] src] eqn:ER. apply ReadFull_app in ER as (Hsrc & _ & _ & Hn & _).
  destruct err; [done|]. specialize (Hn eq_refl). cbn [md_params md_dek].
  destruct (chunkAAD _ _ _); [|done]. destruct (Open _ _ _ _); [|done].
  destruct (if ChunkCount p <=? _ then _ else _) as [pi ci] eqn:Epi. intros [= <-].
  assert (md_partIdx r ≤ pi) by (revert Epi; case_match; intros; simplify_eq/=; lia).
  split; [unfold md_good; cbn [md_err md_manifest md_partIdx]; split_and!; done || lia|].
  cbn [md_src md_manifest md_partIdx]. rewrite Hsrc, length_app. lia.
Qed.

#[global] Program Instance md_pull : Pull mpuDecReader := {|
  pl_pending := md_buf; pl_set_pending := md_set_buf; pl_finished := md_finished;
  pl_advance := md_advance; pl_measure := md_measure; pl_ok := md_good |}.
Next Obligation. done. Qed.
Next Obligation. done. Qed.
Next Obligation. by intros []. Qed.
Next Obligation. done. Qed.
Next Obligation. done. Qed.
Next Obligation. done. Qed.
Next Obligation. intros r r' Hok _ Hd Ha. by apply md_advance_ok. Qed.

(** [mpuDecryptReader.Read]: serves at most one chunk per call. *)
Definition md_Read (r : mpuDecReader) (n : nat) : option (list byte * option error * mpuDecReader) :=
  match md_err r with
  | Some e => Some ([], Some e, r)
  | None =>
      if decide (n = 0)%nat then Some ([], None, r)
      else match pull_one (S (md_measure r)) r n with
      | Some ([], Some EOF, r) =>
          Some ([], Some EOF, returnEncBuf (mkMPUDec (md_params r) (md_dek r) (md_manifest r) (md_src r)
                  (md_partIdx r) (md_chunkIdx r) (md_buf r) true (md_err r)))
      | x => x
      end
  end.

#[global] Program Instance md_stream : StreamReader mpuDecReader := {|
  sr_read := md_Read; sr_rem r O e := md_good r ∧ pulls r O e |}.
Next Obligation.
  intros r O e n [Hok Hp] Hn. unfold md_Read. pose proof Hok as (-> & _). rewrite decide_False by lia.
  destruct (pull_one_law (S (md_measure r)) r O e n) as (bs & oe & r' & -> & Hl & Hc); [done..|cbn; lia|].
  destruct Hc as [(-> & Hne & O' & -> & ? & ?)|(-> & ->)].
  - exists bs, None, r'. split_and!; [by destruct bs|done|]. left. eauto 6.
  - destruct O as [|b O]; [|exists (b :: O), (Some e), r'; split_and!; [done|done|by right]].
    destruct e; eexists [], _, _; (split; [done|]); (split; [cbn; lia|by right]).
Qed.
End readers.

(** ** The ciphertext of a part *)

Section correct.
Context `{HKDF} `{!HKDFLaws} `{Ciphers}.

Definition mpu_record (P : MPUParams) (dek : list byte) (part i : Z) (c : list byte) : list byte :=
  match chunkAAD P part i with
  | Ok aad => Seal (mp_gcm P) (DeriveMultipartIV dek (mp_hash P) (mp_prefix P) part i) c aad
  | Err _ => []
  end.

Definition mpu_part (P : MPUParams) (dek : list byte) (part cs : Z) (pt : list byte) : list byte :=
  records (mpu_record P dek part) 0 (chunks_of (Z.to_nat cs) pt).

Definition mpu_ok (P : MPUParams) : Prop :=
  AEADLaws (mp_gcm P) ∧ (mp_bound P = true → Validate (mp_object P) = Ok tt ∧ len (mp_binding P) = 16).

Context (P : MPUParams) (HP : mpu_ok P) (dek : list byte).

Lemma chunkAAD_Ok part i : ∃ aad, chunkAAD P part i = Ok aad.
Proof using All.
  unfold chunkAAD. destruct (mp_bound P) eqn:Hb; [|eauto]. destruct (proj2 HP Hb).
  apply buildObjectAAD_total; [done|unfold aadDomains; set_solver|done|cbn; lia].
Qed.

Lemma DeriveMultipartIV_length hash prefix part i : length (DeriveMultipartIV dek hash prefix part i) = 12%nat.
Proof using All.
  unfold DeriveMultipartIV.
  by destruct (hkdf_new_length dek hash (prefix ++ be_encode 4 part ++ be_encode 4 i) 12 ltac:(lia)) as (iv & -> & ?).
Qed.

Lemma length_mpu_record part i c : length (mpu_record P dek part i c) = (length c + 16)%nat.
Proof using All.
  unfold mpu_record. destruct (chunkAAD_Ok part i) as [aad ->]. destruct HP as [Hl _].
  apply aead_seal_length, DeriveMultipartIV_length.
Qed.

Lemma open_mpu_record part i c aad :
  chunkAAD P part i = Ok aad →
  Open (mp_gcm P) (DeriveMultipartIV dek (mp_hash P) (mp_prefix P) part i) (mpu_record P dek part i c) aad = Some c.
Proof using All.
  intros Ha. unfold mpu_record. rewrite Ha. destruct HP as [Hl _]. apply aead_open_seal, DeriveMultipartIV_length.
Qed.

(** ** Encrypting *)

Lemma me_pulls part cs l i :
  0 < cs → len l ≤ MaxInt64 → 0 ≤ i → i + len (chunks_of (Z.to_nat cs) l) ≤ MaxInt32 →
  pulls (mkMPUEnc P dek part cs (src_of l) [] i false (len l) false None)
    (records (mpu_record P dek part) i (chunks_of (Z.to_nat cs) l)) EOF.
Proof using All.
  intros Hcs. set (c := Z.to_nat cs). assert (Hc : (0 < c)%nat) by (unfold c; lia). revert i.
  induction l as [|l Hl IH] using (chunks_ind c Hc); intros i Hmax Hi Hm.
  - eapply pulls_step; [done|done|reflexivity|]. by apply pulls_end.
  - rewrite chunks_of_step in * by done. cbn [records length] in *.
    assert (Hl0 : (0 < length l)%nat) by (destruct l; cbn; [done|lia]).
    set (s' := mkMPUEnc P dek part cs (src_of (drop c l)) (mpu_record P dek part i (take c l)) (i + 1) false
                 (len (drop c l)) false None).
    eapply pulls_step with (s' := s'); [done|done|..].
    { cbn [pl_advance me_pull]. unfold me_advance. cbn [me_remaining me_chunkIdx me_csz me_src].
      unfold MaxInt32, MaxInt64 in *.
      rewrite (proj2 (Z.eqb_neq _ 0)), (proj2 (Z.leb_gt _ i)) by lia.
      assert (Hw : (Z.to_nat (Z.min cs (len l)) ≤ length l)%nat) by lia.
      rewrite ReadFull_enough by done. cbn [src_data src_of src_end me_set_src me_remaining me_params me_dek me_part me_csz me_pending me_chunkIdx me_srcDone me_eof me_err me_src].
      assert (Htk : take (Z.to_nat (Z.min cs (len l))) l = take c l).
      { destruct (decide (length l ≤ c)%nat); [rewrite !take_ge by lia; done|]. f_equal. unfold c in *. lia. }
      assert (Hdr : drop (Z.to_nat (Z.min cs (len l))) l = drop c l).
      { destruct (decide (length l ≤ c)%nat); [rewrite !drop_ge by lia; done|]. f_equal. unfold c in *. lia. }
      rewrite Htk, Hdr. destruct (chunkAAD_Ok part i) as [aad Ha]. rewrite Ha.
      unfold s', mpu_record. rewrite Ha, length_take, length_drop. unfold wrap_i64, wrap_u32.
      do 2 f_equal; [rewrite Z.mod_small by lia; done|]. rewrite Z.mod_small by lia. lia. }
    change (mpu_record P dek part i (take c l)) with (pl_pending s') at 1. apply pulls_pending.
    { cbn. intros E%(f_equal length). rewrite length_mpu_record in E. cbn in E. lia. }
    apply IH; [rewrite length_drop; lia|lia|lia].
Qed.

(** A source of another length, or one that fails, never ends in [EOF]. *)
Lemma me_pulls_bad part cs d e i N O x :
  0 < cs → 0 ≤ N ≤ MaxInt64 → 0 ≤ i → ¬ (len d = N ∧ e = EOF) →
  pulls (mkMPUEnc P dek part cs (mkSource d e) [] i false N false None) O x → x ≠ EOF.
Proof using All.
  intros Hcs. revert i N O. induction d as [d IH] using (induction_ltof1 _ length); unfold ltof in IH.
  intros i N O HN Hi Hbad Hp. apply pulls_idle_inv in Hp; [|done..]. cbn [pl_advance me_pull] in Hp.
  unfold me_advance, me_fail in Hp. cbn [me_remaining me_chunkIdx me_csz me_src] in Hp.
  destruct (Z.eqb_spec N 0) as [->|HN0].
  - assert (Hfail : ∃ src err, let '(extra, err', src') := ReadFull (mkSource d e) 1 in
      src' = src ∧ err' = err ∧ negb (bool_decide (extra = [])) || negb (bool_decide (err = Some EOF)) = true).
    { destruct d as [|b d].
      - rewrite ReadFull_empty by (done || lia). eexists _, _. split_and!; [done..|]. cbn [src_end].
        rewrite bool_decide_eq_true_2, bool_decide_eq_false_2 by (done || (intros [= ->]; by apply Hbad)). done.
      - rewrite ReadFull_enough by (cbn; lia). eexists _, _. split_and!; done. }
    destruct Hfail as (src & err & Hfail). destruct (ReadFull _ 1) as [[extra err'] src'].
    destruct Hfail as (-> & -> & Hb). rewrite Hb in Hp.
    destruct Hp as [(s' & ? & ?)|(s' & ? & ->)]; simplify_eq. done.
  - destruct (MaxInt32 <=? i).
    { destruct Hp as [(s' & ? & ?)|(s' & ? & ->)]; simplify_eq. done. }
    destruct (ReadFull _ _) as [[pt err] src] eqn:ER.
    apply ReadFull_app in ER as (Hs & Hend & _ & Hn & _). destruct src as [d' e']. cbn in Hs, Hend. subst e'.
    destruct err as [y|].
    { destruct Hp as [(s' & ? & ?)|(s' & ? & ->)]; simplify_eq. done. }
    specialize (Hn eq_refl). cbn [me_set_src me_params me_remaining me_part me_chunkIdx me_dek me_csz me_src me_srcDone me_eof me_err] in Hp.
    destruct (chunkAAD_Ok part i) as [aad Ha]. rewrite Ha in Hp.
    destruct Hp as [(s' & Heq & Hp)|(s' & Heq & ->)]; simplify_eq.
    apply pulls_pending_inv in Hp as (O' & -> & Hp).
    unfold MaxInt64 in *. revert Hp. cbn. rewrite wrap_i64_id by lia. intros Hp.
    eapply IH in Hp; [done| | | |]; cbn [me_remaining me_chunkIdx].
    + rewrite length_app. lia.
    + lia.
    + unfold wrap_u32. apply Z.mod_pos_bound. lia.
    + rewrite length_app in Hbad. intros [Hl ->]. apply Hbad. split; [lia|done].
Qed.

(** ** Decrypting *)

Lemma decryptRun_Ok part cs l i fuel out :
  0 < cs ≤ MaxChunkSize → 1 ≤ part ≤ 10000 → 0 ≤ i → i + len (chunks_of (Z.to_nat cs) l) ≤ MaxInt32 →
  (length (records (mpu_record P dek part) i (chunks_of (Z.to_nat cs) l)) ≤ fuel)%nat →
  decryptRun fuel (mp_gcm P) P dek part (cs + 16) i
    (records (mpu_record P dek part) i (chunks_of (Z.to_nat cs) l)) out = Ok (out ++ l).
Proof using All.
  intros Hcs Hpart. set (c := Z.to_nat cs). assert (Hc : (0 < c)%nat) by (unfold c; lia). revert i fuel out.
  induction l as [|l Hl IH] using (chunks_ind c Hc); intros i fuel out Hi Hm Hf.
  - rewrite app_nil_r. by destruct fuel.
  - rewrite chunks_of_step in * by done. cbn [records length] in *.
    destruct (take_drop_record (mpu_record P dek part) 16 (length_mpu_record part) c Hc i l Hl) as [Htk Hdr].
    pose proof (length_mpu_record part i (take c l)) as Hrl. rewrite length_app in Hf.
    set (rest := records _ _ _) in *. set (r := mpu_record P dek part i (take c l)) in *.
    assert (Hne : ∃ b x, r ++ rest = b :: x) by (destruct r; [cbn in Hrl; lia|]; cbn; eauto).
    destruct fuel as [|fuel]; [lia|]. destruct Hne as (b & x & Hne). cbn [decryptRun]. rewrite Hne, <-Hne.
    unfold MaxInt32 in *. rewrite (proj2 (Z.leb_gt _ i)) by lia.
    rewrite (wrap_u32_id part), (wrap_u64_id part) by lia.
    destruct (chunkAAD_Ok part i) as [aad Ha]. rewrite Ha. cbn [mbind result_bind].
    replace (Z.to_nat (cs + 16)) with (c + 16)%nat by (unfold c; lia). rewrite Htk, Hdr.
    unfold r. rewrite open_mpu_record by done. rewrite wrap_u32_id by lia.
    unfold rest. rewrite IH by (fold rest; lia). by rewrite <-(assoc_L (++)), take_drop.
Qed.

(** The object reader inside part [j]: chunk by chunk, then the next part. *)
Lemma md_pulls_part m e j p l i dn R O :
  layout_ok m → mm_Parts m !! Z.to_nat j = Some p → 0 ≤ j → dn = false →
  l ≠ [] → 0 ≤ i → PlainLen p = i * mm_ChunkSize m + len l →
  (∀ dn', (dn' = true → len (mm_Parts m) ≤ j + 1) →
     pulls (mkMPUDec P dek m (mkSource R e) (j + 1) 0 [] dn' None) O EOF) →
  pulls (mkMPUDec P dek m (mkSource (records (mpu_record P dek (PartNumber p)) i
           (chunks_of (Z.to_nat (mm_ChunkSize m)) l) ++ R) e) j i [] dn None) (l ++ O) EOF.
Proof using All.
  intros Hok Hp Hj -> Hl. pose proof (list_elem_of_lookup_2 _ _ _ Hp) as Hin.
  pose proof (chunk_size_bounds m Hok p Hin) as Hcs. pose proof (lookup_lt_Some _ _ _ Hp) as Hjl.
  pose proof Hok as (Hf & _). pose proof (proj1 (Forall_forall _ _) Hf p Hin) as (Hpn & Hpl & Hcc & Hmax & He).
  pose proof (proj1 (nchunks_iff (PlainLen p) (mm_ChunkSize m) (ChunkCount p) ltac:(lia)) (eq_sym Hcc)) as Hn.
  set (c := Z.to_nat (mm_ChunkSize m)). assert (Hc : (0 < c)%nat) by (unfold c; lia).
  revert i Hl. induction l as [|l Hl IH] using (chunks_ind c Hc); intros i Hl' Hi Hlen HO; [done|].
  rewrite chunks_of_step by done. cbn [records].
  assert (Hl0 : (0 < length l)%nat) by (destruct l; cbn; [done|lia]).
  pose proof (length_mpu_record (PartNumber p) i (take c l)) as Hrl. rewrite length_take in Hrl.
  set (rec := mpu_record P dek (PartNumber p) i (take c l)) in *.
  assert (Hic : 0 ≤ i < ChunkCount p) by nia.
  destruct (encSize_eq m p i Hok Hin Hic) as [Henc _].
  assert (Hlast : i = ChunkCount p - 1 ↔ (length l ≤ c)%nat) by (unfold c; split; intros; nia).
  assert (Hes : Z.to_nat (encChunkLen (mm_ChunkSize m) p i) = length rec).
  { unfold encChunkLen. destruct (Z.eqb_spec i (ChunkCount p - 1)) as [El|El].
    - pose proof (proj1 Hlast El). rewrite Hrl. rewrite El in Hlen. nia.
    - assert (¬ (length l ≤ c)%nat) by (by intros ?%Hlast). unfold c in *. lia. }
  set (nxt := if ChunkCount p <=? i + 1 then (j + 1, 0) else (j, i + 1)).
  assert (Hadv : md_advance (mkMPUDec P dek m (mkSource ((rec ++ records (mpu_record P dek (PartNumber p)) (i + 1)
      (chunks_of c (drop c l))) ++ R) e) j i [] false None) =
    (mkMPUDec P dek m (mkSource (records (mpu_record P dek (PartNumber p)) (i + 1) (chunks_of c (drop c l)) ++ R) e)
       nxt.1 nxt.2 (take c l) (if len (mm_Parts m) <=? nxt.1 then true else false) None, None)).
  { unfold md_advance. cbn [md_manifest md_partIdx]. rewrite Hp, (proj2 (Z.eqb_neq (ChunkCount p) 0)) by lia.
    unfold decryptNextChunk. cbn [md_chunkIdx md_manifest md_src].
    rewrite (proj2 (Z.ltb_ge (PartNumber p) 1)), (proj2 (Z.ltb_ge 10000 _)), (proj2 (Z.ltb_ge i 0)),
      (proj2 (Z.leb_gt _ i)) by lia. cbn [orb]. rewrite Henc, Hes.
    rewrite ReadFull_enough by (cbn [src_data]; rewrite !length_app; lia).
    cbn [src_data src_end md_params md_dek md_chunkIdx md_src md_partIdx md_done md_err md_buf].
    rewrite <-(assoc_L (++)), take_app_length, drop_app_length. unfold MaxInt32 in *.
    rewrite (wrap_u32_id (PartNumber p)), (wrap_u64_id (PartNumber p)), (wrap_u32_id i), (wrap_u64_id i), (wrap_i32_id (i + 1)) by lia.
    destruct (chunkAAD_Ok (PartNumber p) i) as [aad Ha]. rewrite Ha. unfold rec. rewrite open_mpu_record by done.
    fold nxt. by destruct nxt. }
  eapply pulls_step; [done|unfold pl_finished; cbn; apply Z.leb_gt; lia|exact Hadv|].
  assert (Hsp : l ++ O = take c l ++ (drop c l ++ O)) by (by rewrite (assoc_L (++)), take_drop).
  rewrite Hsp. clear Hsp.
  set (s' := mkMPUDec _ _ _ _ _ _ _ _ _). change (take c l) with (pl_pending s') at 1. apply pulls_pending.
  { cbn. intros E%(f_equal length). rewrite length_take in E. cbn in E. lia. }
  subst s'. cbn [pl_set_pending md_pull]. unfold md_set_buf.
  cbn [md_params md_dek md_manifest md_src md_partIdx md_chunkIdx md_done md_err].
  clear Hadv. unfold nxt. destruct (Z.leb_spec (ChunkCount p) (i + 1)) as [Hend|Hmid]; cbn [fst snd].
  - assert (length l ≤ c)%nat by (apply Hlast; lia). rewrite (drop_ge l) by lia. cbn [records chunks_of chunks_fuel length app].
    apply HO. by destruct (Z.leb_spec (len (mm_Parts m)) (j + 1)).
  - assert (¬ (length l ≤ c)%nat) by (intros ?%Hlast; lia).
    rewrite (proj2 (Z.leb_gt _ j)) by lia. apply IH; [|lia| |done].
    + intros E%(f_equal length). rewrite length_drop in E. cbn in E. lia.
    + rewrite length_drop. unfold c in *. lia.
Qed.

(** A whole object: the parts in manifest order. *)
Lemma md_pulls m e extra pre ps pts dn :
  layout_ok m → mm_Parts m = pre ++ ps → Forall2 (λ p pt, PlainLen p = len pt) ps pts →
  (dn = true → len (mm_Parts m) ≤ len pre) →
  pulls (mkMPUDec P dek m (mkSource (concat (zip_with (λ p pt, mpu_part P dek (PartNumber p) (mm_ChunkSize m) pt) ps pts)
           ++ extra) e) (len pre) 0 [] dn None) (concat pts) EOF.
Proof using All.
  intros Hok Heq Hpts. revert pre dn Heq. induction Hpts as [|p pt ps pts Hlen Hpts IH]; intros pre dn Heq Hdn.
  - apply pulls_done; [|done]. cbn. unfold md_finished. cbn [md_done md_manifest md_partIdx].
    rewrite Heq, app_nil_r. rewrite Z.leb_refl. apply orb_true_r.
  - cbn [zip_with concat]. rewrite <-(assoc_L (++)).
    assert (Hp : mm_Parts m !! length pre = Some p) by (rewrite Heq; by apply list_lookup_middle).
    assert (Hl : len (mm_Parts m) = len pre + 1 + len ps) by (rewrite Heq, length_app; cbn; lia).
    assert (dn = false) as -> by (destruct dn; [specialize (Hdn eq_refl); lia|done]).
    assert (Hnext : ∀ dn', (dn' = true → len (mm_Parts m) ≤ len pre + 1) →
      pulls (mkMPUDec P dek m (mkSource (concat (zip_with (λ p pt, mpu_part P dek (PartNumber p) (mm_ChunkSize m) pt) ps pts)
           ++ extra) e) (len pre + 1) 0 [] dn' None) (concat pts) EOF).
    { intros dn' Hdn'. specialize (IH (pre ++ [p]) dn'). rewrite length_app in IH. cbn [length] in IH.
      replace (Z.of_nat (length pre + 1)) with (len pre + 1) in IH by lia.
      apply IH; [by rewrite <-(assoc_L (++))|done]. }
    destruct (decide (pt = [])) as [->|Hne].
    + cbn [mpu_part chunks_of chunks_fuel length records app].
      eapply pulls_step; [done|cbn; apply Z.leb_gt; lia| |by apply (Hnext false)].
      cbn [pl_advance md_pull]. unfold md_advance. cbn [md_manifest md_partIdx]. rewrite Nat2Z.id, Hp.
      pose proof Hok as (Hf & _).
      pose proof (proj1 (Forall_forall _ _) Hf p (list_elem_of_lookup_2 _ _ _ Hp)) as (_ & _ & Hcc & _).
      pose proof (chunk_size_bounds m Hok p (list_elem_of_lookup_2 _ _ _ Hp)).
      cbn in Hlen. assert (ChunkCount p = 0) as -> by (rewrite Hcc, Hlen; apply nchunks_iff; lia). done.
    + apply md_pulls_part; try done; try lia. by rewrite Nat2Z.id.
Qed.
End correct.
