(* ===== verification/MPUTheorems.v ===== *)
(** * Theorems on encrypted multipart uploads

    The readers at the level of their constructors, for every sequence of
    buffer sizes. *)
From S2P Require Import Prelude GoStd GoIO Primitives ObjectAAD ChunkLayout MPUManifest MPUStream MPUCorrect.
Local Open Scope Z_scope.
Local Open Scope go_scope.
#[local] Arguments bytes_of_string : simpl never.
#[local] Arguments Validate : simpl never.

Section theorems.
Context `{HKDF} `{!HKDFLaws} `{Ciphers} `{!CiphersLaws}.

(** The chunk size a part is written with. *)
Definition partChunkSize (cs : Z) : Z := if cs <=? 0 then DefaultChunkSize else cs.

(** What a successful constructor has checked. *)
Lemma newMPUPart_inv fips obj bid src dek hash prefix pn cs plainLen alg bound w encLen :
  is_i64 plainLen → len bid = 16 →
  newMPUPartEncryptReader fips obj bid src dek hash prefix pn cs plainLen alg bound = Ok (w, encLen) →
  ∃ aead, createMPUAEADCipher fips alg dek = Ok aead ∧
    let P := mkMPUParams aead hash prefix obj bid bound in
    let n := nchunks plainLen (partChunkSize cs) in
    mpu_ok P ∧ Overhead aead = 16 ∧ Validate obj = Ok tt ∧ 1 ≤ pn ≤ 10000 ∧ 0 ≤ plainLen ∧ 0 < partChunkSize cs ≤ MaxChunkSize ∧
    n ≤ MaxInt32 ∧ encLen = plainLen + 16 * n ∧
    w = mkMPUEnc P dek pn (partChunkSize cs) src [] 0 false plainLen false None.
Proof.
  intros Hpl Hbid Hw. unfold newMPUPartEncryptReader in Hw. fold (partChunkSize cs) in Hw.
  destruct (Validate obj) as [[]|] eqn:Hv; [|done]. cbn [mbind result_bind] in Hw.
  destruct ((pn <? 1) || (10000 <? pn) || (plainLen <? 0) || (MaxChunkSize <? partChunkSize cs)) eqn:Eg; [done|]. zbool.
  destruct (createMPUAEADCipher fips alg dek) as [aead|] eqn:Ea; [|done]. cbn [mbind result_bind] in Hw.
  pose proof (createMPUAEADCipher_laws fips alg dek aead Ea) as Hlaws. rewrite aead_overhead in Hw.
  assert (Hcs : 0 < partChunkSize cs) by (clear; unfold partChunkSize; destruct (Z.leb_spec cs 0); [done|lia]).
  pose proof (nchunks_bounds plainLen (partChunkSize cs) Hcs ltac:(lia)) as Hn.
  assert (Hq : 0 ≤ plainLen / partChunkSize cs ≤ plainLen).
  { split; [apply Z.div_pos; lia|apply Z.div_le_upper_bound; nia]. }
  pose proof (ceil_div_nchunks plainLen (partChunkSize cs) ltac:(lia) Hcs) as Hcd.
  rewrite Z.quot_div_nonneg, Z.rem_mod_nonneg in Hw by lia. unfold is_i64, MaxInt64, tagSize in *.
  rewrite (wrap_i64_id (plainLen / _)) in Hw by lia.
  replace (if negb (plainLen `mod` partChunkSize cs =? 0) then plainLen / partChunkSize cs +i 1 else plainLen / partChunkSize cs)
    with (nchunks plainLen (partChunkSize cs)) in Hw.
  2: { rewrite <-Hcd. case_match eqn:Em; [|done]. rewrite wrap_i64_id; [done|]. rewrite Hcd in *. zbool. lia. }
  set (n := nchunks plainLen (partChunkSize cs)) in *.
  rewrite (wrap_i64_id (_ - plainLen)), Z.quot_div_nonneg in Hw by lia.
  assert (Hd : 0 ≤ (9223372036854775807 - plainLen) / 16 ≤ 9223372036854775807).
  { split; [apply Z.div_pos; lia|apply Z.div_le_upper_bound; lia]. }
  rewrite (wrap_i64_id (_ / 16)) in Hw by lia.
  destruct ((MaxInt32 <? n) || _) eqn:Eo; [done|]. zbool.
  assert (n * 16 ≤ 9223372036854775807 - plainLen).
  { pose proof (Z.mul_div_le (9223372036854775807 - plainLen) 16 ltac:(lia)). lia. }
  rewrite (wrap_i64_id (n * 16)), (wrap_i64_id (plainLen + _)), (wrap_u32_id pn) in Hw by lia.
  simplify_eq. exists aead. split; [done|]. cbn zeta. split_and!; try done; try lia.
  apply aead_overhead.
Qed.

(** A part of the declared length: what the reader has to give, and what
    decrypting it gives. *)
Lemma part_written fips obj bid data dek hash prefix pn cs plainLen alg w encLen :
  is_i64 plainLen → len bid = 16 → len data = plainLen →
  NewMPUPartEncryptReader fips obj bid (mkSource data EOF) dek hash prefix pn cs plainLen alg = Ok (w, encLen) →
  let c := partChunkSize cs in
  let C := mpu_part (me_params w) dek pn c data in
  sr_rem w C EOF ∧ len C = encLen ∧ len C ≤ 17 * plainLen ∧
  ∀ k : nat, Z.of_nat k ≤ nchunks plainLen c →
    DecryptMPUPartRange fips obj bid (drop (k * Z.to_nat (c + 16)) C) dek hash prefix pn cs (Z.of_nat k) alg =
      Ok (drop (k * Z.to_nat c) data).
Proof.
  intros Hty Hbid Hlen Hw. pose proof Hw as Hw'. unfold NewMPUPartEncryptReader in Hw'.
  destruct (Validate obj) as [[]|] eqn:Hv; [|done]. cbn [mbind result_bind] in Hw'.
  destruct (zero_binding bid) eqn:Hz; [done|].
  apply newMPUPart_inv in Hw' as (aead & Ha & HP & Hov & _ & Hpn & Hpl & Hcs & Hn & -> & ->); [|done..].
  cbn zeta in *. set (P := mkMPUParams aead hash prefix obj bid true) in *. set (c := partChunkSize cs) in *.
  cbn [me_params]. assert (Hc : (0 < Z.to_nat c)%nat) by lia.
  assert (Hgood : pl_ok (mkMPUEnc P dek pn c (mkSource data EOF) [] 0 false plainLen false None)).
  { unfold is_i64, MaxInt64 in *. split_and!; cbn; unfold MaxInt64; done || lia. }
  assert (Hcount : len (chunks_of (Z.to_nat c) data) = nchunks plainLen c).
  { rewrite length_chunks_of, Z2Nat.id by lia. by rewrite Hlen. }
  pose proof (length_mpu_record P HP dek pn) as Hrl. split_and!.
    + right. split; [exact Hgood|].
      rewrite <-Hlen. apply (me_pulls P HP dek pn c data 0); unfold MaxInt64, is_i64 in *; lia.
    + unfold mpu_part. rewrite (length_records _ 16 Hrl), concat_chunks_of by done. lia.
    + unfold mpu_part. rewrite (length_records _ 16 Hrl), concat_chunks_of by done.
      assert (nchunks plainLen c ≤ plainLen); [|lia].
      rewrite <- Hcount. pose proof (nchunks_bounds plainLen c ltac:(lia) ltac:(lia)). lia.
    + intros k Hk. unfold mpu_part. replace (Z.to_nat (c + 16)) with (Z.to_nat c + 16)%nat by lia.
      rewrite (drop_records _ 16 Hrl _ Hc), Z.add_0_l.
      unfold DecryptMPUPartRange, decryptMPUPartRange. rewrite Hv. cbn [mbind result_bind]. rewrite Hz. fold (partChunkSize cs). fold c.
      unfold MaxInt32, MaxChunkSize in *.
      rewrite (proj2 (Z.ltb_ge pn 1)), (proj2 (Z.ltb_ge 10000 pn)), (proj2 (Z.ltb_ge (Z.of_nat k) 0)), (proj2 (Z.ltb_ge _ c)) by lia.
      cbn [orb]. rewrite Ha. cbn [mbind result_bind]. rewrite Hov, (wrap_i64_id (c + 16)), (wrap_u32_id (Z.of_nat k)) by lia.
      fold P. change aead with (mp_gcm P) at 1.
      assert (Hdc : Z.of_nat k + len (chunks_of (Z.to_nat c) (drop (k * Z.to_nat c) data)) ≤ Z.max (Z.of_nat k) (nchunks plainLen c)).
      { rewrite length_chunks_of, Z2Nat.id by lia. rewrite length_drop. fold (nchunks (Z.of_nat (length data - k * Z.to_nat c)) c).
        pose proof (proj1 (nchunks_iff plainLen c _ ltac:(lia)) eq_refl).
        destruct (decide (k * Z.to_nat c < length data)%nat).
        - enough (nchunks (Z.of_nat (length data - k * Z.to_nat c)) c = nchunks plainLen c - Z.of_nat k) by lia.
          apply nchunks_iff; nia.
        - replace (length data - k * Z.to_nat c)%nat with 0%nat by lia.
          enough (nchunks (Z.of_nat 0) c = 0) by lia. apply nchunks_iff; lia. }
      apply (decryptRun_Ok P HP dek pn c (drop (k * Z.to_nat c) data) (Z.of_nat k) _ []); unfold MaxInt32, MaxChunkSize; lia.
Qed.

(** C11: multipart parts. When the constructor accepts a part, then for a body
    of exactly the declared length the reader yields the part's records and
    [EOF], their total length is the length announced to the backend, and
    decrypting the ciphertext from any chunk boundary on gives the plaintext
    from that chunk on. For a body that is shorter, longer, or fails, no read
    sequence ever ends in [EOF]: an incomplete part is not uploaded as a
    complete one. *)
Theorem mpu_part_roundtrip fips obj bid data e dek hash prefix pn cs plainLen alg w encLen sz :
  is_i64 plainLen → len bid = 16 → (∀ k, 0 < sz k)%nat →
  NewMPUPartEncryptReader fips obj bid (mkSource data e) dek hash prefix pn cs plainLen alg = Ok (w, encLen) →
  let c := partChunkSize cs in
  let C := mpu_part (me_params w) dek pn c data in
  (len data = plainLen → e = EOF →
     (∀ fuel, (length C < fuel)%nat → drain fuel sz w = Some (C, EOF)) ∧ len C = encLen ∧
     ∀ k : nat, Z.of_nat k ≤ nchunks plainLen c →
       DecryptMPUPartRange fips obj bid (drop (k * Z.to_nat (c + 16)) C) dek hash prefix pn cs (Z.of_nat k) alg =
         Ok (drop (k * Z.to_nat c) data)) ∧
  (¬ (len data = plainLen ∧ e = EOF) → ∀ fuel O x, drain fuel sz w = Some (O, x) → x ≠ EOF).
Proof.
  intros Hty Hbid Hsz Hw. split.
  - intros Hlen ->. destruct (part_written _ _ _ _ _ _ _ _ _ _ _ _ _ Hty Hbid Hlen Hw) as (Hrem & HC & _ & Hd).
    split; [|done]. by apply drain_rem.
  - intros Hbad fuel O x Hdr. pose proof Hw as Hw'. unfold NewMPUPartEncryptReader in Hw'.
    destruct (Validate obj) as [[]|] eqn:Hv; [|done]. cbn [mbind result_bind] in Hw'.
    destruct (zero_binding bid) eqn:Hz; [done|].
    apply newMPUPart_inv in Hw' as (aead & Ha & HP & Hov & _ & Hpn & Hpl & Hcs & Hn & -> & ->); [|done..].
    cbn zeta in *. set (P := mkMPUParams aead hash prefix obj bid true) in *. set (c := partChunkSize cs) in *.
    assert (Hgood : pl_ok (mkMPUEnc P dek pn c (mkSource data e) [] 0 false plainLen false None)).
    { unfold is_i64, MaxInt64 in *. split_and!; cbn; unfold MaxInt64; done || lia. }
    destruct (pulls_total _ Hgood) as (O1 & x1 & Hp).
    eapply drain_inv in Hdr as [-> ->]; [|done|right; split; [exact Hgood|exact Hp]].
    eapply (me_pulls_bad P HP dek pn c data e 0 plainLen); [..|exact Hp]; unfold is_i64, MaxInt64 in *; done || lia.
Qed.

(** C9: multipart objects. A reader over the concatenation of the parts'
    ciphertexts, opened with a manifest whose parts have the plaintexts'
    lengths, yields the concatenation of the plaintexts and then [EOF]; bytes
    after the last part are not looked at. *)
Theorem mpu_object_roundtrip fips obj bid m e extra dek hash prefix alg pts src r sz :
  typed_manifest m → len bid = 16 → (∀ k, 0 < sz k)%nat →
  NewMPUDecryptReader fips obj bid src m dek hash prefix alg = Ok (Some r) →
  Forall2 (λ p pt, PlainLen p = len pt) (mm_Parts m) pts →
  src = mkSource (concat (zip_with (λ p pt, mpu_part (md_params r) dek (PartNumber p) (mm_ChunkSize m) pt) (mm_Parts m) pts)
                    ++ extra) e →
  ∀ fuel, (length (concat pts) < fuel)%nat → drain fuel sz r = Some (concat pts, EOF).
Proof.
  intros Hty Hbid Hsz Hr Hpts Hsrc. unfold NewMPUDecryptReader in Hr.
  destruct (Validate obj) as [[]|] eqn:Hv; [|done]. cbn [mbind result_bind] in Hr.
  assert (Hr' : ∃ bound, newMPUDecryptReader fips obj bid src m dek hash prefix alg bound = Ok (Some r))
    by (repeat case_match; eauto; done).
  clear Hr. destruct Hr' as [bound Hr]. unfold newMPUDecryptReader in Hr. rewrite Hv in Hr. cbn [mbind result_bind] in Hr.
  destruct (validateLayout m) as [[]|] eqn:Hl; [|done]. cbn [mbind result_bind] in Hr.
  apply validateLayout_spec in Hl as [Hok _]; [|done].
  case_bool_decide; [done|]. destruct (createMPUAEADCipher fips alg dek) as [aead|] eqn:Ea; [|done].
  cbn [mbind result_bind] in Hr. injection Hr as <-. cbn [md_params] in Hsrc. subst src.
  set (P := mkMPUParams aead hash prefix obj bid bound) in *.
  assert (HP : mpu_ok P) by (split; [by eapply createMPUAEADCipher_laws|done]).
  apply drain_rem; [done|]. split; [by split_and!|].
  apply (md_pulls P HP dek m e extra [] (mm_Parts m) pts false); done.
Qed.
End theorems.

(** ** The theorems at concrete inputs *)

Section witnesses.
Import ToyInstances MPUWitness.

Lemma mpu_part_roundtrip_witness :
  let key := repeat x07 32 in let bid := repeat x04 16 in let obj := mkObject "bucket" "key" in
  let w := mkMPUEnc (mkMPUParams (Toy.aead key) [x08] [x09] obj bid true) key 3 4 (mkSource (bytes_of_string "hello") EOF)
             [] 0 false 5 false None in
  drain 100 (λ _, 3%nat) w = Some (mpu_part (me_params w) key 3 4 (bytes_of_string "hello"), EOF).
Proof.
  intros key bid obj w.
  destruct (mpu_part_roundtrip false obj bid (bytes_of_string "hello") EOF key [x08] [x09] 3 4 5 "AES256-GCM" w 37
    (λ _, 3%nat)) as [Hgood _].
  - vm_compute; split; congruence.
  - reflexivity.
  - lia.
  - reflexivity.
  - destruct (Hgood eq_refl eq_refl) as [Hd _]. apply Hd. apply Nat.ltb_lt. vm_compute. reflexivity.
Defined.

Lemma mpu_object_roundtrip_witness :
  let key := repeat x07 32 in let bid := repeat x04 16 in let obj := mkObject "bucket" "key" in
  let P := mkMPUParams (Toy.aead key) [x08] [x09] obj bid true in
  let pts := [repeat x61 25; repeat x62 7] in
  let src := src_of (concat (zip_with (λ p pt, mpu_part P key (PartNumber p) 10 pt) (mm_Parts manifest) pts) ++ []) in
  drain 100 (λ _, 3%nat) (mkMPUDec P key manifest src 0 0 [] false None) = Some (concat pts, EOF).
Proof.
  intros key bid obj P pts src.
  apply (mpu_object_roundtrip false obj bid manifest EOF [] key [x08] [x09] "AES256-GCM" pts src
    (mkMPUDec P key manifest src 0 0 [] false None) (λ _, 3%nat)).
  - apply manifest_typed.
  - reflexivity.
  - lia.
  - reflexivity.
  - repeat constructor.
  - reflexivity.
  - apply Nat.ltb_lt. vm_compute. reflexivity.
Defined.
End witnesses.
