(* ===== verification/KeyManager.v ===== *)
(** * The key-manager interface and its decorators

    [internal/crypto/keymanager.go]: every data key of an object is wrapped by
    a [KeyManager]. The Go interface is the class [KeyManager], the contract
    the gateway relies on is the class [KeyManagerSpec]; the retry decorator
    ([keymanager_retry.go]) and the password fallback
    ([keymanager_fallback.go]) are instances built from the managers they
    wrap, and their contracts are derived from the wrapped managers'
    contracts. *)
From S2P Require Import Prelude GoStd.
Local Open Scope Z_scope.

(** ** Envelopes and errors *)

Record KeyEnvelope := mkEnvelope {
  KeyID : string; KeyVersion : Z; env_Provider : string; env_Ciphertext : list byte; CreatedAt : Z }.

Definition ErrProviderUnavailable : error := Sentinel "keymanager: provider unavailable".
Definition ErrKeyNotFound : error := Sentinel "keymanager: key not found".
Definition ErrUnwrapFailed : error := Sentinel "keymanager: unwrap failed".
Definition ErrInvalidEnvelope : error := Sentinel "keymanager: invalid envelope".
Definition ErrRotationNotSupported : error := Sentinel "keymanager: key rotation not supported by adapter".
Definition ErrRotationAmbiguous : error := Sentinel "keymanager: target_version required for this adapter".
Definition ErrRotationConflict : error := Sentinel "keymanager: rotation already in progress or invalid state".

Record RotationPlan := mkPlan { CurrentVersion : Z; TargetVersion : Z }.

(** ** What a call observes of its environment

    The readings of [time.Now], the bytes of [crypto/rand] and the answers of
    [ctx.Err], each in the order in which they are asked for. *)

Inductive ctxError := Canceled | DeadlineExceeded.
Definition ctx_error (c : ctxError) : error :=
  match c with
  | Canceled => Sentinel "context canceled"
  | DeadlineExceeded => Sentinel "context deadline exceeded"
  end.

Record World := mkWorld {
  w_now : Z; w_times : list Z; w_rand : list (result (list byte)); w_ctx : list (option ctxError) }.

Definition time_now (w : World) : Z * World :=
  match w_times w with
  | [] => (w_now w, w)
  | t :: ts => (t, mkWorld t ts (w_rand w) (w_ctx w))
  end.
Definition rand_read (n : nat) (w : World) : result (list byte) * World :=
  match w_rand w with
  | [] => (Ok (replicate n x00), w)
  | r :: rs => (resize n x00 <$> r, mkWorld (w_now w) (w_times w) rs (w_ctx w))
  end.
Definition ctx_err (w : World) : option error * World :=
  match w_ctx w with
  | [] => (None, w)
  | c :: cs => (ctx_error <$> c, mkWorld (w_now w) (w_times w) (w_rand w) cs)
  end.

Lemma rand_read_length n w l w' : rand_read n w = (Ok l, w') → length l = n.
Proof.
  unfold rand_read. destruct (w_rand w) as [|r rs]; intros E; simplify_eq; [by rewrite length_replicate|].
  destruct r as [l'|]; simplify_eq/=. apply length_resize.
Qed.

(** ** The interface *)

Class KeyManager (K : Type) := {
  Provider : K → string;
  WrapKey : list byte → gomap → K → World → result KeyEnvelope * K * World;
  UnwrapKey : option KeyEnvelope → gomap → K → World → result (list byte) * K * World;
  ActiveKeyVersion : K → World → result Z * K * World;
  HealthCheck : K → World → option error * K * World;
  km_Close : K → World → option error * K * World }.

(** A manager answers an envelope it does not recognise with one of these. *)
Definition rejects (e : error) : bool := error_is e ErrUnwrapFailed || error_is e ErrInvalidEnvelope.

(** The contract. [km_inv] is what every state of the manager satisfies and
    [km_holds k env p] says that in state [k] the manager is able to unwrap
    [env] to [p]. A wrapped key is held from then on, whatever calls other
    than [Close] follow, and unwrapping it never gives another key and is
    never answered with a rejection: it can only fail for a reason that has
    nothing to do with the envelope. *)
Class KeyManagerSpec (K : Type) `{KeyManager K} := {
  km_inv : K → Prop;
  km_holds : K → KeyEnvelope → list byte → Prop;
  wrap_spec : ∀ dek md k w r k' w', length dek = 32%nat → km_inv k →
    WrapKey dek md k w = (r, k', w') →
    km_inv k' ∧ (∀ env, r = Ok env → km_holds k' env dek) ∧
    (∀ env p, km_holds k env p → km_holds k' env p);
  unwrap_spec : ∀ oenv md k w r k' w', km_inv k →
    UnwrapKey oenv md k w = (r, k', w') →
    km_inv k' ∧ (∀ env p, km_holds k env p → km_holds k' env p) ∧
    (∀ env p, oenv = Some env → km_holds k env p →
       r = Ok p ∨ ∃ e, r = Err e ∧ rejects e = false);
  version_spec : ∀ k w r k' w', km_inv k → ActiveKeyVersion k w = (r, k', w') →
    km_inv k' ∧ ∀ env p, km_holds k env p → km_holds k' env p;
  health_spec : ∀ k w r k' w', km_inv k → HealthCheck k w = (r, k', w') →
    km_inv k' ∧ ∀ env p, km_holds k env p → km_holds k' env p }.

(** Calls other than [Close], by any number of clients. *)
Inductive km_call :=
| CallWrap (dek : list byte) (md : gomap)
| CallUnwrap (env : option KeyEnvelope) (md : gomap)
| CallVersion
| CallHealth.

Definition call_ok (c : km_call) : Prop :=
  match c with CallWrap dek _ => length dek = 32%nat | _ => True end.

Definition km_run1 `{KeyManager K} (c : km_call) (kw : K * World) : K * World :=
  let '(k, w) := kw in
  match c with
  | CallWrap dek md => let '(_, k', w') := WrapKey dek md k w in (k', w')
  | CallUnwrap env md => let '(_, k', w') := UnwrapKey env md k w in (k', w')
  | CallVersion => let '(_, k', w') := ActiveKeyVersion k w in (k', w')
  | CallHealth => let '(_, k', w') := HealthCheck k w in (k', w')
  end.
Definition km_run `{KeyManager K} (cs : list km_call) (kw : K * World) : K * World :=
  foldl (λ kw c, km_run1 c kw) kw cs.

Section spec.
Context `{KeyManagerSpec K}.

Lemma km_run1_spec c k w k' w' :
  call_ok c → km_inv k → km_run1 c (k, w) = (k', w') →
  km_inv k' ∧ ∀ env p, km_holds k env p → km_holds k' env p.
Proof.
  destruct c as [dek md|oenv md| |]; cbn; intros Hc Hi Hr.
  - destruct (WrapKey dek md k w) as [[r k1] w1] eqn:E. simplify_eq.
    by destruct (wrap_spec _ _ _ _ _ _ _ Hc Hi E) as (? & _ & ?).
  - destruct (UnwrapKey oenv md k w) as [[r k1] w1] eqn:E. simplify_eq.
    by destruct (unwrap_spec _ _ _ _ _ _ _ Hi E) as (? & ? & _).
  - destruct (ActiveKeyVersion k w) as [[r k1] w1] eqn:E. simplify_eq. by eapply version_spec.
  - destruct (HealthCheck k w) as [[r k1] w1] eqn:E. simplify_eq. by eapply health_spec.
Qed.

Lemma km_run_spec cs k w k' w' :
  Forall call_ok cs → km_inv k → km_run cs (k, w) = (k', w') →
  km_inv k' ∧ ∀ env p, km_holds k env p → km_holds k' env p.
Proof.
  intros Hcs. revert k w. induction Hcs as [|c cs Hc _ IH]; intros k w Hi Hr.
  - by injection Hr as -> ->.
  - change (km_run cs (km_run1 c (k, w)) = (k', w')) in Hr. destruct (km_run1 c (k, w)) as [k1 w1] eqn:E.
    destruct (km_run1_spec _ _ _ _ _ Hc Hi E) as [Hi1 Hh1]. destruct (IH _ _ Hi1 Hr). eauto.
Qed.
End spec.

(** ** Retries

    [backoff.Retry] of github.com/cenkalti/backoff calls an operation until it
    succeeds, fails permanently, or the retrying is given up; the schedule is
    its own. *)

Inductive attempt (A : Type) :=
| Done (a : A)
| Permanent (e : error)
| Transient (e : error).
Arguments Done {A} _.
Arguments Permanent {A} _.
Arguments Transient {A} _.

Inductive retried {S A : Type} (op : S → attempt A * S) : S → result A → S → Prop :=
| retried_done s a s' : op s = (Done a, s') → retried op s (Ok a) s'
| retried_permanent s e s' : op s = (Permanent e, s') → retried op s (Err e) s'
| retried_give_up s e s' e' :
    op s = (Transient e, s') → e' = e ∨ (∃ c, e' = ctx_error c) → retried op s (Err e') s'
| retried_again s e s' r s'' :
    op s = (Transient e, s') → retried op s' r s'' → retried op s r s''.

Class Backoff := { backoff_Retry : ∀ {S A : Type}, (S → attempt A * S) → S → result A * S }.
Class BackoffLaws `{Backoff} : Prop := {
  backoff_retried : ∀ (S A : Type) (op : S → attempt A * S) s r s',
    backoff_Retry op s = (r, s') → retried op s r s' }.

Definition isPermanentKMSError (e : error) : bool :=
  error_is e ErrUnwrapFailed || error_is e ErrInvalidEnvelope ||
  error_is e ErrKeyNotFound || error_is e ErrProviderUnavailable.

Record RetryingKeyManager (K : Type) := mkRetrying { rt_inner : K }.
Arguments mkRetrying {K} _.
Arguments rt_inner {K} _.

Section retry.
Context `{Backoff} `{KeyManager K}.

(** The operation handed to [backoff.Retry], around a call of the inner
    manager. *)
Definition retry_op {A} (call : K → World → result A * K * World) (kw : K * World) : attempt A * (K * World) :=
  let '(r, k', w') := call kw.1 kw.2 in
  match r with
  | Ok a => (Done a, (k', w'))
  | Err e => if isPermanentKMSError e then (Permanent e, (k', w')) else (Transient e, (k', w'))
  end.

Definition retry_call {A} (call : K → World → result A * K * World) (k : RetryingKeyManager K) (w : World)
    : result A * RetryingKeyManager K * World :=
  let '(r, (k', w')) := backoff_Retry (retry_op call) (rt_inner k, w) in
  match r with
  | Ok a => (Ok a, mkRetrying k', w')
  | Err e => (Err (Wrapf "keymanager/retry: %w" e), mkRetrying k', w')
  end.

Definition lift_retrying {A} (x : A * K * World) : A * RetryingKeyManager K * World :=
  let '(r, k', w') := x in (r, mkRetrying k', w').

#[export] Instance retrying_km : KeyManager (RetryingKeyManager K) := {|
  Provider k := Provider (rt_inner k);
  WrapKey dek md := retry_call (WrapKey dek md);
  UnwrapKey env md := retry_call (UnwrapKey env md);
  ActiveKeyVersion k w := lift_retrying (ActiveKeyVersion (rt_inner k) w);
  HealthCheck k w := lift_retrying (HealthCheck (rt_inner k) w);
  km_Close k w := lift_retrying (km_Close (rt_inner k) w) |}.
End retry.

Lemma rejects_wrap msg e : rejects (Wrapf msg e) = rejects e.
Proof. unfold rejects. cbn. by rewrite !bool_decide_eq_false_2. Qed.

Lemma rejects_ctx c : rejects (ctx_error c) = false.
Proof. by destruct c. Qed.

Section retry_spec.
Context `{Backoff} `{!BackoffLaws} `{KeyManagerSpec K}.

(** A property of the inner manager's states and answers that every call
    keeps is kept by the retried call. *)
Lemma retry_call_spec {A} (call : K → World → result A * K * World) (I : K → Prop) (R : K → result A → Prop) k w r k' w' :
  (∀ k w r k' w', I k → call k w = (r, k', w') → I k' ∧ R k' r) →
  (∀ k e c, R k (Err e) → R k (Err (ctx_error c))) →
  (∀ k e, R k (Err e) → R k (Err (Wrapf "keymanager/retry: %w" e))) →
  I (rt_inner k) → retry_call call k w = (r, k', w') → I (rt_inner k') ∧ R (rt_inner k') r.
Proof.
  intros Hcall Hctx Hwrap HI. unfold retry_call.
  destruct (backoff_Retry (retry_op call) (rt_inner k, w)) as [r0 [k1 w1]] eqn:E.
  enough (I k1 ∧ R k1 r0) by (destruct r0; intros; simplify_eq; cbn; naive_solver).
  apply backoff_retried in E. remember (rt_inner k, w) as s eqn:Es. remember (k1, w1) as s1 eqn:Es1.
  assert (HI' : I s.1) by (by subst). clear Es HI. revert k1 w1 Es1.
  induction E as [s a s' E|s e s' E|s e s' e' E He|s e s' r2 s2 E _ IH]; intros k1 w1 ->;
    unfold retry_op in E; destruct (call s.1 s.2) as [[r1 k2] w2] eqn:Ec; apply Hcall in Ec as [? ?]; try done;
    destruct r1; repeat case_match; simplify_eq; try done.
  - destruct He as [->|[c ->]]; naive_solver.
  - by eapply IH.
Qed.

#[export] Program Instance retrying_spec : KeyManagerSpec (RetryingKeyManager K) := {|
  km_inv k := km_inv (rt_inner k); km_holds k := km_holds (rt_inner k) |}.
Next Obligation.
  intros dek md k w r k' w' Hl Hi Hc. cbn in Hc.
  eapply (retry_call_spec _ (λ k1, km_inv k1 ∧ ∀ env p, km_holds (rt_inner k) env p → km_holds k1 env p)
    (λ k1 r, ∀ env, r = Ok env → km_holds k1 env dek)) in Hc; [naive_solver|..]; [|done..|naive_solver].
  intros k1 w1 r1 k2 w2 [Hi1 Hh1] (? & ? & ?)%wrap_spec; naive_solver.
Qed.
Next Obligation.
  intros oenv md k w r k' w' Hi Hc. cbn in Hc.
  eapply (retry_call_spec _ (λ k1, km_inv k1 ∧ ∀ env p, km_holds (rt_inner k) env p → km_holds k1 env p)
    (λ _ r, ∀ env p, oenv = Some env → km_holds (rt_inner k) env p →
       r = Ok p ∨ ∃ e, r = Err e ∧ rejects e = false)) in Hc; [naive_solver|..|naive_solver].
  - intros k1 w1 r1 k2 w2 [Hi1 Hh1] (? & ? & ?)%unwrap_spec; naive_solver.
  - intros _ e c He env p Ho Hh. right. eexists. split; [done|apply rejects_ctx].
  - intros _ e He env p Ho Hh. right. eexists. split; [done|]. rewrite rejects_wrap. naive_solver.
Qed.
Next Obligation.
  intros k w r k' w' Hi Hc. cbn in *. destruct (ActiveKeyVersion _ _) as [[r1 k1] w1] eqn:E.
  unfold lift_retrying in Hc. simplify_eq. by eapply version_spec.
Qed.
Next Obligation.
  intros k w r k' w' Hi Hc. cbn in *. destruct (HealthCheck _ _) as [[r1 k1] w1] eqn:E.
  unfold lift_retrying in Hc. simplify_eq. by eapply health_spec.
Qed.
End retry_spec.

(** ** The password fallback *)

Definition passwordKMProvider : string := "password".

Record fallbackKeyManager (P F : Type) := mkFallback { fb_primary : P; fb_fallback : F }.
Arguments mkFallback {P F} _ _.
Arguments fb_primary {P F} _.
Arguments fb_fallback {P F} _.

Section fallback.
Context `{KeyManager P} `{KeyManager F}.

Definition lift_primary {A} (k : fallbackKeyManager P F) (x : A * P * World) : A * fallbackKeyManager P F * World :=
  let '(r, k', w') := x in (r, mkFallback k' (fb_fallback k), w').

Definition fallback_UnwrapKey (oenv : option KeyEnvelope) (md : gomap) (k : fallbackKeyManager P F) (w : World)
    : result (list byte) * fallbackKeyManager P F * World :=
  let '(r, p1, w1) := UnwrapKey oenv md (fb_primary k) w in
  match r with
  | Ok plaintext => (Ok plaintext, mkFallback p1 (fb_fallback k), w1)
  | Err e =>
      if (error_is e ErrUnwrapFailed || error_is e ErrInvalidEnvelope) &&
         match oenv with Some env => bool_decide (env_Provider env = passwordKMProvider) | None => false end
      then
        let '(r2, f2, w2) := UnwrapKey oenv md (fb_fallback k) w1 in
        match r2 with
        | Ok plaintext2 => (Ok plaintext2, mkFallback p1 f2, w2)
        | Err _ => (Err (Wrapf "%w: primary: %v; password-fallback: %v" ErrUnwrapFailed), mkFallback p1 f2, w2)
        end
      else (Err e, mkFallback p1 (fb_fallback k), w1)
  end.

(** Both managers are closed; the primary's error takes precedence. *)
Definition fallback_Close (k : fallbackKeyManager P F) (w : World) : option error * fallbackKeyManager P F * World :=
  let '(primaryErr, p1, w1) := km_Close (fb_primary k) w in
  let '(fallbackErr, f2, w2) := km_Close (fb_fallback k) w1 in
  (match primaryErr with Some e => Some e | None => fallbackErr end, mkFallback p1 f2, w2).

#[export] Instance fallback_km : KeyManager (fallbackKeyManager P F) := {|
  Provider k := Provider (fb_primary k);
  WrapKey dek md k w := lift_primary k (WrapKey dek md (fb_primary k) w);
  UnwrapKey := fallback_UnwrapKey;
  ActiveKeyVersion k w := lift_primary k (ActiveKeyVersion (fb_primary k) w);
  HealthCheck k w := lift_primary k (HealthCheck (fb_primary k) w);
  km_Close := fallback_Close |}.
End fallback.

Section fallback_spec.
Context `{KeyManagerSpec P} `{KeyManager F}.

(** The fallback's own state does not matter for keys the primary holds: such
    an envelope is never rejected by the primary, so the fallback is not asked. *)
#[export] Program Instance fallback_spec : KeyManagerSpec (fallbackKeyManager P F) := {|
  km_inv k := km_inv (fb_primary k); km_holds k := km_holds (fb_primary k) |}.
Next Obligation.
  intros dek md k w r k' w' Hl Hi Hc. cbn in *. destruct (WrapKey _ _ _ _) as [[r1 k1] w1] eqn:E.
  unfold lift_primary in Hc. simplify_eq. by eapply wrap_spec.
Qed.
Next Obligation.
  intros oenv md k w r k' w' Hi Hc. cbn in *. unfold fallback_UnwrapKey in Hc.
  destruct (UnwrapKey oenv md (fb_primary k) w) as [[r1 p1] w1] eqn:E.
  apply unwrap_spec in E as (Hi1 & Hh1 & Hr1); [|done].
  assert (Hk : fb_primary k' = p1) by (repeat case_match; simplify_eq; done).
  rewrite Hk. split; [done|]. split; [done|]. intros env p Ho Hh.
  destruct (Hr1 env p Ho Hh) as [->|(e & -> & He)]; [by simplify_eq; left|].
  unfold rejects in He. rewrite He in Hc. cbn in Hc. simplify_eq. right. by exists e.
Qed.
Next Obligation.
  intros k w r k' w' Hi Hc. cbn in *. destruct (ActiveKeyVersion _ _) as [[r1 k1] w1] eqn:E.
  unfold lift_primary in Hc. simplify_eq. by eapply version_spec.
Qed.
Next Obligation.
  intros k w r k' w' Hi Hc. cbn in *. destruct (HealthCheck _ _) as [[r1 k1] w1] eqn:E.
  unfold lift_primary in Hc. simplify_eq. by eapply health_spec.
Qed.
End fallback_spec.
