(* ===== verification/MemoryKeyManager.v ===== *)
(** * The in-memory key manager

    [internal/crypto/keymanager_memory.go]: AES key wrap of RFC 3394 and a
    manager that holds several versions of a master key, with rotation of the
    active version. *)
From S2P Require Import Prelude GoStd KeyManager.
Local Open Scope Z_scope.
Local Open Scope go_scope.

(** ** AES key wrap

    The block cipher of crypto/aes is a parameter: on 16-byte blocks and keys
    of 16, 24 or 32 bytes, decryption inverts encryption. *)

Class AESBlock := {
  aes_Encrypt : list byte → list byte → list byte;
  aes_Decrypt : list byte → list byte → list byte }.

Definition aes_key_size (key : list byte) : bool :=
  (len key =? 16) || (len key =? 24) || (len key =? 32).

Class AESBlockLaws `{AESBlock} : Prop := {
  aes_encrypt_length : ∀ key b, aes_key_size key = true → length b = 16%nat → length (aes_Encrypt key b) = 16%nat;
  aes_decrypt_encrypt : ∀ key b, aes_key_size key = true → length b = 16%nat →
    aes_Decrypt key (aes_Encrypt key b) = b }.

Definition errKeySize : error := Errorf "crypto/aes: invalid key size %d".
Definition defaultIV : list byte := replicate 8 xa6.

(** [binary.BigEndian.PutUint64(a, binary.BigEndian.Uint64(a)^t)] *)
Definition xor64 (a : list byte) (t : Z) : list byte := be_encode 8 (Z.lxor (be_decode a) t).

(** The counter of step [i] of round [j], over [n] registers. *)
Definition stepCounter (n j i : nat) : Z := wrap_u64 (Z.of_nat (n * j + i + 1)).

Section keywrap.
Context `{AESBlock}.

(** The registers: [A] and the eight-byte blocks. *)
Abbreviation regs := (list byte * list (list byte))%type.

Definition wrapStep (kek : list byte) (n j : nat) (st : regs) (i : nat) : regs :=
  let buf := aes_Encrypt kek (st.1 ++ st.2 !!! i) in
  (xor64 (take 8 buf) (stepCounter n j i), <[i := drop 8 buf]> st.2).

Definition unwrapStep (kek : list byte) (n j : nat) (st : regs) (i : nat) : regs :=
  let aCopy := xor64 st.1 (stepCounter n j i) in
  let buf := aes_Decrypt kek (aCopy ++ st.2 !!! i) in
  (take 8 buf, <[i := drop 8 buf]> st.2).

Definition wrapRounds (kek : list byte) (n : nat) (st : regs) : regs :=
  foldl (λ st j, foldl (wrapStep kek n j) st (seq 0 n)) st (seq 0 6).
Definition unwrapRounds (kek : list byte) (n : nat) (st : regs) : regs :=
  foldl (λ st j, foldl (unwrapStep kek n j) st (reverse (seq 0 n))) st (reverse (seq 0 6)).

(** The blocks [plaintext[i*8:]], [i < n]. *)
Definition blocks (n : nat) (l : list byte) : list (list byte) := (λ i, take 8 (drop (i * 8) l)) <$> seq 0 n.

Definition padKey (plaintext : list byte) : list byte :=
  if negb (len plaintext %i 8 =? 0) || (len plaintext <? 16) then
    let padded := resize ((length plaintext + 7) / 8 * 8)%nat x00 plaintext in
    if len padded <? 16 then resize 16 x00 padded else padded
  else plaintext.

Definition aesKeyWrap (kek plaintext : list byte) : result (list byte) :=
  let plaintext := padKey plaintext in
  if negb (aes_key_size kek) then Err errKeySize else
  let n := (length plaintext / 8)%nat in
  let '(a, r) := wrapRounds kek n (defaultIV, blocks n plaintext) in
  Ok (a ++ concat r).

Definition aesKeyUnwrap (kek ciphertext : list byte) : result (list byte) :=
  if (len ciphertext <? 24) || negb (len ciphertext %i 8 =? 0) then
    Err (Errorf "keymanager/memory: invalid wrapped key length")
  else if negb (aes_key_size kek) then Err errKeySize else
  let n := (length ciphertext / 8 - 1)%nat in
  let '(a, r) := unwrapRounds kek n (take 8 ciphertext, blocks n (drop 8 ciphertext)) in
  if negb (bool_decide (a = defaultIV)) then
    Err (Errorf "keymanager/memory: integrity check failed — wrong key or corrupted ciphertext")
  else Ok (concat r).
End keywrap.

(** ** Correctness of the key wrap *)

Lemma foldl_undo {A B} (f g : A → B → A) (I : A → Prop) (ok : B → Prop) :
  (∀ s x, I s → ok x → I (f s x) ∧ g (f s x) x = s) →
  ∀ l s, I s → Forall ok l → I (foldl f s l) ∧ foldl g (foldl f s l) (reverse l) = s.
Proof.
  intros Hfg l. induction l as [|x l IH]; intros s Hs Hl; [done|].
  apply Forall_cons in Hl as [Hx Hl]. destruct (Hfg s x Hs Hx) as [Hs' Hu].
  destruct (IH (f s x) Hs' Hl) as [? E]. cbn [foldl]. split; [done|].
  rewrite reverse_cons, foldl_app, E. exact Hu.
Qed.

Lemma length_xor64 a t : length (xor64 a t) = 8%nat.
Proof. apply length_be_encode. Qed.

Lemma xor64_involutive a t : length a = 8%nat → 0 ≤ t < 2 ^ 64 → xor64 (xor64 a t) t = a.
Proof.
  intros Ha Ht. unfold xor64. rewrite be_decode_encode. pose proof (be_decode_range a) as Hr. rewrite Ha in Hr.
  change (8 * Z.of_nat 8) with 64 in *. rewrite Z.mod_small.
  - rewrite Z.lxor_assoc, Z.lxor_nilpotent, Z.lxor_0_r. by apply be_encode_decode.
  - assert (Hn : 0 ≤ Z.lxor (be_decode a) t) by (apply Z.lxor_nonneg; lia). split; [done|].
    destruct (decide (Z.lxor (be_decode a) t = 0)) as [->|]; [lia|]. apply Z.log2_lt_pow2; [lia|].
    pose proof (Z.log2_lxor (be_decode a) t ltac:(lia) ltac:(lia)).
    assert (∀ x, 0 ≤ x < 2 ^ 64 → Z.log2 x < 64) as Hlog.
    { intros x Hx. destruct (decide (x = 0)) as [->|]; [done|]. apply Z.log2_lt_pow2; lia. }
    pose proof (Hlog _ Hr). pose proof (Hlog _ Ht). lia.
Qed.

Section wrap_correct.
Context `{AESBlock} `{!AESBlockLaws} (kek : list byte) (Hkek : aes_key_size kek = true).

Definition regs_ok (n : nat) (st : list byte * list (list byte)) : Prop :=
  length st.1 = 8%nat ∧ length st.2 = n ∧ Forall (λ b, length b = 8%nat) st.2.

Lemma unwrap_wrapStep n j st i :
  regs_ok n st → (i < n)%nat →
  regs_ok n (wrapStep kek n j st i) ∧ unwrapStep kek n j (wrapStep kek n j st i) i = st.
Proof using All.
  destruct st as [a r]. intros (Ha & Hn & Hr) Hi. unfold wrapStep, unwrapStep. cbn [fst snd] in *.
  destruct (lookup_lt_is_Some_2 r i) as [b Hb]; [lia|]. pose proof (Forall_lookup_1 _ _ _ _ Hr Hb) as Hlb. cbn in Hlb.
  rewrite (list_lookup_total_correct _ _ _ Hb).
  assert (Hab : length (a ++ b) = 16%nat) by (rewrite length_app; lia).
  pose proof (aes_encrypt_length kek _ Hkek Hab) as Hbuf. set (buf := aes_Encrypt kek (a ++ b)) in *.
  assert (Ht8 : length (take 8 buf) = 8%nat) by (rewrite length_take; lia).
  split.
  - split_and!; cbn; [apply length_xor64|by rewrite length_insert|]. apply Forall_insert; [done|]. rewrite length_drop. lia.
  - rewrite xor64_involutive; [|done|pose proof (wrap_u64_range (Z.of_nat (n * j + i + 1))) as Hw; unfold is_u64, stepCounter in *; lia].
    rewrite list_lookup_total_insert_eq by lia. rewrite take_drop. unfold buf. rewrite aes_decrypt_encrypt by done.
    rewrite <-Ha at 1. rewrite take_app_length. f_equal. rewrite list_insert_insert_eq.
    rewrite <-Ha, drop_app_length. by apply list_insert_id.
Qed.

Lemma unwrap_wrapRounds n st :
  regs_ok n st → regs_ok n (wrapRounds kek n st) ∧ unwrapRounds kek n (wrapRounds kek n st) = st.
Proof using All.
  intros Hst. unfold wrapRounds, unwrapRounds.
  apply (foldl_undo _ _ (regs_ok n) (λ _, True)); [|done|by apply Forall_true].
  intros s j Hs _. apply (foldl_undo _ _ (regs_ok n) (λ i, (i < n)%nat)); [|done|].
  - intros s' i Hs' Hi. by apply unwrap_wrapStep.
  - apply Forall_forall. intros i [? ?]%elem_of_seq. lia.
Qed.

Lemma concat_blocks n l : concat (blocks n l) = take (n * 8) l.
Proof using.
  unfold blocks. induction n as [|n IH]; [done|].
  rewrite seq_S, fmap_app, concat_app, IH. cbn [fmap list_fmap concat]. rewrite app_nil_r, Nat.add_0_l.
  replace (S n * 8)%nat with (n * 8 + 8)%nat by lia. symmetry. apply take_add_drop.
Qed.

Lemma blocks_ok n l : length l = (n * 8)%nat → length (blocks n l) = n ∧ Forall (λ b, length b = 8%nat) (blocks n l).
Proof using.
  intros Hl. unfold blocks. split; [by rewrite length_fmap, length_seq|].
  apply Forall_fmap, Forall_forall. intros i [? ?]%elem_of_seq. cbn. rewrite length_take, length_drop. lia.
Qed.

Lemma blocks_concat n r :
  length r = n → Forall (λ b, length b = 8%nat) r → blocks n (concat r) = r ∧ length (concat r) = (n * 8)%nat.
Proof using.
  intros <- Hr. unfold blocks.
  enough (G : ∀ k, (k ≤ length r)%nat → length (concat (drop k r)) = ((length r - k) * 8)%nat ∧
              (λ i, take 8 (drop (i * 8) (concat r))) <$> seq k (length r - k) = drop k r).
  { destruct (G 0%nat) as [G1 G2]; [lia|]. rewrite Nat.sub_0_r in *. done. }
  assert (Hdrop : ∀ k, (k ≤ length r)%nat → drop (k * 8) (concat r) = concat (drop k r)).
  { induction Hr as [|b r Hb Hr IH]; intros [|k] Hk; [done..|]. cbn in Hk. cbn [drop concat Nat.mul].
    change (S k * 8)%nat with (8 + k * 8)%nat. rewrite <-drop_drop, (drop_app_length' b (concat r) 8) by done. apply IH. lia. }
  intros k Hk. remember (length r - k)%nat as d eqn:Hd. revert k Hk Hd. induction d as [|d IH]; intros k Hk Hd.
  - rewrite drop_ge by lia. done.
  - destruct (lookup_lt_is_Some_2 r k) as [b Hb]; [lia|]. rewrite (drop_S _ _ _ Hb).
    destruct (IH (S k)) as [IH1 IH2]; [lia..|]. pose proof (Forall_lookup_1 _ _ _ _ Hr Hb) as Hlb. cbn in Hlb.
    cbn [concat]. rewrite length_app, IH1, Hlb. split; [lia|].
    cbn [seq fmap list_fmap]. rewrite IH2, Hdrop, (drop_S _ _ _ Hb) by lia. cbn [concat].
    rewrite <-Hlb at 1. by rewrite take_app_length.
Qed.

Lemma padKey_length p : ∃ n, length (padKey p) = (n * 8)%nat ∧ (2 ≤ n)%nat.
Proof using.
  unfold padKey. destruct (Z.eqb_spec (Z.rem (len p) 8) 0) as [Hm|Hm]; cbn [negb orb].
  - destruct (Z.ltb_spec (len p) 16); [destruct (Z.ltb_spec (len (resize ((length p + 7) / 8 * 8) x00 p)) 16)|].
    + exists 2%nat. rewrite length_resize. lia.
    + exists ((length p + 7) / 8)%nat. rewrite length_resize in *. lia.
    + exists (length p / 8)%nat. rewrite Z.rem_mod_nonneg in Hm by lia.
      pose proof (Z.div_mod (len p) 8 ltac:(lia)). change 8 with (Z.of_nat 8) in *. rewrite <-Nat2Z.inj_div in *. lia.
  - destruct (Z.ltb_spec (len (resize ((length p + 7) / 8 * 8) x00 p)) 16); rewrite length_resize in *.
    + exists 2%nat. done.
    + exists ((length p + 7) / 8)%nat. lia.
Qed.

(** Unwrapping what was wrapped gives the padded key. *)
Lemma aesKeyUnwrap_wrap p :
  ∃ c, aesKeyWrap kek p = Ok c ∧ len c = len (padKey p) + 8 ∧ aesKeyUnwrap kek c = Ok (padKey p).
Proof using All.
  destruct (padKey_length p) as (n & Hn & Hn2). unfold aesKeyWrap. rewrite Hkek, Hn, Nat.div_mul by lia. cbn [negb].
  destruct (blocks_ok n (padKey p) Hn) as [Hbl Hb8].
  destruct (unwrap_wrapRounds n (defaultIV, blocks n (padKey p))) as [(Ha & Hr & Hr8) Hun]; [done|].
  destruct (wrapRounds _ _ _) as [a r] eqn:E. cbn [fst snd] in *. eexists; split; [done|].
  destruct (blocks_concat n r Hr Hr8) as [Hbc Hlc].
  assert (Hlen : length (a ++ concat r) = (8 + n * 8)%nat) by (rewrite length_app; lia).
  split; [rewrite Hlen; lia|]. unfold aesKeyUnwrap. rewrite Hlen, Hkek.
  rewrite (proj2 (Z.ltb_ge _ _)) by lia. rewrite Z.rem_mod_nonneg by lia.
  replace (Z.of_nat (8 + n * 8) `mod` 8) with 0 by (replace (Z.of_nat (8 + n * 8)) with ((1 + Z.of_nat n) * 8) by lia; by rewrite Z.mod_mul).
  cbn [Z.eqb negb orb]. replace ((8 + n * 8) / 8 - 1)%nat with n
    by (replace (8 + n * 8)%nat with ((1 + n) * 8)%nat by lia; rewrite Nat.div_mul by lia; lia).
  rewrite <-Ha at 1. rewrite take_app_length. rewrite <-Ha at 1. rewrite drop_app_length, Hbc, Hun.
  rewrite bool_decide_eq_true_2 by done. cbn [negb]. by rewrite concat_blocks, take_ge by lia.
Qed.
End wrap_correct.

Lemma padKey_id p : padKey p = p ↔ len p `mod` 8 = 0 ∧ 16 ≤ len p.
Proof.
  split.
  - intros E. destruct (padKey_length p) as (n & Hn & Hn2). rewrite E in Hn. rewrite Hn. split; [|lia].
    rewrite Nat2Z.inj_mul. by apply Z.mod_mul.
  - intros [Hm Hl]. unfold padKey. rewrite Z.rem_mod_nonneg, Hm by lia. cbn [Z.eqb negb orb].
    by rewrite (proj2 (Z.ltb_ge _ _)) by lia.
Qed.

(** ** The manager *)

Record inMemoryKeyManager := mkMemory {
  im_providerName : string; im_keys : gmap Z (list byte); im_activeVersion : Z; im_closed : bool }.

Definition MemoryOption := inMemoryKeyManager → inMemoryKeyManager.

Definition WithMemoryProvider (name : string) : MemoryOption := λ m,
  if decide (name ≠ "") then mkMemory name (im_keys m) (im_activeVersion m) (im_closed m) else m.

Definition WithMemoryVersions (versions : list (Z * list byte)) : MemoryOption := λ m,
  foldl (λ m v, mkMemory (im_providerName m) (<[v.1 := v.2]> (im_keys m))
                  (if im_activeVersion m <? v.1 then v.1 else im_activeVersion m) (im_closed m)) m versions.

(** The order in which the runtime iterates over the versions. *)
Class MapOrder := { map_order : list Z → list Z; map_order_perm : ∀ l, map_order l ≡ₚ l }.

(** [None] for a nil master key, which is then generated. *)
Definition NewInMemoryKeyManager (masterKey : option (list byte)) (opts : list MemoryOption) (w : World)
    : result inMemoryKeyManager * World :=
  let '(key, w) := match masterKey with
                   | Some key => (Ok key, w)
                   | None => match rand_read 32 w with
                             | (Ok key, w) => (Ok key, w)
                             | (Err e, w) => (Err (Wrapf "keymanager/memory: failed to generate master key: %w" e), w)
                             end
                   end in
  match key with
  | Err e => (Err e, w)
  | Ok key =>
      if negb (aes_key_size key) then
        (Err (Errorf "keymanager/memory: master key must be 16, 24, or 32 bytes, got %d"), w)
      else (Ok (foldl (λ m o, o m) (mkMemory "memory" {[1 := key]} 1 false) opts), w)
  end.

Section memory.
Context `{AESBlock} `{MapOrder}.

Definition memory_WrapKey (plaintext : list byte) (md : gomap) (m : inMemoryKeyManager) (w : World)
    : result KeyEnvelope * inMemoryKeyManager * World :=
  let '(cerr, w) := ctx_err w in
  match cerr with
  | Some e => (Err (Wrapf "keymanager/memory: %w" e), m, w)
  | None =>
      if bool_decide (plaintext = []) then (Err (Errorf "keymanager/memory: plaintext DEK is empty"), m, w)
      else if im_closed m then (Err ErrProviderUnavailable, m, w)
      else match im_keys m !! im_activeVersion m with
           | None => (Err (Wrapf "%w: no active key version" ErrKeyNotFound), m, w)
           | Some masterKey =>
               match aesKeyWrap masterKey plaintext with
               | Err e => (Err (Wrapf "keymanager/memory: wrap failed: %w" e), m, w)
               | Ok ciphertext =>
                   let '(t, w) := time_now w in
                   (Ok (mkEnvelope ("memory-v" +:+ FormatInt (im_activeVersion m)) (im_activeVersion m)
                          (im_providerName m) ciphertext t), m, w)
               end
           end
  end.

Definition candidateVersions (m : inMemoryKeyManager) (preferred : Z) : list Z :=
  let vers := map_order (map_to_list (im_keys m)).*1 in
  if 0 <? preferred then preferred :: filter (λ v, v ≠ preferred) vers else vers.

(** The loop over the candidate versions. The last error only fills in the
    message of the final one. *)
Fixpoint tryVersions (m : inMemoryKeyManager) (ciphertext : list byte) (vers : list Z)
    : result (list byte) :=
  match vers with
  | [] => Err (Wrapf "%w: %w" ErrUnwrapFailed)
  | ver :: vers =>
      match im_keys m !! ver with
      | None => tryVersions m ciphertext vers
      | Some masterKey =>
          match aesKeyUnwrap masterKey ciphertext with
          | Ok plaintext => Ok plaintext
          | Err _ => tryVersions m ciphertext vers
          end
      end
  end.

Definition memory_UnwrapKey (envelope : option KeyEnvelope) (md : gomap) (m : inMemoryKeyManager) (w : World)
    : result (list byte) * inMemoryKeyManager * World :=
  let '(cerr, w) := ctx_err w in
  match cerr with
  | Some e => (Err (Wrapf "keymanager/memory: %w" e), m, w)
  | None =>
      match envelope with
      | None => (Err (Wrapf "%w: envelope is nil" ErrInvalidEnvelope), m, w)
      | Some env =>
          if bool_decide (env_Ciphertext env = []) then (Err (Wrapf "%w: wrapped key is empty" ErrInvalidEnvelope), m, w)
          else if im_closed m then (Err ErrProviderUnavailable, m, w)
          else (tryVersions m (env_Ciphertext env) (candidateVersions m (KeyVersion env)), m, w)
      end
  end.

Definition memory_ActiveKeyVersion (m : inMemoryKeyManager) (w : World) : result Z * inMemoryKeyManager * World :=
  (if im_closed m then Err ErrProviderUnavailable else Ok (im_activeVersion m), m, w).
Definition memory_HealthCheck (m : inMemoryKeyManager) (w : World) : option error * inMemoryKeyManager * World :=
  (if im_closed m then Some ErrProviderUnavailable else None, m, w).

(** Closing forgets every master key. *)
Definition memory_Close (m : inMemoryKeyManager) (w : World) : option error * inMemoryKeyManager * World :=
  if im_closed m then (None, m, w)
  else (None, mkMemory (im_providerName m) ∅ (im_activeVersion m) true, w).

#[export] Instance memory_km : KeyManager inMemoryKeyManager := {|
  Provider := im_providerName; WrapKey := memory_WrapKey; UnwrapKey := memory_UnwrapKey;
  ActiveKeyVersion := memory_ActiveKeyVersion; HealthCheck := memory_HealthCheck; km_Close := memory_Close |}.
End memory.

(** *** Rotation *)

Definition allZero (material : list byte) : bool := forallb (λ b, bool_decide (b = x00)) material.

Definition AddVersion (version : Z) (material : list byte) (m : inMemoryKeyManager)
    : option error * inMemoryKeyManager :=
  if negb (len material =? 32) then
    (Some (Errorf "keymanager/memory: master key must be 32 bytes for AES-256, got %d"), m)
  else if allZero material then
    (Some (Errorf "keymanager/memory: master key material must not be all zeros"), m)
  else if im_closed m then (Some ErrProviderUnavailable, m)
  else match im_keys m !! version with
       | Some _ => (Some (Errorf "keymanager/memory: version %d already exists"), m)
       | None => (None, mkMemory (im_providerName m) (<[version := material]> (im_keys m)) (im_activeVersion m) (im_closed m))
       end.

(** The highest version other than the active one, -1 when there is none. *)
Definition bestVersion `{MapOrder} (m : inMemoryKeyManager) : Z :=
  foldl (λ best ver, if negb (ver =? im_activeVersion m) && (best <? ver) then ver else best) (-1)
    (map_order (map_to_list (im_keys m)).*1).

Definition PrepareRotation `{MapOrder} (target : option Z) (m : inMemoryKeyManager) : result RotationPlan :=
  if im_closed m then Err ErrProviderUnavailable else
  let current := im_activeVersion m in
  match target with
  | Some t =>
      match im_keys m !! t with
      | None => Err (Wrapf "%w: version %d not found" ErrKeyNotFound)
      | Some _ =>
          if t =? current then Err (Errorf "keymanager/memory: target version %d is already active")
          else Ok (mkPlan current t)
      end
  | None =>
      let best := bestVersion m in
      if best <? 0 then
        Err (Wrapf "%w: no version available to promote (only version %d exists)" ErrRotationAmbiguous)
      else Ok (mkPlan current best)
  end.

Definition PromoteActiveVersion (plan : RotationPlan) (m : inMemoryKeyManager) : option error * inMemoryKeyManager :=
  if im_closed m then (Some ErrProviderUnavailable, m)
  else if negb (im_activeVersion m =? CurrentVersion plan) then
    (Some (Wrapf "%w: expected current version %d but active is %d" ErrRotationConflict), m)
  else match im_keys m !! TargetVersion plan with
       | None => (Some (Wrapf "%w: target version %d not found" ErrKeyNotFound), m)
       | Some _ => (None, mkMemory (im_providerName m) (im_keys m) (TargetVersion plan) (im_closed m))
       end.

(** ** Correctness of the manager *)

Lemma bestVersion_spec `{MapOrder} m :
  (bestVersion m = -1 ∨ (is_Some (im_keys m !! bestVersion m) ∧ bestVersion m ≠ im_activeVersion m)) ∧
  ∀ v, is_Some (im_keys m !! v) → v ≠ im_activeVersion m → v ≤ bestVersion m.
Proof.
  unfold bestVersion. set (f := λ best ver, _).
  assert (G : ∀ vers b, b ≤ foldl f b vers ∧
    (foldl f b vers = b ∨ (foldl f b vers ∈ vers ∧ foldl f b vers ≠ im_activeVersion m)) ∧
    ∀ v, v ∈ vers → v ≠ im_activeVersion m → v ≤ foldl f b vers).
  { induction vers as [|x vers IH]; intros b; cbn [foldl]; [split_and!; [lia|by left|set_solver]|].
    destruct (IH (f b x)) as (H1 & H2 & H3).
    assert (Hf : b ≤ f b x ∧ (f b x = b ∨ f b x = x ∧ x ≠ im_activeVersion m) ∧ (x ≠ im_activeVersion m → x ≤ f b x)).
    { unfold f. destruct (Z.eqb_spec x (im_activeVersion m)), (Z.ltb_spec b x); cbn; lia. }
    destruct Hf as (Hf1 & Hf2 & Hf3). split_and!.
    - pose proof (proj1 (IH (f b x))). lia.
    - destruct H2 as [H2|[H2 H2']]; [|right; set_solver]. rewrite H2.
      destruct Hf2 as [->|[-> ?]]; [by left|right; set_solver].
    - intros v [->|Hv]%elem_of_cons Hne; [pose proof (proj1 (IH (f b x))); specialize (Hf3 Hne); lia|by apply H3]. }
  assert (Hin : ∀ v, v ∈ map_order (map_to_list (im_keys m)).*1 ↔ is_Some (im_keys m !! v)).
  { intros v. rewrite map_order_perm, list_elem_of_fmap. split.
    - intros ([k key] & -> & Hk%elem_of_map_to_list). by eexists.
    - intros [key Hk]. exists (v, key). by rewrite elem_of_map_to_list. }
  destruct (G (map_order (map_to_list (im_keys m)).*1) (-1)) as (_ & G2 & G3). split.
  - destruct G2 as [->|[? ?]]; [by left|right]. by rewrite <-Hin.
  - intros v Hv. apply G3. by apply Hin.
Qed.

Section memory_spec.
Context `{AESBlock} `{!AESBlockLaws} `{MapOrder}.

Definition memory_holds (m : inMemoryKeyManager) (env : KeyEnvelope) (p : list byte) : Prop :=
  im_closed m = false ∧ 0 < KeyVersion env ∧ env_Ciphertext env ≠ [] ∧
  ∃ key, im_keys m !! KeyVersion env = Some key ∧ aesKeyUnwrap key (env_Ciphertext env) = Ok p.

Lemma memory_wrap_inv dek md m w r m' w' :
  length dek = 32%nat → 0 < im_activeVersion m → memory_WrapKey dek md m w = (r, m', w') →
  m' = m ∧ ∀ env, r = Ok env → memory_holds m env dek.
Proof using All.
  intros Hl Ha. unfold memory_WrapKey. destruct (ctx_err w) as [[e|] w0]; [by intros; simplify_eq|].
  case_bool_decide; [by intros; simplify_eq|].
  destruct (im_closed m) eqn:Hc; [by intros; simplify_eq|].
  destruct (im_keys m !! im_activeVersion m) as [key|] eqn:Hk; [|by intros; simplify_eq].
  destruct (aesKeyWrap key dek) as [c|e] eqn:Ew; [|by intros; simplify_eq].
  destruct (time_now w0) as [t w1]. intros; simplify_eq. split; [done|]. intros env [= <-].
  assert (Hs : aes_key_size key = true) by (unfold aesKeyWrap in Ew; by destruct (aes_key_size key)).
  destruct (aesKeyUnwrap_wrap key Hs dek) as (c' & Ew' & Hlc & Hu). rewrite Ew' in Ew. injection Ew as ->.
  rewrite (proj2 (padKey_id dek)) in * by (rewrite Hl; done).
  split_and!; cbn; [done..| |by exists key]. intros ->. cbn in Hlc. lia.
Qed.

Lemma memory_unwrap_holds env p md m w :
  memory_holds m env p →
  memory_UnwrapKey (Some env) md m w =
    match ctx_err w with
    | (Some e, w') => (Err (Wrapf "keymanager/memory: %w" e), m, w')
    | (None, w') => (Ok p, m, w')
    end.
Proof using All.
  intros (Hc & Hv & Hct & key & Hk & Hu). unfold memory_UnwrapKey. destruct (ctx_err w) as [[e|] w']; [done|].
  rewrite bool_decide_eq_false_2, Hc by done. unfold candidateVersions. rewrite (proj2 (Z.ltb_lt _ _)) by done.
  cbn [tryVersions]. by rewrite Hk, Hu.
Qed.

Lemma memory_unwrap_state oenv md m w r m' w' : memory_UnwrapKey oenv md m w = (r, m', w') → m' = m.
Proof using. unfold memory_UnwrapKey. intros. repeat case_match; by simplify_eq. Qed.

#[export] Program Instance memory_spec : KeyManagerSpec inMemoryKeyManager := {|
  km_inv m := 0 < im_activeVersion m; km_holds := memory_holds |}.
Next Obligation. intros dek md m w r m' w' Hl Ha [-> ?]%memory_wrap_inv; done. Qed.
Next Obligation.
  intros oenv md m w r m' w' Ha Hu. cbn in Hu. pose proof (memory_unwrap_state _ _ _ _ _ _ _ Hu) as ->.
  split; [done|]. split; [done|]. intros env p -> Hh. rewrite (memory_unwrap_holds _ _ _ _ _ Hh) in Hu.
  unfold ctx_err in Hu. destruct (w_ctx w) as [|[c|] cs]; cbn in Hu; simplify_eq; try (by left).
  right. eexists. split; [done|]. rewrite rejects_wrap. apply rejects_ctx.
Qed.
Next Obligation. intros m w r m' w' Ha Hc. cbn in Hc. unfold memory_ActiveKeyVersion in Hc. by simplify_eq. Qed.
Next Obligation. intros m w r m' w' Ha Hc. cbn in Hc. unfold memory_HealthCheck in Hc. by simplify_eq. Qed.

(** Everything clients and operators do to a manager short of closing it. *)
Inductive memory_step : inMemoryKeyManager → inMemoryKeyManager → Prop :=
| step_call c m w m' w' : call_ok c → km_run1 c (m, w) = (m', w') → memory_step m m'
| step_add version material m r m' : AddVersion version material m = (r, m') → memory_step m m'
| step_promote plan m r m' :
    0 < TargetVersion plan → PromoteActiveVersion plan m = (r, m') → memory_step m m'.

Lemma memory_step_keeps m m' env p :
  memory_step m m' → 0 < im_activeVersion m ∧ memory_holds m env p → 0 < im_activeVersion m' ∧ memory_holds m' env p.
Proof using All.
  intros Hs [Ha Hh]. destruct Hs as [c m w m' w' Hc Hr|version material m r m' Hr|plan m r m' Ht Hr].
  - pose proof (km_run1_spec c m w m' w' Hc) as Hk. cbn [km_inv km_holds memory_spec] in Hk.
    destruct (Hk Ha Hr) as [? Hk']. auto.
  - unfold AddVersion in Hr. repeat case_match; simplify_eq; try done. split; [done|].
    destruct Hh as (Hc & Hv & Hct & key & Hk & Hu). split_and!; [done..|]. exists key. cbn.
    rewrite lookup_insert_ne; [done|]. congruence.
  - unfold PromoteActiveVersion in Hr. repeat case_match; simplify_eq; try done; split; [exact Ht|].
    destruct Hh as (? & ? & ? & ?). by split_and!.
Qed.

(** Key wrap. A key-encryption key of an AES size wraps every data key,
    to eight bytes more than its padded length, and unwrapping gives back the
    padded key; padding leaves a key alone exactly when its length is a
    multiple of eight of at least sixteen, as for the gateway's data keys. *)
Theorem key_wrap_roundtrip kek p :
  aes_key_size kek = true →
  (∃ c, aesKeyWrap kek p = Ok c ∧ len c = len (padKey p) + 8 ∧ aesKeyUnwrap kek c = Ok (padKey p)) ∧
  (padKey p = p ↔ len p `mod` 8 = 0 ∧ 16 ≤ len p).
Proof using All. intros Hk. split; [by apply aesKeyUnwrap_wrap|apply padKey_id]. Qed.

(** C18: no rotation loses a data key. Once a 32-byte key is wrapped, then
    after any sequence of calls, staged versions and promotions, the envelope
    unwraps to that key. *)
Theorem memory_rotation_keeps_keys dek md env m w m1 w1 m2 md' w2 :
  length dek = 32%nat → 0 < im_activeVersion m →
  WrapKey dek md m w = (Ok env, m1, w1) → rtc memory_step m1 m2 → w_ctx w2 = [] →
  UnwrapKey (Some env) md' m2 w2 = (Ok dek, m2, w2).
Proof using All.
  intros Hl Ha Hw Hsteps Hctx. apply memory_wrap_inv in Hw as [-> Hh]; [|done..]. specialize (Hh env eq_refl).
  assert (G : 0 < im_activeVersion m2 ∧ memory_holds m2 env dek).
  { eapply (rtc_ind_r (λ m', 0 < im_activeVersion m' ∧ memory_holds m' env dek) m); [done| |done].
    intros x y _ Hs Hx. by eapply memory_step_keeps. }
  destruct G as [_ G]. cbn. rewrite (memory_unwrap_holds _ _ _ _ _ G). unfold ctx_err. by rewrite Hctx.
Qed.
End memory_spec.

(** Rotation plans. A plan names the active version and another existing
    version, the highest one when the operator names none; promoting it makes
    that version active and nothing else, and then every other plan prepared
    from the same state is refused with a conflict. *)
Theorem rotation_plan_correct `{MapOrder} target m plan :
  PrepareRotation target m = Ok plan →
  let m' := mkMemory (im_providerName m) (im_keys m) (TargetVersion plan) (im_closed m) in
  CurrentVersion plan = im_activeVersion m ∧ TargetVersion plan ≠ im_activeVersion m ∧
  is_Some (im_keys m !! TargetVersion plan) ∧
  match target with
  | Some t => TargetVersion plan = t
  | None => ∀ v, is_Some (im_keys m !! v) → v ≠ im_activeVersion m → v ≤ TargetVersion plan
  end ∧
  PromoteActiveVersion plan m = (None, m') ∧
  ∀ target' plan', PrepareRotation target' m = Ok plan' →
    ∃ e, PromoteActiveVersion plan' m' = (Some e, m') ∧ error_is e ErrRotationConflict = true.
Proof.
  intros Hp m'. assert (G : ∀ t pl, PrepareRotation t m = Ok pl →
    im_closed m = false ∧ CurrentVersion pl = im_activeVersion m ∧ TargetVersion pl ≠ im_activeVersion m ∧
    is_Some (im_keys m !! TargetVersion pl) ∧
    match t with
    | Some t => TargetVersion pl = t
    | None => ∀ v, is_Some (im_keys m !! v) → v ≠ im_activeVersion m → v ≤ TargetVersion pl
    end).
  { intros t pl. unfold PrepareRotation. destruct (im_closed m); [done|]. destruct t as [t|].
    - destruct (im_keys m !! t) eqn:Ek; [|done]. destruct (Z.eqb_spec t (im_activeVersion m)); [done|].
      intros [= <-]. cbn. by rewrite Ek.
    - destruct (bestVersion_spec m) as [Hb Hmax]. destruct (Z.ltb_spec (bestVersion m) 0); [done|].
      intros [= <-]. cbn. destruct Hb as [Hb|[? ?]]; [lia|done]. }
  destruct (G _ _ Hp) as (Hc & Hcur & Hne & Hk & Ht). split_and!; try done.
  - unfold PromoteActiveVersion. rewrite Hc, Hcur, Z.eqb_refl. cbn. destruct Hk as [? ->]. unfold m'. by rewrite Hc.
  - intros t' pl' Hp'. destruct (G _ _ Hp') as (_ & Hcur' & _). unfold PromoteActiveVersion. cbn [im_closed im_activeVersion m'].
    rewrite Hc, Hcur', (proj2 (Z.eqb_neq _ _)) by done. cbn. eauto.
Qed.

(** ** The theorems at concrete inputs *)

Module MemoryWitness.
(** A block cipher that reverses its block. *)
#[export] Instance reverse_block : AESBlock := {| aes_Encrypt _ b := reverse b; aes_Decrypt _ b := reverse b |}.
#[export] Instance reverse_block_laws : AESBlockLaws.
Proof. split; cbn; intros; [by rewrite length_reverse|apply reverse_involutive]. Qed.
#[export] Instance sorted_order : MapOrder := {| map_order l := l; map_order_perm l := reflexivity l |}.
Definition world : World := mkWorld 100 [] [] [].
Definition kek : list byte := replicate 32 x11.
Definition dek : list byte := replicate 32 x22.
Definition manager : inMemoryKeyManager := mkMemory "memory" {[1 := kek]} 1 false.
Definition rotated : inMemoryKeyManager := mkMemory "memory" {[1 := kek; 2 := dek]} 1 false.
End MemoryWitness.

Section witnesses.
Import MemoryWitness.

Lemma key_wrap_roundtrip_witness : ∃ c, aesKeyWrap kek dek = Ok c ∧ aesKeyUnwrap kek c = Ok (padKey dek).
Proof. destruct (key_wrap_roundtrip kek dek eq_refl) as [(c & ? & _ & ?) _]. eauto. Defined.

Lemma memory_rotation_keeps_keys_witness :
  ∃ env, WrapKey dek [] manager world = (Ok env, manager, world) ∧ UnwrapKey (Some env) [] rotated world = (Ok dek, rotated, world).
Proof.
  eexists. split; [vm_compute; reflexivity|].
  eapply (memory_rotation_keeps_keys dek [] _ manager world manager world rotated [] world).
  - reflexivity.
  - reflexivity.
  - vm_compute. reflexivity.
  - apply rtc_once, (step_add 2 dek manager None). vm_compute. reflexivity.
  - reflexivity.
Defined.

Lemma rotation_plan_correct_witness :
  PromoteActiveVersion (mkPlan 1 2) rotated = (None, mkMemory "memory" {[1 := kek; 2 := dek]} 2 false).
Proof. apply (rotation_plan_correct None rotated (mkPlan 1 2)). vm_compute. reflexivity. Defined.
End witnesses.
