(* ===== verification/CircuitBreaker.v ===== *)
(** * The circuit breaker around a key manager

    [internal/crypto/keymanager_circuitbreaker.go]. The breaker's fields are
    guarded by a mutex, and the calls to the wrapped manager are made outside
    of it: a request is two critical sections, [allowRequest] and
    [recordResult], and those of different requests interleave freely. *)
From S2P Require Import Prelude GoStd KeyManager.
Local Open Scope Z_scope.
Local Open Scope go_scope.

(** The source's [cbState] is an integer that only ever holds one of these. *)
Inductive cbState := cbStateClosed | cbStateOpen | cbStateHalfOpen.
#[export] Instance cbState_eq_dec : EqDecision cbState.
Proof. solve_decision. Defined.

Record CircuitBreakerConfig := mkCBConfig {
  ConsecutiveFailures : Z; OpenTimeout : Z; SuccessThreshold : Z }.
Definition DefaultCircuitBreakerConfig : CircuitBreakerConfig := mkCBConfig 5 30000000000 2.

(** The fields under the mutex. *)
Record breaker := mkBreaker {
  cb_state : cbState; cb_failures : Z; cb_successes : Z; cb_openedAt : Z; cb_closed : bool }.

Record CircuitBreakerKeyManager (K : Type) := mkCB { cb_inner : K; cb_cfg : CircuitBreakerConfig; cb_br : breaker }.
Arguments mkCB {K} _ _ _.
Arguments cb_inner {K} _.
Arguments cb_cfg {K} _.
Arguments cb_br {K} _.

Definition NewCircuitBreakerKeyManager {K} (inner : K) (cfg : CircuitBreakerConfig) : CircuitBreakerKeyManager K :=
  mkCB inner cfg (mkBreaker cbStateClosed 0 0 0 false).

Definition errOpen : error := Wrapf "keymanager/circuitbreaker: %w" ErrProviderUnavailable.

(** [time.Since(openedAt) >= OpenTimeout]. *)
Definition allowRequest (cfg : CircuitBreakerConfig) (b : breaker) (w : World) : option error * breaker * World :=
  if cb_closed b then (Some errOpen, b, w) else
  match cb_state b with
  | cbStateClosed => (None, b, w)
  | cbStateOpen =>
      let '(now, w) := time_now w in
      if OpenTimeout cfg <=? now - cb_openedAt b
      then (None, mkBreaker cbStateHalfOpen (cb_failures b) 0 (cb_openedAt b) (cb_closed b), w)
      else (Some errOpen, b, w)
  | cbStateHalfOpen => (None, b, w)
  end.

Definition recordResult (cfg : CircuitBreakerConfig) (err : option error) (b : breaker) (w : World) : breaker * World :=
  match err, cb_state b with
  | None, cbStateClosed => (mkBreaker cbStateClosed 0 (cb_successes b) (cb_openedAt b) (cb_closed b), w)
  | None, cbStateHalfOpen =>
      let successes := cb_successes b +i 1 in
      if SuccessThreshold cfg <=? successes
      then (mkBreaker cbStateClosed 0 0 (cb_openedAt b) (cb_closed b), w)
      else (mkBreaker cbStateHalfOpen (cb_failures b) successes (cb_openedAt b) (cb_closed b), w)
  | Some _, cbStateClosed =>
      let failures := cb_failures b +i 1 in
      if ConsecutiveFailures cfg <=? failures
      then let '(now, w) := time_now w in (mkBreaker cbStateOpen 0 (cb_successes b) now (cb_closed b), w)
      else (mkBreaker cbStateClosed failures (cb_successes b) (cb_openedAt b) (cb_closed b), w)
  | Some _, cbStateHalfOpen =>
      let '(now, w) := time_now w in (mkBreaker cbStateOpen (cb_failures b) 0 now (cb_closed b), w)
  | _, cbStateOpen => (b, w)
  end.

Section breaker.
Context `{KeyManager K}.

Definition result_err {A} (r : result A) : option error := match r with Ok _ => None | Err e => Some e end.

(** The body shared by [WrapKey] and [UnwrapKey]. *)
Definition guarded {A} (call : K → World → result A * K * World) (m : CircuitBreakerKeyManager K) (w : World)
    : result A * CircuitBreakerKeyManager K * World :=
  let '(err, b, w) := allowRequest (cb_cfg m) (cb_br m) w in
  match err with
  | Some e => (Err e, mkCB (cb_inner m) (cb_cfg m) b, w)
  | None =>
      let '(r, k, w) := call (cb_inner m) w in
      let '(b, w) := recordResult (cb_cfg m) (result_err r) b w in
      (r, mkCB k (cb_cfg m) b, w)
  end.

Definition lift_breaker {A} (m : CircuitBreakerKeyManager K) (x : A * K * World) : A * CircuitBreakerKeyManager K * World :=
  let '(r, k, w) := x in (r, mkCB k (cb_cfg m) (cb_br m), w).

Definition cb_Close (m : CircuitBreakerKeyManager K) (w : World) : option error * CircuitBreakerKeyManager K * World :=
  let b := cb_br m in
  if cb_closed b then (None, m, w) else
  let '(now, w) := time_now w in
  let '(r, k, w) := km_Close (cb_inner m) w in
  (r, mkCB k (cb_cfg m) (mkBreaker cbStateOpen (cb_failures b) (cb_successes b) now true), w).

#[export] Instance breaker_km : KeyManager (CircuitBreakerKeyManager K) := {|
  Provider m := Provider (cb_inner m);
  WrapKey dek md := guarded (WrapKey dek md);
  UnwrapKey env md := guarded (UnwrapKey env md);
  ActiveKeyVersion m w := lift_breaker m (ActiveKeyVersion (cb_inner m) w);
  HealthCheck m w := lift_breaker m (HealthCheck (cb_inner m) w);
  km_Close := cb_Close |}.
End breaker.

(** ** Interleavings

    The breaker and the number of requests that are inside the wrapped
    manager. *)

Inductive cb_event :=
| Admit
| Reject (e : error)
| Finish (err : option error)
| Shutdown.

Inductive cb_step (cfg : CircuitBreakerConfig) : breaker * nat → cb_event → breaker * nat → Prop :=
| step_admit b n w b' w' : allowRequest cfg b w = (None, b', w') → cb_step cfg (b, n) Admit (b', S n)
| step_reject b n w e b' w' : allowRequest cfg b w = (Some e, b', w') → cb_step cfg (b, n) (Reject e) (b', n)
| step_finish b n w err b' w' : recordResult cfg err b w = (b', w') → cb_step cfg (b, S n) (Finish err) (b', n)
| step_shutdown b n now : cb_closed b = false →
    cb_step cfg (b, n) Shutdown (mkBreaker cbStateOpen (cb_failures b) (cb_successes b) now true, n).

Inductive cb_trace (cfg : CircuitBreakerConfig) : breaker * nat → list cb_event → breaker * nat → Prop :=
| trace_nil s : cb_trace cfg s [] s
| trace_cons s e s' es s'' : cb_step cfg s e s' → cb_trace cfg s' es s'' → cb_trace cfg s (e :: es) s''.

(** A threshold of zero or less acts as one. *)
Definition tripAt (cfg : CircuitBreakerConfig) : Z := Z.max 1 (ConsecutiveFailures cfg).
Definition closeAt (cfg : CircuitBreakerConfig) : Z := Z.max 1 (SuccessThreshold cfg).

Definition cfg_typed (cfg : CircuitBreakerConfig) : Prop :=
  is_i64 (ConsecutiveFailures cfg) ∧ is_i64 (OpenTimeout cfg) ∧ is_i64 (SuccessThreshold cfg).

Definition breaker_inv (cfg : CircuitBreakerConfig) (b : breaker) : Prop :=
  (cb_closed b = true → cb_state b = cbStateOpen) ∧
  0 ≤ cb_failures b < tripAt cfg ∧ 0 ≤ cb_successes b < closeAt cfg.

Section inv.
Context (cfg : CircuitBreakerConfig) (Hcfg : cfg_typed cfg).

Lemma allowRequest_inv b w r b' w' :
  breaker_inv cfg b → allowRequest cfg b w = (r, b', w') →
  breaker_inv cfg b' ∧ cb_closed b' = cb_closed b ∧ (r = None → cb_closed b = false) ∧
  (∀ e, r = Some e → e = errOpen ∧ b' = b).
Proof using.
  intros (Hc & Hf & Hs) Ha. unfold allowRequest in Ha. unfold breaker_inv, closeAt, tripAt in *.
  destruct (cb_closed b) eqn:Ecl, (cb_state b) eqn:Est; repeat case_match; simplify_eq; cbn;
    rewrite ?Ecl, ?Est; split_and!; done || lia || (intros; by simplify_eq) || naive_solver.
Qed.

Lemma recordResult_inv err b w b' w' :
  breaker_inv cfg b → recordResult cfg err b w = (b', w') → breaker_inv cfg b' ∧ cb_closed b' = cb_closed b.
Proof using Hcfg.
  intros (Hc & Hf & Hs) Hr. unfold recordResult in Hr. destruct Hcfg as (H1 & _ & H3). unfold is_i64, breaker_inv, closeAt, tripAt in *.
  destruct err, (cb_state b) eqn:Est; repeat case_match; zbool; simplify_eq; cbn;
    rewrite ?Est; rewrite ?wrap_i64_id in * by lia; split_and!; done || lia || naive_solver.
Qed.

Lemma cb_step_inv s e s' :
  cb_step cfg s e s' → breaker_inv cfg s.1 → breaker_inv cfg s'.1 ∧ (cb_closed s.1 = true → cb_closed s'.1 = true).
Proof using Hcfg.
  intros Hs Hi. destruct Hs as [b n w b' w' Ha|b n w e b' w' Ha|b n w err b' w' Hr|b n now Hc]; cbn in *.
  - apply allowRequest_inv in Ha as (? & -> & _); done.
  - apply allowRequest_inv in Ha as (? & -> & _); done.
  - apply recordResult_inv in Hr as (? & ->); done.
  - split; [|done]. destruct Hi as (_ & Hf & Hs). exact (conj (λ _, eq_refl) (conj Hf Hs)).
Qed.

Lemma cb_trace_inv s es s' :
  cb_trace cfg s es s' → breaker_inv cfg s.1 → breaker_inv cfg s'.1 ∧ (cb_closed s.1 = true → cb_closed s'.1 = true ∧ Admit ∉ es).
Proof using Hcfg.
  induction 1 as [s|s e s1 es s2 Hs _ IH]; intros Hi; [set_solver|].
  destruct (cb_step_inv _ _ _ Hs Hi) as [Hi1 Hc1]. destruct (IH Hi1) as [Hi2 Hc2]. split; [done|].
  intros Hc. destruct (Hc2 (Hc1 Hc)) as [? Hes]. split; [done|]. intros [<-|]%elem_of_cons; [|done].
  inversion Hs as [b n w b' w' Ha| | |]; subst. apply allowRequest_inv in Ha as (_ & _ & Hn & _); [|done].
  cbn in Hc. rewrite Hn in Hc; done.
Qed.
End inv.

(** *** Recording a run of results *)

Fixpoint recordAll (cfg : CircuitBreakerConfig) (rs : list (option error * World)) (b : breaker) : breaker :=
  match rs with
  | [] => b
  | (err, w) :: rs => recordAll cfg rs (recordResult cfg err b w).1
  end.

Definition failed (r : option error * World) : Prop := r.1 ≠ None.

(** [n] consecutive failures somewhere in [rs]. *)
Definition has_run (n : Z) (rs : list (option error * World)) : Prop :=
  ∃ pre run post, rs = pre ++ run ++ post ∧ len run = n ∧ Forall failed run.

Lemma recordAll_open cfg rs b : cb_state b = cbStateOpen → recordAll cfg rs b = b.
Proof.
  intros Hb. induction rs as [|[err w] rs IH]; [done|]. cbn.
  unfold recordResult. rewrite Hb. by destruct err.
Qed.

Lemma has_run_ok n rs w : 0 < n → has_run n ((None, w) :: rs) ↔ has_run n rs.
Proof.
  intros Hn. split.
  - intros ([|x pre] & run & post & E & Hl & Hf).
    + destruct run as [|y run]; [cbn in Hl; lia|]. injection E as <- _. apply Forall_cons in Hf as [Hf _]. by destruct Hf.
    + injection E as _ ->. by exists pre, run, post.
  - intros (pre & run & post & -> & ? & ?). by exists ((None, w) :: pre), run, post.
Qed.

(** With [k] failures already counted, a closed breaker stays closed until a
    run of failures completes one of the length at which it trips. *)
Lemma recordAll_closed cfg rs b :
  cfg_typed cfg → cb_state b = cbStateClosed → 0 ≤ cb_failures b < tripAt cfg →
  cb_state (recordAll cfg rs b) = cbStateClosed ↔
    ¬ has_run (tripAt cfg) rs ∧
    ¬ (∃ run post, rs = run ++ post ∧ cb_failures b + len run = tripAt cfg ∧ Forall failed run).
Proof.
  intros (Ht & _) Hb Hf. unfold is_i64 in Ht. revert b Hb Hf. induction rs as [|[err w] rs IH]; intros b Hb Hf.
  - cbn. split; [|done]. intros _. unfold tripAt in *. split.
    + intros (pre & run & post & E & Hl & _). symmetry in E. apply app_nil in E as [_ E]. apply app_nil in E as [-> _]. cbn in Hl. lia.
    + intros (run & post & E & Hl & _). symmetry in E. apply app_nil in E as [-> _]. cbn in Hl. lia.
  - cbn [recordAll]. unfold recordResult. rewrite Hb. destruct err as [e|].
    + assert (Hw : cb_failures b +i 1 = cb_failures b + 1) by (apply wrap_i64_id; unfold tripAt in *; lia). rewrite Hw.
      destruct (Z.leb_spec (ConsecutiveFailures cfg) (cb_failures b + 1)) as [Htrip|Hno].
      * destruct (time_now w) as [now w1]. cbn [fst]. rewrite recordAll_open by done. cbn. split; [done|].
        intros [_ Hn]. destruct Hn. exists [(Some e, w)], rs. split; [done|]. cbn.
        split; [unfold tripAt in *; lia|]. by repeat constructor.
      * cbn [fst]. rewrite IH; [|done|cbn; unfold tripAt; lia]. cbn [cb_failures]. split.
        -- intros [Hn1 Hn2]. split.
           ++ intros ([|x pre] & run & post & E & Hl & Hfr).
              ** cbn in E. destruct Hn2. destruct run as [|y run]; [unfold tripAt in *; cbn in Hl; lia|].
                 injection E as <- ->. apply Forall_cons in Hfr as [_ Hfr].
                 exists (take (Z.to_nat (tripAt cfg - (cb_failures b + 1))) run), (drop (Z.to_nat (tripAt cfg - (cb_failures b + 1))) run ++ post).
                 rewrite app_assoc, take_drop. split; [done|]. split; [|by apply Forall_take].
                 cbn in Hl. rewrite length_take. unfold tripAt in *. lia.
              ** injection E as <- ->. destruct Hn1. by exists pre, run, post.
           ++ intros (run & post & E & Hl & Hfr). destruct run as [|y run]; [unfold tripAt in *; cbn in Hl; lia|].
              injection E as <- ->. apply Forall_cons in Hfr as [_ Hfr]. destruct Hn2. exists run, post. cbn in Hl. split_and!; [done|lia|done].
        -- intros [Hn1 Hn2]. split.
           ++ intros (pre & run & post & -> & Hl & Hfr). destruct Hn1. by exists ((Some e, w) :: pre), run, post.
           ++ intros (run & post & -> & Hl & Hfr). destruct Hn2. exists ((Some e, w) :: run), post. cbn.
              split_and!; [done|lia|by constructor].
    + cbn [fst]. rewrite IH; [|done|cbn; unfold tripAt; lia]. cbn [cb_failures]. rewrite has_run_ok by (unfold tripAt; lia).
      split; intros [Hn1 Hn2]; (split; [done|]); intros (run & post & E & Hl & Hfr).
      * destruct run as [|y run]; [unfold tripAt in *; cbn in Hl; lia|]. injection E as <- _. apply Forall_cons in Hfr as [Hfr _]. by destruct Hfr.
      * destruct Hn1. exists [], run, post. split_and!; [done|lia|done].
Qed.

(** From a closed breaker a run of results leads to a closed or an open one. *)
Lemma recordAll_states cfg rs b :
  cb_state b = cbStateClosed →
  cb_state (recordAll cfg rs b) = cbStateClosed ∨ cb_state (recordAll cfg rs b) = cbStateOpen.
Proof.
  revert b. induction rs as [|[err w] rs IH]; intros b Hb; [by left|]. cbn [recordAll]. unfold recordResult. rewrite Hb.
  destruct err; repeat case_match; cbn [fst]; try (by apply IH). right. by rewrite recordAll_open.
Qed.

Lemma guarded_half_open {K A} (call : K → World → result A * K * World) m w a k' w' :
  cb_closed (cb_br m) = false → cb_state (cb_br m) = cbStateHalfOpen → call (cb_inner m) w = (Ok a, k', w') →
  guarded call m w = (Ok a, mkCB k' (cb_cfg m) (recordResult (cb_cfg m) None (cb_br m) w').1, w').
Proof.
  intros Hc Hs Hcall. unfold guarded, allowRequest. rewrite Hc, Hs, Hcall. cbn [result_err].
  by destruct (recordResult _ _ _ _) as [b w1] eqn:E; unfold recordResult in E; rewrite Hs in E; case_match; simplify_eq.
Qed.

(** A half-open breaker that is [j] successes short of closing closes after
    [j] successful calls. *)
Lemma guarded_recovers {K A} (call : K → World → result A * K * World) j m w :
  (∀ k w, ∃ a k' w', call k w = (Ok a, k', w')) → cfg_typed (cb_cfg m) →
  cb_closed (cb_br m) = false → cb_state (cb_br m) = cbStateHalfOpen → 0 ≤ cb_successes (cb_br m) →
  cb_successes (cb_br m) + Z.of_nat (S j) = closeAt (cb_cfg m) →
  let m' := (Nat.iter (S j) (λ mw : CircuitBreakerKeyManager K * World, let '(_, m', w') := guarded call mw.1 mw.2 in (m', w')) (m, w)).1 in
  cb_state (cb_br m') = cbStateClosed ∧ cb_failures (cb_br m') = 0 ∧ cb_closed (cb_br m') = false.
Proof.
  intros Hcall. revert m w. induction j as [|j IH]; intros m w Hcfg Hcl Hst H0 Hs m'.
  all: subst m'; rewrite Nat.iter_succ_r; cbn [fst snd].
  all: destruct (Hcall (cb_inner m) w) as (a & k' & w' & Ec); rewrite (guarded_half_open _ _ _ _ _ _ Hcl Hst Ec).
  all: unfold recordResult; rewrite Hst; pose proof Hcfg as (_ & _ & Hi); unfold is_i64, closeAt in *.
  all: rewrite wrap_i64_id by lia.
  - rewrite (proj2 (Z.leb_le _ _)) by lia. cbn. done.
  - rewrite (proj2 (Z.leb_gt _ _)) by lia. apply IH; cbn; unfold closeAt; done || lia.
Qed.

(** A waiting request can be admitted any number of times once the breaker is
    half open: the state does not limit the number of probes. *)
Lemma half_open_admits_all cfg b n k :
  cb_closed b = false → cb_state b = cbStateHalfOpen → cb_trace cfg (b, n) (replicate k Admit) (b, k + n)%nat.
Proof.
  intros Hc Hs. revert n. induction k as [|k IH]; intros n; [constructor|]. cbn [replicate].
  econstructor; [apply (step_admit cfg b n (mkWorld 0 [] [] []) b (mkWorld 0 [] [] []))|].
  - unfold allowRequest. by rewrite Hc, Hs.
  - replace (S k + n)%nat with (k + S n)%nat by lia. apply IH.
Qed.

Section breaker_spec.
Context `{KeyManagerSpec K}.

Lemma guarded_spec {A} (call : K → World → result A * K * World) (I : K → Prop) (R : result A → K → Prop) m w r m' w' :
  (∀ k w r k' w', I k → call k w = (r, k', w') → I k' ∧ R r k') → (∀ k, I k → R (Err errOpen) k) →
  I (cb_inner m) → guarded call m w = (r, m', w') → I (cb_inner m') ∧ R r (cb_inner m').
Proof using.
  intros Hcall Hrej HI Hg. unfold guarded in Hg. destruct (allowRequest _ _ _) as [[[e|] b] w1] eqn:Ea.
  - simplify_eq. cbn. split; [done|]. unfold allowRequest in Ea. repeat case_match; simplify_eq; by apply Hrej.
  - destruct (call (cb_inner m) w1) as [[r1 k1] w2] eqn:Ec. destruct (recordResult _ _ _ _). simplify_eq. by eapply Hcall.
Qed.

#[export] Program Instance breaker_spec : KeyManagerSpec (CircuitBreakerKeyManager K) := {|
  km_inv m := km_inv (cb_inner m); km_holds m := km_holds (cb_inner m) |}.
Next Obligation.
  intros dek md m w r m' w' Hl Hi Hc. cbn in Hc.
  eapply (guarded_spec _ (λ k1, km_inv k1 ∧ ∀ env p, km_holds (cb_inner m) env p → km_holds k1 env p)
    (λ r k1, ∀ env, r = Ok env → km_holds k1 env dek)) in Hc; [naive_solver|..]; [|done|naive_solver].
  intros k1 w1 r1 k2 w2 [Hi1 Hh1] (? & ? & ?)%wrap_spec; naive_solver.
Qed.
Next Obligation.
  intros oenv md m w r m' w' Hi Hc. cbn in Hc.
  eapply (guarded_spec _ (λ k1, km_inv k1 ∧ ∀ env p, km_holds (cb_inner m) env p → km_holds k1 env p)
    (λ r _, ∀ env p, oenv = Some env → km_holds (cb_inner m) env p →
       r = Ok p ∨ ∃ e, r = Err e ∧ rejects e = false)) in Hc; [naive_solver|..|naive_solver].
  - intros k1 w1 r1 k2 w2 [Hi1 Hh1] (? & ? & ?)%unwrap_spec; naive_solver.
  - intros _ _ env p Ho Hh. right. by eexists.
Qed.
Next Obligation.
  intros m w r m' w' Hi Hc. cbn in *. destruct (ActiveKeyVersion _ _) as [[r1 k1] w1] eqn:E.
  unfold lift_breaker in Hc. simplify_eq. by eapply version_spec.
Qed.
Next Obligation.
  intros m w r m' w' Hi Hc. cbn in *. destruct (HealthCheck _ _) as [[r1 k1] w1] eqn:E.
  unfold lift_breaker in Hc. simplify_eq. by eapply health_spec.
Qed.
End breaker_spec.

(** ** Theorems *)

(** The breaker trips exactly on consecutive failures. Recording any run
    of results into a new breaker leaves it closed when the run has no
    [ConsecutiveFailures] failures in a row, and open when it has. *)
Theorem breaker_trips_exactly {K} (inner : K) cfg rs :
  cfg_typed cfg →
  let b := recordAll cfg rs (cb_br (NewCircuitBreakerKeyManager inner cfg)) in
  (¬ has_run (tripAt cfg) rs → cb_state b = cbStateClosed) ∧ (has_run (tripAt cfg) rs → cb_state b = cbStateOpen).
Proof.
  intros Hcfg b. pose proof (recordAll_closed cfg rs (cb_br (NewCircuitBreakerKeyManager inner cfg)) Hcfg eq_refl) as G.
  specialize (G ltac:(cbn; unfold tripAt; lia)). pose proof (recordAll_states cfg rs (cb_br (NewCircuitBreakerKeyManager inner cfg)) eq_refl).
  fold b in G, H. split.
  - intros Hn. apply G. split; [done|]. intros (run & post & -> & Hl & Hf). destruct Hn. by exists [], run, post.
  - intros Hr. destruct H as [H|H]; [|done]. by apply G in H as [[] _].
Qed.

(** Failing fast and shutting down. In every interleaving of requests the
    counters stay below their thresholds, every rejection is
    [ErrProviderUnavailable], and no request is admitted after the shutdown,
    whatever the requests still in flight report. A request that arrives
    after the shutdown, or before [OpenTimeout] has passed since the breaker
    opened, leaves the manager and the one it wraps untouched. *)
Theorem breaker_fails_fast `{KeyManager K} (inner : K) cfg es b n :
  cfg_typed cfg → cb_trace cfg (cb_br (NewCircuitBreakerKeyManager inner cfg), 0%nat) es (b, n) →
  breaker_inv cfg b ∧
  (∀ e, Reject e ∈ es → error_is e ErrProviderUnavailable = true) ∧
  (∀ pre post, es = pre ++ Shutdown :: post → Admit ∉ post) ∧
  ∀ k w dek env md,
    let m := mkCB k cfg b in
    (cb_closed b = true ∨ (cb_state b = cbStateOpen ∧ (time_now w).1 - cb_openedAt b < OpenTimeout cfg)) →
    ∃ w', WrapKey dek md m w = (Err errOpen, m, w') ∧ UnwrapKey env md m w = (Err errOpen, m, w').
Proof.
  intros Hcfg Htr. assert (Hi0 : breaker_inv cfg (cb_br (NewCircuitBreakerKeyManager inner cfg)))
    by (unfold breaker_inv, tripAt, closeAt; cbn; split_and!; done || lia).
  destruct (cb_trace_inv cfg Hcfg _ _ _ Htr Hi0) as [Hi _]. split; [done|].
  remember (cb_br (NewCircuitBreakerKeyManager inner cfg), 0%nat) as s0 eqn:Hs0.
  assert (Hi1 : breaker_inv cfg s0.1) by (by subst). clear Hs0 Hi0. split_and!.
  - remember (b, n) as s1. clear Heqs1 Hi. induction Htr as [s|s e s1 es s2 Hs _ IH]; intros e' He'; [set_solver|].
    destruct (cb_step_inv cfg Hcfg _ _ _ Hs Hi1) as [Hi2 _]. apply elem_of_cons in He' as [<-|He']; [|by apply IH].
    inversion Hs as [|b1 n1 w e1 b2 w2 Ha| |]; subst. by apply allowRequest_inv in Ha as (_ & _ & _ & Ha); [destruct (Ha _ eq_refl) as [-> _]|].
  - remember (b, n) as s1. clear Heqs1 Hi. induction Htr as [s|s e s1 es s2 Hs Htr IH]; intros pre post E; [by destruct pre|].
    destruct (cb_step_inv cfg Hcfg _ _ _ Hs Hi1) as [Hi2 _]. destruct pre as [|e' pre]; [|injection E as -> ->; by eapply IH].
    injection E as -> ->. destruct (cb_trace_inv cfg Hcfg _ _ _ Htr Hi2) as [_ G]. apply G.
    by inversion Hs; subst.
  - intros k w dek env md m Hm. cbn [WrapKey UnwrapKey breaker_km].
    assert (Ha : ∃ w', allowRequest cfg b w = (Some errOpen, b, w')).
    { unfold allowRequest. destruct (cb_closed b) eqn:Ec; [by exists w|]. destruct Hm as [?|[-> Hlt]]; [done|].
      destruct (time_now w) as [now w']. cbn in Hlt. rewrite (proj2 (Z.leb_gt _ _)) by lia. by exists w'. }
    destruct Ha as [w' Ha]. exists w'. unfold guarded. cbn [cb_cfg cb_br m]. by rewrite Ha.
Qed.


(** ** The theorems at concrete inputs *)

Module BreakerWitness.
Definition cfg : CircuitBreakerConfig := mkCBConfig 2 30 2.
Definition at_time (t : Z) : World := mkWorld t [] [] [].
Definition failure : option error := Some (Errorf "connection refused").
Definition tripped : breaker := mkBreaker cbStateOpen 0 0 7 false.
End BreakerWitness.

Section witnesses.
Import BreakerWitness.

Lemma cfg_is_typed : cfg_typed cfg.
Proof. split_and!; done. Qed.

Lemma breaker_trips_exactly_witness :
  cb_state (recordAll cfg [(failure, at_time 5); (failure, at_time 7)] (cb_br (NewCircuitBreakerKeyManager tt cfg))) = cbStateOpen.
Proof.
  apply (breaker_trips_exactly tt cfg [(failure, at_time 5); (failure, at_time 7)]).
  - apply cfg_is_typed.
  - exists [], [(failure, at_time 5); (failure, at_time 7)], []. split; [reflexivity|]. split; [reflexivity|]. by repeat constructor.
Defined.

Lemma breaker_fails_fast_witness : breaker_inv cfg tripped.
Proof.
  apply (@breaker_fails_fast unit
    {| Provider _ := ""; WrapKey _ _ k w := (Err EOF, k, w); UnwrapKey _ _ k w := (Err EOF, k, w);
       ActiveKeyVersion k w := (Err EOF, k, w); HealthCheck k w := (None, k, w); km_Close k w := (None, k, w) |}
    tt cfg [Admit; Admit; Finish failure; Finish failure] tripped 0).
  - apply cfg_is_typed.
  - econstructor; [eapply (step_admit cfg _ _ (at_time 1)); reflexivity|].
    econstructor; [eapply (step_admit cfg _ _ (at_time 2)); reflexivity|].
    econstructor; [eapply (step_finish cfg _ _ (at_time 5)); reflexivity|].
    econstructor; [eapply (step_finish cfg _ _ (at_time 7)); reflexivity|].
    constructor.
Defined.

End witnesses.
