(* ===== verification/KeyStack.v ===== *)
(** * The key-manager stack

    [BuildKeyManager] of internal/api/crypto_factory.go puts a retry layer and
    a circuit breaker around the base manager, and cmd/server/main.go puts the
    password fallback around the result. The contracts of the layers compose:
    the theorem is proved once against [KeyManagerSpec] and holds for every
    choice of layers. *)
From S2P Require Import Prelude GoStd KeyManager MemoryKeyManager CircuitBreaker.
Local Open Scope Z_scope.

(** A manager of some type, with its contract. *)
Record AnyKM := mkAny {
  any_type : Type; any_km :: KeyManager any_type; any_spec :: KeyManagerSpec any_type; any_state : any_type }.
Arguments mkAny _ {_ _} _.

Record layers := mkLayers { retry_enabled : bool; breaker_enabled : option CircuitBreakerConfig }.

Section stack.
Context `{Backoff} `{!BackoffLaws}.

Definition retryLayer (cfg : layers) (m : AnyKM) : AnyKM :=
  if retry_enabled cfg then mkAny (RetryingKeyManager (any_type m)) (mkRetrying (any_state m)) else m.
Definition breakerLayer (cfg : layers) (m : AnyKM) : AnyKM :=
  match breaker_enabled cfg with
  | Some c => mkAny (CircuitBreakerKeyManager (any_type m)) (NewCircuitBreakerKeyManager (any_state m) c)
  | None => m
  end.

(** The layers of [BuildKeyManager] below the data-key cache, innermost first. *)
Definition BuildKeyManager (cfg : layers) (base : AnyKM) : AnyKM := breakerLayer cfg (retryLayer cfg base).

(** [NewFallbackKeyManager], when a password is configured as well. *)
Definition withFallback {F} `{KeyManager F} (fallback : option F) (m : AnyKM) : AnyKM :=
  match fallback with
  | Some f => mkAny (fallbackKeyManager (any_type m) F) (mkFallback (any_state m) f)
  | None => m
  end.

Definition any_inv (m : AnyKM) : Prop := km_inv (any_state m).

Lemma BuildKeyManager_inv {F} `{KeyManager F} (fallback : option F) cfg base :
  any_inv base → any_inv (withFallback fallback (BuildKeyManager cfg base)).
Proof using All.
  intros Hi. unfold withFallback, BuildKeyManager, breakerLayer, retryLayer, any_inv in *.
  destruct fallback, (breaker_enabled cfg), (retry_enabled cfg); exact Hi.
Qed.

(** C26: wrapped data keys survive. Whatever layers are configured around a
    manager that meets its contract, a data key it has wrapped is recovered
    exactly, after any calls of other requests: unwrapping gives that key, or
    fails with an error that does not reject the envelope (a cancelled
    request, an open breaker), never with another key and never through the
    password fallback. *)
Theorem key_stack_keeps_keys {F} `{KeyManager F} (fallback : option F) cfg base dek md env k1 w w1 cs k2 w2 md' r k3 w3 :
  any_inv base → length dek = 32%nat →
  let m := withFallback fallback (BuildKeyManager cfg base) in
  WrapKey dek md (any_state m) w = (Ok env, k1, w1) →
  Forall call_ok cs → km_run cs (k1, w1) = (k2, w2) →
  UnwrapKey (Some env) md' k2 w2 = (r, k3, w3) →
  r = Ok dek ∨ ∃ e, r = Err e ∧ rejects e = false.
Proof using All.
  intros Hb Hl m Hw Hcs Hrun Hu. pose proof (BuildKeyManager_inv fallback cfg base Hb) as Hi.
  apply wrap_spec in Hw as (Hi1 & Hh1 & _); [|done..]. specialize (Hh1 env eq_refl).
  apply km_run_spec in Hrun as [Hi2 Hh2]; [|done..]. apply Hh2 in Hh1.
  apply unwrap_spec in Hu as (_ & _ & Hr); [|done]. by eapply Hr.
Qed.
End stack.

(** ** The theorem at a concrete input *)

Section witness.
Import MemoryWitness BreakerWitness.

(** A schedule that never retries. *)
#[local] Instance once : Backoff := {|
  backoff_Retry S A op s := match op s with
                            | (Done a, s') => (Ok a, s')
                            | (Permanent e, s') | (Transient e, s') => (Err e, s')
                            end |}.
#[local] Instance once_laws : BackoffLaws.
Proof.
  split. intros S A op s r s'. cbn. destruct (op s) as [[a|e|e] s1] eqn:E; intros [= <- <-].
  - by constructor.
  - by constructor.
  - eapply retried_give_up; [done|by left].
Qed.

Definition envelope : KeyEnvelope :=
  mkEnvelope "memory-v1" 1 "memory" (match aesKeyWrap kek dek with Ok c => c | Err _ => [] end) 100.

Lemma key_stack_keeps_keys_witness :
  let base := mkAny inMemoryKeyManager manager in
  let m := withFallback (Some manager) (BuildKeyManager (mkLayers true (Some cfg)) base) in
  UnwrapKey (Some envelope) [] (any_state m) world = (Ok dek, any_state m, world) ∧
  (Ok dek = Ok dek ∨ ∃ e, Ok dek = Err e ∧ rejects e = false).
Proof.
  intros base m. split; [reflexivity|].
  apply (key_stack_keeps_keys (Some manager) (mkLayers true (Some cfg)) base dek [] envelope (any_state m) world world
    [] (any_state m) world [] (Ok dek) (any_state m) world).
  - reflexivity.
  - reflexivity.
  - reflexivity.
  - constructor.
  - reflexivity.
  - reflexivity.
Defined.
End witness.
