(* ===== verification/KeyCache.v ===== *)
(** * The data-key cache

    [internal/crypto/keymanager_cache.go]: unwrapped data keys are kept for a
    bounded time, in a map with a list of fingerprints in order of use. The
    cached slices are modelled as arrays of a heap, because the code promises
    to overwrite them: [zeroBytes] writes to the array, and what remains of an
    entry that was dropped is visible in the heap. Each critical section is a
    function, [UnwrapKey] is composed of them, and the step relation lets the
    sections of concurrent requests, the cleanup and [Close] interleave. *)
From S2P Require Import Prelude GoStd Primitives KeyManager.
Local Open Scope Z_scope.
Local Open Scope go_scope.

Record cacheEntry := mkEntry { ce_plaintext : nat; ce_expiresAt : Z }.

Record DEKCacheConfig := mkCacheConfig {
  cc_Enabled : bool; cc_TTL : Z; cc_MaxEntries : Z; cc_CleanupInterval : Z }.
Definition second : Z := 1000000000.
Definition DefaultDEKCacheConfig : DEKCacheConfig := mkCacheConfig false (60 * second) 1000 0.

(** The fields under the mutex, with the heap their slices live in. *)
Record cache := mkCache {
  ca_entries : gmap (list byte) cacheEntry; ca_lruOrder : list (list byte);
  ca_heap : list (list byte); ca_closed : bool }.

Record CachingKeyManager (K : Type) := mkCaching { ck_inner : K; ck_cfg : DEKCacheConfig; ck_cache : cache }.
Arguments mkCaching {K} _ _ _.
Arguments ck_inner {K} _.
Arguments ck_cfg {K} _.
Arguments ck_cache {K} _.

Definition cacheFingerprint `{SHA256} (ciphertext : list byte) : list byte := sha256 ciphertext.

(** The configuration in use and the interval of the cleanup ticker. *)
Definition normalizeCacheConfig (cfg : DEKCacheConfig) : DEKCacheConfig :=
  mkCacheConfig (cc_Enabled cfg)
    (if cc_TTL cfg <=? 0 then cc_TTL DefaultDEKCacheConfig else cc_TTL cfg)
    (if cc_MaxEntries cfg <=? 0 then cc_MaxEntries DefaultDEKCacheConfig else cc_MaxEntries cfg)
    (cc_CleanupInterval cfg).
Definition cleanupInterval (cfg : DEKCacheConfig) : Z :=
  let cfg := normalizeCacheConfig cfg in
  if cc_CleanupInterval cfg <=? 0 then
    let i := cc_TTL cfg /i 2 in if i <? 5 * second then 5 * second else i
  else cc_CleanupInterval cfg.
Definition empty_cache : cache := mkCache ∅ [] [] false.
Definition NewCachingKeyManager {K} (inner : K) (cfg : DEKCacheConfig) : CachingKeyManager K :=
  mkCaching inner (normalizeCacheConfig cfg) empty_cache.

(** ** Critical sections *)

Definition zeroed (b : list byte) : list byte := replicate (length b) x00.
(** [zeroBytes] on the array of an entry. *)
Definition zeroBytes (loc : nat) (c : cache) : cache :=
  mkCache (ca_entries c) (ca_lruOrder c) (alter zeroed loc (ca_heap c)) (ca_closed c).
(** [zeroBytes(entry.plaintext); delete(c.entries, fp)] *)
Definition dropEntry (fp : list byte) (e : cacheEntry) (c : cache) : cache :=
  let c := zeroBytes (ce_plaintext e) c in
  mkCache (delete fp (ca_entries c)) (ca_lruOrder c) (ca_heap c) (ca_closed c).
Definition setOrder (order : list (list byte)) (c : cache) : cache :=
  mkCache (ca_entries c) order (ca_heap c) (ca_closed c).

Fixpoint evictLoop (now : Z) (order newOrder : list (list byte)) (c : cache) : cache :=
  match order with
  | [] => setOrder newOrder c
  | fp :: order =>
      match ca_entries c !! fp with
      | None => evictLoop now order newOrder c
      | Some e =>
          if ce_expiresAt e <? now then evictLoop now order newOrder (dropEntry fp e c)
          else evictLoop now order (newOrder ++ [fp]) c
      end
  end.
Definition evictExpired (now : Z) (c : cache) : cache := evictLoop now (ca_lruOrder c) [] c.

Definition promoteToFront (fp : list byte) (c : cache) : cache :=
  match list_find (fp =.) (ca_lruOrder c) with
  | Some (i, _) =>
      if Z.of_nat i <? len (ca_lruOrder c) - 1 then
        setOrder (take i (ca_lruOrder c) ++ drop (S i) (ca_lruOrder c) ++ [fp]) c
      else c
  | None => c
  end.

(** The lookup under the read lock; a hit is a copy of the array. *)
Definition cacheGet (fp : list byte) (c : cache) (w : World) : option (list byte) * World :=
  match ca_entries c !! fp with
  | None => (None, w)
  | Some e =>
      let '(now, w) := time_now w in
      (if now <=? ce_expiresAt e then Some (ca_heap c !!! ce_plaintext e) else None, w)
  end.

(** The loop of [evictLRU], over the order list. *)
Fixpoint evictFrom (max : Z) (order : list (list byte)) (c : cache) : cache :=
  match order with
  | [] => setOrder [] c
  | fp :: order' =>
      if max <? Z.of_nat (size (ca_entries c)) then
        match ca_entries c !! fp with
        | Some e => evictFrom max order' (dropEntry fp e c)
        | None => evictFrom max order' c
        end
      else setOrder order c
  end.
Definition evictLRU (cfg : DEKCacheConfig) (c : cache) : cache := evictFrom (cc_MaxEntries cfg) (ca_lruOrder c) c.

Definition storeNew (cfg : DEKCacheConfig) (fp pt : list byte) (c : cache) (w : World) : list byte * cache * World :=
  let '(now, w) := time_now w in
  let c := mkCache (<[fp := mkEntry (length (ca_heap c)) (now + cc_TTL cfg)]> (ca_entries c))
             (ca_lruOrder c ++ [fp]) (ca_heap c ++ [pt]) (ca_closed c) in
  (pt, if cc_MaxEntries cfg <? Z.of_nat (size (ca_entries c)) then evictLRU cfg c else c, w).

(** The section under the write lock after the wrapped manager has answered. *)
Definition cachePut (cfg : DEKCacheConfig) (fp pt : list byte) (c : cache) (w : World) : list byte * cache * World :=
  match ca_entries c !! fp with
  | Some existing =>
      let '(now, w) := time_now w in
      if now <=? ce_expiresAt existing
      then (ca_heap c !!! ce_plaintext existing, promoteToFront fp c, w)
      else storeNew cfg fp pt (dropEntry fp existing c) w
  | None => storeNew cfg fp pt c w
  end.

(** The last section of [Close]: the map is iterated in some order. *)
Definition clearAll (c : cache) : cache :=
  let c := foldr (λ kv, dropEntry kv.1 kv.2) c (map_to_list (ca_entries c)) in setOrder [] c.
Definition markClosed (c : cache) : cache := mkCache (ca_entries c) (ca_lruOrder c) (ca_heap c) true.

(** ** The manager *)

Section caching.
Context `{KeyManager K} `{SHA256}.

Definition ck_with (m : CachingKeyManager K) (k : K) (c : cache) : CachingKeyManager K := mkCaching k (ck_cfg m) c.
Definition lift_caching {A} (m : CachingKeyManager K) (x : A * K * World) : A * CachingKeyManager K * World :=
  let '(r, k, w) := x in (r, ck_with m k (ck_cache m), w).

Definition caching_UnwrapKey (envelope : option KeyEnvelope) (md : gomap) (m : CachingKeyManager K) (w : World)
    : result (list byte) * CachingKeyManager K * World :=
  match envelope with
  | Some env =>
      if negb (cc_Enabled (ck_cfg m)) then lift_caching m (UnwrapKey envelope md (ck_inner m) w) else
      let fp := cacheFingerprint (env_Ciphertext env) in
      let '(hit, w) := cacheGet fp (ck_cache m) w in
      match hit with
      | Some hit => (Ok hit, ck_with m (ck_inner m) (promoteToFront fp (ck_cache m)), w)
      | None =>
          let '(r, k, w) := UnwrapKey envelope md (ck_inner m) w in
          match r with
          | Err e => (Err e, ck_with m k (ck_cache m), w)
          | Ok pt => let '(pt, c, w) := cachePut (ck_cfg m) fp pt (ck_cache m) w in (Ok pt, ck_with m k c, w)
          end
      end
  | None => lift_caching m (UnwrapKey None md (ck_inner m) w)
  end.

Definition caching_Close (m : CachingKeyManager K) (w : World) : option error * CachingKeyManager K * World :=
  if ca_closed (ck_cache m) then (None, m, w) else
  let '(r, k, w) := km_Close (ck_inner m) w in
  (r, ck_with m k (clearAll (markClosed (ck_cache m))), w).

#[export] Instance caching_km : KeyManager (CachingKeyManager K) := {|
  Provider m := Provider (ck_inner m);
  WrapKey dek md m w := lift_caching m (WrapKey dek md (ck_inner m) w);
  UnwrapKey := caching_UnwrapKey;
  ActiveKeyVersion m w := lift_caching m (ActiveKeyVersion (ck_inner m) w);
  HealthCheck m w := lift_caching m (HealthCheck (ck_inner m) w);
  km_Close := caching_Close |}.
End caching.

(** ** Interleavings

    The log records what the wrapped manager returned, for which fingerprint
    and when it was handed to the cache. *)

Abbreviation klog := (list (list byte * list byte * Z)).

Inductive cache_event :=
| Returned (fp key : list byte) (now : Z)
| Internal.

Inductive cache_step (cfg : DEKCacheConfig) : cache * klog → cache_event → cache * klog → Prop :=
| cs_hit c L fp key w w' : cacheGet fp c w = (Some key, w') → cache_step cfg (c, L) (Returned fp key (w_now w')) (c, L)
| cs_promote c L fp : cache_step cfg (c, L) Internal (promoteToFront fp c, L)
| cs_put c L fp pt key c' w w' : cachePut cfg fp pt c w = (key, c', w') →
    cache_step cfg (c, L) (Returned fp key (w_now w')) (c', (fp, pt, w_now w') :: L)
| cs_cleanup c L now : cache_step cfg (c, L) Internal (evictExpired now c, L)
| cs_mark c L : cache_step cfg (c, L) Internal (markClosed c, L)
| cs_clear c L : cache_step cfg (c, L) Internal (clearAll c, L).

Inductive cache_trace (cfg : DEKCacheConfig) : cache * klog → list cache_event → cache * klog → Prop :=
| ct_nil s : cache_trace cfg s [] s
| ct_snoc s es s' e s'' : cache_trace cfg s es s' → cache_step cfg s' e s'' → cache_trace cfg s (es ++ [e]) s''.

(** ** The invariant *)

Record cache_core (cfg : DEKCacheConfig) (c : cache) (L : klog) : Prop := {
  core_log fp e : ca_entries c !! fp = Some e →
    ∃ key t, ca_heap c !! ce_plaintext e = Some key ∧ (fp, key, t) ∈ L ∧ ce_expiresAt e = t + cc_TTL cfg;
  core_inj fp e fp' e' : ca_entries c !! fp = Some e → ca_entries c !! fp' = Some e' →
    ce_plaintext e = ce_plaintext e' → fp = fp';
  core_zero loc key : ca_heap c !! loc = Some key →
    key = zeroed key ∨ ∃ fp e, ca_entries c !! fp = Some e ∧ ce_plaintext e = loc }.

Definition ordered (c : cache) (order : list (list byte)) : Prop := ∀ fp, is_Some (ca_entries c !! fp) → fp ∈ order.

Record cache_inv (cfg : DEKCacheConfig) (c : cache) (L : klog) : Prop := {
  inv_core : cache_core cfg c L;
  inv_order : ordered c (ca_lruOrder c);
  inv_size : Z.of_nat (size (ca_entries c)) ≤ cc_MaxEntries cfg }.

Lemma zeroed_idemp b : zeroed (zeroed b) = zeroed b.
Proof. unfold zeroed. by rewrite length_replicate. Qed.

Section inv.
Context (cfg : DEKCacheConfig).

Lemma lookup_drop_Some c fp e fp' e' :
  ca_entries (dropEntry fp e c) !! fp' = Some e' → fp ≠ fp' ∧ ca_entries c !! fp' = Some e'.
Proof. apply lookup_delete_Some. Qed.

Lemma core_same c c' L :
  ca_entries c' = ca_entries c → ca_heap c' = ca_heap c → cache_core cfg c L → cache_core cfg c' L.
Proof. intros He Hh [H1 H2 H3]. split; rewrite He, ?Hh; done. Qed.

Lemma core_log_app c L x : cache_core cfg c L → cache_core cfg c (x :: L).
Proof.
  intros [H1 H2 H3]. split; [|done..]. intros fp e He. destruct (H1 fp e He) as (key & t & ? & ? & ?).
  exists key, t. split_and!; [done|by right|done].
Qed.

Lemma core_drop c L fp e :
  ca_entries c !! fp = Some e → cache_core cfg c L → cache_core cfg (dropEntry fp e c) L.
Proof.
  intros He [H1 H2 H3]. split; cbn.
  - intros fp' e' [Hne He']%lookup_delete_Some. destruct (H1 fp' e' He') as (key & t & Hk & ? & ?).
    exists key, t. split_and!; [|done..]. rewrite list_lookup_alter_ne; [done|]. intros E. by destruct Hne, (H2 fp e fp' e').
  - intros fp1 e1 fp2 e2 [_ ?]%lookup_delete_Some [_ ?]%lookup_delete_Some. by apply H2.
  - intros loc key Hk. destruct (decide (loc = ce_plaintext e)) as [->|Hloc].
    + rewrite list_lookup_alter_eq in Hk. apply fmap_Some in Hk as (b & _ & ->). left. by rewrite zeroed_idemp.
    + rewrite list_lookup_alter_ne in Hk by done. destruct (H3 loc key Hk) as [?|(fp' & e' & He' & <-)]; [by left|right].
      exists fp', e'. split; [|done]. rewrite lookup_delete_ne; [done|]. intros <-. congruence.
Qed.

Lemma size_drop c fp e : (size (ca_entries (dropEntry fp e c)) ≤ size (ca_entries c))%nat.
Proof.
  cbn. destruct (ca_entries c !! fp) eqn:E; [rewrite map_size_delete_Some by done; lia|].
  by rewrite delete_id.
Qed.

Lemma promote_spec fp c :
  ca_entries (promoteToFront fp c) = ca_entries c ∧ ca_heap (promoteToFront fp c) = ca_heap c ∧
  ca_lruOrder (promoteToFront fp c) ≡ₚ ca_lruOrder c.
Proof.
  unfold promoteToFront. destruct (list_find _ _) as [[i x]|] eqn:E; [|done].
  apply list_find_Some in E as (Hx & -> & _). case_match; [|done]. cbn. split_and!; [done..|].
  rewrite <-(take_drop_middle _ _ _ Hx) at 3. by rewrite <-Permutation_cons_append.
Qed.

Lemma promote_inv fp c L : cache_inv cfg c L → cache_inv cfg (promoteToFront fp c) L.
Proof.
  intros [Hc Ho Hs]. destruct (promote_spec fp c) as (He & Hh & Hp).
  split; [by apply (core_same c)|intros fp'; rewrite He, Hp; apply Ho|by rewrite He].
Qed.

Lemma evictLoop_inv now order newOrder c L :
  cache_core cfg c L → ordered c (newOrder ++ order) →
  let c' := evictLoop now order newOrder c in
  cache_core cfg c' L ∧ ordered c' (ca_lruOrder c') ∧ (size (ca_entries c') ≤ size (ca_entries c))%nat.
Proof.
  revert newOrder c. induction order as [|fp order IH]; intros newOrder c Hc Ho; cbn [evictLoop].
  - rewrite app_nil_r in Ho. split_and!; [by apply (core_same c)|done|done].
  - destruct (ca_entries c !! fp) as [e|] eqn:He; [case_match|].
    + destruct (IH newOrder (dropEntry fp e c)) as (? & ? & Hsz); [by apply core_drop| |].
      * intros fp' [e' [Hne Hfp']%lookup_drop_Some]. specialize (Ho fp' ltac:(by eexists)). set_solver.
      * split_and!; [done..|]. pose proof (size_drop c fp e). lia.
    + apply IH; [done|]. intros fp' Hfp'. specialize (Ho fp' Hfp'). set_solver.
    + apply IH; [done|]. intros fp' Hfp'. specialize (Ho fp' Hfp').
      assert (fp' ≠ fp) by (intros ->; destruct Hfp'; congruence). set_solver.
Qed.

Lemma evictFrom_inv max order c L :
  0 ≤ max → cache_core cfg c L → ordered c order →
  let c' := evictFrom max order c in
  cache_core cfg c' L ∧ ordered c' (ca_lruOrder c') ∧ Z.of_nat (size (ca_entries c')) ≤ max.
Proof.
  intros Hmax. revert c. induction order as [|fp order IH]; intros c Hc Ho; cbn [evictFrom].
  - split_and!; [by apply (core_same c)|done|]. cbn. replace (ca_entries c) with (∅ : gmap (list byte) cacheEntry); [done|].
    symmetry. apply map_eq. intros fp. rewrite lookup_empty. apply eq_None_not_Some. intros Hs%Ho. by apply not_elem_of_nil in Hs.
  - destruct (Z.ltb_spec max (Z.of_nat (size (ca_entries c)))); [|split_and!; [by apply (core_same c)|done|done]].
    destruct (ca_entries c !! fp) as [e|] eqn:He; apply IH; [by apply core_drop| |done|].
    + intros fp' [e' [Hne Hfp']%lookup_drop_Some]. specialize (Ho fp' ltac:(by eexists)). set_solver.
    + intros fp' Hfp'. specialize (Ho fp' Hfp'). assert (fp' ≠ fp) by (intros ->; destruct Hfp'; congruence). set_solver.
Qed.

Lemma time_now_last w t w' : time_now w = (t, w') → w_now w' = t.
Proof. unfold time_now. destruct (w_times w); by intros [= <- <-]. Qed.

Context (Hmax : 0 ≤ cc_MaxEntries cfg) (Httl : 0 ≤ cc_TTL cfg).

Lemma storeNew_inv fp pt c L w key c' w' :
  cache_core cfg c L → ordered c (ca_lruOrder c) → Z.of_nat (size (ca_entries c)) ≤ cc_MaxEntries cfg →
  ca_entries c !! fp = None → storeNew cfg fp pt c w = (key, c', w') →
  cache_inv cfg c' ((fp, pt, w_now w') :: L) ∧ key = pt.
Proof using All.
  intros Hc Ho Hs Hnone. unfold storeNew. destruct (time_now w) as [now w1] eqn:Et. apply time_now_last in Et as Hnow.
  set (c1 := mkCache _ _ _ _). intros [= <- <- <-]. split; [|done].
  assert (Hc1 : cache_core cfg c1 ((fp, pt, w_now w1) :: L)).
  { destruct (core_log_app c L (fp, pt, w_now w1) Hc) as [H1 H2 H3].
    assert (Hlt : ∀ fp' e', ca_entries c !! fp' = Some e' → (ce_plaintext e' < length (ca_heap c))%nat).
    { intros fp' e' He'. destruct (H1 fp' e' He') as (? & ? & ?%lookup_lt_Some & _). done. }
    split; cbn.
    - intros fp' e' [[<- <-]|[Hne He']]%lookup_insert_Some.
      + exists pt, (w_now w1). cbn. split_and!; [by apply list_lookup_middle|by left|by rewrite Hnow].
      + destruct (H1 fp' e' He') as (key & t & ? & ? & ?). exists key, t. split_and!; [by apply lookup_app_l_Some|done..].
    - intros fp1 e1 fp2 e2 [[<- <-]|[? He1]]%lookup_insert_Some [[<- <-]|[? He2]]%lookup_insert_Some; cbn; [done| | |by apply H2].
      + specialize (Hlt _ _ He2). lia.
      + specialize (Hlt _ _ He1). lia.
    - intros loc key [Hk|[Hge Hk]]%lookup_app_Some.
      + destruct (H3 loc key Hk) as [?|(fp' & e' & He' & ?)]; [by left|right]. exists fp', e'. split; [|done].
        rewrite lookup_insert_ne; [done|congruence].
      + apply list_lookup_singleton_Some in Hk as [Hz _]. right. exists fp, (mkEntry (length (ca_heap c)) (now + cc_TTL cfg)).
        rewrite lookup_insert_eq. split; [done|]. cbn. lia. }
  assert (Ho1 : ordered c1 (ca_lruOrder c1)).
  { intros fp' [e' He']. unfold c1 in He' |- *. cbn in He' |- *. apply lookup_insert_Some in He' as [[<- <-]|[? He']]; [set_solver|]. specialize (Ho fp' ltac:(by eexists)). set_solver. }
  case_match eqn:Esz; zbool; [|by split].
  destruct (evictFrom_inv (cc_MaxEntries cfg) (ca_lruOrder c1) c1 _ Hmax Hc1 Ho1) as (? & ? & ?). by split.
Qed.

Lemma cacheGet_fresh fp c L w key w' :
  cache_core cfg c L → cacheGet fp c w = (Some key, w') → ∃ t, (fp, key, t) ∈ L ∧ w_now w' ≤ t + cc_TTL cfg.
Proof using.
  intros [H1 _ _]. unfold cacheGet. destruct (ca_entries c !! fp) as [e|] eqn:He; [|done].
  destruct (time_now w) as [now w1] eqn:Et. apply time_now_last in Et. destruct (H1 fp e He) as (k & t & Hk & Hin & Hx).
  destruct (Z.leb_spec now (ce_expiresAt e)); intros [= <- <-]. exists t. rewrite (list_lookup_total_correct _ _ _ Hk). split; [done|lia].
Qed.

Lemma cachePut_inv fp pt c L w key c' w' :
  cache_inv cfg c L → cachePut cfg fp pt c w = (key, c', w') →
  cache_inv cfg c' ((fp, pt, w_now w') :: L) ∧ ∃ t, (fp, key, t) ∈ (fp, pt, w_now w') :: L ∧ w_now w' ≤ t + cc_TTL cfg.
Proof using All.
  intros Hinv Hput. pose proof Hinv as [Hc Ho Hs]. unfold cachePut in Hput.
  destruct (ca_entries c !! fp) as [e|] eqn:He.
  - destruct (time_now w) as [now w1] eqn:Et. apply time_now_last in Et. destruct (Z.leb_spec now (ce_expiresAt e)).
    + injection Hput as <- <- <-. destruct Hc as [H1 H2 H3]. destruct (H1 fp e He) as (k & t & Hk & Hin & Hx). split.
      * apply promote_inv. split; [by apply core_log_app|done|done].
      * exists t. rewrite (list_lookup_total_correct _ _ _ Hk). split; [by right|lia].
    + apply (storeNew_inv _ _ _ L) in Hput as [? ->].
      * split; [done|]. exists (w_now w'). split; [by left|lia].
      * by apply core_drop.
      * intros fp' [e' [_ He']%lookup_drop_Some]. apply Ho. by eexists.
      * pose proof (size_drop c fp e). lia.
      * apply lookup_delete_eq.
  - apply (storeNew_inv _ _ _ L) in Hput as [? ->]; [|done..]. split; [done|]. exists (w_now w'). split; [by left|lia].
Qed.

Lemma dropAll_core c L l :
  NoDup l.*1 → (∀ fp e, (fp, e) ∈ l → ca_entries c !! fp = Some e) → cache_core cfg c L →
  let c' := foldr (λ kv, dropEntry kv.1 kv.2) c l in
  cache_core cfg c' L ∧ ∀ fp, ca_entries c' !! fp = if decide (fp ∈ l.*1) then None else ca_entries c !! fp.
Proof using All.
  intros Hnd Hin Hc. induction l as [|[fp e] l IH]; cbn [foldr fmap list_fmap]; [done|].
  apply NoDup_cons in Hnd as [Hfp Hnd]. destruct IH as [IH1 IH2]; [done|intros; apply Hin; by right|]. cbn zeta in *. split.
  - apply core_drop; [|done]. cbn. rewrite IH2, decide_False by done. apply Hin. by left.
  - intros fp'. change (delete fp (ca_entries (foldr (λ kv, dropEntry kv.1 kv.2) c l)) !! fp' =
      if decide (fp' ∈ fp :: l.*1) then None else ca_entries c !! fp').
    destruct (decide (fp' = fp)) as [->|Hne]; [rewrite lookup_delete_eq, decide_True by (by left); done|].
    rewrite lookup_delete_ne, IH2 by done. apply decide_ext. set_solver.
Qed.

Lemma clearAll_inv c L : cache_inv cfg c L →
  cache_inv cfg (clearAll c) L ∧ Forall (λ b, b = zeroed b) (ca_heap (clearAll c)) ∧ ca_entries (clearAll c) = ∅.
Proof using All.
  intros [Hc Ho Hs]. unfold clearAll. destruct (dropAll_core c L (map_to_list (ca_entries c))) as [Hc' He'].
  - apply NoDup_fst_map_to_list.
  - intros fp e. apply elem_of_map_to_list.
  - done.
  - cbn zeta in *. set (c' := foldr _ _ _) in *.
    assert (Hemp : ca_entries c' = ∅).
    { apply map_eq. intros fp. rewrite He', lookup_empty. case_decide as Hd; [done|].
      apply eq_None_not_Some. intros [e He]. destruct Hd. apply list_elem_of_fmap. exists (fp, e). by rewrite elem_of_map_to_list. }
    split_and!.
    + split; [by apply (core_same c')|intros fp [e Hfp]; cbn in Hfp; by rewrite Hemp in Hfp|cbn; rewrite Hemp; done].
    + apply Forall_lookup. intros loc key Hk. destruct Hc' as [_ _ H3]. destruct (H3 loc key Hk) as [?|(fp & e & Hfp & _)]; [done|].
      by rewrite Hemp in Hfp.
    + done.
Qed.

Lemma cache_step_inv s e s' :
  cache_step cfg s e s' → cache_inv cfg s.1 s.2 →
  cache_inv cfg s'.1 s'.2 ∧ s.2 ⊆ s'.2 ∧
  ∀ fp key now, e = Returned fp key now → ∃ t, (fp, key, t) ∈ s'.2 ∧ now ≤ t + cc_TTL cfg.
Proof using All.
  intros Hs Hi. destruct Hs as [c L fp key w w' Hg|c L fp|c L fp pt key c' w w' Hp|c L now|c L|c L]; cbn [fst snd] in *.
  - split_and!; [done..|]. intros ??? [= <- <- <-]. eapply cacheGet_fresh; [apply Hi|done].
  - split_and!; [by apply promote_inv|done|done].
  - apply (cachePut_inv _ _ _ L) in Hp as [? ?]; [|done]. split_and!; [done|set_solver|]. by intros ??? [= <- <- <-].
  - destruct Hi as [Hc Ho Hs]. destruct (evictLoop_inv now (ca_lruOrder c) [] c L Hc Ho) as (? & ? & ?).
    split_and!; [|done|done]. split; [done..|]. unfold evictExpired. lia.
  - split_and!; [|done|done]. destruct Hi. split; [by apply (core_same c)|done|done].
  - split_and!; [by apply clearAll_inv|done|done].
Qed.

Lemma cache_trace_inv es c L :
  cache_trace cfg (empty_cache, []) es (c, L) →
  cache_inv cfg c L ∧ ∀ fp key now, Returned fp key now ∈ es → ∃ t, (fp, key, t) ∈ L ∧ now ≤ t + cc_TTL cfg.
Proof using All.
  remember (empty_cache, []) as s0 eqn:E0. remember (c, L) as s1 eqn:E1. intros Htr. revert c L E1.
  induction Htr as [s|s es s1 e s2 _ IH Hs]; intros c L ->.
  - simplify_eq. split; [|set_solver]. split; [|by intros fp [e He]|done]. by split.
  - destruct s1 as [c1 L1]. destruct (IH E0 c1 L1 eq_refl) as [Hi HR].
    destruct (cache_step_inv _ _ _ Hs Hi) as (Hi' & Hsub & HR'). cbn [fst snd] in *. split; [done|].
    intros fp key now [Hin|Hin%list_elem_of_singleton]%elem_of_app.
    + destruct (HR fp key now Hin) as (t & Ht & ?). exists t. split; [by apply Hsub|done].
    + by apply HR'.
Qed.
End inv.

Lemma normalize_ok cfg : 0 < cc_MaxEntries (normalizeCacheConfig cfg) ∧ 0 < cc_TTL (normalizeCacheConfig cfg).
Proof.
  unfold normalizeCacheConfig. cbn. destruct (Z.leb_spec (cc_TTL cfg) 0), (Z.leb_spec (cc_MaxEntries cfg) 0); split; lia || (vm_compute; reflexivity).
Qed.

(** ** Theorems *)

(** C33: cached keys are the manager's keys. In every interleaving of
    requests, cleanups and shutdown, a key returned for a fingerprint is one
    the wrapped manager has returned for an envelope with that fingerprint, no
    longer ago than the configured lifetime; and a call of [UnwrapKey] on a
    cache in any such state either answers from it without calling the
    wrapped manager, or calls it and records its answer. *)
Theorem cache_returns_fresh_keys `{KeyManager K} `{SHA256} raw es c L :
  let cfg := normalizeCacheConfig raw in
  cache_trace cfg (empty_cache, []) es (c, L) →
  (∀ fp key now, Returned fp key now ∈ es → ∃ t, (fp, key, t) ∈ L ∧ now ≤ t + cc_TTL cfg) ∧
  ∀ env md (k : K) w key m' w', cc_Enabled cfg = true →
    UnwrapKey (Some env) md (mkCaching k cfg c) w = (Ok key, m', w') →
    let fp := cacheFingerprint (env_Ciphertext env) in
    (ck_inner m' = k ∧ ∃ t, (fp, key, t) ∈ L ∧ w_now w' ≤ t + cc_TTL cfg) ∨
    ∃ w1 pt k' w2, UnwrapKey (Some env) md k w1 = (Ok pt, k', w2) ∧ ck_inner m' = k' ∧
      ∃ t, (fp, key, t) ∈ (fp, pt, w_now w') :: L ∧ w_now w' ≤ t + cc_TTL cfg.
Proof.
  intros cfg Htr. destruct (normalize_ok raw) as [Hmax Httl]. fold cfg in Hmax, Httl.
  destruct (cache_trace_inv cfg ltac:(lia) ltac:(lia) es c L Htr) as [Hinv HR]. split; [done|].
  intros env md k w key m' w' Hen Hu fp. change (caching_UnwrapKey (Some env) md (mkCaching k cfg c) w = (Ok key, m', w')) in Hu.
  unfold caching_UnwrapKey in Hu. cbn [ck_cfg ck_cache ck_inner] in Hu. rewrite Hen in Hu. cbn [negb] in Hu. fold fp in Hu.
  destruct (cacheGet fp c w) as [[hit|] w1] eqn:Eg.
  - injection Hu as <- <- <-. left. split; [done|]. eapply cacheGet_fresh; [apply Hinv|done].
  - destruct (UnwrapKey (Some env) md k w1) as [[[pt|e] k'] w2] eqn:Ek; [|done].
    destruct (cachePut cfg fp pt c w2) as [[key' c'] w3] eqn:Ep. injection Hu as <- <- <-. right.
    exists w1, pt, k', w2. split_and!; [done..|]. eapply cachePut_inv; [lia|lia|done|done].
Qed.

(** The cache is bounded and forgets. In every interleaving it holds at
    most [MaxEntries] keys, every array that no longer backs an entry has
    been overwritten with zeros, and clearing it leaves no entry and no key
    bytes at all. *)
Theorem cache_bounded_and_zeroized raw es c L :
  let cfg := normalizeCacheConfig raw in
  cache_trace cfg (empty_cache, []) es (c, L) →
  Z.of_nat (size (ca_entries c)) ≤ cc_MaxEntries cfg ∧
  (∀ loc key, ca_heap c !! loc = Some key → (∀ fp e, ca_entries c !! fp = Some e → ce_plaintext e ≠ loc) → key = zeroed key) ∧
  ca_entries (clearAll c) = ∅ ∧ Forall (λ b, b = zeroed b) (ca_heap (clearAll c)).
Proof.
  intros cfg Htr. destruct (normalize_ok raw) as [Hmax Httl]. fold cfg in Hmax, Httl.
  destruct (cache_trace_inv cfg ltac:(lia) ltac:(lia) es c L Htr) as [Hinv _].
  destruct (clearAll_inv cfg ltac:(lia) ltac:(lia) c L Hinv) as (_ & Hz & He). split_and!; [apply Hinv| |done..].
  intros loc key Hk Hno. destruct (core_zero _ _ _ (inv_core _ _ _ Hinv) loc key Hk) as [?|(fp & e & ? & ?)]; [done|].
  by destruct (Hno fp e).
Qed.

(** ** The theorems at concrete inputs *)

Module CacheWitness.
Definition raw : DEKCacheConfig := mkCacheConfig true 10 2 0.
Definition cfg : DEKCacheConfig := normalizeCacheConfig raw.
Definition at_time (t : Z) : World := mkWorld t [] [] [].
Definition put (fp key : list byte) (t : Z) (c : cache) : cache := (cachePut cfg fp key c (at_time t)).1.2.
Definition one : cache := put [x01] [x0a] 5 empty_cache.
End CacheWitness.

Section witnesses.
Import CacheWitness ToyInstances.

Lemma one_trace :
  cache_trace cfg (empty_cache, []) ([] ++ [Returned [x01] [x0a] 5]) (one, [([x01], [x0a], 5)]).
Proof. econstructor; [constructor|]. eapply (cs_put cfg _ _ _ _ _ _ (at_time 5) (at_time 5)). reflexivity. Qed.

Lemma cache_returns_fresh_keys_witness : ∃ t, ([x01], [x0a], t) ∈ [([x01], [x0a], 5)] ∧ 5 ≤ t + cc_TTL cfg.
Proof.
  apply (@cache_returns_fresh_keys unit
    {| Provider _ := ""; WrapKey _ _ k w := (Err EOF, k, w); UnwrapKey _ _ k w := (Err EOF, k, w);
       ActiveKeyVersion k w := (Err EOF, k, w); HealthCheck k w := (None, k, w); km_Close k w := (None, k, w) |}
    toy_sha256 raw _ one [([x01], [x0a], 5)] one_trace). by apply list_elem_of_singleton.
Defined.

Lemma cache_bounded_and_zeroized_witness : Forall (λ b, b = zeroed b) (ca_heap (clearAll one)).
Proof. apply (cache_bounded_and_zeroized raw _ one [([x01], [x0a], 5)] one_trace). Defined.

(** An expired entry that is fetched again appears twice in the order list, so
    a hit leaves its old position in place and the next eviction drops the
    entry that was used last: of A and B, A was read at 22 and B not since
    21, and storing C drops A. *)
Lemma stale_order_evicts_recent :
  let A := [x01] in let B := [x02] in let C := [x03] in
  let c := put B [x0b] 21 (put A [x0a] 20 (put A [x0a] 0 empty_cache)) in
  cacheGet A c (at_time 22) = (Some [x0a], at_time 22) ∧
  let c' := put C [x0c] 23 (promoteToFront A c) in
  ca_entries c' !! A = None ∧ ca_entries c' !! B = Some (mkEntry 2 31).
Proof. repeat split; reflexivity. Qed.

(** A request that is inside the wrapped manager while the cache is closed
    stores its key into the closed cache, where nothing overwrites it. *)
Lemma key_survives_close :
  let c := put [x01] [x0a] 5 (clearAll (markClosed empty_cache)) in
  ca_closed c = true ∧ ca_entries c !! [x01] = Some (mkEntry 0 15) ∧ ca_heap c = [[x0a]].
Proof. repeat split; reflexivity. Qed.
End witnesses.
