(* ===== verification/Rotation.v ===== *)
(** * Key rotation

    [internal/crypto/rotation_state.go] and the handlers of
    [internal/api/admin_rotation.go]. A rotation drains the wraps in flight,
    then switches the active version of the key manager. The state is shared
    by the request path, a polling goroutine and the admin handlers; the
    functions below are its critical sections, and the step relation
    interleaves them. *)
From S2P Require Import Prelude GoStd KeyManager MemoryKeyManager.
Local Open Scope Z_scope.
Local Open Scope go_scope.

Inductive RotationPhase :=
| RotationIdle | RotationDraining | RotationReadyToCutover
| RotationCommitting | RotationCommitted | RotationAborted.
#[export] Instance phase_eq_dec : EqDecision RotationPhase.
Proof. solve_decision. Defined.

Definition phase_String (p : RotationPhase) : string :=
  match p with
  | RotationIdle => "idle" | RotationDraining => "draining" | RotationReadyToCutover => "ready_for_cutover"
  | RotationCommitting => "committing" | RotationCommitted => "committed" | RotationAborted => "aborted"
  end.

(** Times are [None] when zero; channels are positions of the list of their
    closed flags. *)
Record RotationState := mkRotation {
  rs_phase : RotationPhase; rs_rotationID : string; rs_currentVersion : Z; rs_targetVersion : Z;
  rs_provider : string; rs_plan : option RotationPlan;
  rs_startedAt : option Z; rs_completedAt : option Z; rs_graceDeadline : option Z; rs_lastError : option error;
  rs_inFlightWraps : Z; rs_drainDone : option nat; rs_stopDrain : option nat; rs_chans : list bool }.

Record RotationSnapshot := mkSnapshot {
  sn_RotationID : string; sn_Phase : string; sn_CurrentVersion : Z; sn_TargetVersion : Z; sn_InFlightWraps : Z;
  sn_StartedAt : option Z; sn_CompletedAt : option Z; sn_GraceDeadline : option Z; sn_Error : option error;
  sn_Provider : string; sn_Plan : option RotationPlan }.

Definition NewRotationState : RotationState :=
  mkRotation RotationIdle "" 0 0 "" None None None None None 0 None None [].

Definition setPhase (p : RotationPhase) (rs : RotationState) : RotationState :=
  let 'mkRotation _ id cv tv pr pl st co gr le fl dd sd ch := rs in mkRotation p id cv tv pr pl st co gr le fl dd sd ch.
Definition setCompleted (now : Z) (rs : RotationState) : RotationState :=
  let 'mkRotation p id cv tv pr pl st _ gr le fl dd sd ch := rs in mkRotation p id cv tv pr pl st (Some now) gr le fl dd sd ch.
Definition setLastError (e : option error) (rs : RotationState) : RotationState :=
  let 'mkRotation p id cv tv pr pl st co gr _ fl dd sd ch := rs in mkRotation p id cv tv pr pl st co gr e fl dd sd ch.
Definition setInFlight (n : Z) (rs : RotationState) : RotationState :=
  let 'mkRotation p id cv tv pr pl st co gr le _ dd sd ch := rs in mkRotation p id cv tv pr pl st co gr le n dd sd ch.
Definition setChans (ch : list bool) (rs : RotationState) : RotationState :=
  let 'mkRotation p id cv tv pr pl st co gr le fl dd sd _ := rs in mkRotation p id cv tv pr pl st co gr le fl dd sd ch.

Definition BeginWrap (rs : RotationState) : RotationState := setInFlight (rs_inFlightWraps rs +i 1) rs.
Definition EndWrap (rs : RotationState) : RotationState := setInFlight (rs_inFlightWraps rs -i 1) rs.

(** The caller starts the polling goroutine when this succeeds. *)
Definition StartDrain (rotationID : string) (currentVersion targetVersion : Z) (provider : string)
    (plan : option RotationPlan) (gracePeriod now : Z) (rs : RotationState) : option error * RotationState :=
  if decide (rs_phase rs ≠ RotationIdle) then
    (Some (Wrapf "%w: cannot start drain from phase %s" ErrRotationConflict), rs)
  else
    (None, mkRotation RotationDraining rotationID currentVersion targetVersion provider plan (Some now) None
             (if 0 <? gracePeriod then Some (now + gracePeriod) else rs_graceDeadline rs) None (rs_inFlightWraps rs)
             (Some (length (rs_chans rs))) (Some (S (length (rs_chans rs)))) (rs_chans rs ++ [false; false])).

(** [select { case <-rs.stopDrain: default: close(rs.stopDrain) }] *)
Definition closeStop (rs : RotationState) : RotationState :=
  match rs_stopDrain rs with
  | Some c => if default true (rs_chans rs !! c) then rs else setChans (<[c := true]> (rs_chans rs)) rs
  | None => rs
  end.

Definition Commit (force : bool) (rs : RotationState) : option error * RotationState :=
  match rs_phase rs with
  | RotationReadyToCutover => (None, setPhase RotationCommitting rs)
  | RotationDraining =>
      if force || (rs_inFlightWraps rs <=? 0) then (None, closeStop (setPhase RotationCommitting rs))
      else (Some (Wrapf "%w: cannot commit while in_flight_wraps > 0 (use force=true to override)" ErrRotationConflict), rs)
  | _ => (Some (Wrapf "%w: cannot commit from phase %s" ErrRotationConflict), rs)
  end.

Definition MarkCommitted (now : Z) (rs : RotationState) : RotationState := setCompleted now (setPhase RotationCommitted rs).
Definition MarkFailed (err : option error) (now : Z) (rs : RotationState) : RotationState :=
  let rs := setCompleted now (setPhase RotationAborted rs) in
  match err with Some e => setLastError (Some e) rs | None => rs end.

Definition Abort (now : Z) (rs : RotationState) : option error * RotationState :=
  match rs_phase rs with
  | RotationDraining | RotationReadyToCutover => (None, closeStop (setCompleted now (setPhase RotationAborted rs)))
  | _ => (Some (Wrapf "%w: cannot abort from phase %s" ErrRotationConflict), rs)
  end.

Definition Reset (rs : RotationState) : RotationState :=
  mkRotation RotationIdle "" 0 0 "" None None None None None (rs_inFlightWraps rs)
    (rs_drainDone rs) (rs_stopDrain rs) (rs_chans rs).

Definition Snapshot (rs : RotationState) : RotationSnapshot :=
  mkSnapshot (rs_rotationID rs) (phase_String (rs_phase rs)) (rs_currentVersion rs) (rs_targetVersion rs)
    (rs_inFlightWraps rs) (rs_startedAt rs) (rs_completedAt rs) (rs_graceDeadline rs) (rs_lastError rs)
    (rs_provider rs) (rs_plan rs).

(** ** The polling goroutine

    [Polling d] waits in the select, having deferred the closing of channel
    [d]; [Drained] has read a count of zero and [Loaded] a positive one, and
    both are about to take the lock. *)
Inductive poller :=
| Spawned
| Polling (done : option nat)
| Drained (done : option nat)
| Loaded (done : option nat)
| Exited
| Panicked.

(** Returning from [drainPoller]: closing a closed or nil channel panics. *)
Definition pollerExit (done : option nat) (rs : RotationState) : poller * RotationState :=
  match done with
  | Some c => match rs_chans rs !! c with
              | Some false => (Exited, setChans (<[c := true]> (rs_chans rs)) rs)
              | _ => (Panicked, rs)
              end
  | None => (Panicked, rs)
  end.

Definition readyIfDraining (rs : RotationState) : RotationState :=
  if decide (rs_phase rs = RotationDraining) then setPhase RotationReadyToCutover rs else rs.

(** One step of the goroutine; a stop that is already signalled and a tick are
    chosen between freely. *)
Inductive drainPoller : poller → RotationState → poller → RotationState → Prop :=
| poll_start rs : drainPoller Spawned rs (Polling (rs_drainDone rs)) rs
| poll_stop d rs c p' rs' :
    rs_stopDrain rs = Some c → rs_chans rs !! c = Some true → pollerExit d rs = (p', rs') →
    drainPoller (Polling d) rs p' rs'
| poll_tick d rs :
    drainPoller (Polling d) rs (if rs_inFlightWraps rs <=? 0 then Drained d else Loaded d) rs
| poll_drained d rs p' rs' :
    pollerExit d (readyIfDraining rs) = (p', rs') → drainPoller (Drained d) rs p' rs'
| poll_overdue d rs now t p' rs' :
    rs_graceDeadline rs = Some t → t < now → pollerExit d (readyIfDraining rs) = (p', rs') →
    drainPoller (Loaded d) rs p' rs'
| poll_again d rs now :
    (∀ t, rs_graceDeadline rs = Some t → now ≤ t) → drainPoller (Loaded d) rs (Polling d) rs.

(** ** The handlers

    A commit request takes a snapshot, moves the state to [Committing],
    promotes the version named by the snapshot, and records the outcome. *)
Inductive commitThread :=
| HasSnapshot (force : bool) (snap : RotationSnapshot)
| Promoting (plan : RotationPlan)
| Promoted (err : option error).

(** [ad_wraps] are the wraps in flight; [ad_drained] records that since the
    rotation started the count was seen at zero or the grace period was over. *)
Record admin := mkAdmin {
  ad_rs : RotationState; ad_km : inMemoryKeyManager; ad_wraps : nat; ad_pollers : list poller;
  ad_starts : list RotationPlan; ad_commits : list commitThread; ad_drained : bool }.

Definition snapshotPlan (snap : RotationSnapshot) : RotationPlan := mkPlan (sn_CurrentVersion snap) (sn_TargetVersion snap).

Definition drainedAfter (p p' : poller) (d : bool) : bool :=
  match p, p' with
  | _, Drained _ => true
  | Loaded _, Polling _ => d
  | Loaded _, _ => true
  | _, _ => d
  end.

Inductive admin_step `{MapOrder} : admin → admin → Prop :=
| as_begin rs km n ps ss cs d : Z.of_nat n < MaxInt64 →
    admin_step (mkAdmin rs km n ps ss cs d) (mkAdmin (BeginWrap rs) km (S n) ps ss cs d)
| as_end rs km n ps ss cs d : admin_step (mkAdmin rs km (S n) ps ss cs d) (mkAdmin (EndWrap rs) km n ps ss cs d)
| as_prepare rs km n ps ss cs d target plan :
    PrepareRotation target km = Ok plan →
    admin_step (mkAdmin rs km n ps ss cs d) (mkAdmin rs km n ps (plan :: ss) cs d)
| as_start rs km n ps ss1 plan ss2 cs d id provider grace now rs' :
    StartDrain id (CurrentVersion plan) (TargetVersion plan) provider (Some plan) grace now rs = (None, rs') →
    admin_step (mkAdmin rs km n ps (ss1 ++ plan :: ss2) cs d) (mkAdmin rs' km n (ps ++ [Spawned]) (ss1 ++ ss2) cs false)
| as_start_conflict rs km n ps ss1 plan ss2 cs d id provider grace now e :
    StartDrain id (CurrentVersion plan) (TargetVersion plan) provider (Some plan) grace now rs = (Some e, rs) →
    admin_step (mkAdmin rs km n ps (ss1 ++ plan :: ss2) cs d) (mkAdmin rs km n ps (ss1 ++ ss2) cs d)
| as_poll rs km n ps1 p ps2 ss cs d p' rs' :
    drainPoller p rs p' rs' →
    admin_step (mkAdmin rs km n (ps1 ++ p :: ps2) ss cs d)
      (mkAdmin rs' km n (ps1 ++ p' :: ps2) ss cs (drainedAfter p p' d))
| as_snapshot rs km n ps ss cs d force :
    admin_step (mkAdmin rs km n ps ss cs d) (mkAdmin rs km n ps ss (HasSnapshot force (Snapshot rs) :: cs) d)
| as_commit rs km n ps ss cs1 force snap cs2 d rs' :
    Commit force rs = (None, rs') →
    admin_step (mkAdmin rs km n ps ss (cs1 ++ HasSnapshot force snap :: cs2) d)
      (mkAdmin rs' km n ps ss (cs1 ++ Promoting (snapshotPlan snap) :: cs2) d)
| as_commit_conflict rs km n ps ss cs1 force snap cs2 d e :
    Commit force rs = (Some e, rs) →
    admin_step (mkAdmin rs km n ps ss (cs1 ++ HasSnapshot force snap :: cs2) d) (mkAdmin rs km n ps ss (cs1 ++ cs2) d)
| as_promote rs km n ps ss cs1 plan cs2 d err km' :
    PromoteActiveVersion plan km = (err, km') →
    admin_step (mkAdmin rs km n ps ss (cs1 ++ Promoting plan :: cs2) d)
      (mkAdmin rs km' n ps ss (cs1 ++ Promoted err :: cs2) d)
| as_mark rs km n ps ss cs1 err cs2 d now :
    admin_step (mkAdmin rs km n ps ss (cs1 ++ Promoted err :: cs2) d)
      (mkAdmin (match err with None => MarkCommitted now rs | Some e => MarkFailed (Some e) now rs end)
         km n ps ss (cs1 ++ cs2) d)
| as_abort rs km n ps ss cs d now rs' :
    Abort now rs = (None, rs') → admin_step (mkAdmin rs km n ps ss cs d) (mkAdmin rs' km n ps ss cs d).

Definition initial (km : inMemoryKeyManager) : admin := mkAdmin NewRotationState km 0 [] [] [] false.

(** ** The invariant *)

Definition is_busy (t : commitThread) : bool := match t with HasSnapshot _ _ => false | _ => true end.
Definition busy (cs : list commitThread) : nat := length (filter is_busy cs).

(** A goroutine that has not returned yet has not closed its channel. *)
Definition poller_ok (p : poller) (closed : bool) : Prop :=
  match p with
  | Spawned => closed = false
  | Polling d | Drained d | Loaded d => d = Some 0%nat ∧ closed = false
  | Exited => closed = true
  | Panicked => False
  end.

Record admin_inv (s : admin) : Prop := {
  ai_inflight : rs_inFlightWraps (ad_rs s) = Z.of_nat (ad_wraps s) ∧ Z.of_nat (ad_wraps s) ≤ MaxInt64;
  ai_busy : busy (ad_commits s) = if decide (rs_phase (ad_rs s) = RotationCommitting) then 1%nat else 0%nat;
  ai_poller :
    (rs_phase (ad_rs s) = RotationIdle ∧ ad_pollers s = [] ∧ rs_chans (ad_rs s) = []) ∨
    (rs_phase (ad_rs s) ≠ RotationIdle ∧ rs_drainDone (ad_rs s) = Some 0%nat ∧ rs_stopDrain (ad_rs s) = Some 1%nat ∧
     ∃ p dn st, ad_pollers s = [p] ∧ rs_chans (ad_rs s) = [dn; st] ∧ poller_ok p dn);
  ai_drained : rs_phase (ad_rs s) = RotationReadyToCutover ∨ (∃ d, Drained d ∈ ad_pollers s) → ad_drained s = true }.

#[global] Arguments busy : simpl never.

Lemma busy_app cs1 t cs2 : busy (cs1 ++ t :: cs2) = (Nat.b2n (is_busy t) + busy (cs1 ++ cs2))%nat.
Proof.
  unfold busy. rewrite !filter_app, filter_cons, !length_app.
  case_decide as D; destruct (is_busy t); cbn; try done; try lia; by destruct D.
Qed.

Lemma closeStop_spec rs :
  rs_phase (closeStop rs) = rs_phase rs ∧ rs_inFlightWraps (closeStop rs) = rs_inFlightWraps rs ∧
  rs_drainDone (closeStop rs) = rs_drainDone rs ∧ rs_stopDrain (closeStop rs) = rs_stopDrain rs ∧
  (rs_stopDrain rs = Some 1%nat → ∀ dn st, rs_chans rs = [dn; st] → ∃ st', rs_chans (closeStop rs) = [dn; st']).
Proof.
  unfold closeStop. destruct rs as [p id cv tv pr pl st co gr le fl dd [c|] ch]; cbn; [|by eauto].
  case_match; cbn; (split_and!; [done..|]); intros [= ->] dn st' ->; cbn; eauto.
Qed.

Lemma readyIfDraining_spec rs :
  rs_inFlightWraps (readyIfDraining rs) = rs_inFlightWraps rs ∧ rs_drainDone (readyIfDraining rs) = rs_drainDone rs ∧
  rs_stopDrain (readyIfDraining rs) = rs_stopDrain rs ∧ rs_chans (readyIfDraining rs) = rs_chans rs ∧
  (rs_phase (readyIfDraining rs) = rs_phase rs ∨
   rs_phase rs = RotationDraining ∧ rs_phase (readyIfDraining rs) = RotationReadyToCutover).
Proof. unfold readyIfDraining. destruct rs. case_decide; cbn in *; subst; eauto 10. Qed.

(** A returning goroutine closes its channel once. *)
Lemma pollerExit_ok rs dn st p' rs' :
  rs_chans rs = [dn; st] → dn = false → pollerExit (Some 0%nat) rs = (p', rs') →
  p' = Exited ∧ rs_chans rs' = [true; st] ∧ rs_phase rs' = rs_phase rs ∧ rs_inFlightWraps rs' = rs_inFlightWraps rs ∧
  rs_drainDone rs' = rs_drainDone rs ∧ rs_stopDrain rs' = rs_stopDrain rs.
Proof. intros Hch -> He. unfold pollerExit in He. rewrite Hch in He. cbn in He. simplify_eq. by destruct rs. Qed.

Lemma drainPoller_ok p rs p' rs' dn st :
  drainPoller p rs p' rs' → rs_chans rs = [dn; st] → rs_drainDone rs = Some 0%nat → poller_ok p dn →
  rs_inFlightWraps rs' = rs_inFlightWraps rs ∧ rs_drainDone rs' = rs_drainDone rs ∧ rs_stopDrain rs' = rs_stopDrain rs ∧
  (∃ dn', rs_chans rs' = [dn'; st] ∧ poller_ok p' dn') ∧
  (rs_phase rs' = rs_phase rs ∨ rs_phase rs = RotationDraining ∧ rs_phase rs' = RotationReadyToCutover ∧
     ((∃ d, p = Drained d) ∨ (∃ d, p = Loaded d)) ∧ p' = Exited).
Proof.
  intros Hs Hch Hdd Hp. destruct Hs as [rs|d rs c p' rs' Hc Hst He|d rs|d rs p' rs' He|d rs now t p' rs' Hg Hlt He|d rs now Hg]; cbn in Hp.
  - split_and!; [done..| |by left]. exists dn. by rewrite Hdd.
  - destruct Hp as [-> ->]. eapply pollerExit_ok in He as (-> & ? & ? & ? & ? & ?); [|done..]. split_and!; [done..| |by left]. by eexists.
  - split_and!; [done..| |by left]. exists dn. split; [done|]. by case_match.
  - destruct Hp as [-> ->]. destruct (readyIfDraining_spec rs) as (H1 & H2 & H3 & H4 & H5).
    eapply pollerExit_ok in He as (-> & ? & Hph & -> & -> & ->); [|by rewrite H4|done].
    split_and!; [done..|by eexists|]. rewrite Hph. destruct H5 as [->|[? ->]]; eauto 10.
  - destruct Hp as [-> ->]. destruct (readyIfDraining_spec rs) as (H1 & H2 & H3 & H4 & H5).
    eapply pollerExit_ok in He as (-> & ? & Hph & -> & -> & ->); [|by rewrite H4|done].
    split_and!; [done..|by eexists|]. rewrite Hph. destruct H5 as [->|[? ->]]; eauto 10.
  - split_and!; [done..| |by left]. by exists dn.
Qed.

Lemma Commit_spec force rs rs' :
  Commit force rs = (None, rs') →
  (rs_phase rs = RotationReadyToCutover ∨ rs_phase rs = RotationDraining ∧ (force = true ∨ rs_inFlightWraps rs ≤ 0)) ∧
  rs_phase rs' = RotationCommitting ∧ rs_inFlightWraps rs' = rs_inFlightWraps rs ∧
  rs_drainDone rs' = rs_drainDone rs ∧ rs_stopDrain rs' = rs_stopDrain rs ∧
  (rs_stopDrain rs = Some 1%nat → ∀ dn st, rs_chans rs = [dn; st] → ∃ st', rs_chans rs' = [dn; st']).
Proof.
  unfold Commit. destruct (rs_phase rs) eqn:Hp; try done.
  - destruct (force || _) eqn:Ef; [|done]. intros [= <-]. destruct (closeStop_spec (setPhase RotationCommitting rs)) as (-> & -> & -> & -> & Hc).
    destruct rs; cbn in *. split_and!; try done. right. split; [done|]. apply orb_true_iff in Ef as [->|Ef]; zbool; auto.
  - intros [= <-]. destruct rs; cbn in *. split_and!; eauto.
Qed.

Lemma Abort_spec now rs rs' :
  Abort now rs = (None, rs') →
  (rs_phase rs = RotationReadyToCutover ∨ rs_phase rs = RotationDraining) ∧
  rs_phase rs' = RotationAborted ∧ rs_inFlightWraps rs' = rs_inFlightWraps rs ∧
  rs_drainDone rs' = rs_drainDone rs ∧ rs_stopDrain rs' = rs_stopDrain rs ∧
  (rs_stopDrain rs = Some 1%nat → ∀ dn st, rs_chans rs = [dn; st] → ∃ st', rs_chans rs' = [dn; st']).
Proof.
  unfold Abort. destruct (rs_phase rs) eqn:Hp; try done; intros [= <-];
    destruct (closeStop_spec (setCompleted now (setPhase RotationAborted rs))) as (-> & -> & -> & -> & Hc);
    destruct rs; cbn in *; split_and!; auto.
Qed.

Lemma mark_spec err now rs :
  let rs' := match err with None => MarkCommitted now rs | Some e => MarkFailed (Some e) now rs end in
  rs_phase rs' = (match err with None => RotationCommitted | Some _ => RotationAborted end) ∧
  rs_inFlightWraps rs' = rs_inFlightWraps rs ∧ rs_drainDone rs' = rs_drainDone rs ∧
  rs_stopDrain rs' = rs_stopDrain rs ∧ rs_chans rs' = rs_chans rs.
Proof. by destruct err, rs. Qed.

(** Steps that keep the goroutine and the channels in place. *)
Lemma poller_same rs rs' ps :
  rs_phase rs ≠ RotationIdle → rs_phase rs' ≠ RotationIdle →
  rs_drainDone rs' = rs_drainDone rs → rs_stopDrain rs' = rs_stopDrain rs →
  (rs_stopDrain rs = Some 1%nat → ∀ dn st, rs_chans rs = [dn; st] → ∃ st', rs_chans rs' = [dn; st']) →
  (rs_phase rs = RotationIdle ∧ ps = [] ∧ rs_chans rs = []) ∨
    (rs_phase rs ≠ RotationIdle ∧ rs_drainDone rs = Some 0%nat ∧ rs_stopDrain rs = Some 1%nat ∧
     ∃ p dn st, ps = [p] ∧ rs_chans rs = [dn; st] ∧ poller_ok p dn) →
  rs_phase rs' ≠ RotationIdle ∧ rs_drainDone rs' = Some 0%nat ∧ rs_stopDrain rs' = Some 1%nat ∧
     ∃ p dn st, ps = [p] ∧ rs_chans rs' = [dn; st] ∧ poller_ok p dn.
Proof.
  intros Hph Hph' -> -> Hch [[? _]|(_ & Hdd & Hsd & p & dn & st & -> & Hc & Hp)]; [done|].
  destruct (Hch Hsd dn st Hc) as [st' Hc']. split_and!; [done..|]. by exists p, dn, st'.
Qed.

Section admin_inv.
Context `{MapOrder}.

Lemma start_inv rs km n ps ss cs d id cv tv provider plan grace now rs' :
  StartDrain id cv tv provider plan grace now rs = (None, rs') →
  admin_inv (mkAdmin rs km n ps ss cs d) → ∀ ss', admin_inv (mkAdmin rs' km n (ps ++ [Spawned]) ss' cs false).
Proof.
  intros Hs [Hf Hb Hp Hd] ss'. unfold StartDrain in Hs. destruct (decide (rs_phase rs ≠ RotationIdle)) as [|Hidle]; [done|]. apply dec_stable in Hidle. injection Hs as <-.
  cbn in *. destruct Hp as [(_ & -> & ->)|[? _]]; [|done]. rewrite Hidle, decide_False in Hb by done. split; cbn.
  - done.
  - by rewrite decide_False.
  - right. split_and!; [done..|]. by exists Spawned, false, false.
  - intros [?|[d' ?%list_elem_of_singleton]]; done.
Qed.

Lemma poll_inv rs km n ps1 p ps2 ss cs d p' rs' :
  drainPoller p rs p' rs' → admin_inv (mkAdmin rs km n (ps1 ++ p :: ps2) ss cs d) →
  admin_inv (mkAdmin rs' km n (ps1 ++ p' :: ps2) ss cs (drainedAfter p p' d)).
Proof.
  intros Hs [Hf Hb Hp Hd]. cbn in *. destruct Hp as [(_ & Hnil & _)|(Hph & Hdd & Hsd & q & dn & st & Hq & Hch & Hok)].
  { by destruct ps1. }
  destruct ps1 as [|? ps1]; [|destruct ps1; discriminate Hq]. cbn in *. injection Hq as -> ->.
  destruct (drainPoller_ok _ _ _ _ _ _ Hs Hch Hdd Hok) as (Hf' & Hdd' & Hsd' & (dn' & Hch' & Hok') & Hphase).
  split; cbn.
  - by rewrite Hf'.
  - destruct Hphase as [->|(E & -> & _)]; [done|]. rewrite E in Hb. done.
  - right. rewrite Hdd', Hsd'. split_and!; [|done..|by exists p', dn', st]. destruct Hphase as [->|(_ & -> & _)]; done.
  - intros Hor. destruct Hphase as [Heq|(Hdr & _ & Hq & ->)].
    + destruct Hor as [Hr|[d' <-%list_elem_of_singleton]]; [|by destruct q].
      rewrite Heq in Hr. specialize (Hd (or_introl Hr)). destruct q, p'; cbn; done.
    + destruct Hq as [[d' ->]|[d' ->]]; [|done]. cbn. apply Hd. right. exists d'. by left.
Qed.

Lemma admin_step_inv s s' : admin_step s s' → admin_inv s → admin_inv s'.
Proof.
  intros Hs Hi. destruct Hs.
  - destruct Hi as [[Hf Hm] Hb Hp Hd], rs; cbn in *. split; cbn; try done. rewrite Hf, wrap_i64_id by (unfold MaxInt64 in *; lia). lia.
  - destruct Hi as [[Hf Hm] Hb Hp Hd], rs; cbn in *. split; cbn; try done. rewrite Hf, wrap_i64_id by (unfold MaxInt64 in *; lia). lia.
  - destruct Hi as [Hf Hb Hp Hd]. by split.
  - by eapply start_inv.
  - destruct Hi as [Hf Hb Hp Hd]. by split.
  - by eapply poll_inv.
  - destruct Hi as [Hf Hb Hp Hd]. by split.
  - destruct Hi as [Hf Hb Hp Hd]. cbn in *. match goal with E : Commit _ _ = _ |- _ => apply Commit_spec in E as (Hph & Hph' & Hfl & Hdd & Hsd & Hch) end.
    assert (Hni : rs_phase rs ≠ RotationIdle ∧ rs_phase rs ≠ RotationCommitting) by (by destruct Hph as [->|[-> _]]).
    destruct Hni as [Hni Hnc]. rewrite decide_False in Hb by done. split; cbn.
    + by rewrite Hfl.
    + rewrite busy_app in Hb |- *. rewrite decide_True by done. cbn in *. lia.
    + right. eapply poller_same; [done|by rewrite Hph'|done..].
    + intros [Hr|?]; [by rewrite Hph' in Hr|]. apply Hd. by right.
  - destruct Hi as [Hf Hb Hp Hd]. split; cbn in *; try done. by rewrite busy_app in Hb.
  - destruct Hi as [Hf Hb Hp Hd]. split; cbn in *; try done. rewrite busy_app in Hb |- *. exact Hb.
  - destruct Hi as [Hf Hb Hp Hd]. cbn in *. rewrite busy_app in Hb. cbn in Hb.
    case_decide as Hc; [|done]. destruct (mark_spec err now rs) as (Hph & Hfl & Hdd & Hsd & Hch). cbn zeta in *.
    set (rs' := match err with None => _ | Some _ => _ end) in *.
    assert (Hn : rs_phase rs' ≠ RotationIdle ∧ rs_phase rs' ≠ RotationCommitting ∧ rs_phase rs' ≠ RotationReadyToCutover)
      by (rewrite Hph; by destruct err). split; cbn.
    + by rewrite Hfl.
    + rewrite decide_False by apply Hn. lia.
    + right. eapply (poller_same rs rs'); [by rewrite Hc|apply Hn|done|done| |done]. intros _ dn st E. rewrite Hch. eauto.
    + intros [?|?]; [by destruct Hn as (_ & _ & [])|]. apply Hd. by right.
  - destruct Hi as [Hf Hb Hp Hd]. cbn in *. match goal with E : Abort _ _ = _ |- _ => apply Abort_spec in E as (Hph & Hph' & Hfl & Hdd & Hsd & Hch) end.
    assert (Hni : rs_phase rs ≠ RotationIdle ∧ rs_phase rs ≠ RotationCommitting) by (by destruct Hph as [->| ->]).
    destruct Hni as [Hni Hnc]. rewrite decide_False in Hb by done. split; cbn.
    + by rewrite Hfl.
    + by rewrite Hph'.
    + right. eapply poller_same; [done|by rewrite Hph'|done..].
    + intros [Hr|?]; [by rewrite Hph' in Hr|]. apply Hd. by right.
Qed.

Lemma admin_reachable_inv km s : rtc admin_step (initial km) s → admin_inv s.
Proof.
  intros Hr. eapply (rtc_ind_r admin_inv (initial km)); [|intros; by eapply admin_step_inv|done].
  split; cbn; [done..|by left|intros [?|[d ?]]; set_solver].
Qed.

Definition terminal (p : RotationPhase) : Prop := p = RotationCommitted ∨ p = RotationAborted.

Lemma admin_step_terminal s s' :
  admin_inv s → admin_step s s' → terminal (rs_phase (ad_rs s)) →
  rs_phase (ad_rs s') = rs_phase (ad_rs s) ∧ im_activeVersion (ad_km s') = im_activeVersion (ad_km s).
Proof.
  intros Hi Hs Ht. assert (Hbusy : busy (ad_commits s) = 0%nat).
  { rewrite (ai_busy s Hi). by destruct Ht as [->| ->]. }
  destruct Hs; cbn in *; try done.
  - by destruct rs.
  - by destruct rs.
  - unfold StartDrain in *. case_decide as Hidle; [done|]. rewrite Hidle in Ht. by destruct Ht.
  - split; [|done]. destruct Hi as [_ _ Hp _]. cbn in Hp.
    destruct Hp as [(Hidle & _)|(_ & Hdd & _ & q & dn & st & Hq & Hch & Hok)]; [rewrite Hidle in Ht; by destruct Ht|].
    destruct ps1 as [|? ps1]; [|destruct ps1; discriminate Hq]. cbn in Hq. injection Hq as -> ->.
    match goal with E : drainPoller _ _ _ _ |- _ => destruct (drainPoller_ok _ _ _ _ _ _ E Hch Hdd Hok) as (_ & _ & _ & _ & [?|(E' & _)]) end; [done|].
    rewrite E' in Ht. by destruct Ht.
  - match goal with E : Commit _ _ = _ |- _ => apply Commit_spec in E as ([E'|[E' _]] & _) end; rewrite E' in Ht; by destruct Ht.
  - rewrite busy_app in Hbusy. cbn in Hbusy. lia.
  - rewrite busy_app in Hbusy. cbn in Hbusy. lia.
  - match goal with E : Abort _ _ = _ |- _ => apply Abort_spec in E as ([E'|E'] & _) end; rewrite E' in Ht; by destruct Ht.
Qed.

(** ** Theorems *)


(** A rotation ends once. When a rotation has been committed or aborted,
    no sequence of requests to the admin endpoints leaves that phase or
    changes the active version again, and every later start is refused with a
    conflict. *)
Theorem rotation_terminal km s s' :
  rtc admin_step (initial km) s → terminal (rs_phase (ad_rs s)) → rtc admin_step s s' →
  rs_phase (ad_rs s') = rs_phase (ad_rs s) ∧ im_activeVersion (ad_km s') = im_activeVersion (ad_km s) ∧
  ∀ id cv tv provider plan grace now, ∃ e,
    StartDrain id cv tv provider plan grace now (ad_rs s') = (Some e, ad_rs s') ∧ error_is e ErrRotationConflict = true.
Proof.
  intros Hi%admin_reachable_inv Ht Hs.
  assert (G : admin_inv s' ∧ rs_phase (ad_rs s') = rs_phase (ad_rs s) ∧ im_activeVersion (ad_km s') = im_activeVersion (ad_km s)).
  { eapply (rtc_ind_r (λ x, admin_inv x ∧ rs_phase (ad_rs x) = rs_phase (ad_rs s) ∧ im_activeVersion (ad_km x) = im_activeVersion (ad_km s)) s); [done| |done].
    intros x y _ Hstep (Hx & Hpx & Hvx). destruct (admin_step_terminal x y Hx Hstep) as [Hpy Hvy]; [by rewrite Hpx|].
    split_and!; [by eapply admin_step_inv|congruence|congruence]. }
  destruct G as (_ & Hph & Hv). split_and!; [done..|]. intros. unfold StartDrain.
  rewrite decide_True by (rewrite Hph; destruct Ht as [->| ->]; done). by eexists.
Qed.
End admin_inv.

(** ** The theorems at concrete inputs *)

Module RotationWitness.
Import MemoryWitness.
Definition plan : RotationPlan := mkPlan 1 2.
Definition draining : RotationState := (StartDrain "rot-1" 1 2 "memory" (Some plan) 30 100 NewRotationState).2.
Definition committing : RotationState := (Commit false draining).2.
Definition promoted : inMemoryKeyManager := (PromoteActiveVersion plan rotated).2.
Definition committed : admin := mkAdmin (MarkCommitted 105 committing) promoted 0 [Spawned] [] [] false.

(** A rotation from start to commit, with no wrap in flight. *)
Lemma commit_path : rtc admin_step (initial rotated) committed.
Proof.
  eapply rtc_l; [eapply (as_prepare _ _ _ _ _ _ _ None plan); vm_compute; reflexivity|].
  eapply rtc_l; [eapply (as_start _ _ _ _ [] plan [] _ _ "rot-1" "memory" 30 100 draining); reflexivity|].
  eapply rtc_l; [eapply (as_snapshot _ _ _ _ _ _ _ false)|].
  eapply rtc_l; [eapply (as_commit _ _ _ _ _ [] false _ [] _ committing); reflexivity|].
  eapply rtc_l; [eapply (as_promote _ _ _ _ _ [] _ [] _ None promoted); vm_compute; reflexivity|].
  eapply rtc_l; [eapply (as_mark _ _ _ _ _ [] None [] _ 105)|]. apply rtc_refl.
Qed.
End RotationWitness.

Section witnesses.
Import MemoryWitness RotationWitness.


Lemma rotation_terminal_witness :
  ∃ e, StartDrain "rot-2" 2 1 "memory" None 30 200 (ad_rs committed) = (Some e, ad_rs committed) ∧ error_is e ErrRotationConflict = true.
Proof. apply (rotation_terminal rotated committed committed commit_path (or_introl eq_refl) (rtc_refl _ _)). Defined.
End witnesses.
