(* ===== verification/Metadata.v ===== *)
(** * Object metadata

    The registry of the gateway's metadata keys ([metakeys.go]), provider
    profiles ([provider_profiles.go]), the compaction of keys into short
    aliases and back ([metadata_compaction.go]), the merging of unauthenticated
    fallback metadata ([fallback_prefix.go]), the classification of stored
    objects ([object_format.go]) and the pass-through engine
    ([passthrough.go]), all of internal/crypto, with the standard headers of
    internal/objectmeta. *)
From S2P Require Import Prelude GoStd GoIO ObjectAAD ChunkLayout.
Local Open Scope Z_scope.
Local Open Scope go_scope.
#[local] Arguments ToLower : simpl never.
#[local] Arguments EqualFold : simpl never.

(** ** The registry *)

Inductive MetaKeyClass := MetaClassControl | MetaClassProtectedStandard | MetaClassStructural.
#[export] Instance MetaKeyClass_eq_dec : EqDecision MetaKeyClass.
Proof. solve_decision. Defined.

Record MetaKeySpec := mkSpec {
  Canonical : string; Compact : string; Legacy : list string; Class_ : MetaKeyClass;
  Header : string; LegacyEncryptionPredicate : bool }.
#[export] Instance MetaKeySpec_eq_dec : EqDecision MetaKeySpec.
Proof. solve_decision. Defined.

Definition MetaEncrypted : string := "x-amz-meta-encrypted".
Definition MetaAlgorithm : string := "x-amz-meta-encryption-algorithm".
Definition MetaKeySalt : string := "x-amz-meta-encryption-key-salt".
Definition MetaIV : string := "x-amz-meta-encryption-iv".
Definition MetaAuthTag : string := "x-amz-meta-encryption-auth-tag".
Definition MetaOriginalETag : string := "x-amz-meta-encryption-original-etag".
Definition MetaWrappedKeyCiphertext : string := "x-amz-meta-encryption-wrapped-key".
Definition MetaKMSKeyID : string := "x-amz-meta-encryption-kms-id".
Definition MetaKMSProvider : string := "x-amz-meta-encryption-kms-provider".
Definition MetaContentType : string := "x-amz-meta-encryption-content-type".
Definition MetaCacheControl : string := "x-amz-meta-encryption-cache-control".
Definition MetaContentDisposition : string := "x-amz-meta-encryption-content-disposition".
Definition MetaContentEncoding : string := "x-amz-meta-encryption-content-encoding".
Definition MetaContentLanguage : string := "x-amz-meta-encryption-content-language".
Definition MetaExpires : string := "x-amz-meta-encryption-expires".
Definition MetaKDFParams : string := "x-amz-meta-encryption-kdf-params".
Definition MetaEncryptedMetadata : string := "x-amz-meta-enc-metadata".
Definition MetaFallbackMode : string := "x-amz-meta-encryption-fallback".
Definition MetaFallbackPointer : string := "x-amz-meta-encryption-fallback-ptr".
Definition MetaFallbackVersion : string := "x-amz-meta-encryption-fallback-version".
Definition MetaLegacyNoAAD : string := "x-amz-meta-enc-legacy-no-aad".
Definition MetaObjectFormatVersion : string := "x-amz-meta-encryption-format-version".
Definition MetaObjectBindingID : string := "x-amz-meta-encryption-binding-id".
Definition MetaMPUManifestVersion : string := "x-amz-meta-encryption-mpu-manifest-version".
Definition MetaMPUEncrypted : string := "x-amz-meta-encrypted-mpu".

Definition control (canonical compact : string) : MetaKeySpec := mkSpec canonical compact [] MetaClassControl "" true.
Definition structural (canonical compact : string) (legacy : bool) : MetaKeySpec :=
  mkSpec canonical compact [] MetaClassStructural "" legacy.
Definition protected (canonical compact : string) (old : list string) (header : string) (legacy : bool) : MetaKeySpec :=
  mkSpec canonical compact old MetaClassProtectedStandard header legacy.

Definition metaKeyRegistry : list MetaKeySpec := [
  control MetaEncrypted "x-amz-meta-e"; control MetaAlgorithm "x-amz-meta-a";
  control MetaKeySalt "x-amz-meta-s"; control MetaIV "x-amz-meta-i";
  control MetaAuthTag ""; control MetaOriginalSize "x-amz-meta-os";
  control MetaOriginalETag "x-amz-meta-oe";
  protected MetaContentType "x-amz-meta-ct" ["encryption-content-type"] "Content-Type" true;
  protected MetaCacheControl "x-amz-meta-ccache" ["encryption-cache-control"] "Cache-Control" true;
  protected MetaContentDisposition "x-amz-meta-cdisp" ["encryption-content-disposition"] "Content-Disposition" true;
  protected MetaContentEncoding "x-amz-meta-cenc" [] "Content-Encoding" false;
  protected MetaContentLanguage "x-amz-meta-clang" [] "Content-Language" false;
  protected MetaExpires "x-amz-meta-cexp" [] "Expires" false;
  control MetaChunkedFormat "x-amz-meta-c"; control MetaChunkSize "x-amz-meta-cs";
  control MetaChunkCount "x-amz-meta-cc"; control MetaManifest "x-amz-meta-m";
  control MetaKeyVersion "x-amz-meta-kv"; control MetaWrappedKeyCiphertext "x-amz-meta-wk";
  control MetaKMSKeyID "x-amz-meta-kid"; control MetaKMSProvider "x-amz-meta-kp"; control MetaKDFParams "x-amz-meta-kdf";
  structural MetaFallbackMode "x-amz-meta-fb" true; structural MetaFallbackPointer "" true;
  structural MetaFallbackVersion "x-amz-meta-fbv" true; control MetaIVDerivation ""; control MetaLegacyNoAAD "";
  structural MetaObjectFormatVersion "x-amz-meta-fmt" true;
  structural MetaObjectBindingID "x-amz-meta-bid" true; structural MetaMPUManifestVersion "" true;
  structural MetaMPUEncrypted "" false; structural MetaEncryptedMetadata "x-amz-meta-em" false ].

(** The names of an entry that the package's [init] checks for duplicates. *)
Definition specNames (s : MetaKeySpec) : list string := filter (λ n, n ≠ "") (Canonical s :: Compact s :: Legacy s).
(** [init] panics on a duplicate. *)
Fixpoint registry_init (seen : list string) (names : list string) : bool :=
  match names with
  | [] => true
  | n :: names => if bool_decide (ToLower n ∈ seen) then false else registry_init (ToLower n :: seen) names
  end.

(** Does the entry have this name, in any spelling of it? *)
Definition matches (s : MetaKeySpec) (k : string) : bool :=
  bool_decide (ToLower (Canonical s) = ToLower k) || bool_decide (ToLower (Compact s) = ToLower k) ||
  existsb (λ l, bool_decide (ToLower l = ToLower k)) (Legacy s).
Definition LookupMetaKey (key : string) : option MetaKeySpec := find (λ s, matches s key) metaKeyRegistry.

Definition originalContentLength : string := "x-amz-meta-original-content-length".

Definition IsEncryptionMetadata (key : string) : bool :=
  if EqualFold key originalContentLength then true else
  match LookupMetaKey key with
  | Some s => LegacyEncryptionPredicate s && negb (EqualFold key MetaEncrypted)
  | None => false
  end.
Definition isEncryptionPayloadMetadata (key : string) : bool := IsEncryptionMetadata key && negb (EqualFold key MetaEncrypted).
Definition isEncryptionCleanupMetadata (key : string) : bool := IsEncryptionMetadata key || EqualFold key MetaEncrypted.
Definition IsGatewayReservedKey (key : string) : bool :=
  EqualFold key originalContentLength || match LookupMetaKey key with Some _ => true | None => false end.

(** [objectmeta.Names]. *)
Definition Names : list string :=
  ["Content-Type"; "Cache-Control"; "Content-Disposition"; "Content-Encoding"; "Content-Language"; "Expires"].
Definition IsStandard (name : string) : bool := existsb (EqualFold name) Names.

Definition ProtectedStandardKeys : list MetaKeySpec :=
  n ← Names; filter (λ s, Class_ s = MetaClassProtectedStandard ∧ Header s = n) metaKeyRegistry.
Definition CompactAliases : gomap :=
  foldl (λ out s, if decide (Compact s ≠ "") then map_set out (Canonical s) (Compact s) else out) [] metaKeyRegistry.
Definition HasCompactAlias (meta : gomap) : bool :=
  existsb (λ s, negb (bool_decide (Compact s = "")) && existsb (λ kv, EqualFold kv.1 (Compact s)) meta) metaKeyRegistry.

(** The first entry the iteration meets whose key folds to the name. *)
Fixpoint metadataValue (metadata : gomap) (name : string) : option string :=
  match metadata with
  | [] => None
  | (key, value) :: metadata => if EqualFold key name then Some value else metadataValue metadata name
  end.
Definition metadataValueFold (meta : gomap) (name : string) : string := default "" (metadataValue meta name).

(** ** Provider profiles *)

Record ProviderProfile := mkProfile {
  Name : string; UserMetadataLimit : Z; SystemMetadataLimit : Z; TotalHeaderLimit : Z;
  SupportsLongKeys : bool; CompactionStrategy : string }.
Definition ProviderAWS := mkProfile "aws" 2048 0 8192 true "base64url".
Definition ProviderMinIO := mkProfile "minio" 2048 0 8192 true "base64url".
Definition ProviderWasabi := mkProfile "wasabi" 2048 0 8192 true "base64url".
Definition ProviderHetzner := mkProfile "hetzner" 2048 0 8192 true "base64url".
Definition ProviderBackblaze := mkProfile "backblaze" 2048 0 8192 true "base64url".
Definition ProviderDefault := mkProfile "default" 2048 0 8192 true "none".
Definition ErrMetadataTooLarge : error := Sentinel "metadata exceeds provider limits".

Definition GetProviderProfile (provider : string) : ProviderProfile :=
  let p := ToLower provider in
  if decide (p ∈ ["aws"; "amazon"; "s3"]) then ProviderAWS
  else if decide (p ∈ ["minio"; "min.io"]) then ProviderMinIO
  else if decide (p = "wasabi") then ProviderWasabi
  else if decide (p = "hetzner") then ProviderHetzner
  else if decide (p ∈ ["backblaze"; "b2"]) then ProviderBackblaze
  else ProviderDefault.

Definition ResolveMetadataProfile (provider mode : string) : result ProviderProfile :=
  let profile := GetProviderProfile provider in
  if decide (mode ∈ [""; "auto"]) then Ok profile
  else if decide (mode = "compact") then
    Ok (mkProfile (Name profile) (UserMetadataLimit profile) (SystemMetadataLimit profile) (TotalHeaderLimit profile)
          (SupportsLongKeys profile) "base64url")
  else Err (Errorf "invalid backend.metadata_profile").

Definition entrySize (kv : string * string) : Z := strlen kv.1 + 2 + strlen kv.2 + 2.
Definition EstimateMetadataSize (metadata : gomap) : Z := foldl (λ total kv, total +i entrySize kv) 0 metadata.
Definition isUserMetadata (key : string) : bool := HasPrefix (ToLower key) "x-amz-meta-".

Definition ValidateMetadataSize (p : ProviderProfile) (metadata : gomap) : option error :=
  let totalSize := EstimateMetadataSize metadata in
  if (0 <? TotalHeaderLimit p) && (TotalHeaderLimit p <? totalSize) then
    Some (Wrapf "%w: metadata size %d bytes exceeds provider %s total header limit of %d bytes" ErrMetadataTooLarge)
  else
    let userMetaSize := foldl (λ total kv, if isUserMetadata kv.1 then total +i entrySize kv else total) 0 metadata in
    if (0 <? UserMetadataLimit p) && (UserMetadataLimit p <? userMetaSize) then
      Some (Wrapf "%w: user metadata size %d bytes exceeds provider %s user metadata limit of %d bytes" ErrMetadataTooLarge)
    else None.
Definition ShouldCompact (p : ProviderProfile) (metadata : gomap) : bool :=
  negb (bool_decide (CompactionStrategy p = "none")).

(** ** Compaction *)

Definition is_base64url (p : ProviderProfile) : bool := bool_decide (CompactionStrategy p = "base64url").

(** Assigning the entries of one map to another. *)
Definition map_merge (out m : gomap) : gomap := foldl (λ out kv, map_set out kv.1 kv.2) out m.

(** The value of an entry under its canonical or its compact name. *)
Definition storedValue (metadata : gomap) (spec : MetaKeySpec) : option string :=
  match metadataValue metadata (Canonical spec) with
  | Some v => Some v
  | None => metadataValue metadata (Compact spec)
  end.

Definition compactEncryptionMetadata (p : ProviderProfile) (metadata : gomap) : gomap :=
  if is_base64url p then
    foldl (λ out spec,
      if decide (Compact spec = "" ∨ Canonical spec = MetaEncrypted) then out else
      match storedValue metadata spec with
      | Some v => if decide (v ≠ "") then map_set out (Compact spec) v else out
      | None => out
      end) [] metaKeyRegistry
  else filter (λ kv, IsEncryptionMetadata kv.1) metadata.

(** Keys that are copied by compaction as they are. *)
Definition keptByCompaction (key : string) : bool :=
  match LookupMetaKey key with
  | Some spec => if decide (Compact spec ≠ "") then false else negb (IsEncryptionMetadata key)
  | None => negb (IsEncryptionMetadata key)
  end.

(** The [spec] of [LookupMetaKey(MetaEncrypted)]. *)
Definition encryptedSpec : MetaKeySpec := control MetaEncrypted "x-amz-meta-e".

Definition CompactMetadata (p : ProviderProfile) (metadata : gomap) : gomap :=
  if negb (ShouldCompact p metadata) then metadata else
  let compacted := filter (λ kv, keptByCompaction kv.1) metadata in
  let compacted := match storedValue metadata encryptedSpec with
                   | Some marker => map_set compacted MetaEncrypted marker
                   | None => compacted
                   end in
  map_merge compacted (compactEncryptionMetadata p metadata).

Definition isCompactedKey (p : ProviderProfile) (key : string) : bool :=
  is_base64url p && existsb (λ s, negb (bool_decide (Compact s = "")) && EqualFold key (Compact s)) metaKeyRegistry.

Definition expandEncryptionMetadata (p : ProviderProfile) (metadata : gomap) : gomap :=
  if is_base64url p then
    foldl (λ out spec,
      if decide (Compact spec = "") then out else
      match metadataValue metadata (Canonical spec) with
      | Some _ => out
      | None =>
          match metadataValue metadata (Compact spec) with
          | Some v => if decide (v ≠ "") then map_set out (Canonical spec) v else out
          | None => out
          end
      end) [] metaKeyRegistry
  else filter (λ kv, IsEncryptionMetadata kv.1) metadata.

Definition ExpandMetadata (p : ProviderProfile) (metadata : gomap) : gomap :=
  let expanded := filter (λ kv, negb (isCompactedKey p kv.1)) metadata in
  let expanded := match metadataValue metadata MetaEncrypted with
                  | Some marker => map_set expanded MetaEncrypted marker
                  | None => expanded
                  end in
  map_merge expanded (expandEncryptionMetadata p metadata).

Definition ExpandMetadataForAPI (metadata : gomap) : gomap :=
  if HasCompactAlias metadata then ExpandMetadata ProviderAWS metadata else metadata.

(** ** Metadata maps up to the case of their keys *)

(** Keys are distinct even when case is ignored, as header names are. *)
Definition fold_distinct (m : gomap) : Prop := NoDup (ToLower <$> m.*1).
(** No other spelling of [k] is a key of [m]. *)
Definition no_variant (m : gomap) (k : string) : Prop := ∀ k', k' ∈ m.*1 → ToLower k' = ToLower k → k' = k.

Lemma EqualFold_spec s t : EqualFold s t = true ↔ ToLower s = ToLower t.
Proof. unfold EqualFold. by rewrite bool_decide_eq_true. Qed.

Lemma metadataValue_fold m n n' : ToLower n = ToLower n' → metadataValue m n = metadataValue m n'.
Proof. intros E. induction m as [|[k v] m IH]; [done|]. cbn. unfold EqualFold. by rewrite E, IH. Qed.

Lemma metadataValue_Some m n v : metadataValue m n = Some v → ∃ k, (k, v) ∈ m ∧ ToLower k = ToLower n.
Proof.
  induction m as [|[k v'] m IH]; cbn; [done|]. destruct (EqualFold k n) eqn:E.
  - intros [= ->]. apply EqualFold_spec in E. exists k. split; [by left|done].
  - intros (k' & ? & ?)%IH. exists k'. split; [by right|done].
Qed.

Lemma metadataValue_None m n : metadataValue m n = None ↔ ∀ k, k ∈ m.*1 → ToLower k ≠ ToLower n.
Proof.
  induction m as [|[k v] m IH]; cbn; [set_solver|]. destruct (EqualFold k n) eqn:E.
  - apply EqualFold_spec in E. split; [done|]. intros Hk. by destruct (Hk k ltac:(by left)).
  - rewrite IH. split; intros Hk k'; [|by intros; apply Hk; right]. intros [->|?]%elem_of_cons; [|by apply Hk].
    intros Heq%EqualFold_spec. congruence.
Qed.

Lemma metadataValue_elem m k v : fold_distinct m → (k, v) ∈ m → metadataValue m k = Some v.
Proof.
  unfold fold_distinct. induction m as [|[k' v'] m IH]; cbn; [set_solver|]. intros [Hn Hd]%NoDup_cons [[= -> ->]|Hin]%elem_of_cons.
  - by rewrite (proj2 (EqualFold_spec _ _)).
  - destruct (EqualFold k' k) eqn:E; [|by apply IH]. apply EqualFold_spec in E. destruct Hn. rewrite E.
    apply list_elem_of_fmap_2, (list_elem_of_fmap_2 fst _ _ Hin).
Qed.

(** The order of the iteration does not matter for such maps. *)
Lemma metadataValue_perm m m' n : fold_distinct m → m ≡ₚ m' → metadataValue m n = metadataValue m' n.
Proof.
  intros Hd Hp. destruct (metadataValue m n) as [v|] eqn:E; symmetry.
  - apply metadataValue_Some in E as (k & Hk & Hf). rewrite <-(metadataValue_fold _ k n Hf).
    apply metadataValue_elem; [|by rewrite <-Hp]. unfold fold_distinct. by rewrite <-Hp.
  - rewrite metadataValue_None in E |- *. intros k. rewrite <-Hp. apply E.
Qed.

Lemma metadataValue_filter (P : string → bool) m n :
  (∀ k, ToLower k = ToLower n → P k = P n) →
  metadataValue (filter (λ kv, P kv.1) m) n = if P n then metadataValue m n else None.
Proof.
  intros HP. induction m as [|[k v] m IH]; [by destruct (P n)|]. rewrite filter_cons. cbn [fst metadataValue].
  destruct (EqualFold k n) eqn:E; [apply EqualFold_spec in E; rewrite (HP k E)|].
  - destruct (P n) eqn:EP; [rewrite decide_True by done|rewrite decide_False by (by intros []); exact IH].
    cbn. by rewrite (proj2 (EqualFold_spec _ _) E).
  - case_decide; [|done]. cbn. by rewrite E.
Qed.

Lemma map_set_keys m k v k' : k' ∈ (map_set m k v).*1 ↔ k' = k ∨ k' ∈ m.*1.
Proof.
  induction m as [|[k1 v1] m IH]; cbn; [set_solver|]. case_decide as E; cbn; rewrite !elem_of_cons; [subst; tauto|].
  rewrite IH. tauto.
Qed.

Lemma metadataValue_set m k v n :
  no_variant m k → metadataValue (map_set m k v) n = if decide (ToLower k = ToLower n) then Some v else metadataValue m n.
Proof.
  induction m as [|[k1 v1] m IH]; intros Hv; cbn.
  - destruct (EqualFold k n) eqn:En.
    + apply EqualFold_spec in En. by rewrite decide_True.
    + by rewrite decide_False by (intros ?%EqualFold_spec; congruence).
  - destruct (decide (k1 = k)) as [E|E]; cbn.
    + subst. destruct (EqualFold k n) eqn:En.
      * apply EqualFold_spec in En. by rewrite decide_True.
      * by rewrite decide_False by (intros ?%EqualFold_spec; congruence).
    + rewrite IH by (intros k' ?; apply Hv; by right). destruct (EqualFold k1 n) eqn:En; [|done].
      apply EqualFold_spec in En. case_decide as Ek; [|done]. destruct E. apply Hv; [by left|congruence].
Qed.

Lemma fold_distinct_set m k v : fold_distinct m → no_variant m k → fold_distinct (map_set m k v).
Proof.
  unfold fold_distinct. induction m as [|[k1 v1] m IH]; intros Hd Hv; cbn.
  - repeat constructor. set_solver.
  - apply NoDup_cons in Hd as [Hn Hd]. destruct (decide (k1 = k)) as [E|E]; cbn.
    + subst. by constructor.
    + constructor; [|apply IH; [done|intros k' ?; apply Hv; by right]].
      intros (k' & Ek & Hk'%map_set_keys)%list_elem_of_fmap. destruct Hk' as [->|Hk'].
      * destruct E. apply Hv; [by left|done].
      * destruct Hn. cbn. rewrite Ek. by apply list_elem_of_fmap_2.
Qed.

Lemma fold_distinct_filter (P : string * string → Prop) `{!∀ x, Decision (P x)} m : fold_distinct m → fold_distinct (filter P m).
Proof.
  unfold fold_distinct. rewrite <-!list_fmap_compose. intros Hd. eapply sublist_NoDup; [done|]. apply fmap_sublist, sublist_filter.
Qed.

(** Assigning values to a list of entries with distinct keys. *)
Section assign.
Context (key : MetaKeySpec → string) (val : MetaKeySpec → option string).

Definition assign (specs : list MetaKeySpec) : gomap :=
  foldl (λ out s, match val s with Some v => map_set out (key s) v | None => out end) [] specs.

Lemma assign_spec specs :
  (∀ s s', s ∈ specs → s' ∈ specs → val s ≠ None → val s' ≠ None → ToLower (key s) = ToLower (key s') → s = s') →
  fold_distinct (assign specs) ∧
  (∀ k, k ∈ (assign specs).*1 → ∃ s, s ∈ specs ∧ k = key s ∧ val s ≠ None) ∧
  (∀ s, s ∈ specs → val s ≠ None → metadataValue (assign specs) (key s) = val s).
Proof using.
  unfold assign. induction specs as [|s specs IH] using rev_ind; intros Hinj; [split_and!; [constructor|set_solver..]|].
  destruct IH as (Hd & Hk & Hv); [intros; apply Hinj; set_solver|]. rewrite foldl_app. cbn [foldl].
  destruct (val s) as [v|] eqn:Es; [|split_and!; [done|set_solver|]].
  2: { intros s' [Hs'| <-%list_elem_of_singleton]%elem_of_app; [by apply Hv|congruence]. }
  assert (Hnv : no_variant (foldl (λ out s, match val s with Some v => map_set out (key s) v | None => out end) [] specs) (key s)).
  { intros k' (s' & Hs' & -> & Hv')%Hk Ef. f_equal. apply Hinj; [set_solver..|done|congruence|done]. }
  split_and!.
  - by apply fold_distinct_set.
  - intros k [->|Hin]%map_set_keys; [exists s; split_and!; [set_solver|done|congruence]|].
    destruct (Hk k Hin) as (s' & ? & ? & ?). exists s'. set_solver.
  - intros s' Hs' Hv'. rewrite metadataValue_set by done. case_decide as Ef.
    + assert (s = s') as <- by (apply Hinj; [set_solver..|congruence|done|done]). done.
    + apply elem_of_app in Hs' as [Hs'| ->%list_elem_of_singleton]; [by apply Hv|done].
Qed.
End assign.

Lemma merge_spec out m :
  fold_distinct out → fold_distinct m → (∀ k, k ∈ m.*1 → no_variant out k) →
  fold_distinct (map_merge out m) ∧
  (∀ k, k ∈ (map_merge out m).*1 ↔ k ∈ out.*1 ∨ k ∈ m.*1) ∧
  ∀ n, metadataValue (map_merge out m) n = match metadataValue m n with Some v => Some v | None => metadataValue out n end.
Proof.
  intros Hdo. unfold map_merge. induction m as [|[k v] m IH] using rev_ind; intros Hdm Hnv; [split_and!; [done|set_solver|done]|].
  unfold fold_distinct in Hdm. rewrite !fmap_app in Hdm. apply NoDup_app in Hdm as (Hdm & Hdisj & _).
  destruct IH as (Hd & Hk & Hv); [done|intros; apply Hnv; rewrite fmap_app; set_solver|].
  rewrite foldl_app. cbn [foldl fst snd]. set (r := foldl _ out m) in *.
  assert (Hr : no_variant r k).
  { intros k' [Hin|Hin]%Hk Ef; [apply (Hnv k); [rewrite fmap_app; set_solver|done|done]|].
    destruct (Hdisj (ToLower k')); [by apply list_elem_of_fmap_2|]. rewrite Ef. cbn. by left. }
  split_and!.
  - by apply fold_distinct_set.
  - intros k'. rewrite map_set_keys, Hk, fmap_app. set_solver.
  - intros n. rewrite metadataValue_set by done. rewrite Hv.
    assert (Happ : metadataValue (m ++ [(k, v)]) n = match metadataValue m n with Some v' => Some v' | None => if EqualFold k n then Some v else None end).
    { clear. induction m as [|[k1 v1] m IH]; cbn; [done|]. by destruct (EqualFold k1 n). }
    rewrite Happ. unfold EqualFold. case_decide as Ef.
    + rewrite bool_decide_eq_true_2 by done. replace (metadataValue m n) with (None : option string); [done|].
      symmetry. apply metadataValue_None. intros k' Hk' Ek'. destruct (Hdisj (ToLower k')); [by apply list_elem_of_fmap_2|].
      rewrite Ek', <-Ef. cbn. by left.
    + rewrite bool_decide_eq_false_2 by done. by destruct (metadataValue m n).
Qed.

(** ** Facts about the registry *)

Lemma registry_checked :
  registry_init [] (metaKeyRegistry ≫= specNames) = true ∧
  forallb (λ s, bool_decide (LookupMetaKey (Canonical s) = Some s) &&
    (bool_decide (Compact s = "") || bool_decide (LookupMetaKey (Compact s) = Some s)) &&
    negb (bool_decide (ToLower (Canonical s) = ToLower (Compact s))) && negb (bool_decide (Canonical s = "")) &&
    negb (EqualFold (Compact s) originalContentLength)) metaKeyRegistry = true.
Proof. vm_compute. done. Qed.

#[local] Opaque LookupMetaKey metaKeyRegistry.

Lemma registry_fact s :
  s ∈ metaKeyRegistry →
  LookupMetaKey (Canonical s) = Some s ∧ (Compact s ≠ "" → LookupMetaKey (Compact s) = Some s) ∧
  ToLower (Canonical s) ≠ ToLower (Compact s).
Proof.
  intros Hin. pose proof (proj2 registry_checked) as Hall. rewrite forallb_forall in Hall.
  specialize (Hall s (proj1 (list_elem_of_In _ _) Hin)). rewrite !andb_true_iff, orb_true_iff, !negb_true_iff in Hall.
  destruct Hall as ((((H1 & H2) & H3) & _) & _). apply bool_decide_eq_true in H1. apply bool_decide_eq_false in H3.
  split; [exact H1|]. split; [|exact H3]. intros Hc. destruct H2 as [H2%bool_decide_eq_true|H2%bool_decide_eq_true]; [by destruct (Hc H2)|exact H2].
Qed.

#[local] Transparent LookupMetaKey.
Lemma LookupMetaKey_fold k k' : ToLower k = ToLower k' → LookupMetaKey k = LookupMetaKey k'.
Proof.
  intros E. unfold LookupMetaKey. generalize metaKeyRegistry as l.
  assert (Hm : ∀ s, matches s k = matches s k') by (intros s; unfold matches; by rewrite E).
  induction l as [|s l IH]; cbn; [done|]. by rewrite Hm, IH.
Qed.

Lemma LookupMetaKey_in k s : LookupMetaKey k = Some s → s ∈ metaKeyRegistry.
Proof. intros [? _]%find_some. by apply list_elem_of_In. Qed.

#[local] Opaque LookupMetaKey.

Lemma canonical_inj s s' :
  s ∈ metaKeyRegistry → s' ∈ metaKeyRegistry → ToLower (Canonical s) = ToLower (Canonical s') → s = s'.
Proof. intros (H1 & _)%registry_fact (H2 & _)%registry_fact E. rewrite (LookupMetaKey_fold _ _ E) in H1. congruence. Qed.

Lemma compact_inj s s' :
  s ∈ metaKeyRegistry → s' ∈ metaKeyRegistry → Compact s ≠ "" → Compact s' ≠ "" →
  ToLower (Compact s) = ToLower (Compact s') → s = s'.
Proof. intros (_ & H1 & _)%registry_fact (_ & H2 & _)%registry_fact N1 N2 E. specialize (H1 N1). specialize (H2 N2). rewrite (LookupMetaKey_fold _ _ E) in H1. congruence. Qed.

Lemma canonical_not_compact s s' :
  s ∈ metaKeyRegistry → s' ∈ metaKeyRegistry → Compact s' ≠ "" → ToLower (Canonical s) ≠ ToLower (Compact s').
Proof.
  intros (H1 & _ & Hn)%registry_fact (_ & H2 & _)%registry_fact N E. specialize (H2 N).
  rewrite (LookupMetaKey_fold _ _ E) in H1. assert (s = s') as -> by congruence. done.
Qed.

#[local] Transparent metaKeyRegistry.
Lemma encryptedSpec_in : encryptedSpec ∈ metaKeyRegistry.
Proof. left. Qed.
#[local] Opaque metaKeyRegistry.

Lemma IsEncryptionMetadata_fold k k' : ToLower k = ToLower k' → IsEncryptionMetadata k = IsEncryptionMetadata k'.
Proof. intros E. unfold IsEncryptionMetadata, EqualFold. rewrite E, (LookupMetaKey_fold _ _ E). done. Qed.

Lemma kept_fold k k' : ToLower k = ToLower k' → keptByCompaction k = keptByCompaction k'.
Proof. intros E. unfold keptByCompaction. by rewrite (LookupMetaKey_fold _ _ E), (IsEncryptionMetadata_fold _ _ E). Qed.

Lemma kept_no_alias k s : keptByCompaction k = true → LookupMetaKey k = Some s → Compact s = "".
Proof.
  unfold keptByCompaction. intros Hk Hl. rewrite Hl in Hk. destruct (decide (Compact s ≠ "")) as [|E]; [discriminate|].
  by apply dec_stable in E.
Qed.

Lemma isCompactedKey_spec p k :
  is_base64url p = true → isCompactedKey p k = true ↔ ∃ s, s ∈ metaKeyRegistry ∧ Compact s ≠ "" ∧ ToLower k = ToLower (Compact s).
Proof.
  intros Hp. unfold isCompactedKey. rewrite Hp. cbn [andb]. rewrite existsb_exists. split.
  - intros (s & Hs%list_elem_of_In & [Hc Hf]%andb_true_iff). exists s. apply negb_true_iff, bool_decide_eq_false in Hc.
    apply EqualFold_spec in Hf. done.
  - intros (s & Hs & Hc & Hf). exists s. split; [by apply list_elem_of_In|]. apply andb_true_iff.
    split; [by apply negb_true_iff, bool_decide_eq_false|by apply EqualFold_spec].
Qed.

(** ** Compaction and expansion *)

Lemma foldl_pointwise {A B} (f g : A → B → A) l a : (∀ a x, f a x = g a x) → foldl f a l = foldl g a l.
Proof. intros E. revert a. induction l as [|x l IH]; intros a; cbn; [done|]. by rewrite E, IH. Qed.

Definition nonempty (o : option string) : option string :=
  match o with Some v => if decide (v ≠ "") then Some v else None | None => None end.

Lemma nonempty_idemp o : nonempty (nonempty o) = nonempty o.
Proof. destruct o as [v|]; [|done]. cbn. destruct (decide (v ≠ "")) eqn:E; cbn; [by rewrite E|done]. Qed.

Section compaction.
Context (p : ProviderProfile) (Hp : CompactionStrategy p = "base64url").

Definition aliased (s : MetaKeySpec) : Prop := s ∈ metaKeyRegistry ∧ Compact s ≠ "".

Definition compactValue (m : gomap) (s : MetaKeySpec) : option string :=
  if decide (Compact s = "" ∨ Canonical s = MetaEncrypted) then None else nonempty (storedValue m s).
Definition expandValue (c : gomap) (s : MetaKeySpec) : option string :=
  if decide (Compact s = "") then None
  else match metadataValue c (Canonical s) with Some _ => None | None => nonempty (metadataValue c (Compact s)) end.

Lemma is_base64url_p : is_base64url p = true.
Proof using Hp. unfold is_base64url. by rewrite bool_decide_eq_true. Qed.

Lemma compactEncryptionMetadata_assign m :
  compactEncryptionMetadata p m = assign Compact (compactValue m) metaKeyRegistry.
Proof using Hp.
  unfold compactEncryptionMetadata, assign. rewrite is_base64url_p. apply foldl_pointwise.
  intros out s. unfold compactValue, nonempty. by repeat case_match.
Qed.

Lemma expandEncryptionMetadata_assign c :
  expandEncryptionMetadata p c = assign Canonical (expandValue c) metaKeyRegistry.
Proof using Hp.
  unfold expandEncryptionMetadata, assign. rewrite is_base64url_p. apply foldl_pointwise.
  intros out s. unfold expandValue, nonempty. by repeat case_match.
Qed.

Lemma compactValue_aliased m s : compactValue m s ≠ None → Compact s ≠ "" ∧ Canonical s ≠ MetaEncrypted.
Proof using. unfold compactValue. destruct (decide _) as [|Hn]; [done|]. intros _. split; intros E; apply Hn; auto. Qed.

Lemma expandValue_aliased c s : expandValue c s ≠ None → Compact s ≠ "" ∧ metadataValue c (Canonical s) = None.
Proof using. unfold expandValue. destruct (decide _); [done|]. by destruct (metadataValue c (Canonical s)). Qed.

Lemma compact_assign_spec m :
  let enc := assign Compact (compactValue m) metaKeyRegistry in
  fold_distinct enc ∧ (∀ k, k ∈ enc.*1 → ∃ s, aliased s ∧ k = Compact s ∧ compactValue m s ≠ None) ∧
  (∀ s, s ∈ metaKeyRegistry → compactValue m s ≠ None → metadataValue enc (Compact s) = compactValue m s).
Proof using.
  destruct (assign_spec Compact (compactValue m) metaKeyRegistry) as (H1 & H2 & H3).
  - intros s s' Hs Hs' [? _]%compactValue_aliased [? _]%compactValue_aliased. by apply compact_inj.
  - split_and!; [exact H1| |exact H3]. intros k (s & Hs & -> & Hv)%H2.
    destruct (compactValue_aliased _ _ Hv) as [? _]. by exists s.
Qed.

Lemma not_kept_encrypted k : ToLower k = ToLower MetaEncrypted → keptByCompaction k = false.
Proof using.
  intros E. rewrite (kept_fold _ _ E). destruct (keptByCompaction MetaEncrypted) eqn:Hk; [|done].
  destruct (registry_fact encryptedSpec encryptedSpec_in) as [Hl _]. by apply (kept_no_alias _ _ Hk) in Hl.
Qed.

Lemma not_kept_aliased k s : aliased s → ToLower k = ToLower (Canonical s) ∨ ToLower k = ToLower (Compact s) → keptByCompaction k = false.
Proof using.
  intros [Hs Hc] E. destruct (registry_fact s Hs) as (H1 & H2 & _). specialize (H2 Hc).
  assert (Hl : LookupMetaKey k = Some s) by (destruct E as [E|E]; rewrite (LookupMetaKey_fold _ _ E); assumption).
  destruct (keptByCompaction k) eqn:Hk; [|done]. by destruct (Hc (kept_no_alias _ _ Hk Hl)).
Qed.

(** What a compacted map holds. *)
Lemma CompactMetadata_spec m :
  fold_distinct m →
  let c := CompactMetadata p m in let enc := compactEncryptionMetadata p m in
  fold_distinct c ∧ (∀ k, k ∈ c.*1 → ToLower k = ToLower MetaEncrypted → k = MetaEncrypted) ∧
  ∀ n, metadataValue c n =
    match metadataValue enc n with
    | Some v => Some v
    | None => if decide (ToLower MetaEncrypted = ToLower n) then storedValue m encryptedSpec
              else if keptByCompaction n then metadataValue m n else None
    end.
Proof using Hp.
  intros Hd c enc. unfold enc. rewrite compactEncryptionMetadata_assign. destruct (compact_assign_spec m) as (Hd3 & Hk3 & _). fold enc.
  set (enc' := assign Compact (compactValue m) metaKeyRegistry) in *. set (base := filter (λ kv, keptByCompaction kv.1) m).
  set (base' := match storedValue m encryptedSpec with Some marker => map_set base MetaEncrypted marker | None => base end).
  assert (Hc : c = map_merge base' enc').
  { unfold c, CompactMetadata, ShouldCompact. rewrite bool_decide_eq_false_2 by (rewrite Hp; done). cbn [negb].
    by rewrite compactEncryptionMetadata_assign. }
  assert (Hkb : ∀ k, k ∈ base.*1 → keptByCompaction k = true).
  { intros k ([k' v] & -> & [Hk _]%list_elem_of_filter)%list_elem_of_fmap. cbn in *. by destruct (keptByCompaction k'). }
  assert (Hbv : ∀ n, metadataValue base n = if keptByCompaction n then metadataValue m n else None)
    by (intros n; apply metadataValue_filter; intros; by apply kept_fold).
  assert (Hdb : fold_distinct base) by (by apply fold_distinct_filter).
  assert (Hnv : no_variant base MetaEncrypted) by (intros k Hk E; specialize (Hkb k Hk); by rewrite not_kept_encrypted in Hkb).
  assert (Hb' : fold_distinct base' ∧ (∀ k, k ∈ base'.*1 → k = MetaEncrypted ∨ keptByCompaction k = true) ∧
    ∀ n, metadataValue base' n = if decide (ToLower MetaEncrypted = ToLower n) then storedValue m encryptedSpec
              else if keptByCompaction n then metadataValue m n else None).
  { unfold base'. destruct (storedValue m encryptedSpec) as [marker|].
    - split_and!; [by apply fold_distinct_set|intros k [->|?%Hkb]%map_set_keys; auto|].
      intros n. by rewrite metadataValue_set, Hbv.
    - split_and!; [done|auto|]. intros n. rewrite Hbv. case_decide as E; [|done]. by rewrite not_kept_encrypted. }
  destruct Hb' as (Hd' & Hk' & Hv').
  destruct (merge_spec base' enc' Hd' Hd3) as (Hdc & Hkc & Hvc).
  { intros k (s & Hs & -> & Hne)%Hk3 k' Hin E. destruct (Hk' k' Hin) as [->|Hkept].
    - destruct (canonical_not_compact encryptedSpec s encryptedSpec_in (proj1 Hs) (proj2 Hs) E).
    - rewrite (not_kept_aliased k' s Hs) in Hkept by auto. done. }
  rewrite Hc. split_and!; [done| |].
  - intros k [Hin|Hin]%Hkc E.
    + destruct (Hk' k Hin) as [->|Hkept]; [done|]. by rewrite not_kept_encrypted in Hkept.
    + destruct (Hk3 k Hin) as (s & Hs & -> & _). destruct (canonical_not_compact encryptedSpec s encryptedSpec_in (proj1 Hs) (proj2 Hs)). done.
  - intros n. by rewrite Hvc, Hv'.
Qed.

Lemma compacted_value m s :
  aliased s → Canonical s ≠ MetaEncrypted → metadataValue (compactEncryptionMetadata p m) (Compact s) = nonempty (storedValue m s).
Proof using Hp.
  intros [Hs Hc] Hne. rewrite compactEncryptionMetadata_assign. destruct (compact_assign_spec m) as (_ & Hk & Hv).
  assert (Hcv : compactValue m s = nonempty (storedValue m s)) by (unfold compactValue; by rewrite decide_False by tauto).
  destruct (compactValue m s) as [v|] eqn:E; [rewrite Hv; congruence|]. rewrite <-Hcv. apply metadataValue_None.
  intros k (s' & [Hs' Hc'] & -> & Hv')%Hk Ef. assert (s' = s) as -> by (by apply compact_inj). by rewrite E in Hv'.
Qed.

(** What expanding a compacted map gives, whatever order the map is read in. *)
Lemma ExpandMetadata_full c :
  fold_distinct c → (∀ k, k ∈ c.*1 → ToLower k = ToLower MetaEncrypted → k = MetaEncrypted) →
  fold_distinct (ExpandMetadata p c) ∧
  (∀ k, k ∈ (ExpandMetadata p c).*1 →
     k ∈ c.*1 ∧ isCompactedKey p k = false ∨ k = MetaEncrypted ∨ ∃ s, s ∈ metaKeyRegistry ∧ k = Canonical s) ∧
  ∀ n, metadataValue (ExpandMetadata p c) n =
    match metadataValue (expandEncryptionMetadata p c) n with
    | Some v => Some v
    | None => if decide (ToLower MetaEncrypted = ToLower n) then metadataValue c MetaEncrypted
              else if isCompactedKey p n then None else metadataValue c n
    end.
Proof using Hp.
  intros Hd Hme. unfold ExpandMetadata. rewrite expandEncryptionMetadata_assign.
  set (base := filter (λ kv, negb (isCompactedKey p kv.1)) c).
  set (base' := match metadataValue c MetaEncrypted with Some marker => map_set base MetaEncrypted marker | None => base end).
  assert (Hkb' : ∀ k, k ∈ base.*1 → k ∈ c.*1 ∧ isCompactedKey p k = false).
  { intros k ([k' v] & -> & [Hc Hk]%list_elem_of_filter)%list_elem_of_fmap. apply (list_elem_of_fmap_2 fst) in Hk.
    cbn in *. by destruct (isCompactedKey p k'). }
  assert (Hkb : ∀ k, k ∈ base.*1 → k ∈ c.*1) by (intros k Hk; by apply Hkb').
  assert (Hcf : ∀ k k', ToLower k = ToLower k' → isCompactedKey p k = isCompactedKey p k')
    by (intros k k' E; unfold isCompactedKey, EqualFold; by rewrite E).
  assert (Hbv : ∀ n, metadataValue base n = if negb (isCompactedKey p n) then metadataValue c n else None)
    by (intros n'; apply (metadataValue_filter (λ k, negb (isCompactedKey p k))); intros k E; by rewrite (Hcf _ _ E)).
  assert (Hdb : fold_distinct base) by (by apply fold_distinct_filter).
  assert (Hnv : no_variant base MetaEncrypted) by (intros k Hk E; by apply Hme; [apply Hkb|]).
  assert (Hb' : fold_distinct base' ∧ (∀ k, k ∈ base'.*1 → k ∈ c.*1 ∧ isCompactedKey p k = false ∨ k = MetaEncrypted ∧ metadataValue c MetaEncrypted ≠ None) ∧
    ∀ n, metadataValue base' n = if decide (ToLower MetaEncrypted = ToLower n) then metadataValue c MetaEncrypted
              else if isCompactedKey p n then None else metadataValue c n).
  { unfold base'. destruct (metadataValue c MetaEncrypted) as [marker|] eqn:Em.
    - split_and!; [by apply fold_distinct_set|intros k [->|?%Hkb']%map_set_keys; auto|].
      intros n'. rewrite metadataValue_set, Hbv by done. case_decide; [done|]. by destruct (isCompactedKey p n').
    - split_and!; [done|auto|]. intros n'. rewrite Hbv. case_decide as E; [|by destruct (isCompactedKey p n')].
      rewrite <-(metadataValue_fold c _ _ E), Em. by destruct (negb _). }
  destruct Hb' as (Hd' & Hk' & Hv').
  destruct (assign_spec Canonical (expandValue c) metaKeyRegistry) as (Hde & Hke & _).
  { intros s s' Hs Hs' _ _. by apply canonical_inj. }
  destruct (merge_spec base' (assign Canonical (expandValue c) metaKeyRegistry) Hd' Hde) as (Hdm & Hkm & Hv).
  { intros k (s & Hs & -> & [_ Hn]%expandValue_aliased)%Hke k' Hin E. rewrite metadataValue_None in Hn.
    destruct (Hk' k' Hin) as [[Hc' _]|[-> Hm]]; [by destruct (Hn k' Hc')|]. destruct Hm. apply metadataValue_None.
    intros k2 Hk2. rewrite E. by apply Hn. }
  split_and!; [done| |intros n; by rewrite Hv, Hv'].
  intros k [[?|[-> _]]%Hk'|(s & Hs & -> & _)%Hke]%Hkm; eauto.
Qed.

Lemma ExpandMetadata_spec c :
  fold_distinct c → (∀ k, k ∈ c.*1 → ToLower k = ToLower MetaEncrypted → k = MetaEncrypted) →
  ∀ n, metadataValue (ExpandMetadata p c) n =
    match metadataValue (expandEncryptionMetadata p c) n with
    | Some v => Some v
    | None => if decide (ToLower MetaEncrypted = ToLower n) then metadataValue c MetaEncrypted
              else if isCompactedKey p n then None else metadataValue c n
    end.
Proof using Hp. intros Hd Hme. apply (ExpandMetadata_full c Hd Hme). Qed.

Lemma expanded_value c s :
  s ∈ metaKeyRegistry → metadataValue (expandEncryptionMetadata p c) (Canonical s) = expandValue c s.
Proof using Hp.
  intros Hs. rewrite expandEncryptionMetadata_assign.
  destruct (assign_spec Canonical (expandValue c) metaKeyRegistry) as (_ & Hk & Hv); [intros x y Hx Hy _ _; by apply canonical_inj|].
  destruct (expandValue c s) as [v|] eqn:E; [rewrite Hv; congruence|]. apply metadataValue_None.
  intros k (s' & Hs' & -> & Hv')%Hk Ef. assert (s' = s) as -> by (by apply canonical_inj). by rewrite E in Hv'.
Qed.

Lemma expanded_other c n :
  (∀ s, aliased s → ToLower n ≠ ToLower (Canonical s)) → metadataValue (expandEncryptionMetadata p c) n = None.
Proof using Hp.
  intros Hn. rewrite expandEncryptionMetadata_assign. apply metadataValue_None.
  destruct (assign_spec Canonical (expandValue c) metaKeyRegistry) as (_ & Hk & _); [intros x y Hx Hy _ _; by apply canonical_inj|].
  intros k (s' & Hs' & -> & [Hc' _]%expandValue_aliased)%Hk Ef. by apply (Hn s').
Qed.
End compaction.

Lemma encrypted_aliased : aliased encryptedSpec.
Proof. split; [apply encryptedSpec_in|done]. Qed.

(** *** The round trip *)

Section roundtrip.
Context (p : ProviderProfile) (Hp : CompactionStrategy p = "base64url") (m c : gomap).
Context (Hd : fold_distinct m) (Hperm : CompactMetadata p m ≡ₚ c).

Definition no_alias (n : string) : Prop := ∀ s, aliased s → ToLower n ≠ ToLower (Compact s).

Lemma canonical_no_alias s : s ∈ metaKeyRegistry → no_alias (Canonical s).
Proof using. intros Hs s' [Hs' Hc']. by apply canonical_not_compact. Qed.

Lemma kept_no_name k s : keptByCompaction k = true → aliased s → ToLower k ≠ ToLower (Canonical s) ∧ ToLower k ≠ ToLower (Compact s).
Proof using. intros Hk Hs. split; intros E; rewrite (not_kept_aliased k s Hs) in Hk; auto; done. Qed.

Lemma other_canonical s : s ∈ metaKeyRegistry → Canonical s ≠ MetaEncrypted → ToLower MetaEncrypted ≠ ToLower (Canonical s).
Proof using. intros Hs Hne E. destruct Hne. by rewrite <-(canonical_inj encryptedSpec s encryptedSpec_in Hs E). Qed.

Lemma not_compacted n : no_alias n → isCompactedKey p n = false.
Proof using Hp.
  intros Hn. destruct (isCompactedKey p n) eqn:E; [|done].
  apply isCompactedKey_spec in E as (s & Hs & Hc & Ef); [by destruct (Hn s (conj Hs Hc))|by apply is_base64url_p].
Qed.

(** The values of the compacted map, read in any order. *)
Lemma rt_compacted n :
  metadataValue c n =
    match metadataValue (compactEncryptionMetadata p m) n with
    | Some v => Some v
    | None => if decide (ToLower MetaEncrypted = ToLower n) then storedValue m encryptedSpec
              else if keptByCompaction n then metadataValue m n else None
    end.
Proof using Hp Hd Hperm.
  destruct (CompactMetadata_spec p Hp m Hd) as (Hdc & _ & Hvc). rewrite <-Hvc. symmetry. by apply metadataValue_perm.
Qed.

Lemma rt_no_alias n :
  no_alias n →
  metadataValue c n = if decide (ToLower MetaEncrypted = ToLower n) then storedValue m encryptedSpec
                      else if keptByCompaction n then metadataValue m n else None.
Proof using Hp Hd Hperm.
  intros Hn. rewrite rt_compacted, (compactEncryptionMetadata_assign p Hp). rewrite (proj2 (metadataValue_None _ n)); [done|].
  destruct (compact_assign_spec m) as (_ & Hk & _). intros k (s & Hs & -> & _)%Hk E. by apply (Hn s).
Qed.

Lemma rt_expanded n :
  metadataValue (ExpandMetadata p c) n =
    match metadataValue (expandEncryptionMetadata p c) n with
    | Some v => Some v
    | None => if decide (ToLower MetaEncrypted = ToLower n) then metadataValue c MetaEncrypted
              else if isCompactedKey p n then None else metadataValue c n
    end.
Proof using Hp Hd Hperm.
  destruct (CompactMetadata_spec p Hp m Hd) as (Hdc & Hme & _). apply (ExpandMetadata_spec p Hp).
  - unfold fold_distinct in *. by rewrite <-Hperm.
  - intros k. rewrite <-Hperm. apply Hme.
Qed.

Lemma rt_aliased s :
  aliased s → Canonical s ≠ MetaEncrypted → metadataValue (ExpandMetadata p c) (Canonical s) = nonempty (storedValue m s).
Proof using Hp Hd Hperm.
  intros Ha Hne. pose proof Ha as [Hs Hc]. rewrite rt_expanded, (expanded_value p Hp) by done.
  unfold expandValue. rewrite !decide_False by (done || by apply other_canonical).
  rewrite not_compacted, rt_no_alias by (by apply canonical_no_alias).
  rewrite decide_False by (by apply other_canonical). rewrite (not_kept_aliased (Canonical s) s) by (done || by left).
  rewrite rt_compacted, (compacted_value p Hp m s) by done.
  destruct (nonempty (storedValue m s)) as [v|] eqn:E; [rewrite <-E, nonempty_idemp, E; done|].
  rewrite decide_False by (apply (canonical_no_alias encryptedSpec encryptedSpec_in s Ha)).
  by rewrite (not_kept_aliased (Compact s) s) by (done || by right).
Qed.

Lemma rt_marker : metadataValue (ExpandMetadata p c) MetaEncrypted = storedValue m encryptedSpec.
Proof using Hp Hd Hperm.
  rewrite rt_expanded. pose proof (expanded_value p Hp c encryptedSpec encryptedSpec_in) as Hx.
  change (Canonical encryptedSpec) with MetaEncrypted in Hx. rewrite Hx, decide_True by done. clear Hx.
  unfold expandValue. change (Canonical encryptedSpec) with MetaEncrypted. rewrite decide_False by done.
  rewrite rt_no_alias, decide_True by (done || apply (canonical_no_alias encryptedSpec encryptedSpec_in)).
  destruct (storedValue m encryptedSpec) as [v|] eqn:Es; [done|].
  rewrite rt_compacted, (compactEncryptionMetadata_assign p Hp). destruct (compact_assign_spec m) as (_ & Hk & _).
  rewrite (proj2 (metadataValue_None _ (Compact encryptedSpec))).
  - rewrite decide_False by done. by rewrite (not_kept_aliased _ _ encrypted_aliased) by auto.
  - intros k (s & [Hs Hc] & -> & Hv)%Hk E. destruct (compactValue_aliased _ _ Hv) as [_ Hne]. destruct Hne.
    by rewrite (compact_inj s encryptedSpec Hs encryptedSpec_in Hc ltac:(done) E).
Qed.

Lemma rt_kept k : keptByCompaction k = true → metadataValue (ExpandMetadata p c) k = metadataValue m k.
Proof using Hp Hd Hperm.
  intros Hk. assert (Hn : no_alias k) by (intros s Hs; by apply kept_no_name).
  assert (ToLower MetaEncrypted ≠ ToLower k) by (intros E; by rewrite not_kept_encrypted in Hk).
  rewrite rt_expanded, (expanded_other p Hp), not_compacted by (done || intros s Hs; by apply kept_no_name).
  rewrite decide_False, rt_no_alias, decide_False by done. by rewrite Hk.
Qed.

Lemma rt_lost s :
  s ∈ metaKeyRegistry → Compact s = "" → LegacyEncryptionPredicate s = true → metadataValue (ExpandMetadata p c) (Canonical s) = None.
Proof using Hp Hd Hperm.
  intros Hs Hc Hl. assert (Hne : Canonical s ≠ MetaEncrypted).
  { intros E. assert (encryptedSpec = s) as <- by (apply canonical_inj; [apply encryptedSpec_in|done|by rewrite E]). done. }
  rewrite rt_expanded, (expanded_value p Hp) by done. unfold expandValue. rewrite decide_True by done.
  rewrite decide_False by (by apply other_canonical). rewrite not_compacted, rt_no_alias by (by apply canonical_no_alias).
  rewrite decide_False by (by apply other_canonical).
  destruct (keptByCompaction (Canonical s)) eqn:Ek; [|done].
  unfold keptByCompaction, IsEncryptionMetadata in Ek. destruct (registry_fact s Hs) as [Hlk _]. rewrite Hlk in Ek.
  rewrite decide_False in Ek by (intros E; by apply E). destruct (EqualFold _ originalContentLength); [done|].
  rewrite Hl in Ek. destruct (EqualFold (Canonical s) MetaEncrypted) eqn:Ef; [|done].
  apply EqualFold_spec in Ef. symmetry in Ef. by destruct (other_canonical s Hs Hne).
Qed.
End roundtrip.


(** ** The theorem at a concrete input *)

Module MetadataWitness.
Definition stored : gomap :=
  [(MetaEncrypted, "true"); (MetaIV, "AAAA"); ("x-amz-meta-owner", "alice"); (MetaIVDerivation, "hkdf-sha256")].
End MetadataWitness.

Section witness.
Import MetadataWitness.

End witness.
