(* ===== verification/ObjectFormat.v ===== *)
(** * Stored objects: classification, client view, fallback metadata

    [ClassifyObject] ([object_format.go]), the client-facing projection of an
    object's metadata ([metadata_view.go]), the merging of the unauthenticated
    metadata prefix of fallback objects ([fallback_prefix.go]), the marker test
    of engine.go and the engine of buckets without encryption
    ([passthrough.go]). *)
From S2P Require Import Prelude GoStd GoIO ObjectAAD ChunkLayout Metadata.
Local Open Scope Z_scope.
Local Open Scope go_scope.
#[local] Arguments ToLower : simpl never.
#[local] Arguments EqualFold : simpl never.

(** ** Classification *)

Inductive ObjectFormat :=
| FormatPlaintext | FormatBufferedLegacy | FormatBufferedV2 | FormatBufferedFallback
| FormatChunkedV1 | FormatChunkedV2 | FormatMPUV1 | FormatMPUV2.
#[export] Instance ObjectFormat_eq_dec : EqDecision ObjectFormat.
Proof. solve_decision. Defined.

Record ObjectClass := mkClass {
  oc_Format : ObjectFormat; oc_Encrypted : bool; oc_ChunkSize : Z; oc_BindingID : list byte; oc_ManifestKey : string }.

Definition MPUManifestSuffix : string := ".mpu-manifest".
Definition ErrUnsupportedObjectFormat : error := Sentinel "crypto: unsupported object format marker".
Definition zeroBinding : list byte := replicate 16 x00.

Section classify.
Context `{ManifestJSON}.

Definition ClassifyObject (parentKey : string) (expanded : gomap) : result ObjectClass :=
  let manifest := parentKey +:+ MPUManifestSuffix in
  let pointer := mget expanded MetaFallbackPointer in
  let marker := mget expanded MetaMPUEncrypted in
  if decide (marker ≠ "") then
    if decide (marker = "true" ∨ marker = "v2") then
      if decide (pointer ≠ "" ∧ pointer ≠ manifest) then
        Err (Wrapf "%w: manifest pointer mismatch" ErrUnsupportedObjectFormat)
      else if decide (marker = "v2") then
        match parseObjectBindingID (mget expanded MetaObjectBindingID) with
        | Err _ => Err (Wrapf "%w: binding: %v" ErrUnsupportedObjectFormat)
        | Ok b => Ok (mkClass FormatMPUV2 true 0 b manifest)
        end
      else Ok (mkClass FormatMPUV1 true 0 zeroBinding manifest)
    else Err (Wrapf "%w: mpu marker %q" ErrUnsupportedObjectFormat)
  else if decide (pointer ≠ "") then
    if decide (pointer ≠ manifest) then Err (Wrapf "%w: manifest pointer mismatch" ErrUnsupportedObjectFormat)
    else Ok (mkClass FormatMPUV1 true 0 zeroBinding manifest)
  else if decide (mget expanded MetaFallbackMode ≠ "") then
    if decide (mget expanded MetaFallbackMode ∈ ["true"; "v1"; "v2"; "v3"])
    then Ok (mkClass FormatBufferedFallback true 0 zeroBinding "")
    else Err (Wrapf "%w: fallback marker %q" ErrUnsupportedObjectFormat)
  else if decide (mget expanded MetaChunkedFormat ≠ "") then
    let declared := parseChunkSize expanded in
    if (declared <=? 0) || (MaxChunkSize <? declared) then Err (Wrapf "%w: invalid chunk size" ErrChunkedObjectIncomplete)
    else match chunkedVersionForMetadata expanded with
         | Err _ => Err (Wrapf "%w: %v" ErrUnsupportedObjectFormat)
         | Ok v => Ok (mkClass (if v =? ChunkedFormatV2 then FormatChunkedV2 else FormatChunkedV1) true declared zeroBinding "")
         end
  else if decide (mget expanded MetaEncrypted ≠ "") then
    let v := mget expanded MetaObjectFormatVersion in
    if decide (v ≠ "") then
      if decide (v ≠ "buffered-v2") then Err (Wrapf "%w: format marker %q" ErrUnsupportedObjectFormat)
      else Ok (mkClass FormatBufferedV2 true 0 zeroBinding "")
    else Ok (mkClass FormatBufferedLegacy true 0 zeroBinding "")
  else Ok (mkClass FormatPlaintext false 0 zeroBinding "").
End classify.

(** The markers any of which makes an object an encrypted one. *)
Definition markers : list string := [MetaMPUEncrypted; MetaFallbackPointer; MetaFallbackMode; MetaChunkedFormat; MetaEncrypted].

(** [IsEncryptedMetadata]: some key names the marker and has the value [true]. *)
Definition IsEncryptedMetadata (meta : gomap) : bool :=
  existsb (λ kv, bool_decide (kv.2 = "true") &&
    match LookupMetaKey kv.1 with Some spec => EqualFold (Canonical spec) MetaEncrypted | None => false end) meta.

(** ** The pass-through engine *)

Definition ErrEncryptedObjectInBypassBucket : error :=
  Sentinel "object was stored encrypted; bucket now has disable_encryption — use the migration tool to re-store as plaintext".
Definition passthrough_Encrypt (r : Source) (meta : gomap) : result (Source * gomap) := Ok (r, meta).
Definition passthrough_Decrypt (r : Source) (meta : gomap) : result (Source * gomap) :=
  if IsEncryptedMetadata meta then Err ErrEncryptedObjectInBypassBucket else Ok (r, meta).
Definition passthrough_DecryptRange (r : Source) (meta : gomap) (plaintextStart plaintextEnd : Z) : result (Source * gomap) :=
  if IsEncryptedMetadata meta then Err ErrEncryptedObjectInBypassBucket else Ok (r, meta).
Definition passthrough_IsEncrypted (meta : gomap) : bool := false.
Definition passthrough_PreferredAlgorithm : string := "none".

(** ** The client's view *)

(** [http.CanonicalHeaderKey] of a name made of token characters; other names
    are returned as they are. *)
Definition is_lower (b : byte) : bool := (97 <=? byte_val b) && (byte_val b <=? 122).
Definition raise (b : byte) : byte := if is_lower b then byte_of (byte_val b - 32) else b.
Definition name_byte (b : byte) : bool := is_lower b || is_upper b || is_digit b || bool_decide (b ∈ bytes_of_string "!#$%&'*+-.^_`|~").
Fixpoint canonical_bytes (up : bool) (l : list byte) : list byte :=
  match l with
  | [] => []
  | b :: l => (if up then raise b else lower b) :: canonical_bytes (byte_val b =? 45) l
  end.
Definition CanonicalHeaderKey (key : string) : string :=
  if forallb name_byte (bytes_of_string key) then string_of_bytes (canonical_bytes true (bytes_of_string key)) else key.

Definition firstLegacy (expanded : gomap) (legacy : list string) : string :=
  default "" (head (filter (λ v, v ≠ "") (metadataValueFold expanded <$> legacy))).

(** The value of a protected header: canonical, compact, legacy, then native. *)
Definition protectedValue (expanded : gomap) (spec : MetaKeySpec) : string :=
  let value := metadataValueFold expanded (Canonical spec) in
  let value := if decide (value = "" ∧ Compact spec ≠ "") then metadataValueFold expanded (Compact spec) else value in
  let value := if decide (value = "") then firstLegacy expanded (Legacy spec) else value in
  if decide (value = "") then metadataValueFold expanded (Header spec) else value.

Definition hiddenFromClient (key : string) : bool :=
  IsGatewayReservedKey key || EqualFold key "Content-Length" || EqualFold key "ETag".

Definition plaintextMetadataView (expanded : gomap) (plainLen : Z) (originalETag : string) : gomap :=
  let out := foldl (λ out kv,
    if hiddenFromClient kv.1 then out
    else map_set out (if IsStandard kv.1 then CanonicalHeaderKey kv.1 else kv.1) kv.2) [] expanded in
  let out := foldl (λ out spec,
    let value := protectedValue expanded spec in
    if decide (value ≠ "") then map_set out (Header spec) value else out) out ProtectedStandardKeys in
  let out := if 0 <=? plainLen then map_set out "Content-Length" (FormatInt plainLen) else out in
  if decide (originalETag ≠ "") then map_set out "ETag" originalETag else out.

Definition dropGatewayReserved (meta : gomap) : gomap := filter (λ kv, negb (IsGatewayReservedKey kv.1)) meta.

(** ** Fallback metadata *)

Definition MergeFallbackV2Metadata (header prefix : gomap) : gomap :=
  (foldl (λ st kv,
     let '(out, seen) := st in
     let lower := ToLower kv.1 in
     if negb (HasPrefix lower "x-amz-meta-") || IsGatewayReservedKey kv.1 || bool_decide (lower ∈ seen) then st
     else (map_set out kv.1 kv.2, lower :: seen))
   (header, ToLower <$> header.*1) prefix).1.

Definition legacyControls : list string :=
  [MetaKDFParams; MetaChunkedFormat; MetaChunkSize; MetaChunkCount; MetaManifest; MetaIVDerivation; MetaKeyVersion;
   MetaWrappedKeyCiphertext; MetaKMSKeyID; MetaKMSProvider].

(** Is the field of this name in the map, under any of its names? *)
Definition hasField (m : gomap) (name : string) : bool :=
  existsb (λ kv, match LookupMetaKey kv.1, LookupMetaKey name with
                 | Some s, Some spec => bool_decide (Canonical s = Canonical spec)
                 | _, _ => false
                 end) m.

Definition mergeLegacyFallbackControls (header prefix : gomap) : gomap :=
  foldl (λ out name,
    match LookupMetaKey name with
    | None => out
    | Some spec =>
        if hasField header name then out else
        match metadataValue prefix (Canonical spec) with
        | Some v => map_set out name v
        | None => if decide (Compact spec ≠ "") then
                    match metadataValue prefix (Compact spec) with Some v => map_set out name v | None => out end
                  else out
        end
    end) (MergeFallbackV2Metadata header prefix) legacyControls.

(** ** Lemmas *)

Lemma HasPrefix_user_not k : HasPrefix (ToLower k) "x-amz-meta-" = true → ToLower k ≠ "".
Proof. intros Hp E. rewrite E in Hp. vm_compute in Hp. done. Qed.

Lemma IsGatewayReservedKey_fold k k' : ToLower k = ToLower k' → IsGatewayReservedKey k = IsGatewayReservedKey k'.
Proof. intros E. unfold IsGatewayReservedKey, EqualFold. by rewrite E, (LookupMetaKey_fold _ _ E). Qed.

(** Canonical header names depend on a name up to case. *)
Lemma header_byte b :
  raise (lower b) = raise b ∧ lower (lower b) = lower b ∧ name_byte (lower b) = name_byte b ∧
  (byte_val (lower b) =? 45) = (byte_val b =? 45).
Proof. destruct b; vm_compute; done. Qed.

Lemma canonical_bytes_lower up l : canonical_bytes up (lower <$> l) = canonical_bytes up l.
Proof.
  revert up. induction l as [|b l IH]; intros up; [done|]. cbn [fmap list_fmap canonical_bytes].
  destruct (header_byte b) as (-> & -> & _ & ->). by rewrite IH.
Qed.

Lemma forallb_name_lower l : forallb name_byte (lower <$> l) = forallb name_byte l.
Proof. induction l as [|b l IH]; [done|]. cbn. destruct (header_byte b) as (_ & _ & -> & _). by rewrite IH. Qed.

Lemma ToLower_bytes s : bytes_of_string (ToLower s) = lower <$> bytes_of_string s.
Proof. unfold ToLower, string_of_bytes, bytes_of_string. apply String.list_byte_of_string_of_list_byte. Qed.

Lemma CanonicalHeaderKey_fold k n :
  forallb name_byte (bytes_of_string n) = true → ToLower k = ToLower n → CanonicalHeaderKey k = CanonicalHeaderKey n.
Proof.
  intros Hn E%(f_equal bytes_of_string). rewrite !ToLower_bytes in E. unfold CanonicalHeaderKey.
  rewrite <-(forallb_name_lower (bytes_of_string k)), E, forallb_name_lower, Hn.
  by rewrite <-(canonical_bytes_lower true (bytes_of_string k)), E, canonical_bytes_lower.
Qed.

Lemma standard_name k : IsStandard k = true → CanonicalHeaderKey k ∈ Names.
Proof.
  unfold IsStandard. rewrite existsb_exists. intros (n & Hn%list_elem_of_In & E%EqualFold_spec).
  assert (Hchk : forallb (λ n, forallb name_byte (bytes_of_string n) && bool_decide (CanonicalHeaderKey n = n)) Names = true)
    by (vm_compute; done).
  rewrite forallb_forall in Hchk. specialize (Hchk n (proj1 (list_elem_of_In _ _) Hn)).
  apply andb_true_iff in Hchk as [H1 H2%bool_decide_eq_true]. by rewrite (CanonicalHeaderKey_fold k n H1 E), H2.
Qed.

(** No header name the view writes is a gateway key. *)
Lemma view_names_free n : n ∈ Names ++ (Header <$> ProtectedStandardKeys) ++ ["Content-Length"; "ETag"] → IsGatewayReservedKey n = false.
Proof.
  assert (Hchk : forallb (λ n, negb (IsGatewayReservedKey n)) (Names ++ (Header <$> ProtectedStandardKeys) ++ ["Content-Length"; "ETag"]) = true)
    by (vm_compute; done).
  rewrite forallb_forall in Hchk. intros Hn%list_elem_of_In. by apply Hchk, negb_true_iff in Hn.
Qed.

(** Building a map keeps a property of its keys. *)
Lemma foldl_keys {A} (Q : string → Prop) (f : gomap → A → gomap) l out :
  (∀ out x, x ∈ l → (∀ k, k ∈ out.*1 → Q k) → ∀ k, k ∈ (f out x).*1 → Q k) →
  (∀ k, k ∈ out.*1 → Q k) → ∀ k, k ∈ (foldl f out l).*1 → Q k.
Proof.
  revert out. induction l as [|x l IH]; intros out Hf Hout; [done|]. cbn. apply IH; [intros; eapply Hf; [by right|..]; done|].
  intros k. apply (Hf out x); [by left|done].
Qed.

Lemma map_set_keys_Q (Q : string → Prop) m k v : Q k → (∀ k, k ∈ m.*1 → Q k) → ∀ k', k' ∈ (map_set m k v).*1 → Q k'.
Proof. intros Hk Hm k' [->|?]%map_set_keys; auto. Qed.

Lemma map_lookup_set m k v k' : map_lookup (map_set m k v) k' = if decide (k = k') then Some v else map_lookup m k'.
Proof.
  induction m as [|[k1 v1] m IH]; cbn; [done|]. destruct (decide (k1 = k)) as [->|Hne]; cbn.
  - by destruct (decide (k = k')).
  - rewrite IH. destruct (decide (k1 = k')) as [->|]; [|done]. by rewrite decide_False.
Qed.

(** Setting the headers of entries with distinct header names. *)
Lemma lookup_headers (val : MetaKeySpec → string) specs out spec :
  NoDup (Header <$> specs) → spec ∈ specs → val spec ≠ "" →
  map_lookup (foldl (λ out s, let value := val s in if decide (value ≠ "") then map_set out (Header s) value else out) out specs)
    (Header spec) = Some (val spec).
Proof.
  intros Hnd Hin Hv. induction specs as [|s specs IH] using rev_ind; [set_solver|].
  rewrite fmap_app in Hnd. apply NoDup_app in Hnd as (Hnd & Hdis & _). rewrite foldl_app. cbn [foldl]. cbn zeta.
  apply elem_of_app in Hin as [Hin|<-%list_elem_of_singleton].
  - assert (Header s ≠ Header spec) by (intros E; apply (Hdis (Header spec)); [by apply list_elem_of_fmap_2|rewrite <-E; by left]).
    destruct (decide (val s ≠ "")); [rewrite map_lookup_set, decide_False by done|]; by apply IH.
  - rewrite decide_True by done. by rewrite map_lookup_set, decide_True.
Qed.

(** The state of the merging loop over a prefix of the unauthenticated map. *)
Lemma merge_loop header prefix :
  fold_distinct header →
  let st := foldl (λ st kv,
     let '(out, seen) := st in
     let lower := ToLower kv.1 in
     if negb (HasPrefix lower "x-amz-meta-") || IsGatewayReservedKey kv.1 || bool_decide (lower ∈ seen) then st
     else (map_set out kv.1 kv.2, lower :: seen)) (header, ToLower <$> header.*1) prefix in
  (∀ l, l ∈ st.2 ↔ l ∈ (ToLower <$> st.1.*1)) ∧ fold_distinct st.1 ∧
  (∀ k, k ∈ header.*1 ∨ IsGatewayReservedKey k = true → metadataValue st.1 k = metadataValue header k) ∧
  (∀ k v, metadataValue st.1 k = Some v → metadataValue header k = Some v ∨
     ∃ k', (k', v) ∈ prefix ∧ ToLower k' = ToLower k ∧ HasPrefix (ToLower k) "x-amz-meta-" = true ∧ IsGatewayReservedKey k = false) ∧
  (∀ k, k ∈ header.*1 → ToLower k ∈ st.2).
Proof.
  intros Hd. induction prefix as [|[k v] prefix IH] using rev_ind.
  { cbn. split_and!; [done|done|done|auto|intros; by apply list_elem_of_fmap_2]. }
  rewrite foldl_app. cbn [foldl]. destruct (foldl _ _ prefix) as [out seen]. cbn [fst snd] in *.
  destruct IH as (Hs & Hdo & Hkeep & Hsrc & Hsub).
  assert (Hweak : ∀ k0 v0, metadataValue out k0 = Some v0 → metadataValue header k0 = Some v0 ∨
     ∃ k', (k', v0) ∈ prefix ++ [(k, v)] ∧ ToLower k' = ToLower k0 ∧ HasPrefix (ToLower k0) "x-amz-meta-" = true ∧ IsGatewayReservedKey k0 = false).
  { intros k0 v0 Hv0. destruct (Hsrc k0 v0 Hv0) as [?|(k' & ? & ?)]; [by left|right]. exists k'. set_solver. }
  destruct (negb _ || _ || _) eqn:Ec; [done|].
  apply orb_false_elim in Ec as [[Hp%negb_false_iff Hr]%orb_false_elim Hn%bool_decide_eq_false]. cbn [fst snd].
  assert (Hnone : ∀ k', k' ∈ out.*1 → ToLower k' ≠ ToLower k).
  { intros k' Hk' E. apply Hn, Hs. rewrite <-E. by apply list_elem_of_fmap_2. }
  assert (Hnv : no_variant out k) by (intros k' Hk' E; by destruct (Hnone k' Hk')).
  split_and!.
  - intros l. rewrite elem_of_cons, Hs, !list_elem_of_fmap. setoid_rewrite map_set_keys. naive_solver.
  - by apply fold_distinct_set.
  - intros k0 Hk0. rewrite metadataValue_set by done. case_decide as E; [|by apply Hkeep]. exfalso. destruct Hk0 as [Hk0|Hk0].
    + apply Hn. rewrite E. by apply Hsub.
    + rewrite <-(IsGatewayReservedKey_fold _ _ E) in Hk0. congruence.
  - intros k0 v0. rewrite metadataValue_set by done. case_decide as E; [|by apply Hweak]. intros [= <-]. right. exists k.
    rewrite <-(IsGatewayReservedKey_fold _ _ E), <-E. set_solver.
  - intros k0 Hk0. right. by apply Hsub.
Qed.

(** ** Theorems *)


(** Unauthenticated metadata cannot override. Merging the metadata prefix
    of a fallback object into its headers leaves every header and every
    gateway field as the headers have it; what it adds are user fields of the
    prefix. *)
Theorem fallback_merge_safe header prefix :
  fold_distinct header →
  let out := MergeFallbackV2Metadata header prefix in
  (∀ k, k ∈ header.*1 ∨ IsGatewayReservedKey k = true → metadataValue out k = metadataValue header k) ∧
  (∀ k v, metadataValue out k = Some v → metadataValue header k = Some v ∨
     ∃ k', (k', v) ∈ prefix ∧ ToLower k' = ToLower k ∧ HasPrefix (ToLower k) "x-amz-meta-" = true ∧ IsGatewayReservedKey k = false).
Proof. intros Hd out. destruct (merge_loop header prefix Hd) as (_ & _ & ? & ? & _). done. Qed.

(** The client's view. No key of the view is a gateway key, whatever the
    stored metadata holds, and a protected standard header is shown with the
    value the gateway protected, before any native header of that name. *)
Theorem view_hides_gateway_keys expanded plainLen originalETag :
  let view := plaintextMetadataView expanded plainLen originalETag in
  (∀ k, k ∈ view.*1 → IsGatewayReservedKey k = false) ∧
  (∀ spec, spec ∈ ProtectedStandardKeys → protectedValue expanded spec ≠ "" →
     map_lookup view (Header spec) = Some (protectedValue expanded spec)).
Proof.
  intros view. unfold view, plaintextMetadataView. set (out0 := foldl _ [] expanded). set (out1 := foldl _ out0 ProtectedStandardKeys). split.
  - assert (Hfree : ∀ n, n ∈ Names ++ (Header <$> ProtectedStandardKeys) ++ ["Content-Length"; "ETag"] → IsGatewayReservedKey n = false)
      by apply view_names_free.
    assert (H0 : ∀ k, k ∈ out0.*1 → IsGatewayReservedKey k = false).
    { apply foldl_keys; [|set_solver]. intros out kv _ Hout. destruct (hiddenFromClient kv.1) eqn:Eh; [done|].
      apply (map_set_keys_Q (λ k, IsGatewayReservedKey k = false)); [|done].
      destruct (IsStandard kv.1) eqn:Es; [apply Hfree, elem_of_app; left; by apply standard_name|].
      unfold hiddenFromClient in Eh. by apply orb_false_elim in Eh as [[? _]%orb_false_elim _]. }
    assert (H1 : ∀ k, k ∈ out1.*1 → IsGatewayReservedKey k = false).
    { apply foldl_keys; [|done]. intros out spec Hs Hout. cbn zeta. case_decide; [|done].
      apply (map_set_keys_Q (λ k, IsGatewayReservedKey k = false)); [|done]. apply Hfree. rewrite !elem_of_app. right; left. by apply list_elem_of_fmap_2. }
    assert (H2 : ∀ k, k ∈ (if 0 <=? plainLen then map_set out1 "Content-Length" (FormatInt plainLen) else out1).*1 → IsGatewayReservedKey k = false).
    { case_match; [|done]. apply (map_set_keys_Q (λ k, IsGatewayReservedKey k = false)); [|done].
      apply Hfree. rewrite !elem_of_app. right; right. by left. }
    case_decide; [|done]. apply (map_set_keys_Q (λ k, IsGatewayReservedKey k = false)); [|done].
    apply Hfree. rewrite !elem_of_app. right; right. right. by left.
  - intros spec Hs Hv.
    assert (Hnd : NoDup (Header <$> ProtectedStandardKeys)) by (apply (bool_decide_unpack _); vm_compute; done).
    assert (Hne : Header spec ≠ "Content-Length" ∧ Header spec ≠ "ETag").
    { assert (Hchk : forallb (λ s, negb (bool_decide (Header s = "Content-Length")) && negb (bool_decide (Header s = "ETag"))) ProtectedStandardKeys = true) by (vm_compute; done).
      rewrite forallb_forall in Hchk. specialize (Hchk spec (proj1 (list_elem_of_In _ _) Hs)). apply andb_true_iff in Hchk as [E1 E2].
      by apply negb_true_iff, bool_decide_eq_false in E1, E2. }
    assert (Hl : map_lookup out1 (Header spec) = Some (protectedValue expanded spec)) by (by apply (lookup_headers (protectedValue expanded))).
    destruct Hne as [Hn1 Hn2]. destruct (0 <=? plainLen), (decide (originalETag ≠ ""));
      rewrite ?map_lookup_set, ?decide_False by congruence; done.
Qed.

(** ** The theorem at a concrete input *)

Lemma fallback_merge_safe_witness :
  metadataValue (MergeFallbackV2Metadata [("x-amz-meta-encrypted", "true")]
    [("X-Amz-Meta-Encrypted", "false"); ("x-amz-meta-owner", "alice")]) "x-amz-meta-encrypted" = Some "true".
Proof.
  apply (fallback_merge_safe [("x-amz-meta-encrypted", "true")]).
  - apply (bool_decide_unpack _). vm_compute. reflexivity.
  - left. by left.
Defined.
