(* ===== verification/Kdf.v ===== *)
(** * Parameters of the password-based key derivation

    [internal/crypto/kdf.go]: the parameters of PBKDF2 and Argon2id, their
    hard bounds and operational limits, and the text form in which they are
    stored with an object. The argon2 wrapper of [kdf_argon2_default.go] and
    [kdf_argon2_fips.go] is modelled; the two functions themselves
    ([crypto/pbkdf2], golang.org/x/crypto/argon2) are parameters. *)
From S2P Require Import Prelude GoStd Primitives.
Local Open Scope Z_scope.

(** ** Parameters, bounds and limits *)

(** [KDFAlgorithm] is a string type with two named values. *)
Definition KDFAlgPBKDF2SHA256 : string := "pbkdf2-sha256".
Definition KDFAlgArgon2id : string := "argon2id".

Definition LegacyPBKDF2Iterations : Z := 100000.
Definition DefaultPBKDF2Iterations : Z := 600000.
Definition MinPBKDF2Iterations : Z := 100000.
Definition MaxPBKDF2Iterations : Z := 2000000.
Definition MinArgon2idTime : Z := 1.
Definition MaxArgon2idTime : Z := 10.
Definition MinArgon2idMemory : Z := 1.
Definition MaxArgon2idMemory : Z := 1048576.
Definition MinArgon2idThreads : Z := 1.
Definition MaxArgon2idThreads : Z := 255.

Record KDFLimits := mkLimits {
  PBKDF2MaxIterations : Z; Argon2idMaxTime : Z; Argon2idMaxMemory : Z; Argon2idMaxThreads : Z }.

Definition DefaultKDFLimits : KDFLimits := mkLimits MaxPBKDF2Iterations MaxArgon2idTime 65536 MaxArgon2idThreads.

Record KDFParams := mkKDF { kp_Algorithm : string; Iterations : Z; kp_Time : Z; kp_Memory : Z; kp_Threads : Z }.

#[export] Instance KDFParams_eq_dec : EqDecision KDFParams.
Proof. solve_decision. Defined.

(** The two error types, with the text of their [Error] methods. *)
Definition invalidKDF (alg parameter : string) (value : Z) (reason : string) : error :=
  Errorf ("invalid " +:+ alg +:+ " KDF parameter " +:+ parameter +:+ "=" +:+ FormatInt value +:+ ": " +:+ reason).
Definition ErrKDFCostTooHigh (alg parameter : string) (requested maximum : Z) : error :=
  Errorf (alg +:+ " KDF parameter " +:+ parameter +:+ "=" +:+ FormatInt requested +:+ " exceeds maximum " +:+ FormatInt maximum).

Definition iterationBounds : string :=
  "must be between " +:+ FormatInt MinPBKDF2Iterations +:+ " and " +:+ FormatInt MaxPBKDF2Iterations.

Definition ValidateKDFParams (params : KDFParams) (limits : KDFLimits) : option error :=
  let alg := kp_Algorithm params in
  if decide (alg = KDFAlgPBKDF2SHA256) then
    if (Iterations params <? MinPBKDF2Iterations) || (MaxPBKDF2Iterations <? Iterations params) then
      Some (invalidKDF alg "iterations" (Z.max (Iterations params) 0) iterationBounds)
    else if PBKDF2MaxIterations limits <=? 0 then
      Some (invalidKDF alg "max_iterations" 0 ("must be positive (got " +:+ FormatInt (PBKDF2MaxIterations limits) +:+ ")"))
    else if PBKDF2MaxIterations limits <? Iterations params then
      Some (ErrKDFCostTooHigh alg "iterations" (Iterations params) (PBKDF2MaxIterations limits))
    else None
  else if decide (alg = KDFAlgArgon2id) then
    if (kp_Time params <? MinArgon2idTime) || (MaxArgon2idTime <? kp_Time params) then
      Some (invalidKDF alg "time" (kp_Time params) "must be between 1 and 10")
    else if (kp_Memory params <? MinArgon2idMemory) || (MaxArgon2idMemory <? kp_Memory params) then
      Some (invalidKDF alg "memory" (kp_Memory params) "must be between 1 and 1048576")
    else if (kp_Threads params <? MinArgon2idThreads) || (MaxArgon2idThreads <? kp_Threads params) then
      Some (invalidKDF alg "threads" (kp_Threads params) "must be between 1 and 255")
    else if Argon2idMaxTime limits <? kp_Time params then
      Some (ErrKDFCostTooHigh alg "time" (kp_Time params) (Argon2idMaxTime limits))
    else if Argon2idMaxMemory limits <? kp_Memory params then
      Some (ErrKDFCostTooHigh alg "memory" (kp_Memory params) (Argon2idMaxMemory limits))
    else if Argon2idMaxThreads limits <? kp_Threads params then
      Some (ErrKDFCostTooHigh alg "threads" (kp_Threads params) (Argon2idMaxThreads limits))
    else None
  else Some (invalidKDF alg "algorithm" 0 "unsupported algorithm").

(** ** The stored form *)

Definition FormatKDFParams (p : KDFParams) : string :=
  if decide (kp_Algorithm p = KDFAlgPBKDF2SHA256) then KDFAlgPBKDF2SHA256 +:+ ":" +:+ FormatInt (Iterations p)
  else if decide (kp_Algorithm p = KDFAlgArgon2id) then
    KDFAlgArgon2id +:+ ":" +:+ FormatInt (kp_Time p) +:+ ":" +:+ FormatInt (kp_Memory p) +:+ ":" +:+ FormatInt (kp_Threads p)
  else "".

(** [strconv.ParseUint(s, 10, bits)]. *)
Definition ParseUintBits (s : string) (bits : Z) : option Z :=
  n ← ParseUint s; if n <? 2 ^ bits then Some n else None.

(** [syntax] stands for the text of [strconv]'s error. *)
Definition ParseKDFParams (value : string) : result KDFParams :=
  let syntax := "strconv: invalid syntax or value out of range" in
  if decide (value = "") then Ok (mkKDF KDFAlgPBKDF2SHA256 LegacyPBKDF2Iterations 0 0 0)
  else match Split value ":" with
  | alg :: rest =>
      if len rest <? 1 then Err (invalidKDF "" "format" 0 "expected at least algorithm:parameter")
      else if decide (alg = KDFAlgPBKDF2SHA256) then
        match rest with
        | [p1] =>
            match ParseInt p1 with
            | None => Err (invalidKDF alg "iterations" 0 syntax)
            | Some iter =>
                if iter <? MinPBKDF2Iterations then Err (invalidKDF alg "iterations" (Z.max iter 0) iterationBounds)
                else if MaxPBKDF2Iterations <? iter then Err (invalidKDF alg "iterations" iter "exceeds hard maximum")
                else Ok (mkKDF KDFAlgPBKDF2SHA256 iter 0 0 0)
            end
        | _ => Err (invalidKDF alg "format" (len rest + 1) "expected 2 colon-delimited parts")
        end
      else if decide (alg = KDFAlgArgon2id) then
        match rest with
        | [p1; p2; p3] =>
            match ParseUintBits p1 32 with
            | None => Err (invalidKDF alg "time" 0 syntax)
            | Some time =>
                match ParseUintBits p2 32 with
                | None => Err (invalidKDF alg "memory" 0 syntax)
                | Some memory =>
                    if (time <? MinArgon2idTime) || (MaxArgon2idTime <? time) then
                      Err (invalidKDF alg "time" time "must be between 1 and 10")
                    else if (memory <? MinArgon2idMemory) || (MaxArgon2idMemory <? memory) then
                      Err (invalidKDF alg "memory" memory "must be between 1 and 1048576")
                    else match ParseUintBits p3 8 with
                         | None => Err (invalidKDF alg "threads" 0 syntax)
                         | Some threads =>
                             if threads <? MinArgon2idThreads then
                               Err (invalidKDF alg "threads" threads "must be between 1 and 255")
                             else Ok (mkKDF KDFAlgArgon2id 0 time memory threads)
                         end
                end
            end
        | _ => Err (invalidKDF alg "format" (len rest + 1) "expected 4 colon-delimited parts")
        end
      else Err (invalidKDF alg "algorithm" 0 "unsupported algorithm")
  | [] => Err (invalidKDF "" "format" 0 "expected at least algorithm:parameter")
  end.

Definition DefaultKDFParams (pbkdf2Iterations : Z) : KDFParams :=
  mkKDF KDFAlgPBKDF2SHA256
    (if pbkdf2Iterations <? MinPBKDF2Iterations then DefaultPBKDF2Iterations else pbkdf2Iterations) 0 0 0.

(** ** The derivation functions

    [pbkdf2_Key password salt iterations keyLength] may fail (in FIPS mode it
    refuses short inputs); [argon2_IDKey password salt time memory threads
    keyLength] does not. Both are functions of their arguments. *)
Class PasswordKDF := {
  pbkdf2_Key : list byte → list byte → Z → Z → result (list byte);
  argon2_IDKey : list byte → list byte → Z → Z → Z → Z → list byte }.
Class PasswordKDFLaws `{PasswordKDF} : Prop := {
  pbkdf2_length : ∀ pw salt iter n key, 0 ≤ n → pbkdf2_Key pw salt iter n = Ok key → len key = n;
  argon2_length : ∀ pw salt t m th n, 0 ≤ n → len (argon2_IDKey pw salt t m th n) = n }.

(** The build tag that selects the variant of a file. *)
Class BuildTags := { tag_fips : bool }.

Definition deriveKeyArgon2id `{PasswordKDF, BuildTags} (password salt : list byte) (params : KDFParams) : result (list byte) :=
  if tag_fips then Err ErrAlgorithmNotApproved
  else match ValidateKDFParams params DefaultKDFLimits with
       | Some e => Err e
       | None => Ok (argon2_IDKey password salt (kp_Time params) (kp_Memory params) (kp_Threads params) aesKeySize)
       end.

(** ** Lemmas *)

(** Parameters in the hard bounds, without fields of the other algorithm. *)
Definition kdf_bounded (p : KDFParams) : Prop :=
  (kp_Algorithm p = KDFAlgPBKDF2SHA256 ∧ MinPBKDF2Iterations ≤ Iterations p ≤ MaxPBKDF2Iterations ∧
     kp_Time p = 0 ∧ kp_Memory p = 0 ∧ kp_Threads p = 0) ∨
  (kp_Algorithm p = KDFAlgArgon2id ∧ Iterations p = 0 ∧ MinArgon2idTime ≤ kp_Time p ≤ MaxArgon2idTime ∧
     MinArgon2idMemory ≤ kp_Memory p ≤ MaxArgon2idMemory ∧ MinArgon2idThreads ≤ kp_Threads p ≤ MaxArgon2idThreads).

(** The cost of a derivation is below the operator's limits. *)
Definition kdf_within (p : KDFParams) (l : KDFLimits) : Prop :=
  if decide (kp_Algorithm p = KDFAlgPBKDF2SHA256) then Iterations p ≤ PBKDF2MaxIterations l
  else kp_Time p ≤ Argon2idMaxTime l ∧ kp_Memory p ≤ Argon2idMaxMemory l ∧ kp_Threads p ≤ Argon2idMaxThreads l.

Lemma Split_digits pre z rest :
  0 ≤ z ≤ MaxInt64 → Forall (λ b, chr_eqb b ":" = false) (bytes_of_string pre) →
  Split (pre +:+ ":" +:+ rest) ":" = pre :: Split rest ":" ∧
  Split (FormatInt z) ":" = [FormatInt z] ∧
  Split (FormatInt z +:+ ":" +:+ rest) ":" = FormatInt z :: Split rest ":".
Proof.
  intros Hz Hpre.
  assert (Hd : Forall (λ b, chr_eqb b ":" = false) (bytes_of_string (FormatInt z))).
  { unfold FormatInt. rewrite bytes_of_string_of_bytes. destruct (FormatInt_digits z Hz) as [Hd _].
    rewrite Forall_forall. intros b Hb. rewrite forallb_forall in Hd.
    specialize (Hd b (proj1 (list_elem_of_In _ _) Hb)). destruct b; try done; vm_compute in Hd; done. }
  assert (Hs : ∀ p, Forall (λ b, chr_eqb b ":" = false) (bytes_of_string p) →
    Split (p +:+ ":" +:+ rest) ":" = p :: Split rest ":").
  { intros p Hp. unfold Split. rewrite !bytes_of_string_app. change (bytes_of_string ":") with [":"%byte]. cbn [app].
    rewrite split_bytes_app by done. by rewrite app_nil_l, fmap_cons, string_of_bytes_of_string. }
  split_and!; [by apply Hs| |by apply Hs].
  unfold Split. rewrite split_bytes_none by done. by rewrite app_nil_l, fmap_cons, string_of_bytes_of_string.
Qed.

Lemma ParseUintBits_FormatInt z bits : 0 ≤ z ≤ MaxInt64 → z < 2 ^ bits → ParseUintBits (FormatInt z) bits = Some z.
Proof.
  intros Hz Hb. unfold ParseUintBits, ParseUint, FormatInt.
  rewrite bytes_of_string_of_bytes, ParseUint_FormatInt by done. cbn. by rewrite (proj2 (Z.ltb_lt _ _)).
Qed.

Lemma ParseUintBits_range s bits z : ParseUintBits s bits = Some z → 0 ≤ z < 2 ^ bits.
Proof.
  unfold ParseUintBits, ParseUint. destruct (ParseUint_bytes _) eqn:E; [|done]. cbn. apply ParseUint_range in E.
  case_match eqn:Hb; [|done]. zbool. intros [= <-]. lia.
Qed.

Ltac kdf_consts := unfold MinPBKDF2Iterations, MaxPBKDF2Iterations, MinArgon2idTime, MaxArgon2idTime, MinArgon2idMemory,
  MaxArgon2idMemory, MinArgon2idThreads, MaxArgon2idThreads in *.

Lemma ParseKDFParams_bounded s p : ParseKDFParams s = Ok p → kdf_bounded p.
Proof.
  unfold ParseKDFParams. intros H. repeat case_match; simplify_eq; zbool; kdf_consts;
    unfold kdf_bounded; kdf_consts; cbn; try (left; split_and!; done || lia).
  all: match goal with H : ParseUintBits ?s 8 = Some _ |- _ => apply ParseUintBits_range in H end.
  all: right; split_and!; done || lia.
Qed.

Lemma FormatKDFParams_parse p : kdf_bounded p → ParseKDFParams (FormatKDFParams p) = Ok p.
Proof.
  intros [(Ha & Hi & Ht & Hm & Hth)|(Ha & Hi & Ht & Hm & Hth)]; kdf_consts;
    destruct p as [a i t m th]; cbn in *; subst; unfold FormatKDFParams; cbn [kp_Algorithm Iterations kp_Time kp_Memory kp_Threads].
  - rewrite decide_True by done. unfold ParseKDFParams. rewrite decide_False by done.
    rewrite (proj1 (Split_digits KDFAlgPBKDF2SHA256 i (FormatInt i) ltac:(unfold MaxInt64; lia) ltac:(repeat constructor))).
    rewrite (proj1 (proj2 (Split_digits KDFAlgPBKDF2SHA256 i "" ltac:(unfold MaxInt64; lia) ltac:(repeat constructor)))).
    cbn [length]. rewrite decide_True by done. unfold ParseInt, FormatInt. rewrite bytes_of_string_of_bytes.
    rewrite ParseInt_FormatInt by (unfold MaxInt64; lia). kdf_consts.
    rewrite !(proj2 (Z.ltb_ge _ _)) by lia. done.
  - rewrite decide_False by done. rewrite decide_True by done. unfold ParseKDFParams. rewrite decide_False by done.
    rewrite (proj1 (Split_digits KDFAlgArgon2id t _ ltac:(unfold MaxInt64; lia) ltac:(repeat constructor))).
    rewrite (proj2 (proj2 (Split_digits "" t _ ltac:(unfold MaxInt64; lia) ltac:(constructor)))).
    rewrite (proj2 (proj2 (Split_digits "" m _ ltac:(unfold MaxInt64; lia) ltac:(constructor)))).
    rewrite (proj1 (proj2 (Split_digits "" th "" ltac:(unfold MaxInt64; lia) ltac:(constructor)))).
    cbn [length]. rewrite decide_False by done. rewrite decide_True by done.
    rewrite !ParseUintBits_FormatInt by (unfold MaxInt64; lia). kdf_consts.
    rewrite !(proj2 (Z.ltb_ge _ _)) by lia. done.
Qed.

Lemma ValidateKDFParams_spec p l :
  kdf_bounded p → ValidateKDFParams p l = None ↔ kdf_within p l.
Proof.
  intros Hb. unfold kdf_bounded, ValidateKDFParams, kdf_within in *. kdf_consts.
  destruct Hb as [(Ha & Hb)|(Ha & Hb)]; rewrite Ha.
  - rewrite !decide_True by done. rewrite !(proj2 (Z.ltb_ge _ _)) by lia. cbn [orb].
    destruct (Z.leb_spec (PBKDF2MaxIterations l) 0); [split; [done|lia]|]. case_match; zbool; split; (done || lia).
  - rewrite !decide_False by done. rewrite decide_True by done.
    rewrite !(proj2 (Z.ltb_ge (kp_Time p) _)), !(proj2 (Z.ltb_ge _ _)) by lia.
    repeat case_match; zbool; split; try done; lia.
Qed.

(** The check looks at no field of the other algorithm, and what it accepts is
    inside the hard bounds. *)
Lemma ValidateKDFParams_pbkdf2 iter t m th l :
  ValidateKDFParams (mkKDF KDFAlgPBKDF2SHA256 iter t m th) l = None →
  ValidateKDFParams (mkKDF KDFAlgPBKDF2SHA256 iter 0 0 0) l = None ∧ kdf_bounded (mkKDF KDFAlgPBKDF2SHA256 iter 0 0 0).
Proof.
  intros Hv. split; [exact Hv|]. left. cbn. unfold ValidateKDFParams in Hv. cbn [kp_Algorithm Iterations] in Hv.
  rewrite decide_True in Hv by done. case_match eqn:E; [done|]. zbool. done.
Qed.
Lemma ValidateKDFParams_argon2 iter t m th l :
  ValidateKDFParams (mkKDF KDFAlgArgon2id iter t m th) l = None →
  ValidateKDFParams (mkKDF KDFAlgArgon2id 0 t m th) l = None ∧ kdf_bounded (mkKDF KDFAlgArgon2id 0 t m th).
Proof.
  intros Hv. split; [exact Hv|]. right. cbn. unfold ValidateKDFParams in Hv. cbn [kp_Algorithm kp_Time kp_Memory kp_Threads] in Hv.
  rewrite decide_False in Hv by done. rewrite decide_True in Hv by done. do 3 (case_match; [done|]). zbool. done.
Qed.

(** Stored derivation parameters. Whatever text is stored with an object,
    accepted parameters are inside the hard bounds and carry nothing of the
    other algorithm; formatting such parameters and parsing the text gives
    them back; and the check before a derivation accepts them exactly when
    their cost is within the operator's limits. *)
Theorem kdf_params_roundtrip :
  (∀ s p, ParseKDFParams s = Ok p → kdf_bounded p) ∧
  (∀ p, kdf_bounded p → ParseKDFParams (FormatKDFParams p) = Ok p) ∧
  (∀ p l, kdf_bounded p → ValidateKDFParams p l = None ↔ kdf_within p l).
Proof. split_and!; [apply ParseKDFParams_bounded|apply FormatKDFParams_parse|apply ValidateKDFParams_spec]. Qed.
