(* ===== verification/PasswordKeyManager.v ===== *)
(** * The password key manager

    [internal/crypto/password_keymanager.go] and
    [password_keymanager_options.go]: data keys wrapped with AES-256-GCM under
    a key derived from the gateway's password. New envelopes name their
    derivation parameters; two older layouts are still read. *)
From S2P Require Import Prelude GoStd Primitives KeyManager MemoryKeyManager Kdf.
Local Open Scope Z_scope.

Definition envelopeVersionMarker : Z := 1.
Definition envelopeAlgPBKDF2 : byte := x00.
Definition envelopeAlgArgon2id : byte := x01.
Definition saltSize : Z := 32.

Record passwordKeyManager := mkPassword {
  pk_password : list byte; pk_pbkdf2Iterations : Z; pk_kdfAlgorithm : string; pk_argon2idTime : Z;
  pk_argon2idMemory : Z; pk_argon2idThreads : Z; pk_fipsErr : option error; pk_kdfLimits : KDFLimits; pk_closed : bool }.

Definition PasswordKMOption := passwordKeyManager → passwordKeyManager.

(** The parameters a manager writes with, as the [KDFParams] literal of
    [deriveWrappingKey] and of the constructor. *)
Definition pk_params (m : passwordKeyManager) : KDFParams :=
  mkKDF (pk_kdfAlgorithm m) (pk_pbkdf2Iterations m) (pk_argon2idTime m) (pk_argon2idMemory m) (pk_argon2idThreads m).

Definition pk_fail (e : error) (m : passwordKeyManager) : passwordKeyManager :=
  mkPassword (pk_password m) (pk_pbkdf2Iterations m) (pk_kdfAlgorithm m) (pk_argon2idTime m) (pk_argon2idMemory m)
    (pk_argon2idThreads m) (Some e) (pk_kdfLimits m) (pk_closed m).

Definition WithPasswordKMPBKDF2 (iterations : Z) : PasswordKMOption := λ m,
  if (iterations <? MinPBKDF2Iterations) || (MaxPBKDF2Iterations <? iterations) then
    pk_fail (invalidKDF KDFAlgPBKDF2SHA256 "iterations" (Z.max iterations 0) "outside hard bounds") m
  else mkPassword (pk_password m) iterations KDFAlgPBKDF2SHA256 0 0 0 (pk_fipsErr m) (pk_kdfLimits m) (pk_closed m).

Definition WithPasswordKMKDFLimits (limits : KDFLimits) : PasswordKMOption := λ m,
  mkPassword (pk_password m) (pk_pbkdf2Iterations m) (pk_kdfAlgorithm m) (pk_argon2idTime m) (pk_argon2idMemory m)
    (pk_argon2idThreads m) (pk_fipsErr m) limits (pk_closed m).

Definition WithPasswordKMArgon2id `{BuildTags} (time memory threads : Z) : PasswordKMOption := λ m,
  if tag_fips then pk_fail ErrAlgorithmNotApproved m
  else match ValidateKDFParams (mkKDF KDFAlgArgon2id 0 time memory threads) DefaultKDFLimits with
       | Some e => pk_fail e m
       | None => mkPassword (pk_password m) (pk_pbkdf2Iterations m) KDFAlgArgon2id time memory threads (pk_fipsErr m)
                   (pk_kdfLimits m) (pk_closed m)
       end.

Definition NewPasswordKeyManager (password : list byte) (opts : list PasswordKMOption) : result passwordKeyManager :=
  if len password <? 12 then Err (Errorf "password_keymanager: password must be at least 12 characters")
  else
    let m := foldl (λ m o, o m)
      (mkPassword password DefaultPBKDF2Iterations KDFAlgPBKDF2SHA256 2 19456 1 None DefaultKDFLimits false) opts in
    match pk_fipsErr m with
    | Some e => Err e
    | None => match ValidateKDFParams (pk_params m) (pk_kdfLimits m) with
              | Some e => Err e
              | None => Ok m
              end
    end.

Definition kdfAlgByte (m : passwordKeyManager) : byte :=
  if decide (pk_kdfAlgorithm m = KDFAlgArgon2id) then envelopeAlgArgon2id else envelopeAlgPBKDF2.

Definition kdfParamsBytes (m : passwordKeyManager) : list byte :=
  if decide (pk_kdfAlgorithm m = KDFAlgArgon2id) then
    be_encode 4 (pk_argon2idTime m) ++ be_encode 4 (pk_argon2idMemory m) ++ [byte_of (pk_argon2idThreads m)]
  else be_encode 4 (wrap_u32 (pk_pbkdf2Iterations m)).

(** [buf[i:j]]. *)
Definition bslice (l : list byte) (i j : Z) : list byte := take (Z.to_nat (j - i)) (drop (Z.to_nat i) l).

Section password.
Context `{PasswordKDF, BuildTags, Ciphers}.

(** [aes.NewCipher] and [cipher.NewGCM]. *)
Definition newPasswordKMGCM (key : list byte) : result AEAD :=
  if aes_key_size key then Ok (aes_gcm key) else Err (Errorf "crypto/aes: invalid key size %d").

Definition gcm_open (a : AEAD) (nonce sealed : list byte) : result (list byte) :=
  match Open a nonce sealed [] with
  | Some p => Ok p
  | None => Err (Errorf "cipher: message authentication failed")
  end.

Definition deriveWrappingKey (m : passwordKeyManager) (salt : list byte) : result (list byte) :=
  match ValidateKDFParams (pk_params m) (pk_kdfLimits m) with
  | Some e => Err e
  | None =>
      if decide (pk_kdfAlgorithm m = KDFAlgArgon2id) then
        deriveKeyArgon2id (pk_password m) salt
          (mkKDF KDFAlgArgon2id 0 (pk_argon2idTime m) (pk_argon2idMemory m) (pk_argon2idThreads m))
      else match pbkdf2_Key (pk_password m) salt (pk_pbkdf2Iterations m) aesKeySize with
           | Ok key => Ok key
           | Err e => Err (Wrapf "password_keymanager: derive wrapping key: %w" e)
           end
  end.

Definition deriveUnwrapKey (m : passwordKeyManager) (salt : list byte) (params : KDFParams) : result (list byte) :=
  match ValidateKDFParams params (pk_kdfLimits m) with
  | Some e => Err e
  | None =>
      if decide (kp_Algorithm params = KDFAlgArgon2id) then
        deriveKeyArgon2id (pk_password m) salt
          (mkKDF KDFAlgArgon2id 0 (kp_Time params) (kp_Memory params) (kp_Threads params))
      else match pbkdf2_Key (pk_password m) salt (Iterations params) aesKeySize with
           | Ok key => Ok key
           | Err e => Err (Wrapf "password_keymanager: derive unwrap key: %w" e)
           end
  end.

(** The payload of a new envelope. *)
Definition envelopePayload (m : passwordKeyManager) (salt nonce sealed : list byte) : list byte :=
  be_encode 4 envelopeVersionMarker ++ [kdfAlgByte m] ++ kdfParamsBytes m ++ salt ++ nonce ++ sealed.

Definition password_WrapKey (plaintext : list byte) (md : gomap) (m : passwordKeyManager) (w : World)
    : result KeyEnvelope * passwordKeyManager * World :=
  if pk_closed m then (Err ErrProviderUnavailable, m, w)
  else if bool_decide (plaintext = []) then (Err (Errorf "password_keymanager: plaintext DEK must not be empty"), m, w)
  else match rand_read 32 w with
  | (Err e, w) => (Err (Wrapf "password_keymanager: generate salt: %w" e), m, w)
  | (Ok salt, w) =>
      match deriveWrappingKey m salt with
      | Err e => (Err e, m, w)
      | Ok wk =>
          match newPasswordKMGCM wk with
          | Err e => (Err (Wrapf "password_keymanager: create cipher: %w" e), m, w)
          | Ok gcm =>
              match rand_read 12 w with
              | (Err e, w) => (Err (Wrapf "password_keymanager: generate nonce: %w" e), m, w)
              | (Ok nonce, w) =>
                  let sealed := Seal gcm nonce plaintext [] in
                  let '(t, w) := time_now w in
                  (Ok (mkEnvelope "" 1 passwordKMProvider (envelopePayload m salt nonce sealed) t), m, w)
              end
          end
      end
  end.

(** The parameters and their end in a new-format payload. *)
Definition parseEnvelopeParams (payload : list byte) : result (KDFParams * Z) :=
  match payload !! 4%nat with
  | Some x00 =>
      if len payload <? 5 + 4 + saltSize + nonceSize + tagSize then
        Err (invalidKDF KDFAlgPBKDF2SHA256 "format" (len payload) "v2 PBKDF2 payload too short")
      else Ok (mkKDF KDFAlgPBKDF2SHA256 (be_decode (bslice payload 5 9)) 0 0 0, 9)
  | Some x01 =>
      if len payload <? 5 + 9 + saltSize + nonceSize + tagSize then
        Err (invalidKDF KDFAlgArgon2id "format" (len payload) "v2 Argon2id payload too short")
      else Ok (mkKDF KDFAlgArgon2id 0 (be_decode (bslice payload 5 9)) (be_decode (bslice payload 9 13))
                 (be_decode (bslice payload 13 14)), 14)
  | b => Err (invalidKDF "" "algorithm" (byte_val (default x00 b)) "unsupported v2 algorithm")
  end.

Definition tryUnwrapV2 (m : passwordKeyManager) (payload : list byte) : result (list byte) :=
  '(params, paramsEnd) ← parseEnvelopeParams payload;
  let salt := bslice payload paramsEnd (paramsEnd + saltSize) in
  let nonce := bslice payload (paramsEnd + saltSize) (paramsEnd + saltSize + nonceSize) in
  let sealed := drop (Z.to_nat (paramsEnd + saltSize + nonceSize)) payload in
  wk ← deriveUnwrapKey m salt params;
  gcm ← newPasswordKMGCM wk;
  gcm_open gcm nonce sealed.

Definition openPasswordKMGCM (key nonce sealed : list byte) : result (list byte) :=
  gcm ← newPasswordKMGCM key; gcm_open gcm nonce sealed.

Definition tryUnwrap (m : passwordKeyManager) (salt nonce sealed : list byte) (iterations : Z) : result (list byte) :=
  match ValidateKDFParams (mkKDF KDFAlgPBKDF2SHA256 iterations 0 0 0) (pk_kdfLimits m) with
  | Some e => Err e
  | None => wk ← pbkdf2_Key (pk_password m) salt iterations aesKeySize; openPasswordKMGCM wk nonce sealed
  end.

Definition minPayload : Z := saltSize + nonceSize + tagSize.

(** The layout with an iteration count in front; [None] when the payload is
    not taken for one. *)
Definition tryPrefixed (m : passwordKeyManager) (payload : list byte) : option (result (list byte)) :=
  if minPayload + 4 <=? len payload then
    let candidateIter := be_decode (take 4 payload) in
    if (MinPBKDF2Iterations <=? candidateIter) && (candidateIter <=? MaxPBKDF2Iterations) then
      Some (tryUnwrap m (bslice payload 4 (4 + saltSize)) (bslice payload (4 + saltSize) (4 + saltSize + nonceSize))
              (drop (Z.to_nat (4 + saltSize + nonceSize)) payload) candidateIter)
    else None
  else None.

(** The layout without any prefix. *)
Definition tryLegacy (m : passwordKeyManager) (payload : list byte) : result (list byte) :=
  tryUnwrap m (take (Z.to_nat saltSize) payload) (bslice payload saltSize (saltSize + nonceSize))
    (drop (Z.to_nat (saltSize + nonceSize)) payload) LegacyPBKDF2Iterations.

(** Of an error that wraps two, the first is kept. *)
Definition unwrapPayload (m : passwordKeyManager) (payload : list byte) : result (list byte) :=
  if len payload <? minPayload then Err (Wrapf "%w: payload too short (%d bytes)" ErrInvalidEnvelope)
  else if (5 <=? len payload) && (be_decode (take 4 payload) =? envelopeVersionMarker) then
    match tryUnwrapV2 m payload with
    | Ok plaintext => Ok plaintext
    | Err _ => Err (Wrapf "%w: %w" ErrUnwrapFailed)
    end
  else match tryPrefixed m payload with
  | Some (Ok plaintext) => Ok plaintext
  | v1 =>
      match tryLegacy m payload with
      | Ok plaintext => Ok plaintext
      | Err _ => Err (Wrapf (if v1 then "%w: %w" else "%w: %v") ErrUnwrapFailed)
      end
  end.

Definition password_UnwrapKey (envelope : option KeyEnvelope) (md : gomap) (m : passwordKeyManager) (w : World)
    : result (list byte) * passwordKeyManager * World :=
  if pk_closed m then (Err ErrProviderUnavailable, m, w)
  else match envelope with
  | None => (Err ErrInvalidEnvelope, m, w)
  | Some env =>
      if bool_decide (env_Ciphertext env = []) then (Err ErrInvalidEnvelope, m, w)
      else if negb (bool_decide (env_Provider env = passwordKMProvider)) then
        (Err (Errorf "password_keymanager: envelope provider mismatch (got %q, want %q)"), m, w)
      else (unwrapPayload m (env_Ciphertext env), m, w)
  end.

Definition password_ActiveKeyVersion (m : passwordKeyManager) (w : World) : result Z * passwordKeyManager * World :=
  (if pk_closed m then Err ErrProviderUnavailable else Ok 1, m, w).
Definition password_HealthCheck (m : passwordKeyManager) (w : World) : option error * passwordKeyManager * World :=
  (if pk_closed m then Some ErrProviderUnavailable else None, m, w).

(** Closing forgets the password. *)
Definition password_Close (m : passwordKeyManager) (w : World) : option error * passwordKeyManager * World :=
  if pk_closed m then (None, m, w)
  else (None, mkPassword [] (pk_pbkdf2Iterations m) (pk_kdfAlgorithm m) (pk_argon2idTime m) (pk_argon2idMemory m)
                (pk_argon2idThreads m) (pk_fipsErr m) (pk_kdfLimits m) true, w).

#[export] Instance password_km : KeyManager passwordKeyManager := {|
  Provider _ := passwordKMProvider; WrapKey := password_WrapKey; UnwrapKey := password_UnwrapKey;
  ActiveKeyVersion := password_ActiveKeyVersion; HealthCheck := password_HealthCheck; km_Close := password_Close |}.
End password.

(** ** Reading back what was written *)

Section slices.
Lemma bslice_app (a b c : list byte) i j :
  len a = i → len a + len b = j → bslice (a ++ b ++ c) i j = b.
Proof.
  intros <- <-. unfold bslice. rewrite Nat2Z.id, drop_app_length.
  replace (Z.to_nat (len a + len b - len a)) with (length b) by lia. apply take_app_length.
Qed.
Lemma bslice_shift (a b : list byte) i j : len a ≤ i → bslice (a ++ b) i j = bslice b (i - len a) (j - len a).
Proof.
  intros Hi. unfold bslice. rewrite drop_app_ge by lia.
  replace (Z.to_nat i - length a)%nat with (Z.to_nat (i - len a)) by lia.
  by replace (j - len a - (i - len a)) with (j - i) by lia.
Qed.
Lemma drop_app_at (a b : list byte) n : Z.to_nat n = length a → drop (Z.to_nat n) (a ++ b) = b.
Proof. intros ->. apply drop_app_length. Qed.

Lemma be_decode_4 z : 0 ≤ z ≤ MaxUint32 → be_decode (be_encode 4 z) = z.
Proof. intros. rewrite be_decode_encode. apply Z.mod_small. unfold MaxUint32 in *. lia. Qed.
End slices.

Section password_spec.
Context `{PasswordKDFLaws, BuildTags, CiphersLaws}.

(** What a successful derivation used. *)
Lemma deriveWrappingKey_inv m salt wk :
  deriveWrappingKey m salt = Ok wk →
  len wk = aesKeySize ∧ ValidateKDFParams (pk_params m) (pk_kdfLimits m) = None ∧
  ((pk_kdfAlgorithm m = KDFAlgPBKDF2SHA256 ∧ pbkdf2_Key (pk_password m) salt (pk_pbkdf2Iterations m) aesKeySize = Ok wk) ∨
   (pk_kdfAlgorithm m = KDFAlgArgon2id ∧
    deriveKeyArgon2id (pk_password m) salt
      (mkKDF KDFAlgArgon2id 0 (pk_argon2idTime m) (pk_argon2idMemory m) (pk_argon2idThreads m)) = Ok wk)).
Proof using All.
  unfold deriveWrappingKey. destruct (ValidateKDFParams _ _) eqn:Hv; [done|]. case_decide as Ha.
  - intros Hd. pose proof Hd as Hd'. unfold deriveKeyArgon2id in Hd'. repeat case_match; simplify_eq.
    split; [by apply argon2_length|]. auto.
  - destruct (pbkdf2_Key _ _ _ _) eqn:E; intros; simplify_eq. split; [by eapply pbkdf2_length|]. split; [done|]. left.
    split; [|done]. unfold ValidateKDFParams, pk_params in Hv. cbn in Hv. by repeat case_decide.
Qed.

(** The parameters of a payload are read back. *)
Lemma parseEnvelope_pbkdf2 iter tail :
  0 ≤ iter ≤ MaxUint32 → minPayload ≤ len tail →
  parseEnvelopeParams (be_encode 4 envelopeVersionMarker ++ [envelopeAlgPBKDF2] ++ be_encode 4 iter ++ tail) =
    Ok (mkKDF KDFAlgPBKDF2SHA256 iter 0 0 0, 9).
Proof.
  intros Hi Ht. unfold parseEnvelopeParams, minPayload, saltSize, nonceSize, tagSize in *.
  rewrite lookup_app_r, length_be_encode by (rewrite length_be_encode; lia). cbn [Nat.sub app lookup list_lookup envelopeAlgPBKDF2].
  rewrite (proj2 (Z.ltb_ge _ _)) by (rewrite length_app; cbn [length]; rewrite length_app, !length_be_encode; lia).
  rewrite (cons_middle x00), (assoc_L (++)), bslice_app by (rewrite !length_app, ?length_be_encode; cbn; lia).
  by rewrite be_decode_4.
Qed.

Lemma parseEnvelope_argon2 time memory threads tail :
  0 ≤ time ≤ MaxUint32 → 0 ≤ memory ≤ MaxUint32 → 0 ≤ threads < 256 → minPayload ≤ len tail →
  parseEnvelopeParams (be_encode 4 envelopeVersionMarker ++ [envelopeAlgArgon2id] ++
      (be_encode 4 time ++ be_encode 4 memory ++ [byte_of threads]) ++ tail) =
    Ok (mkKDF KDFAlgArgon2id 0 time memory threads, 14).
Proof.
  intros Ht Hm Hth Hl. unfold parseEnvelopeParams, minPayload, saltSize, nonceSize, tagSize in *.
  rewrite lookup_app_r, length_be_encode by (rewrite length_be_encode; lia). cbn [Nat.sub app lookup list_lookup envelopeAlgArgon2id].
  rewrite (proj2 (Z.ltb_ge _ _)) by (rewrite length_app; cbn [length]; rewrite !length_app, !length_be_encode; cbn [length]; lia).
  rewrite <-!(assoc_L (++)), (cons_middle x01), (assoc_L (++)). do 3 f_equal.
  - rewrite bslice_app by (rewrite !length_app, ?length_be_encode; cbn; lia). by rewrite be_decode_4.
  - rewrite (assoc_L (++)), bslice_app by (rewrite !length_app, ?length_be_encode; cbn; lia). by rewrite be_decode_4.
  - rewrite (assoc_L (++)), (assoc_L (++)), bslice_app by (rewrite !length_app, ?length_be_encode; cbn; lia).
    change [byte_of threads] with (be_encode 1 threads). rewrite be_decode_encode. apply Z.mod_small. cbn. lia.
Qed.

(** Opening what was sealed, once the parameters are known. *)
Lemma tryUnwrapV2_payload m hd params e salt nonce wk p :
  let payload := hd ++ salt ++ nonce ++ Seal (aes_gcm wk) nonce p [] in
  len salt = saltSize → len nonce = nonceSize → len wk = aesKeySize →
  len hd = e → parseEnvelopeParams payload = Ok (params, e) → deriveUnwrapKey m salt params = Ok wk →
  tryUnwrapV2 m payload = Ok p.
Proof using All.
  intros payload Hs Hn Hk He Hp Hd. unfold tryUnwrapV2. rewrite Hp. cbn [mbind result_bind].
  unfold payload. rewrite (bslice_app hd salt _ e) by lia.
  rewrite (assoc_L (++) hd), (bslice_app (hd ++ salt) nonce _ (e + saltSize)) by (rewrite ?length_app; lia). rewrite Hd. cbn [mbind result_bind].
  rewrite (assoc_L (++) _ nonce), drop_app_at by (rewrite !length_app; lia).
  unfold newPasswordKMGCM, aes_key_size. rewrite Hk. cbn. unfold gcm_open. rewrite aead_open_seal; [done|].
  unfold nonceSize in Hn. lia.
Qed.

Lemma deriveUnwrapKey_wrapping m m' salt wk :
  deriveWrappingKey m salt = Ok wk → pk_password m' = pk_password m →
  ValidateKDFParams (pk_params m) (pk_kdfLimits m') = None →
  ∃ params e, deriveUnwrapKey m' salt params = Ok wk ∧
    len (be_encode 4 envelopeVersionMarker ++ [kdfAlgByte m] ++ kdfParamsBytes m) = e ∧
    ∀ tail, minPayload ≤ len tail →
      parseEnvelopeParams ((be_encode 4 envelopeVersionMarker ++ [kdfAlgByte m] ++ kdfParamsBytes m) ++ tail) = Ok (params, e).
Proof using All.
  intros (Hl & _ & Hd)%deriveWrappingKey_inv Hpw Hv. unfold kdfAlgByte, kdfParamsBytes, deriveUnwrapKey, pk_params in *. rewrite Hpw.
  destruct Hd as [[Ha Hd]|[Ha Hd]]; rewrite Ha in *.
  - apply ValidateKDFParams_pbkdf2 in Hv as [Hv [(_ & Hb & _)|[? _]]]; [|done]. cbn in Hb. kdf_consts.
    rewrite !(decide_False (P := KDFAlgPBKDF2SHA256 = KDFAlgArgon2id)) by done. nowrap.
    exists (mkKDF KDFAlgPBKDF2SHA256 (pk_pbkdf2Iterations m) 0 0 0), 9. split_and!.
    + rewrite Hv. cbn [kp_Algorithm Iterations]. by rewrite decide_False, Hd by done.
    + by rewrite !length_app, !length_be_encode.
    + intros tail Ht. rewrite <-!(assoc_L (++)). apply parseEnvelope_pbkdf2; [unfold MaxUint32; lia|done].
  - apply ValidateKDFParams_argon2 in Hv as [Hv [[? _]|(_ & _ & Hb)]]; [done|]. cbn in Hb. kdf_consts.
    rewrite !(decide_True (P := KDFAlgArgon2id = KDFAlgArgon2id)) by done.
    exists (mkKDF KDFAlgArgon2id 0 (pk_argon2idTime m) (pk_argon2idMemory m) (pk_argon2idThreads m)), 14. split_and!.
    + rewrite Hv. cbn [kp_Algorithm kp_Time kp_Memory kp_Threads]. by rewrite decide_True, Hd by done.
    + by rewrite !length_app, !length_be_encode.
    + intros tail Ht. rewrite <-(assoc_L (++) (be_encode 4 envelopeVersionMarker)), <-(assoc_L (++) [_]).
      apply parseEnvelope_argon2; [unfold MaxUint32; lia..|done].
Qed.

(** What a successful wrap leaves behind. *)
Lemma password_wrap_inv dek md m w env m1 w1 :
  password_WrapKey dek md m w = (Ok env, m1, w1) →
  m1 = m ∧ pk_closed m = false ∧ env_Provider env = passwordKMProvider ∧ env_Ciphertext env ≠ [] ∧
  ValidateKDFParams (pk_params m) (pk_kdfLimits m) = None ∧
  len (env_Ciphertext env) = len (kdfParamsBytes m) + 5 + saltSize + nonceSize + len dek + tagSize ∧
  ∀ m2, pk_password m2 = pk_password m → ValidateKDFParams (pk_params m) (pk_kdfLimits m2) = None →
    unwrapPayload m2 (env_Ciphertext env) = Ok dek.
Proof using All.
  unfold password_WrapKey. destruct (pk_closed m) eqn:Hcl; [done|]. case_bool_decide; [done|].
  destruct (rand_read 32 w) as [[salt|] w'] eqn:Es; [|done]. destruct (deriveWrappingKey m salt) as [wk|] eqn:Hd; [|done].
  destruct (deriveWrappingKey_inv _ _ _ Hd) as (Hk & Hvm & _). unfold newPasswordKMGCM, aes_key_size. rewrite Hk. cbn.
  destruct (rand_read 12 w') as [[nonce|] w''] eqn:En; [|done]. destruct (time_now w'') as [t w3]. intros. simplify_eq/=.
  apply rand_read_length in Es, En. pose proof (aead_seal_length nonce dek [] En : length (Seal (aes_gcm wk) _ _ _) = _) as Hsl.
  assert (Hlen : len (envelopePayload m1 salt nonce (Seal (aes_gcm wk) nonce dek [])) =
    len (kdfParamsBytes m1) + 5 + saltSize + nonceSize + len dek + tagSize).
  { unfold envelopePayload. rewrite !length_app, Hsl, length_be_encode, Es, En. cbn. unfold saltSize, nonceSize, tagSize. lia. }
  unfold saltSize, nonceSize, tagSize in *. split_and!; [done..|].
  intros m2 Hpw Hv. unfold unwrapPayload, minPayload. rewrite Hlen.
  rewrite (proj2 (Z.ltb_ge _ _)), (proj2 (Z.leb_le _ _)) by (unfold saltSize, nonceSize, tagSize; lia). unfold envelopePayload.
  rewrite take_app_length', be_decode_4 by (rewrite ?length_be_encode; unfold envelopeVersionMarker, MaxUint32; done). cbn [andb].
  rewrite Z.eqb_refl. destruct (deriveUnwrapKey_wrapping m1 m2 salt wk Hd Hpw Hv) as (params & e & Hdu & He & Hp).
  rewrite !(assoc_L (++) [_]), (assoc_L (++) (be_encode 4 _)).
  rewrite (tryUnwrapV2_payload m2 _ params e salt nonce wk dek); try done.
  - unfold saltSize; lia.
  - unfold nonceSize; lia.
  - apply Hp. rewrite !length_app, Hsl. unfold minPayload, saltSize, nonceSize, tagSize. lia.
Qed.

(** C19: keys wrapped under the password. Whatever parameters a manager writes
    with, an envelope it produces is unwrapped to the wrapped key, by this
    manager and by any other open one with the same password whose limits
    admit the parameters, for instance after a restart with another
    configuration; the managers themselves do not change. *)
Theorem password_keys_recovered dek md m w env m1 w1 :
  WrapKey dek md m w = (Ok env, m1, w1) →
  m1 = m ∧ len (env_Ciphertext env) = len (kdfParamsBytes m) + 5 + saltSize + nonceSize + len dek + tagSize ∧
  ∀ m2 md2 w2, pk_password m2 = pk_password m → pk_closed m2 = false →
    ValidateKDFParams (pk_params m) (pk_kdfLimits m2) = None →
    UnwrapKey (Some env) md2 m2 w2 = (Ok dek, m2, w2).
Proof using All.
  intros (-> & _ & Hpr & Hne & _ & Hlen & Hu)%(password_wrap_inv _ md). split; [done|]. split; [done|].
  intros m2 md2 w2 Hpw Hcl Hv. cbn. unfold password_UnwrapKey.
  by rewrite Hcl, bool_decide_eq_false_2, bool_decide_eq_true_2, Hu by done.
Qed.

(** Opening with a key of the right size. *)
Lemma openPasswordKMGCM_seal wk nonce p :
  len wk = aesKeySize → len nonce = nonceSize → openPasswordKMGCM wk nonce (Seal (aes_gcm wk) nonce p []) = Ok p.
Proof using All.
  intros Hk Hn. unfold openPasswordKMGCM, newPasswordKMGCM, aes_key_size. rewrite Hk. cbn. unfold gcm_open.
  rewrite aead_open_seal; [done|]. unfold nonceSize in Hn. lia.
Qed.

Lemma tryUnwrap_seal m salt nonce wk p iter :
  MinPBKDF2Iterations ≤ iter ≤ MaxPBKDF2Iterations → iter ≤ PBKDF2MaxIterations (pk_kdfLimits m) →
  pbkdf2_Key (pk_password m) salt iter aesKeySize = Ok wk → len nonce = nonceSize →
  tryUnwrap m salt nonce (Seal (aes_gcm wk) nonce p []) iter = Ok p.
Proof using All.
  intros Hi Hl Hk Hn. unfold tryUnwrap.
  rewrite (proj2 (ValidateKDFParams_spec (mkKDF KDFAlgPBKDF2SHA256 iter 0 0 0) _ ltac:(by left))) by done.
  rewrite Hk. cbn. apply openPasswordKMGCM_seal; [by eapply pbkdf2_length|done].
Qed.

(** Older envelopes stay readable. A payload of the layout with an
    iteration count in front opens to its key; so does one of the first
    layout, unless its random salt happens to start with the version marker
    or the bytes also authenticate as the other layout. *)
Theorem older_envelopes_open m md w env salt nonce wk dek iter :
  let sealed := Seal (aes_gcm wk) nonce dek [] in
  pk_closed m = false → env_Provider env = passwordKMProvider → len salt = saltSize → len nonce = nonceSize →
  MinPBKDF2Iterations ≤ iter ≤ MaxPBKDF2Iterations → iter ≤ PBKDF2MaxIterations (pk_kdfLimits m) →
  pbkdf2_Key (pk_password m) salt iter aesKeySize = Ok wk →
  (env_Ciphertext env = be_encode 4 iter ++ salt ++ nonce ++ sealed → UnwrapKey (Some env) md m w = (Ok dek, m, w)) ∧
  (iter = LegacyPBKDF2Iterations → env_Ciphertext env = salt ++ nonce ++ sealed →
   be_decode (take 4 salt) ≠ envelopeVersionMarker → (∀ p, tryPrefixed m (env_Ciphertext env) ≠ Some (Ok p)) →
   UnwrapKey (Some env) md m w = (Ok dek, m, w)).
Proof using All.
  intros sealed Hcl Hpr Hs Hn Hi Hl Hk.
  assert (Hsl : length sealed = (length dek + 16)%nat) by (apply aead_seal_length; unfold nonceSize in Hn; lia).
  assert (Hu : env_Ciphertext env ≠ [] → UnwrapKey (Some env) md m w = (unwrapPayload m (env_Ciphertext env), m, w)).
  { intros Hne. cbn. unfold password_UnwrapKey. by rewrite Hcl, bool_decide_eq_false_2, bool_decide_eq_true_2. }
  assert (Hne : salt ≠ []) by (intros ->; unfold saltSize in *; done).
  pose proof (tryUnwrap_seal m salt nonce wk dek iter Hi Hl Hk Hn) as Ht. fold sealed in Ht.
  split; intros E.
  - rewrite Hu by (rewrite E; by destruct (be_encode 4 iter), salt). do 2 f_equal. rewrite E.
    assert (Hd : be_decode (take 4 (be_encode 4 iter ++ salt ++ nonce ++ sealed)) = iter).
    { rewrite take_app_length', be_decode_4; [done| |by rewrite length_be_encode]. kdf_consts. unfold MaxUint32. lia. }
    unfold unwrapPayload, tryPrefixed. rewrite Hd. kdf_consts. unfold minPayload, envelopeVersionMarker.
    rewrite (proj2 (Z.ltb_ge _ _)) by (rewrite !length_app, length_be_encode, Hsl; unfold saltSize, nonceSize, tagSize in *; lia).
    rewrite (proj2 (Z.eqb_neq iter 1)), andb_false_r by lia.
    rewrite !(proj2 (Z.leb_le _ _)) by (rewrite ?length_app, ?length_be_encode, ?Hsl; unfold saltSize, nonceSize, tagSize in *; lia).
    cbn [andb]. rewrite (bslice_app (be_encode 4 iter) salt) by (rewrite ?length_be_encode; lia).
    rewrite (assoc_L (++) (be_encode 4 iter)), (bslice_app (be_encode 4 iter ++ salt) nonce)
      by (rewrite ?length_app, ?length_be_encode; lia).
    rewrite (assoc_L (++) _ nonce), drop_app_at by (rewrite !length_app, length_be_encode; lia). by rewrite Ht.
  - intros E2 Hm Hv1. subst iter. rewrite Hu by (rewrite E2; by destruct salt). do 2 f_equal.
    unfold unwrapPayload. rewrite (proj2 (Z.ltb_ge _ _))
      by (rewrite E2, !length_app, Hsl; unfold minPayload, saltSize, nonceSize, tagSize in *; lia).
    replace (take 4 (env_Ciphertext env)) with (take 4 salt) by (rewrite E2, take_app_le; [done|unfold saltSize in *; lia]).
    rewrite (proj2 (Z.eqb_neq _ _) Hm), andb_false_r.
    assert (Hleg : tryLegacy m (env_Ciphertext env) = Ok dek).
    { unfold tryLegacy. rewrite E2. rewrite (bslice_app salt nonce) by lia. rewrite take_app_length' by lia.
      by rewrite (assoc_L (++) salt), drop_app_at by (rewrite length_app; lia). }
    rewrite Hleg. destruct (tryPrefixed m (env_Ciphertext env)) as [[p|]|]; [by destruct (Hv1 p)|done..].
Qed.

(** The contract of a key manager. *)
#[export] Program Instance password_spec : KeyManagerSpec passwordKeyManager := {|
  km_inv _ := True;
  km_holds m env p := pk_closed m = true ∨
    env_Ciphertext env ≠ [] ∧ env_Provider env = passwordKMProvider ∧ unwrapPayload m (env_Ciphertext env) = Ok p |}.
Next Obligation.
  intros dek md m w r m' w' _ _ Hw.
  assert (m' = m) as -> by (cbn in Hw; unfold password_WrapKey in Hw; repeat case_match; simplify_eq; done).
  split_and!; [done| |done]. intros env ->. right.
  apply (password_wrap_inv _ md) in Hw as (_ & _ & Hpr & Hne & Hv & _ & Hu). auto.
Qed.
Next Obligation.
  intros oenv md m w r m' w' _ Hu. cbn in Hu. unfold password_UnwrapKey in Hu.
  assert (m' = m) as -> by (repeat case_match; simplify_eq; done). split_and!; [done..|].
  intros env p -> [Hcl|(Hne & Hpr & Hp)].
  - rewrite Hcl in Hu. simplify_eq. right. by eexists.
  - destruct (pk_closed m); [simplify_eq; right; by eexists|].
    rewrite bool_decide_eq_false_2, bool_decide_eq_true_2 in Hu by done. simplify_eq/=. by left.
Qed.
Next Obligation. intros m w r m' w' _ Hr. cbn in Hr. unfold password_ActiveKeyVersion in Hr. by simplify_eq. Qed.
Next Obligation. intros m w r m' w' _ Hr. cbn in Hr. unfold password_HealthCheck in Hr. by simplify_eq. Qed.
End password_spec.

(** ** The cost of a hostile envelope *)

(** Two implementations that agree on every derivation within the limits. *)
Definition kdf_agree (k1 k2 : PasswordKDF) (l : KDFLimits) : Prop :=
  (∀ pw salt iter, MinPBKDF2Iterations ≤ iter ≤ MaxPBKDF2Iterations → iter ≤ PBKDF2MaxIterations l →
     @pbkdf2_Key k1 pw salt iter aesKeySize = @pbkdf2_Key k2 pw salt iter aesKeySize) ∧
  (∀ pw salt t m th, kdf_bounded (mkKDF KDFAlgArgon2id 0 t m th) → kdf_within (mkKDF KDFAlgArgon2id 0 t m th) l →
     kdf_within (mkKDF KDFAlgArgon2id 0 t m th) DefaultKDFLimits →
     @argon2_IDKey k1 pw salt t m th aesKeySize = @argon2_IDKey k2 pw salt t m th aesKeySize).

Section cost.
Context `{BuildTags, Ciphers} (k1 k2 : PasswordKDF) (m : passwordKeyManager).
Hypothesis Hagree : kdf_agree k1 k2 (pk_kdfLimits m).

Lemma tryUnwrap_agree salt nonce sealed iter :
  @tryUnwrap k1 _ m salt nonce sealed iter = @tryUnwrap k2 _ m salt nonce sealed iter.
Proof using Hagree.
  unfold tryUnwrap. destruct (ValidateKDFParams _ _) eqn:Hv; [done|].
  apply ValidateKDFParams_pbkdf2 in Hv as [Hv Hb]. pose proof (proj1 (ValidateKDFParams_spec _ _ Hb) Hv) as Hw.
  destruct Hb as [(_ & Hb & _)|[? _]]; [|done]. by rewrite (proj1 Hagree).
Qed.

Lemma deriveUnwrapKey_agree salt params :
  @deriveUnwrapKey k1 _ m salt params = @deriveUnwrapKey k2 _ m salt params.
Proof using Hagree.
  unfold deriveUnwrapKey. destruct (ValidateKDFParams _ _) eqn:Hv; [done|]. destruct params as [a i t mem th].
  cbn [kp_Algorithm Iterations kp_Time kp_Memory kp_Threads] in *. case_decide as Ha.
  - subst. apply ValidateKDFParams_argon2 in Hv as [Hv Hb]. unfold deriveKeyArgon2id. destruct tag_fips; [done|].
    destruct (ValidateKDFParams _ DefaultKDFLimits) eqn:Hd; [done|]. f_equal.
    apply (proj2 Hagree); [done|by apply ValidateKDFParams_spec..].
  - assert (a = KDFAlgPBKDF2SHA256) as -> by (unfold ValidateKDFParams in Hv; cbn in Hv; by repeat case_decide).
    apply ValidateKDFParams_pbkdf2 in Hv as [Hv Hb]. pose proof (proj1 (ValidateKDFParams_spec _ _ Hb) Hv) as Hw.
    destruct Hb as [(_ & Hb & _)|[? _]]; [|done]. by rewrite (proj1 Hagree).
Qed.

(** The cost of an envelope is bounded. Whatever bytes an envelope holds,
    the outcome of unwrapping depends only on derivations inside the hard
    bounds and the configured limits: replacing the derivation functions by
    ones that differ anywhere else changes nothing, so no stored value makes
    the gateway start a derivation beyond its limits. *)
Theorem password_cost_bounded envelope md w :
  @password_UnwrapKey k1 _ _ envelope md m w = @password_UnwrapKey k2 _ _ envelope md m w.
Proof using Hagree.
  unfold password_UnwrapKey. destruct (pk_closed m), envelope as [env|]; try done.
  repeat (case_match; [done|]). do 2 f_equal. unfold unwrapPayload, tryPrefixed, tryLegacy, tryUnwrapV2.
  rewrite !tryUnwrap_agree. destruct (parseEnvelopeParams _) as [[params e]|]; cbn; [|done].
  by rewrite deriveUnwrapKey_agree.
Qed.
End cost.

(** ** The theorems at concrete inputs *)

Module PasswordWitness.
Definition toy_pbkdf2 (pw salt : list byte) (iter n : Z) : result (list byte) :=
  Ok (resize (Z.to_nat n) x00 (be_encode 8 (Toy.checksum (pw ++ salt) + iter))).
Definition toy_argon2 (pw salt : list byte) (t m th n : Z) : list byte :=
  resize (Z.to_nat n) x01 (be_encode 8 (Toy.checksum (pw ++ salt) + t + m + th)).
#[export] Instance toy_kdf : PasswordKDF := {| pbkdf2_Key := toy_pbkdf2; argon2_IDKey := toy_argon2 |}.
#[export] Instance toy_kdf_laws : PasswordKDFLaws.
Proof.
  split.
  - intros pw salt iter n key Hn [= <-]. rewrite length_resize. lia.
  - intros. cbn. unfold toy_argon2. rewrite length_resize. lia.
Qed.
#[export] Instance toy_tags : BuildTags := {| tag_fips := false |}.

Definition password : list byte := bytes_of_string "correct horse".
Definition writer : passwordKeyManager :=
  mkPassword password 600000 KDFAlgArgon2id 3 4096 2 None DefaultKDFLimits false.
Definition reader : passwordKeyManager :=
  mkPassword password 200000 KDFAlgPBKDF2SHA256 0 0 0 None (mkLimits 200000 3 4096 2) false.
Definition world : World := mkWorld 7 [] [Ok [x05; x06]; Ok [x07]] [].
Definition dek : list byte := replicate 32 x2a.
Definition salt : list byte := replicate 32 x07.
Definition nonce : list byte := replicate 12 x09.
Definition wk (iter : Z) : list byte := resize 32 x00 (be_encode 8 (Toy.checksum (password ++ salt) + iter)).
Definition old_env : KeyEnvelope :=
  mkEnvelope "" 1 passwordKMProvider (salt ++ nonce ++ Toy.seal (wk 100000) nonce dek []) 0.
(** A derivation that hangs, modelled as an error, beyond the limits. *)
Definition bounded_kdf : PasswordKDF := {|
  pbkdf2_Key pw salt iter n := if iter <=? 200000 then toy_pbkdf2 pw salt iter n else Err (Errorf "hangs");
  argon2_IDKey pw salt t m th n := if m <=? 4096 then toy_argon2 pw salt t m th n else [] |}.
End PasswordWitness.

Section witnesses.
Import ToyInstances PasswordWitness.

Lemma writer_configured :
  NewPasswordKeyManager password [WithPasswordKMArgon2id 3 4096 2; WithPasswordKMKDFLimits DefaultKDFLimits] = Ok writer.
Proof. vm_compute. reflexivity. Qed.

Lemma password_keys_recovered_witness : ∃ env w1,
  WrapKey dek [] writer world = (Ok env, writer, w1) ∧ len (env_Ciphertext env) = 106 ∧
  UnwrapKey (Some env) [] reader world = (Ok dek, reader, world).
Proof.
  eexists _, _. split; [vm_compute; reflexivity|].
  edestruct (password_keys_recovered dek [] writer world) as (_ & Hl & Hu); [vm_compute; reflexivity|].
  split; [exact Hl|]. apply Hu; vm_compute; reflexivity.
Defined.

Lemma older_envelopes_open_witness : UnwrapKey (Some old_env) [] reader world = (Ok dek, reader, world).
Proof.
  apply (older_envelopes_open reader [] world old_env salt nonce (wk 100000) dek 100000);
    try (vm_compute; reflexivity || discriminate).
  split; vm_compute; discriminate.
Defined.

Lemma password_cost_bounded_witness :
  @password_UnwrapKey toy_kdf _ _ (Some old_env) [] reader world =
  @password_UnwrapKey bounded_kdf _ _ (Some old_env) [] reader world.
Proof.
  apply (password_cost_bounded toy_kdf bounded_kdf reader). split.
  - intros pw salt iter _ Hl. cbn in *. by rewrite (proj2 (Z.leb_le _ _)) by lia.
  - intros pw salt t m th _ Hl _. unfold kdf_within in Hl. rewrite decide_False in Hl by done. cbn in *.
    by rewrite (proj2 (Z.leb_le _ _)) by lia.
Defined.
End witnesses.
