(* ===== verification/MPUState.v ===== *)
(** * The state of multipart uploads in flight

    [internal/mpu/state.go]: one hash per upload in Valkey, changed only by
    Lua scripts, which the server runs one at a time. The scripts are
    functions on the hash; the Go operations read the hash, build the new
    metadata blob, run a script and retry when the revision has moved on.

    Part fields are kept decoded: their JSON is written and read by the
    scripts' [cjson], whose numbers are exact below 2^53. *)
From S2P Require Import Prelude GoStd Primitives KeyManager MemoryKeyManager.
Local Open Scope Z_scope.

(** ** Data *)

Definition ErrUploadNotFound : error := Sentinel "mpu: upload not found".
Definition ErrUploadAlreadyExists : error := Sentinel "mpu: upload already exists".
Definition ErrStateUnavailable : error := Sentinel "mpu: state store unavailable".
Definition ErrStateDecryptFailed : error := Sentinel "mpu: state decrypt failed".
Definition ErrPartContentMismatch : error := Sentinel "mpu: part content differs from immutable claim".
Definition ErrPartInProgress : error := Sentinel "mpu: part reservation is in progress".
Definition ErrInvalidStateVersion : error := Sentinel "mpu: unsupported in-flight state version".
Definition ErrInvalidPhase : error := Sentinel "mpu: upload is not open".
Definition ErrRevisionConflict : error := Sentinel "mpu: state revision changed".
Definition ErrCompleteMismatch : error := Sentinel "mpu: selected parts or etags do not match committed state".

Definition CurrentStateVersion : Z := 2.

(** [UploadPhase] and [PartStatus] are string types. *)
Definition UploadPhaseOpen : string := "open".
Definition UploadPhaseCompleting : string := "completing".
Definition UploadPhaseCompleted : string := "completed".
Definition UploadPhaseAborting : string := "aborting".
Definition UploadPhaseAborted : string := "aborted".
Definition PartStatusReserved : string := "reserved".
Definition PartStatusCommitted : string := "committed".

Record PartRecord := mkPartRecord {
  pr_PartNumber : Z; pr_ETag : string; pr_PlainLen : Z; pr_EncLen : Z; pr_ChunkCount : Z; pr_Claim : string;
  pr_Status : string; pr_Token : string; pr_LeaseUntilUnixMilli : Z }.

Record PartClaim := mkPartClaim {
  pc_PartNumber : Z; pc_Claim : string; pc_PlainLen : Z; pc_Status : string; pc_Token : string; pc_ETag : string;
  pc_EncLen : Z; pc_ChunkCount : Z }.

Record Reservation := mkReservation {
  rv_Token : string; rv_Revision : Z; rv_CommittedETag : string; rv_AlreadyDone : bool;
  rv_LeaseUntilUnixMilli : Z; rv_Reacquired : bool }.

Record SelectedPart := mkSelected { sp_PartNumber : Z; sp_ETag : string }.

(** The fields of [UploadState] that are set when the upload is created, and
    the whole state. *)
Record UploadCore := mkUploadCore {
  uc_UploadID : string; uc_Bucket : string; uc_Key : string; uc_BindingID : string; uc_UploadIDHash : string;
  uc_WrappedDEK : string; uc_IVPrefixHex : string; uc_Algorithm : string; uc_ChunkSize : Z; uc_KMSKeyID : string;
  uc_KMSProvider : string; uc_KMSKeyVersion : Z; uc_EncryptMultipartUploads : bool; uc_CreatedAt : Z }.
Record UploadState := mkUploadState {
  us_core : UploadCore; us_Parts : list PartRecord; us_StateVersion : Z; us_Phase : string; us_Revision : Z }.

#[export] Instance UploadCore_eq_dec : EqDecision UploadCore.
Proof. solve_decision. Defined.
#[export] Instance PartRecord_eq_dec : EqDecision PartRecord.
Proof. solve_decision. Defined.
#[export] Instance UploadState_eq_dec : EqDecision UploadState.
Proof. solve_decision. Defined.

(** The 16 bytes of the binding, [None] for an upload without one. *)
Definition BindingIDBytes (c : UploadCore) : result (option (list byte)) :=
  if decide (uc_BindingID c = "") then Ok None
  else match DecodeString url_alphabet false (uc_BindingID c) with
       | None => Err (Errorf "mpu: invalid binding ID")
       | Some b =>
           if negb (len b =? 16) then Err (Errorf "mpu: invalid binding ID")
           else if bool_decide (b = replicate 16 x00) then Err (Errorf "mpu: zero binding ID")
           else Ok (Some b)
       end.

Definition ValidateEncryptedCryptoMaterial (s : option UploadState) : option error :=
  match s with
  | Some st =>
      if negb (uc_EncryptMultipartUploads (us_core st)) then
        Some (Errorf "mpu: plaintext routing record cannot be used for crypto operations")
      else if bool_decide (uc_WrappedDEK (us_core st) = "") || bool_decide (uc_IVPrefixHex (us_core st) = "") then
        Some (Errorf "mpu: encrypted state is missing crypto material")
      else None
  | None => Some (Errorf "mpu: plaintext routing record cannot be used for crypto operations")
  end.

(** ** The hash of an upload *)

(** A part field, with the members its JSON object has. *)
Record partField := mkPartField {
  pf_pn : Z; pf_claim : string; pf_plain_len : Z; pf_status : string; pf_token : string;
  pf_etag : option string; pf_enc_len : option Z; pf_chunks : option Z; pf_lease_until_ms : option Z }.

Record Hash := mkHash {
  h_meta : option (list byte); h_state_version : option string; h_phase : option string; h_revision : option Z;
  h_parts : gmap Z partField }.

(** The hash at the upload's key; [None] when the key does not exist. *)
Abbreviation db := (option Hash).

Definition hget {A} (f : Hash → option A) (d : db) : option A := d ≫= f.
Definition hget_part (pn : Z) (d : db) : option partField := h ← d; h_parts h !! pn.
Definition revision_of (d : db) : Z := default 0 (hget h_revision d).

(** [HSET] of the given fields; creates the hash when it is not there. *)
Definition hset (meta : list byte) (version phase : option string) (rev : Z) (parts : gmap Z partField) : Hash :=
  mkHash (Some meta) version phase (Some rev) parts.

(** A value of a script's reply. *)
Inductive rval := RInt (z : Z) | RStr (s : string) | RPart (p : partField).

Definition redisInt (v : rval) : option Z :=
  match v with RInt z => Some z | RStr s => ParseInt s | RPart _ => None end.

(** ** The scripts

    [nowms] is the server's [TIME] in milliseconds. *)

Definition createStateScript (meta : list byte) (d : db) : rval * db :=
  match d with
  | Some _ => (RInt 0, d)
  | None => (RInt 1, Some (hset meta (Some "2") (Some "open") 1 ∅))
  end.

Definition reservePartScript (nowms pn : Z) (claim : string) (plainLen : Z) (token : string) (rev leaseMs : Z)
    (meta : list byte) (d : db) : list rval * db :=
  match d with
  | Some (mkHash (Some _) version phase revision parts) =>
      if negb (bool_decide (version = Some "2")) then ([RInt 1], d)
      else if negb (bool_decide (phase = Some "open")) then ([RInt 2], d)
      else if negb (default 0 revision =? rev) then ([RInt 7], d)
      else
        let current := parts !! pn in
        let grant (code : Z) :=
          let revision' := default 1 revision + 1 in
          let lease := nowms + leaseMs in
          let value := mkPartField pn claim plainLen "reserved" token None None None (Some lease) in
          ([RInt code; RInt revision'; RInt lease], Some (hset meta version phase revision' (<[pn := value]> parts))) in
        match current with
        | Some p =>
            if negb (bool_decide (pf_claim p = claim)) then ([RInt 3], d)
            else if bool_decide (pf_status p = "reserved") &&
                    match pf_lease_until_ms p with None => true | Some l => nowms <? l end then ([RInt 4], d)
            else if bool_decide (pf_status p = "committed") then ([RInt 5; RStr (default "" (pf_etag p))], d)
            else grant 8
        | None => grant 6
        end
  | _ => ([RInt 0], d)
  end.

Definition renewPartScript (nowms pn : Z) (token : string) (rev leaseMs : Z) (d : db) : rval * db :=
  match d with
  | Some (mkHash meta version phase revision parts) =>
      if negb (bool_decide (version = Some "2")) then (RInt 3, d)
      else if negb (bool_decide (phase = Some "open")) then (RInt 4, d)
      else if negb (default 0 revision =? rev) then (RInt 5, d)
      else match parts !! pn with
           | None => (RInt 0, d)
           | Some p =>
               if negb (bool_decide (pf_status p = "reserved")) || negb (bool_decide (pf_token p = token)) then (RInt 2, d)
               else (RInt 1, Some (mkHash meta version phase revision
                       (<[pn := mkPartField (pf_pn p) (pf_claim p) (pf_plain_len p) (pf_status p) (pf_token p) (pf_etag p)
                                  (pf_enc_len p) (pf_chunks p) (Some (nowms + leaseMs))]> parts)))
           end
  | None => (RInt 3, d)
  end.

Definition commitPartScript (pn : Z) (claim token : string) (plainLen : Z) (etag : string) (encLen chunks rev : Z)
    (meta : list byte) (d : db) : rval * db :=
  match d with
  | Some (mkHash (Some _) version phase revision parts) =>
      if negb (bool_decide (version = Some "2")) then (RInt 3, d)
      else if negb (bool_decide (phase = Some "open")) then (RInt 4, d)
      else if negb (default 0 revision =? rev) then (RInt 5, d)
      else match parts !! pn with
           | None => (RInt 0, d)
           | Some p =>
               if negb (bool_decide (pf_claim p = claim)) || negb (bool_decide (pf_token p = token)) then (RInt 2, d)
               else if bool_decide (pf_status p = "committed") then
                 if negb (pf_plain_len p =? plainLen) || negb (bool_decide (pf_etag p = Some etag)) ||
                    negb (bool_decide (pf_enc_len p = Some encLen)) || negb (bool_decide (pf_chunks p = Some chunks))
                 then (RInt 2, d) else (RInt 1, d)
               else if negb (bool_decide (pf_status p = "reserved")) then (RInt 2, d)
               else
                 let value := mkPartField pn claim plainLen "committed" token (Some etag) (Some encLen) (Some chunks) None in
                 (RInt 1, Some (hset meta version phase (default 1 revision + 1) (<[pn := value]> parts)))
           end
  | _ => (RInt 0, d)
  end.

Definition releasePartScript (pn : Z) (token : string) (rev : Z) (meta : list byte) (d : db) : rval * db :=
  match d with
  | Some (mkHash _ version phase revision parts) =>
      if negb (bool_decide (version = Some "2")) then (RInt 3, d)
      else if negb (bool_decide (phase = Some "open")) then (RInt 4, d)
      else if negb (default 0 revision =? rev) then (RInt 5, d)
      else match parts !! pn with
           | None => (RInt 0, d)
           | Some p =>
               if negb (bool_decide (pf_status p = "reserved")) || negb (bool_decide (pf_token p = token)) then (RInt 2, d)
               else (RInt 1, Some (hset meta version phase (rev + 1) (delete pn parts)))
           end
  | None => (RInt 3, d)
  end.

Definition atomicLifecycleScript (from : string) (rev : Z) (to : string) (meta : list byte) (allow : string) (d : db)
    : rval * db :=
  match d with
  | Some (mkHash (Some _) version phase revision parts) =>
      let legacy := bool_decide (allow = "allow_legacy_abort") in
      let done := (RInt 4, Some (hset meta (Some "2") (Some to) (rev + 1) parts)) in
      if negb (bool_decide (version = Some "2")) && negb legacy then (RInt 1, d)
      else if legacy && bool_decide (phase = None) && bool_decide (revision = None) then
        if negb (bool_decide (from = "open")) || negb (rev =? 0) then (RInt 3, d) else done
      else if negb (bool_decide (phase = Some from)) then (RInt 2, d)
      else if negb (default 0 revision =? rev) then (RInt 3, d)
      else done
  | _ => (RInt 0, d)
  end.

(** The scripts' [string.gsub], which removes one pair of surrounding quotes. *)
Definition dquote : byte := x22.
Definition stripQuotes (s : string) : string :=
  let l := bytes_of_string s in
  if (2 <=? len l) && bool_decide (head l = Some dquote) && bool_decide (last l = Some dquote)
  then string_of_bytes (take (length l - 2) (drop 1 l)) else s.

(** The loop over the selected parts. *)
Fixpoint selectParts (parts : gmap Z partField) (previous : Z) (selected : list SelectedPart) : option (list partField) :=
  match selected with
  | [] => Some []
  | sp :: rest =>
      let pn := sp_PartNumber sp in
      if (pn <? 1) || (10000 <? pn) || (pn <=? previous) then None
      else match parts !! pn with
           | None => None
           | Some p =>
               if negb (bool_decide (pf_status p = "committed")) then None
               else if negb (bool_decide (stripQuotes (default "" (pf_etag p)) = stripQuotes (sp_ETag sp))) then None
               else out ← selectParts parts pn rest; Some (p :: out)
           end
  end.

Definition beginCompleteScript (rev : Z) (selected : list SelectedPart) (meta : list byte) (d : db) : list rval * db :=
  match d with
  | Some (mkHash (Some _) version phase revision parts) =>
      if negb (bool_decide (version = Some "2")) then ([RInt 1], d)
      else if negb (bool_decide (phase = Some "open")) then ([RInt 2], d)
      else if negb (default 0 revision =? rev) then ([RInt 3], d)
      else match selectParts parts 0 selected with
           | None => ([RInt 5], d)
           | Some out =>
               (RInt 4 :: (RPart <$> out), Some (hset meta version (Some "completing") (rev + 1) parts))
           end
  | _ => ([RInt 0], d)
  end.

(** ** The store *)

(** [encoding/json] on [UploadState]. *)
Class StateJSON := { state_marshal : UploadState → list byte; state_unmarshal : list byte → result UploadState }.

(** Text that JSON carries unchanged. *)
Definition ascii (s : string) : bool := forallb (λ b, byte_val b <? 128) (bytes_of_string s).
Definition json_safe (c : UploadCore) : bool :=
  forallb ascii [uc_UploadID c; uc_Bucket c; uc_Key c; uc_BindingID c; uc_UploadIDHash c; uc_WrappedDEK c;
                 uc_IVPrefixHex c; uc_Algorithm c; uc_KMSKeyID c; uc_KMSProvider c].
Class StateJSONLaws `{StateJSON} : Prop := {
  state_roundtrip : ∀ st, json_safe (us_core st) = true → ascii (us_Phase st) = true → us_Parts st = [] →
    state_unmarshal (state_marshal st) = Ok st }.

Record ValkeyStateStore := mkStore {
  ss_reservationLease : Z; ss_stateDEK : option (list byte); ss_stateKeyV1 : option (list byte);
  ss_encryptState : bool; ss_allowLegacyPlaintext : bool }.

Definition millisecond : Z := 1000000.
Definition leaseDuration (s : ValkeyStateStore) : Z :=
  if ss_reservationLease s <=? 0 then 120000 * millisecond else ss_reservationLease s.
(** [int(s.leaseDuration()/time.Millisecond)]. *)
Definition leaseMillis (s : ValkeyStateStore) : Z := Z.quot (leaseDuration s) millisecond.

Definition stateEncryptionVersionV1 : byte := x01.

Section store.
Context `{Ciphers, StateJSON, MapOrder} (s : ValkeyStateStore).

Definition state_gcm (key : list byte) : result AEAD :=
  if aes_key_size key then Ok (aes_gcm key) else Err (Errorf "mpu: aes new cipher: %w").

Definition EncryptState (plaintext : list byte) (w : World) : result (list byte) * World :=
  match state_gcm (default [] (ss_stateDEK s)) with
  | Err e => (Err e, w)
  | Ok gcm =>
      match rand_read 12 w with
      | (Err e, w) => (Err (Wrapf "mpu: random nonce: %w" e), w)
      | (Ok nonce, w) => (Ok (stateEncryptionVersionV1 :: nonce ++ Seal gcm nonce plaintext []), w)
      end
  end.

Definition tryOpen (key ciphertext : list byte) : result (list byte) :=
  gcm ← state_gcm key;
  match Open gcm (take 12 (drop 1 ciphertext)) (drop 13 ciphertext) [] with
  | Some p => Ok p
  | None => Err (Wrapf "%w: %v" ErrStateDecryptFailed)
  end.

Definition DecryptState (ciphertext : list byte) : result (list byte) :=
  if len ciphertext <? 29 then Err (Wrapf "%w: ciphertext too short (%d bytes, need >= %d)" ErrStateDecryptFailed)
  else if negb (bool_decide (head ciphertext = Some stateEncryptionVersionV1)) then
    Err (Wrapf "%w: unknown version byte 0x%02x" ErrStateDecryptFailed)
  else
    let attempt (key : option (list byte)) := match key with Some k => tryOpen k ciphertext | None => Err ErrStateDecryptFailed end in
    match attempt (ss_stateDEK s) with
    | Ok pt => Ok pt
    | Err _ => match attempt (ss_stateKeyV1 s) with
               | Ok pt => Ok pt
               | Err _ => Err (Wrapf "%w: aead open failed for all configured keys" ErrStateDecryptFailed)
               end
    end.

Definition part_record (p : partField) : PartRecord :=
  mkPartRecord (pf_pn p) (default "" (pf_etag p)) (pf_plain_len p) (default 0 (pf_enc_len p)) (default 0 (pf_chunks p))
    (pf_claim p) (pf_status p) (pf_token p) (default 0 (pf_lease_until_ms p)).

(** The metadata blob opened, the mirrored control fields compared with it,
    and the part fields collected in the order the runtime iterates over them. *)
Definition openMeta (raw : list byte) : result (list byte) :=
  if ss_encryptState s then
    match DecryptState raw with
    | Ok pt => Ok pt
    | Err e => if ss_allowLegacyPlaintext s then Ok raw else Err (Wrapf "%w: state decryption failed for upload %q" e)
    end
  else Ok raw.

Definition checkMirrors (st : UploadState) (h : Hash) : result unit :=
  _ ← (if (us_StateVersion st =? CurrentStateVersion) && bool_decide (default "" (h_state_version h) ≠ "") &&
          bool_decide (default "" (h_phase h) ≠ "") && bool_decide (is_Some (h_revision h)) then
         match ParseUint (default "" (h_state_version h)) with
         | Some v => if (v <? 256) && (v =? us_StateVersion st) then Ok tt
                     else Err (Wrapf "mpu: state version mirror mismatch: %w" ErrInvalidStateVersion)
         | None => Err (Wrapf "mpu: state version mirror mismatch: %w" ErrInvalidStateVersion)
         end
       else Ok tt);
  _ ← (if bool_decide (us_Phase st ≠ "") && negb (bool_decide (h_phase h = Some (us_Phase st)))
       then Err (Wrapf "mpu: state phase mirror mismatch: %w" ErrInvalidPhase) else Ok tt);
  if negb (us_Revision st =? 0) && negb (bool_decide (h_revision h = Some (us_Revision st)))
  then Err (Wrapf "mpu: state revision mirror mismatch: %w" ErrRevisionConflict) else Ok tt.

Definition store_Get (d : db) : result UploadState :=
  match d with
  | None => Err ErrUploadNotFound
  | Some h =>
      match h_meta h with
      | None => Err (Errorf "mpu: state record for %q missing meta field")
      | Some metaRaw =>
          metaBytes ← openMeta metaRaw;
          match state_unmarshal metaBytes with
          | Err e => Err (Wrapf "mpu: unmarshal state: %w" e)
          | Ok st =>
              _ ← (if uc_EncryptMultipartUploads (us_core st) then
                     match BindingIDBytes (us_core st) with Ok _ => Ok tt | Err e => Err e end else Ok tt);
              _ ← checkMirrors st h;
              let found := omap (λ pn, part_record <$> h_parts h !! pn) (map_order (map_to_list (h_parts h)).*1) in
              Ok (mkUploadState (us_core st) (us_Parts st ++ found) (us_StateVersion st) (us_Phase st) (us_Revision st))
          end
      end
  end.

(** The blob a script stores. *)
Definition sealMeta (st : UploadState) (w : World) : result (list byte) * World :=
  let meta := state_marshal st in
  if ss_encryptState s then EncryptState meta w else (Ok meta, w).

Definition controlMeta (st : UploadState) (phase : string) (revision : Z) (w : World) : result (list byte) * World :=
  sealMeta (mkUploadState (us_core st) [] CurrentStateVersion phase revision) w.

(** *** Accesses to the server

    What happens at one access: first the other clients of the server run,
    then the call is made at the given server time, and it may fail before or
    after the server has executed it. *)
Record access := mkAccess {
  ac_others : db → db; ac_time : Z; ac_fault : option bool; ac_ctx : option ctxError }.

(** [wrapRedisErr] of a connection error. *)
Definition errRedis : error := Wrapf "%w: %v" ErrStateUnavailable.

Definition redis_run {A} (a : access) (script : Z → db → A * db) (d : db) : result A * db :=
  let d := ac_others a d in
  match ac_fault a with
  | Some false => (Err errRedis, d)
  | Some true => (Err errRedis, (script (ac_time a) d).2)
  | None => let '(r, d') := script (ac_time a) d in (Ok r, d')
  end.

(** [HGETALL] and the checks of [Get]. *)
Definition redis_get (a : access) (d : db) : result UploadState * db :=
  let '(r, d') := redis_run a (λ _ d, (store_Get d, d)) d in (r ≫= id, d').

Definition Create (st : UploadState) (a : access) (d : db) (w : World) : option error * db * World :=
  let binding := if uc_EncryptMultipartUploads (us_core st) then
                   match BindingIDBytes (us_core st) with Ok _ => None | Err e => Some e end else None in
  match binding with
  | Some e => (Some e, d, w)
  | None =>
      match sealMeta (mkUploadState (us_core st) (us_Parts st) CurrentStateVersion UploadPhaseOpen 1) w with
      | (Err e, w) => (Some (Wrapf "mpu: encrypt state: %w" e), d, w)
      | (Ok meta, w) =>
          match redis_run a (λ _, createStateScript meta) d with
          | (Err e, d) => (Some e, d, w)
          | (Ok r, d) =>
              (match redisInt r with
               | None => Some (Errorf "mpu: malformed create result")
               | Some created => if created =? 1 then None else Some ErrUploadAlreadyExists
               end, d, w)
          end
      end
  end.

(** The reply of the reserve script; [None] is the retry. *)
Definition reserveReply (part : PartClaim) (values : list rval) : option (result Reservation) :=
  let granted (rest : list rval) (reacquired : bool) :=
    match rest with
    | [] => Err (Errorf "mpu: malformed reserve revision")
    | v :: rest =>
        match redisInt v with
        | Some revision =>
            if revision <? 0 then Err (Errorf "mpu: invalid reserve revision")
            else
              let lease := match rest with v :: _ => default 0 (redisInt v) | [] => 0 end in
              Ok (mkReservation (pc_Token part) revision "" false lease reacquired)
        | None => Err (Errorf "mpu: malformed reserve revision")
        end
    end in
  match values with
  | [] => Some (Err (Errorf "mpu: malformed reserve result"))
  | v :: rest =>
      match redisInt v with
      | None => Some (Err (Errorf "mpu: malformed reserve code"))
      | Some code =>
          if code =? 0 then Some (Err ErrUploadNotFound)
          else if code =? 1 then Some (Err ErrInvalidStateVersion)
          else if code =? 2 then Some (Err ErrInvalidPhase)
          else if code =? 3 then Some (Err ErrPartContentMismatch)
          else if code =? 4 then Some (Err ErrPartInProgress)
          else if code =? 5 then
            Some (Ok (mkReservation "" 0 (match rest with RStr etag :: _ => etag | _ => "" end) true 0 false))
          else if code =? 6 then Some (granted rest false)
          else if code =? 8 then Some (granted rest true)
          else if code =? 7 then None
          else Some (Err (Errorf "mpu: unknown reserve result %d"))
      end
  end.

Definition invalidClaim (part : PartClaim) : bool :=
  (pc_PartNumber part <? 1) || (10000 <? pc_PartNumber part) || bool_decide (pc_Claim part = "") ||
  bool_decide (pc_Token part = "").

(** The loop shared by the operations that retry: read the state, build the
    blob, run the script, and go round again when the revision has changed.
    The [i]-th attempt makes the accesses [2 * i] and [2 * i + 1]. *)
Definition with_state {A} (net : nat → access) (i : nat) (phase : string) (poll : bool)
    (script : UploadState → list byte → Z → db → A * db) (d : db) (w : World) : result A * db * World :=
  match (if poll then ac_ctx (net (2 * i)%nat) else None) with
  | Some c => (Err (ctx_error c), d, w)
  | None =>
      match redis_get (net (2 * i)%nat) d with
      | (Err e, d) => (Err e, d, w)
      | (Ok st, d) =>
          match controlMeta st phase (wrap_u64 (us_Revision st + 1)) w with
          | (Err e, w) => (Err e, d, w)
          | (Ok meta, w) => let '(r, d) := redis_run (net (2 * i + 1)%nat) (script st meta) d in (r, d, w)
          end
      end
  end.

Fixpoint retry_loop {A B} (attempts i : nat) (attempt : nat → db → World → result A * db * World)
    (reply : A → option (result B)) (d : db) (w : World) : result B * db * World :=
  match attempts with
  | O => (Err ErrRevisionConflict, d, w)
  | S n =>
      match attempt i d w with
      | (Err e, d, w) => (Err e, d, w)
      | (Ok a, d, w) =>
          match reply a with
          | Some r => (r, d, w)
          | None => retry_loop n (S i) attempt reply d w
          end
      end
  end.

Definition ReservePart (part : PartClaim) (net : nat → access) (d : db) (w : World) : result Reservation * db * World :=
  if invalidClaim part || (pc_PlainLen part <? 0) then (Err (Errorf "mpu: invalid part claim"), d, w)
  else retry_loop 16 0
    (λ i, with_state net i UploadPhaseOpen true (λ st meta now,
       reservePartScript now (pc_PartNumber part) (pc_Claim part) (pc_PlainLen part) (pc_Token part) (us_Revision st)
         (leaseMillis s) meta))
    (reserveReply part) d w.

Definition codeReply (name : string) (table : Z → option (option (result unit))) (r : rval) : option (result unit) :=
  match redisInt r with
  | None => Some (Err (Errorf ("mpu: malformed " +:+ name +:+ " result")))
  | Some code => default (Some (Err (Errorf ("mpu: unknown " +:+ name +:+ " result %d")))) (table code)
  end.

Definition commitReply (code : Z) : option (option (result unit)) :=
  if code =? 0 then Some (Some (Err ErrUploadNotFound))
  else if code =? 1 then Some (Some (Ok tt))
  else if code =? 2 then Some (Some (Err ErrRevisionConflict))
  else if code =? 3 then Some (Some (Err ErrInvalidStateVersion))
  else if code =? 4 then Some (Some (Err ErrInvalidPhase))
  else if code =? 5 then Some None
  else None.

Definition CommitPart (part : PartClaim) (net : nat → access) (d : db) (w : World) : result unit * db * World :=
  if invalidClaim part then (Err (Errorf "mpu: invalid commit claim"), d, w)
  else retry_loop 16 0
    (λ i, with_state net i UploadPhaseOpen true (λ st meta _,
       commitPartScript (pc_PartNumber part) (pc_Claim part) (pc_Token part) (pc_PlainLen part) (pc_ETag part)
         (pc_EncLen part) (pc_ChunkCount part) (us_Revision st) meta))
    (codeReply "commit" commitReply) d w.

Definition renewReply (code : Z) : option (option (result unit)) :=
  if code =? 1 then Some (Some (Ok tt))
  else if code =? 0 then Some (Some (Err ErrUploadNotFound))
  else if code =? 3 then Some (Some (Err ErrInvalidStateVersion))
  else if code =? 4 then Some (Some (Err ErrInvalidPhase))
  else if code =? 5 then Some None
  else Some (Some (Err ErrRevisionConflict)).

(** [RenewPart] writes no metadata blob. *)
Definition renewAttempt (net : nat → access) (pn : Z) (token : string) (i : nat) (d : db) (w : World)
    : result rval * db * World :=
  match redis_get (net (2 * i)%nat) d with
  | (Err e, d) => (Err e, d, w)
  | (Ok st, d) =>
      let '(r, d) := redis_run (net (2 * i + 1)%nat)
        (λ now, renewPartScript now pn token (us_Revision st) (leaseMillis s)) d in (r, d, w)
  end.
Definition RenewPart (pn : Z) (token : string) (net : nat → access) (d : db) (w : World) : result unit * db * World :=
  if (pn <? 1) || (10000 <? pn) || bool_decide (token = "") then (Err (Errorf "mpu: invalid renew claim"), d, w)
  else retry_loop 16 0 (renewAttempt net pn token) (codeReply "renew" renewReply) d w.

Definition ReleasePart (pn : Z) (token : string) (net : nat → access) (d : db) (w : World) : result unit * db * World :=
  if (pn <? 1) || bool_decide (token = "") then (Err (Errorf "mpu: invalid release claim"), d, w)
  else match with_state net 0 UploadPhaseOpen false (λ st meta _, releasePartScript pn token (us_Revision st) meta) d w with
       | (Err e, d, w) => (Err e, d, w)
       | (Ok r, d, w) =>
           (match redisInt r with
            | None => Err (Errorf "mpu: malformed release result")
            | Some code =>
                if code =? 0 then Err ErrUploadNotFound
                else if code =? 3 then Err ErrInvalidStateVersion
                else if code =? 4 then Err ErrInvalidPhase
                else if code =? 5 then Err ErrRevisionConflict
                else if negb (code =? 1) then Err ErrRevisionConflict
                else Ok tt
            end, d, w)
       end.

(** The state returned for a completion: its parts are the selected ones. *)
Definition completeReply (st : UploadState) (values : list rval) : result (UploadState * Z) :=
  match values with
  | [] => Err (Errorf "mpu: malformed complete result")
  | v :: rest =>
      match redisInt v with
      | None => Err (Errorf "mpu: malformed complete code")
      | Some code =>
          if code =? 0 then Err ErrUploadNotFound
          else if code =? 1 then Err ErrInvalidStateVersion
          else if code =? 2 then Err ErrInvalidPhase
          else if code =? 3 then Err ErrRevisionConflict
          else if code =? 5 then Err ErrCompleteMismatch
          else if negb (code =? 4) then Err (Errorf "mpu: unknown complete result %d")
          else
            let revision := wrap_u64 (us_Revision st + 1) in
            match mapM (λ v, match v with RPart p => Some (part_record p) | _ => None end) rest with
            | None => Err (Errorf "mpu: malformed selected part")
            | Some parts => Ok (mkUploadState (us_core st) parts (us_StateVersion st) UploadPhaseCompleting revision, revision)
            end
      end
  end.

Definition BeginComplete (selected : list SelectedPart) (net : nat → access) (d : db) (w : World)
    : result (UploadState * Z) * db * World :=
  if bool_decide (selected = []) then (Err ErrCompleteMismatch, d, w)
  else match with_state net 0 UploadPhaseCompleting false
               (λ st meta _ d, let '(r, d') := beginCompleteScript (us_Revision st) selected meta d in ((st, r), d')) d w with
       | (Err e, d, w) => (Err e, d, w)
       | (Ok (st, r), d, w) => (completeReply st r, d, w)
       end.

(** [state] is what is stored, with the new phase and revision already set. *)
Definition atomicLifecycle (from : string) (revision : Z) (to : string) (state : UploadState) (a : access) (d : db) (w : World)
    : option error * db * World :=
  let legacyAbort := bool_decide (to = UploadPhaseAborting) && negb (us_StateVersion state =? CurrentStateVersion) in
  let version := if legacyAbort then CurrentStateVersion else us_StateVersion state in
  match sealMeta (mkUploadState (us_core state) [] version (us_Phase state) (us_Revision state)) w with
  | (Err e, w) => (Some e, d, w)
  | (Ok meta, w) =>
      let allow := if legacyAbort then "allow_legacy_abort" else "" in
      match redis_run a (λ _, atomicLifecycleScript from revision to meta allow) d with
      | (Err e, d) => (Some e, d, w)
      | (Ok r, d) =>
          (match redisInt r with
           | None => Some (Errorf "mpu: malformed atomic lifecycle result")
           | Some code =>
               if code =? 0 then Some ErrUploadNotFound
               else if code =? 1 then Some ErrInvalidStateVersion
               else if code =? 2 then Some ErrInvalidPhase
               else if code =? 3 then Some ErrRevisionConflict
               else if code =? 4 then None
               else Some (Errorf "mpu: unknown atomic lifecycle result %d")
           end, d, w)
      end
  end.

Definition set_phase (phase : string) (revision : Z) (st : UploadState) : UploadState :=
  mkUploadState (us_core st) (us_Parts st) (us_StateVersion st) phase revision.

Definition Reopen (revision : Z) (net : nat → access) (d : db) (w : World) : option error * db * World :=
  match redis_get (net 0%nat) d with
  | (Err e, d) => (Some e, d, w)
  | (Ok st, d) =>
      let from := us_Phase st in
      if negb (bool_decide (from = UploadPhaseCompleting)) && negb (bool_decide (from = UploadPhaseAborting))
      then (Some ErrInvalidPhase, d, w)
      else atomicLifecycle from revision UploadPhaseOpen (set_phase UploadPhaseOpen (wrap_u64 (revision + 1)) st) (net 1%nat) d w
  end.

Definition finalize (from to : string) (revision : Z) (net : nat → access) (d : db) (w : World) : option error * db * World :=
  match redis_get (net 0%nat) d with
  | (Err e, d) => (Some e, d, w)
  | (Ok st, d) => atomicLifecycle from revision to (set_phase to (wrap_u64 (revision + 1)) st) (net 1%nat) d w
  end.
Definition FinalizeComplete := finalize UploadPhaseCompleting UploadPhaseCompleted.
Definition FinalizeAbort := finalize UploadPhaseAborting UploadPhaseAborted.

Definition BeginAbort (net : nat → access) (d : db) (w : World) : result Z * db * World :=
  match redis_get (net 0%nat) d with
  | (Err e, d) => (Err e, d, w)
  | (Ok st, d) =>
      if negb (us_StateVersion st =? 0) && negb (us_StateVersion st =? 1) && negb (us_StateVersion st =? CurrentStateVersion)
      then (Err ErrInvalidStateVersion, d, w)
      else if bool_decide (us_Phase st ≠ "") && bool_decide (us_Phase st ≠ UploadPhaseOpen) then (Err ErrInvalidPhase, d, w)
      else
        let legacy := negb (us_StateVersion st =? CurrentStateVersion) in
        let from := if legacy && bool_decide (us_Phase st = "") then UploadPhaseOpen else us_Phase st in
        let revision := wrap_u64 (us_Revision st + 1) in
        match atomicLifecycle from (wrap_u64 (revision - 1)) UploadPhaseAborting (set_phase UploadPhaseAborting revision st)
                (net 1%nat) d w with
        | (Some e, d, w) => (Err e, d, w)
        | (None, d, w) => (Ok revision, d, w)
        end
  end.

Definition Delete (a : access) (d : db) : option error * db :=
  match redis_run a (λ _ _, (tt, None)) d with
  | (Err e, d) => (Some e, d)
  | (Ok _, d) => (None, d)
  end.
End store.

#[global] Arguments store_Get {_ _ _} _ _ : simpl never.

(** An access that nobody interferes with. *)
Definition quiet (now : Z) : access := mkAccess id now None None.

(** ** Part claims *)

Class HMAC := { hmac_sha256 : list byte → list byte → list byte }.

(** [ComputePartClaim]: the keyed digest of the part number, the length and
    the plaintext; the reader is given as the bytes it delivers and the error
    it ends with. *)
Definition ComputePartClaim `{HMAC} (dek : list byte) (partNumber plainLen : Z) (data : list byte) (e : error) : result (list byte) :=
  if bool_decide (dek = []) || (partNumber <? 1) || (10000 <? partNumber) || (plainLen <? 0) then
    Err (Errorf "mpu: invalid part claim input")
  else
    let read := take (Z.to_nat plainLen) data in
    if (len read <? plainLen) && negb (bool_decide (e = EOF)) then Err (Wrapf "mpu: compute part claim: %w" e)
    else if negb (len read =? plainLen) then Err (Errorf "mpu: plaintext length mismatch: got %d, expected %d")
    else Ok (hmac_sha256 dek (bytes_of_string "s3eg:mpu-part-claim:v1" ++ [x00] ++
               be_encode 4 (wrap_u32 partNumber) ++ be_encode 8 (wrap_u64 plainLen) ++ read)).
