(* ===== verification/MPUStateSafe.v ===== *)
(** * Multipart uploads under concurrency

    The clients of the state store as a step relation: every step is one
    access to the server, made with whatever the client read before, so that
    the sequences of steps are all interleavings of the operations of
    [internal/mpu/state.go] and of the part handler of
    [internal/api/handlers.go], which reserves a part, encrypts and sends it
    when the reservation was granted, and gives a reservation up only before
    it has sent anything. *)
From Stdlib Require Import Sorted.
From S2P Require Import Prelude GoStd Primitives KeyManager MemoryKeyManager MPUState.
Local Open Scope Z_scope.

(** ** What the scripts do *)

(** The guards all scripts but the legacy abort share. *)
Definition open_at (h : Hash) (rev : Z) : Prop :=
  h_state_version h = Some "2" ∧ h_phase h = Some "open" ∧ default 0 (h_revision h) = rev.

(** A write of the blob and of the next revision that leaves the control
    fields but the phase alone. *)
Definition written (h : Hash) (meta : list byte) (phase : option string) (rev : Z) (parts : gmap Z partField) : Hash :=
  mkHash (Some meta) (h_state_version h) phase (Some rev) parts.

(** A call that was refused changes nothing. *)
Ltac refused H := left; injection H; congruence.
Ltac refused_code H := left; injection H as <- <-; split; [reflexivity|]; eexists; split; [reflexivity|discriminate].

(** The reply grants nothing. *)
Definition no_grant (r : list rval) : Prop := ∀ part res, reserveReply part r = Some (Ok res) → rv_AlreadyDone res = true.

Lemma reserve_effect now pn claim plainLen token rev leaseMs meta d r d' :
  reservePartScript now pn claim plainLen token rev leaseMs meta d = (r, d') →
  (d' = d ∧ no_grant r) ∨
  ∃ h v code, d = Some h ∧ open_at h rev ∧
    d' = Some (written h meta (h_phase h) (default 1 (h_revision h) + 1) (<[pn := v]> (h_parts h))) ∧
    pf_claim v = claim ∧ pf_token v = token ∧ pf_status v = "reserved" ∧
    r = [RInt code; RInt (default 1 (h_revision h) + 1); RInt (now + leaseMs)] ∧
    ((code = 6 ∧ h_parts h !! pn = None) ∨
     (code = 8 ∧ ∃ p, h_parts h !! pn = Some p ∧ pf_claim p = claim ∧ pf_status p ≠ "committed")).
Proof.
  assert (Hno : ∀ c l, c ∈ [0; 1; 2; 3; 4; 5; 7] → no_grant (RInt c :: l)).
  { intros c l Hc part res. unfold reserveReply. cbn [redisInt]. set_unfold. destruct_or? Hc; subst; cbn; try done. by intros [= <-]. }
  intros Hs. destruct d as [[[m0|] version phase revision parts]|]; [|left; injection Hs as <- <-; split; [done|apply Hno; set_solver]..].
  unfold reservePartScript in Hs.
  assert (Hrej : ∀ c l x, c ∈ [0; 1; 2; 3; 4; 5; 7] → (RInt c :: l, x) = (r, d') → x = d' ∧ no_grant r)
    by (intros c l x Hc [= <- <-]; auto).
  repeat match type of Hs with
  | (if negb (bool_decide ?P) then _ else _) = _ => destruct (bool_decide_reflect P) as [?|?]; cbn [negb] in Hs;
      [|left; apply Hrej in Hs as [<- ?]; [done|set_solver]]
  | (if negb (?a =? ?b) then _ else _) = _ => destruct (Z.eqb_spec a b) as [?|?]; cbn [negb] in Hs;
      [|left; apply Hrej in Hs as [<- ?]; [done|set_solver]]
  end.
  destruct (parts !! pn) as [p|] eqn:Hp.
  - destruct (bool_decide_reflect (pf_claim p = claim)) as [Hc|]; cbn [negb] in Hs;
      [|left; apply Hrej in Hs as [<- ?]; [done|set_solver]].
    case_match; [left; apply Hrej in Hs as [<- ?]; [done|set_solver]|].
    destruct (bool_decide_reflect (pf_status p = "committed")) as [|Hn]; [left; apply Hrej in Hs as [<- ?]; [done|set_solver]|].
    injection Hs as <- <-. right. eexists _, _, 8. split; [done|]. split; [done|]. split; [done|]. split_and!; try done. eauto 10.
  - injection Hs as <- <-. right. eexists _, _, 6. split; [done|]. split; [done|]. split; [done|]. split_and!; try done. auto.
Qed.

(** A change of one field that keeps its claim and its token. *)
Definition update_part (pn : Z) (p v : partField) (parts parts' : gmap Z partField) : Prop :=
  parts !! pn = Some p ∧ pf_claim v = pf_claim p ∧ pf_token v = pf_token p ∧ pf_status p = "reserved" ∧ parts' = <[pn := v]> parts.

Lemma update_part_intro pn p v parts :
  parts !! pn = Some p → pf_claim v = pf_claim p → pf_token v = pf_token p → pf_status p = "reserved" →
  update_part pn p v parts (<[pn := v]> parts).
Proof. by repeat split. Qed.

Lemma renew_effect now pn token rev leaseMs d r d' :
  renewPartScript now pn token rev leaseMs d = (r, d') →
  d' = d ∨ ∃ h p v parts, d = Some h ∧ open_at h rev ∧ update_part pn p v (h_parts h) parts ∧
    d' = Some (mkHash (h_meta h) (h_state_version h) (h_phase h) (h_revision h) parts).
Proof.
  unfold renewPartScript. intros Hs. destruct d as [[m0 version phase revision parts]|]; [|refused Hs].
  destruct (bool_decide_reflect (version = Some "2")); cbn [negb] in Hs; [|refused Hs].
  destruct (bool_decide_reflect (phase = Some "open")); cbn [negb] in Hs; [|refused Hs].
  destruct (Z.eqb_spec (default 0 revision) rev); cbn [negb] in Hs; [|refused Hs].
  destruct (parts !! pn) as [p|] eqn:Hp; [|refused Hs].
  destruct (bool_decide_reflect (pf_status p = "reserved")); cbn [negb orb] in Hs; [|refused Hs].
  case_bool_decide; cbn [negb] in Hs; [|refused Hs]. injection Hs as <- <-.
  right. eexists _, p, _, _. split; [done|]. split; [done|]. split; [|done]. by apply update_part_intro.
Qed.

Lemma commit_effect pn claim token plainLen etag encLen chunks rev meta d r d' :
  commitPartScript pn claim token plainLen etag encLen chunks rev meta d = (r, d') →
  d' = d ∨ ∃ h p v parts, d = Some h ∧ open_at h rev ∧ update_part pn p v (h_parts h) parts ∧
    d' = Some (written h meta (h_phase h) (default 1 (h_revision h) + 1) parts).
Proof.
  unfold commitPartScript. intros Hs. destruct d as [[[m0|] version phase revision parts]|]; [|refused Hs..].
  destruct (bool_decide_reflect (version = Some "2")); cbn [negb] in Hs; [|refused Hs].
  destruct (bool_decide_reflect (phase = Some "open")); cbn [negb] in Hs; [|refused Hs].
  destruct (Z.eqb_spec (default 0 revision) rev); cbn [negb] in Hs; [|refused Hs].
  destruct (parts !! pn) as [p|] eqn:Hp; [|refused Hs].
  destruct (bool_decide_reflect (pf_claim p = claim)); cbn [negb orb] in Hs; [|refused Hs].
  destruct (bool_decide_reflect (pf_token p = token)); cbn [negb] in Hs; [|refused Hs].
  case_bool_decide; [case_match; refused Hs|].
  case_bool_decide; cbn [negb] in Hs; [|refused Hs]. injection Hs as <- <-.
  right. eexists _, p, _, _. split; [done|]. split; [done|]. split; [|done]. by apply update_part_intro.
Qed.

Lemma release_effect pn token rev meta d r d' :
  releasePartScript pn token rev meta d = (r, d') →
  d' = d ∨ ∃ h p, d = Some h ∧ open_at h rev ∧ h_parts h !! pn = Some p ∧ pf_token p = token ∧ pf_status p = "reserved" ∧
    d' = Some (written h meta (h_phase h) (rev + 1) (delete pn (h_parts h))).
Proof.
  unfold releasePartScript. intros Hs. destruct d as [[m0 version phase revision parts]|]; [|refused Hs].
  destruct (bool_decide_reflect (version = Some "2")); cbn [negb] in Hs; [|refused Hs].
  destruct (bool_decide_reflect (phase = Some "open")); cbn [negb] in Hs; [|refused Hs].
  destruct (Z.eqb_spec (default 0 revision) rev); cbn [negb] in Hs; [|refused Hs].
  destruct (parts !! pn) as [p|] eqn:Hp; [|refused Hs].
  destruct (bool_decide_reflect (pf_status p = "reserved")); cbn [negb orb] in Hs; [|refused Hs].
  case_bool_decide; cbn [negb] in Hs; [|refused Hs]. injection Hs as <- <-.
  right. eexists _, p. split; [done|]. split_and!; done.
Qed.

Lemma lifecycle_effect from rev to meta d r d' :
  atomicLifecycleScript from rev to meta "" d = (r, d') →
  d' = d ∨ ∃ h, d = Some h ∧ h_state_version h = Some "2" ∧ h_phase h = Some from ∧ default 0 (h_revision h) = rev ∧
    d' = Some (written h meta (Some to) (rev + 1) (h_parts h)).
Proof.
  unfold atomicLifecycleScript. intros Hs. destruct d as [[[m0|] version phase revision parts]|]; [|refused Hs..].
  rewrite (bool_decide_eq_false_2 ("" = _)) in Hs by done. cbn [negb andb] in Hs. rewrite andb_true_r in Hs.
  destruct (bool_decide_reflect (version = Some "2")); cbn [negb] in Hs; [|refused Hs].
  destruct (bool_decide_reflect (phase = Some from)); cbn [negb] in Hs; [|refused Hs].
  destruct (Z.eqb_spec (default 0 revision) rev); cbn [negb] in Hs; [|refused Hs]. injection Hs as <- <-.
  right. eexists. split; [done|]. split_and!; try done. cbn. by subst.
Qed.

Lemma complete_effect rev selected meta d r d' :
  beginCompleteScript rev selected meta d = (r, d') →
  (d' = d ∧ ∃ code, r = [RInt code] ∧ code ≠ 4) ∨
  ∃ h out, d = Some h ∧ open_at h rev ∧ selectParts (h_parts h) 0 selected = Some out ∧
    r = RInt 4 :: (RPart <$> out) ∧ d' = Some (written h meta (Some "completing") (rev + 1) (h_parts h)).
Proof.
  unfold beginCompleteScript. intros Hs.
  destruct d as [[[m0|] version phase revision parts]|]; [|refused_code Hs..].
  destruct (bool_decide_reflect (version = Some "2")); cbn [negb] in Hs; [|refused_code Hs].
  destruct (bool_decide_reflect (phase = Some "open")); cbn [negb] in Hs; [|refused_code Hs].
  destruct (Z.eqb_spec (default 0 revision) rev); cbn [negb] in Hs; [|refused_code Hs].
  destruct (selectParts parts 0 selected) as [out|] eqn:Hout; [|refused_code Hs].
  injection Hs as <- <-. right. eexists _, out. split; [done|]. split_and!; done.
Qed.

(** ** The system *)

(** A client that was granted a reservation. *)
Inductive ho_state := Granted | Sent | Released.
Record holder := mkHolder { ho_pn : Z; ho_claim : string; ho_token : string; ho_reacquired : bool; ho_st : ho_state }.

(** The hash, the states clients have read, the tokens that were granted, and
    the clients that hold or held a reservation. *)
Record system := mkSystem {
  sy_db : db; sy_snaps : list UploadState; sy_tokens : list string; sy_holders : list holder }.

(** A holder that has not given its reservation up may have sent the part, or
    send it later. *)
Definition live (h : holder) : Prop := ho_st h ≠ Released.

(** Which transitions the lifecycle operations ask for, after reading [st]. *)
Inductive lifecycle (st : UploadState) : string → Z → string → Prop :=
| lc_reopen rev : us_Phase st = UploadPhaseCompleting ∨ us_Phase st = UploadPhaseAborting →
    lifecycle st (us_Phase st) rev UploadPhaseOpen
| lc_complete rev : lifecycle st UploadPhaseCompleting rev UploadPhaseCompleted
| lc_abort : us_Phase st = UploadPhaseOpen → lifecycle st UploadPhaseOpen (us_Revision st) UploadPhaseAborting
| lc_aborted rev : lifecycle st UploadPhaseAborting rev UploadPhaseAborted.

(** Lua's numbers, and so the revisions, are exact below this bound. *)
Definition exact_rev (r : Z) : Prop := 0 ≤ r < 2 ^ 53 - 1.

Section system.
Context `{Ciphers, StateJSON, MapOrder} (s : ValkeyStateStore).

(** The holder a reply makes; a reply that is lost makes none. *)
Definition granted (part : PartClaim) (r : list rval) : option bool :=
  match reserveReply part r with
  | Some (Ok res) => if rv_AlreadyDone res then None else Some (rv_Reacquired res)
  | _ => None
  end.

(** [careful] restricts the clients to giving up only reservations that no
    other client held before them. *)
Inductive sys_step (careful : bool) : system → system → Prop :=
| step_get d snaps toks hs st :
    store_Get s d = Ok st → sys_step careful (mkSystem d snaps toks hs) (mkSystem d (st :: snaps) toks hs)
| step_reserve d snaps toks hs st part now w meta w' r d' (lost : bool) :
    st ∈ snaps → exact_rev (us_Revision st) → pc_Token part ∉ toks →
    controlMeta s st UploadPhaseOpen (wrap_u64 (us_Revision st + 1)) w = (Ok meta, w') →
    reservePartScript now (pc_PartNumber part) (pc_Claim part) (pc_PlainLen part) (pc_Token part) (us_Revision st)
      (leaseMillis s) meta d = (r, d') →
    sys_step careful (mkSystem d snaps toks hs)
      (mkSystem d' snaps (if granted part r then pc_Token part :: toks else toks)
         (match granted part r with
          | Some re => if lost then hs else mkHolder (pc_PartNumber part) (pc_Claim part) (pc_Token part) re Granted :: hs
          | None => hs
          end))
| step_renew d snaps toks hs st now pn token r d' :
    st ∈ snaps → renewPartScript now pn token (us_Revision st) (leaseMillis s) d = (r, d') →
    sys_step careful (mkSystem d snaps toks hs) (mkSystem d' snaps toks hs)
| step_send d snaps toks hs1 ho hs2 :
    live ho →
    sys_step careful (mkSystem d snaps toks (hs1 ++ ho :: hs2))
      (mkSystem d snaps toks (hs1 ++ mkHolder (ho_pn ho) (ho_claim ho) (ho_token ho) (ho_reacquired ho) Sent :: hs2))
| step_commit d snaps toks hs st part w meta w' r d' :
    st ∈ snaps → exact_rev (us_Revision st) →
    controlMeta s st UploadPhaseOpen (wrap_u64 (us_Revision st + 1)) w = (Ok meta, w') →
    commitPartScript (pc_PartNumber part) (pc_Claim part) (pc_Token part) (pc_PlainLen part) (pc_ETag part)
      (pc_EncLen part) (pc_ChunkCount part) (us_Revision st) meta d = (r, d') →
    sys_step careful (mkSystem d snaps toks hs) (mkSystem d' snaps toks hs)
| step_release d snaps toks hs1 ho hs2 st w meta w' r d' :
    st ∈ snaps → exact_rev (us_Revision st) → ho_st ho = Granted → (careful = true → ho_reacquired ho = false) →
    controlMeta s st UploadPhaseOpen (wrap_u64 (us_Revision st + 1)) w = (Ok meta, w') →
    releasePartScript (ho_pn ho) (ho_token ho) (us_Revision st) meta d = (r, d') →
    sys_step careful (mkSystem d snaps toks (hs1 ++ ho :: hs2))
      (mkSystem d' snaps toks (hs1 ++ mkHolder (ho_pn ho) (ho_claim ho) (ho_token ho) (ho_reacquired ho) Released :: hs2))
| step_complete d snaps toks hs st selected w meta w' r d' :
    st ∈ snaps → exact_rev (us_Revision st) →
    controlMeta s st UploadPhaseCompleting (wrap_u64 (us_Revision st + 1)) w = (Ok meta, w') →
    beginCompleteScript (us_Revision st) selected meta d = (r, d') →
    sys_step careful (mkSystem d snaps toks hs) (mkSystem d' snaps toks hs)
| step_lifecycle d snaps toks hs st from rev to w meta w' r d' :
    st ∈ snaps → exact_rev rev → lifecycle st from rev to →
    sealMeta s (mkUploadState (us_core st) [] (us_StateVersion st) to (wrap_u64 (rev + 1))) w = (Ok meta, w') →
    atomicLifecycleScript from rev to meta "" d = (r, d') →
    sys_step careful (mkSystem d snaps toks hs) (mkSystem d' snaps toks hs)
| step_delete d snaps toks hs : sys_step careful (mkSystem d snaps toks hs) (mkSystem None snaps toks hs).
End system.

(** ** Consistency of the stored state *)

Definition phases : list string :=
  [UploadPhaseOpen; UploadPhaseCompleting; UploadPhaseCompleted; UploadPhaseAborting; UploadPhaseAborted].

Lemma phase_ascii phase : phase ∈ phases → ascii phase = true.
Proof. unfold phases. set_unfold. intros Hp. destruct_or? Hp; by subst. Qed.

Lemma lifecycle_phases st from rev to : lifecycle st from rev to → to ∈ phases.
Proof. destruct 1; unfold phases; set_solver. Qed.

Section blobs.
Context `{CiphersLaws, StateJSON} (s : ValkeyStateStore).

Lemma EncryptState_open pt w c w' : EncryptState s pt w = (Ok c, w') → DecryptState s c = Ok pt.
Proof using All.
  unfold EncryptState, state_gcm. destruct (aes_key_size (default [] (ss_stateDEK s))) eqn:Hk; [|done].
  destruct (rand_read 12 w) as [[nonce|] w1] eqn:En; [|done]. intros [= <- _].
  apply rand_read_length in En as Hn.
  destruct (ss_stateDEK s) as [key|] eqn:Hkey; [|done]. cbn in *.
  unfold DecryptState. rewrite Hkey. cbn [head]. rewrite bool_decide_eq_true_2 by done. cbn [negb].
  rewrite (proj2 (Z.ltb_ge _ _)) by (cbn [length]; rewrite length_app, aead_seal_length by done; lia).
  unfold tryOpen, state_gcm. rewrite Hk. cbn [mbind result_bind].
  assert (Hd : ∀ l : list byte, drop 1 (stateEncryptionVersionV1 :: l) = l ∧ drop 13 (stateEncryptionVersionV1 :: l) = drop 12 l) by done.
  rewrite (proj1 (Hd _)), (proj2 (Hd _)), take_app_length', drop_app_length' by done. by rewrite aead_open_seal.
Qed.

Lemma sealMeta_open st w meta w' : sealMeta s st w = (Ok meta, w') → openMeta s meta = Ok (state_marshal st).
Proof using All.
  unfold sealMeta, openMeta. destruct (ss_encryptState s); [|by intros [= <- _]]. by intros ->%EncryptState_open.
Qed.

End blobs.

Section consistency.
Context `{CiphersLaws, StateJSONLaws, MapOrder} (s : ValkeyStateStore) (core : UploadCore).
Hypothesis Hsafe : json_safe core = true.
Hypothesis Hbind : uc_EncryptMultipartUploads core = true → ∃ b, BindingIDBytes core = Ok b.

(** The blob holds the control fields. *)
Definition consistent (h : Hash) (phase : string) (rev : Z) : Prop :=
  h_state_version h = Some "2" ∧ h_phase h = Some phase ∧ h_revision h = Some rev ∧ phase ∈ phases ∧ 1 ≤ rev ∧
  ∃ meta, h_meta h = Some meta ∧ openMeta s meta = Ok (state_marshal (mkUploadState core [] 2 phase rev)).

Definition snap_ok (st : UploadState) : Prop :=
  us_core st = core ∧ us_StateVersion st = 2 ∧ us_Phase st ∈ phases.

(** Reading a consistent hash succeeds. *)
Lemma store_Get_consistent h phase rev :
  consistent h phase rev → ∃ st, store_Get s (Some h) = Ok st ∧ snap_ok st ∧ us_Phase st = phase ∧ us_Revision st = rev.
Proof using All.
  intros (Hv & Hph & Hr & Hin & Hrev & meta & Hm & Ho). unfold store_Get. rewrite Hm, Ho. cbn [mbind result_bind].
  rewrite state_roundtrip by (try done; by apply phase_ascii). cbn [us_core us_StateVersion us_Phase us_Revision us_Parts].
  assert (Hb : (if uc_EncryptMultipartUploads core then match BindingIDBytes core with Ok _ => Ok tt | Err e => Err e end else Ok tt) = Ok tt).
  { destruct (uc_EncryptMultipartUploads core); [|done]. by destruct Hbind as [b ->]. }
  rewrite Hb. cbn [mbind result_bind]. unfold checkMirrors. rewrite Hv, Hph, Hr. cbn [us_StateVersion us_Phase us_Revision from_option default].
  rewrite (bool_decide_eq_true_2 (Some phase = Some phase)), (bool_decide_eq_true_2 (Some rev = Some rev)) by done.
  cbn [negb]. rewrite !andb_false_r.
  assert (Hp : ParseUint (id "2") = Some 2) by reflexivity. rewrite Hp. cbn [Z.eqb Z.ltb andb].
  assert (Hif : ∀ b : bool, (if b then Ok tt else Ok tt) = Ok tt) by (by intros []). rewrite Hif. cbn.
  eexists. split; [reflexivity|]. repeat split; done.
Qed.

Definition sys_ok (c : system) : Prop :=
  Forall snap_ok (sy_snaps c) ∧ match sy_db c with Some h => ∃ phase rev, consistent h phase rev | None => True end.

(** What a client writes with a state it has read is consistent again. *)
Lemma written_consistent h phase rev st to rev' w meta w' parts :
  consistent h phase rev → snap_ok st → to ∈ phases → rev' = rev + 1 → exact_rev rev →
  sealMeta s (mkUploadState (us_core st) [] 2 to (wrap_u64 rev')) w = (Ok meta, w') →
  consistent (written h meta (Some to) rev' parts) to rev'.
Proof using All.
  intros (Hv & _ & _ & _ & Hrev & _) (Hc & _ & _) Hto -> Hx Hm%sealMeta_open. rewrite Hc in Hm.
  rewrite wrap_u64_id in Hm by (unfold exact_rev in Hx; lia). repeat split; try done; [lia|]. by eexists.
Qed.

(** The hash after a script, when it was written to. *)
Lemma update_consistent h phase rev parts :
  consistent h phase rev → consistent (mkHash (h_meta h) (h_state_version h) (h_phase h) (h_revision h) parts) phase rev.
Proof using. done. Qed.

Lemma open_consistent h phase rev rev' : consistent h phase rev → open_at h rev' → phase = UploadPhaseOpen ∧ rev' = rev ∧ h_revision h = Some rev.
Proof using. intros (_ & Hp & Hr & _) (_ & Ho & Hd). rewrite Hr in Hd. rewrite Hp in Ho. by simplify_eq/=. Qed.

Lemma sys_step_ok careful c c' : sys_step s careful c c' → sys_ok c → sys_ok c'.
Proof using All.
  assert (Hopen : UploadPhaseOpen ∈ phases) by (unfold phases; set_solver).
  assert (Hcing : UploadPhaseCompleting ∈ phases) by (unfold phases; set_solver).
  intros Hstep [Hsn Hdb]. split.
  { destruct Hstep; cbn in *; try done. constructor; [|done].
    destruct d as [h|]; [|done]. destruct Hdb as (phase & rev & Hc).
    destruct (store_Get_consistent _ _ _ Hc) as (st' & E & Hok & _). assert (st = st') as -> by congruence. done. }
  assert (Hin : ∀ st, st ∈ sy_snaps c → snap_ok st) by (intros st; by apply (proj1 (Forall_forall _ _) Hsn)).
  destruct Hstep as [| ????????????? Hst Hx _ Hm Hs | ?????????? Hst Hs | | ??????????? Hst Hx Hm Hs
    | ???????????? Hst Hx _ _ Hm Hs | ??????????? Hst Hx Hm Hs | ????????????? Hst Hx Hl Hm Hs |]; cbn in *; try done.
  - apply reserve_effect in Hs as [[-> _]|(h & v & code & -> & Ho & -> & _)]; [done|]. destruct Hdb as (phase & rev & Hc).
    destruct (open_consistent _ _ _ _ Hc Ho) as (-> & Er & ->). rewrite Er in *. cbn [default from_option id] in *.
    eexists _, _. replace (h_phase h) with (Some UploadPhaseOpen) by (symmetry; apply Ho).
    eapply written_consistent; [done|by apply Hin|done|done|done|exact Hm].
  - apply renew_effect in Hs as [->|(h & p & v & parts & -> & _ & _ & ->)]; [done|].
    destruct Hdb as (phase & rev & Hc). eexists _, _. by apply update_consistent.
  - apply commit_effect in Hs as [->|(h & p & v & parts & -> & Ho & _ & ->)]; [done|]. destruct Hdb as (phase & rev & Hc).
    destruct (open_consistent _ _ _ _ Hc Ho) as (-> & Er & ->). rewrite Er in *. cbn [default from_option id] in *.
    eexists _, _. replace (h_phase h) with (Some UploadPhaseOpen) by (symmetry; apply Ho).
    eapply written_consistent; [done|by apply Hin|done|done|done|exact Hm].
  - apply release_effect in Hs as [->|(h & p & -> & Ho & _ & _ & _ & ->)]; [done|]. destruct Hdb as (phase & rev & Hc).
    destruct (open_consistent _ _ _ _ Hc Ho) as (-> & Er & _). rewrite Er in *.
    eexists _, _. replace (h_phase h) with (Some UploadPhaseOpen) by (symmetry; apply Ho).
    eapply written_consistent; [done|by apply Hin|done|done|done|exact Hm].
  - apply complete_effect in Hs as [[-> _]|(h & out & -> & Ho & _ & _ & ->)]; [done|]. destruct Hdb as (phase & rev & Hc).
    destruct (open_consistent _ _ _ _ Hc Ho) as (-> & Er & _). rewrite Er in *. eexists _, _.
    eapply written_consistent; [done|by apply Hin|done|done|done|exact Hm].
  - apply lifecycle_effect in Hs as [->|(h & -> & _ & _ & Hr & ->)]; [done|]. destruct Hdb as (phase & rev' & Hc).
    assert (rev' = rev) as -> by (destruct Hc as (_ & _ & E & _); rewrite E in Hr; done).
    destruct (Hin _ Hst) as (Hcore & Hver & _). rewrite Hver in Hm. eexists _, _.
    eapply written_consistent; [done|by apply Hin|by eapply lifecycle_phases|done|done|exact Hm].
Qed.

(** How a hash changes while it exists: committed parts stay as they are,
    the revision does not go back, and nothing follows a final phase. *)
Definition evolves (h h' : Hash) : Prop :=
  (∀ pn p, h_parts h !! pn = Some p → pf_status p = PartStatusCommitted → h_parts h' !! pn = Some p) ∧
  default 0 (h_revision h) ≤ default 0 (h_revision h') ∧
  (h_phase h = Some UploadPhaseCompleted ∨ h_phase h = Some UploadPhaseAborted → h' = h).

Lemma evolves_refl h : evolves h h.
Proof using. done. Qed.
Lemma evolves_trans h1 h2 h3 : evolves h1 h2 → evolves h2 h3 → evolves h1 h3.
Proof using.
  intros (Hp & Hr & Ht) (Hp' & Hr' & Ht'). split_and!; [auto|lia|]. intros Hf. specialize (Ht Hf). subst. auto.
Qed.

Lemma open_evolves h rev meta v' parts :
  open_at h rev → 0 ≤ v' → default 0 (h_revision h) ≤ v' →
  (∀ pn p, h_parts h !! pn = Some p → pf_status p = PartStatusCommitted → parts !! pn = Some p) →
  ∀ ph, evolves h (written h meta ph v' parts).
Proof using. intros (_ & Ho & _) _ Hv Hp ph. split_and!; [done|done|]. intros [E|E]; by rewrite Ho in E. Qed.

Lemma update_keeps pn p v parts parts' :
  update_part pn p v parts parts' →
  ∀ pn' p', parts !! pn' = Some p' → pf_status p' = PartStatusCommitted → parts' !! pn' = Some p'.
Proof using.
  intros (Hp & _ & _ & Hs & ->) pn' p' Hp' Hc. destruct (decide (pn = pn')) as [->|]; [|by rewrite lookup_insert_ne].
  rewrite Hp in Hp'. simplify_eq. by rewrite Hs in Hc.
Qed.

Lemma sys_step_evolves careful c c' h h' :
  sys_step s careful c c' → sys_ok c → sy_db c = Some h → sy_db c' = Some h' → evolves h h'.
Proof using.
  intros Hstep [Hsn Hdb] Hh Hh'. rewrite Hh in Hdb. destruct Hdb as (phase & rev0 & Hc).
  assert (Hr1 : h_revision h = Some rev0 ∧ 1 ≤ rev0) by (by destruct Hc as (_ & _ & ? & _ & ? & _)). destruct Hr1 as [Hr1 Hr2].
  destruct Hstep as [| ????????????? Hst Hx _ Hm Hs | ?????????? Hst Hs | | ??????????? Hst Hx Hm Hs
    | ???????????? Hst Hx _ _ Hm Hs | ??????????? Hst Hx Hm Hs | ????????????? Hst Hx Hl Hm Hs |]; cbn in Hh, Hh'; subst; try (simplify_eq; apply evolves_refl).
  - apply reserve_effect in Hs as [[E _]|(h1 & v & code & E1 & Ho & E2 & _ & _ & _ & _ & Hcase)]; simplify_eq; [apply evolves_refl|].
    eapply open_evolves; [done|rewrite Hr1; cbn; lia..|]. intros pn p Hp Hs. destruct (decide (pn = pc_PartNumber part)) as [->|].
    + destruct Hcase as [[_ E]|(_ & p' & E & _ & Hn)]; rewrite Hp in E; by simplify_eq.
    + by rewrite lookup_insert_ne.
  - apply renew_effect in Hs as [E|(h1 & p & v & parts & E1 & Ho & Hu & E2)]; simplify_eq; [apply evolves_refl|].
    split_and!; [by eapply update_keeps|done|]. destruct Ho as (_ & Ho & _). intros [E|E]; by rewrite Ho in E.
  - apply commit_effect in Hs as [E|(h1 & p & v & parts & E1 & Ho & Hu & E2)]; simplify_eq; [apply evolves_refl|].
    eapply open_evolves; [done|rewrite Hr1; cbn; lia..|by eapply update_keeps].
  - apply release_effect in Hs as [E|(h1 & p & E1 & Ho & Hp & _ & Hs & E2)]; simplify_eq; [apply evolves_refl|].
    pose proof (proj2 (proj2 Ho)) as Hd. rewrite Hr1 in Hd. cbn in Hd.
    eapply open_evolves; [done|rewrite ?Hr1; cbn; lia..|]. intros pn p' Hp' Hc'.
    rewrite lookup_delete_ne; [done|]. intros E. rewrite E, Hp' in Hp. simplify_eq. by rewrite Hs in Hc'.
  - apply complete_effect in Hs as [[E _]|(h1 & out & E1 & Ho & _ & _ & E2)]; simplify_eq; [apply evolves_refl|].
    pose proof (proj2 (proj2 Ho)) as Hd. rewrite Hr1 in Hd. cbn in Hd.
    eapply open_evolves; [done|rewrite ?Hr1; cbn; lia..|done].
  - apply lifecycle_effect in Hs as [E|(h1 & E1 & _ & Hf & Hr & E2)]; simplify_eq; [apply evolves_refl|].
    split_and!; [done|rewrite Hr1 in *; cbn in *; lia|].
    rewrite Hf. destruct Hl as [? [E|E]| | |]; try rewrite E; intros [Hp|Hp]; by simplify_eq.
Qed.

Lemma sys_steps_ok careful c c' : rtc (sys_step s careful) c c' → sys_ok c → sys_ok c'.
Proof using All. induction 1; eauto using sys_step_ok. Qed.

Lemma sys_steps_none careful c c' : rtc (sys_step s careful) c c' → sy_db c = None → sy_db c' = None.
Proof using.
  induction 1 as [|c1 c2 c3 Hs _ IH]; [done|]. intros Hn. apply IH. destruct Hs; cbn in *; subst; try done; by simplify_eq/=.
Qed.

Lemma sys_steps_evolve careful c c' h h' :
  rtc (sys_step s careful) c c' → sys_ok c → sy_db c = Some h → sy_db c' = Some h' → evolves h h'.
Proof using All.
  intros Hr. revert h. induction Hr as [c|c c1 c' Hs Hr IH]; intros h Hok Hh Hh'; [simplify_eq; apply evolves_refl|].
  destruct (sy_db c1) as [h1|] eqn:E1.
  - eapply evolves_trans; [by eapply sys_step_evolves|]. apply IH; [by eapply sys_step_ok|done..].
  - apply (sys_steps_none careful _ _ Hr) in E1. by rewrite E1 in Hh'.
Qed.
End consistency.

(** What [Create] stores is consistent. *)
Lemma Create_consistent `{CiphersLaws, StateJSONLaws, MapOrder} s st a w w' d h :
  us_Parts st = [] → Create s st a d w = (None, Some h, w') → ac_fault a = None → ac_others a d = None →
  (uc_EncryptMultipartUploads (us_core st) = true → ∃ b, BindingIDBytes (us_core st) = Ok b) ∧
  consistent s (us_core st) h UploadPhaseOpen 1.
Proof.
  intros Hp Hc Hf Ho. unfold Create in Hc. rewrite Hp in Hc.
  destruct (uc_EncryptMultipartUploads _) eqn:He.
  all: try destruct (BindingIDBytes _) as [b|] eqn:Hb; cbn in Hc; [..|done] || idtac.
  all: destruct (sealMeta _ _ _) as [[meta|] w1] eqn:Hm; [|done].
  all: unfold redis_run in Hc; rewrite Hf, Ho in Hc; cbn in Hc; simplify_eq.
  all: (split; [eauto; try done|]; apply sealMeta_open in Hm; split_and!; [done..|unfold phases; set_solver|done|by eexists]).
Qed.

Section mpu_theorems.
Context `{CiphersLaws, StateJSONLaws, MapOrder}.

(** C25: the state of an upload under concurrency. However the operations of
    any number of clients interleave after an upload was created, until its
    state is deleted or expires: reading it succeeds, with the creation's own
    fields, in particular its wrapped key and IV prefix, and with control
    fields that agree with the authenticated blob; a committed part is never
    changed or removed, the revision never goes back, and a completed or
    aborted upload never changes again. *)
Theorem mpu_state_safe s st0 a w w0 h0 c c' :
  us_Parts st0 = [] → json_safe (us_core st0) = true →
  ac_fault a = None → ac_others a None = None → Create s st0 a None w = (None, Some h0, w0) →
  rtc (sys_step s false) (mkSystem (Some h0) [] [] []) c → rtc (sys_step s false) c c' →
  ∀ h, sy_db c = Some h →
    (∃ st, store_Get s (Some h) = Ok st ∧ us_core st = us_core st0 ∧ us_StateVersion st = CurrentStateVersion ∧
       h_phase h = Some (us_Phase st) ∧ h_revision h = Some (us_Revision st)) ∧
    ∀ h', sy_db c' = Some h' → evolves h h'.
Proof using All.
  intros Hp Hsafe Hf Ho Hc Hr Hr' h Hh. destruct (Create_consistent _ _ _ _ _ _ _ Hp Hc Hf Ho) as [Hb Hc0].
  assert (Hok : sys_ok s (us_core st0) c) by (eapply sys_steps_ok; [done..|split; [constructor|by eexists _, _]]).
  split; [|intros h' Hh'; by eapply sys_steps_evolve].
  destruct Hok as [_ Hok]. rewrite Hh in Hok. destruct Hok as (phase & rev & Hok).
  destruct (store_Get_consistent s _ Hsafe Hb _ _ _ Hok) as (st & E & (E1 & E2 & _) & E3 & E4).
  exists st. destruct Hok as (_ & Hph & Hrev & _). split_and!; [done|done|done|by rewrite E3|by rewrite E4].
Qed.
End mpu_theorems.

(** ** One plaintext per part number

    The key and the IV of a part are functions of the upload and the part
    number, so two different plaintexts must never be encrypted for one part.
    The claim stands for the plaintext. *)

Section nonce.
Context `{Ciphers, StateJSON, MapOrder} (s : ValkeyStateStore).

Definition holders_ok (c : system) : Prop :=
  NoDup (ho_token <$> sy_holders c) ∧
  (∀ ho, ho ∈ sy_holders c → ho_token ho ∈ sy_tokens c) ∧
  (∀ h1 h2, h1 ∈ sy_holders c → h2 ∈ sy_holders c → live h1 → live h2 → ho_pn h1 = ho_pn h2 → ho_claim h1 = ho_claim h2) ∧
  ∀ h, sy_db c = Some h → ∀ ho, ho ∈ sy_holders c →
    (live ho → ∃ p, h_parts h !! ho_pn ho = Some p ∧ pf_claim p = ho_claim ho) ∧
    (ho_reacquired ho = false → ∀ p, h_parts h !! ho_pn ho = Some p → pf_token p = ho_token ho →
       ∀ ho', ho' ∈ sy_holders c → live ho' → ho_pn ho' = ho_pn ho → ho_token ho' = ho_token ho).

(** The clause about the hash carries over to one whose fields keep claims and
    tokens. *)
Lemma holders_db_ok d d' snaps snaps' toks hs :
  holders_ok (mkSystem d snaps toks hs) →
  (∀ h', d' = Some h' → ∃ h, d = Some h ∧ ∀ pn, pn ∈ ho_pn <$> hs →
     (pf_claim <$> h_parts h' !! pn) = (pf_claim <$> h_parts h !! pn) ∧
     (pf_token <$> h_parts h' !! pn) = (pf_token <$> h_parts h !! pn)) →
  holders_ok (mkSystem d' snaps' toks hs).
Proof using.
  intros (Hnd & Htok & Hcl & Hdb) Hsame. split_and!; [done..|]. intros h' E ho Hho. cbn in *.
  destruct (Hsame h' E) as (h & Eh & Hp). destruct (Hp (ho_pn ho)) as [Hp1 Hp2]; [apply list_elem_of_fmap; eauto|].
  destruct (Hdb h Eh ho Hho) as [H2 H3]. split.
  - intros (p & E1 & E2)%H2. rewrite E1 in Hp1. cbn in Hp1. destruct (h_parts h' !! ho_pn ho); simplify_eq/=. eauto with congruence.
  - intros Hre p E1 E2. rewrite E1 in Hp2. cbn in Hp2.
    destruct (h_parts h !! ho_pn ho) as [p0|] eqn:E3; simplify_eq/=. apply (H3 Hre p0); congruence.
Qed.

Lemma update_same pn p v parts parts' pn' :
  update_part pn p v parts parts' →
  (pf_claim <$> parts' !! pn') = (pf_claim <$> parts !! pn') ∧ (pf_token <$> parts' !! pn') = (pf_token <$> parts !! pn').
Proof using.
  intros (Hp & Hc & Ht & _ & ->). destruct (decide (pn = pn')) as [->|]; [|by rewrite lookup_insert_ne].
  rewrite lookup_insert_eq, Hp. cbn. by rewrite Hc, Ht.
Qed.

(** Changing the state of a holder. *)
Lemma holder_change hs1 ho hs2 st' :
  let ho' := mkHolder (ho_pn ho) (ho_claim ho) (ho_token ho) (ho_reacquired ho) st' in
  ho_token <$> hs1 ++ ho' :: hs2 = ho_token <$> hs1 ++ ho :: hs2 ∧
  ∀ x, x ∈ hs1 ++ ho' :: hs2 → live x → st' = Released ∨ live ho →
    ∃ y, y ∈ hs1 ++ ho :: hs2 ∧ live y ∧ ho_pn y = ho_pn x ∧ ho_claim y = ho_claim x ∧ ho_token y = ho_token x.
Proof using.
  intros ho'. split; [by rewrite !fmap_app, !fmap_cons|]. intros x Hx Hl Hst. set_unfold.
  destruct Hx as [Hx|[->|Hx]]; [by exists x; split; [left|]| |by exists x; split; [right; right|]].
  exists ho. destruct Hst as [->|Hst]; [by destruct Hl|]. by split; [right; left|].
Qed.

Lemma granted_code part code z l re :
  code = 6 ∨ code = 8 → granted part [RInt code; RInt z; RInt l] = Some re → re = false → code = 6.
Proof using. intros [->| ->]; unfold granted, reserveReply; cbn; repeat case_match; intros; by simplify_eq/=. Qed.

(** A granted reservation, with or without a client that knows of it. *)
Lemma reserve_holders_ok h snaps toks hs pn v meta ph rev code token toks' (fresh : list holder) :
  holders_ok (mkSystem (Some h) snaps toks hs) → token ∉ toks → pf_token v = token →
  ((code = 6 ∧ h_parts h !! pn = None) ∨
   (code = 8 ∧ ∃ p, h_parts h !! pn = Some p ∧ pf_claim p = pf_claim v ∧ pf_status p ≠ "committed")) →
  (∀ x, x ∈ toks → x ∈ toks') → (fresh ≠ [] → token ∈ toks') →
  fresh = [] ∨ (∃ re, fresh = [mkHolder pn (pf_claim v) token re Granted] ∧ (re = false → code = 6)) →
  holders_ok (mkSystem (Some (written h meta ph rev (<[pn := v]> (h_parts h)))) snaps toks' (fresh ++ hs)).
Proof using.
  intros (Hnd & Htok & Hcl & Hdb) Hfr Htv Hcase Hsub Hin Hfresh. cbn [sy_holders sy_tokens sy_db] in *. specialize (Hdb h eq_refl).
  assert (Hold : ∀ ho, ho ∈ hs → live ho → ho_pn ho = pn → code = 8 ∧ ho_claim ho = pf_claim v).
  { intros ho Hho Hl E. destruct (proj1 (Hdb ho Hho) Hl) as (p & Hp & Hpc). rewrite E in Hp.
    destruct Hcase as [[_ Hn]|(-> & p' & Hp' & Hc' & _)]; [by rewrite Hp in Hn|]. split; [done|]. congruence. }
  assert (Hoth : ∀ ho, ho ∈ hs → ho_token ho ≠ token) by (intros ho Hho E; apply Hfr; rewrite <-E; auto).
  assert (Hnew : ∀ ho, ho ∈ fresh → ho_pn ho = pn ∧ ho_claim ho = pf_claim v ∧ ho_token ho = token ∧ (ho_reacquired ho = false → code = 6)).
  { intros ho Hho. destruct Hfresh as [->|(re & -> & Hre)]; [by apply not_elem_of_nil in Hho|].
    apply list_elem_of_singleton in Hho as ->. done. }
  split_and!; cbn [sy_holders sy_tokens sy_db].
  - rewrite fmap_app. destruct Hfresh as [->|(re & -> & _)]; [done|]. constructor; [|done].
    intros (ho & E & Hho)%list_elem_of_fmap. by apply (Hoth ho).
  - intros ho [Hho|Hho]%elem_of_app; [|auto]. destruct (Hnew ho Hho) as (_ & _ & -> & _). apply Hin. by intros ->; apply not_elem_of_nil in Hho.
  - intros h1 h2 [H1'|H1']%elem_of_app [H2'|H2']%elem_of_app L1 L2 E.
    + by rewrite (proj1 (proj2 (Hnew _ H1'))), (proj1 (proj2 (Hnew _ H2'))).
    + destruct (Hnew _ H1') as (E1 & -> & _). symmetry. apply Hold; [done..|congruence].
    + destruct (Hnew _ H2') as (E2 & -> & _). apply Hold; [done..|congruence].
    + by apply Hcl.
  - intros h' [= <-] ho Hho. cbn [h_parts written]. apply elem_of_app in Hho as [Hho|Hho].
    + destruct (Hnew _ Hho) as (-> & -> & -> & Hre). rewrite lookup_insert_eq. split; [eauto|].
      intros Hf p _ _ ho' [Hho'|Hho']%elem_of_app Hl E; [by apply Hnew|].
      destruct (Hold ho' Hho' Hl E) as [-> _]. by specialize (Hre Hf).
    + destruct (decide (ho_pn ho = pn)) as [E|E].
      * rewrite E, lookup_insert_eq. split; [intros Hl; exists v; split; [done|]; symmetry; by apply Hold|].
        intros _ p [= <-] Ht. destruct (Hoth ho Hho). congruence.
      * rewrite lookup_insert_ne by done. destruct (Hdb ho Hho) as [D1 D2]. split; [done|].
        intros Hf p Hp Ht ho' [Hho'|Hho']%elem_of_app Hl E'; [|by eapply D2]. destruct (Hnew _ Hho') as (E2 & _). congruence.
Qed.

(** A holder that has changed its own state. *)
Lemma change_holders_ok d snaps toks hs1 ho hs2 st' :
  holders_ok (mkSystem d snaps toks (hs1 ++ ho :: hs2)) → st' = Released ∨ live ho →
  holders_ok (mkSystem d snaps toks
    (hs1 ++ mkHolder (ho_pn ho) (ho_claim ho) (ho_token ho) (ho_reacquired ho) st' :: hs2)).
Proof using.
  intros (Hnd & Htok & Hcl & Hdb) Hst. destruct (holder_change hs1 ho hs2 st') as [Heq Hback].
  assert (Hany : ∀ x, x ∈ hs1 ++ mkHolder (ho_pn ho) (ho_claim ho) (ho_token ho) (ho_reacquired ho) st' :: hs2 →
    ∃ y, y ∈ hs1 ++ ho :: hs2 ∧ ho_pn y = ho_pn x ∧ ho_token y = ho_token x ∧ ho_reacquired y = ho_reacquired x).
  { intros x Hx. set_unfold. destruct Hx as [Hx|[->|Hx]]; [exists x| exists ho|exists x]; cbn; auto. }
  split_and!; cbn [sy_holders sy_tokens sy_db] in *.
  - by rewrite Heq.
  - intros x Hx. destruct (Hany x Hx) as (y & Hy & _ & <- & _). auto.
  - intros h1 h2 H1' H2' L1 L2 E. destruct (Hback _ H1' L1 Hst) as (y1 & Y1 & Z1 & E1 & <- & _).
    destruct (Hback _ H2' L2 Hst) as (y2 & Y2 & Z2 & E2 & <- & _). apply Hcl; congruence.
  - intros h Eh x Hx. specialize (Hdb h Eh). split.
    + intros Hl. destruct (Hback _ Hx Hl Hst) as (y & Hy & Ly & <- & <- & _). by apply (Hdb y).
    + destruct (Hany x Hx) as (y & Hy & <- & <- & <-). intros Hf p Hp Ht ho' Hho' Hl E.
      destruct (Hback _ Hho' Hl Hst) as (y' & Hy' & Ly' & E1 & _ & <-). eapply (Hdb y); [done..|congruence].
Qed.

Lemma same_parts_ok d d' snaps snaps' toks hs :
  holders_ok (mkSystem d snaps toks hs) → (∀ h', d' = Some h' → ∃ h, d = Some h ∧ h_parts h' = h_parts h) →
  holders_ok (mkSystem d' snaps' toks hs).
Proof using.
  intros Hok Hd. eapply holders_db_ok; [done|]. intros h' E. destruct (Hd h' E) as (h & -> & Hp). exists h. by rewrite Hp.
Qed.

Lemma release_holders_ok h snaps toks hs1 ho hs2 p meta ph rev :
  holders_ok (mkSystem (Some h) snaps toks (hs1 ++ ho :: hs2)) → live ho → ho_reacquired ho = false →
  h_parts h !! ho_pn ho = Some p → pf_token p = ho_token ho →
  holders_ok (mkSystem (Some (written h meta ph rev (delete (ho_pn ho) (h_parts h)))) snaps toks
    (hs1 ++ mkHolder (ho_pn ho) (ho_claim ho) (ho_token ho) (ho_reacquired ho) Released :: hs2)).
Proof using.
  intros Hok Hl Hre Hp Ht. pose proof Hok as (Hnd & _ & _ & Hdb). cbn in Hnd. rewrite fmap_app, fmap_cons in Hnd.
  pose proof (change_holders_ok _ _ _ _ _ _ Released Hok (or_introl eq_refl)) as (Hnd' & Htok' & Hcl' & Hdb').
  split_and!; [done..|]. intros h' [= <-] x Hx. cbn [sy_holders sy_db h_parts written] in *.
  specialize (Hdb' h eq_refl x Hx). destruct (decide (ho_pn x = ho_pn ho)) as [E|E].
  - rewrite E, lookup_delete_eq. split; [|done]. intros Hlx.
    destruct (proj2 (holder_change hs1 ho hs2 Released) x Hx Hlx (or_introl eq_refl)) as (y & Hy & Ly & E1 & _ & E2).
    assert (Ety : ho_token y = ho_token ho) by (eapply (Hdb h eq_refl ho); [set_solver|done..|congruence]).
    assert (Etx : ho_token x = ho_token ho) by congruence. set_unfold. destruct Hx as [Hx|[->|Hx]]; [|by destruct Hlx|].
    + exfalso. apply NoDup_app in Hnd as (_ & Hdis & _). apply (Hdis (ho_token ho)).
      * apply list_elem_of_fmap. eauto.
      * apply elem_of_cons. by left.
    + exfalso. apply NoDup_app in Hnd as (_ & _ & Hnd2). apply NoDup_cons in Hnd2 as [Hni _]. apply Hni.
      apply list_elem_of_fmap. eauto.
  - rewrite lookup_delete_ne by done. exact Hdb'.
Qed.

Lemma sys_step_holders c c' : sys_step s true c c' → holders_ok c → holders_ok c'.
Proof using.
  intros Hstep Hok. destruct Hstep as [| d snaps toks hs st part now w meta w' r d' lost Hst Hx Hfr Hm Hs | ?????????? Hst Hs | | ??????????? Hst Hx Hm Hs
    | d snaps toks hs1 ho hs2 st w meta w' r d' Hst Hx Hg Hre Hm Hs | ??????????? Hst Hx Hm Hs | ????????????? Hst Hx Hl Hm Hs |].
  - eapply same_parts_ok; [done|]. eauto.
  - apply reserve_effect in Hs as [[-> Hno]|(h & v & code & -> & Ho & -> & <- & Et & _ & -> & Hcase)].
    + assert (granted part r = None) as ->; [|done].
      unfold granted. destruct (reserveReply part r) as [[res|]|] eqn:E; try done. by rewrite (Hno _ _ E).
    + assert (Hc : code = 6 ∨ code = 8) by (destruct Hcase as [[-> _]|[-> _]]; auto).
      destruct (granted part _) as [re|] eqn:Hgr; cbn.
      * pose proof (granted_code _ _ _ _ _ Hc Hgr) as Hre. destruct lost.
        -- apply (reserve_holders_ok h snaps toks hs _ v _ _ _ code (pc_Token part) _ []); try done; [by intros; apply elem_of_cons; right|by left].
        -- eapply (reserve_holders_ok h snaps toks hs _ v _ _ _ code (pc_Token part) _ [_]); try done.
           ++ by intros; apply elem_of_cons; right.
           ++ intros _. apply elem_of_cons. by left.
           ++ right. eauto.
      * apply (reserve_holders_ok h snaps toks hs _ v _ _ _ code (pc_Token part) _ []); try done. by left.
  - apply renew_effect in Hs as [->|(h & p & v & parts & -> & _ & Hu & ->)]; [done|].
    eapply holders_db_ok; [done|]. intros h' [= <-]. exists h. split; [done|]. intros. by eapply update_same.
  - apply change_holders_ok; [done|by right].
  - apply commit_effect in Hs as [->|(h & p & v & parts & -> & _ & Hu & ->)]; [done|].
    eapply holders_db_ok; [done|]. intros h' [= <-]. exists h. split; [done|]. intros. by eapply update_same.
  - apply release_effect in Hs as [->|(h & p & -> & _ & Hp & Ht & _ & ->)].
    + apply change_holders_ok; [done|by left].
    + eapply release_holders_ok; [done|unfold live; by rewrite Hg|by apply Hre|done..].
  - apply complete_effect in Hs as [[-> _]|(h & out & -> & _ & _ & _ & ->)]; [done|].
    eapply same_parts_ok; [done|]. intros h' [= <-]. eauto.
  - apply lifecycle_effect in Hs as [->|(h & -> & _ & _ & _ & ->)]; [done|].
    eapply same_parts_ok; [done|]. intros h' [= <-]. eauto.
  - eapply same_parts_ok; [done|]. done.
Qed.

(** C13: one plaintext per part number. When clients give up only reservations
    that were not taken over from another client, then in every interleaving
    any two clients that have sent a part under the same number have sent the
    same claimed content, whatever leases have expired, replies were lost, or
    parts were committed in between: no key and IV is used for two
    plaintexts. *)
Theorem part_nonce_safe d0 c h1 h2 :
  rtc (sys_step s true) (mkSystem d0 [] [] []) c →
  h1 ∈ sy_holders c → h2 ∈ sy_holders c → ho_st h1 = Sent → ho_st h2 = Sent → ho_pn h1 = ho_pn h2 →
  ho_claim h1 = ho_claim h2.
Proof using.
  intros Hr Hh1 Hh2 S1 S2 E. assert (Hok : holders_ok c).
  { assert (Hok0 : holders_ok (mkSystem d0 [] [] [])).
    { split_and!; cbn; [by apply NoDup_nil|by intros ? ?%not_elem_of_nil|by intros ? ? ?%not_elem_of_nil|]. by intros ? _ ? ?%not_elem_of_nil. }
    revert Hok0. induction Hr; eauto using sys_step_holders. }
  destruct Hok as (_ & _ & Hcl & _). apply Hcl; [done..|unfold live; by rewrite S1|unfold live; by rewrite S2|done].
Qed.
End nonce.

(** ** Completion *)

(** A selection that matches the committed parts. *)
Definition selectable (parts : gmap Z partField) (sp : SelectedPart) (p : partField) : Prop :=
  1 ≤ sp_PartNumber sp ≤ 10000 ∧ parts !! sp_PartNumber sp = Some p ∧ pf_status p = PartStatusCommitted ∧
  stripQuotes (default "" (pf_etag p)) = stripQuotes (sp_ETag sp).

Lemma selectParts_spec parts prev selected out :
  0 ≤ prev →
  selectParts parts prev selected = Some out ↔
  Forall2 (selectable parts) selected out ∧ Sorted Z.lt (prev :: (sp_PartNumber <$> selected)).
Proof.
  revert prev out. induction selected as [|sp rest IH]; intros prev out Hprev; cbn [selectParts fmap list_fmap].
  { split; [intros [= <-]; split; [constructor|repeat constructor]|]. intros [Hf _]. by inversion Hf. }
  destruct ((sp_PartNumber sp <? 1) || (10000 <? sp_PartNumber sp) || (sp_PartNumber sp <=? prev)) eqn:E.
  { split; [done|]. intros [Hf Hs]. inversion Hf as [|? ? ? ? (Hr & _)]; subst. inversion Hs as [|? ? ? Hd]; subst.
    inversion Hd; subst. apply orb_true_iff in E as [[E|E]%orb_true_iff|E]; [apply Z.ltb_lt in E|apply Z.ltb_lt in E|apply Z.leb_le in E]; lia. }
  zbool. destruct (parts !! sp_PartNumber sp) as [p|] eqn:Hp.
  2:{ split; [done|]. intros [Hf _]. inversion Hf as [|? ? ? ? (_ & E' & _)]; subst. by rewrite Hp in E'. }
  destruct (bool_decide_reflect (pf_status p = "committed")) as [Hc|Hc]; cbn [negb].
  2:{ split; [done|]. intros [Hf _]. inversion Hf as [|? ? ? ? (_ & E' & Hc' & _)]; subst. rewrite Hp in E'. by simplify_eq. }
  case_bool_decide as Hq; cbn [negb].
  2:{ split; [done|]. intros [Hf _]. inversion Hf as [|? ? ? ? (_ & E' & _ & Hq')]; subst. rewrite Hp in E'. by simplify_eq. }
  split.
  - intros (o & [Hf Hs]%IH & [= <-])%bind_Some; [|lia]. split; [constructor; [|done]; by repeat split|].
    constructor; [done|]. constructor. lia.
  - intros [Hf Hs]. inversion Hf as [|? ? ? ? (_ & E' & _) Hf']; subst. rewrite Hp in E'. simplify_eq.
    inversion Hs; subst. apply bind_Some. eexists. split; [|done]. apply IH; [lia|done].
Qed.

Section complete.
Context `{CiphersLaws, StateJSONLaws, MapOrder} (s : ValkeyStateStore).

Lemma complete_open core h rev selected meta :
  consistent s core h UploadPhaseOpen rev →
  beginCompleteScript rev selected meta (Some h) =
    match selectParts (h_parts h) 0 selected with
    | None => ([RInt 5], Some h)
    | Some out => (RInt 4 :: (RPart <$> out), Some (written h meta (Some "completing") (rev + 1) (h_parts h)))
    end.
Proof using.
  intros (Hv & Hp & Hr & _ & _ & m0 & Hm & _). destruct h as [m1 v ph r parts]. cbn in *. subst. cbn.
  rewrite Z.eqb_refl. done.
Qed.

(** Outside the open phase the part scripts and the transitions out of it are
    refused. *)
Lemma closed_scripts h d : d = Some h → h_phase h ≠ Some "open" →
  (∀ now pn claim pl tok rv ms m, (reservePartScript now pn claim pl tok rv ms m d).2 = d) ∧
  (∀ pn claim tok pl etag el ch rv m, (commitPartScript pn claim tok pl etag el ch rv m d).2 = d) ∧
  (∀ now pn tok rv ms, (renewPartScript now pn tok rv ms d).2 = d) ∧
  (∀ pn tok rv m, (releasePartScript pn tok rv m d).2 = d) ∧
  (∀ rv sel m, (beginCompleteScript rv sel m d).2 = d) ∧
  (∀ rv m, (atomicLifecycleScript UploadPhaseOpen rv UploadPhaseAborting m "" d).2 = d).
Proof using.
  intros -> Hn. split_and!; intros.
  - destruct (reservePartScript _ _ _ _ _ _ _ _ _) eqn:E. apply reserve_effect in E as [[-> _]|(? & ? & ? & ? & (_ & ? & _) & _)]; simplify_eq; done.
  - destruct (commitPartScript _ _ _ _ _ _ _ _ _ _) eqn:E. apply commit_effect in E as [->|(? & ? & ? & ? & ? & (_ & ? & _) & _)]; simplify_eq; done.
  - destruct (renewPartScript _ _ _ _ _ _) eqn:E. apply renew_effect in E as [->|(? & ? & ? & ? & ? & (_ & ? & _) & _)]; simplify_eq; done.
  - destruct (releasePartScript _ _ _ _ _) eqn:E. apply release_effect in E as [->|(? & ? & ? & (_ & ? & _) & _)]; simplify_eq; done.
  - destruct (beginCompleteScript _ _ _ _) eqn:E. apply complete_effect in E as [[-> _]|(? & ? & ? & (_ & ? & _) & _)]; simplify_eq; done.
  - destruct (atomicLifecycleScript _ _ _ _ _ _) eqn:E. apply lifecycle_effect in E as [->|(? & ? & _ & ? & _)]; simplify_eq; done.
Qed.

Lemma completeReply_parts st out :
  completeReply st (RInt 4 :: (RPart <$> out)) =
    Ok (mkUploadState (us_core st) (part_record <$> out) (us_StateVersion st) UploadPhaseCompleting (wrap_u64 (us_Revision st + 1)),
        wrap_u64 (us_Revision st + 1)).
Proof using.
  cbn. assert (Hm : mapM (λ v, match v with RPart p => Some (part_record p) | _ => None end) (RPart <$> out) = Some (part_record <$> out)).
  { induction out as [|p out IH]; [done|]. cbn. by rewrite IH. }
  by rewrite Hm.
Qed.

Lemma selectable_iff parts selected :
  (∃ out, selectParts parts 0 selected = Some out) ↔
  Sorted Z.lt (0 :: (sp_PartNumber <$> selected)) ∧ Forall (λ sp, ∃ p, selectable parts sp p) selected.
Proof using.
  split.
  - intros (out & [Hf Hs]%selectParts_spec); [|done]. split; [done|]. clear Hs. induction Hf; constructor; eauto.
  - intros [Hs Hf]. assert (∃ out, Forall2 (selectable parts) selected out) as [out Ho].
    { clear Hs. induction Hf as [|sp rest [p Hp] _ [out IH]]; [by eexists|]. exists (p :: out). by constructor. }
    exists out. by apply selectParts_spec.
Qed.

(** Completion. On a consistent open upload that no other client changes
    meanwhile, beginning the completion succeeds exactly when the selection is
    not empty, its part numbers are increasing within 1..10000, and every one
    is a committed part whose ETag it names up to quotes. Then the returned
    state holds just these parts in this order, and the upload has left the
    open phase: no part can be reserved, committed, renewed or released and no
    other completion or abort can begin. *)
Theorem mpu_complete_exact core h rev selected net w :
  json_safe core = true → (uc_EncryptMultipartUploads core = true → ∃ b, BindingIDBytes core = Ok b) →
  consistent s core h UploadPhaseOpen rev → exact_rev rev →
  (ss_encryptState s = false ∨ ∃ c w', EncryptState s (state_marshal (mkUploadState core [] 2 UploadPhaseCompleting (rev + 1))) w = (Ok c, w')) →
  (∀ i, (i < 2)%nat → ac_others (net i) = id ∧ ac_fault (net i) = None) →
  let '(r, d', _) := BeginComplete s selected net (Some h) w in
  ((∃ st rev', r = Ok (st, rev')) ↔
     selected ≠ [] ∧ Sorted Z.lt (0 :: (sp_PartNumber <$> selected)) ∧ Forall (λ sp, ∃ p, selectable (h_parts h) sp p) selected) ∧
  ∀ st rev', r = Ok (st, rev') →
    rev' = rev + 1 ∧ us_core st = core ∧
    Forall2 (λ sp pr, ∃ p, selectable (h_parts h) sp p ∧ pr = part_record p) selected (us_Parts st) ∧
    ∃ h', d' = Some h' ∧ consistent s core h' UploadPhaseCompleting rev' ∧ h_parts h' = h_parts h ∧
      (∀ now pn claim pl tok rv ms m, (reservePartScript now pn claim pl tok rv ms m d').2 = d') ∧
      (∀ pn claim tok pl etag el ch rv m, (commitPartScript pn claim tok pl etag el ch rv m d').2 = d') ∧
      (∀ now pn tok rv ms, (renewPartScript now pn tok rv ms d').2 = d') ∧
      (∀ pn tok rv m, (releasePartScript pn tok rv m d').2 = d') ∧
      (∀ rv sel m, (beginCompleteScript rv sel m d').2 = d') ∧
      (∀ rv m, (atomicLifecycleScript UploadPhaseOpen rv UploadPhaseAborting m "" d').2 = d').
Proof using All.
  intros Hsafe Hb Hc Hx Henc Hnet.
  destruct (Hnet 0%nat ltac:(lia)) as [No0 Nf0]. destruct (Hnet 1%nat ltac:(lia)) as [No1 Nf1].
  destruct (store_Get_consistent s core Hsafe Hb h _ _ Hc) as (st & Hget & Hsnap & _ & Hrev). pose proof Hsnap as (Hcore & _).
  assert (Hseal : ∃ meta w', controlMeta s st UploadPhaseCompleting (wrap_u64 (us_Revision st + 1)) w = (Ok meta, w')).
  { unfold controlMeta, sealMeta, CurrentStateVersion. rewrite Hcore, Hrev, wrap_u64_id by (unfold exact_rev in Hx; lia).
    destruct Henc as [->|(c & w' & E)]; [eauto|]. rewrite E. destruct (ss_encryptState s); eauto. }
  destruct Hseal as (meta & w' & Hm).
  unfold BeginComplete. case_bool_decide as Hne.
  { split; [|done]. split; [by intros (? & ? & ?)|]. intros [? _]. done. }
  unfold with_state. cbn [Nat.mul Nat.add]. unfold redis_get, redis_run. rewrite No0, Nf0, No1, Nf1. unfold id at 1 2. cbn [mbind result_bind].
  rewrite Hget. cbn [id]. rewrite Hm. destruct (beginCompleteScript _ _ _ _) as [r d'] eqn:Hs.
  rewrite Hrev in Hs. pose proof Hc as (Hv & Hph & Hrv & _).
  rewrite (complete_open core) in Hs by done. destruct (selectParts (h_parts h) 0 selected) as [out|] eqn:Hsel; injection Hs as <- <-.
  - rewrite completeReply_parts, Hrev, wrap_u64_id by (unfold exact_rev in Hx; lia). split.
    { split; [|eauto]. intros _. split; [done|]. apply selectable_iff. eauto. }
    intros st' rev' E. injection E as <- <-. split_and!; [done|done| |].
    + apply selectParts_spec in Hsel as [Hf _]; [|done]. cbn [us_Parts]. apply Forall2_fmap_r. eapply Forall2_impl; [done|]. eauto.
    + eexists. split; [done|]. split; [|split; [done|]].
      * unfold controlMeta in Hm. rewrite ?Hrev in Hm. eapply (written_consistent s core Hsafe Hb h _ _ st); try done. unfold phases. set_solver.
      * eapply closed_scripts; [done|]. done.
  - split; [|done]. split; [by intros (? & ? & ?)|]. intros [_ Hx2]. apply selectable_iff in Hx2 as [out Hout]. congruence.
Qed.
End complete.

(** ** The theorems at concrete inputs *)

Module MPUStateWitness.
(** A serialization with the round-trip law. *)
Fixpoint pos_bits (p : positive) : list byte :=
  match p with xH => [] | xO p => x00 :: pos_bits p | xI p => x01 :: pos_bits p end.
Fixpoint bits_pos (l : list byte) : positive :=
  match l with [] => xH | x00 :: l => xO (bits_pos l) | _ :: l => xI (bits_pos l) end.
Lemma bits_pos_bits p : bits_pos (pos_bits p) = p.
Proof. induction p; cbn; congruence. Qed.

Definition z_bits (z : Z) : list byte :=
  match z with Z0 => [] | Zpos p => x02 :: pos_bits p | Zneg p => x03 :: pos_bits p end.
Definition bits_z (l : list byte) : Z :=
  match l with x02 :: l => Zpos (bits_pos l) | x03 :: l => Zneg (bits_pos l) | _ => 0 end.
Lemma bits_z_bits z : bits_z (z_bits z) = z.
Proof. destruct z; cbn; by rewrite ?bits_pos_bits. Qed.

(** Fields without the byte 255, each followed by it. *)
Definition clean (l : list byte) : Prop := Forall (λ b, chr_eqb b xff = false) l.
Definition pack (fs : list (list byte)) : list byte := concat ((λ f, f ++ [xff]) <$> fs).
Lemma split_pack fs : Forall clean fs → split_bytes xff (pack fs) [] = fs ++ [[]].
Proof.
  induction 1 as [|f fs Hf _ IH]; [done|]. unfold pack in *. rewrite fmap_cons. cbn [concat]. rewrite <-(assoc_L (++)).
  change ([xff] ++ ?l) with (xff :: l). rewrite split_bytes_app by done. by rewrite IH.
Qed.
Lemma ascii_clean s : ascii s = true → clean (bytes_of_string s).
Proof.
  unfold ascii, clean. rewrite forallb_forall, Forall_forall. intros Ha b Hb.
  specialize (Ha b (proj1 (list_elem_of_In _ _) Hb)). destruct b; try done; vm_compute in Ha; done.
Qed.
Lemma pos_clean p : clean (pos_bits p).
Proof. induction p; cbn; by constructor. Qed.
Lemma z_clean z : clean (z_bits z).
Proof. destruct z; cbn; constructor; try done; apply pos_clean. Qed.

Definition state_fields (st : UploadState) : list (list byte) :=
  let c := us_core st in
  (bytes_of_string <$> [uc_UploadID c; uc_Bucket c; uc_Key c; uc_BindingID c; uc_UploadIDHash c; uc_WrappedDEK c;
     uc_IVPrefixHex c; uc_Algorithm c; uc_KMSKeyID c; uc_KMSProvider c; us_Phase st]) ++
  (z_bits <$> [uc_ChunkSize c; uc_KMSKeyVersion c; uc_CreatedAt c; us_StateVersion st; us_Revision st;
     if uc_EncryptMultipartUploads c then 1 else 0]).
#[export] Instance toy_json : StateJSON := {|
  state_marshal st := pack (state_fields st);
  state_unmarshal l :=
    match split_bytes xff l [] with
    | [a; b; c; d; e; f; g; h; i; j; k; l; m; n; o; p; q; _] =>
        let s := string_of_bytes in
        Ok (mkUploadState (mkUploadCore (s a) (s b) (s c) (s d) (s e) (s f) (s g) (s h) (bits_z l) (s i) (s j) (bits_z m)
              (negb (bits_z q =? 0)) (bits_z n)) [] (bits_z o) (s k) (bits_z p))
    | _ => Err (Errorf "invalid character")
    end |}.
#[export] Instance toy_json_laws : StateJSONLaws.
Proof.
  split. intros [c parts v ph r] Hc Hp ?. cbn [us_Parts us_core us_Phase] in *. subst parts. unfold json_safe in Hc.
  cbn [forallb] in Hc. zbool. cbn -[state_fields split_bytes pack]. rewrite split_pack.
  - cbn -[bits_z z_bits string_of_bytes bytes_of_string]. rewrite !bits_z_bits, !string_of_bytes_of_string. destruct c as [????????????[] ?]; done.
  - unfold state_fields. cbn [us_core us_Phase us_StateVersion us_Revision fmap list_fmap app].
    repeat (constructor; [apply ascii_clean; done || apply z_clean|]). repeat (constructor; [apply z_clean|]). constructor.
Qed.
#[export] Instance toy_order : MapOrder := {| map_order := id; map_order_perm := λ l, reflexivity l |}.

Definition core0 : UploadCore :=
  mkUploadCore "up-1" "bucket" "key" "AQIDBAUGBwgJCgsMDQ4PEA" "hash" "dek" "iv" "AES256-GCM" 65536 "k" "memory" 1 true 5.
Definition st0 : UploadState := mkUploadState core0 [] 0 "" 0.
Definition s0 : ValkeyStateStore := mkStore 0 (Some (replicate 32 x11)) None true false.
Definition w0 : World := mkWorld 0 [] [] [].
End MPUStateWitness.

Section run.
Context `{Ciphers, StateJSON, MapOrder} (s : ValkeyStateStore).
Import MPUStateWitness.

(** Reading and reserving, giving up, and sending, as functions on the system. *)
Definition snap (c : system) : UploadState := match store_Get s (sy_db c) with Ok st => st | Err _ => st0 end.
Definition blob (c : system) : list byte :=
  match (controlMeta s (snap c) UploadPhaseOpen (wrap_u64 (us_Revision (snap c) + 1)) w0).1 with Ok m => m | Err _ => [] end.
Definition do_get (c : system) : system := mkSystem (sy_db c) (snap c :: sy_snaps c) (sy_tokens c) (sy_holders c).
Definition do_reserve (part : PartClaim) (now : Z) (c : system) : system :=
  let '(r, d') := reservePartScript now (pc_PartNumber part) (pc_Claim part) (pc_PlainLen part) (pc_Token part)
                    (us_Revision (snap c)) (leaseMillis s) (blob c) (sy_db c) in
  mkSystem d' (snap c :: sy_snaps c) (if granted part r then pc_Token part :: sy_tokens c else sy_tokens c)
    (match granted part r with
     | Some re => mkHolder (pc_PartNumber part) (pc_Claim part) (pc_Token part) re Granted :: sy_holders c
     | None => sy_holders c
     end).
Definition readable (c : system) : bool :=
  match store_Get s (sy_db c) with Ok _ => true | Err _ => false end &&
  match controlMeta s (snap c) UploadPhaseOpen (wrap_u64 (us_Revision (snap c) + 1)) w0 with (Ok _, _) => true | _ => false end &&
  (0 <=? us_Revision (snap c)) && (us_Revision (snap c) <? 2 ^ 53 - 1).

Lemma do_reserve_steps careful part now c :
  readable c = true → pc_Token part ∉ sy_tokens c → rtc (sys_step s careful) c (do_reserve part now c).
Proof.
  intros Hr Ht. unfold readable in Hr. zbool. destruct c as [d snaps toks hs]. eapply rtc_l.
  { apply (step_get _ _ _ _ _ _ (snap (mkSystem d snaps toks hs))). unfold snap. cbn in *. by destruct (store_Get s d). }
  apply rtc_once. unfold do_reserve. destruct (reservePartScript _ _ _ _ _ _ _ _ _) as [r d'] eqn:E.
  unfold blob in E. destruct (controlMeta _ _ _ _ _) as [[m|] w'] eqn:Em; [|done].
  eapply (step_reserve s careful d _ toks hs _ part now w0 m w' r d' false); [by apply elem_of_cons; left|split; lia|done|exact Em|exact E].
Qed.

Definition do_release (c : system) : system :=
  match sy_holders c with
  | ho :: hs =>
      let '(r, d') := releasePartScript (ho_pn ho) (ho_token ho) (us_Revision (snap c)) (blob c) (sy_db c) in
      mkSystem d' (snap c :: sy_snaps c) (sy_tokens c)
        (mkHolder (ho_pn ho) (ho_claim ho) (ho_token ho) (ho_reacquired ho) Released :: hs)
  | [] => c
  end.
Lemma do_release_steps c ho hs :
  readable c = true → sy_holders c = ho :: hs → ho_st ho = Granted → rtc (sys_step s false) c (do_release c).
Proof.
  intros Hr Hh Hg. unfold readable in Hr. zbool. destruct c as [d snaps toks hs0]. cbn in Hh. subst. eapply rtc_l.
  { apply (step_get _ _ _ _ _ _ (snap (mkSystem d snaps toks (ho :: hs)))). unfold snap. cbn in *. by destruct (store_Get s d). }
  apply rtc_once. unfold do_release. cbn [sy_holders]. destruct (releasePartScript _ _ _ _ _) as [r d'] eqn:E.
  unfold blob in E. destruct (controlMeta _ _ _ _ _) as [[m|] w'] eqn:Em; [|done].
  eapply (step_release s false d _ toks [] ho hs _ w0 m w' r d'); [by apply elem_of_cons; left|split; lia|done|done|exact Em|exact E].
Qed.

Definition do_send (n : nat) (c : system) : system :=
  mkSystem (sy_db c) (sy_snaps c) (sy_tokens c)
    (take n (sy_holders c) ++ ((λ ho, mkHolder (ho_pn ho) (ho_claim ho) (ho_token ho) (ho_reacquired ho) Sent) <$> take 1 (drop n (sy_holders c)))
       ++ drop (S n) (sy_holders c)).
Lemma do_send_steps careful n c ho :
  sy_holders c !! n = Some ho → ho_st ho ≠ Released → rtc (sys_step s careful) c (do_send n c).
Proof.
  intros Hn Hl. apply rtc_once. destruct c as [d snaps toks hs]. unfold do_send. cbn in *.
  rewrite <-(take_drop_middle hs n ho Hn) at 1. rewrite (drop_S hs ho n Hn). cbn. by apply step_send.
Qed.
End run.

Section witnesses.
Import ToyInstances MPUStateWitness.

Definition claimed (claim token : string) : PartClaim := mkPartClaim 7 claim 100 "" token "" 0 0.
Definition created : db := (Create s0 st0 (quiet 0) None w0).1.2.
Definition start : system := mkSystem created [] [] [].
(** A client reserves a part, stalls until its lease is over, and another one
    takes the reservation of the same content over. *)
Definition first : system := do_reserve s0 (claimed "X" "A") 0 start.
Definition taken_over : system := do_reserve s0 (claimed "X" "B") 200000 first.

Lemma first_reachable careful : rtc (sys_step s0 careful) start first.
Proof. apply do_reserve_steps; [vm_compute; reflexivity|]. by apply not_elem_of_nil. Qed.
Lemma taken_over_reachable careful : rtc (sys_step s0 careful) first taken_over.
Proof.
  apply do_reserve_steps; [vm_compute; reflexivity|]. assert (E : sy_tokens first = ["A"]) by (vm_compute; reflexivity).
  rewrite E. intros Hin%list_elem_of_singleton. discriminate.
Qed.

Lemma mpu_state_safe_witness : ∃ h h', sy_db first = Some h ∧ sy_db taken_over = Some h' ∧ evolves h h' ∧
  ∃ st, store_Get s0 (Some h) = Ok st ∧ us_core st = core0.
Proof.
  assert (H0 : is_Some created) by (vm_compute; eexists; reflexivity). destruct H0 as [h0 E0].
  assert (H1 : is_Some (sy_db first)) by (vm_compute; eexists; reflexivity). destruct H1 as [h E].
  assert (H2 : is_Some (sy_db taken_over)) by (vm_compute; eexists; reflexivity). destruct H2 as [h' E'].
  assert (Hc : Create s0 st0 (quiet 0) None w0 = (None, created, w0)) by (vm_compute; reflexivity). rewrite E0 in Hc.
  pose proof (first_reachable false) as Hf. unfold start in Hf. rewrite E0 in Hf.
  destruct (mpu_state_safe s0 st0 (quiet 0) w0 w0 h0 first taken_over eq_refl eq_refl eq_refl eq_refl Hc Hf
    (taken_over_reachable false) h E) as [(st & E1 & E2 & _) Hev].
  exists h, h'. split; [exact E|]. split; [exact E'|]. split; [exact (Hev h' E')|]. exists st. split; [exact E1|exact E2].
Defined.

Definition both_sent : system := do_send 0 (do_send 1 taken_over).
Lemma part_nonce_safe_witness : ∃ h1 h2, sy_holders both_sent = [h1; h2] ∧ ho_token h1 ≠ ho_token h2 ∧
  ho_st h1 = Sent ∧ ho_st h2 = Sent ∧ ho_claim h1 = ho_claim h2.
Proof.
  eexists _, _. split; [vm_compute; reflexivity|]. split; [vm_compute; discriminate|]. split; [reflexivity|]. split; [reflexivity|].
  apply (part_nonce_safe s0 created both_sent); try reflexivity.
  - etrans; [apply first_reachable|]. etrans; [apply taken_over_reachable|].
    etrans; eapply do_send_steps; [vm_compute; reflexivity|vm_compute; discriminate|vm_compute; reflexivity|vm_compute; discriminate].
  - assert (E : sy_holders both_sent = [mkHolder 7 "X" "B" true Sent; mkHolder 7 "X" "A" false Sent]) by (vm_compute; reflexivity).
    rewrite E. apply elem_of_cons. by left.
  - assert (E : sy_holders both_sent = [mkHolder 7 "X" "B" true Sent; mkHolder 7 "X" "A" false Sent]) by (vm_compute; reflexivity).
    rewrite E. apply elem_of_cons. right. apply elem_of_cons. by left.
Defined.

(** Without that restriction, the part handler's own behaviour, two contents
    can be sent under one part number: the client that took the reservation
    over gives it up before sending, other content is then reserved, and both
    it and the stalled first client send. *)
Definition reused : system := do_send 2 (do_send 0 (do_reserve s0 (claimed "Y" "C") 200001 (do_release s0 taken_over))).
Lemma reacquired_release_reuses_nonce :
  rtc (sys_step s0 false) start reused ∧
  ∃ h1 h2, h1 ∈ sy_holders reused ∧ h2 ∈ sy_holders reused ∧ ho_st h1 = Sent ∧ ho_st h2 = Sent ∧ ho_pn h1 = ho_pn h2 ∧
    ho_claim h1 ≠ ho_claim h2.
Proof.
  split.
  - etrans; [apply first_reachable|]. etrans; [apply taken_over_reachable|].
    etrans; [eapply do_release_steps; vm_compute; reflexivity|].
    etrans; [apply (do_reserve_steps s0 false (claimed "Y" "C") 200001); [vm_compute; reflexivity|]|].
    { assert (E : sy_tokens (do_release s0 taken_over) = ["B"; "A"]) by (vm_compute; reflexivity). rewrite E.
      intros [Hin|Hin%list_elem_of_singleton]%elem_of_cons; discriminate. }
    etrans; eapply do_send_steps; [vm_compute; reflexivity|vm_compute; discriminate|vm_compute; reflexivity|vm_compute; discriminate].
  - assert (E : sy_holders reused = [mkHolder 7 "Y" "C" false Sent; mkHolder 7 "X" "B" true Released; mkHolder 7 "X" "A" false Sent])
      by (vm_compute; reflexivity).
    rewrite E. eexists (mkHolder 7 "Y" "C" false Sent), (mkHolder 7 "X" "A" false Sent). split; [apply elem_of_cons; by left|].
    split; [do 2 (apply elem_of_cons; right); by apply list_elem_of_singleton|]. repeat split; discriminate || reflexivity.
Qed.

(** Parts 3 and 7 committed. *)
Definition committed_at (pn : Z) (etag : string) : partField :=
  mkPartField pn "X" 100 "committed" "A" (Some etag) (Some 116) (Some 1) None.
Definition ready : Hash :=
  match created with
  | Some h => mkHash (h_meta h) (h_state_version h) (h_phase h) (h_revision h) {[3 := committed_at 3 "e3"; 7 := committed_at 7 "e7"]}
  | None => mkHash None None None None ∅
  end.
Definition ready_meta : list byte := default [] (h_meta ready).
Lemma ready_consistent : consistent s0 core0 ready UploadPhaseOpen 1.
Proof.
  split; [vm_compute; reflexivity|]. split; [vm_compute; reflexivity|]. split; [vm_compute; reflexivity|].
  split; [apply elem_of_cons; by left|]. split; [lia|]. exists ready_meta. split; vm_compute; reflexivity.
Qed.
Lemma mpu_complete_exact_witness :
  ∃ st d w, BeginComplete s0 [mkSelected 3 "e3"; mkSelected 7 "e7"] (λ _, quiet 0) (Some ready) w0 = (Ok (st, 2), d, w) ∧
    length (us_Parts st) = 2%nat.
Proof.
  assert (Hb : uc_EncryptMultipartUploads core0 = true → ∃ b, BindingIDBytes core0 = Ok b)
    by (intros _; eexists; vm_compute; reflexivity).
  assert (Hx : exact_rev 1) by (unfold exact_rev; lia).
  assert (He : ∃ c w', EncryptState s0 (state_marshal (mkUploadState core0 [] 2 UploadPhaseCompleting (1 + 1))) w0 = (Ok c, w'))
    by (eexists _, _; vm_compute; reflexivity).
  pose proof (mpu_complete_exact s0 core0 ready 1 [mkSelected 3 "e3"; mkSelected 7 "e7"] (λ _, quiet 0) w0
    eq_refl Hb ready_consistent Hx (or_intror He) (λ _ _, conj eq_refl eq_refl)) as Hc.
  assert (Hr : ∃ st, (BeginComplete s0 [mkSelected 3 "e3"; mkSelected 7 "e7"] (λ _, quiet 0) (Some ready) w0).1.1 = Ok (st, 2))
    by (eexists; vm_compute; reflexivity).
  destruct Hr as [st Hr]. destruct (BeginComplete s0 _ _ (Some ready) w0) as [[r d] w]. cbn [fst] in Hr. subst r.
  destruct Hc as [_ Hc]. destruct (Hc st 2 eq_refl) as (_ & _ & Hf & _). exists st, d, w. split; [reflexivity|].
  apply Forall2_length in Hf. symmetry. exact Hf.
Defined.
End witnesses.
