(* ===== verification/ObjectMeta.v ===== *)
(** * Standard object headers

    [internal/objectmeta/standard.go]: the six client-visible standard headers
    as a record, how they are split off a metadata map and put back, and the
    normalisation of the keys a backend returns. [Names] and [IsStandard] are
    in Metadata.v. *)
From S2P Require Import Prelude GoStd Metadata ObjectFormat.
Local Open Scope Z_scope.

Record Standard := mkStandard {
  st_ContentType : string; st_CacheControl : string; st_ContentDisposition : string;
  st_ContentEncoding : string; st_ContentLanguage : string; st_Expires : string }.
Definition zeroStandard : Standard := mkStandard "" "" "" "" "" "".

Definition Standard_Get (s : Standard) (name : string) : string :=
  let n := ToLower name in
  if decide (n = "content-type") then st_ContentType s
  else if decide (n = "cache-control") then st_CacheControl s
  else if decide (n = "content-disposition") then st_ContentDisposition s
  else if decide (n = "content-encoding") then st_ContentEncoding s
  else if decide (n = "content-language") then st_ContentLanguage s
  else if decide (n = "expires") then st_Expires s
  else "".

Definition Standard_Set (s : Standard) (name value : string) : Standard :=
  let '(mkStandard a b c d e f) := s in
  let n := ToLower name in
  if decide (n = "content-type") then mkStandard value b c d e f
  else if decide (n = "cache-control") then mkStandard a value c d e f
  else if decide (n = "content-disposition") then mkStandard a b value d e f
  else if decide (n = "content-encoding") then mkStandard a b c value e f
  else if decide (n = "content-language") then mkStandard a b c d value f
  else if decide (n = "expires") then mkStandard a b c d e value
  else s.

(** An [http.Header]: each key with its values. *)
Definition FromHeader (h : list (string * list string)) : Standard :=
  foldl (λ s name,
    foldl (λ s kv,
      match kv.2 with
      | v :: _ => if EqualFold kv.1 name then Standard_Set s name v else s
      | [] => s
      end) s h) zeroStandard Names.

Definition objectmeta_Split (meta : gomap) : Standard * gomap :=
  foldl (λ '(s, remainder) kv,
    if IsStandard kv.1 then (Standard_Set s kv.1 kv.2, remainder)
    else (s, map_set remainder kv.1 kv.2)) (zeroStandard, []) meta.

Definition ApplyTo (s : Standard) (meta : gomap) : gomap :=
  foldl (λ meta name, if decide (Standard_Get s name ≠ "") then map_set meta name (Standard_Get s name) else meta) meta Names.

Definition Overlay (s o : Standard) : Standard :=
  foldl (λ s name, if decide (Standard_Get o name ≠ "") then Standard_Set s name (Standard_Get o name) else s) s Names.

Definition NormalizeBackendKeys (meta : gomap) : gomap :=
  foldl (λ out kv,
    if HasPrefix (ToLower kv.1) "x-amz-" then map_set out (ToLower kv.1) kv.2
    else if EqualFold kv.1 "etag" then map_set out "ETag" kv.2
    else map_set out (CanonicalHeaderKey kv.1) kv.2) [] meta.

(** [stampProtectedStandard] of metadata_view.go. *)
Definition stampProtectedStandard (dst caller : gomap) : gomap :=
  let standard := (objectmeta_Split caller).1 in
  foldl (λ dst spec,
    let value := Standard_Get standard (Header spec) in
    if decide (value ≠ "") then map_set dst (Canonical spec) value else dst) dst ProtectedStandardKeys.

(** ** Lemmas *)

#[local] Arguments ToLower : simpl never.

(** The six headers are told apart by their lower-case names. *)
Lemma Names_lower :
  (ToLower <$> Names) = ["content-type"; "cache-control"; "content-disposition"; "content-encoding"; "content-language"; "expires"].
Proof. vm_compute. reflexivity. Qed.

Lemma IsStandard_lower k : IsStandard k = true ↔ ToLower k ∈ ToLower <$> Names.
Proof.
  unfold IsStandard. rewrite existsb_exists. split.
  - intros (n & Hn & E%EqualFold_spec). rewrite E. apply list_elem_of_fmap_2. by apply list_elem_of_In.
  - intros (n & E & Hn)%list_elem_of_fmap. exists n. split; [by apply list_elem_of_In|]. by apply EqualFold_spec.
Qed.

Lemma Get_Set s k k' v :
  IsStandard k = true →
  Standard_Get (Standard_Set s k v) k' = if decide (ToLower k = ToLower k') then v else Standard_Get s k'.
Proof.
  rewrite IsStandard_lower, Names_lower. intros Hk. destruct s as [a b c d e f].
  unfold Standard_Set, Standard_Get. generalize dependent (ToLower k). generalize (ToLower k'). clear. intros n' n Hk.
  repeat (apply elem_of_cons in Hk as [->|Hk]); [..|by apply elem_of_nil in Hk];
    cbn; repeat case_decide; simplify_eq; done.
Qed.

Lemma Get_fold s k k' : ToLower k = ToLower k' → Standard_Get s k = Standard_Get s k'.
Proof. unfold Standard_Get. by intros ->. Qed.

Lemma IsStandard_fold k k' : ToLower k = ToLower k' → IsStandard k = IsStandard k'.
Proof. intros E. unfold IsStandard, EqualFold. by rewrite E. Qed.

Lemma Split_get meta s r n :
  fold_distinct meta → IsStandard n = true →
  Standard_Get (foldl (λ '(s, remainder) kv,
    if IsStandard kv.1 then (Standard_Set s kv.1 kv.2, remainder)
    else (s, map_set remainder kv.1 kv.2)) (s, r) meta).1 n =
  match metadataValue meta n with Some v => v | None => Standard_Get s n end.
Proof.
  revert s r. induction meta as [|[k v] meta IH]; intros s r Hd Hn; [done|].
  apply NoDup_cons in Hd as [Hk Hd]. cbn [foldl metadataValue fst snd].
  destruct (IsStandard k) eqn:Ek.
  - rewrite IH by done. destruct (EqualFold k n) eqn:E.
    + apply EqualFold_spec in E. rewrite (proj2 (metadataValue_None meta n)).
      * by rewrite Get_Set, decide_True.
      * intros k' Hk' E'. destruct Hk. cbn [fst]. rewrite E, <-E'. by apply list_elem_of_fmap_2.
    + destruct (metadataValue meta n); [done|]. rewrite Get_Set by done. rewrite decide_False; [done|].
      intros E'%EqualFold_spec. by rewrite E in E'.
  - rewrite IH by done. destruct (EqualFold k n) eqn:E; [|done].
    apply EqualFold_spec in E. by rewrite (IsStandard_fold _ _ E), Hn in Ek.
Qed.

(** The standard headers of a map are the values under their names. *)
Lemma objectmeta_Split_spec meta n :
  fold_distinct meta → IsStandard n = true → Standard_Get (objectmeta_Split meta).1 n = metadataValueFold meta n.
Proof.
  intros Hd Hn. unfold objectmeta_Split. rewrite Split_get by done. unfold metadataValueFold.
  destruct (metadataValue meta n); [done|]. cbn. unfold Standard_Get, zeroStandard; cbn. by repeat case_decide.
Qed.

Lemma header_standard spec : spec ∈ ProtectedStandardKeys → IsStandard (Header spec) = true.
Proof.
  intros Hs. assert (Hall : forallb (λ s, IsStandard (Header s)) ProtectedStandardKeys = true) by (vm_compute; reflexivity).
  rewrite forallb_forall in Hall. apply Hall. by apply list_elem_of_In.
Qed.
