(* ===== verification/Engine.v ===== *)
(** * The encryption engine: configuration and writing

    [internal/crypto/engine.go] with [engine_options.go], [metadata_encrypt.go],
    the sealing of [metadata_view.go] and [etag_default.go]/[etag_fips.go]: an
    engine is built from a password and options; [Encrypt] turns a plaintext
    and the caller's metadata into a body and the metadata stored with it, in
    buffered or chunked mode, and moves metadata that is too large for the
    provider into the body. Reading is in EngineRead.v. *)
From S2P Require Import Prelude GoStd GoText GoIO Primitives ObjectAAD ChunkLayout ChunkRecord ChunkedStream.
From stdpp Require Import sorting.
From S2P Require Import KeyManager Rotation Metadata ObjectFormat ObjectMeta Kdf PasswordKeyManager.
Local Open Scope Z_scope.
Local Open Scope go_scope.

Definition MetaEncryptedMetadataCompact : string := "x-amz-meta-em".
Definition MaxFallbackPrefixBytes : Z := 1048576 + 4.

(** ** Parameters *)

(** [encoding/json] on [map[string]string]: an error, or a map that is nil
    for the text [null]. *)
Class MapJSON := {
  json_marshal_map : gomap → list byte;
  json_unmarshal_map : list byte → option (option gomap) }.

(** Strings that JSON carries unchanged; others have invalid UTF-8 replaced. *)
Definition ascii_string (s : string) : bool := forallb (λ b, byte_val b <? 128) (bytes_of_string s).
Definition ascii_map (m : gomap) : Prop := Forall (λ kv, ascii_string kv.1 && ascii_string kv.2 = true) m.
Class MapJSONLaws `{MapJSON} : Prop := {
  json_map_roundtrip : ∀ m, wf_map m → ascii_map m →
    ∃ m', json_unmarshal_map (json_marshal_map m) = Some (Some m') ∧ m' ≡ₚ m }.

(** [crypto/md5]. *)
Class MD5 := { md5_Sum : list byte → list byte }.

(** [aes.NewCipher] followed by [cipher.NewGCM]. *)
Definition newAESGCM `{Ciphers} (key : list byte) : result AEAD :=
  if (len key =? 16) || (len key =? 24) || (len key =? 32) then Ok (aes_gcm key)
  else Err (Errorf "crypto/aes: invalid key size").

Definition computeETag `{MD5, SHA256, BuildTags} (data : list byte) : string :=
  hex_encode (if tag_fips then sha256 data else md5_Sum data).

(** ** Engines *)

Record Argon2idConfig := mkArgon2 { a2_Time : Z; a2_Memory : Z; a2_Threads : Z }.

(** The engine's settings; the key manager, the rotation state and the
    randomness are in [EngineState]. [en_compactor] is the profile of the
    metadata compactor. *)
Record engine := mkEngine {
  en_password : list byte; en_pbkdf2Iterations : Z; en_kdfAlgorithm : string; en_argon2idParams : Argon2idConfig;
  en_preferredAlgorithm : string; en_supportedAlgorithms : list string;
  en_chunkedMode : bool; en_chunkSize : Z; en_providerProfile : ProviderProfile; en_compactor : ProviderProfile;
  en_metadataKey : option (list byte); en_allowUnmarkedNoAAD : bool; en_kdfLimits : KDFLimits;
  en_optionErr : option error }.

Definition NewEngineWithChunkingAndMetadataProfile (password : list byte) (preferredAlgorithm : string)
    (supportedAlgorithms : list string) (chunkedMode : bool) (chunkSize : Z) (provider profileMode : string)
    (pbkdf2Iterations : Z) : result engine :=
  if len password =? 0 then Err (Errorf "encryption password cannot be empty")
  else if len password <? 12 then Err (Errorf "encryption password must be at least 12 characters")
  else
    let preferredAlgorithm := if decide (preferredAlgorithm = "") then AlgorithmAES256GCM else preferredAlgorithm in
    let supportedAlgorithms :=
      if decide (supportedAlgorithms = []) then [AlgorithmAES256GCM; AlgorithmChaCha20Poly1305] else supportedAlgorithms in
    if negb (isAlgorithmSupported preferredAlgorithm supportedAlgorithms)
    then Err (Errorf "preferred algorithm %s is not in supported algorithms list")
    else
      let chunkSize := if chunkSize =? 0 then DefaultChunkSize else chunkSize in
      let chunkSize := if chunkSize <? MinChunkSize then MinChunkSize else chunkSize in
      let chunkSize := if MaxChunkSize <? chunkSize then MaxChunkSize else chunkSize in
      profile ← ResolveMetadataProfile provider profileMode;
      Ok (mkEngine password pbkdf2Iterations KDFAlgPBKDF2SHA256 (mkArgon2 2 19456 1)
            preferredAlgorithm supportedAlgorithms chunkedMode chunkSize profile profile None false DefaultKDFLimits None).

Definition NewEngineWithChunkingAndProvider (password : list byte) (preferredAlgorithm : string)
    (supportedAlgorithms : list string) (chunkedMode : bool) (chunkSize : Z) (provider : string)
    (pbkdf2Iterations : Z) : result engine :=
  NewEngineWithChunkingAndMetadataProfile password preferredAlgorithm supportedAlgorithms chunkedMode chunkSize
    provider "" pbkdf2Iterations.

(** The functional options of engine_options.go; [WithWrappedMetadataKey] only
    fills a field that nothing reads. *)
Inductive EngineOption (K : Type) :=
| WithKeyManager (km : option K)
| WithPBKDF2Iterations (n : Z)
| WithKDFLimits (limits : KDFLimits)
| WithKDFAlgorithm (alg : string)
| WithArgon2idParams (time memory threads : Z)
| WithPreferredAlgorithm (alg : string)
| WithSupportedAlgorithms (algs : list string)
| WithChunking (enabled : bool)
| WithChunkSize (size : Z)
| WithProvider (provider : string)
| WithMetadataProfile (provider mode : string)
| WithMetadataKey (key : list byte)
| WithAllowUnmarkedNoAADFallback (b : bool).
Arguments WithKeyManager {K}. Arguments WithPBKDF2Iterations {K}. Arguments WithKDFLimits {K}.
Arguments WithKDFAlgorithm {K}. Arguments WithArgon2idParams {K}. Arguments WithPreferredAlgorithm {K}.
Arguments WithSupportedAlgorithms {K}. Arguments WithChunking {K}. Arguments WithChunkSize {K}.
Arguments WithProvider {K}. Arguments WithMetadataProfile {K}. Arguments WithMetadataKey {K}.
Arguments WithAllowUnmarkedNoAADFallback {K}.

Definition applyOption {K} (ek : engine * option K) (o : EngineOption K) : engine * option K :=
  let '(mkEngine pw it ka a2 pa sa cm cs pp cp mk nu kl oe as e, k) := ek in
  match o with
  | WithKeyManager None => ek
  | WithKeyManager (Some km) => (e, Some km)
  | WithPBKDF2Iterations n =>
      if (n <? MinPBKDF2Iterations) || (MaxPBKDF2Iterations <? n)
      then (mkEngine pw it ka a2 pa sa cm cs pp cp mk nu kl
              (Some (invalidKDF KDFAlgPBKDF2SHA256 "iterations" (Z.max n 0) "outside hard bounds")), k)
      else (mkEngine pw n ka a2 pa sa cm cs pp cp mk nu kl oe, k)
  | WithKDFLimits limits => (mkEngine pw it ka a2 pa sa cm cs pp cp mk nu limits oe, k)
  | WithKDFAlgorithm alg => if decide (alg = "") then ek else (mkEngine pw it alg a2 pa sa cm cs pp cp mk nu kl oe, k)
  | WithArgon2idParams time memory threads =>
      if (time =? 0) && (memory =? 0) && (threads =? 0) then ek else
      match ValidateKDFParams (mkKDF KDFAlgArgon2id 0 time memory threads) DefaultKDFLimits with
      | Some err => (mkEngine pw it ka a2 pa sa cm cs pp cp mk nu kl (Some err), k)
      | None => (mkEngine pw it ka (mkArgon2 time memory threads) pa sa cm cs pp cp mk nu kl oe, k)
      end
  | WithPreferredAlgorithm alg => if decide (alg = "") then ek else (mkEngine pw it ka a2 alg sa cm cs pp cp mk nu kl oe, k)
  | WithSupportedAlgorithms algs => if decide (algs = []) then ek else (mkEngine pw it ka a2 pa algs cm cs pp cp mk nu kl oe, k)
  | WithChunking enabled => (mkEngine pw it ka a2 pa sa enabled cs pp cp mk nu kl oe, k)
  | WithChunkSize size => if 0 <? size then (mkEngine pw it ka a2 pa sa cm size pp cp mk nu kl oe, k) else ek
  | WithProvider provider =>
      if decide (provider = "") then ek
      else (mkEngine pw it ka a2 pa sa cm cs (GetProviderProfile provider) (GetProviderProfile provider) mk nu kl oe, k)
  | WithMetadataProfile provider mode =>
      match ResolveMetadataProfile provider mode with
      | Err err => (mkEngine pw it ka a2 pa sa cm cs pp cp mk nu kl (Some err), k)
      | Ok profile => (mkEngine pw it ka a2 pa sa cm cs profile profile mk nu kl oe, k)
      end
  | WithMetadataKey key => if len key =? 32 then (mkEngine pw it ka a2 pa sa cm cs pp cp (Some key) nu kl oe, k) else ek
  | WithAllowUnmarkedNoAADFallback b => (mkEngine pw it ka a2 pa sa cm cs pp cp mk b kl oe, k)
  end.

Definition argon2Params (e : engine) : KDFParams :=
  mkKDF KDFAlgArgon2id 0 (a2_Time (en_argon2idParams e)) (a2_Memory (en_argon2idParams e)) (a2_Threads (en_argon2idParams e)).

Definition NewEngineWithOpts {K} (password : list byte) (opts : list (EngineOption K)) : result (engine * option K) :=
  eng ← NewEngineWithChunkingAndProvider password "" [] false DefaultChunkSize "default" DefaultPBKDF2Iterations;
  let ek := foldl applyOption (eng, None) opts in
  let e := ek.1 in
  match en_optionErr e with
  | Some err => Err err
  | None =>
      match ValidateKDFParams (mkKDF KDFAlgPBKDF2SHA256 (en_pbkdf2Iterations e) 0 0 0) (en_kdfLimits e) with
      | Some err => Err err
      | None =>
          match ValidateKDFParams (argon2Params e) (en_kdfLimits e) with
          | Some err => if decide (en_kdfAlgorithm e = KDFAlgArgon2id) then Err err else Ok ek
          | None => Ok ek
          end
      end
  end.

(** ** Effects

    A call may use the key manager, count itself in the rotation state, and
    draw random bytes; it ends with a value or an error. *)

Record EngineState (K : Type) := mkState {
  es_km : option K; es_rotation : option RotationState; es_world : World }.
Arguments mkState {K}. Arguments es_km {K}. Arguments es_rotation {K}. Arguments es_world {K}.

Definition M (K A : Type) : Type := EngineState K → result A * EngineState K.
#[export] Instance M_ret {K} : MRet (M K) := λ A a st, (Ok a, st).
#[export] Instance M_bind {K} : MBind (M K) := λ A B f m st,
  match m st with
  | (Ok a, st') => f a st'
  | (Err e, st') => (Err e, st')
  end.
Definition lift {K A} (r : result A) : M K A := λ st, (r, st).
Definition throw {K A} (e : error) : M K A := λ st, (Err e, st).
(** [fmt.Errorf(msg, err)] around the error of a call. *)
Definition wrapErr {A} (msg : string) (r : result A) : result A :=
  match r with Ok a => Ok a | Err e => Err (Wrapf msg e) end.
Definition wrapM {K A} (msg : string) (m : M K A) : M K A := λ st, let '(r, st') := m st in (wrapErr msg r, st').

Definition randM {K} (n : Z) : M K (list byte) := λ st,
  let '(r, w) := rand_read (Z.to_nat n) (es_world st) in (r, mkState (es_km st) (es_rotation st) w).

Section engine.
Context `{Ciphers, HKDF, SHA256, MD5, PasswordKDF, BuildTags, ManifestJSON, MapJSON, KeyManager K}.

Definition getKeyManager : M K (option K) := λ st, (Ok (es_km st), st).

(** [e.kmsManager.WrapKey] between [BeginWrap] and [EndWrap]. *)
Definition wrapDataKey (key : list byte) (metadata : gomap) : M K KeyEnvelope := λ st,
  match es_km st with
  | None => (Err (Errorf "invalid memory address or nil pointer dereference"), st)
  | Some km =>
      let rotation := BeginWrap <$> es_rotation st in
      let '(r, km, w) := WrapKey key metadata km (es_world st) in
      (r, mkState (Some km) (EndWrap <$> rotation) w)
  end.
Definition unwrapDataKey (env : KeyEnvelope) (metadata : gomap) : M K (list byte) := λ st,
  match es_km st with
  | None => (Err (Errorf "invalid memory address or nil pointer dereference"), st)
  | Some km =>
      let '(r, km, w) := UnwrapKey (Some env) metadata km (es_world st) in
      (r, mkState (Some km) (es_rotation st) w)
  end.

(** ** Keys *)

Definition deriveKeyWithParams (e : engine) (salt : list byte) (params : KDFParams) : result (list byte) :=
  if negb (len salt =? saltSize) then Err (Errorf "invalid salt size: expected %d bytes, got %d") else
  match ValidateKDFParams params (en_kdfLimits e) with
  | Some err => Err err
  | None =>
      if decide (kp_Algorithm params = KDFAlgArgon2id) then deriveKeyArgon2id (en_password e) salt params
      else wrapErr "failed to derive key with PBKDF2: %w" (pbkdf2_Key (en_password e) salt (Iterations params) aesKeySize)
  end.

Definition deriveKey (e : engine) (salt : list byte) : result (list byte) :=
  if decide (en_kdfAlgorithm e = KDFAlgArgon2id) then deriveKeyWithParams e salt (argon2Params e)
  else deriveKeyWithParams e salt (DefaultKDFParams (en_pbkdf2Iterations e)).

Definition defaultKDFParams (e : engine) : KDFParams :=
  if decide (en_kdfAlgorithm e = KDFAlgArgon2id) then argon2Params e else DefaultKDFParams (en_pbkdf2Iterations e).

Definition generateSalt : M K (list byte) := wrapM "failed to generate salt: %w" (randM saltSize).

Definition generateNonceForAlgorithm (algorithm : string) : M K (list byte) :=
  nonceSize ← lift (wrapErr "failed to get nonce size for algorithm %s: %w" (getNonceSize algorithm));
  wrapM "failed to generate nonce: %w" (randM nonceSize).

Definition generateDataKey (size : Z) : M K (list byte) := wrapM "failed to generate data key: %w" (randM size).

Definition newObjectBindingID : M K (list byte) := wrapM "generate binding ID: %w" (randM 16).
Definition encodeBindingID (bindingID : list byte) : string := EncodeToString url_alphabet false bindingID.

Definition parseKeyVersion (value : string) : Z :=
  if decide (value = "") then 0 else default 0 (ParseInt value).

Definition keySizeFor (algorithm : string) : Z :=
  if decide (algorithm = AlgorithmChaCha20Poly1305) then chacha20KeySize else aesKeySize.

(** The data key of a new object: random and wrapped when there is a key
    manager, derived from the password otherwise. The caller's map gets the
    key version. *)
Definition newDataKey (e : engine) (salt : list byte) (keySize : Z) (metadata : gomap)
    : M K (list byte * option KeyEnvelope * gomap) :=
  km ← getKeyManager;
  match km with
  | Some _ =>
      key ← wrapM "failed to generate data key: %w" (generateDataKey keySize);
      envelope ← wrapM "failed to wrap data key: %w" (wrapDataKey key metadata);
      let metadata := map_set metadata MetaKeyVersion (FormatInt (KeyVersion envelope)) in
      if negb (len key =? keySize)
      then throw (Errorf "internal: generateDataKey returned unexpected key size %d (want %d)")
      else mret (key, Some envelope, metadata)
  | None =>
      key ← lift (wrapErr "failed to derive key: %w" (deriveKey e salt));
      if negb (len key =? keySize)
      then throw (Errorf "internal: PBKDF2 returned unexpected key size %d (want %d)")
      else mret (key, None, metadata)
  end.

(** ** The sealed metadata blob *)

Definition blobMember (key : string) : bool :=
  isEncryptionPayloadMetadata key ||
  match LookupMetaKey key with Some spec => bool_decide (Class_ spec = MetaClassProtectedStandard) | None => false end.

Definition encryptMetadata (e : engine) (encMeta : gomap) : M K string :=
  match en_metadataKey e with
  | None => throw (Errorf "metadata key not configured")
  | Some metadataKey =>
      let plaintext := json_marshal_map (filter (λ kv, blobMember kv.1) encMeta) in
      gcm ← lift (wrapErr "aes new cipher: %w" (newAESGCM metadataKey));
      nonce ← wrapM "nonce: %w" (randM nonceSize);
      mret (encodeBase64 (nonce ++ Seal gcm nonce plaintext []))
  end.

(** A nil map would make the assignment of the marker panic. *)
Definition decryptMetadata (e : engine) (blob : string) : result gomap :=
  match en_metadataKey e with
  | None => Err (Errorf "metadata key not configured")
  | Some metadataKey =>
      ciphertext ← wrapErr "base64 decode: %w" (decodeBase64 blob);
      gcm ← wrapErr "aes new cipher: %w" (newAESGCM metadataKey);
      if len ciphertext <? nonceSize then Err (Errorf "ciphertext too short") else
      match Open gcm (take (Z.to_nat nonceSize) ciphertext) (drop (Z.to_nat nonceSize) ciphertext) [] with
      | None => Err (Errorf "gcm open: %w")
      | Some plaintext =>
          match json_unmarshal_map plaintext with
          | None => Err (Errorf "unmarshal: %w")
          | Some None => Err (Errorf "assignment to entry in nil map")
          | Some (Some result) => Ok (map_set result MetaEncrypted "true")
          end
      end
  end.

(** The protected headers of a map, under their canonical names. *)
Definition protectedOf (metadata : gomap) : gomap :=
  foldl (λ out spec,
    let value := metadataValueFold metadata (Canonical spec) in
    if decide (value ≠ "") then map_set out (Canonical spec) value else out) [] ProtectedStandardKeys.

Definition sealMetadataBlob (e : engine) (encMetadata : gomap) : M K gomap :=
  let protected := protectedOf encMetadata in
  blob ← wrapM "encrypt metadata: %w" (encryptMetadata e encMetadata);
  let encMetadata := filter (λ kv, negb (isEncryptionPayloadMetadata kv.1)) encMetadata in
  let encMetadata := map_set encMetadata MetaEncrypted "true" in
  let encMetadata := map_set encMetadata MetaEncryptedMetadata blob in
  mret (map_merge encMetadata protected).

(** ** Metadata of new objects *)

(** The caller's entries that are not gateway-owned. *)
Definition callerMetadata (metadata : gomap) : gomap := filter (λ kv, negb (IsGatewayReservedKey kv.1)) metadata.

(** Protected values the caller gives under their registry names. *)
Definition stampRegistryNames (dst metadata : gomap) : gomap :=
  foldl (λ dst spec,
    let value := metadataValueFold metadata (Canonical spec) in
    if decide (value ≠ "") then map_set dst (Canonical spec) value else dst) dst ProtectedStandardKeys.

Definition stampEnvelope (dst : gomap) (envelope : option KeyEnvelope) (metadata : gomap) : gomap :=
  match envelope with
  | Some env =>
      let dst := map_set dst MetaKeyVersion (FormatInt (KeyVersion env)) in
      let dst := if decide (KeyID env ≠ "") then map_set dst MetaKMSKeyID (KeyID env) else dst in
      let dst := if decide (env_Provider env ≠ "") then map_set dst MetaKMSProvider (env_Provider env) else dst in
      map_set dst MetaWrappedKeyCiphertext (encodeBase64 (env_Ciphertext env))
  | None => if decide (mget metadata MetaKeyVersion ≠ "") then map_set dst MetaKeyVersion (mget metadata MetaKeyVersion) else dst
  end.

Definition bufferedMetadata (e : engine) (metadata : gomap) (plaintext bindingID salt nonce : list byte)
    (envelope : option KeyEnvelope) : gomap :=
  let contentType := mget metadata "Content-Type" in
  let m := map_merge (callerMetadata metadata)
    [(MetaEncrypted, "true"); (MetaObjectFormatVersion, "buffered-v2"); (MetaObjectBindingID, encodeBindingID bindingID);
     (MetaAlgorithm, en_preferredAlgorithm e); (MetaKeySalt, encodeBase64 salt); (MetaIV, encodeBase64 nonce);
     (MetaOriginalSize, FormatInt (len plaintext)); (MetaOriginalETag, computeETag plaintext);
     (MetaKDFParams, FormatKDFParams (defaultKDFParams e))] in
  let m := if decide (contentType ≠ "") then map_set m MetaContentType contentType else m in
  let m := stampProtectedStandard m metadata in
  let m := stampRegistryNames m metadata in
  stampEnvelope m envelope metadata.

(** ** Metadata that is too large *)

(** What the backend will store as metadata. *)
Definition persistedMetadataEnvelope (metadata : gomap) : gomap :=
  foldl (λ out kv,
    if IsStandard kv.1 || EqualFold kv.1 "content-length" || EqualFold kv.1 "etag" || EqualFold kv.1 "last-modified" then out
    else map_set out (if HasPrefix (ToLower kv.1) "x-amz-meta-" then kv.1 else "x-amz-meta-" +:+ kv.1) kv.2) [] metadata.

Definition tooLarge (e : engine) (compacted : gomap) : option error :=
  ValidateMetadataSize (en_providerProfile e) (persistedMetadataEnvelope compacted).

Definition needsMetadataFallback (e : engine) (metadata : gomap) : bool :=
  match tooLarge e (CompactMetadata (en_compactor e) metadata) with Some _ => true | None => false end.

(** The body of an encrypted object: bytes, or a reader over the source, or
    [io.MultiReader] of byte readers and such a reader. *)
Inductive EncOut :=
| EncBytes (body : list byte)
| EncStream (r : encReader)
| EncPrefixed (parts : list (list byte)) (r : encReader).

Definition minimalFallbackMetadata (e : engine) (fullMetadata : gomap) (originalSize : Z) (originalETag : string)
    (bindingID salt nonce : list byte) (envelope : option KeyEnvelope) : gomap :=
  let m :=
    [(MetaEncrypted, "true"); (MetaFallbackMode, "true"); (MetaFallbackVersion, "3");
     (MetaObjectFormatVersion, "buffered-fallback-v2"); (MetaObjectBindingID, encodeBindingID bindingID);
     (MetaAlgorithm, en_preferredAlgorithm e); (MetaKeySalt, encodeBase64 salt); (MetaIV, encodeBase64 nonce);
     (MetaOriginalSize, FormatInt originalSize); (MetaOriginalETag, originalETag);
     (MetaKDFParams, FormatKDFParams (defaultKDFParams e))] in
  let m := stampEnvelope m envelope [] in
  let m := foldl (λ m spec, if decide (mget fullMetadata (Canonical spec) ≠ "")
                            then map_set m (Canonical spec) (mget fullMetadata (Canonical spec)) else m) m ProtectedStandardKeys in
  let blob := mget fullMetadata MetaEncryptedMetadata in
  if decide (blob ≠ "") then map_set m MetaEncryptedMetadata blob else m.

Definition encryptWithMetadataFallback (e : engine) (object : ObjectContext) (plaintext : list byte) (fullMetadata : gomap)
    (originalSize : Z) (originalETag : string) (salt nonce key : list byte) (envelope : option KeyEnvelope)
    (bindingID : list byte) : result (EncOut * gomap) :=
  let algorithm := en_preferredAlgorithm e in
  if negb (len bindingID =? 16) then Err (Errorf "fallback-v2: invalid binding ID")
  else if negb (len key =? keySizeFor algorithm) then Err (Errorf "fallback-v2: invalid data key size %d (want %d)")
  else
    aeadCipher ← wrapErr "failed to create cipher for algorithm %s: %w" (createAEADCipher tag_fips algorithm key);
    let metadataJSON := json_marshal_map fullMetadata in
    metadataHeader ← wrapErr "failed to encode metadata length: %w" (checkedLengthPrefix (len metadataJSON));
    if (MaxInt64 - 4 <? len metadataJSON) || (MaxInt64 - 4 - len metadataJSON <? len plaintext)
    then Err (Errorf "fallback-v2: plaintext size exceeds int")
    else
      aad ← buildObjectAAD aadBufferedV2 object bindingID [];
      let ciphertext := Seal aeadCipher nonce (metadataHeader ++ metadataJSON ++ plaintext) aad in
      let minimal := minimalFallbackMetadata e fullMetadata originalSize originalETag bindingID salt nonce envelope in
      let compacted := CompactMetadata (en_compactor e) minimal in
      match tooLarge e compacted with
      | Some err => Err err
      | None => Ok (EncBytes ciphertext, compacted)
      end.

(** Ordinary user entries, the largest first. *)
Definition ordinaryKey (k : string) : bool := HasPrefix (ToLower k) "x-amz-meta-" && negb (IsGatewayReservedKey k).
Definition ordinary_before (a b : string * string) : Prop :=
  let sa := strlen a.1 + strlen a.2 in let sb := strlen b.1 + strlen b.2 in
  if decide (sa = sb) then String.leb a.1 b.1 = true else sb < sa.
#[local] Instance ordinary_before_dec a b : Decision (ordinary_before a b).
Proof. unfold ordinary_before. case_decide; apply _. Defined.

(** Drop ordinary entries from the headers until they fit. *)
Fixpoint shrinkHeaders (e : engine) (headers : gomap) (ordinary : list string) : result gomap :=
  let compacted := CompactMetadata (en_compactor e) headers in
  match tooLarge e compacted with
  | None => Ok compacted
  | Some err =>
      match ordinary with
      | [] => Err err
      | k :: ordinary => shrinkHeaders e (map_delete headers k) ordinary
      end
  end.

Definition chunkedFallbackFromFinal (e : engine) (reader : encReader) (full : gomap) : result (EncOut * gomap) :=
  let encoded := json_marshal_map full in
  if MaxFallbackPrefixBytes - 4 <? len encoded then Err ErrMetadataTooLarge else
  framing ← checkedLengthPrefix (len encoded);
  let headers := map_set (map_set full MetaFallbackMode "true") MetaFallbackVersion "2" in
  let ordinary := (merge_sort ordinary_before (filter (λ kv, ordinaryKey kv.1) headers)).*1 in
  compacted ← shrinkHeaders e headers ordinary;
  Ok (EncPrefixed [framing; encoded] reader, compacted).

(** ** Encrypt *)

(** The size the caller announces, zero when there is none. *)
Definition announcedSize (metadata : gomap) : Z :=
  if decide (mget metadata "Content-Length" ≠ "") then default 0 (ParseInt (mget metadata "Content-Length"))
  else if decide (mget metadata originalContentLength ≠ "") then default 0 (ParseInt (mget metadata originalContentLength))
  else 0.

Definition setIf (b : bool) (m : gomap) (k v : string) : gomap := if b then map_set m k v else m.

(** The markers set before the key is made. *)
Definition chunkedMarkers (e : engine) (metadata : gomap) (bindingID : list byte) : gomap :=
  let contentType := mget metadata "Content-Type" in
  let originalSize := announcedSize metadata in
  let originalETag := mget metadata "ETag" in
  let m := map_merge (callerMetadata metadata) [(MetaEncrypted, "true"); (MetaAlgorithm, en_preferredAlgorithm e)] in
  let m := setIf (0 <? originalSize) m MetaOriginalSize (FormatInt originalSize) in
  let m := setIf (bool_decide (originalETag ≠ "")) m MetaOriginalETag originalETag in
  let m := setIf (bool_decide (contentType ≠ "")) m MetaContentType contentType in
  let m := stampProtectedStandard m metadata in
  let m := stampRegistryNames m metadata in
  map_merge m
    [(MetaChunkedFormat, "true"); (MetaObjectFormatVersion, "chunked-v2"); (MetaObjectBindingID, encodeBindingID bindingID);
     (MetaChunkSize, FormatInt (en_chunkSize e))].

Definition chunkedMetadata (e : engine) (metadata metadata' : gomap) (bindingID salt baseIV : list byte)
    (manifestEncoded : string) (envelope : option KeyEnvelope) : gomap :=
  let originalSize := announcedSize metadata in
  let originalETag := mget metadata "ETag" in
  let m := map_merge (chunkedMarkers e metadata bindingID) (callerMetadata metadata') in
  let m := map_merge m
    [(MetaEncrypted, "true"); (MetaChunkedFormat, "true"); (MetaAlgorithm, en_preferredAlgorithm e);
     (MetaKeySalt, encodeBase64 salt); (MetaIV, encodeBase64 baseIV); (MetaChunkSize, FormatInt (en_chunkSize e));
     (MetaManifest, manifestEncoded); (MetaIVDerivation, "hkdf-sha256"); (MetaKDFParams, FormatKDFParams (defaultKDFParams e))] in
  let m := setIf (bool_decide (originalETag ≠ "")) m MetaOriginalETag originalETag in
  let m := setIf (0 <? originalSize) m MetaOriginalSize (FormatInt originalSize) in
  stampEnvelope m envelope metadata'.

(** The structural fields that stay readable beside the blob. *)
Definition structuralFields : list string :=
  [MetaChunkedFormat; MetaObjectFormatVersion; MetaObjectBindingID; MetaChunkSize; MetaManifest].

Definition sealChunkedMetadata (e : engine) (m : gomap) : M K gomap :=
  match en_metadataKey e with
  | None => mret m
  | Some _ =>
      sealed ← sealMetadataBlob e m;
      mret (foldl (λ out k, if decide (mget m k ≠ "") then map_set out k (mget m k) else out) sealed structuralFields)
  end.

Definition encryptChunked (ctx : Ctx) (e : engine) (object : ObjectContext) (reader : Source) (metadata : gomap)
    : M K (EncOut * gomap) :=
  let algorithm := en_preferredAlgorithm e in
  bindingID ← newObjectBindingID;
  salt ← wrapM "failed to generate salt: %w" generateSalt;
  baseIV ← wrapM "failed to generate base IV: %w" (generateNonceForAlgorithm algorithm);
  '(key, envelope, metadata') ← newDataKey e salt (keySizeFor algorithm) metadata;
  aead ← lift (wrapErr "failed to create cipher for algorithm %s: %w" (createAEADCipher tag_fips algorithm key));
  terminalAEAD ← lift (wrapErr "failed to create terminal cipher: %w" (newAESGCM key));
  '(chunkedReader, manifest) ←
    lift (newChunkedEncryptReaderV2Bound ctx reader aead baseIV (en_chunkSize e) (Some terminalAEAD) object bindingID);
  let full := chunkedMetadata e metadata metadata' bindingID salt baseIV (encodeManifest manifest) envelope in
  encMetadata ← sealChunkedMetadata e full;
  let compacted := CompactMetadata (en_compactor e) encMetadata in
  match tooLarge e compacted with
  | Some _ => lift (chunkedFallbackFromFinal e chunkedReader encMetadata)
  | None => mret (EncStream chunkedReader, compacted)
  end.

(** [io.ReadAll]. *)
Definition ReadAll (s : Source) : result (list byte) :=
  if decide (src_end s = EOF) then Ok (src_data s) else Err (src_end s).

Definition encryptBuffered (e : engine) (object : ObjectContext) (reader : Source) (metadata : gomap)
    : M K (EncOut * gomap) :=
  plaintext ← lift (wrapErr "failed to read plaintext: %w" (ReadAll reader));
  let algorithm := en_preferredAlgorithm e in
  salt ← wrapM "failed to generate salt: %w" generateSalt;
  nonce ← wrapM "failed to generate nonce: %w" (generateNonceForAlgorithm algorithm);
  '(key, envelope, metadata) ← newDataKey e salt (keySizeFor algorithm) metadata;
  bindingID ← newObjectBindingID;
  let full := bufferedMetadata e metadata plaintext bindingID salt nonce envelope in
  encMetadata ← match en_metadataKey e with Some _ => sealMetadataBlob e full | None => mret full end;
  if needsMetadataFallback e encMetadata then
    lift (encryptWithMetadataFallback e object plaintext encMetadata (len plaintext) (computeETag plaintext)
            salt nonce key envelope bindingID)
  else
    gcm ← lift (wrapErr "failed to create cipher for algorithm %s: %w" (createAEADCipher tag_fips algorithm key));
    aad ← lift (buildObjectAAD aadBufferedV2 object bindingID []);
    mret (EncBytes (Seal gcm nonce plaintext aad), CompactMetadata (en_compactor e) encMetadata).

Definition Encrypt (ctx : Ctx) (e : engine) (object : ObjectContext) (reader : Source) (metadata : gomap)
    : M K (EncOut * gomap) :=
  _ ← lift (Validate object);
  if en_chunkedMode e then encryptChunked ctx e object reader metadata
  else encryptBuffered e object reader metadata.

(** ** Multipart manifests *)

Definition EncryptMPUManifest (e : engine) (object : ObjectContext) (bindingID plaintext : list byte)
    : M K (list byte * gomap) :=
  _ ← lift (Validate object);
  if decide (bindingID = zeroBinding) then throw (Errorf "mpu manifest: binding ID is required") else
  let algorithm := en_preferredAlgorithm e in
  salt ← generateSalt;
  nonce ← generateNonceForAlgorithm algorithm;
  key ← lift (deriveKey e salt);
  aead ← lift (createAEADCipher tag_fips algorithm key);
  aad ← lift (buildObjectAAD aadMPUV2Manifest object bindingID []);
  mret (Seal aead nonce plaintext aad,
    [(MetaEncrypted, "true"); (MetaMPUManifestVersion, "2"); (MetaObjectFormatVersion, "mpu-manifest-v2");
     (MetaObjectBindingID, encodeBindingID bindingID); (MetaAlgorithm, algorithm); (MetaKeySalt, encodeBase64 salt);
     (MetaIV, encodeBase64 nonce); (MetaKDFParams, FormatKDFParams (defaultKDFParams e))]).
End engine.
