(* ===== verification/EngineRead.v ===== *)
(** * The encryption engine: reading

    [internal/crypto/engine.go]: expanding and opening the stored metadata,
    [Decrypt] with its buffered, chunked and fallback formats, range reads,
    the authentication of a trailer alone, and multipart manifests; with
    [ReadFallbackV2Prefix] of [fallback_prefix.go]. *)
From S2P Require Import Prelude GoStd GoIO Primitives ObjectAAD ChunkLayout ChunkRecord ChunkedStream RangeReader.
From S2P Require Import KeyManager Rotation Metadata ObjectFormat ObjectMeta Kdf PasswordKeyManager Engine.
Local Open Scope Z_scope.
Local Open Scope go_scope.

(** The reader of a decrypted object. *)
Inductive DecOut :=
| DecAsIs (s : Source)
| DecBytes (plaintext : list byte)
| DecStream (r : decReader).

Definition has_key (m : gomap) (k : string) : bool := match map_lookup m k with Some _ => true | None => false end.

Definition expandMetadataForCrypto (metadata : gomap) : gomap := ExpandMetadata ProviderAWS metadata.
Definition isFallbackMode (metadata : gomap) : bool := bool_decide (map_lookup metadata MetaFallbackMode = Some "true").
Definition IsEncrypted (metadata : gomap) : bool := IsEncryptedMetadata metadata.

(** [ReadFull] through a reader that polls the context before and after the
    read; a source that delivers in pieces is polled once per piece. *)
Definition ctxReadFull (ctx : Ctx) (s : Source) (n : nat) : result (list byte) * Source * Ctx :=
  match ctx_poll ctx with
  | (Some e, ctx) => (Err e, s, ctx)
  | (None, ctx) =>
      let '(bs, err, s) := ReadFull s n in
      match ctx_poll ctx with
      | (Some e, ctx) => (if decide (length bs = n) then Ok bs else Err e, s, ctx)
      | (None, ctx) => (match err with None => Ok bs | Some e => Err e end, s, ctx)
      end
  end.

Section read.
Context `{Ciphers, HKDF, SHA256, MD5, PasswordKDF, BuildTags, ManifestJSON, MapJSON, KeyManager K}.

Definition ReadFallbackV2Prefix (ctx : Ctx) (reader : Source) : result gomap * Source * Ctx :=
  match ctx_poll ctx with
  | (Some e, ctx) => (Err e, reader, ctx)
  | (None, ctx) =>
      let '(r, reader, ctx) := ctxReadFull ctx reader 4 in
      match r with
      | Err e => (Err (Wrapf "fallback-v2: invalid prefix framing: %w" e), reader, ctx)
      | Ok length =>
          let n := be_decode length in
          if MaxFallbackPrefixBytes - 4 <? n
          then (Err (Errorf "fallback-v2: metadata length %d exceeds sanity limit"), reader, ctx)
          else
            match ctx_poll ctx with
            | (Some e, ctx) => (Err e, reader, ctx)
            | (None, ctx) =>
                let '(r, reader, ctx) :=
                  if n =? 0 then (Ok [], reader, ctx) else ctxReadFull ctx reader (Z.to_nat n) in
                match r with
                | Err e => (Err (Wrapf "fallback-v2: truncated metadata: %w" e), reader, ctx)
                | Ok data =>
                    match ctx_poll ctx with
                    | (Some e, ctx) => (Err e, reader, ctx)
                    | (None, ctx) =>
                        match json_unmarshal_map data with
                        | Some (Some meta) => (Ok meta, reader, ctx)
                        | _ => (Err (Errorf "fallback-v2: invalid metadata JSON"), reader, ctx)
                        end
                    end
                end
            end
      end
  end.

(** ** Opening the metadata blob *)

Definition blobKeyOf (m : gomap) : string :=
  if has_key m MetaEncryptedMetadataCompact then MetaEncryptedMetadataCompact else MetaEncryptedMetadata.

(** The blob of [m] opened into [m]; also the fields it held. *)
Definition mergeBlob (e : engine) (m : gomap) : result (gomap * option gomap) :=
  match en_metadataKey e with
  | None => Ok (m, None)
  | Some _ =>
      let blob := mget m (blobKeyOf m) in
      if decide (blob = "") then Ok (m, None) else
      decryptedMeta ← wrapErr "decrypt metadata: %w" (decryptMetadata e blob);
      Ok (map_merge m decryptedMeta, Some decryptedMeta)
  end.

(** As in [decryptChunked] and [decryptRange]. *)
Definition openBlob (e : engine) (m : gomap) : result gomap :=
  '(m', opened) ← mergeBlob e m;
  Ok (match opened with Some _ => map_delete m' (blobKeyOf m) | None => m' end).

(** As in [Decrypt], where the header of a buffered fallback keeps its own
    format marker, and the marker of an encrypted object is restored. *)
Definition openHeader (e : engine) (expanded : gomap) : result gomap :=
  let fallbackFormat := mget expanded MetaObjectFormatVersion in
  let fallbackBinding := mget expanded MetaObjectBindingID in
  let bufferedFallback := bool_decide (mget expanded MetaFallbackVersion = "3") in
  match en_metadataKey e with
  | None => Ok expanded
  | Some _ =>
      '(m, opened) ← mergeBlob e expanded;
      m ← match opened with
          | None => Ok m
          | Some decryptedMeta =>
              if bufferedFallback then
                if decide (mget decryptedMeta MetaObjectFormatVersion ≠ "buffered-v2" ∨
                           mget decryptedMeta MetaObjectBindingID ≠ fallbackBinding ∨
                           fallbackFormat ≠ "buffered-fallback-v2")
                then Err (Errorf "fallback-v2: sealed header identity mismatch")
                else Ok (map_delete (map_set m MetaObjectFormatVersion fallbackFormat) (blobKeyOf expanded))
              else Ok (map_delete m (blobKeyOf expanded))
          end;
      Ok (if IsEncryptedMetadata m then map_set m MetaEncrypted "true" else m)
  end.

Definition APIExpandedMetadata (e : engine) (metadata : gomap) : result gomap :=
  let expanded := expandMetadataForCrypto metadata in
  let blobKey := if decide (mget expanded MetaEncryptedMetadataCompact ≠ "") then MetaEncryptedMetadataCompact
                 else MetaEncryptedMetadata in
  let blob := mget expanded blobKey in
  match en_metadataKey e with
  | None => Ok expanded
  | Some _ =>
      if decide (blob = "") then Ok expanded else
      let fallback := bool_decide (mget expanded MetaFallbackVersion = "3") in
      let format := mget expanded MetaObjectFormatVersion in
      let binding := mget expanded MetaObjectBindingID in
      protected ← wrapErr "decrypt metadata: %w" (decryptMetadata e blob);
      let m := map_merge expanded protected in
      if fallback then
        if decide (format ≠ "buffered-fallback-v2" ∨ mget protected MetaObjectFormatVersion ≠ "buffered-v2" ∨
                   mget protected MetaObjectBindingID ≠ binding)
        then Err (Errorf "fallback-v2: sealed header identity mismatch")
        else Ok (map_delete (map_set m MetaObjectFormatVersion format) blobKey)
      else Ok (map_delete m blobKey)
  end.

(** ** Keys of stored objects *)

Definition storedAlgorithm (m : gomap) : string :=
  if decide (mget m MetaAlgorithm = "") then AlgorithmAES256GCM else mget m MetaAlgorithm.

Definition storedEnvelope (m : gomap) (wrapped : list byte) : KeyEnvelope :=
  mkEnvelope (mget m MetaKMSKeyID) (parseKeyVersion (mget m MetaKeyVersion)) (mget m MetaKMSProvider) wrapped 0.

Definition passwordKey (e : engine) (m : gomap) (salt : list byte) (keySize : Z) : result (list byte) :=
  kdfParams ← wrapErr "failed to parse KDF params: %w" (ParseKDFParams (mget m MetaKDFParams));
  key ← wrapErr "failed to derive key: %w" (deriveKeyWithParams e salt kdfParams);
  if negb (len key =? keySize) then Err (Errorf "internal: PBKDF2 returned unexpected key size %d (want %d)") else Ok key.

(** In [Decrypt]: the envelope must name its key and have a plausible size. *)
Definition bufferedKey (e : engine) (m : gomap) (salt : list byte) (keySize : Z) : M K (list byte) :=
  km ← getKeyManager;
  if decide (is_Some km ∧ mget m MetaWrappedKeyCiphertext ≠ "") then
    ciphertext ← lift (wrapErr "failed to decode wrapped data key (length=%d): %w" (decodeBase64 (mget m MetaWrappedKeyCiphertext)));
    let env := storedEnvelope m ciphertext in
    if decide (KeyID env = "") then throw (Errorf "failed to unwrap data key: KMS key ID is missing from metadata")
    else if len ciphertext =? 0 then throw (Errorf "failed to unwrap data key: wrapped key ciphertext is empty")
    else if (len ciphertext <? 32) || (1024 <? len ciphertext)
    then throw (Errorf "failed to unwrap data key: wrapped key ciphertext has unexpected size %d bytes (expected 32-1024 bytes)")
    else
      key ← wrapM "failed to unwrap data key (keyID=%s, provider=%s, keyVersion=%d, wrappedKeySize=%d): %w" (unwrapDataKey env m);
      if negb (len key =? keySize)
      then throw (Errorf "failed to unwrap data key: KMS returned key of size %d, expected %d") else mret key
  else lift (passwordKey e m salt keySize).

(** In [decryptChunked] and [decryptRange]. *)
Definition chunkedKey (e : engine) (m : gomap) (salt : list byte) (keySize : Z) : M K (list byte) :=
  km ← getKeyManager;
  if decide (is_Some km ∧ mget m MetaWrappedKeyCiphertext ≠ "") then
    wrapped ← lift (wrapErr "failed to decode wrapped data key: %w" (decodeBase64 (mget m MetaWrappedKeyCiphertext)));
    key ← wrapM "failed to unwrap data key: %w" (unwrapDataKey (storedEnvelope m wrapped) m);
    if negb (len key =? keySize)
    then throw (Errorf "failed to unwrap data key: KMS returned key of size %d, expected %d") else mret key
  else lift (passwordKey e m salt keySize).

(** ** Buffered objects *)

Definition bufferedAADMeta (m : gomap) : gomap :=
  [(MetaKeyVersion, mget m MetaKeyVersion); (MetaOriginalSize, mget m MetaOriginalSize); ("Content-Type", mget m MetaContentType)].

(** Bound objects have one AAD; older ones may have the pipe-delimited AAD, or
    none when they are marked so or the engine permits it. *)
Definition openBuffered (e : engine) (m : gomap) (gcm : AEAD) (algorithm : string) (salt iv ciphertext aad : list byte)
    : result (list byte) :=
  match Open gcm iv ciphertext aad with
  | Some plaintext => Ok plaintext
  | None =>
      if decide (mget m MetaObjectFormatVersion = "buffered-v2") then Err (Errorf "failed to decrypt buffered-v2 object: %w")
      else
        match Open gcm iv ciphertext (buildAADLegacy algorithm salt iv (bufferedAADMeta m)) with
        | Some plaintext => Ok plaintext
        | None =>
            let failure := Err (Errorf "failed to decrypt data (algorithm=%s, keySize=%d, ivSize=%d, ciphertextSize=%d): %w") in
            if bool_decide (mget m MetaLegacyNoAAD = "true") || en_allowUnmarkedNoAAD e then
              match Open gcm iv ciphertext [] with Some plaintext => Ok plaintext | None => failure end
            else failure
        end
  end.

Definition bufferedView (m : gomap) (gcm : AEAD) (ciphertext : list byte) : gomap :=
  let view := plaintextMetadataView m (-1) (mget m MetaOriginalETag) in
  let view := if Overhead gcm <? len ciphertext then map_set view "Content-Length" (FormatInt (len ciphertext - Overhead gcm))
              else match map_lookup m MetaOriginalSize with
                   | Some originalSize => map_set view "Content-Length" originalSize
                   | None => view
                   end in
  match map_lookup m MetaOriginalETag with Some etag => map_set view "ETag" etag | None => view end.

Definition decryptBuffered (e : engine) (object : ObjectContext) (reader : Source) (m : gomap) : M K (DecOut * gomap) :=
  salt ← lift (wrapErr "failed to decode salt: %w" (decodeBase64 (mget m MetaKeySalt)));
  iv ← lift (wrapErr "failed to decode IV: %w" (decodeBase64 (mget m MetaIV)));
  let algorithm := storedAlgorithm m in
  if negb (isAlgorithmSupported algorithm (en_supportedAlgorithms e))
  then throw (Errorf "unsupported algorithm %s (not in supported list)")
  else
    key ← bufferedKey e m salt (keySizeFor algorithm);
    gcm ← lift (wrapErr "failed to create cipher for algorithm %s: %w" (createAEADCipher tag_fips algorithm key));
    ciphertext ← lift (wrapErr "failed to read encrypted data: %w" (ReadAll reader));
    aad ← lift (if decide (mget m MetaObjectFormatVersion = "buffered-v2") then
                  bindingID ← parseObjectBindingID (mget m MetaObjectBindingID);
                  wrapErr "failed to build AAD: %w" (buildObjectAAD aadBufferedV2 object bindingID [])
                else wrapErr "failed to build AAD: %w" (buildAAD algorithm salt iv (bufferedAADMeta m)));
    plaintext ← lift (openBuffered e m gcm algorithm salt iv ciphertext aad);
    mret (DecBytes plaintext, bufferedView m gcm ciphertext).

(** ** Chunked objects *)

Definition chunkedView (m : gomap) : gomap :=
  let view := plaintextMetadataView m (-1) (mget m MetaOriginalETag) in
  let view := setIf (bool_decide (mget m "encryption-cache-control" ≠ "")) view "Cache-Control" (mget m "encryption-cache-control") in
  let view := setIf (bool_decide (mget m "encryption-content-disposition" ≠ "")) view "Content-Disposition"
                (mget m "encryption-content-disposition") in
  let view :=
    match ciphertextSize ← map_lookup m "Content-Length"; ParseInt ciphertextSize with
    | Some ct =>
        if 0 <? ct then
          match PlaintextSizeForCiphertext m ct with
          | Ok (plainSize, _) => if 0 <? plainSize then map_set view "Content-Length" (FormatInt plainSize) else view
          | Err _ => view
          end
        else view
    | None => view
    end in
  let view := if has_key view "Content-Length" then view
              else match map_lookup m MetaOriginalSize with
                   | Some originalSize => map_set view "Content-Length" originalSize
                   | None => view
                   end in
  setIf (bool_decide (mget m MetaOriginalETag ≠ "")) view "ETag" (mget m MetaOriginalETag).

Definition decryptChunked (ctx : Ctx) (e : engine) (object : ObjectContext) (reader : Source) (metadata : gomap)
    : M K (DecOut * gomap) :=
  m ← lift (openBlob e metadata);
  manifest ← lift (wrapErr "failed to load manifest: %w" (loadManifestFromMetadata m));
  let marked := bool_decide (mget m MetaObjectFormatVersion = "chunked-v2") in
  let boundV2 := (mf_Version manifest =? ChunkedFormatV2) && marked in
  if marked && negb boundV2 then throw (Errorf "chunked-v2 format marker requires a v2 manifest") else
  bindingID ← lift (if boundV2 then parseObjectBindingID (mget m MetaObjectBindingID) else Ok []);
  salt ← lift (wrapErr "failed to decode salt: %w" (decodeBase64 (mget m MetaKeySalt)));
  let algorithm := storedAlgorithm m in
  if negb (isAlgorithmSupported algorithm (en_supportedAlgorithms e))
  then throw (Errorf "unsupported algorithm %s (not in supported list)")
  else
    key ← chunkedKey e m salt (keySizeFor algorithm);
    aead ← lift (wrapErr "failed to create cipher for algorithm %s: %w" (createAEADCipher tag_fips algorithm key));
    terminalAEAD ← lift (if mf_Version manifest =? ChunkedFormatV2
                         then Some <$> wrapErr "failed to create terminal cipher: %w" (newAESGCM key) else Ok None);
    chunkedReader ← lift (wrapErr "failed to create chunked decrypt reader: %w"
      (if mf_Version manifest =? ChunkedFormatV2 then
         if boundV2 then newChunkedDecryptReaderV2Bound ctx reader aead (Some manifest) terminalAEAD object bindingID
         else newLegacyChunkedDecryptReaderV2 ctx reader aead (Some manifest) terminalAEAD
       else newChunkedDecryptReaderV1 ctx reader aead (Some manifest)));
    mret (DecStream chunkedReader, chunkedView m).

(** ** Fallback objects *)

Definition fallbackBoundKey (e : engine) (m : gomap) (salt : list byte) : M K (list byte) :=
  km ← getKeyManager;
  match km with
  | Some _ =>
      if decide (mget m MetaWrappedKeyCiphertext = "" ∨ mget m MetaKMSKeyID = "" ∨ mget m MetaKMSProvider = "" ∨
                 parseKeyVersion (mget m MetaKeyVersion) ≤ 0)
      then throw (Errorf "fallback-v2: incomplete wrapped key metadata") else
      wrapped ← lift (wrapErr "fallback-v2: failed to decode wrapped data key: %w" (decodeBase64 (mget m MetaWrappedKeyCiphertext)));
      if len wrapped =? 0 then throw (Errorf "fallback-v2: incomplete wrapped key metadata") else
      wrapM "fallback-v2: failed to unwrap data key: %w" (unwrapDataKey (storedEnvelope m wrapped) m)
  | None =>
      params ← lift (wrapErr "fallback-v2: failed to parse KDF params: %w" (ParseKDFParams (mget m MetaKDFParams)));
      lift (deriveKeyWithParams e salt params)
  end.

(** [4-byte length][metadata][data]. *)
Definition splitFallback (short invalid : string) (plaintext : list byte) : result (list byte * list byte) :=
  if len plaintext <? 4 then Err (Errorf short) else
  match checkedMetadataEnd (be_decode (take 4 plaintext)) (len plaintext) with
  | Err _ => Err (Errorf invalid)
  | Ok metadataEnd => Ok (drop 4 (take (Z.to_nat metadataEnd) plaintext), drop (Z.to_nat metadataEnd) plaintext)
  end.

Definition decryptFallbackBound (e : engine) (object : ObjectContext) (reader : Source) (m : gomap) : M K (DecOut * gomap) :=
  bindingID ← lift (parseObjectBindingID (mget m MetaObjectBindingID));
  salt ← lift (wrapErr "fallback-v2: failed to decode salt: %w" (decodeBase64 (mget m MetaKeySalt)));
  iv ← lift (wrapErr "fallback-v2: failed to decode IV: %w" (decodeBase64 (mget m MetaIV)));
  key ← fallbackBoundKey e m salt;
  if negb (len key =? keySizeFor (mget m MetaAlgorithm)) then throw (Errorf "fallback-v2: invalid data key size %d (want %d)") else
  aead ← lift (createAEADCipher tag_fips (mget m MetaAlgorithm) key);
  ciphertext ← lift (ReadAll reader);
  aad ← lift (buildObjectAAD aadBufferedV2 object bindingID []);
  match Open aead iv ciphertext aad with
  | None => throw (Errorf "fallback-v2: authentication failed: %w")
  | Some plaintext =>
      '(metadataJSON, data) ← lift (splitFallback "fallback-v2: encrypted data too short" "fallback-v2: invalid metadata length" plaintext);
      match json_unmarshal_map metadataJSON with
      | None => throw (Errorf "fallback-v2: failed to decode metadata: %w")
      | Some full =>
          let full := default [] full in
          let view := plaintextMetadataView full (-1) (mget full MetaOriginalETag) in
          let view := setIf (bool_decide (mget full MetaOriginalSize ≠ "")) view "Content-Length" (mget full MetaOriginalSize) in
          mret (DecBytes data, setIf (bool_decide (mget full MetaOriginalETag ≠ "")) view "ETag" (mget full MetaOriginalETag))
      end
  end.

Definition decryptFallbackV2WithProvenance (ctx : Ctx) (e : engine) (object : ObjectContext) (reader : Source)
    (headerMetadata : gomap) (headerBlobPresent : bool) : M K (DecOut * gomap) :=
  let '(r, reader, ctx) := ReadFallbackV2Prefix ctx reader in
  prefix ← lift r;
  let full := if headerBlobPresent then MergeFallbackV2Metadata headerMetadata prefix
              else mergeLegacyFallbackControls headerMetadata prefix in
  decryptChunked ctx e object reader full.

Definition has_blob (m : gomap) : bool :=
  match metadataValue m MetaEncryptedMetadata with
  | Some _ => true
  | None => match metadataValue m MetaEncryptedMetadataCompact with Some _ => true | None => false end
  end.

(** Legacy names of the protected headers are promoted to canonical ones. *)
Definition promoteProtected (full : gomap) : gomap :=
  foldl (λ full spec,
    if decide (mget full (Canonical spec) ≠ "") then full
    else if decide (mget full (Header spec) ≠ "") then map_set full (Canonical spec) (mget full (Header spec))
    else match head (filter (λ v, v ≠ "") (mget full <$> Legacy spec)) with
         | Some value => map_set full (Canonical spec) value
         | None => full
         end) full ProtectedStandardKeys.

Definition decryptFallbackV1 (e : engine) (reader : Source) (m : gomap) : M K (DecOut * gomap) :=
  salt ← lift (wrapErr "failed to decode salt: %w" (decodeBase64 (mget m MetaKeySalt)));
  iv ← lift (wrapErr "failed to decode IV: %w" (decodeBase64 (mget m MetaIV)));
  let algorithm := storedAlgorithm m in
  if negb (isAlgorithmSupported algorithm (en_supportedAlgorithms e))
  then throw (Errorf "unsupported algorithm %s (not in supported list)")
  else
    key ← lift (passwordKey e m salt (keySizeFor algorithm));
    aeadCipher ← lift (wrapErr "failed to create cipher: %w" (createAEADCipher tag_fips algorithm key));
    ciphertext ← lift (wrapErr "failed to read encrypted data: %w" (ReadAll reader));
    let contentType := if decide (mget m MetaContentType = "") then mget m "Content-Type" else mget m MetaContentType in
    let aadMeta := [("Content-Type", contentType); (MetaOriginalSize, mget m MetaOriginalSize)] in
    aad ← lift (wrapErr "failed to build AAD: %w" (buildAAD algorithm salt iv aadMeta));
    let opened := match Open aeadCipher iv ciphertext aad with
                  | Some plaintext => Some plaintext
                  | None => Open aeadCipher iv ciphertext (buildAADLegacy algorithm salt iv aadMeta)
                  end in
    match opened with
    | None => throw (Errorf "failed to decrypt data: %w")
    | Some plaintext =>
        '(metadataJSON, data) ← lift (splitFallback "encrypted data too short for fallback format"
                                        "invalid metadata length in fallback format" plaintext);
        match json_unmarshal_map metadataJSON with
        | None => throw (Errorf "failed to decode metadata from fallback: %w")
        | Some full =>
            let full := promoteProtected (default [] full) in
            let view := plaintextMetadataView full (-1) (mget full MetaOriginalETag) in
            mret (DecBytes data, setIf (bool_decide (mget full MetaOriginalSize ≠ "")) view "Content-Length" (mget full MetaOriginalSize))
        end
    end.

Definition decryptWithMetadataFallback (ctx : Ctx) (e : engine) (object : ObjectContext) (reader : Source) (m : gomap)
    : M K (DecOut * gomap) :=
  let version := mget m MetaFallbackVersion in
  if decide (version = "3") then
    if decide (mget m MetaObjectFormatVersion ≠ "buffered-fallback-v2")
    then throw (Errorf "fallback-v2: unsupported or missing bound format marker")
    else decryptFallbackBound e object reader m
  else if decide (version = "2") then decryptFallbackV2WithProvenance ctx e object reader m (has_blob m)
  else if decide (version ≠ "" ∧ version ≠ "1") then throw (Errorf "fallback: unsupported format version %q")
  else decryptFallbackV1 e reader m.

(** ** Decrypt *)

Definition decryptOpened (ctx : Ctx) (e : engine) (object : ObjectContext) (reader : Source) (m : gomap)
    (headerBlobPresent : bool) : M K (DecOut * gomap) :=
  let marker := mget m MetaObjectFormatVersion in
  if isFallbackMode m then
    _ ← lift (if decide (mget m MetaFallbackVersion = "3") then
                if decide (marker ≠ "buffered-fallback-v2")
                then Err (Errorf "fallback-v2: unsupported or missing bound format marker")
                else parseObjectBindingID (mget m MetaObjectBindingID)
              else Ok []);
    if decide (mget m MetaFallbackVersion = "2")
    then decryptFallbackV2WithProvenance ctx e object reader m headerBlobPresent
    else decryptWithMetadataFallback ctx e object reader m
  else if decide (marker ≠ "" ∧ marker ≠ "buffered-v2" ∧ marker ≠ "chunked-v2")
  then throw (Errorf "unsupported encryption format version %q")
  else
    _ ← lift (if decide (marker = "buffered-v2") then
                if IsChunkedFormat m then Err (Errorf "buffered-v2 format marker cannot use chunked metadata")
                else parseObjectBindingID (mget m MetaObjectBindingID)
              else if decide (marker = "chunked-v2") then
                if negb (IsChunkedFormat m) then Err (Errorf "chunked-v2 format marker requires chunked metadata")
                else parseObjectBindingID (mget m MetaObjectBindingID)
              else Ok []);
    if IsChunkedFormat m then
      _ ← lift (ChunkedFormatVersion m);
      decryptChunked ctx e object reader m
    else decryptBuffered e object reader m.

Definition Decrypt (ctx : Ctx) (e : engine) (object : ObjectContext) (reader : Source) (metadata : gomap)
    : M K (DecOut * gomap) :=
  _ ← lift (Validate object);
  if negb (IsEncrypted metadata) then mret (DecAsIs reader, metadata) else
  let expanded := expandMetadataForCrypto metadata in
  m ← lift (openHeader e expanded);
  decryptOpened ctx e object reader m (has_blob expanded).

(** ** Range reads *)

(** The plaintext size a range is checked against. *)
Definition rangePlaintextSize (m : gomap) (isOptimizedSource : bool) : result Z :=
  let r := GetPlaintextSizeFromMetadata m in
  let r := if isOptimizedSource then r else
           match ParseInt (mget m MetaOriginalSize) with
           | Some original => if 0 <=? original then Ok original else r
           | None => r
           end in
  match r with
  | Ok size => Ok size
  | Err err =>
      if decide (mget m MetaOriginalSize = "") then Err (Wrapf "failed to get plaintext size: %w" err)
      else match ParseInt (mget m MetaOriginalSize) with
           | Some size => Ok size
           | None => Err (Errorf "failed to get plaintext size: %w")
           end
  end.

Definition fillChunkCount (manifest : ChunkManifest) (plaintextSize : Z) : result ChunkManifest :=
  if (mf_ChunkCount manifest =? 0) && (0 <? mf_ChunkSize manifest) && (0 <? plaintextSize) then
    chunkCount ← wrapErr "invalid chunk count: %w" (ChunkedDataChunkCount plaintextSize (mf_ChunkSize manifest));
    Ok (mkManifest (mf_Version manifest) (mf_ChunkSize manifest) chunkCount (mf_BaseIV manifest) (mf_IVs manifest)
          (mf_IVDerivation manifest))
  else Ok manifest.

Definition checkedManifest (m : gomap) : result ChunkManifest :=
  manifest ← wrapErr "failed to load manifest: %w" (loadManifestFromMetadata m);
  match validateChunkSize (mf_ChunkSize manifest) with
  | Err _ => Err (Errorf "invalid chunked manifest")
  | Ok _ => Ok manifest
  end.

Definition decryptRange (e : engine) (object : ObjectContext) (reader : Source) (metadata : gomap)
    (plaintextStart plaintextEnd : Z) (isOptimizedSource : bool) : M K (rangeReader * gomap) :=
  if negb (IsEncrypted metadata) then throw (Errorf "object is not encrypted") else
  let expanded := expandMetadataForCrypto metadata in
  _ ← lift (checkedManifest expanded);
  m ← lift (openBlob e expanded);
  let marker := mget m MetaObjectFormatVersion in
  if decide (marker = "buffered-v2") then throw (Errorf "buffered-v2 format marker cannot use range chunked metadata") else
  if negb (IsChunkedFormat m) then throw (Errorf "range optimization only supported for chunked format") else
  manifest ← lift (checkedManifest m);
  _ ← lift (if decide (marker = "chunked-v2") then
              if negb (mf_Version manifest =? ChunkedFormatV2)
              then Err (Errorf "chunked-v2 format marker requires a v2 manifest")
              else parseObjectBindingID (mget m MetaObjectBindingID)
            else Ok []);
  plaintextSize ← lift (rangePlaintextSize m isOptimizedSource);
  if (plaintextStart <? 0) || (plaintextSize <=? plaintextStart) || (plaintextEnd <? plaintextStart) || (plaintextSize <=? plaintextEnd)
  then throw (Errorf "range not satisfiable: %d-%d (size: %d)") else
  manifest ← lift (fillChunkCount manifest plaintextSize);
  salt ← lift (wrapErr "failed to decode salt: %w" (decodeBase64 (mget m MetaKeySalt)));
  baseIV ← lift (wrapErr "failed to decode base IV: %w" (decodeBase64 (mget m MetaIV)));
  let algorithm := storedAlgorithm m in
  if negb (isAlgorithmSupported algorithm (en_supportedAlgorithms e)) then throw (Errorf "unsupported algorithm %s") else
  key ← chunkedKey e m salt (keySizeFor algorithm);
  aead ← lift (wrapErr "failed to create cipher: %w" (createAEADCipher tag_fips algorithm key));
  rangeReader ← lift
    (if (mf_Version manifest =? ChunkedFormatV2) && bool_decide (marker = "chunked-v2") then
       bindingID ← parseObjectBindingID (mget m MetaObjectBindingID);
       wrapErr "failed to create range reader: %w"
         (newRangeDecryptReaderBound reader aead (Some manifest) baseIV plaintextStart plaintextEnd isOptimizedSource
            plaintextSize object bindingID)
     else
       wrapErr "failed to create range reader: %w"
         (newRangeDecryptReader reader aead (Some manifest) baseIV plaintextStart plaintextEnd isOptimizedSource [plaintextSize]));
  let view := plaintextMetadataView m (-1) (mget m MetaOriginalETag) in
  mret (rangeReader, map_set view "Content-Length" (FormatInt (plaintextEnd -i plaintextStart +i 1))).

Definition DecryptRange (e : engine) (object : ObjectContext) (reader : Source) (metadata : gomap)
    (plaintextStart plaintextEnd : Z) : M K (rangeReader * gomap) :=
  _ ← lift (Validate object);
  decryptRange e object reader metadata plaintextStart plaintextEnd false.

Definition DecryptRangeOptimized (e : engine) (object : ObjectContext) (reader : Source) (metadata : gomap)
    (plaintextStart plaintextEnd : Z) : M K (rangeReader * gomap) :=
  _ ← lift (Validate object);
  decryptRange e object reader metadata plaintextStart plaintextEnd true.

(** ** The trailer alone *)

Record ChunkedObjectInfo := mkInfo {
  ci_Version : Z; ci_ChunkCount : Z; ci_PlaintextSize : Z; ci_Authenticated : bool }.

(** A read that is not filled is followed by one that reports the end. *)
Definition readChunkedTrailer (ctx : Ctx) (s : Source) (n : nat) : list byte * option error * Source * Ctx :=
  match ctx_poll ctx with
  | (Some e, ctx) => ([], Some e, s, ctx)
  | (None, ctx) =>
      let bs := take n (src_data s) in
      let s' := mkSource (drop n (src_data s)) (src_end s) in
      if decide (length bs = n) then (bs, None, s', ctx)
      else if decide (bs = []) then ([], Some (src_end s), s', ctx)
      else match ctx_poll ctx with
           | (Some e, ctx) => (bs, Some e, s', ctx)
           | (None, ctx) => (bs, Some (src_end s), s', ctx)
           end
  end.

Definition trailerKey (e : engine) (m : gomap) (salt : list byte) : M K (list byte) :=
  km ← getKeyManager;
  if decide (is_Some km ∧ mget m MetaWrappedKeyCiphertext ≠ "") then
    wrapped ← lift (decodeBase64 (mget m MetaWrappedKeyCiphertext));
    unwrapDataKey (storedEnvelope m wrapped) m
  else
    params ← lift (ParseKDFParams (mget m MetaKDFParams));
    lift (deriveKeyWithParams e salt params).

(** The trailer read from the stream: all 32 bytes of it and nothing more. *)
Definition readTail (ctx : Ctx) (trailer : Source) : result (list byte) :=
  let '(tail, err, trailer, ctx) := readChunkedTrailer ctx trailer (Z.to_nat ChunkedTerminalSize) in
  if bool_decide (err ≠ None) || negb (len tail =? ChunkedTerminalSize)
  then Err (Wrapf "%w: invalid trailer length" ErrChunkedObjectIncomplete) else
  let '(extra, err, _, _) := readChunkedTrailer ctx trailer 1 in
  if negb (len extra =? 0) || negb (bool_decide (err = Some EOF) || bool_decide (err = Some ErrUnexpectedEOF))
  then Err (Wrapf "%w: trailing bytes" ErrChunkedObjectIncomplete) else Ok tail.

Definition checkTerminal (terminal : AEAD) (manifest : ChunkManifest) (baseIV tail : list byte) (object : ObjectContext)
    (bindingID : list byte) (ciphertextSize version : Z) : result ChunkedObjectInfo :=
  nonce ← deriveTerminalNonceHKDF baseIV version;
  aad ← (if version =? ChunkedFormatV2 then
           '(plainSize, count) ← ChunkedPlaintextSize ciphertextSize (mf_ChunkSize manifest) version;
           buildObjectAAD aadChunkedV2Trailer object bindingID [count; wrap_u64 plainSize]
         else Ok (buildTerminalAAD version));
  match Open terminal nonce tail aad with
  | None => Err (Wrapf "%w: %v" ErrChunkedObjectIncomplete)
  | Some plain =>
      '(count, size) ← decodeChunkedTerminal plain;
      if MaxInt64 <? size then Err (Wrapf "%w: plaintext size overflow" ErrChunkedObjectIncomplete)
      else if negb (bool_decide (ChunkedCiphertextSize size (mf_ChunkSize manifest) version = Ok ciphertextSize))
      then Err (Wrapf "%w: size mismatch" ErrChunkedObjectIncomplete)
      else if negb (bool_decide (ChunkedDataChunkCount size (mf_ChunkSize manifest) = Ok count))
      then Err (Wrapf "%w: count mismatch" ErrChunkedObjectIncomplete)
      else Ok (mkInfo version count size true)
  end.

Definition AuthenticateChunkedTrailer (ctx : Ctx) (e : engine) (object : ObjectContext) (trailer : Source) (metadata : gomap)
    (ciphertextSize : Z) : M K ChunkedObjectInfo :=
  let '(polled, ctx) := ctx_poll ctx in
  _ ← lift (match polled with Some err => Err err | None => Ok tt end);
  _ ← lift (Validate object);
  let expanded := expandMetadataForCrypto metadata in
  m ← lift (let blob := mget expanded MetaEncryptedMetadata in
            if decide (blob = "") then Ok expanded else
            protected ← wrapErr "decrypt metadata: %w" (decryptMetadata e blob);
            Ok (map_merge expanded protected));
  version ← lift (ChunkedFormatVersion m);
  if (version =? ChunkedFormatV2) && negb (bool_decide (mget m MetaObjectFormatVersion = "chunked-v2"))
  then throw (Errorf "chunked-v2 trailer authentication requires declared chunked-v2 marker") else
  manifest ← lift (loadManifestFromMetadata m);
  bindingID ← lift (if version =? ChunkedFormatV2 then parseObjectBindingID (mget m MetaObjectBindingID) else Ok []);
  if version =? ChunkedFormatV1 then
    '(plain, count) ← lift (ChunkedPlaintextSize ciphertextSize (mf_ChunkSize manifest) version);
    mret (mkInfo version count (wrap_u64 plain) false)
  else if ciphertextSize <? ChunkedTerminalSize then throw (Wrapf "%w: short ciphertext" ErrChunkedObjectIncomplete) else
  salt ← lift (decodeBase64 (mget m MetaKeySalt));
  baseIV ← lift (decodeBase64 (mget m MetaIV));
  key ← trailerKey e m salt;
  terminal ← lift (newAESGCM key);
  tail ← lift (readTail ctx trailer);
  lift (checkTerminal terminal manifest baseIV tail object bindingID ciphertextSize version).

(** ** Multipart manifests *)

Definition DecryptMPUManifest (e : engine) (object : ObjectContext) (bindingID ciphertext : list byte) (metadata : gomap)
    : M K (list byte) :=
  _ ← lift (Validate object);
  if decide (bindingID = zeroBinding) then throw (Errorf "mpu manifest: binding ID is required") else
  let m := expandMetadataForCrypto metadata in
  if decide (mget m MetaObjectFormatVersion ≠ "mpu-manifest-v2" ∨ mget m MetaMPUManifestVersion ≠ "2")
  then throw (Errorf "mpu manifest: missing v2 marker")
  else if negb (bool_decide (parseObjectBindingID (mget m MetaObjectBindingID) = Ok bindingID))
  then throw (Errorf "mpu manifest: binding mismatch")
  else
    salt ← lift (decodeBase64 (mget m MetaKeySalt));
    nonce ← lift (decodeBase64 (mget m MetaIV));
    params ← lift (ParseKDFParams (mget m MetaKDFParams));
    key ← lift (deriveKeyWithParams e salt params);
    aead ← lift (createAEADCipher tag_fips (mget m MetaAlgorithm) key);
    aad ← lift (buildObjectAAD aadMPUV2Manifest object bindingID []);
    match Open aead nonce ciphertext aad with
    | None => throw (Errorf "mpu manifest: authentication failed: %w")
    | Some plain => mret plain
    end.
End read.
