(* ===== verification/EngineMeta.v ===== *)
(** * Stored metadata

    What a metadata map written by the engine still says after it was
    compacted for the provider, stored, returned in another order and expanded
    again. The engine's maps are [clean]: names are distinct up to case and
    gateway fields have their canonical spelling. *)
From S2P Require Import Prelude GoStd GoIO Primitives ObjectAAD ChunkLayout ChunkRecord ChunkedStream.
From S2P Require Import KeyManager Metadata ObjectFormat ObjectMeta Kdf PasswordKeyManager Engine EngineRead.
Local Open Scope Z_scope.
#[local] Arguments ToLower : simpl never.
#[local] Arguments EqualFold : simpl never.
#[local] Opaque metaKeyRegistry LookupMetaKey.

(** ** Exact and case-insensitive lookups *)

Lemma lookup_value m k : no_variant m k → map_lookup m k = metadataValue m k.
Proof.
  induction m as [|[k' v] m IH]; intros Hv; [done|]. cbn.
  assert (Hv' : no_variant m k) by (intros k1 ?; apply Hv; by right).
  destruct (EqualFold k' k) eqn:E.
  - apply EqualFold_spec, Hv in E; [|by left]. by rewrite decide_True.
  - rewrite decide_False; [by apply IH|]. intros ->. by rewrite (proj2 (EqualFold_spec k k)) in E.
Qed.

Lemma lookup_none m k : metadataValue m k = None → map_lookup m k = None.
Proof.
  intros Hn. rewrite lookup_value; [done|]. intros k' Hk' E. rewrite metadataValue_None in Hn. by destruct (Hn k').
Qed.

Lemma metadataValue_set_ne m k v n : ToLower k ≠ ToLower n → metadataValue (map_set m k v) n = metadataValue m n.
Proof.
  intros Hne. assert (E : EqualFold k n = false) by (destruct (EqualFold k n) eqn:E; [by apply EqualFold_spec in E|done]).
  induction m as [|[k' v'] m IH]; cbn; [by rewrite E|]. destruct (decide (k' = k)) as [->|]; cbn; [by rewrite E|].
  by rewrite IH.
Qed.

Lemma metadataValue_delete_ne m k n : ToLower k ≠ ToLower n → metadataValue (map_delete m k) n = metadataValue m n.
Proof.
  intros Hne. unfold map_delete. induction m as [|[k' v'] m IH]; [done|]. rewrite filter_cons. case_decide as Ek; cbn in *.
  - by rewrite IH.
  - subst. rewrite IH. destruct (EqualFold k n) eqn:E; [by apply EqualFold_spec in E|done].
Qed.

Lemma map_lookup_filter (P : string → bool) m k :
  map_lookup (filter (λ kv, P kv.1) m) k = if P k then map_lookup m k else None.
Proof.
  induction m as [|[k' v] m IH]; [by destruct (P k)|]. rewrite filter_cons. cbn [fst map_lookup].
  destruct (decide (k' = k)) as [->|Hne].
  - destruct (P k) eqn:E; [rewrite decide_True by done; cbn; by rewrite decide_True|].
    rewrite decide_False by (by intros []). exact IH.
  - case_decide; [|done]. cbn. by rewrite decide_False.
Qed.

Lemma map_lookup_delete m k k' : map_lookup (map_delete m k) k' = if decide (k = k') then None else map_lookup m k'.
Proof.
  unfold map_delete. induction m as [|[k1 v] m IH]; [by case_decide|]. rewrite filter_cons. cbn [fst].
  destruct (decide (k1 ≠ k)) as [Hne|E]; cbn [map_lookup]; rewrite IH; [|apply dec_stable in E; subst];
    repeat case_decide; subst; congruence.
Qed.

(** ** Clean maps *)

Definition clean (m : gomap) : Prop :=
  fold_distinct m ∧ ∀ k s, k ∈ m.*1 → LookupMetaKey k = Some s → k = Canonical s.

Lemma clean_no_variant m s : clean m → s ∈ metaKeyRegistry → no_variant m (Canonical s).
Proof.
  intros [_ Hc] Hs k Hk E. apply Hc; [done|]. rewrite (LookupMetaKey_fold _ _ E). by apply registry_fact.
Qed.

Lemma clean_lookup m s : clean m → s ∈ metaKeyRegistry → map_lookup m (Canonical s) = metadataValue m (Canonical s).
Proof. intros. by apply lookup_value, clean_no_variant. Qed.

Lemma clean_set m s v : clean m → s ∈ metaKeyRegistry → clean (map_set m (Canonical s) v).
Proof.
  intros Hc Hs. split; [apply fold_distinct_set; [apply Hc|by apply clean_no_variant]|].
  intros k s' [->|Hk]%map_set_keys Hl; [|by apply Hc]. destruct (registry_fact s Hs) as [Hl' _]. congruence.
Qed.

Lemma clean_perm m m' : m ≡ₚ m' → clean m → clean m'.
Proof. intros Hp [Hd Hc]. split; [unfold fold_distinct in *; by rewrite <-Hp|]. intros k s. rewrite <-Hp. apply Hc. Qed.

Lemma clean_filter (P : string * string → Prop) `{!∀ x, Decision (P x)} m : clean m → clean (filter P m).
Proof.
  intros [Hd Hc]. split; [by apply fold_distinct_filter|].
  intros k s (kv & -> & [_ Hk]%list_elem_of_filter)%list_elem_of_fmap. apply Hc. by apply list_elem_of_fmap_2.
Qed.

Lemma clean_delete m k : clean m → clean (map_delete m k).
Proof. apply clean_filter. Qed.

Lemma fold_distinct_wf m : fold_distinct m → wf_map m.
Proof. unfold fold_distinct, wf_map. apply NoDup_fmap_1. Qed.

Lemma clean_caller md : fold_distinct md → clean (callerMetadata md).
Proof.
  intros Hd. split; [by apply fold_distinct_filter|].
  intros k s (kv & -> & [Hk _]%list_elem_of_filter)%list_elem_of_fmap Hl. unfold IsGatewayReservedKey in Hk.
  rewrite Hl, orb_true_r in Hk. done.
Qed.

(** Canonical names, as a test that evaluates. *)
Definition is_canonical (k : string) : bool := existsb (λ s, bool_decide (Canonical s = k)) metaKeyRegistry.

Lemma is_canonical_spec k : is_canonical k = true → ∃ s, s ∈ metaKeyRegistry ∧ Canonical s = k.
Proof.
  unfold is_canonical. intros (s & Hs & E)%existsb_exists. apply bool_decide_eq_true in E.
  exists s. split; [by apply list_elem_of_In|done].
Qed.

Lemma clean_set_name m k v : is_canonical k = true → clean m → clean (map_set m k v).
Proof. intros (s & Hs & <-)%is_canonical_spec Hc. by apply clean_set. Qed.

Lemma clean_merge_names m l : forallb is_canonical l.*1 = true → clean m → clean (map_merge m l).
Proof.
  unfold map_merge. revert m. induction l as [|[k v] l IH]; intros m Hl Hc; [done|]. cbn in *.
  apply andb_prop in Hl as [Hk Hl]. apply IH; [done|]. by apply clean_set_name.
Qed.

Lemma clean_lookup_name m k : is_canonical k = true → clean m → map_lookup m k = metadataValue m k.
Proof. intros (s & Hs & <-)%is_canonical_spec Hc. by apply clean_lookup. Qed.

(** Folding conditional assignments to protected names. *)
Lemma protected_in s : s ∈ ProtectedStandardKeys → s ∈ metaKeyRegistry.
Proof.
  unfold ProtectedStandardKeys. rewrite list_elem_of_bind. intros (n & Hs & _). by apply list_elem_of_filter in Hs as [_ ?].
Qed.

Lemma protected_class s : s ∈ ProtectedStandardKeys → Class_ s = MetaClassProtectedStandard.
Proof.
  unfold ProtectedStandardKeys. rewrite list_elem_of_bind. intros (n & Hs & _). by apply list_elem_of_filter in Hs as [[? _] _].
Qed.

Lemma clean_foldl (f : gomap → MetaKeySpec → gomap) l m :
  (∀ s, s ∈ l → s ∈ metaKeyRegistry) → (∀ m s, f m s = m ∨ ∃ v, f m s = map_set m (Canonical s) v) →
  clean m → clean (foldl f m l).
Proof.
  intros Hl Hf. revert m. induction l as [|s l IH]; intros m Hc; [done|]. cbn. apply IH; [intros; apply Hl; by right|].
  destruct (Hf m s) as [->|[v ->]]; [done|]. apply clean_set; [done|]. apply Hl. by left.
Qed.

Lemma lookup_foldl_other (f : gomap → MetaKeySpec → gomap) l m k :
  (∀ m s, f m s = m ∨ ∃ v, f m s = map_set m (Canonical s) v) → k ∉ Canonical <$> l →
  map_lookup (foldl f m l) k = map_lookup m k.
Proof.
  intros Hf. revert m. induction l as [|s l IH]; intros m Hk; [done|]. cbn in *. rewrite not_elem_of_cons in Hk.
  rewrite IH by tauto. destruct (Hf m s) as [->|[v ->]]; [done|]. rewrite map_lookup_set, decide_False; [done|].
  intros E. by destruct Hk.
Qed.

Lemma value_foldl_other (f : gomap → MetaKeySpec → gomap) l m n :
  (∀ s, s ∈ l → s ∈ metaKeyRegistry) → (∀ m s, f m s = m ∨ ∃ v, f m s = map_set m (Canonical s) v) →
  LookupMetaKey n = None → metadataValue (foldl f m l) n = metadataValue m n.
Proof.
  intros Hl Hf Hn. revert m. induction l as [|s l IH]; intros m; [done|]. cbn. rewrite IH by (intros; apply Hl; by right).
  destruct (Hf m s) as [->|[v ->]]; [done|]. apply metadataValue_set_ne. intros E%LookupMetaKey_fold.
  destruct (registry_fact s (Hl s ltac:(by left))) as [Hs _]. congruence.
Qed.

(** ** Compaction and expansion *)

(** The strategies the profiles have. *)
Definition known_strategy (p : ProviderProfile) : Prop := CompactionStrategy p = "base64url" ∨ CompactionStrategy p = "none".

(** Names that are no gateway field at all. *)
Definition foreign (k : string) : bool := negb (IsGatewayReservedKey k).

Lemma foreign_spec k : foreign k = true → LookupMetaKey k = None ∧ EqualFold k originalContentLength = false.
Proof.
  unfold foreign, IsGatewayReservedKey. destruct (EqualFold k originalContentLength); [done|]. by destruct (LookupMetaKey k).
Qed.

Lemma foreign_kept k : foreign k = true → keptByCompaction k = true.
Proof.
  intros [Hl He]%foreign_spec. unfold keptByCompaction, IsEncryptionMetadata. by rewrite Hl, He.
Qed.

Lemma ExpandMetadata_base64url p c : CompactionStrategy p = "base64url" → ExpandMetadata p c = ExpandMetadata ProviderAWS c.
Proof.
  intros Hp. unfold ExpandMetadata, expandEncryptionMetadata, isCompactedKey.
  rewrite (is_base64url_p p Hp). done.
Qed.

Lemma clean_no_compact m s : clean m → s ∈ metaKeyRegistry → Compact s ≠ "" → metadataValue m (Compact s) = None.
Proof.
  intros [_ Hc] Hs Hne. apply metadataValue_None. intros k Hk E.
  destruct (registry_fact s Hs) as (_ & Hl & _). specialize (Hl Hne). rewrite <-(LookupMetaKey_fold _ _ E) in Hl.
  rewrite (Hc k s Hk Hl) in E. by apply (canonical_not_compact s s) in E.
Qed.

Lemma clean_stored m s : clean m → s ∈ metaKeyRegistry → Compact s ≠ "" → storedValue m s = metadataValue m (Canonical s).
Proof. intros. unfold storedValue. rewrite clean_no_compact by done. by destruct (metadataValue m (Canonical s)). Qed.

Lemma kept_clean m k s : clean m → k ∈ m.*1 → LookupMetaKey k = Some s → k = Canonical s.
Proof. intros [_ Hc]. apply Hc. Qed.

Lemma map_merge_keys out m k : k ∈ (map_merge out m).*1 ↔ k ∈ out.*1 ∨ k ∈ m.*1.
Proof.
  unfold map_merge. revert out. induction m as [|[k' v] m IH]; intros out; cbn; [set_solver|].
  rewrite IH, map_set_keys, elem_of_cons. tauto.
Qed.

Lemma compacted_keys p m k :
  CompactionStrategy p = "base64url" → k ∈ (CompactMetadata p m).*1 →
  k ∈ m.*1 ∧ keptByCompaction k = true ∨ k = MetaEncrypted ∨ ∃ s, aliased s ∧ k = Compact s.
Proof.
  intros Hp. unfold CompactMetadata, ShouldCompact. rewrite bool_decide_eq_false_2 by (by rewrite Hp). cbn [negb].
  rewrite (compactEncryptionMetadata_assign p Hp), map_merge_keys. intros [Hk|Hk].
  - assert (Hf : ∀ k, k ∈ (filter (λ kv, keptByCompaction kv.1) m).*1 → k ∈ m.*1 ∧ keptByCompaction k = true).
    { intros k' (kv & -> & [Hkv Hin]%list_elem_of_filter)%list_elem_of_fmap. split; [by apply list_elem_of_fmap_2|].
      by destruct (keptByCompaction kv.1). }
    destruct (storedValue m encryptedSpec); [apply map_set_keys in Hk as [->|Hk]|]; auto.
  - right. right. destruct (compact_assign_spec m) as (_ & Hks & _). apply Hks in Hk as (s & Ha & -> & _). eauto.
Qed.

(** The names of a compacted map: aliases apart, they are still clean. *)
Lemma compacted_clean p m c :
  known_strategy p → clean m → CompactMetadata p m ≡ₚ c →
  fold_distinct c ∧ (∀ k, k ∈ c.*1 → ToLower k = ToLower MetaEncrypted → k = MetaEncrypted) ∧
  (∀ k s, k ∈ c.*1 → isCompactedKey ProviderAWS k = false → LookupMetaKey k = Some s → k = Canonical s).
Proof.
  intros Hp Hc Hperm. destruct (registry_fact encryptedSpec encryptedSpec_in) as (Hle & _). change (Canonical encryptedSpec) with MetaEncrypted in Hle.
  assert (Hme : ∀ k, LookupMetaKey k = LookupMetaKey MetaEncrypted → LookupMetaKey k = Some encryptedSpec) by (by intros k ->).
  destruct Hp as [Hp|Hp].
  - destruct (CompactMetadata_spec p Hp m (proj1 Hc)) as (Hd & Hm & _). split_and!.
    + unfold fold_distinct in *. by rewrite <-Hperm.
    + intros k. rewrite <-Hperm. apply Hm.
    + intros k s. rewrite <-Hperm. intros [[Hk _]|[->|(s' & Ha & ->)]]%(compacted_keys p m k Hp) Hnc Hl.
      * by apply Hc.
      * rewrite Hle in Hl. by simplify_eq.
      * assert (isCompactedKey ProviderAWS (Compact s') = true); [|congruence].
        apply isCompactedKey_spec; [done|]. destruct Ha. eauto.
  - assert (Hcm : CompactMetadata p m = m).
    { unfold CompactMetadata, ShouldCompact. by rewrite bool_decide_eq_true_2. }
    rewrite Hcm in Hperm. apply (clean_perm _ _ Hperm) in Hc. split_and!; [apply Hc| |intros k s Hk _; by apply Hc].
    intros k Hk E%LookupMetaKey_fold%Hme. by apply (proj2 Hc k encryptedSpec).
Qed.

(** What the engine reads back: under the canonical name of every field that
    has an alias, and under every name that is no gateway field, what was
    written there. *)
Lemma stored_expand p m c :
  known_strategy p → clean m → CompactMetadata p m ≡ₚ c →
  let e := ExpandMetadata ProviderAWS c in
  clean e ∧
  (∀ s, aliased s → default "" (metadataValue e (Canonical s)) = default "" (metadataValue m (Canonical s))) ∧
  metadataValue e MetaEncrypted = metadataValue m MetaEncrypted ∧
  (∀ k, foreign k = true → metadataValue e k = metadataValue m k).
Proof.
  intros Hp Hc Hperm e. destruct (compacted_clean p m c Hp Hc Hperm) as (Hdc & Hme & Hck).
  destruct (ExpandMetadata_full ProviderAWS eq_refl c Hdc Hme) as (Hde & Hke & Hve). fold e in Hde, Hke, Hve.
  assert (Hce : clean e).
  { split; [done|]. intros k s [[Hk Hn]|[->|(s' & Hs' & ->)]]%Hke Hl; [by apply Hck| |].
    - destruct (registry_fact encryptedSpec encryptedSpec_in) as (Hle & _). change (Canonical encryptedSpec) with MetaEncrypted in Hle.
      rewrite Hle in Hl. by simplify_eq.
    - destruct (registry_fact s' Hs') as (Hl' & _). congruence. }
  destruct Hp as [Hp|Hp].
  - pose proof (ExpandMetadata_base64url p c Hp) as He. fold e in He.
    assert (HM : metadataValue e MetaEncrypted = metadataValue m MetaEncrypted).
    { rewrite <-He, (rt_marker p Hp m c (proj1 Hc) Hperm). apply (clean_stored m encryptedSpec); [done|apply encryptedSpec_in|done]. }
    split_and!; [done| |done|].
    + intros s Ha. destruct (decide (Canonical s = MetaEncrypted)) as [E|Hne]; [by rewrite E, HM|].
      rewrite <-He, (rt_aliased p Hp m c (proj1 Hc) Hperm s Ha Hne), clean_stored by (apply Ha || done).
      unfold nonempty. destruct (metadataValue m (Canonical s)); [|done]. by case_decide; subst.
    + intros k Hk. rewrite <-He. apply (rt_kept p Hp m c (proj1 Hc) Hperm). by apply foreign_kept.
  - assert (Hcm : CompactMetadata p m = m) by (unfold CompactMetadata, ShouldCompact; by rewrite bool_decide_eq_true_2).
    rewrite Hcm in Hperm. pose proof (clean_perm _ _ Hperm Hc) as Hcc.
    assert (Hmv : ∀ n, metadataValue c n = metadataValue m n) by (intros n; symmetry; apply metadataValue_perm; [apply Hc|done]).
    assert (Hcan : ∀ s, s ∈ metaKeyRegistry → metadataValue e (Canonical s) = metadataValue m (Canonical s)).
    { intros s Hs. rewrite Hve, (expanded_value ProviderAWS eq_refl) by done. unfold expandValue.
      destruct (decide (Compact s = "")) as [|Hne]; [|rewrite (clean_no_compact c s) by done].
      all: rewrite not_compacted by (done || by apply canonical_no_alias); rewrite Hmv, Hmv.
      all: assert (Hm' : ToLower MetaEncrypted = ToLower (Canonical s) →
             metadataValue m MetaEncrypted = metadataValue m (Canonical s)) by apply metadataValue_fold.
      2: destruct (metadataValue m (Canonical s)) eqn:E; cbn.
      all: case_decide; auto. }
    split_and!; [done| | |].
    + intros s [Hs _]. by rewrite Hcan.
    + apply (Hcan encryptedSpec encryptedSpec_in).
    + intros k Hk. pose proof (foreign_kept k Hk) as Hkk.
      rewrite Hve, (expanded_other ProviderAWS eq_refl) by (intros s Hs; by apply kept_no_name).
      rewrite decide_False by (intros E; by rewrite (not_kept_encrypted k (eq_sym E)) in Hkk).
      rewrite (not_compacted ProviderAWS eq_refl k) by (intros s Hs; by apply (kept_no_name k s)). apply Hmv.
Qed.

Lemma stored_mget p m c k :
  known_strategy p → clean m → CompactMetadata p m ≡ₚ c → (∃ s, aliased s ∧ Canonical s = k) →
  mget (ExpandMetadata ProviderAWS c) k = mget m k.
Proof.
  intros Hp Hc Hperm (s & Ha & <-). destruct (stored_expand p m c Hp Hc Hperm) as (Hce & Hv & _).
  unfold mget. rewrite (clean_lookup _ s Hce), (clean_lookup m s Hc) by apply Ha. by apply Hv.
Qed.

(** ** The sealed blob *)

Lemma registry_names :
  forallb (λ s, bool_decide (blobMember (Canonical s) = negb (bool_decide (Canonical s ∈ [MetaEncrypted; MetaEncryptedMetadata; MetaMPUEncrypted]))) &&
    (negb (isEncryptionPayloadMetadata (Canonical s)) || blobMember (Canonical s)) &&
    (negb (bool_decide (Canonical s = MetaMPUEncrypted)) || bool_decide (Compact s = ""))) metaKeyRegistry = true.
Proof. vm_compute. reflexivity. Qed.

Lemma registry_name s :
  s ∈ metaKeyRegistry →
  blobMember (Canonical s) = negb (bool_decide (Canonical s ∈ [MetaEncrypted; MetaEncryptedMetadata; MetaMPUEncrypted])) ∧
  (isEncryptionPayloadMetadata (Canonical s) = true → blobMember (Canonical s) = true) ∧
  (Canonical s = MetaMPUEncrypted → Compact s = "").
Proof.
  intros Hs%list_elem_of_In. pose proof registry_names as Hall. rewrite forallb_forall in Hall. specialize (Hall s Hs).
  apply andb_prop in Hall as [[H1 H2]%andb_prop H3]. apply bool_decide_eq_true in H1. split_and!; [done| |].
  - intros E. by rewrite E in H2.
  - intros E. rewrite (bool_decide_eq_true_2 _ E) in H3. by apply bool_decide_eq_true in H3.
Qed.

Lemma payload_fold k k' : ToLower k = ToLower k' → isEncryptionPayloadMetadata k = isEncryptionPayloadMetadata k'.
Proof. intros E. unfold isEncryptionPayloadMetadata, EqualFold. by rewrite (IsEncryptionMetadata_fold _ _ E), E. Qed.

Lemma blobMember_fold k k' : ToLower k = ToLower k' → blobMember k = blobMember k'.
Proof. intros E. unfold blobMember. by rewrite (payload_fold _ _ E), (LookupMetaKey_fold _ _ E). Qed.

Lemma foreign_member n : foreign n = true → blobMember n = false ∧ isEncryptionPayloadMetadata n = false.
Proof.
  intros [Hl He]%foreign_spec. unfold blobMember, isEncryptionPayloadMetadata, IsEncryptionMetadata. by rewrite Hl, He.
Qed.

Lemma foreign_not_canonical n s : foreign n = true → s ∈ metaKeyRegistry → ToLower (Canonical s) ≠ ToLower n.
Proof.
  intros [Hl _]%foreign_spec Hs E%LookupMetaKey_fold. destruct (registry_fact s Hs) as [Hs' _]. congruence.
Qed.

Lemma clean_set_value m s v n :
  clean m → s ∈ metaKeyRegistry →
  metadataValue (map_set m (Canonical s) v) n = if decide (ToLower (Canonical s) = ToLower n) then Some v else metadataValue m n.
Proof. intros Hc Hs. apply metadataValue_set. by apply clean_no_variant. Qed.

(** Merging clean maps. *)
Lemma clean_merge out m : clean out → clean m → (∀ k, k ∈ m.*1 → is_Some (LookupMetaKey k)) →
  clean (map_merge out m) ∧
  ∀ n, metadataValue (map_merge out m) n = match metadataValue m n with Some v => Some v | None => metadataValue out n end.
Proof.
  intros Hco Hcm Hk. destruct (merge_spec out m) as (Hd & Hks & Hv); [apply Hco|apply Hcm| |].
  - intros k Hin k' Hin' E. destruct (Hk k Hin) as [s Hs]. rewrite (proj2 Hcm k s Hin Hs).
    apply (proj2 Hco k' s Hin'). by rewrite (LookupMetaKey_fold _ _ E).
  - split; [split; [done|]|done]. intros k s [Hin|Hin]%Hks; [by apply Hco|by apply Hcm].
Qed.

Lemma protectedOf_spec m :
  clean m → clean (protectedOf m) ∧
  ∀ s, s ∈ metaKeyRegistry → metadataValue (protectedOf m) (Canonical s) =
    if decide (s ∈ ProtectedStandardKeys) then nonempty (metadataValue m (Canonical s)) else None.
Proof.
  intros Hc.
  assert (Hpo : protectedOf m = assign Canonical (λ s, nonempty (metadataValue m (Canonical s))) ProtectedStandardKeys).
  { unfold protectedOf, assign. apply foldl_pointwise. intros out s. unfold nonempty, metadataValueFold.
    destruct (metadataValue m (Canonical s)); cbn; repeat case_decide; by subst. }
  destruct (assign_spec Canonical (λ s, nonempty (metadataValue m (Canonical s))) ProtectedStandardKeys) as (Hd & Hk & Hv).
  { intros s s' Hs Hs' _ _. apply canonical_inj; by apply protected_in. }
  rewrite Hpo. split.
  - split; [done|]. intros k s (s' & Hs' & -> & _)%Hk Hl. destruct (registry_fact s' (protected_in s' Hs')) as [Hl' _]. congruence.
  - intros s Hs. case_decide as Hp.
    + destruct (nonempty (metadataValue m (Canonical s))) eqn:E; [rewrite <-E; by apply Hv; [|rewrite E]|].
      apply metadataValue_None. intros k (s' & Hs' & -> & Hne)%Hk E'.
      apply canonical_inj in E'; [subst; by rewrite E in Hne|by apply protected_in|done].
    + apply metadataValue_None. intros k (s' & Hs' & -> & Hne)%Hk E'.
      apply canonical_inj in E'; [by subst|by apply protected_in|done].
Qed.
