(* ===== verification/EngineSeal.v ===== *)
(** * Opening sealed headers

    The headers of a stored object carry its metadata ([carries]): in the
    clear, or in the blob sealed under the engine's metadata key. Either way
    the engine recovers the fields it wrote. *)
From S2P Require Import Prelude GoStd GoIO Primitives ObjectAAD ChunkLayout ChunkRecord ChunkedStream ChunkedTheorems.
From S2P Require Import KeyManager Rotation Metadata ObjectFormat ObjectMeta Kdf PasswordKeyManager Engine EngineRead EngineMeta.
Local Open Scope Z_scope.
#[local] Arguments ToLower : simpl never.
#[local] Arguments EqualFold : simpl never.
#[local] Opaque metaKeyRegistry LookupMetaKey.

(** ** Runs of the monad *)

Section monad.
Context {K : Type}.

Lemma bind_run {A B} (m : M K A) (f : A → M K B) st r st' :
  (m ≫= f) st = (r, st') →
  (∃ a st1, m st = (Ok a, st1) ∧ f a st1 = (r, st')) ∨ (∃ e, m st = (Err e, st') ∧ r = Err e).
Proof. unfold mbind, M_bind. destruct (m st) as [[a|e] st1]; intros; simplify_eq; eauto. Qed.

Lemma bind_Ok_run {A B} (m : M K A) (f : A → M K B) st b st' :
  (m ≫= f) st = (Ok b, st') → ∃ a st1, m st = (Ok a, st1) ∧ f a st1 = (Ok b, st').
Proof. intros [?|(e & _ & ?)]%bind_run; [done|discriminate]. Qed.

Lemma bind_step {A B} (m : M K A) (f : A → M K B) st a st1 : m st = (Ok a, st1) → (m ≫= f) st = f a st1.
Proof. unfold mbind, M_bind. by intros ->. Qed.

Lemma lift_run {A} (r : result A) (st : EngineState K) a st' : lift r st = (Ok a, st') → r = Ok a ∧ st' = st.
Proof. unfold lift. by intros [= -> ->]. Qed.

Lemma bind_lift {A B} (a : A) (f : A → M K B) st : (lift (Ok a) ≫= f) st = f a st.
Proof. done. Qed.

Lemma wrapErr_Ok {A} msg (r : result A) a : wrapErr msg r = Ok a → r = Ok a.
Proof. by destruct r. Qed.

Lemma wrapM_Ok {A} msg (m : M K A) st a st' : wrapM msg m st = (Ok a, st') → m st = (Ok a, st').
Proof. unfold wrapM. destruct (m st) as [[]]; intros; simplify_eq/=; done. Qed.

Lemma mret_run {A} (a b : A) (st st' : EngineState K) : (mret a : M K A) st = (Ok b, st') → a = b ∧ st' = st.
Proof. unfold mret, M_ret. by intros [= -> ->]. Qed.

Lemma randM_run n (st : EngineState K) l st' :
  randM n st = (Ok l, st') → length l = Z.to_nat n ∧ es_km st' = es_km st ∧ es_rotation st' = es_rotation st.
Proof.
  unfold randM. destruct (rand_read (Z.to_nat n) (es_world st)) as [r w] eqn:E. intros; simplify_eq/=.
  apply rand_read_length in E. done.
Qed.
End monad.

(** Split the hypothesis [H] about a run of a sequence that succeeded: [E] is
    the run of the first call. *)
Tactic Notation "step_run" hyp(H) "as" ident(x) ident(st) ident(E) := apply bind_Ok_run in H as (x & st & E & H).

Lemma encodeBase64_empty l : encodeBase64 l = "" → l = [].
Proof. intros E. pose proof (decodeBase64_encode l) as Hd. rewrite E in Hd. vm_compute in Hd. by simplify_eq. Qed.

Section seal.
Context `{CiphersLaws, MapJSONLaws}.

Lemma newAESGCM_Ok key a : newAESGCM key = Ok a → a = aes_gcm key.
Proof using. unfold newAESGCM. case_match; intros; by simplify_eq. Qed.

Lemma ascii_map_filter (P : string * string → Prop) `{!∀ x, Decision (P x)} m : ascii_map m → ascii_map (filter P m).
Proof using. unfold ascii_map. rewrite !Forall_forall. intros Ha kv [_ Hkv]%list_elem_of_filter. by apply Ha. Qed.

(** What sealing produces and what opening it gives back. *)
Lemma encryptMetadata_spec {K} e mk full (st : EngineState K) blob st' :
  en_metadataKey e = Some mk → clean full → ascii_map full → encryptMetadata e full st = (Ok blob, st') →
  es_km st' = es_km st ∧ blob ≠ "" ∧ (∃ l, blob = encodeBase64 l) ∧ ∃ dm, decryptMetadata e blob = Ok dm ∧ clean dm ∧
    (∀ k, k ∈ dm.*1 → k ∈ full.*1 ∧ blobMember k = true ∨ k = MetaEncrypted) ∧
    ∀ n, metadataValue dm n = if decide (ToLower MetaEncrypted = ToLower n) then Some "true"
                              else if blobMember n then metadataValue full n else None.
Proof using All.
  intros Hk Hc Ha. unfold encryptMetadata. rewrite Hk. set (sub := filter (λ kv, blobMember kv.1) full).
  intros Hr. step_run Hr as gcm st1 Hs1. apply lift_run in Hs1 as [Hg%wrapErr_Ok ->]. pose proof (newAESGCM_Ok _ _ Hg) as ->.
  step_run Hr as nonce st2 Hs2. apply wrapM_Ok, randM_run in Hs2 as (Hn & Hkm & _). apply mret_run in Hr as [<- ->].
  assert (Hcs : clean sub) by (by apply clean_filter).
  destruct (json_map_roundtrip sub) as (m' & Hj & Hp); [apply fold_distinct_wf, Hcs|by apply ascii_map_filter|].
  assert (Hcm : clean m') by (by apply (clean_perm sub)).
  pose proof (encryptedSpec_in) as Hei. split; [done|]. split.
  { intros E%encodeBase64_empty. apply (f_equal length) in E. rewrite length_app, Hn in E. discriminate E. }
  split; [by eexists|].
  exists (map_set m' MetaEncrypted "true"). split_and!.
  - unfold decryptMetadata. rewrite Hk, decodeBase64_encode. cbn [wrapErr mbind result_bind]. rewrite Hg. cbn [wrapErr mbind result_bind].
    rewrite (proj2 (Z.ltb_ge _ _)) by (rewrite length_app, Hn; unfold nonceSize; lia).
    rewrite take_app_length', drop_app_length' by (by rewrite Hn). rewrite aead_open_seal by (rewrite Hn; done). by rewrite Hj.
  - by apply (clean_set m' encryptedSpec).
  - intros k [->|Hin]%map_set_keys; [by right|left]. rewrite Hp in Hin.
    apply list_elem_of_fmap in Hin as (kv & -> & [Hb Hin]%list_elem_of_filter). split; [by apply list_elem_of_fmap_2|].
    by destruct (blobMember kv.1).
  - intros n. pose proof (clean_set_value m' encryptedSpec "true" n Hcm Hei) as Hv.
    change (Canonical encryptedSpec) with MetaEncrypted in Hv. rewrite Hv. case_decide; [done|].
    rewrite (metadataValue_perm m' sub) by (apply Hcm || done).
    apply (metadataValue_filter blobMember). intros k E. by apply blobMember_fold.
Qed.

(** ** Headers that carry an object's metadata *)

(** [h] carries [full]: the marker and the caller's entries in the clear, and
    the gateway's fields in the clear or in the blob. *)
Definition carries (e : engine) (full h : gomap) : Prop :=
  clean h ∧ mget h MetaEncrypted = "true" ∧ (∀ n, foreign n = true → metadataValue h n = metadataValue full n) ∧
  match en_metadataKey e with
  | None => ∀ s, aliased s → mget h (Canonical s) = mget full (Canonical s)
  | Some _ => ∃ dm, mget h MetaEncryptedMetadata ≠ "" ∧ decryptMetadata e (mget h MetaEncryptedMetadata) = Ok dm ∧
      clean dm ∧ (∀ k, k ∈ dm.*1 → is_Some (LookupMetaKey k)) ∧
      (∀ s, aliased s → Canonical s ≠ MetaEncryptedMetadata →
         default (mget h (Canonical s)) (map_lookup dm (Canonical s)) = mget full (Canonical s))
  end.

(** [m] has the fields of [full], and no blob is left to open. *)
Definition recovers (e : engine) (full m : gomap) : Prop :=
  clean m ∧ (∀ s, aliased s → Canonical s ≠ MetaEncryptedMetadata → mget m (Canonical s) = mget full (Canonical s)) ∧
  (∀ n, foreign n = true → metadataValue m n = metadataValue full n) ∧ openBlob e m = Ok m.

Definition blobSpec : MetaKeySpec := structural MetaEncryptedMetadata MetaEncryptedMetadataCompact false.
Lemma blobSpec_in : aliased blobSpec.
Proof using. split; [|done]. apply (bool_decide_unpack _). vm_compute. reflexivity. Qed.

Lemma clear_carries e full :
  en_metadataKey e = None → clean full → mget full MetaEncrypted = "true" → carries e full full.
Proof using. intros Hk Hc Hm. unfold carries. rewrite Hk. done. Qed.

Lemma carries_set e full h s v :
  aliased s → Canonical s ≠ MetaEncryptedMetadata → Canonical s ≠ MetaEncrypted → v = mget full (Canonical s) →
  carries e full h → carries e full (map_set h (Canonical s) v).
Proof using.
  intros Ha Hb Hne -> (Hc & Hm & Hf & Hx). unfold carries. split_and!.
  - apply clean_set; [done|apply Ha].
  - unfold mget. by rewrite map_lookup_set, decide_False.
  - intros n Hn. rewrite <-Hf by done. apply metadataValue_set_ne. apply foreign_not_canonical; [done|apply Ha].
  - assert (Hg : ∀ s', mget (map_set h (Canonical s) (mget full (Canonical s))) (Canonical s') =
       if decide (Canonical s = Canonical s') then mget full (Canonical s) else mget h (Canonical s'))
      by (intros s'; unfold mget; rewrite map_lookup_set; by case_decide).
    assert (Hgb : mget (map_set h (Canonical s) (mget full (Canonical s))) MetaEncryptedMetadata = mget h MetaEncryptedMetadata)
      by (unfold mget; by rewrite map_lookup_set, decide_False).
    destruct (en_metadataKey e).
    + destruct Hx as (dm & H1' & H2' & H3' & H4' & H5'). exists dm. rewrite Hgb. split_and!; [done..|].
      intros s' Ha' Hb'. specialize (H5' s' Ha' Hb'). rewrite Hg. case_decide as E; [|done].
      destruct (map_lookup dm (Canonical s')); cbn in *; [done|by rewrite E].
    + intros s' Ha'. rewrite Hg. case_decide as E; [by rewrite E|by apply Hx].
Qed.

(** A gateway field that [full] leaves empty is empty in the headers [h] too. *)
Definition quiet (full h : gomap) : Prop :=
  ∀ s, s ∈ metaKeyRegistry → Canonical s ≠ MetaEncryptedMetadata → Canonical s ≠ MetaEncrypted → mget full (Canonical s) = "" → mget h (Canonical s) = "".

Lemma sealed_carries {K} e mk full (st : EngineState K) h st' :
  en_metadataKey e = Some mk → clean full → ascii_map full → mget full MetaEncrypted = "true" →
  metadataValue full originalContentLength = None → sealMetadataBlob e full st = (Ok h, st') →
  es_km st' = es_km st ∧ carries e full h ∧
  (∃ dm, decryptMetadata e (mget h MetaEncryptedMetadata) = Ok dm ∧
     (∀ s, s ∈ metaKeyRegistry → blobMember (Canonical s) = true → map_lookup dm (Canonical s) = map_lookup full (Canonical s)) ∧
     map_lookup dm MetaMPUEncrypted = None ∧ quiet full h) ∧
  ∃ l, h = map_merge (map_set (map_set (filter (λ kv, negb (isEncryptionPayloadMetadata kv.1)) full) MetaEncrypted "true")
                        MetaEncryptedMetadata (encodeBase64 l)) (protectedOf full).
Proof using All.
  intros Hk Hc Ha Hm Ho Hr. unfold sealMetadataBlob in Hr. step_run Hr as blob st1 Hs1. apply wrapM_Ok in Hs1.
  destruct (encryptMetadata_spec e mk full st blob st1 Hk Hc Ha Hs1) as (Hkm & Hne & (lb & Hlb) & dm & Hd & Hcd & Hkd & Hvd).
  apply mret_run in Hr as [<- ->]. split; [done|]. apply and_assoc. split; [|exists lb; by rewrite <-Hlb].
  set (h0 := filter (λ kv, negb (isEncryptionPayloadMetadata kv.1)) full).
  assert (Hc0 : clean h0) by (by apply clean_filter).
  assert (Hv0 : ∀ n, metadataValue h0 n = if isEncryptionPayloadMetadata n then None else metadataValue full n).
  { intros n. unfold h0. rewrite (metadataValue_filter (λ k, negb (isEncryptionPayloadMetadata k)))
      by (intros k E; by rewrite (payload_fold _ _ E)). by destruct (isEncryptionPayloadMetadata n). }
  set (h1 := map_set h0 MetaEncrypted "true"). set (h2 := map_set h1 MetaEncryptedMetadata blob).
  assert (Hc1 : clean h1) by (apply (clean_set _ encryptedSpec); [done|apply encryptedSpec_in]).
  assert (Hc2 : clean h2) by (apply (clean_set _ blobSpec); [done|apply blobSpec_in]).
  destruct (protectedOf_spec full Hc) as [Hcp Hvp].
  assert (Hkp : ∀ k, k ∈ (protectedOf full).*1 → ∃ s, s ∈ metaKeyRegistry ∧ k = Canonical s).
  { intros k Hk'. apply (foldl_keys (λ k, ∃ s, s ∈ metaKeyRegistry ∧ k = Canonical s)) in Hk'; [done| |set_solver].
    intros out x Hx Hout k' Hk2. cbn in Hk2. case_decide; [|by apply Hout].
    apply map_set_keys in Hk2 as [->|?]; [|by apply Hout]. exists x. by split; [apply protected_in|]. }
  destruct (clean_merge h2 (protectedOf full) Hc2 Hcp) as [Hch Hvh].
  { intros k (s & Hs & ->)%Hkp. destruct (registry_fact s Hs) as [-> _]. eauto. }
  set (h := map_merge h2 (protectedOf full)) in *.
  (* the value under a canonical name *)
  assert (Hval : ∀ s, s ∈ metaKeyRegistry → Canonical s ≠ MetaEncryptedMetadata → Canonical s ≠ MetaEncrypted →
    mget h (Canonical s) = mget full (Canonical s) ∨ isEncryptionPayloadMetadata (Canonical s) = true ∧ mget h (Canonical s) = "").
  { intros s Hs Hb Hn. unfold mget. rewrite (clean_lookup h s Hch Hs), (clean_lookup full s Hc Hs), Hvh, (Hvp s Hs).
    assert (metadataValue h2 (Canonical s) = metadataValue h0 (Canonical s)) as ->.
    { unfold h2, h1. rewrite !metadataValue_set_ne; [done|..].
      - intros E%(canonical_inj encryptedSpec s encryptedSpec_in Hs). by subst.
      - intros E%(canonical_inj blobSpec s (proj1 blobSpec_in) Hs). by subst. }
    rewrite Hv0. case_decide; [|destruct (isEncryptionPayloadMetadata _); auto].
    destruct (metadataValue full (Canonical s)) as [v|]; cbn; [|by destruct (isEncryptionPayloadMetadata _); auto].
    case_decide; [by left|]. cbn. destruct (isEncryptionPayloadMetadata (Canonical s)); [by right|by left]. }
  assert (Hpn : ∀ s, s ∈ metaKeyRegistry → Class_ s ≠ MetaClassProtectedStandard → metadataValue (protectedOf full) (Canonical s) = None).
  { intros s Hs Hcl. rewrite Hvp by done. by rewrite decide_False by (by intros ?%protected_class). }
  assert (Hmark : metadataValue h MetaEncrypted = Some "true").
  { rewrite Hvh, (Hpn encryptedSpec encryptedSpec_in ltac:(done) : metadataValue (protectedOf full) MetaEncrypted = None).
    unfold h2. rewrite metadataValue_set_ne by done. unfold h1.
    etransitivity; [apply (clean_set_value h0 encryptedSpec _ _ Hc0 encryptedSpec_in)|by rewrite decide_True]. }
  assert (Hblob : mget h MetaEncryptedMetadata = blob).
  { unfold mget. rewrite (clean_lookup h blobSpec Hch (proj1 blobSpec_in) : map_lookup h MetaEncryptedMetadata = metadataValue h MetaEncryptedMetadata).
    rewrite Hvh, (Hpn blobSpec (proj1 blobSpec_in) ltac:(done) : metadataValue (protectedOf full) MetaEncryptedMetadata = None). unfold h2.
    assert (Hb : metadataValue (map_set h1 MetaEncryptedMetadata blob) MetaEncryptedMetadata = Some blob); [|by rewrite Hb].
    etransitivity; [apply (clean_set_value h1 blobSpec _ _ Hc1 (proj1 blobSpec_in))|by rewrite decide_True]. }
  split; [|exists dm; rewrite Hblob; split; [done|]].
  2: { split_and!; [|by rewrite (clean_lookup_name dm MetaMPUEncrypted), Hvd, decide_False by (done || vm_compute; reflexivity)|].
       2: { intros s Hs Hb Hn E. destruct (Hval s Hs Hb Hn) as [->|[_ ?]]; done. }
       intros s Hs Hbm. rewrite (clean_lookup dm s Hcd Hs), (clean_lookup full s Hc Hs), Hvd, Hbm. case_decide as E; [|done].
       apply (canonical_inj encryptedSpec s encryptedSpec_in Hs) in E. subst s. by vm_compute in Hbm. }
  split_and!; [done| | |].
  - unfold mget. pose proof (clean_lookup h encryptedSpec Hch encryptedSpec_in) as Hl. change (Canonical encryptedSpec) with MetaEncrypted in Hl.
    by rewrite Hl, Hmark.
  - intros n Hn. rewrite Hvh, (proj2 (metadataValue_None (protectedOf full) n)).
    + unfold h2, h1. rewrite !metadataValue_set_ne, Hv0, (proj2 (foreign_member n Hn)); [done|..].
      * apply (foreign_not_canonical n encryptedSpec Hn encryptedSpec_in).
      * apply (foreign_not_canonical n blobSpec Hn (proj1 blobSpec_in)).
    + intros k (s & Hs & ->)%Hkp. by apply foreign_not_canonical.
  - rewrite Hk. exists dm. rewrite Hblob. split_and!; [done..| |].
    + intros k [[Hin Hb]| ->]%Hkd.
      * destruct (LookupMetaKey k) eqn:El; [done|]. exfalso. unfold blobMember, isEncryptionPayloadMetadata, IsEncryptionMetadata in Hb.
        rewrite El in Hb. destruct (EqualFold k originalContentLength) eqn:Eo; [|done]. apply EqualFold_spec in Eo.
        rewrite metadataValue_None in Ho. by destruct (Ho k).
      * destruct (registry_fact encryptedSpec encryptedSpec_in) as [Hl _]. change (Canonical encryptedSpec) with MetaEncrypted in Hl. by rewrite Hl.
    + intros s [Hs Hal] Hb. rewrite (clean_lookup dm s Hcd Hs), Hvd. case_decide as E.
      { apply (canonical_inj encryptedSpec s encryptedSpec_in Hs) in E. rewrite <-E. symmetry. exact Hm. }
      assert (Hn : Canonical s ≠ MetaEncrypted) by (by intros E'; rewrite E' in E).
      destruct (registry_name s Hs) as (Hmem & Hpay & Hmpu). destruct (Hval s Hs Hb Hn) as [Hsame|[Hp Hemp]].
      * destruct (blobMember (Canonical s)); [|done]. destruct (metadataValue full (Canonical s)) eqn:Ef; cbn; [|done].
        unfold mget. by rewrite (clean_lookup full s Hc Hs), Ef.
      * rewrite (Hpay Hp), Hemp. unfold mget. rewrite (clean_lookup full s Hc Hs). by destruct (metadataValue full (Canonical s)).
Qed.

(** ** Opening the expanded headers *)

(** [ex] reads like the headers [h]. *)
Definition reads_like (h ex : gomap) : Prop :=
  clean ex ∧ (∀ s, aliased s → mget ex (Canonical s) = mget h (Canonical s)) ∧
  (∀ n, foreign n = true → metadataValue ex n = metadataValue h n).

Lemma expand_reads_like h p c :
  known_strategy p → clean h → CompactMetadata p h ≡ₚ c → reads_like h (ExpandMetadata ProviderAWS c).
Proof using.
  intros Hp Hc Hperm. destruct (stored_expand p h c Hp Hc Hperm) as (Hce & _ & _ & Hfe).
  split_and!; [exact Hce| |exact Hfe]. intros s Ha. apply (stored_mget p h c); eauto.
Qed.

Lemma blobKeyOf_clean ex : clean ex → blobKeyOf ex = MetaEncryptedMetadata.
Proof using.
  intros Hce. unfold blobKeyOf, has_key. rewrite (lookup_none ex MetaEncryptedMetadataCompact); [done|].
  apply (clean_no_compact ex blobSpec Hce (proj1 blobSpec_in)). done.
Qed.

Lemma merge_reads_like e full h ex :
  carries e full h → reads_like h ex →
  match en_metadataKey e with
  | None => recovers e full ex
  | Some _ => ∃ m dm, mergeBlob e ex = Ok (m, Some dm) ∧ decryptMetadata e (mget h MetaEncryptedMetadata) = Ok dm ∧ clean m ∧
      (∀ s, aliased s → Canonical s ≠ MetaEncryptedMetadata → mget m (Canonical s) = mget full (Canonical s)) ∧
      (∀ n, foreign n = true → metadataValue m n = metadataValue full n)
  end.
Proof using.
  intros (Hc & Hm & Hf & Hx) (Hce & Hg & Hfe). destruct (en_metadataKey e) as [mk|] eqn:Hk.
  - destruct Hx as (dm & Hne & Hd & Hcd & Hkd & Hv). exists (map_merge ex dm), dm.
    destruct (clean_merge ex dm Hce Hcd Hkd) as [Hcm Hvm]. split_and!; [|done..| |].
    + unfold mergeBlob. rewrite Hk, blobKeyOf_clean by done.
      rewrite (Hg blobSpec blobSpec_in : mget ex MetaEncryptedMetadata = mget h MetaEncryptedMetadata).
      by rewrite decide_False, Hd.
    + intros s Ha Hb. pose proof (proj1 Ha) as Hs. rewrite <-(Hv s Ha Hb), <-(Hg s Ha).
      unfold mget. rewrite (clean_lookup (map_merge ex dm) s), (clean_lookup dm s), (clean_lookup ex s), Hvm by done.
      by destruct (metadataValue dm (Canonical s)).
    + intros n Hn. rewrite Hvm, <-Hf, <-Hfe by done. rewrite (proj2 (metadataValue_None dm n)); [done|].
      intros k Hin E. destruct (Hkd k Hin) as [s Hs]. rewrite (LookupMetaKey_fold _ _ E), (proj1 (foreign_spec n Hn)) in Hs. done.
  - split_and!; [done| | |].
    + intros s Ha _. rewrite Hg by done. by apply Hx.
    + intros n Hn. by rewrite Hfe, Hf.
    + unfold openBlob, mergeBlob. by rewrite Hk.
Qed.

(** A map without a blob is not touched. *)
Lemma openBlob_none e m : clean m → mget m MetaEncryptedMetadata = "" → openBlob e m = Ok m.
Proof using.
  intros Hc Hm. unfold openBlob, mergeBlob. destruct (en_metadataKey e); [|done].
  by rewrite blobKeyOf_clean, Hm, decide_True by done.
Qed.

Lemma mget_delete m k k' : mget (map_delete m k) k' = if decide (k = k') then "" else mget m k'.
Proof using. unfold mget. rewrite map_lookup_delete. by case_decide. Qed.
Lemma mget_set m k v k' : mget (map_set m k v) k' = if decide (k = k') then v else mget m k'.
Proof using. unfold mget. rewrite map_lookup_set. by case_decide. Qed.

Lemma delete_recovers e full m :
  clean m → (∀ s, aliased s → Canonical s ≠ MetaEncryptedMetadata → mget m (Canonical s) = mget full (Canonical s)) →
  (∀ n, foreign n = true → metadataValue m n = metadataValue full n) →
  recovers e full (map_delete m MetaEncryptedMetadata).
Proof using.
  intros Hc Hg Hf. split_and!; [by apply clean_delete| | |].
  - intros s Ha Hb. rewrite mget_delete, decide_False by (intros E; by rewrite E in Hb). by apply Hg.
  - intros n Hn. rewrite metadataValue_delete_ne; [by apply Hf|].
    apply (foreign_not_canonical n blobSpec Hn (proj1 blobSpec_in)).
  - apply openBlob_none; [by apply clean_delete|]. by rewrite mget_delete, decide_True.
Qed.

Lemma recovers_set e full m s :
  aliased s → Canonical s ≠ MetaEncryptedMetadata → recovers e full m →
  recovers e full (map_set m (Canonical s) (mget full (Canonical s))).
Proof using.
  intros Ha Hb (Hc & Hg & Hf & Ho). split_and!.
  - apply clean_set; [done|apply Ha].
  - intros s' Ha' Hb'. rewrite mget_set. case_decide as E; [by rewrite E|by apply Hg].
  - intros n Hn. rewrite metadataValue_set_ne; [by apply Hf|]. apply foreign_not_canonical; [done|apply Ha].
  - unfold openBlob, mergeBlob in *. destruct (en_metadataKey e); [|done].
    rewrite blobKeyOf_clean in Ho by done. rewrite blobKeyOf_clean by (apply clean_set; [done|apply Ha]).
    rewrite mget_set, (decide_False (P := Canonical s = _)) by done.
    destruct (decide (mget m MetaEncryptedMetadata = "")) as [E|E]; [done|].
    exfalso. destruct (decryptMetadata _ _); [|done]. simplify_eq/=. apply E. rewrite <-Ho at 1. by rewrite mget_delete, decide_True.
Qed.

Lemma open_recovers e full h ex : carries e full h → reads_like h ex → ∃ m, openBlob e ex = Ok m ∧ recovers e full m.
Proof using.
  intros Hcar Hr. pose proof (merge_reads_like e full h ex Hcar Hr) as Hm. unfold openBlob.
  destruct (en_metadataKey e) eqn:Hk.
  - destruct Hm as (m & dm & -> & _ & Hc & Hg & Hf). cbn [mbind result_bind]. rewrite blobKeyOf_clean by apply Hr.
    eexists. split; [done|]. by apply delete_recovers.
  - exists ex. split; [|done]. unfold mergeBlob. by rewrite Hk.
Qed.

Lemma openHeader_recovers e full h ex :
  carries e full h → reads_like h ex → mget full MetaEncrypted = "true" → mget ex MetaFallbackVersion ≠ "3" →
  ∃ m, openHeader e ex = Ok m ∧ recovers e full m.
Proof using.
  intros Hcar Hr Hmk Hv. pose proof (merge_reads_like e full h ex Hcar Hr) as Hm. unfold openHeader.
  rewrite bool_decide_eq_false_2 by done. destruct (en_metadataKey e) eqn:Hk; [|by exists ex].
  destruct Hm as (m & dm & -> & _ & Hc & Hg & Hf). cbn [mbind result_bind]. rewrite blobKeyOf_clean by apply Hr.
  pose proof (delete_recovers e full m Hc Hg Hf) as Hrec. eexists. split; [done|]. case_match; [|done].
  rewrite <-Hmk. by apply (recovers_set e full _ encryptedSpec encrypted_aliased).
Qed.

(** The stored headers say that the object is encrypted. *)
Lemma carries_encrypted e full h p c :
  known_strategy p → carries e full h → CompactMetadata p h ≡ₚ c → IsEncryptedMetadata c = true.
Proof using.
  intros Hp (Hc & Hm & _) Hperm. destruct (registry_fact encryptedSpec encryptedSpec_in) as [Hl _].
  assert (Hv : metadataValue h MetaEncrypted = Some "true").
  { unfold mget in Hm. rewrite (clean_lookup h encryptedSpec Hc encryptedSpec_in : map_lookup h MetaEncrypted = metadataValue h MetaEncrypted) in Hm.
    destruct (metadataValue h MetaEncrypted); [by f_equal|done]. }
  assert (Hcv : metadataValue c MetaEncrypted = Some "true").
  { destruct Hp as [Hp|Hp].
    - rewrite (rt_no_alias p Hp h c (proj1 Hc) Hperm); [|apply (canonical_no_alias encryptedSpec encryptedSpec_in)].
      rewrite decide_True by done. by rewrite (clean_stored h encryptedSpec Hc encryptedSpec_in).
    - assert (Hcm : CompactMetadata p h = h) by (unfold CompactMetadata, ShouldCompact; by rewrite bool_decide_eq_true_2).
      rewrite Hcm in Hperm. rewrite <-Hv. symmetry. apply metadataValue_perm; [apply Hc|done]. }
  apply metadataValue_Some in Hcv as (k & Hin & E). unfold IsEncryptedMetadata. apply existsb_exists.
  exists (k, "true"). split; [by apply list_elem_of_In|]. cbn [fst snd]. rewrite bool_decide_eq_true_2 by done.
  rewrite (LookupMetaKey_fold _ _ E), (Hl : LookupMetaKey MetaEncrypted = Some encryptedSpec). by apply EqualFold_spec.
Qed.
End seal.
