(* ===== verification/EngineFields.v ===== *)
(** * The fields of new objects

    The metadata the engine writes is the caller's, less the gateway's names,
    extended by gateway fields under their canonical names with ASCII values
    ([ext]); the values of the fields that reading depends on. *)
From S2P Require Import Prelude GoStd GoText GoIO Primitives ObjectAAD ChunkLayout ChunkRecord ChunkedStream ChunkedTheorems.
From S2P Require Import KeyManager Rotation Metadata ObjectFormat ObjectMeta Kdf PasswordKeyManager Engine EngineRead EngineMeta EngineSeal.
Local Open Scope Z_scope.
#[local] Arguments ToLower : simpl never.
#[local] Arguments EqualFold : simpl never.
#[local] Arguments FormatInt : simpl never.
#[local] Arguments ascii_string : simpl never.

(** ** ASCII values *)

Definition ascii_bytes (l : list byte) : bool := forallb (λ b, byte_val b <? 128) l.

Lemma ascii_of_bytes l : ascii_string (string_of_bytes l) = ascii_bytes l.
Proof. unfold ascii_string. by rewrite bytes_of_string_of_bytes. Qed.

Lemma ascii_app s t : ascii_string (s +:+ t) = ascii_string s && ascii_string t.
Proof. unfold ascii_string. rewrite bytes_of_string_app. apply forallb_app. Qed.

Lemma b64_char_ascii alpha v : ascii_bytes alpha = true → byte_val (b64_char alpha v) <? 128 = true.
Proof.
  intros Ha. unfold b64_char. destruct (nth_in_or_default (Z.to_nat v) alpha x00) as [Hin|E]; [|by rewrite E].
  unfold ascii_bytes in Ha. rewrite forallb_forall in Ha. by apply Ha.
Qed.

Lemma b64_ascii alpha pad l : ascii_bytes alpha = true → ascii_bytes (b64_encode alpha pad l) = true.
Proof.
  intros Ha. induction l as [| |a b|a b c l IH] using list_ind3; cbn [b64_encode ascii_bytes forallb];
    rewrite ?b64_char_ascii by done; cbn [andb]; [done|by destruct pad..|exact IH].
Qed.

Lemma encodeBase64_ascii l : ascii_string (encodeBase64 l) = true.
Proof. unfold encodeBase64, EncodeToString. rewrite ascii_of_bytes. by apply b64_ascii. Qed.
Lemma encodeBindingID_ascii l : ascii_string (encodeBindingID l) = true.
Proof. unfold encodeBindingID, EncodeToString. rewrite ascii_of_bytes. by apply b64_ascii. Qed.

Lemma digit_ascii z : byte_val (byte_of (48 + z `mod` 10)) <? 128 = true.
Proof.
  pose proof (Z.mod_pos_bound z 10 ltac:(lia)) as Hm. destruct (digit_char (z `mod` 10) Hm) as [_ Hd].
  unfold is_digit in Hd. apply andb_prop in Hd as [_ Hd]. apply Z.leb_le in Hd. apply Z.ltb_lt. lia.
Qed.

Lemma digits_ascii f z acc : ascii_bytes acc = true → ascii_bytes (digits_fuel f z acc) = true.
Proof.
  revert z acc. induction f as [|f IH]; intros z acc Ha; cbn [digits_fuel]; [done|].
  assert (ascii_bytes (byte_of (48 + z `mod` 10) :: acc) = true) by (cbn; by rewrite digit_ascii).
  case_match; [done|]. by apply IH.
Qed.

Lemma FormatInt_ascii z : ascii_string (FormatInt z) = true.
Proof.
  unfold FormatInt. rewrite ascii_of_bytes. unfold FormatInt_bytes. case_match; [|by apply digits_ascii].
  cbn [ascii_bytes forallb]. by apply digits_ascii.
Qed.

Lemma FormatKDFParams_ascii p : ascii_string (FormatKDFParams p) = true.
Proof. unfold FormatKDFParams. repeat case_decide; rewrite ?ascii_app, ?FormatInt_ascii; done. Qed.

Lemma hex_digit_ascii v : 0 ≤ v < 16 → byte_val (hex_digit v) <? 128 = true.
Proof.
  intros Hv. assert (Hall : forallb (λ v, byte_val (hex_digit v) <? 128) (seqZ 0 16) = true) by (vm_compute; reflexivity).
  rewrite forallb_forall in Hall. apply Hall, list_elem_of_In, elem_of_seqZ. lia.
Qed.

Lemma hex_ascii l : ascii_string (hex_encode l) = true.
Proof.
  unfold hex_encode, hex_bytes. rewrite ascii_of_bytes. induction l as [|b l IH]; [done|]. cbn [mbind list_bind ascii_bytes forallb app].
  pose proof (byte_val_range b) as Hb. rewrite !hex_digit_ascii; [exact IH|..].
  - apply Z.mod_pos_bound. lia.
  - split; [apply Z.div_pos; lia|]. apply Z.div_lt_upper_bound; lia.
Qed.
#[export] Hint Resolve encodeBase64_ascii encodeBindingID_ascii FormatInt_ascii FormatKDFParams_ascii hex_ascii : ascii.

(** ** Extensions by gateway fields *)

Inductive ext (m : gomap) : gomap → Prop :=
| ext_refl : ext m m
| ext_set m' k v : ext m m' → is_canonical k = true → ascii_string v = true → ext m (map_set m' k v).

Lemma ext_merge m m' l :
  forallb (λ kv, is_canonical kv.1 && ascii_string kv.2) l = true → ext m m' → ext m (map_merge m' l).
Proof.
  unfold map_merge. revert m'. induction l as [|[k v] l IH]; intros m' Hl Hm; [done|]. cbn in *.
  apply andb_prop in Hl as [[Hk Hv]%andb_prop Hl]. apply IH; [done|]. by constructor.
Qed.

Lemma ext_trans m1 m2 m3 : ext m1 m2 → ext m2 m3 → ext m1 m3.
Proof. induction 2; [done|by constructor]. Qed.

Lemma canonical_name s : s ∈ metaKeyRegistry → is_canonical (Canonical s) = true.
Proof.
  intros Hs. unfold is_canonical. apply existsb_exists. exists s. split; [by apply list_elem_of_In|].
  by apply bool_decide_eq_true.
Qed.

Lemma ext_protected m m' (f : gomap → MetaKeySpec → gomap) l :
  (∀ s, s ∈ l → s ∈ metaKeyRegistry) →
  (∀ m s, s ∈ l → f m s = m ∨ ∃ v, f m s = map_set m (Canonical s) v ∧ ascii_string v = true) →
  ext m m' → ext m (foldl f m' l).
Proof.
  intros Hl Hf. revert m'. induction l as [|s l IH]; intros m' Hm; [done|]. cbn.
  apply IH; [intros; apply Hl; by right|intros; apply Hf; by right|].
  destruct (Hf m' s ltac:(by left)) as [->|(v & -> & Hv)]; [done|]. constructor; [done| |done].
  apply canonical_name, Hl. by left.
Qed.

(** What an extension keeps. *)
Record good (m : gomap) : Prop := {
  good_clean : clean m; good_ascii : ascii_map m; good_ocl : metadataValue m originalContentLength = None }.

Lemma ascii_map_set m k v : ascii_map m → ascii_string k = true → ascii_string v = true → ascii_map (map_set m k v).
Proof.
  unfold ascii_map. intros Hm Hk Hv. induction Hm as [|[k' v'] m Hkv Hm IH]; cbn.
  - constructor; [cbn; by rewrite Hk, Hv|done].
  - case_decide; constructor; try done. cbn. by rewrite Hk, Hv.
Qed.

Lemma canonical_checked :
  forallb (λ s, ascii_string (Canonical s) && negb (EqualFold (Canonical s) originalContentLength)) metaKeyRegistry = true.
Proof. vm_compute. reflexivity. Qed.

Lemma canonical_ascii k : is_canonical k = true → ascii_string k = true ∧ ToLower k ≠ ToLower originalContentLength.
Proof.
  intros (s & Hs%list_elem_of_In & <-)%is_canonical_spec. pose proof canonical_checked as Hall. rewrite forallb_forall in Hall.
  apply Hall in Hs. apply andb_prop in Hs as [Ha Hn]. split; [done|]. intros E%EqualFold_spec. by rewrite E in Hn.
Qed.

Lemma ext_good m m' : good m → ext m m' → good m' ∧ ∀ n, foreign n = true → metadataValue m' n = metadataValue m n.
Proof.
  intros Hg. induction 1 as [|m' k v Hm [IH1 IH2] Hk Hv]; [done|]. destruct (canonical_ascii k Hk) as [Ha Ho]. split.
  - split; [by apply clean_set_name, IH1|apply ascii_map_set; [apply IH1|done..]|].
    rewrite metadataValue_set_ne by done. apply IH1.
  - intros n Hn. rewrite metadataValue_set_ne; [by apply IH2|]. destruct (is_canonical_spec k Hk) as (s & Hs & <-).
    by apply foreign_not_canonical.
Qed.

Lemma foreign_fold k k' : ToLower k = ToLower k' → foreign k = foreign k'.
Proof. intros E. unfold foreign. by rewrite (IsGatewayReservedKey_fold _ _ E). Qed.

Lemma caller_good md : fold_distinct md → ascii_map md → good (callerMetadata md).
Proof.
  intros Hd Ha. split; [by apply clean_caller|by apply ascii_map_filter|].
  unfold callerMetadata. rewrite (metadataValue_filter foreign) by (intros; by apply foreign_fold). done.
Qed.

Lemma caller_foreign md n : foreign n = true → metadataValue (callerMetadata md) n = metadataValue md n.
Proof.
  intros Hn. unfold callerMetadata. rewrite (metadataValue_filter foreign) by (intros; by apply foreign_fold).
  by rewrite Hn.
Qed.

Lemma caller_gateway md k : is_canonical k = true → map_lookup (callerMetadata md) k = None.
Proof.
  intros (s & Hs & <-)%is_canonical_spec. unfold callerMetadata.
  rewrite (map_lookup_filter (λ k, negb (IsGatewayReservedKey k))). unfold IsGatewayReservedKey.
  destruct (registry_fact s Hs) as [-> _]. by rewrite orb_true_r.
Qed.

(** ** The engine's maps are extensions *)

Definition unprotected (k : string) : bool := bool_decide (k ∉ Canonical <$> ProtectedStandardKeys).

Definition envelope_ascii (envelope : option KeyEnvelope) : Prop :=
  match envelope with Some env => ascii_string (KeyID env) && ascii_string (env_Provider env) = true | None => True end.

Lemma ascii_mget m k : ascii_map m → ascii_string (mget m k) = true.
Proof.
  unfold ascii_map, mget. induction 1 as [|[k' v] m Hkv Hm IH]; [done|]. cbn. case_decide; [|done].
  by apply andb_prop in Hkv as [_ ?].
Qed.

Lemma ascii_fold m k : ascii_map m → ascii_string (metadataValueFold m k) = true.
Proof.
  unfold metadataValueFold. intros Ha. destruct (metadataValue m k) as [v|] eqn:E; [|done].
  apply metadataValue_Some in E as (k' & Hin & _). unfold ascii_map in Ha. rewrite Forall_forall in Ha.
  apply Ha in Hin. by apply andb_prop in Hin as [_ ?].
Qed.

Lemma Split_ascii md n : ascii_map md → ascii_string (Standard_Get (objectmeta_Split md).1 n) = true.
Proof.
  unfold objectmeta_Split. generalize ([] : gomap) as r. assert (Hz : ∀ n, ascii_string (Standard_Get zeroStandard n) = true).
  { intros n'. unfold Standard_Get. by repeat case_decide. }
  revert Hz. generalize zeroStandard as s. induction md as [|[k v] md IH]; intros s Hs r Ha; [done|].
  unfold ascii_map in Ha. apply Forall_cons in Ha as [[_ Hv]%andb_prop Ha]. cbn [foldl fst snd].
  destruct (IsStandard k) eqn:Ek; apply IH; try done. intros n'. rewrite Get_Set by done. by case_decide.
Qed.

Lemma ext_stampProtected m m' md : ascii_map md → ext m m' → ext m (stampProtectedStandard m' md).
Proof.
  intros Ha. apply ext_protected; [apply protected_in|]. intros m1 s Hs. cbn beta zeta. case_decide; [right|by left].
  eexists. split; [done|]. by apply Split_ascii.
Qed.

Lemma ext_stampRegistry m m' md : ascii_map md → ext m m' → ext m (stampRegistryNames m' md).
Proof.
  intros Ha. apply ext_protected; [apply protected_in|]. intros m1 s Hs. cbn beta zeta. case_decide; [right|by left].
  eexists. split; [done|]. by apply ascii_fold.
Qed.

Lemma ext_setIf m m' b k v : is_canonical k = true → ascii_string v = true → ext m m' → ext m (setIf b m' k v).
Proof. intros. destruct b; [by constructor|done]. Qed.

Lemma ext_stampEnvelope m m' envelope md :
  envelope_ascii envelope → ascii_map md → ext m m' → ext m (stampEnvelope m' envelope md).
Proof.
  intros He Ha Hm. destruct envelope as [env|]; cbn [stampEnvelope].
  - apply andb_prop in He as [H1 H2]. constructor; [|done|auto with ascii].
    repeat case_decide; repeat (constructor; [|done|by auto with ascii]); done.
  - case_decide; [|done]. constructor; [done..|]. by apply ascii_mget.
Qed.

(** A constant name that is none of the names assigned. *)
Lemma mget_protected_other f m k :
  unprotected k = true → (∀ m s, f m s = m ∨ ∃ v, f m s = map_set m (Canonical s) v) →
  mget (foldl f m ProtectedStandardKeys) k = mget m k.
Proof. intros Hk%bool_decide_eq_true Hf. unfold mget. by rewrite lookup_foldl_other. Qed.

Lemma mget_stampProtected m md k : unprotected k = true → mget (stampProtectedStandard m md) k = mget m k.
Proof. intros Hk. apply mget_protected_other; [done|]. intros m1 s. cbn beta zeta. case_decide; eauto. Qed.
Lemma mget_stampRegistry m md k : unprotected k = true → mget (stampRegistryNames m md) k = mget m k.
Proof. intros Hk. apply mget_protected_other; [done|]. intros m1 s. cbn beta zeta. case_decide; eauto. Qed.
Lemma mget_setIf b m k v k' : mget (setIf b m k v) k' = if b && bool_decide (k = k') then v else mget m k'.
Proof. destruct b; [|done]. cbn [setIf andb]. rewrite mget_set. by destruct (decide (k = k')); [rewrite bool_decide_eq_true_2|rewrite bool_decide_eq_false_2]. Qed.
Lemma mget_caller md k : is_canonical k = true → mget (callerMetadata md) k = "".
Proof. intros Hk. unfold mget. by rewrite caller_gateway. Qed.

Definition envelopeNames : list string := [MetaKeyVersion; MetaKMSKeyID; MetaKMSProvider; MetaWrappedKeyCiphertext].
Lemma mget_stampEnvelope m envelope md k : k ∉ envelopeNames → mget (stampEnvelope m envelope md) k = mget m k.
Proof.
  intros Hk. assert (Hn : MetaKeyVersion ≠ k ∧ MetaKMSKeyID ≠ k ∧ MetaKMSProvider ≠ k ∧ MetaWrappedKeyCiphertext ≠ k)
    by (split_and!; intros <-; apply Hk; apply (bool_decide_unpack _); reflexivity).
  destruct Hn as (? & ? & ? & ?). unfold stampEnvelope. repeat case_match; rewrite ?mget_set, ?decide_False by done; done.
Qed.

Lemma mget_envelope m env md :
  mget m MetaKMSKeyID = "" → mget m MetaKMSProvider = "" →
  let m' := stampEnvelope m (Some env) md in
  mget m' MetaKeyVersion = FormatInt (KeyVersion env) ∧ mget m' MetaKMSKeyID = KeyID env ∧
  mget m' MetaKMSProvider = env_Provider env ∧ mget m' MetaWrappedKeyCiphertext = encodeBase64 (env_Ciphertext env).
Proof.
  intros H1 H2 m'. unfold m', stampEnvelope.
  destruct (decide (KeyID env ≠ "")) as [|E1%dec_stable]; destruct (decide (env_Provider env ≠ "")) as [|E2%dec_stable];
    rewrite ?mget_set; cbn; rewrite ?H1, ?H2, ?E1, ?E2; done.
Qed.

(** Compute a field of a map built from constant names. *)
Ltac field :=
  repeat first
    [ rewrite mget_stampEnvelope by (apply (bool_decide_unpack _); reflexivity)
    | rewrite mget_stampRegistry by (vm_compute; reflexivity)
    | rewrite mget_stampProtected by (vm_compute; reflexivity)
    | rewrite mget_setIf, (bool_decide_eq_false_2 (_ = _)) by discriminate; rewrite ?andb_false_r
    | rewrite mget_set; first [rewrite decide_True by reflexivity|rewrite decide_False by discriminate]
    | rewrite mget_caller by (vm_compute; reflexivity) ].

Section maps.
Context `{Ciphers, HKDF, SHA256, MD5, PasswordKDF, BuildTags, ManifestJSON, MapJSON}.

Lemma buffered_ext e md pt bid salt nonce envelope :
  ascii_map md → envelope_ascii envelope → ascii_string (en_preferredAlgorithm e) = true →
  ext (callerMetadata md) (bufferedMetadata e md pt bid salt nonce envelope).
Proof using.
  intros Ha He Hal. unfold bufferedMetadata. apply ext_stampEnvelope; [done..|]. apply ext_stampRegistry; [done|].
  apply ext_stampProtected; [done..|].
  assert (Hm : ext (callerMetadata md) (map_merge (callerMetadata md)
    [(MetaEncrypted, "true"); (MetaObjectFormatVersion, "buffered-v2"); (MetaObjectBindingID, encodeBindingID bid);
     (MetaAlgorithm, en_preferredAlgorithm e); (MetaKeySalt, encodeBase64 salt); (MetaIV, encodeBase64 nonce);
     (MetaOriginalSize, FormatInt (len pt)); (MetaOriginalETag, computeETag pt);
     (MetaKDFParams, FormatKDFParams (defaultKDFParams e))])).
  { apply ext_merge; [|constructor]. cbn [forallb fst snd]. unfold computeETag.
    rewrite Hal, !encodeBase64_ascii, encodeBindingID_ascii, FormatInt_ascii, hex_ascii, FormatKDFParams_ascii. vm_compute. reflexivity. }
  case_decide; [|exact Hm]. constructor; [exact Hm|vm_compute; reflexivity|by apply ascii_mget].
Qed.

Lemma buffered_fields e md pt bid salt nonce envelope :
  let m := bufferedMetadata e md pt bid salt nonce envelope in
  Forall (λ kv, mget m kv.1 = kv.2)
    [(MetaEncrypted, "true"); (MetaObjectFormatVersion, "buffered-v2"); (MetaObjectBindingID, encodeBindingID bid);
     (MetaAlgorithm, en_preferredAlgorithm e); (MetaKeySalt, encodeBase64 salt); (MetaIV, encodeBase64 nonce);
     (MetaOriginalSize, FormatInt (len pt)); (MetaOriginalETag, computeETag pt);
     (MetaKDFParams, FormatKDFParams (defaultKDFParams e)); (MetaFallbackMode, ""); (MetaFallbackVersion, "");
     (MetaChunkedFormat, "")].
Proof using.
  intros m. unfold m, bufferedMetadata, map_merge. cbn [foldl fst snd].
  repeat (apply Forall_cons_2; [cbn [fst snd]|]); [..|apply Forall_nil_2];
    (case_decide; field; reflexivity).
Qed.

(** Names that only fallback objects have are absent. *)
Lemma lookup_stampEnvelope m envelope md k : k ∉ envelopeNames → map_lookup (stampEnvelope m envelope md) k = map_lookup m k.
Proof using.
  intros Hk. assert (Hn : MetaKeyVersion ≠ k ∧ MetaKMSKeyID ≠ k ∧ MetaKMSProvider ≠ k ∧ MetaWrappedKeyCiphertext ≠ k)
    by (split_and!; intros <-; apply Hk; apply (bool_decide_unpack _); reflexivity).
  destruct Hn as (? & ? & ? & ?). unfold stampEnvelope. repeat case_match; rewrite ?map_lookup_set, ?decide_False by done; done.
Qed.

Lemma buffered_absent e md pt bid salt nonce envelope k :
  k ∈ [MetaFallbackMode; MetaFallbackVersion] → map_lookup (bufferedMetadata e md pt bid salt nonce envelope) k = None.
Proof using.
  intros Hk. assert (Hu : unprotected k = true ∧ is_canonical k = true ∧ k ∉ envelopeNames)
    by (repeat (apply elem_of_cons in Hk as [->|Hk]); [..|by apply elem_of_nil in Hk];
        (split_and!; [vm_compute; reflexivity..|apply (bool_decide_unpack _); reflexivity])).
  destruct Hu as (Hu%bool_decide_eq_true & Hc & He). unfold bufferedMetadata. rewrite lookup_stampEnvelope by done.
  unfold stampRegistryNames, stampProtectedStandard.
  rewrite !lookup_foldl_other by (done || intros m1 s; cbn beta zeta; case_decide; eauto).
  assert (Hn : ∀ m k' v, k' ∉ [MetaFallbackMode; MetaFallbackVersion] → map_lookup (map_set m k' v) k = map_lookup m k)
    by (intros m k' v Hk'; rewrite map_lookup_set, decide_False; [done|by intros ->]).
  unfold map_merge. cbn [foldl fst snd]. case_decide; rewrite !Hn by (apply (bool_decide_unpack _); reflexivity); by apply caller_gateway.
Qed.

Lemma buffered_envelope e md pt bid salt nonce env :
  let m := bufferedMetadata e md pt bid salt nonce (Some env) in
  mget m MetaKeyVersion = FormatInt (KeyVersion env) ∧ mget m MetaKMSKeyID = KeyID env ∧
  mget m MetaKMSProvider = env_Provider env ∧ mget m MetaWrappedKeyCiphertext = encodeBase64 (env_Ciphertext env).
Proof using.
  unfold bufferedMetadata, map_merge. cbn [foldl fst snd]. apply mget_envelope; case_decide; field; reflexivity.
Qed.

(** Assigning the caller's entries a second time changes nothing. *)
Lemma map_set_id m k v : map_lookup m k = Some v → map_set m k v = m.
Proof using.
  induction m as [|[k' v'] m IH]; cbn; [done|]. case_decide as E; intros Hl; [by simplify_eq|]. by rewrite IH.
Qed.

Lemma ext_lookup m m' k : ext m m' → is_canonical k = false → map_lookup m' k = map_lookup m k.
Proof using.
  intros He Hk. induction He as [|m' k' v He IH Hk' Hv]; [done|]. rewrite map_lookup_set, decide_False; [done|].
  intros ->. congruence.
Qed.

Lemma wf_lookup m k v : wf_map m → (k, v) ∈ m → map_lookup m k = Some v.
Proof using.
  unfold wf_map. induction m as [|[k' v'] m IH]; cbn; [by intros _ ?%elem_of_nil|]. intros [Hn Hd]%NoDup_cons Hin.
  apply elem_of_cons in Hin as [[= -> ->]|Hin]; [by rewrite decide_True|]. rewrite decide_False; [by apply IH|].
  intros ->. apply Hn. by apply (list_elem_of_fmap_2 fst) in Hin.
Qed.

Lemma merge_caller_id md m : fold_distinct md → ext (callerMetadata md) m → map_merge m (callerMetadata md) = m.
Proof using.
  intros Hd He. assert (Hl : ∀ kv, kv ∈ callerMetadata md → map_lookup m kv.1 = Some kv.2).
  { intros [k v] Hin. cbn. rewrite (ext_lookup (callerMetadata md)); [|done|].
    - apply wf_lookup; [|done]. apply fold_distinct_wf, clean_caller, Hd.
    - apply list_elem_of_filter in Hin as [Hf _]. cbn in Hf. destruct (is_canonical k) eqn:Hk; [|done].
      apply is_canonical_spec in Hk as (s & Hs & <-). unfold IsGatewayReservedKey in Hf.
      destruct (registry_fact s Hs) as [Hl _]. rewrite Hl, orb_true_r in Hf. done. }
  clear He. unfold map_merge. induction (callerMetadata md) as [|kv l IH]; [done|]. cbn [foldl].
  rewrite map_set_id by (apply Hl; by left). apply IH. intros; apply Hl; by right.
Qed.

(** The caller's map, possibly with the key version the engine puts there. *)
Definition same_caller (md md' : gomap) : Prop := md' = md ∨ ∃ z, md' = map_set md MetaKeyVersion (FormatInt z).

Lemma same_caller_eq md md' : same_caller md md' → callerMetadata md' = callerMetadata md.
Proof using.
  intros [->|[v ->]]; [done|]. unfold callerMetadata. induction md as [|[k' v'] md IH]; [reflexivity|]. cbn [map_set].
  destruct (decide (k' = MetaKeyVersion)) as [->|Hne]; rewrite !filter_cons; cbn [fst].
  - reflexivity.
  - case_decide; [by rewrite IH|done].
Qed.

Lemma same_caller_ascii md md' : same_caller md md' → ascii_map md → ascii_map md'.
Proof using.
  intros [->|[z ->]] Ha; [done|]. apply ascii_map_set; [done|vm_compute; reflexivity|apply FormatInt_ascii].
Qed.

Lemma markers_ext e md bid :
  fold_distinct md → ascii_map md → ascii_string (en_preferredAlgorithm e) = true →
  ext (callerMetadata md) (chunkedMarkers e md bid).
Proof using.
  intros Hd Ha Hal. unfold chunkedMarkers. apply ext_merge.
  { cbn [forallb fst snd]. rewrite encodeBindingID_ascii, FormatInt_ascii. vm_compute. reflexivity. }
  apply ext_stampRegistry; [done|]. apply ext_stampProtected; [done..|].
  apply ext_setIf; [vm_compute; reflexivity|by apply ascii_mget|]. apply ext_setIf; [vm_compute; reflexivity|by apply ascii_mget|].
  apply ext_setIf; [vm_compute; reflexivity|apply FormatInt_ascii|]. apply ext_merge; [|constructor].
  cbn [forallb fst snd]. rewrite Hal. vm_compute. reflexivity.
Qed.

Lemma chunked_ext e md md' bid salt iv man envelope :
  fold_distinct md → ascii_map md → envelope_ascii envelope → ascii_string (en_preferredAlgorithm e) = true →
  ascii_string man = true → same_caller md md' → ascii_map md' →
  ext (callerMetadata md) (chunkedMetadata e md md' bid salt iv man envelope).
Proof using.
  intros Hd Ha He Hal Hman Hsc Ha'. unfold chunkedMetadata. apply ext_stampEnvelope; [done..|].
  apply ext_setIf; [vm_compute; reflexivity|apply FormatInt_ascii|]. apply ext_setIf; [vm_compute; reflexivity|by apply ascii_mget|].
  apply ext_merge.
  { cbn [forallb fst snd]. rewrite Hal, Hman, !encodeBase64_ascii, FormatInt_ascii, FormatKDFParams_ascii. vm_compute. reflexivity. }
  pose proof (markers_ext e md bid Hd Ha Hal) as Hm. rewrite (same_caller_eq md md' Hsc), merge_caller_id by done. exact Hm.
Qed.

Lemma chunked_fields e md md' bid salt iv man envelope :
  fold_distinct md → ascii_map md → ascii_string (en_preferredAlgorithm e) = true → same_caller md md' →
  let m := chunkedMetadata e md md' bid salt iv man envelope in
  Forall (λ kv, mget m kv.1 = kv.2)
    [(MetaEncrypted, "true"); (MetaChunkedFormat, "true"); (MetaObjectFormatVersion, "chunked-v2");
     (MetaObjectBindingID, encodeBindingID bid); (MetaAlgorithm, en_preferredAlgorithm e);
     (MetaKeySalt, encodeBase64 salt); (MetaIV, encodeBase64 iv); (MetaManifest, man);
     (MetaKDFParams, FormatKDFParams (defaultKDFParams e)); (MetaChunkSize, FormatInt (en_chunkSize e)); (MetaFallbackMode, ""); (MetaFallbackVersion, "")] ∧
  (∀ env, envelope = Some env →
    mget m MetaKeyVersion = FormatInt (KeyVersion env) ∧ mget m MetaKMSKeyID = KeyID env ∧
    mget m MetaKMSProvider = env_Provider env ∧ mget m MetaWrappedKeyCiphertext = encodeBase64 (env_Ciphertext env)).
Proof using.
  intros Hd Ha Hal Hsc m. unfold m, chunkedMetadata. rewrite (same_caller_eq md md' Hsc), merge_caller_id by (done || by apply markers_ext).
  unfold chunkedMarkers, map_merge. cbn [foldl fst snd]. split.
  - repeat (apply Forall_cons_2; [cbn [fst snd]|]); [..|apply Forall_nil_2]; (field; reflexivity).
  - intros env ->. apply mget_envelope; field; reflexivity.
Qed.

Lemma lookup_setIf b m k v k' : k ≠ k' → map_lookup (setIf b m k v) k' = map_lookup m k'.
Proof using. intros Hk. destruct b; [|done]. cbn [setIf]. by rewrite map_lookup_set, decide_False. Qed.

(** Gateway fields that a chunked write never sets. *)
Definition unsetNames : list string :=
  [MetaFallbackMode; MetaFallbackVersion; MetaEncryptedMetadata; MetaChunkCount; MetaMPUEncrypted; MetaFallbackPointer].

Lemma chunked_absent e md md' bid salt iv man envelope k :
  fold_distinct md → ascii_map md → ascii_string (en_preferredAlgorithm e) = true → same_caller md md' →
  k ∈ unsetNames → map_lookup (chunkedMetadata e md md' bid salt iv man envelope) k = None.
Proof using.
  intros Hd Ha Hal Hsc Hk. assert (Hu : unprotected k = true ∧ is_canonical k = true ∧ k ∉ envelopeNames)
    by (unfold unsetNames in Hk; repeat (apply elem_of_cons in Hk as [->|Hk]); [..|by apply elem_of_nil in Hk];
        (split_and!; [vm_compute; reflexivity..|apply (bool_decide_unpack _); reflexivity])).
  destruct Hu as (Hu%bool_decide_eq_true & Hc & He). unfold chunkedMetadata. rewrite lookup_stampEnvelope by done.
  rewrite (same_caller_eq md md' Hsc), merge_caller_id by (done || by apply markers_ext).
  assert (Hn : ∀ k', bool_decide (k' ∉ unsetNames) = true → k' ≠ k)
    by (intros k' Hk'%bool_decide_eq_true ->; done).
  assert (Hs : ∀ m k' v, bool_decide (k' ∉ unsetNames) = true → map_lookup (map_set m k' v) k = map_lookup m k)
    by (intros m k' v Hk'; rewrite map_lookup_set, decide_False; [done|by apply Hn]).
  unfold chunkedMarkers, map_merge. cbn [foldl fst snd]. rewrite !lookup_setIf by (apply Hn; reflexivity).
  rewrite !Hs by reflexivity. unfold stampRegistryNames, stampProtectedStandard.
  rewrite !lookup_foldl_other by (done || intros m1 s; cbn beta zeta; case_decide; eauto).
  rewrite !lookup_setIf by (apply Hn; reflexivity). rewrite !Hs by reflexivity. by apply caller_gateway.
Qed.
End maps.
