(* ===== verification/EngineCorrect.v ===== *)
(** * Reading back what the engine wrote

    The pieces of the round trip: the data key of a stored object is found
    again, and each of the four stored forms (buffered, buffered with the
    metadata in the body, chunked, chunked with the metadata in front) is
    decrypted to the plaintext. *)
From S2P Require Import Prelude GoStd GoIO Primitives ObjectAAD ChunkLayout ChunkRecord ChunkedStream ChunkedCorrect ChunkedTheorems.
From S2P Require Import KeyManager Rotation Metadata ObjectFormat ObjectMeta Kdf PasswordKeyManager.
From S2P Require Import Engine EngineRead EngineMeta EngineSeal EngineFields.
Local Open Scope Z_scope.
#[local] Arguments ToLower : simpl never.
#[local] Arguments EqualFold : simpl never.
#[local] Arguments FormatInt : simpl never.
#[local] Arguments bytes_of_string : simpl never.
#[local] Opaque metaKeyRegistry LookupMetaKey.

(** ** What an engine asks of a key manager

    An envelope is stored in headers: its fields must survive that, and the
    manager must not need its creation time, which is not stored. [storing]
    describes the configurations of a manager for which this holds. *)

Definition storedCopy (env : KeyEnvelope) : KeyEnvelope :=
  mkEnvelope (KeyID env) (KeyVersion env) (env_Provider env) (env_Ciphertext env) 0.

Class StorableEnvelopes (K : Type) `{KeyManagerSpec K} := {
  storing : K → Prop;
  wrap_storable : ∀ dek md k w env k' w', length dek = 32%nat → km_inv k → storing k → WrapKey dek md k w = (Ok env, k', w') →
    0 ≤ KeyVersion env ≤ MaxInt64 ∧ env_Ciphertext env ≠ [] ∧ envelope_ascii (Some env);
  holds_storedCopy : ∀ k env p, km_holds k env p → km_holds k (storedCopy env) p }.

(** Buffered objects need more: the envelope names its key and provider, has
    a positive version, and is between 32 and 1024 bytes long. *)
Definition named (env : KeyEnvelope) : Prop :=
  KeyID env ≠ "" ∧ env_Provider env ≠ "" ∧ 0 < KeyVersion env ∧ 32 ≤ len (env_Ciphertext env) ≤ 1024.
Definition names_keys (K : Type) `{StorableEnvelopes K} : Prop :=
  ∀ dek md k w env k' w', length dek = 32%nat → km_inv k → storing k → WrapKey dek md k w = (Ok env, k', w') → named env.

Section correct.
Context `{CiphersLaws, HKDFLaws, SHA256, MD5, PasswordKDFLaws, BuildTags, ManifestJSONLaws, MapJSONLaws}.
Context `{StorableEnvelopes K}.

(** ** Data keys *)

Definition state_ok (st : EngineState K) : Prop := match es_km st with Some k => km_inv k ∧ storing k | None => True end.

(** The state can find the key again: through the key manager if the key was
    wrapped, from the password otherwise. *)
Definition holds_key (e : engine) (st : EngineState K) (salt : list byte) (envelope : option KeyEnvelope) (key : list byte) : Prop :=
  match es_km st, envelope with
  | Some k, Some env => km_inv k ∧ km_holds k env key
  | None, None => deriveKey e salt = Ok key
  | _, _ => False
  end.

Definition storable (envelope : option KeyEnvelope) : Prop :=
  match envelope with
  | Some env => 0 ≤ KeyVersion env ≤ MaxInt64 ∧ env_Ciphertext env ≠ [] ∧ envelope_ascii (Some env) ∧ (names_keys K → named env) ∧
      ∃ dek md (k : K) w k' w', WrapKey dek md k w = (Ok env, k', w')
  | None => True
  end.

Lemma newDataKey_run e salt md st key envelope md' st' :
  state_ok st → newDataKey e salt 32 md st = (Ok (key, envelope, md'), st') →
  len key = 32 ∧ holds_key e st' salt envelope key ∧ storable envelope ∧ same_caller md md' ∧ (es_km st' = None → es_km st = None).
Proof using All.
  intros Hst Hr. unfold newDataKey in Hr. step_run Hr as km st1 Hs1. unfold getKeyManager in Hs1. simplify_eq.
  destruct (es_km st1) as [k|] eqn:Hkm.
  - step_run Hr as key0 st2 Hs2. apply wrapM_Ok, wrapM_Ok, randM_run in Hs2 as (Hl & Hk2 & _).
    step_run Hr as env st3 Hs3. apply wrapM_Ok in Hs3. unfold wrapDataKey in Hs3. rewrite Hk2, Hkm in Hs3.
    destruct (WrapKey key0 md k (es_world st2)) as [[r k'] w'] eqn:Hw. injection Hs3 as -> <-. unfold state_ok in Hst. rewrite Hkm in Hst. destruct Hst as [Hst Hsto].
    destruct (Z.eqb_spec (len key0) 32) as [Hlen|]; cbn [negb] in Hr; [|done].
    assert (Hl32 : length key0 = 32%nat) by lia. apply mret_run in Hr as [[= -> <- <-] ->].
    destruct (wrap_spec key md k (es_world st2) (Ok env) k' w' Hl32 Hst Hw) as (Hi & Hh & _).
    destruct (wrap_storable key md k (es_world st2) env k' w' Hl32 Hst Hsto Hw) as (Hv & Hne & Ha). split_and!; [done| | | |done].
    + unfold holds_key. cbn [es_km]. split; [done|]. by apply Hh.
    + split_and!; [apply Hv..|done|done| |by eexists _, _, _, _, _, _].
      intros Hn. exact (Hn key md k (es_world st2) env k' w' Hl32 Hst Hsto Hw).
    + right. by eexists.
  - step_run Hr as key0 st2 Hs2. apply lift_run in Hs2 as [Hd%wrapErr_Ok ->].
    destruct (Z.eqb_spec (len key0) 32) as [Hlen|]; cbn [negb] in Hr; [|done]. apply mret_run in Hr as [[= <- <- <-] ->].
    split_and!; [done| |done|by left|done]. unfold holds_key. by rewrite Hkm.
Qed.

Lemma keySizeFor_32 algorithm : keySizeFor algorithm = 32.
Proof using. unfold keySizeFor. by case_decide. Qed.

(** The parameters are stored in a form that is read back. *)
Lemma deriveKey_stored e salt key :
  deriveKey e salt = Ok key →
  ∃ params, ParseKDFParams (FormatKDFParams (defaultKDFParams e)) = Ok params ∧ deriveKeyWithParams e salt params = Ok key.
Proof using.
  unfold deriveKey. intros Hd. assert (Hd' : deriveKeyWithParams e salt (defaultKDFParams e) = Ok key)
    by (unfold defaultKDFParams; by case_decide). exists (defaultKDFParams e). split; [|done].
  apply FormatKDFParams_parse. unfold deriveKeyWithParams in Hd'. case_match; [done|].
  destruct (ValidateKDFParams (defaultKDFParams e) (en_kdfLimits e)) eqn:Hv; [done|].
  unfold defaultKDFParams, argon2Params, DefaultKDFParams in *. destruct (decide (en_kdfAlgorithm e = KDFAlgArgon2id)).
  - by apply ValidateKDFParams_argon2 in Hv as [_ ?].
  - by apply ValidateKDFParams_pbkdf2 in Hv as [_ ?].
Qed.

Lemma decode_nonempty l : l ≠ [] → encodeBase64 l ≠ "".
Proof using. intros Hl E. by apply encodeBase64_empty in E. Qed.

Lemma parseKeyVersion_FormatInt z : 0 ≤ z ≤ MaxInt64 → parseKeyVersion (FormatInt z) = z.
Proof using.
  intros Hz. unfold parseKeyVersion, ParseInt, FormatInt. rewrite bytes_of_string_of_bytes, ParseInt_FormatInt by done.
  case_decide as E; [|done]. apply (f_equal bytes_of_string) in E. rewrite bytes_of_string_of_bytes in E.
  by destruct (FormatInt_digits z Hz) as [_ []].
Qed.

(** The stored fields of a key. *)
Definition key_fields (e : engine) (m : gomap) (envelope : option KeyEnvelope) : Prop :=
  mget m MetaKDFParams = FormatKDFParams (defaultKDFParams e) ∧
  match envelope with
  | Some env => mget m MetaKeyVersion = FormatInt (KeyVersion env) ∧ mget m MetaKMSKeyID = KeyID env ∧
      mget m MetaKMSProvider = env_Provider env ∧ mget m MetaWrappedKeyCiphertext = encodeBase64 (env_Ciphertext env)
  | None => True
  end.

(** A read either succeeds or reports that the key manager could not answer. *)
Definition answers {A} (x : result A * EngineState K) (P : A → Prop) : Prop :=
  (∃ a st', x = (Ok a, st') ∧ P a) ∨
  (∃ msg err st', x = (Err (Wrapf msg err), st') ∧ es_km st' ≠ None ∧ rejects err = false).

Lemma answers_bind {A B} (m : M K A) (f : A → M K B) st P Q :
  answers (m st) P → (∀ a st', P a → answers (f a st') Q) → answers ((m ≫= f) st) Q.
Proof using.
  intros [(a & st' & E & Ha)|(msg & err & st' & E & Hkm & Hr)] Hf; unfold mbind, M_bind; rewrite E; [by apply Hf|].
  right. by eexists _, _, _.
Qed.

Lemma answers_Ok {A} (a : A) (st : EngineState K) (P : A → Prop) : P a → answers (Ok a, st) P.
Proof using. left. by eexists _, _. Qed.

Lemma answers_lift {A B} (r : result A) a (f : A → M K B) st Q :
  r = Ok a → answers (f a st) Q → answers ((lift r ≫= f) st) Q.
Proof using. by intros ->. Qed.

Lemma unwrap_answers env md k st msg key :
  es_km st = Some k → km_inv k → km_holds k env key →
  answers (wrapM msg (unwrapDataKey (storedCopy env) md) st) (λ key', key' = key).
Proof using All.
  intros Hkm Hi Hh. unfold wrapM, unwrapDataKey. rewrite Hkm.
  destruct (UnwrapKey (Some (storedCopy env)) md k (es_world st)) as [[r k'] w'] eqn:Hu.
  destruct (unwrap_spec _ md k _ r k' w' Hi Hu) as (_ & _ & Hr).
  destruct (Hr (storedCopy env) key eq_refl (holds_storedCopy _ _ _ Hh)) as [->|(err & -> & Hrej)].
  - by apply answers_Ok.
  - right. cbn [wrapErr]. eexists _, _, _. split_and!; [done| |done]. done.
Qed.

Lemma storedEnvelope_copy e m env :
  key_fields e m (Some env) → 0 ≤ KeyVersion env ≤ MaxInt64 →
  storedEnvelope m (env_Ciphertext env) = storedCopy env.
Proof using. intros (_ & Hv & Hid & Hp & _) Hz. unfold storedEnvelope, storedCopy. by rewrite Hv, Hid, Hp, parseKeyVersion_FormatInt. Qed.

Lemma passwordKey_found e m salt key :
  deriveKey e salt = Ok key → len key = 32 → mget m MetaKDFParams = FormatKDFParams (defaultKDFParams e) →
  passwordKey e m salt 32 = Ok key.
Proof using.
  intros Hd Hl Hm. destruct (deriveKey_stored e salt key Hd) as (params & Hp & Hk). unfold passwordKey.
  rewrite Hm, Hp. cbn [wrapErr mbind result_bind]. rewrite Hk. cbn [wrapErr mbind result_bind]. by rewrite Hl.
Qed.

Lemma chunkedKey_found e m st salt envelope key :
  holds_key e st salt envelope key → len key = 32 → storable envelope → key_fields e m envelope →
  answers (chunkedKey e m salt 32 st) (λ key', key' = key).
Proof using All.
  intros Hh Hl Hs Hf. unfold chunkedKey. change ((getKeyManager ≫= ?f) st) with (f (es_km st) st). cbv beta.
  unfold holds_key in Hh. destruct (es_km st) as [k|] eqn:Hkm, envelope as [env|]; try done.
  - destruct Hh as [Hi Hh], Hs as (Hv & Hne & _). pose proof Hf as (_ & _ & _ & _ & Hw).
    rewrite decide_True by (split; [by eexists|rewrite Hw; by apply decode_nonempty]).
    eapply answers_lift; [by rewrite Hw, decodeBase64_encode|]. rewrite (storedEnvelope_copy e m env Hf Hv).
    eapply answers_bind; [by eapply unwrap_answers|]. intros key' st' ->. rewrite Hl. by apply answers_Ok.
  - rewrite decide_False by (intros [[? [=]] _]). rewrite (passwordKey_found e m salt key) by (done || apply Hf). by apply answers_Ok.
Qed.

Lemma bufferedKey_found e m st salt envelope key :
  names_keys K → holds_key e st salt envelope key → len key = 32 → storable envelope → key_fields e m envelope →
  answers (bufferedKey e m salt 32 st) (λ key', key' = key).
Proof using All.
  intros Hn Hh Hl Hs Hf. unfold bufferedKey. change ((getKeyManager ≫= ?f) st) with (f (es_km st) st). cbv beta.
  unfold holds_key in Hh. destruct (es_km st) as [k|] eqn:Hkm, envelope as [env|]; try done.
  - destruct Hh as [Hi Hh], Hs as (Hv & Hne & _ & Hnm & _). pose proof Hf as (_ & _ & Hid & _ & Hw). destruct (Hnm Hn) as (Hid' & _ & _ & Hlen).
    rewrite decide_True by (split; [by eexists|rewrite Hw; by apply decode_nonempty]).
    eapply answers_lift; [by rewrite Hw, decodeBase64_encode|]. rewrite (storedEnvelope_copy e m env Hf Hv). cbn [KeyID storedCopy].
    rewrite decide_False by done. rewrite (proj2 (Z.eqb_neq _ _)) by lia. rewrite !(proj2 (Z.ltb_ge _ _)) by lia. cbn [orb].
    eapply answers_bind; [by eapply unwrap_answers|]. intros key' st' ->. rewrite Hl. by apply answers_Ok.
  - rewrite decide_False by (intros [[? [=]] _]). rewrite (passwordKey_found e m salt key) by (done || apply Hf). by apply answers_Ok.
Qed.

Lemma fallbackBoundKey_found e m st salt envelope key :
  names_keys K → holds_key e st salt envelope key → len key = 32 → storable envelope → key_fields e m envelope →
  answers (fallbackBoundKey e m salt st) (λ key', key' = key).
Proof using All.
  intros Hn Hh Hl Hs Hf. unfold fallbackBoundKey. change ((getKeyManager ≫= ?f) st) with (f (es_km st) st). cbv beta.
  unfold holds_key in Hh. destruct (es_km st) as [k|] eqn:Hkm, envelope as [env|]; try done.
  - destruct Hh as [Hi Hh], Hs as (Hv & Hne & _ & Hnm & _). pose proof Hf as (_ & Hkv & Hid & Hpr & Hw). destruct (Hnm Hn) as (Hid' & Hp' & Hpos & Hlen).
    rewrite decide_False.
    2: { rewrite Hw, Hid, Hpr, Hkv, parseKeyVersion_FormatInt by done. intros [E|[E|[E|E]]]; [by apply decode_nonempty in E|done|done|lia]. }
    eapply answers_lift; [by rewrite Hw, decodeBase64_encode|]. rewrite (proj2 (Z.eqb_neq _ _)) by lia.
    rewrite (storedEnvelope_copy e m env Hf Hv). by eapply unwrap_answers.
  - destruct (deriveKey_stored e salt key Hh) as (params & Hp & Hk). destruct Hf as [Hf _].
    eapply answers_lift; [by rewrite Hf, Hp|]. rewrite Hk. by apply answers_Ok.
Qed.
End correct.
