(* ===== verification/EngineBodies.v ===== *)
(** * The bodies of encrypted objects

    The readers the engine returns, as streams, and the four stored forms:
    each is decrypted to the plaintext when its fields and key are found. *)
From S2P Require Import Prelude GoStd GoIO Primitives ObjectAAD ChunkLayout ChunkRecord ChunkedStream ChunkedCorrect ChunkedTheorems.
From S2P Require Import KeyManager Rotation Metadata ObjectFormat ObjectMeta Kdf PasswordKeyManager.
From S2P Require Import Engine EngineRead EngineMeta EngineSeal EngineFields EngineCorrect.
Local Open Scope Z_scope.
#[local] Arguments ToLower : simpl never.
#[local] Arguments EqualFold : simpl never.
#[local] Arguments FormatInt : simpl never.
#[local] Arguments bytes_of_string : simpl never.
#[local] Arguments Validate : simpl never.
#[local] Opaque metaKeyRegistry LookupMetaKey.

(** ** Streams *)

(** [bytes.Reader]. *)
Definition bytes_read (l : list byte) (n : nat) : list byte * option error * list byte :=
  match l with [] => ([], Some EOF, []) | _ => (take n l, None, drop n l) end.

Lemma bytes_read_law l n :
  (0 < n)%nat → l ≠ [] → ∃ b bs, bytes_read l n = (b :: bs, None, drop n l) ∧ (length (b :: bs) ≤ n)%nat ∧ l = (b :: bs) ++ drop n l.
Proof.
  intros Hn Hl. destruct l as [|b l], n as [|n]; try (done || lia). exists b, (take n l). split; [done|]. cbn.
  rewrite length_take, take_drop. split; [lia|done].
Qed.

Section streams.
Context `{HKDF}.

(** [io.MultiReader] over byte readers and a last reader: an exhausted reader
    is dropped and the next one is read. *)
Fixpoint multi_read (parts : list (list byte)) (r : encReader) (n : nat) : option (list byte * option error * EncOut) :=
  match parts with
  | [] => '(bs, e, r') ← enc_Read r n; Some (bs, e, EncPrefixed [] r')
  | [] :: parts => multi_read parts r n
  | p :: parts => Some (take n p, None, EncPrefixed (drop n p :: parts) r)
  end.

Definition out_read (o : EncOut) (n : nat) : option (list byte * option error * EncOut) :=
  match o with
  | EncBytes l => let '(bs, e, l') := bytes_read l n in Some (bs, e, EncBytes l')
  | EncStream r => '(bs, e, r') ← enc_Read r n; Some (bs, e, EncStream r')
  | EncPrefixed parts r => multi_read parts r n
  end.
Definition out_rem (o : EncOut) (O : list byte) (e : error) : Prop :=
  match o with
  | EncBytes l => O = l ∧ e = EOF
  | EncStream r => sr_rem r O e
  | EncPrefixed parts r => ∃ O', O = concat parts ++ O' ∧ sr_rem r O' e
  end.

#[export] Program Instance out_stream : StreamReader EncOut := {| sr_read := out_read; sr_rem := out_rem |}.
Next Obligation.
  unfold out_read, out_rem. intros [l|r|parts r] O e n Hrem Hn.
  - destruct Hrem as [-> ->]. destruct (decide (l = [])) as [->|Hl]; [exists [], (Some EOF), (EncBytes []); cbn; eauto with lia|].
    destruct (bytes_read_law l n Hn Hl) as (b & bs & -> & Hlen & Heq). eexists _, _, _. split; [done|]. split; [done|].
    left. split_and!; [done..|]. by eexists.
  - destruct (sr_law r O e n Hrem Hn) as (bs & oe & r' & Hr & Hl & Hcase). cbn in Hr. rewrite Hr. cbn.
    eexists _, _, _. split_and!; [done..|]. destruct Hcase as [(-> & ? & O' & -> & ?)|[-> ->]]; [left|by right]. eauto.
  - destruct Hrem as (O' & -> & Hrem). induction parts as [|[|b p] parts IH]; cbn [multi_read concat]; [| |].
    + destruct (sr_law r O' e n Hrem Hn) as (bs & oe & r' & Hr & Hl & Hcase). cbn in Hr. rewrite Hr. cbn.
      eexists _, _, _. split_and!; [done..|]. destruct Hcase as [(-> & ? & O2 & -> & ?)|[-> ->]]; [left|by right].
      split_and!; [done..|]. eexists. split; [done|]. by exists O2.
    + exact IH.
    + exists (take n (b :: p)), None, (EncPrefixed (drop n (b :: p) :: parts) r). split; [done|].
      rewrite length_take. split; [lia|]. left. split_and!; [done|destruct n; [lia|done]|].
      exists (drop n (b :: p) ++ concat parts ++ O'). split; [|exists O'; cbn [concat]; by rewrite (assoc_L (++))].
      rewrite (assoc_L (++)), take_drop. cbn. by rewrite (assoc_L (++)).
Qed.

Definition plain_read (o : DecOut) (n : nat) : option (list byte * option error * DecOut) :=
  match o with
  | DecAsIs s => match src_data s with
                 | [] => Some ([], Some (src_end s), DecAsIs s)
                 | d => Some (take n d, None, DecAsIs (mkSource (drop n d) (src_end s)))
                 end
  | DecBytes l => let '(bs, e, l') := bytes_read l n in Some (bs, e, DecBytes l')
  | DecStream r => '(bs, e, r') ← dec_Read r n; Some (bs, e, DecStream r')
  end.
Definition plain_rem (o : DecOut) (O : list byte) (e : error) : Prop :=
  match o with
  | DecAsIs s => O = src_data s ∧ e = src_end s
  | DecBytes l => O = l ∧ e = EOF
  | DecStream r => sr_rem r O e
  end.

#[export] Program Instance plain_stream : StreamReader DecOut := {| sr_read := plain_read; sr_rem := plain_rem |}.
Next Obligation.
  unfold plain_read, plain_rem. intros [[d x]|l|r] O e n Hrem Hn.
  - destruct Hrem as [-> ->]. cbn [src_data src_end]. destruct (decide (d = [])) as [->|Hd]; [eexists [], _, _; cbn; eauto with lia|].
    destruct (bytes_read_law d n Hn Hd) as (b & bs & E & Hlen & Heq). destruct d as [|b' d]; [done|]. injection E as E.
    eexists _, _, _. split; [done|]. rewrite length_take. split; [lia|]. left. split_and!; [done|destruct n; [lia|done]|].
    eexists. split; [|cbn; eauto]. symmetry. apply take_drop.
  - destruct Hrem as [-> ->]. destruct (decide (l = [])) as [->|Hl]; [exists [], (Some EOF), (DecBytes []); cbn; eauto with lia|].
    destruct (bytes_read_law l n Hn Hl) as (b & bs & -> & Hlen & Heq). eexists _, _, _. split; [done|]. split; [done|].
    left. split_and!; [done..|]. by eexists.
  - destruct (sr_law r O e n Hrem Hn) as (bs & oe & r' & Hr & Hl & Hcase). cbn in Hr. rewrite Hr. cbn.
    eexists _, _, _. split_and!; [done..|]. destruct Hcase as [(-> & ? & O' & -> & ?)|[-> ->]]; [left|by right]. eauto.
Qed.
End streams.

(** ** What the client sees *)

Definition ordinary (n : string) : Prop := ordinaryKey n = true.

Lemma ordinary_foreign n : ordinary n → foreign n = true.
Proof. unfold ordinary, ordinaryKey, foreign. by intros [_ ?]%andb_prop. Qed.

Lemma ordinary_names : forallb (λ k, negb (HasPrefix (ToLower k) "x-amz-meta-"))
  (Names ++ (Header <$> ProtectedStandardKeys) ++ ["Content-Length"; "ETag"]) = true.
Proof. vm_compute. reflexivity. Qed.

Lemma ordinary_ne n k : ordinary n → k ∈ Names ++ (Header <$> ProtectedStandardKeys) ++ ["Content-Length"; "ETag"] → ToLower k ≠ ToLower n.
Proof.
  intros [Hp _]%andb_prop Hk%list_elem_of_In E. pose proof ordinary_names as Hall. rewrite forallb_forall in Hall.
  specialize (Hall k Hk). rewrite E, Hp in Hall. done.
Qed.

Lemma ordinary_not_standard n : ordinary n → IsStandard n = false.
Proof.
  intros Hn. destruct (IsStandard n) eqn:E; [|done]. unfold IsStandard in E. apply existsb_exists in E as (k & Hk & E).
  apply EqualFold_spec in E. destruct (ordinary_ne n k Hn); [|by symmetry]. apply elem_of_app. left. by apply list_elem_of_In.
Qed.

Lemma ordinary_visible n : ordinary n → hiddenFromClient n = false.
Proof.
  intros Hn. pose proof Hn as [_ Hr]%andb_prop. unfold hiddenFromClient.
  destruct (IsGatewayReservedKey n); [done|]. cbn [orb].
  assert (Hl : ∀ k, k ∈ ["Content-Length"; "ETag"] → EqualFold n k = false).
  { intros k Hk. destruct (EqualFold n k) eqn:E; [|done]. apply EqualFold_spec in E. destruct (ordinary_ne n k Hn); [|by symmetry].
    rewrite !elem_of_app. auto. }
  by rewrite !Hl by (rewrite ?elem_of_cons; auto).
Qed.

Lemma hidden_fold k k' : ToLower k = ToLower k' → hiddenFromClient k = hiddenFromClient k'.
Proof. intros E. unfold hiddenFromClient, EqualFold. by rewrite (IsGatewayReservedKey_fold _ _ E), E. Qed.

Lemma view_loop m out n :
  fold_distinct m → ordinary n → (metadataValue m n ≠ None → metadataValue out n = None) →
  metadataValue (foldl (λ out kv, if hiddenFromClient kv.1 then out
    else map_set out (if IsStandard kv.1 then CanonicalHeaderKey kv.1 else kv.1) kv.2) out m) n =
  match metadataValue m n with Some v => Some v | None => metadataValue out n end.
Proof.
  revert out. induction m as [|[k v] m IH]; intros out Hd Hn Hout; [done|]. unfold fold_distinct in Hd. cbn in Hd.
  apply NoDup_cons in Hd as [Hk Hd]. cbn [foldl fst snd metadataValue] in *.
  destruct (EqualFold k n) eqn:E.
  - apply EqualFold_spec in E. rewrite (hidden_fold _ _ E), ordinary_visible, (IsStandard_fold _ _ E), ordinary_not_standard by done.
    specialize (Hout ltac:(done)).
    assert (Hset : metadataValue (map_set out k v) n = Some v).
    { rewrite metadataValue_set, decide_True; [done|done|]. intros k' Hk' E'. exfalso. rewrite metadataValue_None in Hout.
      apply (Hout k' Hk'). congruence. }
    assert (Hm : metadataValue m n = None).
    { apply metadataValue_None. intros k' Hk' E'. apply Hk. rewrite E, <-E'. by apply list_elem_of_fmap_2. }
    rewrite IH, Hm; [done..|by rewrite Hm].
  - assert (Hne : ToLower k ≠ ToLower n) by (intros ?%EqualFold_spec; congruence).
    rewrite IH; [|done..|].
    + destruct (metadataValue m n) eqn:Em; [done|]. destruct (hiddenFromClient k); [done|]. apply metadataValue_set_ne.
      destruct (IsStandard k) eqn:Es; [|done]. apply ordinary_ne; [done|]. apply elem_of_app. left. by apply standard_name.
    + intros Hm. specialize (Hout Hm). destruct (hiddenFromClient k); [done|]. rewrite metadataValue_set_ne; [done|].
      destruct (IsStandard k) eqn:Es; [|done]. apply ordinary_ne; [done|]. apply elem_of_app. left. by apply standard_name.
Qed.

(** Ordinary entries are shown as they are. *)
Lemma view_ordinary m len etag n :
  fold_distinct m → ordinary n → metadataValue (plaintextMetadataView m len etag) n = metadataValue m n.
Proof.
  intros Hd Hn. unfold plaintextMetadataView.
  assert (Hx : ∀ out k v, k ∈ ["Content-Length"; "ETag"] → metadataValue (map_set out k v) n = metadataValue out n).
  { intros out k v Hk. apply metadataValue_set_ne, ordinary_ne; [done|]. rewrite !elem_of_app. auto. }
  assert (Hp : ∀ l out, (∀ s, s ∈ l → s ∈ ProtectedStandardKeys) → metadataValue (foldl (λ out spec,
    let value := protectedValue m spec in if decide (value ≠ "") then map_set out (Header spec) value else out) out l) n = metadataValue out n).
  { intros l. induction l as [|s l IH]; intros out Hl; [done|]. cbn [foldl]. rewrite IH by (intros; apply Hl; by right). cbn zeta.
    case_decide; [|done]. apply metadataValue_set_ne, ordinary_ne; [done|]. rewrite !elem_of_app. right. left.
    apply list_elem_of_fmap_2, Hl. by left. }
  assert (H1 : metadataValue (foldl (λ out kv, if hiddenFromClient kv.1 then out
    else map_set out (if IsStandard kv.1 then CanonicalHeaderKey kv.1 else kv.1) kv.2) [] m) n = metadataValue m n)
    by (rewrite view_loop by done; by destruct (metadataValue m n)).
  set (o1 := foldl _ [] m) in *. rewrite <-H1, <-(Hp ProtectedStandardKeys o1) by done.
  case_decide; [rewrite Hx by (rewrite ?elem_of_cons; auto)|]; case_match; try done; by rewrite Hx by (rewrite ?elem_of_cons; auto).
Qed.

Lemma setIf_ordinary b m k v n :
  ordinary n → k ∈ Names ++ (Header <$> ProtectedStandardKeys) ++ ["Content-Length"; "ETag"] →
  metadataValue (setIf b m k v) n = metadataValue m n.
Proof. intros Hn Hk. destruct b; [|done]. by apply metadataValue_set_ne, ordinary_ne. Qed.

Lemma set_length_ordinary m v n : ordinary n → metadataValue (map_set m "Content-Length" v) n = metadataValue m n.
Proof. intros Hn. apply (setIf_ordinary true); [done|]. rewrite !elem_of_app. right. right. by left. Qed.
Lemma set_etag_ordinary m v n : ordinary n → metadataValue (map_set m "ETag" v) n = metadataValue m n.
Proof. intros Hn. apply (setIf_ordinary true); [done|]. rewrite !elem_of_app. right. right. by right; left. Qed.

Lemma bufferedView_ordinary m gcm c n : fold_distinct m → ordinary n → metadataValue (bufferedView m gcm c) n = metadataValue m n.
Proof.
  intros Hd Hn. unfold bufferedView. repeat case_match; rewrite ?set_etag_ordinary, ?set_length_ordinary by done; by apply view_ordinary.
Qed.

Lemma chunkedView_ordinary `{ManifestJSON} m n : fold_distinct m → ordinary n → metadataValue (chunkedView m) n = metadataValue m n.
Proof.
  intros Hd Hn. assert (Hs : ∀ b v k x, k ∈ ["Content-Type"; "Cache-Control"; "Content-Disposition"] →
    metadataValue (setIf b v k x) n = metadataValue v n).
  { intros b v k x Hk. apply setIf_ordinary; [done|]. apply elem_of_app. left.
    repeat (apply elem_of_cons in Hk as [->|Hk]); [apply (bool_decide_unpack _); reflexivity..|by apply elem_of_nil in Hk]. }
  unfold chunkedView. rewrite (setIf_ordinary _ _ "ETag") by (done || rewrite !elem_of_app; right; right; by right; left).
  repeat case_match; rewrite ?set_length_ordinary by done; rewrite !Hs by (rewrite !elem_of_cons; tauto); by apply view_ordinary.
Qed.

(** ** The metadata in front of a chunked body *)

Lemma merge_keys header prefix k :
  k ∈ (MergeFallbackV2Metadata header prefix).*1 → k ∈ header.*1 ∨ IsGatewayReservedKey k = false.
Proof.
  unfold MergeFallbackV2Metadata. induction prefix as [|[k' v] prefix IH] using rev_ind; [by left|].
  rewrite foldl_app. cbn [foldl]. destruct (foldl _ _ prefix) as [out seen]. cbn [fst snd] in *.
  destruct (negb _ || _ || _) eqn:Ec; [exact IH|]. cbn [fst]. intros [->|?]%map_set_keys; [right|by apply IH].
  by apply orb_false_elim in Ec as [[_ ?]%orb_false_elim _].
Qed.

Lemma merge_ordinary header prefix n :
  fold_distinct header → fold_distinct prefix → ordinary n →
  metadataValue (MergeFallbackV2Metadata header prefix) n =
    match metadataValue header n with Some v => Some v | None => metadataValue prefix n end.
Proof.
  intros Hd Hdp Hn. induction prefix as [|[k v] prefix IH] using rev_ind.
  { cbn. by destruct (metadataValue header n). }
  unfold fold_distinct in Hdp. rewrite !fmap_app in Hdp. apply NoDup_app in Hdp as (Hdp & Hdisj & _).
  specialize (IH Hdp). unfold MergeFallbackV2Metadata in *. destruct (merge_loop header prefix Hd) as (Hs & _).
  rewrite foldl_app. cbn [foldl]. destruct (foldl _ _ prefix) as [out seen]. cbn [fst snd] in *.
  assert (Happ : metadataValue (prefix ++ [(k, v)]) n =
    match metadataValue prefix n with Some v' => Some v' | None => if EqualFold k n then Some v else None end).
  { clear. induction prefix as [|[k1 v1] l IH]; cbn; [done|]. by destruct (EqualFold k1 n). }
  rewrite Happ. destruct (EqualFold k n) eqn:E.
  - apply EqualFold_spec in E. assert (Hpn : metadataValue prefix n = None).
    { apply metadataValue_None. intros k' Hk' E'. apply (Hdisj (ToLower k')); [by apply list_elem_of_fmap_2|].
      cbn. rewrite E', <-E. by left. }
    rewrite Hpn in *. rewrite E. pose proof Hn as [Hp Hr%negb_true_iff]%andb_prop.
    rewrite Hp, (IsGatewayReservedKey_fold _ _ E), Hr. cbn [negb orb]. case_bool_decide as Hin.
    + apply Hs in Hin as (k' & Ek' & Hk')%list_elem_of_fmap. destruct (metadataValue header n); [done|]. exfalso.
      rewrite metadataValue_None in IH. by apply (IH k').
    + cbn [fst]. destruct (metadataValue header n) as [v'|] eqn:Eh.
      * exfalso. apply Hin, Hs. apply metadataValue_Some in IH as (k' & Hk' & <-). apply list_elem_of_fmap_2.
        by apply (list_elem_of_fmap_2 fst) in Hk'.
      * rewrite metadataValue_set, decide_True; [done|done|]. intros k' Hk' E'. rewrite metadataValue_None in IH.
        destruct (IH k' Hk'). congruence.
  - assert (Hne : ToLower k ≠ ToLower n) by (intros ?%EqualFold_spec; congruence).
    transitivity (metadataValue out n); [|by rewrite IH; destruct (metadataValue header n), (metadataValue prefix n)].
    destruct (negb _ || _ || _); [done|]. by apply metadataValue_set_ne.
Qed.

Lemma merge_clean header prefix :
  clean header → clean (MergeFallbackV2Metadata header prefix) ∧
  ∀ k, is_canonical k = true → mget (MergeFallbackV2Metadata header prefix) k = mget header k.
Proof.
  intros [Hd Hc]. destruct (merge_loop header prefix Hd) as (_ & Hdm & Hkeep & _).
  assert (Hcl : clean (MergeFallbackV2Metadata header prefix)).
  { split; [exact Hdm|]. intros k s [Hk|Hk]%merge_keys Hl; [by apply Hc|]. unfold IsGatewayReservedKey in Hk.
    by rewrite Hl, orb_true_r in Hk. }
  split; [done|]. intros k Hk. unfold mget. rewrite (clean_lookup_name _ k Hk Hcl), (clean_lookup_name header k Hk (conj Hd Hc)).
  f_equal. apply Hkeep. right. apply is_canonical_spec in Hk as (s & Hs & <-). unfold IsGatewayReservedKey.
  destruct (registry_fact s Hs) as [-> _]. by rewrite orb_true_r.
Qed.

Lemma controls_checked : forallb (λ n, match LookupMetaKey n with Some s => bool_decide (Canonical s = n) | None => false end) legacyControls = true.
Proof. vm_compute. reflexivity. Qed.

(** The legacy controls taken from the prefix agree with the headers where the
    two agree. *)
Lemma legacy_clean header prefix :
  clean header → clean prefix →
  let out := mergeLegacyFallbackControls header prefix in
  clean out ∧ (∀ k, is_canonical k = true → mget prefix k = mget header k → mget out k = mget header k) ∧
  (∀ n, foreign n = true → metadataValue out n = metadataValue (MergeFallbackV2Metadata header prefix) n).
Proof.
  intros Hch Hcp out. destruct (merge_clean header prefix Hch) as [Hcm Hgm]. set (base := MergeFallbackV2Metadata header prefix) in *.
  set (Q := λ out : gomap, clean out ∧ (∀ k, is_canonical k = true → mget prefix k = mget header k → mget out k = mget header k) ∧
    (∀ n, foreign n = true → metadataValue out n = metadataValue base n)).
  assert (Hset : ∀ o s v, s ∈ metaKeyRegistry → metadataValue prefix (Canonical s) = Some v → Q o → Q (map_set o (Canonical s) v)).
  { intros o s v Hs Hv (H1 & H2 & H3). split_and!; [by apply clean_set| |].
    - intros k Hk E. rewrite mget_set. case_decide as Ek; [|by apply H2]. subst k. rewrite <-E. unfold mget.
      by rewrite (clean_lookup prefix s Hcp Hs), Hv.
    - intros n Hn. rewrite metadataValue_set_ne; [by apply H3|]. by apply foreign_not_canonical. }
  assert (Hbase : Q base) by (split_and!; auto).
  change (Q out). unfold out, mergeLegacyFallbackControls. fold base. pose proof controls_checked as Hall. revert Hall Hbase.
  generalize base at 1 2 as o. induction legacyControls as [|name l IH]; intros o Hall Ho; [done|]. cbn [forallb foldl] in *.
  apply andb_prop in Hall as [Hname Hall]. apply IH; [done|]. destruct (LookupMetaKey name) as [s|] eqn:El; [|done].
  apply bool_decide_eq_true in Hname. pose proof (LookupMetaKey_in name s El) as Hs. subst name.
  destruct (hasField header (Canonical s)); [done|]. destruct (metadataValue prefix (Canonical s)) eqn:Ev; [by apply Hset|].
  case_decide; [|done]. by rewrite clean_no_compact.
Qed.

(** ** The four stored forms *)

Section forms.
Context `{CiphersLaws, HKDFLaws, SHA256, MD5, PasswordKDFLaws, BuildTags, ManifestJSONLaws, MapJSONLaws}.
Context `{StorableEnvelopes K}.

Lemma createAEADCipher_laws fips algorithm key a : createAEADCipher fips algorithm key = Ok a → AEADLaws a ∧ len key = 32.
Proof using H0.
  unfold createAEADCipher, createAESGCMCipher, createChaCha20Poly1305Cipher, aesKeySize, chacha20KeySize. intros Hc.
  repeat case_match; simplify_eq; zbool; split; (apply _ || lia).
Qed.

Lemma newAESGCM_32 key : len key = 32 → newAESGCM key = Ok (aes_gcm key).
Proof using. intros Hl. unfold newAESGCM. by rewrite Hl. Qed.

Lemma parseBinding bid : len bid = 16 → parseObjectBindingID (encodeBindingID bid) = Ok bid.
Proof using. intros Hb. by apply parseObjectBindingID_Ok. Qed.

Definition usable (e : engine) (algorithm : string) : Prop :=
  algorithm ≠ "" ∧ isAlgorithmSupported algorithm (en_supportedAlgorithms e) = true.

Lemma storedAlgorithm_eq m algorithm : mget m MetaAlgorithm = algorithm → algorithm ≠ "" → storedAlgorithm m = algorithm.
Proof using. intros Hm Hne. unfold storedAlgorithm. by rewrite Hm, decide_False. Qed.

(** The cipher parameters found in the metadata [m]. *)
Record cipher_fields (e : engine) (m : gomap) (algorithm : string) (salt nonce bid : list byte) (envelope : option KeyEnvelope) : Prop := {
  cf_salt : mget m MetaKeySalt = encodeBase64 salt;
  cf_iv : mget m MetaIV = encodeBase64 nonce;
  cf_alg : mget m MetaAlgorithm = algorithm;
  cf_bid : mget m MetaObjectBindingID = encodeBindingID bid;
  cf_key : key_fields e m envelope }.

Lemma decryptBuffered_reads e object m st salt nonce bid envelope key gcm aad pt :
  let algorithm := en_preferredAlgorithm e in
  names_keys K → holds_key e st salt envelope key → storable envelope →
  cipher_fields e m algorithm salt nonce bid envelope → mget m MetaObjectFormatVersion = "buffered-v2" →
  usable e algorithm → length nonce = 12%nat → len bid = 16 →
  createAEADCipher tag_fips algorithm key = Ok gcm → buildObjectAAD aadBufferedV2 object bid [] = Ok aad →
  let C := Seal gcm nonce pt aad in
  answers (decryptBuffered e object (src_of C) m st) (λ r, r = (DecBytes pt, bufferedView m gcm C)).
Proof using All.
  intros algorithm Hn Hh Hs [Hsalt Hiv Halg Hbid Hkey] Hfmt [Hne Hsup] Hnl Hbl Hgcm Haad C.
  destruct (createAEADCipher_laws _ _ _ _ Hgcm) as [Hlaws Hkl]. unfold decryptBuffered.
  eapply answers_lift; [by rewrite Hsalt, decodeBase64_encode|]. eapply answers_lift; [by rewrite Hiv, decodeBase64_encode|].
  rewrite (storedAlgorithm_eq m algorithm Halg Hne), Hsup, keySizeFor_32. cbn [negb].
  eapply answers_bind; [by eapply bufferedKey_found|]. intros key' st' ->.
  eapply answers_lift; [by rewrite Hgcm|]. eapply (answers_lift _ C); [done|].
  eapply answers_lift; [rewrite decide_True, Hbid, parseBinding by done; cbn [mbind result_bind]; by rewrite Haad|].
  eapply answers_lift; [unfold openBuffered, C; by rewrite aead_open_seal by done|]. by apply answers_Ok.
Qed.

Lemma splitFallback_app short invalid (json pt : list byte) :
  len json ≤ MaxUint32 → 4 + len json + len pt ≤ MaxInt64 →
  splitFallback short invalid (be_encode 4 (wrap_u32 (len json)) ++ json ++ pt) = Ok (json, pt).
Proof using.
  intros Hj Ht. unfold splitFallback, MaxUint32, MaxInt64 in *. rewrite wrap_u32_id by lia.
  rewrite (proj2 (Z.ltb_ge _ _)) by (rewrite length_app, length_be_encode; lia).
  rewrite take_app_length' by (by rewrite length_be_encode). rewrite be_decode_4 by (unfold MaxUint32; lia).
  unfold checkedMetadataEnd. rewrite !length_app, length_be_encode.
  rewrite !wrap_u64_id by lia. rewrite !(proj2 (Z.ltb_ge _ _)) by lia. cbn [orb].
  replace (Z.to_nat (4 + len json)) with (4 + length json)%nat by lia. do 2 f_equal.
  - rewrite take_app, length_be_encode, take_ge by (rewrite length_be_encode; lia).
    rewrite drop_app_length' by (by rewrite length_be_encode).
    replace (4 + length json - 4)%nat with (length json) by lia. apply take_app_length.
  - rewrite <-drop_drop, drop_app_length' by (by rewrite length_be_encode). apply drop_app_length.
Qed.

Lemma decryptFallbackBound_reads e object m st salt nonce bid envelope key aead aad full hdr pt :
  let algorithm := en_preferredAlgorithm e in
  names_keys K → holds_key e st salt envelope key → storable envelope →
  cipher_fields e m algorithm salt nonce bid envelope → good full →
  length nonce = 12%nat → len bid = 16 →
  createAEADCipher tag_fips algorithm key = Ok aead → buildObjectAAD aadBufferedV2 object bid [] = Ok aad →
  checkedLengthPrefix (len (json_marshal_map full)) = Ok hdr → 4 + len (json_marshal_map full) + len pt ≤ MaxInt64 →
  let C := Seal aead nonce (hdr ++ json_marshal_map full ++ pt) aad in
  answers (decryptFallbackBound e object (src_of C) m st)
    (λ r, r.1 = DecBytes pt ∧ ∀ n, ordinary n → metadataValue r.2 n = metadataValue full n).
Proof using All.
  intros algorithm Hn Hh Hs [Hsalt Hiv Halg Hbid Hkey] Hg Hnl Hbl Hgcm Haad Hhdr Hfit C.
  destruct (createAEADCipher_laws _ _ _ _ Hgcm) as [Hlaws Hkl]. unfold decryptFallbackBound.
  eapply answers_lift; [by rewrite Hbid, parseBinding|].
  eapply answers_lift; [by rewrite Hsalt, decodeBase64_encode|]. eapply answers_lift; [by rewrite Hiv, decodeBase64_encode|].
  eapply answers_bind; [by eapply fallbackBoundKey_found|]. intros key' st' ->.
  rewrite Halg, keySizeFor_32, Hkl. cbn [negb Z.eqb Pos.eqb].
  eapply answers_lift; [exact Hgcm|]. eapply (answers_lift _ C); [done|]. eapply answers_lift; [exact Haad|].
  unfold C. rewrite aead_open_seal by done.
  unfold checkedLengthPrefix in Hhdr. destruct (Z.ltb_spec MaxUint32 (len (json_marshal_map full))); [done|]. injection Hhdr as <-.
  eapply answers_lift; [by apply splitFallback_app|]. cbv beta iota.
  destruct (json_map_roundtrip full) as (m' & Hj & Hp); [apply fold_distinct_wf, Hg|apply Hg|]. rewrite Hj. cbn [default from_option id].
  apply answers_Ok. split; [done|]. intros n Hno. cbn [snd].
  assert (Hd : fold_distinct m') by (unfold fold_distinct; rewrite Hp; apply Hg).
  rewrite !setIf_ordinary by (done || rewrite !elem_of_app; right; right; (by left) || (by right; left)).
  rewrite view_ordinary by done. by apply metadataValue_perm.
Qed.

(** ** Chunked bodies *)

Lemma manifest_stored m iv cs :
  mget m MetaManifest = encodeManifest (writer_manifest iv cs) → loadManifestFromMetadata m = Ok (writer_manifest iv cs).
Proof using H9.
  intros Hm. assert (Hne : encodeManifest (writer_manifest iv cs) ≠ "") by (apply decode_nonempty, json_manifest_text).
  unfold loadManifestFromMetadata. unfold mget in Hm. destruct (map_lookup m MetaManifest) as [v|]; [|by symmetry in Hm].
  cbn in Hm. subst v. unfold decodeManifest, encodeManifest. rewrite decodeBase64_encode, json_manifest_roundtrip; [done|..|done].
  - done.
  - pose proof (clamp_valid cs) as Hc. unfold valid_chunk_size, MinChunkSize, MaxChunkSize, is_i64 in *. cbn. lia.
  - done.
Qed.

Lemma decryptChunked_reads ctx e object m st salt iv bid envelope key aead cs pt :
  let algorithm := en_preferredAlgorithm e in
  holds_key e st salt envelope key → storable envelope → cipher_fields e m algorithm salt iv bid envelope →
  mget m MetaObjectFormatVersion = "chunked-v2" → mget m MetaManifest = encodeManifest (writer_manifest iv cs) →
  openBlob e m = Ok m → usable e algorithm → Validate object = Ok tt → len bid = 16 →
  ctsize (len pt) (clampChunkSize cs) ChunkedFormatV2 ≤ MaxInt64 → live ctx →
  createAEADCipher tag_fips algorithm key = Ok aead →
  let C := sealed_object (writer_params aead (aes_gcm key) iv cs object bid) pt in
  answers (decryptChunked ctx e object (src_of C) m st) (λ r, sr_rem r.1 pt EOF ∧ r.2 = chunkedView m).
Proof using All.
  intros algorithm Hh Hs [Hsalt Hiv Halg Hbid Hkey] Hfmt Hman Hob [Hne Hsup] Hval Hbl Hfit Hctx Haead C.
  destruct (createAEADCipher_laws _ _ _ _ Haead) as [Hlaws Hkl]. unfold decryptChunked.
  eapply answers_lift; [exact Hob|]. eapply answers_lift; [by rewrite (manifest_stored m iv cs Hman)|].
  rewrite (bool_decide_eq_true_2 _ Hfmt). cbn [mf_Version writer_manifest ChunkedFormatV2 Z.eqb Pos.eqb andb negb].
  eapply answers_lift; [by rewrite Hbid, parseBinding|]. eapply answers_lift; [by rewrite Hsalt, decodeBase64_encode|].
  rewrite (storedAlgorithm_eq m algorithm Halg Hne), Hsup, keySizeFor_32. cbn [negb].
  eapply answers_bind; [by eapply chunkedKey_found|]. intros key' st' ->.
  eapply answers_lift; [by rewrite Haead|]. eapply answers_lift; [by rewrite newAESGCM_32|].
  eapply answers_lift.
  { cbn [wrapErr fmap result_fmap]. rewrite newDecBound_Ok with (baseIV := iv); [done|done|done|done|apply clamp_valid|apply decodeBase64_encode]. }
  apply answers_Ok. split; [|done].
  exact (bound_read aead (aes_gcm key) iv cs object bid pt ctx Hval Hbl Hfit Hctx).
Qed.

(** The prefix is read off the body, which is left at its first record. *)
Lemma ReadFallbackV2Prefix_app ctx h hdr C :
  live ctx → good h → len (json_marshal_map h) ≤ MaxFallbackPrefixBytes - 4 → checkedLengthPrefix (len (json_marshal_map h)) = Ok hdr →
  ∃ prefix ctx', ReadFallbackV2Prefix ctx (src_of (hdr ++ json_marshal_map h ++ C)) = (Ok prefix, src_of C, ctx') ∧
    prefix ≡ₚ h ∧ live ctx'.
Proof using H11.
  intros Hctx Hg Hfit Hhdr. set (json := json_marshal_map h) in *. unfold MaxFallbackPrefixBytes in Hfit.
  unfold checkedLengthPrefix in Hhdr. destruct (Z.ltb_spec MaxUint32 (len json)); [done|]. injection Hhdr as <-.
  destruct (json_map_roundtrip h) as (m' & Hj & Hp); [apply fold_distinct_wf, Hg|apply Hg|]. fold json in Hj.
  rewrite wrap_u32_id by lia. unfold ReadFallbackV2Prefix, ctxReadFull.
  destruct (ctx_poll_live ctx Hctx) as (c1 & -> & H1c). destruct (ctx_poll_live c1 H1c) as (c2 & -> & H2c).
  rewrite ReadFull_enough by (cbn; rewrite length_app, length_be_encode; lia). cbn [src_data src_of src_end].
  rewrite take_app_length', drop_app_length' by (by rewrite length_be_encode).
  destruct (ctx_poll_live c2 H2c) as (c3 & -> & H3c). rewrite be_decode_4 by lia.
  rewrite (proj2 (Z.ltb_ge _ _)) by (unfold MaxFallbackPrefixBytes; lia).
  destruct (ctx_poll_live c3 H3c) as (c4 & -> & H4c). destruct (Z.eqb_spec (len json) 0) as [E0|E0].
  - assert (Hjn : json = []) by (apply length_zero_iff_nil; lia). rewrite Hjn in Hj |- *.
    destruct (ctx_poll_live c4 H4c) as (c5 & -> & H5c). rewrite Hj. by exists m', c5.
  - destruct (ctx_poll_live c4 H4c) as (c5 & -> & H5c). rewrite Nat2Z.id.
    rewrite ReadFull_enough by (cbn; rewrite length_app; lia). cbn [src_data src_of src_end].
    rewrite take_app_length, drop_app_length. destruct (ctx_poll_live c5 H5c) as (c6 & -> & H6c).
    destruct (ctx_poll_live c6 H6c) as (c7 & -> & H7c). rewrite Hj. by exists m', c7.
Qed.

(** The names of the fields a reader uses. *)
Definition fieldNames : list string :=
  [MetaKeySalt; MetaIV; MetaAlgorithm; MetaObjectBindingID; MetaKDFParams; MetaKeyVersion; MetaKMSKeyID; MetaKMSProvider;
   MetaWrappedKeyCiphertext; MetaObjectFormatVersion; MetaManifest; MetaChunkedFormat; MetaChunkCount; MetaFallbackMode; MetaFallbackVersion].

Lemma fieldNames_checked :
  forallb (λ k, existsb (λ s, bool_decide (Canonical s = k) && negb (bool_decide (Compact s = "")) &&
    negb (bool_decide (Canonical s = MetaEncryptedMetadata)) && negb (bool_decide (Canonical s = MetaEncrypted))) metaKeyRegistry) fieldNames = true.
Proof using. vm_compute. reflexivity. Qed.

Lemma fieldName_spec k :
  k ∈ fieldNames → ∃ s, aliased s ∧ Canonical s ≠ MetaEncryptedMetadata ∧ Canonical s ≠ MetaEncrypted ∧ Canonical s = k.
Proof using.
  intros Hk%list_elem_of_In. pose proof fieldNames_checked as Hall. rewrite forallb_forall in Hall.
  apply Hall, existsb_exists in Hk as (s & Hs & Hb). apply andb_prop in Hb as [[[H1' H2']%andb_prop H3']%andb_prop H4'].
  exists s. apply bool_decide_eq_true in H1'. apply negb_true_iff, bool_decide_eq_false in H2', H3', H4'.
  split_and!; try done. split; [by apply list_elem_of_In|done].
Qed.

Lemma fieldName_canonical k : k ∈ fieldNames → is_canonical k = true.
Proof using. intros (s & [Hs _] & _ & _ & <-)%fieldName_spec. by apply canonical_name. Qed.

Lemma fields_transfer e m M algorithm salt iv bid envelope :
  (∀ k, k ∈ fieldNames → mget M k = mget m k) →
  cipher_fields e m algorithm salt iv bid envelope → cipher_fields e M algorithm salt iv bid envelope.
Proof using.
  intros HM [Hs Hi Ha Hb [Hp Hk]]. assert (Hin : ∀ k, bool_decide (k ∈ fieldNames) = true → mget M k = mget m k)
    by (intros k ?%bool_decide_eq_true; by apply HM).
  split; [by rewrite Hin..|]. split; [by rewrite Hin|]. destruct envelope; [|done]. by rewrite !Hin.
Qed.

Lemma decryptFallbackV2_reads ctx e object m st salt iv bid envelope key aead cs h hdr pt hb :
  let algorithm := en_preferredAlgorithm e in
  holds_key e st salt envelope key → storable envelope → cipher_fields e m algorithm salt iv bid envelope →
  mget m MetaObjectFormatVersion = "chunked-v2" → mget m MetaManifest = encodeManifest (writer_manifest iv cs) →
  clean m → good h →
  (en_metadataKey e = None ∧ (∀ k, k ∈ fieldNames → k ∉ [MetaFallbackMode; MetaFallbackVersion] → mget h k = mget m k)) ∨
    (hb = true ∧ mget m MetaEncryptedMetadata = "") →
  usable e algorithm → Validate object = Ok tt → len bid = 16 →
  ctsize (len pt) (clampChunkSize cs) ChunkedFormatV2 ≤ MaxInt64 → live ctx →
  createAEADCipher tag_fips algorithm key = Ok aead →
  len (json_marshal_map h) ≤ MaxFallbackPrefixBytes - 4 → checkedLengthPrefix (len (json_marshal_map h)) = Ok hdr →
  let C := sealed_object (writer_params aead (aes_gcm key) iv cs object bid) pt in
  answers (decryptFallbackV2WithProvenance ctx e object (src_of (hdr ++ json_marshal_map h ++ C)) m hb st)
    (λ r, sr_rem r.1 pt EOF ∧
       ∀ n, ordinary n → metadataValue r.2 n = match metadataValue m n with Some v => Some v | None => metadataValue h n end).
Proof using All.
  intros algorithm Hh Hs Hcf Hfmt Hman Hcm Hg Hcase Hus Hval Hbl Hfit Hctx Haead Hjl Hhdr C.
  destruct (ReadFallbackV2Prefix_app ctx h hdr C Hctx Hg Hjl Hhdr) as (prefix & ctx' & Hpre & Hperm & Hctx').
  unfold decryptFallbackV2WithProvenance. rewrite Hpre. eapply answers_lift; [done|].
  assert (Hcp : clean prefix) by (apply (clean_perm h); [done|apply Hg]).
  destruct (merge_clean m prefix Hcm) as [Hc1 Hg1]. destruct (legacy_clean m prefix Hcm Hcp) as (Hc2 & Hg2 & Hf2).
  set (M := if hb then _ else _).
  assert (HcM : clean M) by (unfold M; by destruct hb).
  assert (Hmg : ∀ k, is_canonical k = true → mget prefix k = mget h k).
  { intros k Hk. unfold mget. rewrite (clean_lookup_name prefix k Hk Hcp), (clean_lookup_name h k Hk (good_clean h Hg)).
    f_equal. apply metadataValue_perm; [apply Hcp|done]. }
  assert (HgM : ∀ k, k ∈ fieldNames → k ∉ [MetaFallbackMode; MetaFallbackVersion] → mget M k = mget m k).
  { intros k Hk Hnk. pose proof (fieldName_canonical k Hk) as Hkc. unfold M. destruct hb; [by apply Hg1|].
    destruct Hcase as [[_ Ha]|[? _]]; [|done]. apply Hg2; [done|]. rewrite Hmg by done. by apply Ha. }
  assert (HvM : ∀ n, ordinary n → metadataValue M n = match metadataValue m n with Some v => Some v | None => metadataValue h n end).
  { intros n Hn. assert (metadataValue M n = metadataValue (MergeFallbackV2Metadata m prefix) n) as ->
      by (unfold M; destruct hb; [done|]; by apply Hf2, ordinary_foreign).
    rewrite merge_ordinary by (apply Hcm || apply Hcp || done). rewrite (metadataValue_perm prefix h); [done|apply Hcp|done]. }
  assert (Hob : openBlob e M = Ok M).
  { destruct Hcase as [[Hnk _]|[-> Hem]]; [unfold openBlob, mergeBlob; by rewrite Hnk|].
    apply openBlob_none; [done|]. unfold M. rewrite Hg1; [done|]. apply (canonical_name blobSpec), blobSpec_in. }
  assert (HgM' : ∀ k, bool_decide (k ∈ fieldNames ∧ k ∉ [MetaFallbackMode; MetaFallbackVersion]) = true → mget M k = mget m k)
    by (intros k [? ?]%bool_decide_eq_true; by apply HgM).
  assert (HcfM : cipher_fields e M algorithm salt iv bid envelope).
  { destruct Hcf as [? ? ? ? [? Hk]]. split; [by rewrite HgM'..|]. split; [by rewrite HgM'|]. destruct envelope; [|done]. by rewrite !HgM'. }
  pose proof (decryptChunked_reads ctx' e object M st salt iv bid envelope key aead cs pt Hh Hs HcfM) as Hdec.
  rewrite !HgM' in Hdec by done. specialize (Hdec Hfmt Hman Hob Hus Hval Hbl Hfit Hctx' Haead). fold C in Hdec.
  destruct Hdec as [([o v] & st' & -> & Hrem & Hv)|Herr]; [left|by right]. cbn [snd] in Hv. subst v.
  eexists _, _. split; [done|]. split; [exact Hrem|]. intros n Hn. cbn [snd].
  rewrite chunkedView_ordinary by (apply HcM || done). by apply HvM.
Qed.
End forms.
