(* ===== verification/EngineHeaders.v ===== *)
(** * The headers of stored objects

    For each way to store an object, the headers the engine writes and what
    [Decrypt] finds in them after the backend returned them. *)
From S2P Require Import Prelude GoStd GoIO Primitives ObjectAAD ChunkLayout ChunkRecord ChunkedStream ChunkedCorrect ChunkedTheorems.
From S2P Require Import KeyManager Rotation Metadata ObjectFormat ObjectMeta Kdf PasswordKeyManager.
From S2P Require Import Engine EngineRead EngineMeta EngineSeal EngineFields EngineCorrect EngineBodies.
Local Open Scope Z_scope.
#[local] Arguments ToLower : simpl never.
#[local] Arguments EqualFold : simpl never.
#[local] Arguments FormatInt : simpl never.
#[local] Arguments bytes_of_string : simpl never.
#[local] Arguments ascii_string : simpl never.
#[local] Opaque metaKeyRegistry LookupMetaKey.

Section headers.
Context `{CiphersLaws, HKDFLaws, SHA256, MD5, PasswordKDFLaws, BuildTags, ManifestJSONLaws, MapJSONLaws}.
Context `{StorableEnvelopes K}.

(** ** Sealed maps *)

Lemma good_filter (P : string * string → Prop) `{!∀ x, Decision (P x)} m : good m → good (filter P m).
Proof using.
  intros [Hc Ha Ho]. split; [by apply clean_filter|by apply ascii_map_filter|].
  rewrite metadataValue_None in Ho |- *. intros k (kv & -> & [_ Hin]%list_elem_of_filter)%list_elem_of_fmap.
  apply Ho. by apply list_elem_of_fmap_2.
Qed.

Lemma protectedOf_names m : ascii_map m → forallb (λ kv, is_canonical kv.1 && ascii_string kv.2) (protectedOf m) = true.
Proof using.
  intros Ha. apply forallb_forall. intros kv Hkv%list_elem_of_In. revert kv Hkv. unfold protectedOf.
  assert (Hb : ∀ kv, kv ∈ ([] : gomap) → is_canonical kv.1 && ascii_string kv.2 = true) by (by intros kv ?%elem_of_nil).
  revert Hb. pose proof protected_in as Hl. revert Hl. generalize ([] : gomap) as out.
  induction ProtectedStandardKeys as [|s l IH]; intros out Hl Hout; [done|]. cbn [foldl].
  apply IH; [intros; apply Hl; by right|]. cbn zeta. case_decide; [|done]. intros kv Hkv.
  assert (Hkv' : kv ∈ out ∨ kv = (Canonical s, metadataValueFold m (Canonical s))).
  { clear -Hkv. revert Hkv. generalize (metadataValueFold m (Canonical s)) as v. intros v.
    induction out as [|[k' v'] out IH]; cbn; [intros ?%list_elem_of_singleton; auto|].
    case_decide; rewrite !elem_of_cons; [intros [->|?]; auto|]. intros [->|Hin]; [auto|]. destruct (IH Hin); auto. }
  destruct Hkv' as [?| ->]; [by apply Hout|]. cbn [fst snd]. rewrite (canonical_name s) by (apply Hl; by left). cbn [andb].
  by apply ascii_fold.
Qed.

Lemma sealed_ext full l :
  ascii_map full →
  ext (filter (λ kv, negb (isEncryptionPayloadMetadata kv.1)) full)
    (map_merge (map_set (map_set (filter (λ kv, negb (isEncryptionPayloadMetadata kv.1)) full) MetaEncrypted "true")
       MetaEncryptedMetadata (encodeBase64 l)) (protectedOf full)).
Proof using.
  intros Ha. apply ext_merge; [by apply protectedOf_names|]. constructor; [|vm_compute; reflexivity|apply encodeBase64_ascii].
  constructor; [constructor|vm_compute; reflexivity..].
Qed.

(** The blob of [h], when there is a key, has exactly the sealed fields of [full]. *)
Definition blob_of (e : engine) (full h : gomap) : Prop :=
  match en_metadataKey e with
  | None => h = full
  | Some _ => ∃ dm, decryptMetadata e (mget h MetaEncryptedMetadata) = Ok dm ∧
      (∀ s, s ∈ metaKeyRegistry → blobMember (Canonical s) = true → map_lookup dm (Canonical s) = map_lookup full (Canonical s)) ∧
      map_lookup dm MetaMPUEncrypted = None ∧ quiet full h
  end.

(** Sealing when there is a key, as [encryptBuffered] and [encryptChunked] do. *)
Lemma seal_run e full (st : EngineState K) h st' :
  good full → mget full MetaEncrypted = "true" →
  (match en_metadataKey e with Some _ => sealMetadataBlob e full | None => mret full end) st = (Ok h, st') →
  es_km st' = es_km st ∧ carries e full h ∧ good h ∧ blob_of e full h.
Proof using H0 H11.
  intros Hg Hm. unfold blob_of. destruct (en_metadataKey e) as [mk|] eqn:Hk.
  - intros Hr. destruct (sealed_carries e mk full st h st' Hk (good_clean _ Hg) (good_ascii _ Hg) Hm (good_ocl _ Hg) Hr)
      as (Hkm & Hcar & Hdm & l & ->). split_and!; [done|exact Hcar| |exact Hdm].
    apply (ext_good (filter (λ kv, negb (isEncryptionPayloadMetadata kv.1)) full)); [by apply good_filter|].
    apply sealed_ext, Hg.
  - intros [-> ->]%mret_run. split_and!; [done| |done|done]. by apply clear_carries; [|apply Hg|].
Qed.

Lemma structural_checked : forallb (λ k, bool_decide (k ∈ fieldNames ∨ k = MetaChunkSize)) structuralFields = true.
Proof using. vm_compute. reflexivity. Qed.

Lemma sealChunked_run e full (st : EngineState K) h st' :
  good full → mget full MetaEncrypted = "true" → sealChunkedMetadata e full st = (Ok h, st') →
  es_km st' = es_km st ∧ carries e full h ∧ good h ∧ blob_of e full h.
Proof using H0 H11.
  intros Hg Hm Hr. unfold sealChunkedMetadata in Hr. destruct (en_metadataKey e) as [mk|] eqn:Hk.
  - step_run Hr as h0 st1 Hs1. apply mret_run in Hr as [<- ->].
    pose proof (seal_run e full st h0 st1 Hg Hm) as Hrun. rewrite Hk in Hrun. destruct (Hrun Hs1) as (Hkm & Hcar & Hgh & Hbl).
    split; [done|]. clear Hrun Hs1. assert (Hall : ∀ k, k ∈ structuralFields →
      ∃ s, aliased s ∧ Canonical s ≠ MetaEncryptedMetadata ∧ Canonical s ≠ MetaEncrypted ∧ Canonical s = k).
    { intros k Hk'%list_elem_of_In. pose proof structural_checked as Hc. rewrite forallb_forall in Hc.
      apply Hc, bool_decide_eq_true in Hk' as [Hk'| ->]; [by apply fieldName_spec|].
      exists (control MetaChunkSize "x-amz-meta-cs"). split; [|done]. split; [|done]. apply (bool_decide_unpack _). vm_compute. reflexivity. }
    revert h0 Hcar Hgh Hbl. induction structuralFields as [|k l IH]; intros h0 Hcar Hgh Hbl; [done|]. cbn [foldl].
    apply IH; [intros; apply Hall; by right|..]; (case_decide; [|done]).
    + destruct (Hall k ltac:(by left)) as (s & Ha & Hb & Hn & <-). by apply carries_set.
    + apply (ext_good h0); [done|]. constructor; [constructor| |apply ascii_mget, Hg].
      destruct (Hall k ltac:(by left)) as (s & [Hs _] & _ & _ & <-). by apply canonical_name.
    + destruct (Hall k ltac:(by left)) as (s & _ & Hb & _ & <-). unfold blob_of in *. rewrite Hk in Hbl |- *.
      rewrite mget_set, decide_False by done. destruct Hbl as (dm & Hdec & Hl & Hmpu & Hq). exists dm. split_and!; [done..|].
      intros s' Hs' Hb' Hn' E. rewrite mget_set. case_decide as Ek; [congruence|by apply Hq].
  - apply mret_run in Hr as [-> ->]. unfold blob_of. rewrite Hk. split_and!; [done| |done|done]. by apply clear_carries; [|apply Hg|].
Qed.

(** ** The headers of a buffered object whose metadata is in the body *)

Definition minimalBase (e : engine) (size : Z) (etag : string) (bid salt nonce : list byte) : gomap :=
  [(MetaEncrypted, "true"); (MetaFallbackMode, "true"); (MetaFallbackVersion, "3");
   (MetaObjectFormatVersion, "buffered-fallback-v2"); (MetaObjectBindingID, encodeBindingID bid);
   (MetaAlgorithm, en_preferredAlgorithm e); (MetaKeySalt, encodeBase64 salt); (MetaIV, encodeBase64 nonce);
   (MetaOriginalSize, FormatInt size); (MetaOriginalETag, etag);
   (MetaKDFParams, FormatKDFParams (defaultKDFParams e))].

Lemma minimalBase_good e size etag bid salt nonce :
  ascii_string (en_preferredAlgorithm e) = true → ascii_string etag = true → good (minimalBase e size etag bid salt nonce).
Proof using.
  intros Hal Het. assert (Hg : good []) by (split; [split; [constructor|by intros k s ?%elem_of_nil]|constructor|done]).
  assert (Hm : minimalBase e size etag bid salt nonce = map_merge [] (minimalBase e size etag bid salt nonce)) by reflexivity.
  rewrite Hm. apply (ext_good []); [done|]. apply ext_merge; [|constructor]. cbn [forallb minimalBase fst snd].
  rewrite Hal, Het, !encodeBase64_ascii, encodeBindingID_ascii, FormatInt_ascii, FormatKDFParams_ascii. vm_compute. reflexivity.
Qed.

Lemma minimal_good e full size etag bid salt nonce envelope :
  ascii_string (en_preferredAlgorithm e) = true → ascii_string etag = true → envelope_ascii envelope → good full →
  good (minimalFallbackMetadata e full size etag bid salt nonce envelope).
Proof using.
  intros Hal Het He Hg. unfold minimalFallbackMetadata. fold (minimalBase e size etag bid salt nonce).
  apply (ext_good (minimalBase e size etag bid salt nonce)); [by apply minimalBase_good|].
  assert (Hx : ext (minimalBase e size etag bid salt nonce) (foldl (λ m spec, if decide (mget full (Canonical spec) ≠ "")
     then map_set m (Canonical spec) (mget full (Canonical spec)) else m)
       (stampEnvelope (minimalBase e size etag bid salt nonce) envelope []) ProtectedStandardKeys)).
  { apply ext_protected; [apply protected_in| |apply ext_stampEnvelope; [done|constructor|constructor]].
    intros m s Hs. cbn beta. case_decide; [right|by left]. eexists. split; [done|]. apply ascii_mget, Hg. }
  case_decide; [|exact Hx]. constructor; [exact Hx|vm_compute; reflexivity|apply ascii_mget, Hg].
Qed.

Lemma minimal_fields e full size etag bid salt nonce envelope :
  let m := minimalFallbackMetadata e full size etag bid salt nonce envelope in
  cipher_fields e m (en_preferredAlgorithm e) salt nonce bid envelope ∧ mget m MetaEncrypted = "true" ∧
  mget m MetaFallbackMode = "true" ∧ mget m MetaFallbackVersion = "3" ∧
  mget m MetaObjectFormatVersion = "buffered-fallback-v2" ∧ mget m MetaEncryptedMetadata = mget full MetaEncryptedMetadata.
Proof using.
  intros m. unfold m, minimalFallbackMetadata. fold (minimalBase e size etag bid salt nonce).
  set (m0 := minimalBase e size etag bid salt nonce). set (m1 := stampEnvelope m0 envelope []).
  set (f := λ m spec, if decide (mget full (Canonical spec) ≠ "") then map_set m (Canonical spec) (mget full (Canonical spec)) else m).
  set (m2 := foldl f m1 ProtectedStandardKeys).
  set (m3 := if decide (mget full MetaEncryptedMetadata ≠ "") then map_set m2 MetaEncryptedMetadata (mget full MetaEncryptedMetadata) else m2).
  assert (Hm2 : ∀ k, MetaEncryptedMetadata ≠ k → unprotected k = true → mget m3 k = mget m1 k).
  { intros k Hk Hu. transitivity (mget m2 k).
    - unfold m3. case_decide; [|done]. by rewrite mget_set, decide_False.
    - apply mget_protected_other; [done|]. intros m' s. unfold f. case_decide; eauto. }
  assert (Hm3 : ∀ k, MetaEncryptedMetadata ≠ k → unprotected k = true → k ∉ envelopeNames → mget m3 k = mget m0 k).
  { intros k Hk Hu He. rewrite Hm2 by done. by apply mget_stampEnvelope. }
  split_and!.
  - split; [rewrite Hm3; [reflexivity|done|vm_compute; reflexivity|apply (bool_decide_unpack _); reflexivity]..|].
    split; [rewrite Hm3; [reflexivity|done|vm_compute; reflexivity|apply (bool_decide_unpack _); reflexivity]|].
    destruct envelope as [env|]; [|done]. rewrite !Hm2 by (done || vm_compute; reflexivity). by apply mget_envelope.
  - rewrite Hm3; [reflexivity|done|vm_compute; reflexivity|apply (bool_decide_unpack _); reflexivity].
  - rewrite Hm3; [reflexivity|done|vm_compute; reflexivity|apply (bool_decide_unpack _); reflexivity].
  - rewrite Hm3; [reflexivity|done|vm_compute; reflexivity|apply (bool_decide_unpack _); reflexivity].
  - rewrite Hm3; [reflexivity|done|vm_compute; reflexivity|apply (bool_decide_unpack _); reflexivity].
  - unfold m3. case_decide as E; [by rewrite mget_set, decide_True|]. rewrite E. unfold m2.
    rewrite mget_protected_other; [|vm_compute; reflexivity|intros m' s; unfold f; case_decide; eauto].
    unfold m1. by rewrite mget_stampEnvelope by (apply (bool_decide_unpack _); reflexivity).
Qed.

Lemma blob_fields e mk full h :
  en_metadataKey e = Some mk → blob_of e full h →
  ∃ dm, decryptMetadata e (mget h MetaEncryptedMetadata) = Ok dm ∧ ∀ k, k ∈ fieldNames → map_lookup dm k = map_lookup full k.
Proof using.
  unfold blob_of. intros -> (dm & Hdec & Hl & _). exists dm. split; [done|].
  intros k Hin. destruct (fieldName_spec k Hin) as (s & [Hs Hal] & Hb & Hn & <-). apply Hl; [done|].
  destruct (registry_name s Hs) as (-> & _ & Hmpu). apply negb_true_iff, bool_decide_eq_false.
  rewrite !elem_of_cons. intros [?|[?|[?|?%elem_of_nil]]]; [done|done|by apply Hal, Hmpu|done].
Qed.

(** Opening these headers: the fields of the blob agree with them, except for
    the format marker, which the headers keep. *)
Lemma openHeader_bound e full h m0 ex algorithm salt nonce bid envelope :
  carries e full h → reads_like m0 ex →
  blob_of e full h →
  cipher_fields e full algorithm salt nonce bid envelope → mget full MetaObjectFormatVersion = "buffered-v2" →
  map_lookup full MetaFallbackMode = None → map_lookup full MetaFallbackVersion = None →
  cipher_fields e m0 algorithm salt nonce bid envelope →
  mget m0 MetaFallbackMode = "true" → mget m0 MetaFallbackVersion = "3" →
  mget m0 MetaObjectFormatVersion = "buffered-fallback-v2" → mget m0 MetaEncryptedMetadata = mget h MetaEncryptedMetadata →
  ∃ m, openHeader e ex = Ok m ∧ cipher_fields e m algorithm salt nonce bid envelope ∧
    mget m MetaFallbackMode = "true" ∧ mget m MetaFallbackVersion = "3" ∧ mget m MetaObjectFormatVersion = "buffered-fallback-v2".
Proof using.
  intros Hcar (Hcx & Hgx & _) Hdm Hcf Hfmt Hf1 Hf2 Hcf0 Hmode Hver Hfmt0 Hblob.
  assert (Hex : ∀ k, bool_decide (k ∈ fieldNames) = true → mget ex k = mget m0 k).
  { intros k (s & Ha & _ & _ & <-)%bool_decide_eq_true%fieldName_spec. by apply Hgx. }
  unfold openHeader. rewrite !Hex, Hver, Hfmt0 by (vm_compute; reflexivity). cbn [bool_decide].
  destruct (en_metadataKey e) as [mk|] eqn:Hk.
  2: { exists ex. split; [done|]. rewrite !Hex by (vm_compute; reflexivity). split_and!; try done.
       apply (fields_transfer e m0); [|done]. intros k Hin. apply Hex. by apply bool_decide_eq_true. }
  destruct (blob_fields e mk full h Hk Hdm) as (dm & Hdec & Hbl). destruct Hcar as (_ & _ & _ & Hcar). rewrite Hk in Hcar.
  destruct Hcar as (dm' & Hne & Hdec' & Hcd & Hkd & _). assert (dm' = dm) as -> by congruence.
  assert (Hmb : mergeBlob e ex = Ok (map_merge ex dm, Some dm)).
  { unfold mergeBlob. rewrite Hk, blobKeyOf_clean by done.
    rewrite (Hgx blobSpec blobSpec_in : mget ex MetaEncryptedMetadata = mget m0 MetaEncryptedMetadata), Hblob. by rewrite decide_False, Hdec. }
  rewrite Hmb. cbn [mbind result_bind]. rewrite blobKeyOf_clean by done.
  assert (Hdg : ∀ k, bool_decide (k ∈ fieldNames) = true → mget dm k = mget full k)
    by (intros k ?%bool_decide_eq_true; unfold mget; by rewrite Hbl).
  rewrite (bool_decide_eq_true_2 (_ = _)) by done. rewrite decide_False.
  2: { rewrite !Hdg, Hfmt, (cf_bid _ _ _ _ _ _ _ Hcf), (cf_bid _ _ _ _ _ _ _ Hcf0) by (vm_compute; reflexivity). intros [?|[?|?]]; done. }
  destruct (clean_merge ex dm Hcx Hcd Hkd) as [Hcm Hvm].
  assert (Hmm : ∀ k, bool_decide (k ∈ fieldNames) = true → mget (map_merge ex dm) k = default (mget m0 k) (map_lookup full k)).
  { intros k Hin. rewrite <-(Hex k Hin). apply bool_decide_eq_true in Hin. rewrite <-Hbl by done.
    pose proof (fieldName_canonical k Hin) as Hkc. unfold mget.
    rewrite (clean_lookup_name _ k Hkc Hcm), (clean_lookup_name dm k Hkc Hcd), (clean_lookup_name ex k Hkc Hcx), Hvm.
    by destruct (metadataValue dm k). }
  eexists. split; [done|]. cbn [fst snd]. set (M := if IsEncryptedMetadata _ then _ else _).
  assert (HM : ∀ k, bool_decide (k ∈ fieldNames) = true → MetaObjectFormatVersion ≠ k → mget M k = default (mget m0 k) (map_lookup full k)).
  { intros k Hin Hnf. rewrite <-Hmm by done. assert (Hnn : MetaEncryptedMetadata ≠ k ∧ MetaEncrypted ≠ k).
    { apply bool_decide_eq_true, fieldName_spec in Hin as (s & _ & ? & ? & <-). by split. }
    destruct Hnn. unfold M. case_match; rewrite ?mget_set, ?mget_delete, ?mget_set, !decide_False by done; done. }
  assert (Hagree : ∀ k, bool_decide (k ∈ fieldNames) = true → MetaObjectFormatVersion ≠ k → mget full k = mget m0 k → mget M k = mget m0 k).
  { intros k Hin Hnf E. rewrite HM by done. unfold mget at 1 in E. destruct (map_lookup full k); [exact E|done]. }
  split_and!.
  - destruct Hcf as [E1 E2 E3 E4 [E5 E6]], Hcf0 as [F1 F2 F3 F4 [F5 F6]].
    split; [rewrite Hagree by first [done|congruence|vm_compute; reflexivity]; done..|].
    split; [rewrite Hagree by first [done|congruence|vm_compute; reflexivity]; done|].
    destruct envelope; [|done]. destruct E6 as (? & ? & ? & ?), F6 as (? & ? & ? & ?).
    rewrite !Hagree by first [done|congruence|vm_compute; reflexivity]. done.
  - rewrite HM by (done || vm_compute; reflexivity). by rewrite Hf1.
  - rewrite HM by (done || vm_compute; reflexivity). by rewrite Hf2.
  - unfold M. case_match; rewrite ?mget_set, ?mget_delete, ?mget_set; done.
Qed.

(** ** The headers of a chunked object whose metadata is in front of the body *)

(** Headers carry what is found by opening their own blob. *)
Definition opened (e : engine) (h : gomap) : gomap :=
  match decryptMetadata e (mget h MetaEncryptedMetadata) with Ok dm => map_merge h dm | Err _ => h end.

Lemma carries_opened e full h h' :
  carries e full h → clean h' → (∀ k, k ∈ [MetaEncrypted; MetaEncryptedMetadata] → mget h' k = mget h k) →
  carries e (opened e h') h' ∧
  ∀ s, aliased s → mget (opened e h') (Canonical s) =
    match decryptMetadata e (mget h MetaEncryptedMetadata) with
    | Ok dm => default (mget h' (Canonical s)) (map_lookup dm (Canonical s))
    | Err _ => mget h' (Canonical s)
    end.
Proof using.
  intros (Hc & Hm & Hf & Hx) Hc' Hsame. unfold opened. rewrite (Hsame MetaEncryptedMetadata) by (by right; left).
  assert (Hm' : mget h' MetaEncrypted = "true") by (rewrite Hsame; [done|by left]).
  unfold carries. destruct (en_metadataKey e) eqn:Hk.
  - destruct Hx as (dm & Hne & Hdec & Hcd & Hkd & Hv). rewrite Hdec. destruct (clean_merge h' dm Hc' Hcd Hkd) as [Hcm Hvm].
    assert (Hmm : ∀ s, aliased s → mget (map_merge h' dm) (Canonical s) = default (mget h' (Canonical s)) (map_lookup dm (Canonical s))).
    { intros s [Hs _]. unfold mget. rewrite (clean_lookup _ s Hcm Hs), (clean_lookup dm s Hcd Hs), (clean_lookup h' s Hc' Hs), Hvm.
      by destruct (metadataValue dm (Canonical s)). }
    split; [|done]. split_and!; [done|done| |].
    + intros n Hn. rewrite Hvm. rewrite (proj2 (metadataValue_None dm n)); [done|].
      intros k Hin E. destruct (Hkd k Hin) as [s Hs]. by rewrite (LookupMetaKey_fold _ _ E), (proj1 (foreign_spec n Hn)) in Hs.
    + exists dm. rewrite (Hsame MetaEncryptedMetadata) by (by right; left). split_and!; [done..|]. intros s Ha _. by rewrite Hmm.
  - unfold decryptMetadata. rewrite Hk. done.
Qed.

Lemma recovers_no_blob e full m : en_metadataKey e ≠ None → recovers e full m → mget m MetaEncryptedMetadata = "".
Proof using.
  intros Hk (Hc & _ & _ & Ho). unfold openBlob, mergeBlob in Ho. destruct (en_metadataKey e); [|done].
  rewrite blobKeyOf_clean in Ho by done. destruct (decide (mget m MetaEncryptedMetadata = "")) as [E|E]; [done|].
  exfalso. destruct (decryptMetadata _ _); [|done]. simplify_eq/=. apply E. rewrite <-Ho at 1. by rewrite mget_delete, decide_True.
Qed.

(** The headers [h] marked as a fallback, less some ordinary entries. *)
Record marked (h h' : gomap) : Prop := {
  mk_clean : clean h';
  mk_fields : ∀ k, is_canonical k = true → mget h' k = mget (map_set (map_set h MetaFallbackMode "true") MetaFallbackVersion "2") k;
  mk_ordinary : ∀ n, ordinary n → metadataValue h' n = metadataValue h n ∨ metadataValue h' n = None }.

Lemma marked_start h : clean h → marked h (map_set (map_set h MetaFallbackMode "true") MetaFallbackVersion "2").
Proof using.
  intros Hc. split; [apply clean_set_name; [|apply clean_set_name]; (done || vm_compute; reflexivity)|done|].
  intros n Hn%ordinary_foreign. left. assert (Hne : ∀ k, is_canonical k = true → ToLower k ≠ ToLower n)
    by (intros k (s & Hs & <-)%is_canonical_spec; by apply foreign_not_canonical).
  by rewrite !metadataValue_set_ne by (apply Hne; vm_compute; reflexivity).
Qed.

Lemma marked_delete h h' k : ordinary k → marked h h' → marked h (map_delete h' k).
Proof using.
  intros Hk [Hc Hf Ho]. split; [by apply clean_delete| |].
  - intros k' Hk'. rewrite mget_delete, decide_False; [by apply Hf|]. intros ->.
    apply is_canonical_spec in Hk' as (s & Hs & <-). by apply (foreign_not_canonical (Canonical s) s (ordinary_foreign _ Hk) Hs).
  - intros n Hn. destruct (metadataValue (map_delete h' k) n) as [v|] eqn:Ev; [|by right].
    apply metadataValue_Some in Ev as (k' & [_ Hin]%list_elem_of_filter & E').
    left. destruct (Ho n Hn) as [<-|Hnone].
    + rewrite <-(metadataValue_elem h' k' v (proj1 Hc) Hin). by apply metadataValue_fold.
    + exfalso. rewrite metadataValue_None in Hnone. apply (Hnone k'); [|done]. by apply (list_elem_of_fmap_2 fst) in Hin.
Qed.

Lemma shrink_marked e h h' ks stored :
  Forall ordinary ks → marked h h' → shrinkHeaders e h' ks = Ok stored →
  ∃ h2, marked h h2 ∧ stored = CompactMetadata (en_compactor e) h2.
Proof using.
  intros Hks. revert h'. induction Hks as [|k ks Hk Hks IH]; intros h' Hm; cbn [shrinkHeaders]; (case_match; [|intros; simplify_eq; eauto]).
  - done.
  - apply IH. by apply marked_delete.
Qed.

Lemma opened_marked e full h h' ex :
  carries e full h → blob_of e full h → mget full MetaEncrypted = "true" → (∀ k, k ∈ [MetaFallbackMode; MetaFallbackVersion] → map_lookup full k = None) →
  marked h h' → reads_like h' ex →
  ∃ m, openHeader e ex = Ok m ∧ recovers e (opened e h') m ∧
    (∀ k, k ∈ fieldNames → k ∉ [MetaFallbackMode; MetaFallbackVersion] → mget m k = mget full k) ∧
    mget m MetaFallbackMode = "true" ∧ mget m MetaFallbackVersion = "2" ∧
    (en_metadataKey e ≠ None → has_blob ex = true) ∧ ∀ n, foreign n = true → metadataValue m n = metadataValue h' n.
Proof using All.
  intros Hcar Hblob Henc Habs Hmk Hr. pose proof (mk_clean _ _ Hmk) as Hc'.
  assert (Hsame : ∀ k, is_canonical k = true → k ∉ [MetaFallbackMode; MetaFallbackVersion] → mget h' k = mget h k).
  { intros k Hk Hn. rewrite (mk_fields _ _ Hmk k Hk), !mget_set, !decide_False; [done|..]; intros <-; apply Hn; apply (bool_decide_unpack _); reflexivity. }
  destruct (carries_opened e full h h' Hcar Hc') as [Hcar' Hop].
  { intros k Hk. apply Hsame; [|intros Hk2; set_unfold; naive_solver].
    repeat (apply elem_of_cons in Hk as [->|Hk]); [vm_compute; reflexivity..|by apply elem_of_nil in Hk]. }
  assert (Hfull : ∀ s, aliased s → Canonical s ≠ MetaEncryptedMetadata → Canonical s ∉ [MetaFallbackMode; MetaFallbackVersion] →
    mget (opened e h') (Canonical s) = mget full (Canonical s)).
  { intros s Ha Hb Hn. rewrite Hop by done. rewrite (Hsame (Canonical s)) by (done || by apply canonical_name, Ha).
    destruct Hcar as (_ & _ & _ & Hx). destruct (en_metadataKey e) eqn:Hk.
    - destruct Hx as (dm & _ & -> & _ & _ & Hv). by apply Hv.
    - unfold decryptMetadata. rewrite Hk. by apply Hx. }
  assert (Hmark : ∀ k, k ∈ [MetaFallbackMode; MetaFallbackVersion] → mget (opened e h') k = mget h' k).
  { intros k Hk. assert (Hin : k ∈ fieldNames)
      by (repeat (apply elem_of_cons in Hk as [->|Hk]); [apply (bool_decide_unpack _); reflexivity..|by apply elem_of_nil in Hk]).
    destruct (fieldName_spec k Hin) as (s & Ha & _ & _ & <-). rewrite Hop by done. destruct (en_metadataKey e) as [mk|] eqn:Hmkey.
    - destruct (blob_fields e mk full h Hmkey Hblob) as (dm & -> & Hl). by rewrite Hl, Habs.
    - unfold decryptMetadata. by rewrite Hmkey. }
  pose proof Hr as (Hcx & Hgx & _).
  assert (Hver : mget h' MetaFallbackVersion = "2") by (rewrite (mk_fields _ _ Hmk) by (vm_compute; reflexivity); by rewrite mget_set, decide_True).
  assert (Hmode : mget h' MetaFallbackMode = "true").
  { rewrite (mk_fields _ _ Hmk) by (vm_compute; reflexivity). by rewrite mget_set, decide_False, mget_set, decide_True by done. }
  destruct (openHeader_recovers e (opened e h') h' ex Hcar' Hr) as (m & Hopen & Hrec).
  { rewrite <-Henc. apply (Hfull encryptedSpec encrypted_aliased); [done|]. apply (bool_decide_unpack _). reflexivity. }
  { destruct (fieldName_spec MetaFallbackVersion) as (s & Ha & _ & _ & Es); [apply (bool_decide_unpack _); reflexivity|].
    rewrite <-Es, Hgx, Es, Hver by done. done. }
  pose proof Hrec as (_ & Hg & Hf & _). exists m. split_and!; [done|done| | | | |].
  - intros k Hk Hn. destruct (fieldName_spec k Hk) as (s & Ha & Hb & _ & <-). rewrite Hg by done. by apply Hfull.
  - destruct (fieldName_spec MetaFallbackMode) as (s & Ha & Hb & _ & Es); [apply (bool_decide_unpack _); reflexivity|].
    rewrite <-Es, Hg, Es, Hmark by (done || by left). done.
  - destruct (fieldName_spec MetaFallbackVersion) as (s & Ha & Hb & _ & Es); [apply (bool_decide_unpack _); reflexivity|].
    rewrite <-Es, Hg, Es, Hmark by (done || by right; left). done.
  - intros Hk. destruct Hcar' as (_ & _ & _ & Hx). destruct (en_metadataKey e); [|done]. destruct Hx as (dm & Hne & _).
    unfold has_blob. rewrite <-(clean_lookup ex blobSpec Hcx (proj1 blobSpec_in) : map_lookup ex MetaEncryptedMetadata = metadataValue ex MetaEncryptedMetadata).
    pose proof (Hgx blobSpec blobSpec_in : mget ex MetaEncryptedMetadata = mget h' MetaEncryptedMetadata) as Hb. unfold mget at 1 in Hb.
    destruct (map_lookup ex MetaEncryptedMetadata); [done|]. by rewrite <-Hb in Hne.
  - intros n Hn. rewrite Hf by done. symmetry. by apply Hcar'.
Qed.
End headers.
