(* ===== verification/EngineTheorems.v ===== *)
(** * The engine reads what it wrote

    The runs of [Encrypt] in its two modes, the reading of the four stored
    forms by [Decrypt], and the round trip over both. *)
From S2P Require Import Prelude GoStd GoIO Primitives ObjectAAD ChunkLayout ChunkRecord ChunkedStream ChunkedCorrect ChunkedTheorems.
From S2P Require Import KeyManager Rotation Metadata ObjectFormat ObjectMeta Kdf PasswordKeyManager.
From stdpp Require Import sorting.
From S2P Require Import Engine EngineRead EngineMeta EngineSeal EngineFields EngineCorrect EngineBodies EngineHeaders.
Local Open Scope Z_scope.
#[local] Arguments ToLower : simpl never.
#[local] Arguments EqualFold : simpl never.
#[local] Arguments FormatInt : simpl never.
#[local] Arguments bytes_of_string : simpl never.
#[local] Arguments ascii_string : simpl never.
#[local] Arguments Validate : simpl never.
#[local] Opaque metaKeyRegistry LookupMetaKey.

Section runs.
Context `{CiphersLaws, HKDFLaws, SHA256, MD5, PasswordKDFLaws, BuildTags, ManifestJSONLaws, MapJSONLaws}.
Context `{StorableEnvelopes K}.

(** ** Keys over time *)

(** [st'] is the state after any calls to the key manager other than [Close]. *)
Definition later (st st' : EngineState K) : Prop :=
  match es_km st, es_km st' with
  | Some k, Some k' => ∃ cs w w', Forall call_ok cs ∧ km_run cs (k, w) = (k', w')
  | None, None => True
  | _, _ => False
  end.

Lemma holds_later e st st' salt envelope key : holds_key e st salt envelope key → later st st' → holds_key e st' salt envelope key.
Proof using.
  unfold holds_key, later. destruct (es_km st) as [k|], (es_km st') as [k'|], envelope as [env|]; try done.
  intros [Hi Hh] (cs & w & w' & Hcs & Hr). destruct (km_run_spec cs k w k' w' Hcs Hi Hr). eauto.
Qed.

Lemma holds_same e st st' salt envelope key : holds_key e st salt envelope key → es_km st' = es_km st → holds_key e st' salt envelope key.
Proof using. unfold holds_key. by intros ? ->. Qed.

(** ** Fresh values *)

Lemma generateSalt_run (st : EngineState K) l st' : generateSalt st = (Ok l, st') → es_km st' = es_km st.
Proof using. by intros (_ & ? & _)%wrapM_Ok%randM_run. Qed.

Lemma generateNonce_run algorithm (st : EngineState K) l st' :
  generateNonceForAlgorithm algorithm st = (Ok l, st') → length l = 12%nat ∧ es_km st' = es_km st ∧ ascii_string algorithm = true.
Proof using.
  intros Hr. unfold generateNonceForAlgorithm in Hr. step_run Hr as n st1 Hs1. apply lift_run in Hs1 as [Hn%wrapErr_Ok ->].
  apply wrapM_Ok, randM_run in Hr as (Hl & Hk & _). unfold getNonceSize in Hn.
  repeat case_decide; simplify_eq; (split_and!; [by rewrite Hl|done|vm_compute; reflexivity]).
Qed.

Lemma newBinding_run (st : EngineState K) l st' : newObjectBindingID st = (Ok l, st') → len l = 16 ∧ es_km st' = es_km st.
Proof using. intros (Hl & ? & _)%wrapM_Ok%randM_run. split; [by rewrite Hl|done]. Qed.

Lemma ReadAll_src_of pt : ReadAll (src_of pt) = Ok pt.
Proof using. done. Qed.

(** ** Buffered writes *)

(** What a buffered write leaves behind: the parameters of the encryption, the
    metadata [full] it describes the object with, and the headers [h]. *)
Record buffered_write (e : engine) (object : ObjectContext) (pt : list byte) (md : gomap) (st : EngineState K)
    (salt nonce bid key : list byte) (envelope : option KeyEnvelope) (full h : gomap) (gcm : AEAD) (aad : list byte) : Prop := {
  bw_nonce : length nonce = 12%nat; bw_bid : len bid = 16; bw_key : len key = 32;
  bw_holds : holds_key e st salt envelope key; bw_storable : storable envelope;
  bw_good : good full; bw_foreign : ∀ n, foreign n = true → metadataValue full n = metadataValue md n;
  bw_fields : cipher_fields e full (en_preferredAlgorithm e) salt nonce bid envelope;
  bw_marked : mget full MetaEncrypted = "true" ∧ mget full MetaObjectFormatVersion = "buffered-v2" ∧ mget full MetaChunkedFormat = "";
  bw_absent : map_lookup full MetaFallbackMode = None ∧ map_lookup full MetaFallbackVersion = None;
  bw_carries : carries e full h; bw_headers : good h;
  bw_blob : blob_of e full h;
  bw_cipher : createAEADCipher tag_fips (en_preferredAlgorithm e) key = Ok gcm;
  bw_aad : buildObjectAAD aadBufferedV2 object bid [] = Ok aad }.

Definition buffered_stored (e : engine) (pt salt nonce bid : list byte) (envelope : option KeyEnvelope) (h : gomap)
    (gcm : AEAD) (aad : list byte) (out : EncOut) (stored : gomap) : Prop :=
  (out = EncBytes (Seal gcm nonce pt aad) ∧ stored = CompactMetadata (en_compactor e) h) ∨
  (∃ hdr, checkedLengthPrefix (len (json_marshal_map h)) = Ok hdr ∧ 4 + len (json_marshal_map h) + len pt ≤ MaxInt64 ∧
     out = EncBytes (Seal gcm nonce (hdr ++ json_marshal_map h ++ pt) aad) ∧
     stored = CompactMetadata (en_compactor e) (minimalFallbackMetadata e h (len pt) (computeETag pt) bid salt nonce envelope)).

Lemma encryptBuffered_run e object pt md st out stored st' :
  state_ok st → fold_distinct md → ascii_map md →
  encryptBuffered e object (src_of pt) md st = (Ok (out, stored), st') →
  ∃ salt nonce bid key envelope full h gcm aad,
    buffered_write e object pt md st' salt nonce bid key envelope full h gcm aad ∧
    buffered_stored e pt salt nonce bid envelope h gcm aad out stored ∧ (es_km st' = None → es_km st = None).
Proof using All.
  intros Hst Hd Ha Hr. unfold encryptBuffered in Hr. rewrite ReadAll_src_of in Hr. cbn [wrapErr] in Hr. rewrite bind_lift in Hr.
  step_run Hr as salt st1 Hs1. apply wrapM_Ok, generateSalt_run in Hs1.
  step_run Hr as nonce st2 Hs2. apply wrapM_Ok, generateNonce_run in Hs2 as (Hnl & Hk2 & Hal).
  step_run Hr as kem st3 Hs3. destruct kem as [[key envelope] md']. rewrite keySizeFor_32 in Hs3.
  apply newDataKey_run in Hs3 as (Hkl & Hh & Hs & Hsc & Hnone); [|unfold state_ok; by rewrite Hk2, Hs1].
  rewrite Hk2, Hs1 in Hnone.
  step_run Hr as bid st4 Hs4. apply newBinding_run in Hs4 as [Hbl Hk4]. cbv zeta in Hr.
  set (full := bufferedMetadata e md' pt bid salt nonce envelope) in *.
  assert (Hea : envelope_ascii envelope) by (destruct envelope; [apply Hs|done]).
  pose proof (same_caller_ascii md md' Hsc Ha) as Ha'.
  pose proof (buffered_ext e md' pt bid salt nonce envelope Ha' Hea Hal) as Hx. fold full in Hx.
  rewrite (same_caller_eq md md' Hsc) in Hx. destruct (ext_good _ _ (caller_good md Hd Ha) Hx) as [Hg Hf].
  pose proof (buffered_fields e md' pt bid salt nonce envelope) as Hfl. fold full in Hfl. cbv zeta in Hfl.
  rewrite !Forall_cons in Hfl. cbn [fst snd] in Hfl. destruct Hfl as (F1 & F2 & F3 & F4 & F5 & F6 & _ & _ & F9 & _ & _ & F12 & _).
  assert (Hcf : cipher_fields e full (en_preferredAlgorithm e) salt nonce bid envelope).
  { split; [done..|]. split; [done|]. destruct envelope as [env|]; [|done]. apply (buffered_envelope e md' pt bid salt nonce env). }
  step_run Hr as h st5 Hs5. apply seal_run in Hs5 as (Hk5 & Hcar & Hgh & Hblob); [|done|done].
  assert (Hbw : ∀ gcm aad, createAEADCipher tag_fips (en_preferredAlgorithm e) key = Ok gcm →
    buildObjectAAD aadBufferedV2 object bid [] = Ok aad → st' = st5 →
    buffered_write e object pt md st' salt nonce bid key envelope full h gcm aad).
  { intros gcm aad Hgcm Haad ->. split; try done.
    - eapply holds_same; [done|]. by rewrite Hk5, Hk4.
    - intros n Hn. rewrite Hf by done. by apply caller_foreign.
    - split; apply buffered_absent; [by left|by right; left]. }
  destruct (needsMetadataFallback e h).
  - apply lift_run in Hr as [Hw ->]. unfold encryptWithMetadataFallback in Hw. rewrite Hbl, keySizeFor_32, Hkl in Hw.
    cbn [Z.eqb Pos.eqb negb] in Hw. apply bind_Ok in Hw as (gcm & Hgcm%wrapErr_Ok & Hw).
    apply bind_Ok in Hw as (hdr & Hhdr%wrapErr_Ok & Hw). case_match eqn:Hsz; [done|].
    apply orb_false_elim in Hsz as [Hz1 Hz2]. zbool.
    apply bind_Ok in Hw as (aad & Haad & Hw). cbv zeta in Hw. case_match; [done|]. simplify_eq.
    eexists salt, nonce, bid, key, envelope, full, h, gcm, aad. split; [by apply Hbw|]. split; [|by rewrite Hk5, Hk4].
    right. exists hdr. split_and!; [done|lia|done|done].
  - step_run Hr as gcm st6 Hs6. apply lift_run in Hs6 as [Hgcm%wrapErr_Ok ->].
    step_run Hr as aad st7 Hs7. apply lift_run in Hs7 as [Haad ->]. apply mret_run in Hr as [[= <- <-] ->].
    eexists salt, nonce, bid, key, envelope, full, h, gcm, aad. split; [by apply Hbw|]. split; [by left|by rewrite Hk5, Hk4].
Qed.

(** ** Chunked writes *)

Lemma unset_markers k : k ∈ [MetaFallbackMode; MetaFallbackVersion] → k ∈ unsetNames.
Proof using. intros Hk. unfold unsetNames. rewrite !elem_of_cons in *. rewrite elem_of_nil in Hk. tauto. Qed.

Record chunked_write (e : engine) (object : ObjectContext) (md : gomap) (st : EngineState K)
    (salt iv bid key : list byte) (envelope : option KeyEnvelope) (full h : gomap) (aead : AEAD) : Prop := {
  cw_object : Validate object = Ok tt; cw_bid : len bid = 16; cw_key : len key = 32;
  cw_holds : holds_key e st salt envelope key; cw_storable : storable envelope;
  cw_good : good full; cw_foreign : ∀ n, foreign n = true → metadataValue full n = metadataValue md n;
  cw_fields : cipher_fields e full (en_preferredAlgorithm e) salt iv bid envelope;
  cw_marked : mget full MetaEncrypted = "true" ∧ mget full MetaObjectFormatVersion = "chunked-v2" ∧ mget full MetaChunkedFormat = "true";
  cw_manifest : mget full MetaManifest = encodeManifest (writer_manifest iv (en_chunkSize e));
  cw_size : mget full MetaChunkSize = FormatInt (en_chunkSize e);
  cw_absent : ∀ k, k ∈ unsetNames → map_lookup full k = None;
  cw_carries : carries e full h; cw_headers : good h; cw_blob : blob_of e full h;
  cw_cipher : createAEADCipher tag_fips (en_preferredAlgorithm e) key = Ok aead }.

Definition chunked_body (ctx : Ctx) (e : engine) (object : ObjectContext) (pt iv bid key : list byte) (aead : AEAD) : encReader :=
  mkEnc (writer_params aead (aes_gcm key) iv (en_chunkSize e) object bid) (writer_manifest iv (en_chunkSize e))
    (src_of pt) ctx 0 0 [] false None.

Definition chunked_stored (e : engine) (h : gomap) (w : encReader) (out : EncOut) (stored : gomap) : Prop :=
  (out = EncStream w ∧ stored = CompactMetadata (en_compactor e) h) ∨
  (∃ hdr h', checkedLengthPrefix (len (json_marshal_map h)) = Ok hdr ∧ len (json_marshal_map h) ≤ MaxFallbackPrefixBytes - 4 ∧
     marked h h' ∧ out = EncPrefixed [hdr; json_marshal_map h] w ∧ stored = CompactMetadata (en_compactor e) h').

Lemma chunkedFallback_run e w h out stored :
  clean h → chunkedFallbackFromFinal e w h = Ok (out, stored) → chunked_stored e h w out stored.
Proof using.
  intros Hc Hr. unfold chunkedFallbackFromFinal in Hr. destruct (Z.ltb_spec (MaxFallbackPrefixBytes - 4) (len (json_marshal_map h))); [done|].
  apply bind_Ok in Hr as (hdr & Hhdr & Hr). apply bind_Ok in Hr as (compacted & Hsh & Hr). simplify_eq.
  eapply shrink_marked in Hsh as (h2 & Hm & ->); [|apply Forall_forall|by apply marked_start].
  - right. exists hdr, h2. split_and!; [done|lia|done|done|done].
  - intros k Hk. apply list_elem_of_fmap in Hk as (kv & -> & Hk). rewrite merge_sort_Permutation in Hk.
    apply list_elem_of_filter in Hk as [Ho _]. unfold ordinary. by destruct (ordinaryKey kv.1).
Qed.

Lemma encryptChunked_run ctx e object pt md st out stored st' :
  state_ok st → fold_distinct md → ascii_map md →
  encryptChunked ctx e object (src_of pt) md st = (Ok (out, stored), st') →
  ∃ salt iv bid key envelope full h aead,
    chunked_write e object md st' salt iv bid key envelope full h aead ∧
    chunked_stored e h (chunked_body ctx e object pt iv bid key aead) out stored.
Proof using All.
  intros Hst Hd Ha Hr. unfold encryptChunked in Hr.
  step_run Hr as bid st0 Hs0. apply newBinding_run in Hs0 as [Hbl Hk0].
  step_run Hr as salt st1 Hs1. apply wrapM_Ok, generateSalt_run in Hs1.
  step_run Hr as iv st2 Hs2. apply wrapM_Ok, generateNonce_run in Hs2 as (Hnl & Hk2 & Hal).
  step_run Hr as kem st3 Hs3. destruct kem as [[key envelope] md']. rewrite keySizeFor_32 in Hs3.
  apply newDataKey_run in Hs3 as (Hkl & Hh & Hs & Hsc & _); [|unfold state_ok; by rewrite Hk2, Hs1, Hk0].
  step_run Hr as aead st4 Hs4. apply lift_run in Hs4 as [Haead%wrapErr_Ok ->].
  step_run Hr as terminal st5 Hs5. apply lift_run in Hs5 as [Ht%wrapErr_Ok%newAESGCM_Ok ->]. subst terminal.
  step_run Hr as wm st6 Hs6. apply lift_run in Hs6 as [Hw ->]. destruct wm as [w manifest].
  apply newEncBound_Ok_inv in Hw as (Hv & _ & -> & ->). fold (chunked_body ctx e object pt iv bid key aead) in Hr. cbv zeta in Hr.
  set (man := encodeManifest (writer_manifest iv (en_chunkSize e))) in *.
  set (full := chunkedMetadata e md md' bid salt iv man envelope) in *.
  assert (Hea : envelope_ascii envelope) by (destruct envelope; [apply Hs|done]).
  pose proof (same_caller_ascii md md' Hsc Ha) as Ha'.
  pose proof (chunked_ext e md md' bid salt iv man envelope Hd Ha Hea Hal (encodeBase64_ascii _) Hsc Ha') as Hx. fold full in Hx.
  destruct (ext_good _ _ (caller_good md Hd Ha) Hx) as [Hg Hf].
  destruct (chunked_fields e md md' bid salt iv man envelope Hd Ha Hal Hsc) as [Hfl Henv]. fold full in Hfl, Henv.
  rewrite !Forall_cons in Hfl. cbn [fst snd] in Hfl. destruct Hfl as (F1 & F2 & F3 & F4 & F5 & F6 & F7 & F8 & F9 & F10 & _).
  step_run Hr as h st7 Hs7. apply sealChunked_run in Hs7 as (Hk7 & Hcar & Hgh & Hblob); [|done|done].
  assert (Hcw : st' = st7 → chunked_write e object md st' salt iv bid key envelope full h aead).
  { intros ->. split; try done.
    - by eapply holds_same.
    - intros n Hn. rewrite Hf by done. by apply caller_foreign.
    - split; [done..|]. split; [done|]. destruct envelope as [env|]; [|done]. by apply Henv.
    - intros k Hk. by apply chunked_absent. }
  exists salt, iv, bid, key, envelope, full, h, aead. cbv zeta in Hr. case_match.
  - apply lift_run in Hr as [Hr ->]. split; [by apply Hcw|]. apply chunkedFallback_run; [apply Hgh|done].
  - apply mret_run in Hr as [[= <- <-] ->]. split; [by apply Hcw|by left].
Qed.

(** ** Reading the stored forms *)

(** The body [C] stored with [stored] is read back to [pt] with the ordinary
    entries of [md], unless the key manager does not answer. *)
Definition reads_back (ctx : Ctx) (e : engine) (object : ObjectContext) (C : list byte) (stored : gomap) (st : EngineState K)
    (pt : list byte) (md : gomap) : Prop :=
  answers (Decrypt ctx e object (src_of C) stored st)
    (λ r, sr_rem r.1 pt EOF ∧ ∀ n, ordinary n → metadataValue r.2 n = metadataValue md n).

Lemma Decrypt_opens ctx e object s full h stored st m :
  Validate object = Ok tt → known_strategy (en_compactor e) → carries e full h → CompactMetadata (en_compactor e) h ≡ₚ stored →
  openHeader e (expandMetadataForCrypto stored) = Ok m →
  Decrypt ctx e object s stored st = decryptOpened ctx e object s m (has_blob (expandMetadataForCrypto stored)) st.
Proof using.
  intros Hv Hp Hcar Hperm Hopen. unfold Decrypt. rewrite Hv, bind_lift.
  unfold IsEncrypted. rewrite (carries_encrypted e full h (en_compactor e) stored Hp Hcar Hperm). cbn [negb].
  by rewrite Hopen, bind_lift.
Qed.

(** The fields of recovered metadata. *)
Lemma recovers_field e full m k :
  recovers e full m → bool_decide (k ∈ fieldNames) = true → mget m k = mget full k.
Proof using. intros (_ & Hg & _) (s & Ha & Hb & _ & <-)%bool_decide_eq_true%fieldName_spec. by apply Hg. Qed.

Lemma recovers_fields e full m algorithm salt nonce bid envelope :
  recovers e full m → cipher_fields e full algorithm salt nonce bid envelope → cipher_fields e m algorithm salt nonce bid envelope.
Proof using. intros Hr. apply fields_transfer. intros k Hk. apply (recovers_field e full m k Hr). by apply bool_decide_eq_true. Qed.

Lemma not_fallback m : mget m MetaFallbackMode = "" → isFallbackMode m = false.
Proof using. unfold isFallbackMode, mget. destruct (map_lookup m MetaFallbackMode); intros E; apply bool_decide_eq_false; naive_solver. Qed.
Lemma is_fallback m : mget m MetaFallbackMode = "true" → isFallbackMode m = true.
Proof using. unfold isFallbackMode, mget. destruct (map_lookup m MetaFallbackMode); intros E; apply bool_decide_eq_true; naive_solver. Qed.
Lemma absent_mget m k : map_lookup m k = None → mget m k = "".
Proof using. unfold mget. by intros ->. Qed.

Lemma header_absent e full h k :
  carries e full h → blob_of e full h → k ∈ fieldNames → map_lookup full k = None → mget h k = "".
Proof using.
  intros (_ & _ & _ & Hx) Hb Hk Hn. destruct (fieldName_spec k Hk) as (s & Ha & Hne & _ & Es). destruct (en_metadataKey e) as [mk|] eqn:Hmk.
  - destruct (blob_fields e mk full h Hmk Hb) as (dm & Hdec & Hl), Hx as (dm' & _ & Hdec' & _ & _ & Hv). assert (dm' = dm) as -> by congruence.
    specialize (Hv s Ha Hne). rewrite Es, (Hl k Hk), Hn in Hv. cbn in Hv. rewrite Hv. by apply absent_mget.
  - specialize (Hx s Ha). rewrite Es in Hx. rewrite Hx. by apply absent_mget.
Qed.

Lemma version_not_3 e full h ex :
  carries e full h → blob_of e full h → map_lookup full MetaFallbackVersion = None → reads_like h ex → mget ex MetaFallbackVersion ≠ "3".
Proof using.
  intros Hc Hb Hn (_ & Hg & _). assert (Hk : MetaFallbackVersion ∈ fieldNames) by (apply (bool_decide_unpack _); reflexivity).
  destruct (fieldName_spec _ Hk) as (s & Ha & _ & _ & Es). rewrite <-Es, Hg, Es by done. by rewrite (header_absent e full h).
Qed.

(** [Decrypt] of a buffered object, whatever the body. *)
Lemma Decrypt_buffered e object pt md st stored salt nonce bid key envelope full h gcm aad :
  known_strategy (en_compactor e) → Validate object = Ok tt →
  buffered_write e object pt md st salt nonce bid key envelope full h gcm aad → CompactMetadata (en_compactor e) h ≡ₚ stored →
  ∃ m, recovers e full m ∧ ∀ ctx s st', Decrypt ctx e object s stored st' = decryptBuffered e object s m st'.
Proof using All.
  intros Hp Hv [] Hperm. destruct bw_marked0 as (M1 & M2 & M3), bw_absent0 as [A1 A2].
  pose proof (expand_reads_like h (en_compactor e) stored Hp (good_clean _ bw_headers0) Hperm) as Hrl.
  destruct (openHeader_recovers e full h _ bw_carries0 Hrl M1 (version_not_3 e full h _ bw_carries0 bw_blob0 A2 Hrl)) as (m & Hopen & Hrec).
  assert (Hm : ∀ k, bool_decide (k ∈ fieldNames) = true → mget m k = mget full k) by (intros k; by apply (recovers_field e)).
  exists m. split; [done|]. intros ctx s st'. rewrite (Decrypt_opens ctx e object s full h stored st' m Hv Hp bw_carries0 Hperm Hopen).
  unfold decryptOpened. rewrite not_fallback by (rewrite Hm by reflexivity; by apply absent_mget).
  rewrite Hm, M2 by reflexivity. rewrite decide_False by naive_solver. unfold IsChunkedFormat. rewrite (Hm MetaChunkedFormat), M3 by reflexivity.
  rewrite decide_True, bool_decide_eq_false_2 by done.
  rewrite Hm, (cf_bid _ _ _ _ _ _ _ bw_fields0), parseBinding by (done || reflexivity). by rewrite bind_lift.
Qed.

Lemma reads_buffered ctx e object pt md st st' stored salt nonce bid key envelope full h gcm aad :
  names_keys K → known_strategy (en_compactor e) → usable e (en_preferredAlgorithm e) → Validate object = Ok tt →
  buffered_write e object pt md st salt nonce bid key envelope full h gcm aad → later st st' →
  CompactMetadata (en_compactor e) h ≡ₚ stored →
  reads_back ctx e object (Seal gcm nonce pt aad) stored st' pt md.
Proof using All.
  intros Hn Hp Hus Hv Hw Hlater Hperm. destruct (Decrypt_buffered _ _ _ _ _ _ _ _ _ _ _ _ _ _ _ Hp Hv Hw Hperm) as (m & Hrec & Hdec).
  destruct Hw. unfold reads_back. rewrite Hdec.
  pose proof (decryptBuffered_reads e object m st' salt nonce bid envelope key gcm aad pt Hn (holds_later _ _ _ _ _ _ bw_holds0 Hlater)
    bw_storable0 (recovers_fields e full m _ _ _ _ _ Hrec bw_fields0)) as Hread. rewrite (recovers_field e full m _ Hrec) in Hread by reflexivity.
  specialize (Hread (proj1 (proj2 bw_marked0)) Hus bw_nonce0 bw_bid0 bw_cipher0 bw_aad0).
  destruct Hread as [(r & st2 & Er & Hr)|Herr]; [left|by right]. eexists _, _. split; [exact Er|]. subst r. split; [done|].
  intros n Hno. cbn [snd]. destruct Hrec as (Hcm & _ & Hf & _). rewrite bufferedView_ordinary by (apply Hcm || done).
  rewrite Hf, bw_foreign0 by (by apply ordinary_foreign). done.
Qed.

Lemma cipher_ascii algorithm key a : createAEADCipher tag_fips algorithm key = Ok a → ascii_string algorithm = true.
Proof using. unfold createAEADCipher. repeat case_decide; intros; simplify_eq; vm_compute; reflexivity. Qed.

Lemma Decrypt_buffered_fallback e object pt md st stored salt nonce bid key envelope full h gcm aad :
  known_strategy (en_compactor e) → Validate object = Ok tt →
  buffered_write e object pt md st salt nonce bid key envelope full h gcm aad →
  CompactMetadata (en_compactor e) (minimalFallbackMetadata e h (len pt) (computeETag pt) bid salt nonce envelope) ≡ₚ stored →
  ∃ m, cipher_fields e m (en_preferredAlgorithm e) salt nonce bid envelope ∧
    ∀ ctx s st', Decrypt ctx e object s stored st' = decryptFallbackBound e object s m st'.
Proof using All.
  intros Hp Hv [] Hperm. destruct bw_marked0 as (M1 & M2 & M3), bw_absent0 as [A1 A2].
  set (m0 := minimalFallbackMetadata e h (len pt) (computeETag pt) bid salt nonce envelope) in *.
  destruct (minimal_fields e h (len pt) (computeETag pt) bid salt nonce envelope) as (Hcf0 & N1 & N2 & N3 & N4 & N5). fold m0 in Hcf0, N1, N2, N3, N4, N5.
  assert (Hea : envelope_ascii envelope) by (destruct envelope; [apply bw_storable0|done]).
  assert (Hg0 : good m0) by (apply minimal_good; [by eapply cipher_ascii|apply hex_ascii|done|done]).
  destruct (carries_opened e full h m0 bw_carries0 (good_clean _ Hg0)) as [Hcar0 _].
  { intros k [->|[->|?%elem_of_nil]%elem_of_cons]%elem_of_cons; [|done|done]. rewrite N1. symmetry. apply bw_carries0. }
  pose proof (expand_reads_like m0 (en_compactor e) stored Hp (good_clean _ Hg0) Hperm) as Hrl.
  destruct (openHeader_bound e full h m0 _ _ _ _ _ _ bw_carries0 Hrl bw_blob0 bw_fields0 M2 A1 A2 Hcf0 N2 N3 N4 N5)
    as (m & Hopen & Hcf & O1 & O2 & O3).
  exists m. split; [done|]. intros ctx s st'. rewrite (Decrypt_opens ctx e object s _ m0 stored st' m Hv Hp Hcar0 Hperm Hopen).
  unfold decryptOpened. rewrite is_fallback, O2, O3 by done. rewrite (decide_False (P := _ ≠ _)) by naive_solver.
  rewrite (decide_True (P := "3" = "3")), (cf_bid _ _ _ _ _ _ _ Hcf), parseBinding, bind_lift by done.
  rewrite decide_False by done. unfold decryptWithMetadataFallback. rewrite O2, O3, (decide_False (P := _ ≠ _)) by naive_solver.
  by rewrite (decide_True (P := "3" = "3")) by done.
Qed.

Lemma reads_buffered_fallback ctx e object pt md st st' stored salt nonce bid key envelope full h gcm aad hdr :
  names_keys K → known_strategy (en_compactor e) → Validate object = Ok tt →
  buffered_write e object pt md st salt nonce bid key envelope full h gcm aad → later st st' →
  checkedLengthPrefix (len (json_marshal_map h)) = Ok hdr → 4 + len (json_marshal_map h) + len pt ≤ MaxInt64 →
  CompactMetadata (en_compactor e) (minimalFallbackMetadata e h (len pt) (computeETag pt) bid salt nonce envelope) ≡ₚ stored →
  reads_back ctx e object (Seal gcm nonce (hdr ++ json_marshal_map h ++ pt) aad) stored st' pt md.
Proof using All.
  intros Hn Hp Hv Hw Hlater Hhdr Hfit Hperm.
  destruct (Decrypt_buffered_fallback _ _ _ _ _ _ _ _ _ _ _ _ _ _ _ Hp Hv Hw Hperm) as (m & Hcf & Hdec). destruct Hw. unfold reads_back. rewrite Hdec.
  pose proof (decryptFallbackBound_reads e object m st' salt nonce bid envelope key gcm aad h hdr pt Hn
    (holds_later _ _ _ _ _ _ bw_holds0 Hlater) bw_storable0 Hcf bw_headers0 bw_nonce0 bw_bid0 bw_cipher0 bw_aad0 Hhdr Hfit) as Hread.
  destruct Hread as [([o v] & st2 & Er & Hr & Hview)|Herr]; [left|by right]. cbn [fst snd] in Hr, Hview. subst o.
  eexists _, _. split; [exact Er|]. split; [done|]. intros n Hno. cbn [snd]. rewrite Hview by done.
  destruct bw_carries0 as (_ & _ & Hf & _). rewrite Hf, bw_foreign0 by (by apply ordinary_foreign). done.
Qed.

Definition chunked_object (e : engine) (object : ObjectContext) (pt iv bid key : list byte) (aead : AEAD) : list byte :=
  sealed_object (writer_params aead (aes_gcm key) iv (en_chunkSize e) object bid) pt.

(** With any manager that holds the key; the metadata is the view of the opened headers. *)
Lemma chunked_opened ctx e object pt md st st' stored salt iv bid key envelope full h aead :
  known_strategy (en_compactor e) → usable e (en_preferredAlgorithm e) → live ctx →
  ctsize (len pt) (clampChunkSize (en_chunkSize e)) ChunkedFormatV2 ≤ MaxInt64 →
  chunked_write e object md st salt iv bid key envelope full h aead → holds_key e st' salt envelope key →
  CompactMetadata (en_compactor e) h ≡ₚ stored →
  answers (Decrypt ctx e object (src_of (chunked_object e object pt iv bid key aead)) stored st')
    (λ r, sr_rem r.1 pt EOF ∧ ∃ m, openHeader e (expandMetadataForCrypto stored) = Ok m ∧ recovers e full m ∧ r.2 = chunkedView m).
Proof using All.
  intros Hp Hus Hctx Hfit [] Hheld Hperm. destruct cw_marked0 as (M1 & M2 & M3).
  pose proof (expand_reads_like h (en_compactor e) stored Hp (good_clean _ cw_headers0) Hperm) as Hrl.
  destruct (openHeader_recovers e full h _ cw_carries0 Hrl M1
    (version_not_3 e full h _ cw_carries0 cw_blob0 (cw_absent0 _ ltac:(by right; left)) Hrl)) as (m & Hopen & Hrec).
  assert (Hm : ∀ k, bool_decide (k ∈ fieldNames) = true → mget m k = mget full k) by (intros k; by apply (recovers_field e)).
  rewrite (Decrypt_opens ctx e object _ full h stored st' m cw_object0 Hp cw_carries0 Hperm Hopen).
  unfold decryptOpened. rewrite not_fallback by (rewrite Hm by reflexivity; apply absent_mget, cw_absent0; by left).
  rewrite Hm, M2 by reflexivity. rewrite decide_False by naive_solver. unfold IsChunkedFormat. rewrite (Hm MetaChunkedFormat), M3 by reflexivity.
  rewrite decide_False, decide_True, bool_decide_eq_true_2 by done. cbn [negb]. eapply answers_lift.
  { rewrite Hm, (cf_bid _ _ _ _ _ _ _ cw_fields0) by reflexivity. by apply parseBinding. }
  assert (Hman : mget m MetaManifest = encodeManifest (writer_manifest iv (en_chunkSize e))) by (by rewrite Hm by reflexivity).
  eapply answers_lift; [unfold ChunkedFormatVersion; by rewrite (manifest_stored m iv _ Hman)|].
  pose proof (decryptChunked_reads ctx e object m st' salt iv bid envelope key aead (en_chunkSize e) pt
    Hheld cw_storable0 (recovers_fields e full m _ _ _ _ _ Hrec cw_fields0)) as Hread.
  rewrite (Hm MetaObjectFormatVersion) in Hread by reflexivity. pose proof Hrec as (Hcm & _ & Hf & Hob).
  specialize (Hread M2 Hman Hob Hus cw_object0 cw_bid0 Hfit Hctx cw_cipher0).
  destruct Hread as [([o v] & st2 & Er & Hr & Hw)|Herr]; [left|by right]. cbn [snd] in Hw. subst v.
  eexists _, _. split; [exact Er|]. split; [exact Hr|]. eauto.
Qed.

Lemma reads_chunked ctx e object pt md st st' stored salt iv bid key envelope full h aead :
  known_strategy (en_compactor e) → usable e (en_preferredAlgorithm e) → live ctx →
  ctsize (len pt) (clampChunkSize (en_chunkSize e)) ChunkedFormatV2 ≤ MaxInt64 →
  chunked_write e object md st salt iv bid key envelope full h aead → later st st' →
  CompactMetadata (en_compactor e) h ≡ₚ stored →
  reads_back ctx e object (chunked_object e object pt iv bid key aead) stored st' pt md.
Proof using All.
  intros Hp Hus Hctx Hfit Hw Hlater Hperm. pose proof (holds_later _ _ _ _ _ _ (cw_holds _ _ _ _ _ _ _ _ _ _ _ _ Hw) Hlater) as Hheld.
  destruct (chunked_opened ctx e object pt md st st' stored _ _ _ _ _ _ _ _ Hp Hus Hctx Hfit Hw Hheld Hperm)
    as [([o v] & st2 & Er & Hr & m & _ & (Hcm & _ & Hf & _) & Hv)|Herr]; [left|by right]. cbn [fst snd] in *. subst v.
  eexists _, _. split; [exact Er|]. split; [exact Hr|]. intros n Hno. cbn [snd]. rewrite chunkedView_ordinary by (apply Hcm || done).
  rewrite Hf, (cw_foreign _ _ _ _ _ _ _ _ _ _ _ _ Hw) by (by apply ordinary_foreign). done.
Qed.

Lemma reads_chunked_fallback ctx e object pt md st st' stored salt iv bid key envelope full h aead hdr h' :
  known_strategy (en_compactor e) → usable e (en_preferredAlgorithm e) → live ctx →
  ctsize (len pt) (clampChunkSize (en_chunkSize e)) ChunkedFormatV2 ≤ MaxInt64 →
  chunked_write e object md st salt iv bid key envelope full h aead → later st st' →
  checkedLengthPrefix (len (json_marshal_map h)) = Ok hdr → len (json_marshal_map h) ≤ MaxFallbackPrefixBytes - 4 →
  marked h h' → CompactMetadata (en_compactor e) h' ≡ₚ stored →
  reads_back ctx e object (hdr ++ json_marshal_map h ++ chunked_object e object pt iv bid key aead) stored st' pt md.
Proof using All.
  intros Hp Hus Hctx Hfit [] Hlater Hhdr Hlen Hmk Hperm. destruct cw_marked0 as (M1 & M2 & M3).
  pose proof (expand_reads_like h' (en_compactor e) stored Hp (mk_clean _ _ Hmk) Hperm) as Hrl.
  destruct (opened_marked e full h h' _ cw_carries0 cw_blob0 M1 (λ k Hk, cw_absent0 k (unset_markers k Hk)) Hmk Hrl) as (m & Hopen & Hrec & Hm & O1 & O2 & Hhb & Hf).
  destruct (carries_opened e full h h' cw_carries0 (mk_clean _ _ Hmk)) as [Hcar0 _].
  { intros k [->|[->|?%elem_of_nil]%elem_of_cons]%elem_of_cons; [..|done];
      (rewrite (mk_fields _ _ Hmk) by (vm_compute; reflexivity); by rewrite !mget_set, !decide_False by done). }
  assert (Hm' : ∀ k, bool_decide (k ∈ fieldNames ∧ k ∉ [MetaFallbackMode; MetaFallbackVersion]) = true → mget m k = mget full k)
    by (intros k [? ?]%bool_decide_eq_true; by apply Hm).
  unfold reads_back. rewrite (Decrypt_opens ctx e object _ _ h' stored st' m cw_object0 Hp Hcar0 Hperm Hopen).
  unfold decryptOpened. rewrite is_fallback, O2 by done. rewrite (decide_False (P := "2" = "3")), decide_True by done.
  eapply answers_lift; [done|].
  assert (Hcf : cipher_fields e m (en_preferredAlgorithm e) salt iv bid envelope).
  { destruct cw_fields0 as [? ? ? ? [? Hk]]. split; [by rewrite Hm' by reflexivity..|]. split; [by rewrite Hm' by reflexivity|].
    destruct envelope; [|done]. by rewrite !Hm' by reflexivity. }
  pose proof (decryptFallbackV2_reads ctx e object m st' salt iv bid envelope key aead (en_chunkSize e) h hdr pt
    (has_blob (expandMetadataForCrypto stored)) (holds_later _ _ _ _ _ _ cw_holds0 Hlater) cw_storable0 Hcf) as Hread.
  rewrite !Hm' in Hread by reflexivity. pose proof Hrec as (Hcm & _).
  assert (Hcase : (en_metadataKey e = None ∧ ∀ k, k ∈ fieldNames → k ∉ [MetaFallbackMode; MetaFallbackVersion] → mget h k = mget m k) ∨
    (has_blob (expandMetadataForCrypto stored) = true ∧ mget m MetaEncryptedMetadata = "")).
  { destruct (en_metadataKey e) eqn:Hk; [right; split; [by apply Hhb|eapply recovers_no_blob; [|exact Hrec]; by rewrite Hk]|].
    left. split; [done|]. intros k Hin Hnk. rewrite Hm by done. destruct (fieldName_spec k Hin) as (s & Ha & _ & _ & <-).
    destruct cw_carries0 as (_ & _ & _ & Hx). rewrite Hk in Hx. by apply Hx. }
  specialize (Hread M2 cw_manifest0 Hcm cw_headers0 Hcase Hus cw_object0 cw_bid0 Hfit Hctx cw_cipher0 Hlen Hhdr).
  destruct Hread as [([o v] & st2 & Er & Hr & Hw)|Herr]; [left|by right].
  eexists _, _. split; [exact Er|]. split; [exact Hr|]. intros n Hno. rewrite Hw by done. rewrite Hf by (by apply ordinary_foreign).
  destruct cw_carries0 as (_ & _ & Hfh & _). rewrite <-cw_foreign0, <-Hfh by (by apply ordinary_foreign).
  destruct (mk_ordinary _ _ Hmk n Hno) as [->| ->]; [|done]. by destruct (metadataValue h n).
Qed.
End runs.
