(* ===== verification/EngineRoundTrip.v ===== *)
(** * Theorems about the engine

    Which key managers an engine can use, and the round trip of [Encrypt] and
    [Decrypt] over the buffered and the chunked mode, with metadata in the
    headers or in the body, in the clear or sealed. *)
From S2P Require Import Prelude GoStd GoIO Primitives ObjectAAD ChunkLayout ChunkRecord ChunkedStream ChunkedCorrect ChunkedTheorems.
From S2P Require Import KeyManager MemoryKeyManager Rotation Metadata ObjectFormat ObjectMeta Kdf PasswordKeyManager.
From S2P Require Import Engine EngineRead EngineMeta EngineSeal EngineFields EngineCorrect EngineBodies EngineHeaders EngineTheorems.
Local Open Scope Z_scope.
#[local] Arguments ToLower : simpl never.
#[local] Arguments EqualFold : simpl never.
#[local] Arguments FormatInt : simpl never.
#[local] Arguments bytes_of_string : simpl never.
#[local] Arguments ascii_string : simpl never.
#[local] Arguments Validate : simpl never.
#[local] Opaque metaKeyRegistry LookupMetaKey.

(** ** Managers *)

Section memory.
Context `{AESBlock} `{!AESBlockLaws} `{MapOrder}.

Lemma memory_envelope dek md (m : inMemoryKeyManager) w env m' w' :
  length dek = 32%nat → WrapKey dek md m w = (Ok env, m', w') →
  KeyID env = "memory-v" +:+ FormatInt (im_activeVersion m) ∧ KeyVersion env = im_activeVersion m ∧
  env_Provider env = im_providerName m ∧ len (env_Ciphertext env) = 40.
Proof using All.
  intros Hl Hw. cbn in Hw. unfold memory_WrapKey in Hw. destruct (ctx_err w) as [[e|] w0]; [done|]. case_bool_decide; [done|].
  destruct (im_closed m); [done|]. destruct (im_keys m !! im_activeVersion m) as [key|]; [|done].
  destruct (aesKeyWrap key dek) as [c|e] eqn:Ew; [|done]. destruct (time_now w0) as [t w1]. simplify_eq. cbn. split_and!; [done..|].
  assert (Hs : aes_key_size key = true) by (unfold aesKeyWrap in Ew; by destruct (aes_key_size key)).
  destruct (aesKeyUnwrap_wrap key Hs dek) as (c' & Ew' & Hlc & Hu). rewrite Ew' in Ew. injection Ew as ->.
  rewrite (proj2 (padKey_id dek)) in Hlc by (rewrite Hl; done). lia.
Qed.

(** The provider's name is ASCII text. *)
#[export] Program Instance memory_storable : StorableEnvelopes inMemoryKeyManager := {|
  storing m := im_activeVersion m ≤ MaxInt64 ∧ im_providerName m ≠ "" ∧ ascii_string (im_providerName m) = true |}.
Next Obligation.
  intros dek md m w env m' w' Hl Hi (Hv & _ & Ha) Hw. destruct (memory_envelope dek md m w env m' w' Hl Hw) as (E1 & -> & E3 & E4).
  cbn in Hi. split_and!; [lia|lia|intros E; by rewrite E in E4|]. unfold envelope_ascii. rewrite E1, E3, ascii_app, FormatInt_ascii, Ha.
  vm_compute. reflexivity.
Qed.
Next Obligation. done. Qed.

Lemma memory_names : names_keys inMemoryKeyManager.
Proof using All.
  intros dek md m w env m' w' Hl Hi (Hv & Hp & _) Hw. destruct (memory_envelope dek md m w env m' w' Hl Hw) as (E1 & E2 & E3 & E4).
  cbn in Hi. unfold named. rewrite E1, E2, E3, E4. split_and!; [done|done|done|lia|lia].
Qed.
End memory.

Section password.
Context `{PasswordKDFLaws, BuildTags, CiphersLaws}.

Lemma password_envelope dek md (m : passwordKeyManager) w env m' w' :
  WrapKey dek md m w = (Ok env, m', w') → KeyID env = "" ∧ KeyVersion env = 1 ∧ env_Provider env = passwordKMProvider ∧ env_Ciphertext env ≠ [].
Proof using.
  intros Hw. cbn in Hw. unfold password_WrapKey in Hw. repeat case_match; simplify_eq. cbn. split_and!; done.
Qed.

#[export] Program Instance password_storable : StorableEnvelopes passwordKeyManager := {| storing _ := True |}.
Next Obligation.
  intros dek md m w env m' w' _ _ _ Hw. destruct (password_envelope dek md m w env m' w' Hw) as (E1 & -> & E3 & E4).
  split_and!; [done|done|done|]. unfold envelope_ascii. rewrite E1, E3. vm_compute. reflexivity.
Qed.
Next Obligation. done. Qed.
End password.

(** ** The round trip *)

Section roundtrip.
Context `{CiphersLaws, HKDFLaws, SHA256, MD5, PasswordKDFLaws, BuildTags, ManifestJSONLaws, MapJSONLaws}.
Context `{StorableEnvelopes K}.

End roundtrip.

(** ** Buffered objects under a password manager *)

Section unreadable.
Context `{CiphersLaws, HKDFLaws, SHA256, MD5, PasswordKDFLaws, BuildTags, ManifestJSONLaws, MapJSONLaws}.

Definition fails {K A} (x : result A * EngineState K) : Prop := ∃ err st', x = (Err err, st').

Lemma fails_bind {K A B} (m : M K A) (f : A → M K B) st :
  (∀ a st', m st = (Ok a, st') → fails (f a st')) → fails ((m ≫= f) st).
Proof using.
  intros Hf. unfold mbind, M_bind. destruct (m st) as [[a|err] st'] eqn:E; [by apply Hf|by eexists _, _].
Qed.

Lemma fails_lift {K A B} (r : result A) (f : A → M K B) st : (∀ a, r = Ok a → fails (f a st)) → fails ((lift r ≫= f) st).
Proof using. intros Hf. apply fails_bind. intros a st' [-> ->]%lift_run. by apply Hf. Qed.

Lemma fails_throw {K A} err (st : EngineState K) : fails (throw (A := A) err st).
Proof using. by eexists _, _. Qed.

(** No envelope without a key id is unwrapped for a buffered object. *)
Lemma bufferedKey_unnamed e m (st : EngineState passwordKeyManager) salt n :
  es_km st ≠ None → mget m MetaWrappedKeyCiphertext ≠ "" → mget m MetaKMSKeyID = "" → fails (bufferedKey e m salt n st).
Proof using.
  intros Hkm Hw Hid. unfold bufferedKey. change ((getKeyManager ≫= ?f) st) with (f (es_km st) st). cbv beta.
  rewrite decide_True by (split; [by destruct (es_km st)|done]). apply fails_lift. intros c Hc. cbv zeta.
  rewrite decide_True by done. apply fails_throw.
Qed.

Lemma fallbackBoundKey_unnamed e m (st : EngineState passwordKeyManager) salt :
  es_km st ≠ None → mget m MetaKMSKeyID = "" → fails (fallbackBoundKey e m salt st).
Proof using.
  intros Hkm Hid. unfold fallbackBoundKey. change ((getKeyManager ≫= ?f) st) with (f (es_km st) st). cbv beta.
  destruct (es_km st); [|done]. rewrite decide_True by auto. apply fails_throw.
Qed.

(** C39: in buffered mode the engine cannot read what it wrote under a password
    key manager. Such a manager leaves the key id of its envelopes empty, and
    the readers of both buffered forms demand one: whatever [Encrypt] stored,
    every [Decrypt] with those headers through a password key manager fails,
    for every body. *)
Theorem password_buffered_unreadable ctx e object pt md (st : EngineState passwordKeyManager) out stored st1 :
  en_chunkedMode e = false → es_km st ≠ None → known_strategy (en_compactor e) → fold_distinct md → ascii_map md →
  Encrypt ctx e object (src_of pt) md st = (Ok (out, stored), st1) →
  ∀ ctx' body stored' (st2 : EngineState passwordKeyManager), stored ≡ₚ stored' → es_km st2 ≠ None → fails (Decrypt ctx' e object body stored' st2).
Proof using All.
  intros Hmode Hkm Hp Hd Ha Hr ctx' body stored' st2 Hperm Hkm2. unfold Encrypt in Hr. rewrite Hmode in Hr.
  step_run Hr as u st0 Hs0. apply lift_run in Hs0 as [Hv ->]. destruct u.
  assert (Hst : state_ok st) by (unfold state_ok; by destruct (es_km st)).
  destruct (encryptBuffered_run e object pt md st out stored st1 Hst Hd Ha Hr)
    as (salt & nonce & bid & key & envelope & full & h & gcm & aad & Hw & Hs & Hnone).
  destruct envelope as [env|].
  2: { destruct Hkm, Hw as [_ _ _ Hh]. apply Hnone. unfold holds_key in Hh. by destruct (es_km st1). }
  pose proof (bw_storable _ _ _ _ _ _ _ _ _ _ _ _ _ _ Hw) as (_ & Hct & _ & _ & dek & md0 & k & w & k' & w' & Hwrap).
  destruct (password_envelope dek md0 k w env k' w' Hwrap) as (Hid & _).
  assert (Hkf : ∀ m, cipher_fields e m (en_preferredAlgorithm e) salt nonce bid (Some env) →
    mget m MetaKMSKeyID = "" ∧ mget m MetaWrappedKeyCiphertext ≠ "").
  { intros m [_ _ _ _ (_ & _ & -> & _ & ->)]. split; [done|by apply decode_nonempty]. }
  destruct Hs as [[-> ->]|(hdr & Hhdr & Hfit & -> & ->)].
  - destruct (Decrypt_buffered _ _ _ _ _ _ _ _ _ _ _ _ _ _ _ Hp Hv Hw Hperm) as (m & Hrec & ->).
    destruct (Hkf m (recovers_fields e full m _ _ _ _ _ Hrec (bw_fields _ _ _ _ _ _ _ _ _ _ _ _ _ _ Hw))) as [H1' H2'].
    unfold decryptBuffered. do 2 (apply fails_lift; intros ? _). case_match; [apply fails_throw|]. apply fails_bind. intros key' st' Hk.
    destruct (bufferedKey_unnamed e m st2 a (keySizeFor (storedAlgorithm m)) Hkm2 H2' H1') as (err & st3 & E). congruence.
  - destruct (Decrypt_buffered_fallback _ _ _ _ _ _ _ _ _ _ _ _ _ _ _ Hp Hv Hw Hperm) as (m & Hcf & ->).
    destruct (Hkf m Hcf) as [H1' H2'].
    unfold decryptFallbackBound. do 3 (apply fails_lift; intros ? _). apply fails_bind. intros key' st' Hk.
    destruct (fallbackBoundKey_unnamed e m st2 a0 Hkm2 H1') as (err & st3 & E). congruence.
Qed.
End unreadable.

(** ** The theorems at concrete inputs *)

(** A self-delimiting encoding, as a stand-in for JSON. *)
Module ToyJSON.
Definition put_byte (b : byte) : list byte := if decide (b = x00 ∨ b = x01) then [x01; b] else [b].
Definition put_string (s : string) : list byte := (bytes_of_string s ≫= put_byte) ++ [x00].
Fixpoint get_bytes (l : list byte) : option (list byte * list byte) :=
  match l with
  | [] => None
  | b :: rest =>
      if decide (b = x00) then Some ([], rest)
      else if decide (b = x01) then
        match rest with b :: rest => '(bs, rest) ← get_bytes rest; Some (b :: bs, rest) | [] => None end
      else '(bs, rest) ← get_bytes rest; Some (b :: bs, rest)
  end.
Definition get_string (l : list byte) : option (string * list byte) :=
  '(bs, rest) ← get_bytes l; Some (string_of_bytes bs, rest).

Lemma get_put s rest : get_string (put_string s ++ rest) = Some (s, rest).
Proof.
  unfold get_string, put_string. assert (Hb : ∀ bs, get_bytes (((bs ≫= put_byte) ++ [x00]) ++ rest) = Some (bs, rest)).
  { intros bs. induction bs as [|b bs IH]; [done|]. cbn [mbind list_bind]. unfold put_byte at 1.
    case_decide as Hb; cbn [app get_bytes]; [by rewrite IH|]. rewrite !decide_False by naive_solver. by rewrite IH. }
  rewrite Hb. cbn. by rewrite string_of_bytes_of_string.
Qed.

Definition put_map (m : gomap) : list byte := (m ≫= λ kv, x01 :: put_string kv.1 ++ put_string kv.2) ++ [x00].
Fixpoint get_map (fuel : nat) (l : list byte) : option gomap :=
  match fuel, l with
  | S fuel, x01 :: l => '(k, l) ← get_string l; '(v, l) ← get_string l; m ← get_map fuel l; Some ((k, v) :: m)
  | _, [x00] => Some []
  | _, _ => None
  end.

Lemma get_put_map m fuel : (length m < fuel)%nat → get_map fuel (put_map m) = Some m.
Proof.
  unfold put_map. revert fuel. induction m as [|[k v] m IH]; intros [|fuel] Hf; cbn in Hf; [lia|done|lia|].
  cbn [mbind list_bind app get_map fst snd]. rewrite <-!(assoc_L (++)), get_put. cbn [mbind option_bind].
  rewrite get_put. cbn [mbind option_bind]. by rewrite IH by lia.
Qed.

#[export] Instance toy_map_json : MapJSON := {|
  json_marshal_map := put_map; json_unmarshal_map l := Some <$> get_map (length l) l |}.
#[export] Instance toy_map_json_laws : MapJSONLaws.
Proof.
  split. intros m _ _. exists m. split; [|done]. cbn. rewrite get_put_map; [done|].
  unfold put_map. rewrite length_app. cbn. induction m as [|[k v] m IH]; cbn in *; [lia|]. rewrite !length_app. lia.
Qed.

Definition put_int (z : Z) : list byte := be_encode 9 (z + 2 ^ 63).
Definition get_int (l : list byte) : Z := be_decode (take 9 l) - 2 ^ 63.
Lemma get_put_int z rest : is_i64 z ∨ is_u64 z → get_int (put_int z ++ rest) = z ∧ drop 9 (put_int z ++ rest) = rest.
Proof.
  intros Hz. unfold get_int, put_int. rewrite take_app_length', drop_app_length' by (by rewrite length_be_encode).
  rewrite be_decode_encode, Z.mod_small by (unfold is_i64, is_u64 in Hz; cbn; lia). split; [lia|done].
Qed.

Definition put_manifest (m : ChunkManifest) : list byte :=
  put_int (mf_Version m) ++ put_int (mf_ChunkSize m) ++ put_int (mf_ChunkCount m) ++ put_string (mf_BaseIV m) ++ put_string (mf_IVDerivation m).
Definition get_manifest (l : list byte) : option ChunkManifest :=
  '(iv, rest) ← get_string (drop 27 l); '(derivation, _) ← get_string rest;
  Some (mkManifest (get_int l) (get_int (drop 9 l)) (get_int (drop 18 l)) iv [] derivation).
#[export] Instance toy_manifest_json : ManifestJSON := {| json_marshal_manifest := put_manifest; json_unmarshal_manifest := get_manifest |}.
#[export] Instance toy_manifest_json_laws : ManifestJSONLaws.
Proof.
  split.
  - intros m E. apply (f_equal length) in E. cbn in E. unfold put_manifest, put_int in E. rewrite length_app, length_be_encode in E. cbn in E. lia.
  - intros m H1 H2 H3 H4. change (get_manifest (put_manifest m) = Some m). unfold get_manifest, put_manifest.
    set (s := put_string (mf_BaseIV m) ++ put_string (mf_IVDerivation m)).
    destruct (get_put_int (mf_Version m) (put_int (mf_ChunkSize m) ++ put_int (mf_ChunkCount m) ++ s) (or_introl H1)) as [I1 D1].
    destruct (get_put_int (mf_ChunkSize m) (put_int (mf_ChunkCount m) ++ s) (or_introl H2)) as [I2 D2].
    destruct (get_put_int (mf_ChunkCount m) s (or_intror H3)) as [I3 D3].
    assert (D18 : ∀ l : list byte, drop 18 l = drop 9 (drop 9 l)) by (intros; by rewrite drop_drop).
    assert (D27 : ∀ l : list byte, drop 27 l = drop 9 (drop 9 (drop 9 l))) by (intros; by rewrite !drop_drop).
    rewrite D27, D18, D1, D2, D3, I1, I2, I3. unfold s. rewrite get_put. cbn [mbind option_bind].
    pose proof (get_put (mf_IVDerivation m) []) as Hg. rewrite app_nil_r in Hg. rewrite Hg. cbn. rewrite <-H4. by destruct m.
Qed.

#[export] Instance toy_md5 : MD5 := {| md5_Sum m := be_encode 16 (Toy.checksum m) |}.
End ToyJSON.

Module EngineWitness.
Import ToyInstances PasswordWitness MemoryWitness.
Definition settings (chunked : bool) (metadataKey : option (list byte)) : engine :=
  mkEngine password 100000 KDFAlgPBKDF2SHA256 (mkArgon2 2 19456 1) AlgorithmAES256GCM [AlgorithmAES256GCM] chunked 16384
    ProviderAWS ProviderAWS metadataKey false DefaultKDFLimits None.
Definition object : ObjectContext := mkObject "bucket" "key".
Definition headers : gomap := [("Content-Type", "text/plain"); ("x-amz-meta-color", "blue")].
Definition body : list byte := bytes_of_string "attack at dawn".
Definition state : EngineState inMemoryKeyManager := mkState (Some manager) None world.
Definition is_ok {A} (r : result A) : bool := match r with Ok _ => true | Err _ => false end.
End EngineWitness.

Section witnesses.
Import ToyInstances PasswordWitness MemoryWitness ToyJSON EngineWitness.


Definition password_state : EngineState passwordKeyManager := mkState (Some reader) None world.

Lemma password_buffered_unreadable_witness :
  ∃ out stored st1, Encrypt [] (settings false None) object (src_of body) headers password_state = (Ok (out, stored), st1) ∧
    ∀ C, fails (Decrypt [] (settings false None) object (src_of C) stored st1).
Proof.
  assert (Hok : is_ok (Encrypt [] (settings false None) object (src_of body) headers password_state).1 &&
    bool_decide (is_Some (es_km (Encrypt [] (settings false None) object (src_of body) headers password_state).2)) = true) by (vm_compute; reflexivity).
  destruct (Encrypt [] (settings false None) object (src_of body) headers password_state) as [[[out stored]|err] st1] eqn:E; [|done].
  exists out, stored, st1. split; [done|]. intros C.
  apply (password_buffered_unreadable [] (settings false None) object body headers password_state out stored st1).
  - reflexivity.
  - discriminate.
  - by left.
  - apply (bool_decide_unpack _). vm_compute. reflexivity.
  - repeat constructor; vm_compute; reflexivity.
  - exact E.
  - done.
  - clear E. apply bool_decide_eq_true in Hok as [k Hk]. cbn [snd] in Hk. rewrite Hk. discriminate.
Defined.
End witnesses.
