(* ===== verification/Spool.v ===== *)
(** * The verified-body spool quota ([internal/api/spool_manager.go])

    Request bodies are staged in temporary files until their signatures and
    checksums have been verified. One manager, shared by every request,
    charges the staged bytes against a process-wide budget and a limit per
    request. The manager and the reservations form one shared store, a
    reservation is its index; every operation holds the manager's mutex, so
    an execution is a sequence of operations of any requests. The observer
    (metrics) is the list of notifications it received, the latest first. *)
From S2P Require Import Prelude GoStd.
Local Open Scope Z_scope.
Local Open Scope go_scope.

Definition ErrSpoolRequestLimit : error := Sentinel "verified spool request limit exceeded".
Definition ErrSpoolCapacity : error := Sentinel "verified spool aggregate capacity exhausted".

Inductive spoolEvent := SetSpoolBytes (n : Z) | RecordSpoolRejection (reason : string).

Record spoolReservation := mkReservation { sr_limit : Z; sr_used : Z; sr_released : bool }.

Record spoolManager := mkSpool {
  sp_current : Z; sp_capacity : Z;
  sp_reservations : list spoolReservation;
  sp_observed : list spoolEvent }.

Definition NewSpoolManager (capacity : Z) : spoolManager := mkSpool 0 capacity [] [].

Definition rejectLocked (reason : string) (m : spoolManager) : spoolManager :=
  mkSpool (sp_current m) (sp_capacity m) (sp_reservations m) (RecordSpoolRejection reason :: sp_observed m).
Definition observeLocked (m : spoolManager) : spoolManager :=
  mkSpool (sp_current m) (sp_capacity m) (sp_reservations m) (SetSpoolBytes (sp_current m) :: sp_observed m).

Definition ReconfigureCapacity (capacity : Z) (m : spoolManager) : option error * spoolManager :=
  if capacity <=? 0 then (Some ErrSpoolCapacity, m)
  else if sp_current m >? capacity then (Some ErrSpoolCapacity, m)
  else (None, observeLocked (mkSpool (sp_current m) capacity (sp_reservations m) (sp_observed m))).

(** [Acquire(ctx, n, limit)]; [ctxErr] is what [ctx.Err()] answers. *)
Definition Acquire (ctxErr : option error) (n limit : Z) (m : spoolManager) : result nat * spoolManager :=
  if (n <? 0) || (limit <? 0) || (n >? limit) then
    (Err ErrSpoolRequestLimit, rejectLocked "request_limit" m)
  else match ctxErr with
  | Some e => (Err e, m)
  | None =>
      if (sp_current m <? 0) || (n >? sp_capacity m) || (sp_current m >? sp_capacity m -i n) then
        (Err ErrSpoolCapacity, rejectLocked "aggregate_limit" m)
      else
        (Ok (length (sp_reservations m)),
         observeLocked (mkSpool (sp_current m +i n) (sp_capacity m)
           (sp_reservations m ++ [mkReservation limit n false]) (sp_observed m)))
  end.

(** [Grow] of reservation [i]. A handle that was never issued does not exist
    in Go; it changes nothing here. *)
Definition Grow (i : nat) (delta : Z) (m : spoolManager) : option error * spoolManager :=
  match sp_reservations m !! i with
  | None => (Some ErrSpoolRequestLimit, m)
  | Some r =>
      if delta <? 0 then (Some ErrSpoolRequestLimit, rejectLocked "request_limit" m)
      else if sr_released r then (Some ErrSpoolRequestLimit, m)
      else if delta >? sr_limit r -i sr_used r then
        (Some ErrSpoolRequestLimit, rejectLocked "request_limit" m)
      else if (sr_used r >? sr_limit r -i delta) || (sp_current m >? sp_capacity m -i delta) then
        if sp_current m <=? sp_capacity m -i delta then
          (Some ErrSpoolRequestLimit, rejectLocked "request_limit" m)
        else (Some ErrSpoolCapacity, rejectLocked "aggregate_limit" m)
      else
        (None, observeLocked (mkSpool (sp_current m +i delta) (sp_capacity m)
           (<[i := mkReservation (sr_limit r) (sr_used r +i delta) false]> (sp_reservations m)) (sp_observed m)))
  end.

Definition Release (i : nat) (m : spoolManager) : spoolManager :=
  match sp_reservations m !! i with
  | None => m
  | Some r =>
      if sr_released r then m
      else observeLocked (mkSpool (sp_current m -i sr_used r) (sp_capacity m)
             (<[i := mkReservation (sr_limit r) (sr_used r) true]> (sp_reservations m)) (sp_observed m))
  end.

(** ** The charging writer

    [reservingWriter]: a write first uses the bytes reserved up front, then
    grows the reservation, and only then writes. *)
Record reservingWriter := mkWriter { rw_reservation : nat; rw_remaining : Z }.

(** The two ways the source computes what a write of [n] bytes must still
    charge: in [reservingWriter.Write] and in the copy loop of
    [verifyAndSpoolV4Payload], where a non-positive amount is not charged. *)
Definition writer_charge (remaining n : Z) : Z * Z :=
  let extra := if remaining >=? n then 0 else n -i remaining in
  let remaining := if remaining >=? n then remaining -i n else 0 in
  (extra, remaining).
Definition v4_charge (declared n : Z) : Z * Z :=
  let extra := n -i declared in
  ((if extra >? 0 then extra else 0), (if declared >? n then declared -i n else 0)).

(** [reservingWriter.Write(p)]: the error, the bytes that reach the file, and
    the new states; [fileTakes] is how many bytes the file accepts before its
    own write fails. *)
Definition rwWrite (fileTakes : nat) (w : reservingWriter) (p : list byte) (m : spoolManager)
    : option error * list byte * reservingWriter * spoolManager :=
  let '(extra, remaining) := writer_charge (rw_remaining w) (len p) in
  if (extra >? MaxInt64) || (extra <? 0) then (Some ErrSpoolRequestLimit, [], w, m)
  else match Grow (rw_reservation w) extra m with
  | (Some e, m) => (Some e, [], w, m)
  | (None, m) =>
      ((if decide (length p ≤ fileTakes)%nat then None else Some (Sentinel "write")),
       take fileTakes p, mkWriter (rw_reservation w) remaining, m)
  end.

(** ** Limits *)

Record SpoolLimits := mkLimits { Global : Z; Part : Z }.
Definition minSpoolLimit (a b : Z) : Z := if a <? b then a else b.
(** [SpoolLimitSource.Set]: an invalid pair leaves the stored one. *)
Definition SetLimits (new old : SpoolLimits) : SpoolLimits :=
  if (Global new <=? 0) || (Part new <=? 0) then old else new.
Definition DefaultMaxPartBuffer : Z := 64 * 1024 * 1024.
Definition NewSpoolLimitSource (limits : SpoolLimits) : SpoolLimits :=
  SetLimits limits (mkLimits (Z.shiftl 5 30) DefaultMaxPartBuffer).
(** [SpoolLimitsForConfig]: the two settings of the server configuration. *)
Definition SpoolLimitsForConfig (maxVerifiedSpoolBytes maxPartBuffer : Z) : SpoolLimits :=
  mkLimits (if maxVerifiedSpoolBytes >? 0 then maxVerifiedSpoolBytes else Z.shiftl 5 30)
           (if maxPartBuffer >? 0 then maxPartBuffer else DefaultMaxPartBuffer).
Definition isSpoolQuotaError (e : error) : bool :=
  error_is e ErrSpoolRequestLimit || error_is e ErrSpoolCapacity.
Definition spoolReason (e : error) : string :=
  if error_is e ErrSpoolCapacity then "aggregate_limit" else "request_limit".

(** ** Executions

    The store together with the file behind each reservation. A request
    acquires a reservation and opens a file, writes any number of blocks, and
    releases the reservation when the file is removed. *)
Record spoolFile := mkFile { sf_writer : reservingWriter; sf_data : list byte }.
Record spoolSys := mkSys { ss_manager : spoolManager; ss_files : list spoolFile }.

Inductive spool_step : spoolSys → spoolSys → Prop :=
| step_acquire st ctxErr n limit i m' :
    is_i64 n → is_i64 limit → Acquire ctxErr n limit (ss_manager st) = (Ok i, m') →
    spool_step st (mkSys m' (ss_files st ++ [mkFile (mkWriter i n) []]))
| step_refused st ctxErr n limit e m' :
    Acquire ctxErr n limit (ss_manager st) = (Err e, m') →
    spool_step st (mkSys m' (ss_files st))
| step_write st i f takes p oe bs w' m' :
    ss_files st !! i = Some f → len p ≤ MaxInt64 →
    rwWrite takes (sf_writer f) p (ss_manager st) = (oe, bs, w', m') →
    spool_step st (mkSys m' (<[i := mkFile w' (sf_data f ++ bs)]> (ss_files st)))
| step_release st i :
    spool_step st (mkSys (Release i (ss_manager st)) (ss_files st))
| step_reconfigure st capacity oe m' :
    is_i64 capacity → ReconfigureCapacity capacity (ss_manager st) = (oe, m') →
    spool_step st (mkSys m' (ss_files st)).

(** What is live: the bytes charged to, and the bytes on disk for, the
    reservations that have not been released. *)
Fixpoint live_used (rs : list spoolReservation) : Z :=
  match rs with
  | [] => 0
  | r :: rs => (if sr_released r then 0 else sr_used r) + live_used rs
  end.
Fixpoint live_bytes (rs : list spoolReservation) (fs : list spoolFile) : Z :=
  match rs, fs with
  | r :: rs, f :: fs => (if sr_released r then 0 else len (sf_data f)) + live_bytes rs fs
  | _, _ => 0
  end.

(** The gauge: the latest value the observer was told, zero before the first. *)
Fixpoint gauge (ev : list spoolEvent) : Z :=
  match ev with
  | [] => 0
  | SetSpoolBytes n :: _ => n
  | RecordSpoolRejection _ :: ev => gauge ev
  end.

(** A reservation with the file it pays for. *)
Definition paid (r : spoolReservation) (i : nat) (f : spoolFile) : Prop :=
  0 ≤ sr_used r ≤ sr_limit r ∧ sr_limit r ≤ MaxInt64 ∧ rw_reservation (sf_writer f) = i ∧
  0 ≤ rw_remaining (sf_writer f) ∧
  (sr_released r = false → len (sf_data f) + rw_remaining (sf_writer f) ≤ sr_used r).

Record spool_inv (st : spoolSys) : Prop := {
  inv_current : sp_current (ss_manager st) = live_used (sp_reservations (ss_manager st));
  inv_capacity : live_used (sp_reservations (ss_manager st)) ≤ sp_capacity (ss_manager st) ≤ MaxInt64;
  inv_gauge : gauge (sp_observed (ss_manager st)) = sp_current (ss_manager st);
  inv_files : length (ss_files st) = length (sp_reservations (ss_manager st));
  inv_paid : ∀ i r f, sp_reservations (ss_manager st) !! i = Some r → ss_files st !! i = Some f → paid r i f }.

Lemma live_used_app rs r : live_used (rs ++ [r]) = live_used rs + (if sr_released r then 0 else sr_used r).
Proof. induction rs as [|r' rs IH]; cbn; [lia|]. rewrite IH. lia. Qed.

Lemma live_used_insert rs i r r' :
  rs !! i = Some r →
  live_used (<[i := r']> rs) = live_used rs - (if sr_released r then 0 else sr_used r)
                               + (if sr_released r' then 0 else sr_used r').
Proof.
  revert i. induction rs as [|r0 rs IH]; intros [|i] Hi; [done..| |]; cbn in Hi; simplify_eq.
  - cbn. lia.
  - change (<[S i := r']> (r0 :: rs)) with (r0 :: <[i := r']> rs). cbn [live_used]. rewrite (IH i Hi). lia.
Qed.

Lemma live_used_nonneg rs : Forall (λ r, 0 ≤ sr_used r) rs → 0 ≤ live_used rs.
Proof. induction 1 as [|r rs Hr Hrs IH]; cbn; [lia|]. destruct (sr_released r); lia. Qed.

Lemma inv_nonneg st : spool_inv st → Forall (λ r, 0 ≤ sr_used r) (sp_reservations (ss_manager st)).
Proof.
  intros [_ _ _ Hl Hp]. apply Forall_lookup. intros i r Hi.
  destruct (lookup_lt_is_Some_2 (ss_files st) i) as [f Hf].
  { rewrite Hl. by eapply lookup_lt_Some. }
  by destruct (Hp i r f Hi Hf) as ([? _] & _).
Qed.

Lemma live_bytes_used st : spool_inv st →
  live_bytes (sp_reservations (ss_manager st)) (ss_files st) ≤ live_used (sp_reservations (ss_manager st)).
Proof.
  intros [_ _ _ Hl Hp].
  assert (G : ∀ i r f, sp_reservations (ss_manager st) !! i = Some r → ss_files st !! i = Some f →
    0 ≤ sr_used r ∧ (sr_released r = false → len (sf_data f) ≤ sr_used r)).
  { intros i r f Hr Hf. destruct (Hp i r f Hr Hf) as (? & _ & _ & ? & Hd). split; [lia|].
    intros Hrel. specialize (Hd Hrel). lia. }
  clear Hp. revert G Hl. generalize (ss_files st) (sp_reservations (ss_manager st)).
  intros fs rs. revert fs. induction rs as [|r rs IH]; intros [|f fs] G Hl; cbn in *; try lia.
  specialize (IH fs (λ i, G (S i)) ltac:(lia)). destruct (G 0%nat r f eq_refl eq_refl) as [? Hd].
  destruct (sr_released r); [lia|]. specialize (Hd eq_refl). lia.
Qed.

(** Both charging computations are the same function: what is reserved and
    unused pays first. *)
Lemma v4_charge_eq declared n :
  0 ≤ declared ≤ MaxInt64 → 0 ≤ n ≤ MaxInt64 → v4_charge declared n = writer_charge declared n.
Proof.
  unfold v4_charge, writer_charge, MaxInt64. intros. cbv zeta. nowrap.
  repeat case_match; zbool; f_equal; lia.
Qed.

Lemma writer_charge_spec remaining n extra remaining' :
  0 ≤ remaining ≤ MaxInt64 → 0 ≤ n ≤ MaxInt64 → writer_charge remaining n = (extra, remaining') →
  0 ≤ extra ≤ n ∧ 0 ≤ remaining' ∧ remaining' + n = remaining + extra.
Proof.
  unfold writer_charge, MaxInt64. intros Hr Hn. cbv zeta. nowrap.
  destruct (remaining >=? n) eqn:E; zbool; intros [= <- <-]; lia.
Qed.

(** A manager within its budget, before any reservation is looked at. *)
Definition within_budget (m : spoolManager) : Prop :=
  0 ≤ sp_current m ≤ sp_capacity m ∧ sp_capacity m ≤ MaxInt64.

Lemma Grow_Ok m i r delta m' :
  within_budget m → sp_reservations m !! i = Some r → 0 ≤ sr_used r ≤ sr_limit r → sr_limit r ≤ MaxInt64 →
  delta ≤ MaxInt64 → Grow i delta m = (None, m') →
  0 ≤ delta ∧ sr_released r = false ∧ sr_used r + delta ≤ sr_limit r ∧ sp_current m + delta ≤ sp_capacity m ∧
  m' = mkSpool (sp_current m + delta) (sp_capacity m)
         (<[i := mkReservation (sr_limit r) (sr_used r + delta) false]> (sp_reservations m))
         (SetSpoolBytes (sp_current m + delta) :: sp_observed m).
Proof.
  unfold within_budget, MaxInt64. intros Hb Hr Hu Hl Hd. unfold Grow. rewrite Hr.
  destruct (delta <? 0) eqn:E1; [done|]. destruct (sr_released r) eqn:E2; [done|]. zbool.
  rewrite (wrap_i64_id (sr_limit r - sr_used r)), (wrap_i64_id (sr_limit r - delta)),
    (wrap_i64_id (sp_capacity m - delta)) by lia.
  destruct (delta >? _) eqn:E3; [done|]. destruct (_ || _) eqn:E4; [by case_match|]. zbool.
  nowrap. intros [= <-]. split_and!; [lia|done|lia|lia|]. unfold observeLocked. cbn. done.
Qed.

Lemma Grow_Err m i delta e m' :
  Grow i delta m = (Some e, m') → m' = m ∨ ∃ reason, m' = rejectLocked reason m.
Proof. unfold Grow. repeat case_match; intros; simplify_eq; eauto. Qed.

Section ops.
Context (st : spoolSys) (Hinv : spool_inv st).
Abbreviation m := (ss_manager st).

Lemma current_nonneg : 0 ≤ sp_current m.
Proof. rewrite (inv_current _ Hinv). apply live_used_nonneg, inv_nonneg, Hinv. Qed.

Lemma Acquire_Ok ctxErr n limit i m' :
  is_i64 n → is_i64 limit → Acquire ctxErr n limit m = (Ok i, m') →
  0 ≤ n ≤ limit ∧ sp_current m + n ≤ sp_capacity m ∧ i = length (sp_reservations m) ∧
  m' = mkSpool (sp_current m + n) (sp_capacity m) (sp_reservations m ++ [mkReservation limit n false])
         (SetSpoolBytes (sp_current m + n) :: sp_observed m).
Proof.
  intros Hn Hlim. pose proof current_nonneg. pose proof (inv_capacity _ Hinv) as Hcap.
  pose proof (inv_current _ Hinv). unfold Acquire, is_i64, MaxInt64 in *.
  destruct ((n <? 0) || (limit <? 0) || (n >? limit)) eqn:E1; [done|].
  destruct ctxErr; [done|]. zbool.
  rewrite (wrap_i64_id (sp_capacity m - n)) by lia.
  destruct ((sp_current m <? 0) || (n >? sp_capacity m) || (sp_current m >? sp_capacity m - n)) eqn:E2; [done|].
  zbool. intros [= <- <-]. nowrap. split_and!; [lia|lia|lia|done|]. unfold observeLocked. cbn. done.
Qed.

Lemma Acquire_Err ctxErr n limit e m' :
  Acquire ctxErr n limit m = (Err e, m') →
  m' = m ∨ ∃ reason, m' = rejectLocked reason m.
Proof. unfold Acquire. repeat case_match; intros; simplify_eq; eauto. Qed.

Lemma inv_budget : within_budget m.
Proof.
  pose proof current_nonneg. pose proof (inv_current _ Hinv). pose proof (inv_capacity _ Hinv).
  unfold within_budget. lia.
Qed.

Lemma inv_reject reason : spool_inv (mkSys (rejectLocked reason m) (ss_files st)).
Proof. destruct Hinv as [? ? ? ? ?]. by split. Qed.
Lemma inv_same : spool_inv (mkSys m (ss_files st)).
Proof. by destruct st. Qed.
End ops.

Lemma acquire_inv st ctxErr n limit i m' :
  spool_inv st → is_i64 n → is_i64 limit → Acquire ctxErr n limit (ss_manager st) = (Ok i, m') →
  spool_inv (mkSys m' (ss_files st ++ [mkFile (mkWriter i n) []])).
Proof.
  intros Hinv Hn Hlim HA. apply Acquire_Ok in HA as (? & ? & -> & ->); [|done..].
  pose proof (inv_current _ Hinv). pose proof (inv_capacity _ Hinv). pose proof (inv_files _ Hinv) as Hlen.
  split; cbn -[live_used]; rewrite ?live_used_app; cbn [sr_released sr_used]; [lia|lia|done| |].
  - rewrite !length_app, Hlen. done.
  - intros j r f Hr Hf. apply lookup_app_Some in Hr as [Hr|[Hj Hr]].
    + apply (inv_paid _ Hinv); [done|]. rewrite lookup_app_l in Hf; [done|].
      rewrite Hlen. by eapply lookup_lt_Some.
    + rewrite lookup_app_r in Hf by lia. rewrite Hlen in Hf.
      destruct (j - length (sp_reservations (ss_manager st)))%nat as [|k] eqn:E; [|done]. cbn in *. simplify_eq.
      unfold paid, is_i64, MaxInt64 in *. cbn. split_and!; lia.
Qed.

Lemma write_inv st i f takes p oe bs w' m' :
  spool_inv st → ss_files st !! i = Some f → len p ≤ MaxInt64 →
  rwWrite takes (sf_writer f) p (ss_manager st) = (oe, bs, w', m') →
  spool_inv (mkSys m' (<[i := mkFile w' (sf_data f ++ bs)]> (ss_files st))).
Proof.
  intros Hinv Hf Hp HW. pose proof (inv_files _ Hinv) as Hlen.
  destruct (lookup_lt_is_Some_2 (sp_reservations (ss_manager st)) i) as [r Hr].
  { rewrite <-Hlen. by eapply lookup_lt_Some. }
  destruct (inv_paid _ Hinv i r f Hr Hf) as (Hu & Hl & Hi & Hrem & Hd).
  assert (Hnochange : ∀ mm, mm = ss_manager st ∨ (∃ reason, mm = rejectLocked reason (ss_manager st)) →
    spool_inv (mkSys mm (<[i := mkFile (sf_writer f) (sf_data f ++ [])]> (ss_files st)))).
  { intros mm Hmm. replace (mkFile _ _) with f by (destruct f; cbn; by rewrite app_nil_r).
    rewrite list_insert_id by done. destruct Hmm as [->|[reason ->]]; [by destruct st|by apply inv_reject]. }
  unfold rwWrite in HW. destruct (writer_charge _ _) as [extra rem'] eqn:Ec.
  destruct (_ || _) eqn:Eb; [simplify_eq; by apply Hnochange; left|].
  destruct (Grow (rw_reservation (sf_writer f)) extra (ss_manager st)) as [[e|] m1] eqn:EG.
  { simplify_eq. apply Hnochange. by eapply Grow_Err. }
  rewrite Hi in EG. zbool. unfold MaxInt64 in *.
  eapply (Grow_Ok _ i r) in EG as (He & Hrel & Hul & Hcc & ->); [|by apply inv_budget|done|done|done|unfold MaxInt64; lia].
  specialize (Hd Hrel). apply writer_charge_spec in Ec as (? & ? & ?); [|unfold MaxInt64 in *; lia..].
  injection HW as <- <- <- <-. pose proof (inv_current _ Hinv). pose proof (inv_capacity _ Hinv).
  split; cbn -[live_used]; rewrite ?(live_used_insert _ _ _ _ Hr), ?Hrel; cbn [sr_released sr_used];
    [lia|unfold MaxInt64 in *; lia|done|by rewrite !length_insert|].
  intros j r' f' Hr' Hf'. destruct (decide (i = j)) as [<-|Hne].
  - rewrite list_lookup_insert_eq in Hr' by (by eapply lookup_lt_Some).
    rewrite list_lookup_insert_eq in Hf' by (by eapply lookup_lt_Some).
    injection Hr' as <-. injection Hf' as <-. unfold paid, MaxInt64. cbn. rewrite length_app, length_take.
    split_and!; try done; lia.
  - rewrite list_lookup_insert_ne in Hr' by done. rewrite list_lookup_insert_ne in Hf' by done.
    by apply (inv_paid _ Hinv).
Qed.

Lemma release_inv st i : spool_inv st → spool_inv (mkSys (Release i (ss_manager st)) (ss_files st)).
Proof.
  intros Hinv. unfold Release. destruct (sp_reservations (ss_manager st) !! i) as [r|] eqn:Hr; [|by destruct st].
  destruct (sr_released r) eqn:Hrel; [by destruct st|].
  pose proof (inv_nonneg _ Hinv) as Hnn. pose proof (live_used_insert _ i r (mkReservation (sr_limit r) (sr_used r) true) Hr) as Hs.
  rewrite Hrel in Hs. cbn [sr_released] in Hs.
  assert (0 ≤ sr_used r) by exact (proj1 (Forall_lookup _ _) Hnn i r Hr).
  assert (0 ≤ live_used (<[i := mkReservation (sr_limit r) (sr_used r) true]> (sp_reservations (ss_manager st)))).
  { apply live_used_nonneg, Forall_insert; [done|]. done. }
  pose proof (inv_current _ Hinv). pose proof (inv_capacity _ Hinv). unfold MaxInt64 in *.
  rewrite (wrap_i64_id (_ - _)) by lia.
  split; cbn -[live_used]; [lia|unfold MaxInt64; lia|done|rewrite length_insert; apply Hinv|].
  intros j r' f' Hr' Hf'. destruct (decide (i = j)) as [<-|Hne].
  - rewrite list_lookup_insert_eq in Hr' by (by eapply lookup_lt_Some). simplify_eq.
    destruct (inv_paid _ Hinv i r f' Hr Hf') as (? & ? & ? & ? & ?). unfold paid. cbn. split_and!; try done; lia.
  - rewrite list_lookup_insert_ne in Hr' by done. by apply (inv_paid _ Hinv).
Qed.

Lemma spool_step_inv st st' : spool_step st st' → spool_inv st → spool_inv st'.
Proof.
  intros [st0 ? ? ? ? ? ? ? HA|st0 ? ? ? ? ? HA|st0 ? ? ? ? ? ? ? ? ? ? HW|st0 ?|st0 ? ? ? Hcap HR] Hinv.
  - by eapply acquire_inv.
  - apply Acquire_Err in HA as [->|[reason ->]]; [by destruct st0|by apply inv_reject].
  - by eapply write_inv.
  - by apply release_inv.
  - unfold ReconfigureCapacity in HR. destruct (_ <=? _) eqn:E1; [simplify_eq; by destruct st0|].
    destruct (_ >? _) eqn:E2; simplify_eq; [by destruct st0|]. zbool.
    pose proof (inv_current _ Hinv). unfold is_i64 in Hcap.
    split; cbn -[live_used]; [apply Hinv|unfold MaxInt64; lia|done|apply Hinv|apply (inv_paid _ Hinv)].
Qed.


