(* ===== verification/Http.v ===== *)
(** * HTTP requests, URLs and header maps

    The parts of [net/http] and [net/url] the request path uses: the header
    map with its canonical keys, [url.ParseQuery], [url.QueryEscape] and
    [url.QueryUnescape], and the request as the handlers see it. Text is a
    byte list; [txt] turns a literal into one. *)
From S2P Require Import Prelude GoStd GoIO GoText.
Local Open Scope Z_scope.

Definition txt (s : string) : bytes := bytes_of_string s.
(** Comparison with a literal. *)
Definition eqs (b : bytes) (s : string) : bool := bool_decide (b = txt s).

(** ** [strings] on bytes *)

Fixpoint trim_left (l : bytes) : bytes :=
  match l with b :: r => if is_space b then trim_left r else l | [] => [] end.
(** [strings.TrimSpace] and [strings.ToLower] on ASCII text. *)
Definition TrimSpaceB (l : bytes) : bytes := reverse (trim_left (reverse (trim_left l))).
Definition ToLowerB (l : bytes) : bytes := lower <$> l.
(** [strings.Cut(s, sep)] for a one-byte separator; [None] when it is absent. *)
Fixpoint cut (sep : byte) (l : bytes) : option (bytes * bytes) :=
  match l with
  | [] => None
  | b :: l => if chr_eqb b sep then Some ([], l) else '(p, q) ← cut sep l; Some (b :: p, q)
  end.
Definition SplitB (sep : byte) (l : bytes) : list bytes := split_bytes sep l [].
Fixpoint JoinB (sep : bytes) (l : list bytes) : bytes :=
  match l with [] => [] | [x] => x | x :: l => x ++ sep ++ JoinB sep l end.
Definition HasPrefixB (l p : bytes) : bool := bool_decide (take (length p) l = p).
Definition TrimPrefixB (l p : bytes) : bytes := if HasPrefixB l p then drop (length p) l else l.

(** [sort.Strings]: byte-wise lexicographic order. *)
Fixpoint bytes_leb (a b : bytes) : bool :=
  match a, b with
  | [], _ => true
  | _, [] => false
  | x :: a, y :: b => (byte_val x <? byte_val y) || ((byte_val x =? byte_val y) && bytes_leb a b)
  end.
Fixpoint insert_sorted (x : bytes) (l : list bytes) : list bytes :=
  match l with [] => [x] | y :: r => if bytes_leb x y then x :: l else y :: insert_sorted x r end.
Definition sort_bytes (l : list bytes) : list bytes := foldr insert_sorted [] l.

(** ** Multi-valued maps: [http.Header] and [url.Values]

    The entries in the order the runtime happens to iterate them, keys
    distinct. Header keys are in canonical form, as the server stores them. *)
Abbreviation values := (list (bytes * list bytes)).
Definition wf_values (m : values) : Prop := NoDup m.*1.
Fixpoint vget (m : values) (k : bytes) : option (list bytes) :=
  match m with [] => None | (k', v) :: m => if decide (k' = k) then Some v else vget m k end.
(** [m[k]]: the nil slice when absent. *)
Definition vals (m : values) (k : string) : list bytes := default [] (vget m (txt k)).
(** [Get]: the first value, or the empty string. *)
Definition first (l : list bytes) : bytes := default [] (head l).
Definition Get (m : values) (k : string) : bytes := first (vals m k).
Definition has (m : values) (k : string) : bool := bool_decide (is_Some (vget m (txt k))).
(** [m[k] = append(m[k], v)]. *)
Fixpoint vappend (m : values) (k v : bytes) : values :=
  match m with
  | [] => [(k, [v])]
  | (k', vs) :: m => if decide (k' = k) then (k', vs ++ [v]) :: m else (k', vs) :: vappend m k v
  end.

(** ** [net/url] *)

Definition unreserved (b : byte) : bool :=
  is_digit b || is_upper b || ((97 <=? byte_val b) && (byte_val b <=? 122)) ||
  (byte_val b =? 45) || (byte_val b =? 95) || (byte_val b =? 46) || (byte_val b =? 126).
Definition upper_hex (v : Z) : byte := byte_of (if v <? 10 then 48 + v else 55 + v).
Definition percent (b : byte) : bytes := ["%"%byte; upper_hex (byte_val b / 16); upper_hex (byte_val b `mod` 16)].
Definition QueryEscape (l : bytes) : bytes :=
  l ≫= λ b, if unreserved b then [b] else if chr_eqb b " " then ["+"%byte] else percent b.
(** [None] is an [EscapeError]. *)
Fixpoint QueryUnescape (l : bytes) : option bytes :=
  match l with
  | [] => Some []
  | "%"%byte :: a :: b :: l =>
      va ← hex_val a; vb ← hex_val b; r ← QueryUnescape l; Some (byte_of (va * 16 + vb) :: r)
  | "%"%byte :: _ => None
  | "+"%byte :: l => r ← QueryUnescape l; Some (" "%byte :: r)
  | b :: l => r ← QueryUnescape l; Some (b :: r)
  end.

(** [url.ParseQuery]: the values read, and whether some part was in error;
    parts in error are skipped. *)
Definition parseQueryPart (m : values) (part : bytes) : values * bool :=
  if bool_decide (";"%byte ∈ part) then (m, true)
  else if bool_decide (part = []) then (m, false)
  else let '(k, v) := default (part, []) (cut "=" part) in
    match QueryUnescape k, QueryUnescape v with
    | Some k, Some v => (vappend m k v, false)
    | _, _ => (m, true)
    end.
Definition ParseQuery (raw : bytes) : values * bool :=
  foldl (λ st part, let '(m, bad) := parseQueryPart st.1 part in (m, st.2 || bad)) ([], false)
        (match raw with [] => [] | _ => SplitB "&" raw end).

(** ** Requests *)

(** [URLEscapedPath] is what [r.URL.EscapedPath()] returns, the path as the
    client encoded it. *)
Record Request := mkRequest {
  Method : bytes; URLPath : bytes; URLEscapedPath : bytes; URLRawQuery : bytes; Host : bytes;
  ContentLength : Z; Header : values; Body : Source }.
(** [r.URL.Query()]: the errors are dropped. *)
Definition Query (r : Request) : values := (ParseQuery (URLRawQuery r)).1.
Definition HGet (r : Request) (k : string) : bytes := Get (Header r) k.
Definition HValues (r : Request) (k : string) : list bytes := vals (Header r) k.

(** ** Lemmas *)

Lemma upper_hex_val v : 0 ≤ v < 16 → hex_val (upper_hex v) = Some v.
Proof.
  intros Hv. assert (Hb : forallb (λ i, bool_decide (hex_val (upper_hex (Z.of_nat i)) = Some (Z.of_nat i)))
    (seq 0 16) = true) by (vm_compute; reflexivity).
  rewrite forallb_forall in Hb. specialize (Hb (Z.to_nat v)).
  rewrite in_seq, Z2Nat.id in Hb by lia. specialize (Hb ltac:(lia)). by apply bool_decide_eq_true_1 in Hb.
Qed.

Lemma QueryUnescape_percent b l : QueryUnescape (percent b ++ l) = r ← QueryUnescape l; Some (b :: r).
Proof.
  destruct (nibble_range b) as [Hh Hl]. cbn [percent app QueryUnescape].
  rewrite !upper_hex_val by done. cbn. destruct (QueryUnescape l); cbn; [|done].
  by rewrite Z.mul_comm, <-Z_div_mod_eq_full, byte_of_val.
Qed.

(** A byte that is neither of the two special characters stands for itself. *)
Lemma QueryUnescape_plain b l :
  b ≠ "%"%byte → b ≠ "+"%byte → QueryUnescape (b :: l) = r ← QueryUnescape l; Some (b :: r).
Proof. intros. destruct b; try done; congruence. Qed.

Lemma unreserved_plain b : unreserved b = true → b ≠ "%"%byte ∧ b ≠ "+"%byte.
Proof. intros Hb. split; intros ->; by vm_compute in Hb. Qed.

Lemma QueryUnescape_Escape l : QueryUnescape (QueryEscape l) = Some l.
Proof.
  induction l as [|b l IH]; [done|]. unfold QueryEscape in *. cbn [mbind list_bind].
  destruct (unreserved b) eqn:Eu.
  - destruct (unreserved_plain b Eu). cbn [app]. rewrite QueryUnescape_plain by done. by rewrite IH.
  - destruct (chr_eqb b " ") eqn:Es.
    + apply Byte.byte_dec_bl in Es as ->. cbn. by rewrite IH.
    + rewrite QueryUnescape_percent. by rewrite IH.
Qed.

Lemma vget_Some_elem m k v : vget m k = Some v → (k, v) ∈ m.
Proof.
  induction m as [|[k' v'] m IH]; cbn; [done|]. case_decide; [intros [= <-]; subst; by left|].
  intros ?%IH. by right.
Qed.
Lemma vget_None m k : vget m k = None ↔ k ∉ m.*1.
Proof.
  induction m as [|[k' v'] m IH]; cbn; [split; [by intros _ ?%not_elem_of_nil|done]|].
  rewrite not_elem_of_cons. case_decide; [naive_solver|]. rewrite IH. naive_solver.
Qed.

Lemma split_bytes_nonempty sep l cur : split_bytes sep l cur ≠ [].
Proof. revert cur. induction l as [|b l IH]; intros cur; cbn; [done|]. by case_match. Qed.
