(* ===== verification/SelfContained.v ===== *)
(** * The self-contained key managers

    [internal/crypto/keymanager_selfcontained_aes.go], [..._rsa.go] and
    [..._factory.go]: key-encryption keys held by the gateway itself, a table
    of AES-256 keys with rotation or one RSA key pair, built from the
    configuration. Both meet the contract of [KeyManagerSpec], so what is proved
    of the engine and of the manager stack against that interface holds for
    them. The methods of the two managers carry the prefixes [aes_] and [rsa_]. *)
From S2P Require Import Prelude GoStd GoText Http Primitives ObjectAAD ChunkLayout KeyManager MemoryKeyManager Metadata.
From S2P Require Import Engine EngineRead EngineMeta EngineSeal EngineFields EngineCorrect EngineRoundTrip.
Local Open Scope Z_scope.
Local Open Scope go_scope.
#[local] Arguments ToLower : simpl never.
#[local] Arguments FormatInt : simpl never.
#[local] Arguments bytes_of_string : simpl never.
#[local] Arguments ascii_string : simpl never.
#[local] Arguments take : simpl never.
#[local] Arguments drop : simpl never.

(** ** The AES manager *)

Record AESKEKManager := mkAES {
  ak_providerName : string; ak_keys : gmap Z (list byte); ak_activeVersion : Z; ak_closed : bool }.

Definition AESKEKOption := AESKEKManager → AESKEKManager.
Definition WithAESProvider (name : string) : AESKEKOption := λ m,
  if decide (name ≠ "") then mkAES name (ak_keys m) (ak_activeVersion m) (ak_closed m) else m.

Definition aesKeyError (key : list byte) : option error :=
  if negb (len key =? 32) then Some (Errorf "keymanager/self-contained-aes: key version %d must be 32 bytes (AES-256), got %d")
  else if allZero key then Some (Errorf "keymanager/self-contained-aes: key version %d must not be all zeros")
  else None.

(** The first unusable key in the order of iteration. *)
Fixpoint firstKeyError (l : list (Z * list byte)) : option error :=
  match l with
  | [] => None
  | vk :: l => match aesKeyError vk.2 with Some e => Some e | None => firstKeyError l end
  end.

Section aes.
Context `{Ciphers} `{MapOrder}.

Definition entries (keys : gmap Z (list byte)) : list (Z * list byte) :=
  omap (λ v, pair v <$> keys !! v) (map_order (map_to_list keys).*1).

Definition NewAESKEKManager (keys : gmap Z (list byte)) (activeVersion : Z) (opts : list AESKEKOption) : result AESKEKManager :=
  if bool_decide (keys = ∅) then Err (Errorf "keymanager/self-contained-aes: at least one key version required")
  else match keys !! activeVersion with
       | None => Err (Errorf "keymanager/self-contained-aes: active version %d not found in keys")
       | Some _ =>
           match firstKeyError (entries keys) with
           | Some e => Err e
           | None => Ok (foldl (λ m o, o m) (mkAES "self_contained" keys activeVersion false) opts)
           end
       end.

Definition aes_WrapKey (plaintext : list byte) (md : gomap) (m : AESKEKManager) (w : World)
    : result KeyEnvelope * AESKEKManager * World :=
  let '(cerr, w) := ctx_err w in
  match cerr with
  | Some e => (Err (Wrapf "keymanager/self-contained-aes: %w" e), m, w)
  | None =>
      if ak_closed m then (Err ErrProviderUnavailable, m, w)
      else match ak_keys m !! ak_activeVersion m with
           | None => (Err (Wrapf "%w: no active key version %d" ErrKeyNotFound), m, w)
           | Some kek =>
               let '(r, w) := rand_read 12 w in
               match r with
               | Err e => (Err (Wrapf "keymanager/self-contained-aes: nonce generation: %w" e), m, w)
               | Ok nonce =>
                   match newAESGCM kek with
                   | Err e => (Err (Wrapf "keymanager/self-contained-aes: cipher init: %w" e), m, w)
                   | Ok gcm =>
                       let sealed := nonce ++ Seal gcm nonce plaintext [] in
                       let '(t, w) := time_now w in
                       (Ok (mkEnvelope ("self-contained-aes-v" +:+ FormatInt (ak_activeVersion m)) (ak_activeVersion m)
                              (ak_providerName m) sealed t), m, w)
                   end
               end
           end
  end.

Definition aes_tryUnwrap (kek ciphertext : list byte) : result (list byte) :=
  gcm ← newAESGCM kek;
  match Open gcm (take 12 ciphertext) (drop 12 ciphertext) [] with
  | None => Err (Errorf "cipher: message authentication failed")
  | Some plaintext => Ok plaintext
  end.

Definition aes_candidateVersions (m : AESKEKManager) (preferred : Z) : list Z :=
  let vers := map_order (map_to_list (ak_keys m)).*1 in
  if 0 <? preferred then preferred :: filter (λ v, v ≠ preferred) vers else vers.

(** The loop over the candidates. The last error fills in the message of the
    final one and is none of the package's. *)
Fixpoint aes_tryVersions (m : AESKEKManager) (ciphertext : list byte) (vers : list Z) : result (list byte) :=
  match vers with
  | [] => Err (Wrapf "%w: all versions failed: %w" ErrUnwrapFailed)
  | ver :: vers =>
      match ak_keys m !! ver with
      | None => aes_tryVersions m ciphertext vers
      | Some kek =>
          match aes_tryUnwrap kek ciphertext with
          | Ok plaintext => Ok plaintext
          | Err _ => aes_tryVersions m ciphertext vers
          end
      end
  end.

Definition aes_UnwrapKey (envelope : option KeyEnvelope) (md : gomap) (m : AESKEKManager) (w : World)
    : result (list byte) * AESKEKManager * World :=
  let '(cerr, w) := ctx_err w in
  match cerr with
  | Some e => (Err (Wrapf "keymanager/self-contained-aes: %w" e), m, w)
  | None =>
      if ak_closed m then (Err ErrProviderUnavailable, m, w)
      else match envelope with
           | None => (Err (Wrapf "%w: envelope is nil" ErrInvalidEnvelope), m, w)
           | Some env =>
               if len (env_Ciphertext env) <? 12 + 16 then (Err (Wrapf "%w: ciphertext too short" ErrInvalidEnvelope), m, w)
               else (aes_tryVersions m (env_Ciphertext env) (aes_candidateVersions m (KeyVersion env)), m, w)
           end
  end.

Definition aes_ActiveKeyVersion (m : AESKEKManager) (w : World) : result Z * AESKEKManager * World :=
  (if ak_closed m then Err ErrProviderUnavailable else Ok (ak_activeVersion m), m, w).

Definition aes_HealthCheck (m : AESKEKManager) (w : World) : option error * AESKEKManager * World :=
  (if ak_closed m then Some ErrProviderUnavailable
   else match ak_keys m !! ak_activeVersion m with
        | None => Some (Wrapf "%w: no active key version %d" ErrKeyNotFound)
        | Some kek => if negb (len kek =? 32) then Some (Errorf "keymanager/self-contained-aes: active key length %d != 32") else None
        end, m, w).

(** Closing forgets every key. *)
Definition aes_Close (m : AESKEKManager) (w : World) : option error * AESKEKManager * World :=
  if ak_closed m then (None, m, w) else (None, mkAES (ak_providerName m) ∅ (ak_activeVersion m) true, w).

#[export] Instance aes_km : KeyManager AESKEKManager := {|
  Provider := ak_providerName; WrapKey := aes_WrapKey; UnwrapKey := aes_UnwrapKey;
  ActiveKeyVersion := aes_ActiveKeyVersion; HealthCheck := aes_HealthCheck; km_Close := aes_Close |}.

(** *** Rotation *)

Definition aes_AddVersion (version : Z) (material : list byte) (m : AESKEKManager) : option error * AESKEKManager :=
  if negb (len material =? 32) then (Some (Errorf "keymanager/self-contained-aes: KEK must be 32 bytes for AES-256, got %d"), m)
  else if allZero material then (Some (Errorf "keymanager/self-contained-aes: KEK material must not be all zeros"), m)
  else if ak_closed m then (Some ErrProviderUnavailable, m)
  else match ak_keys m !! version with
       | Some _ => (Some (Errorf "keymanager/self-contained-aes: version %d already exists"), m)
       | None => (None, mkAES (ak_providerName m) (<[version := material]> (ak_keys m)) (ak_activeVersion m) (ak_closed m))
       end.

(** The highest version other than the active one, -1 when there is none. *)
Definition aes_bestVersion (m : AESKEKManager) : Z :=
  foldl (λ best ver, if negb (ver =? ak_activeVersion m) && (best <? ver) then ver else best) (-1)
    (map_order (map_to_list (ak_keys m)).*1).

Definition aes_PrepareRotation (target : option Z) (m : AESKEKManager) : result RotationPlan :=
  if ak_closed m then Err ErrProviderUnavailable else
  let current := ak_activeVersion m in
  match target with
  | Some t =>
      match ak_keys m !! t with
      | None => Err (Wrapf "%w: version %d not found" ErrKeyNotFound)
      | Some _ =>
          if t =? current then Err (Errorf "keymanager/self-contained-aes: target version %d is already active")
          else Ok (mkPlan current t)
      end
  | None =>
      let best := aes_bestVersion m in
      if best <? 0 then Err (Wrapf "%w: no version available to promote (only version %d exists)" ErrRotationAmbiguous)
      else Ok (mkPlan current best)
  end.

Definition aes_PromoteActiveVersion (plan : RotationPlan) (m : AESKEKManager) : option error * AESKEKManager :=
  if ak_closed m then (Some ErrProviderUnavailable, m)
  else if negb (ak_activeVersion m =? CurrentVersion plan) then
    (Some (Wrapf "%w: expected current version %d but active is %d" ErrRotationConflict), m)
  else match ak_keys m !! TargetVersion plan with
       | None => (Some (Wrapf "%w: target version %d not found" ErrKeyNotFound), m)
       | Some _ => (None, mkAES (ak_providerName m) (ak_keys m) (TargetVersion plan) (ak_closed m))
       end.
End aes.

(** ** The RSA manager

    [rsa.PrivateKey] embeds its public key, so [privateKey.N] and
    [privateKey.PublicKey.N] are one field. [None] is a nil [*big.Int]. *)

Record PrivateKey := mkKey {
  rk_N : option Z; rk_E : Z; rk_D : option Z; rk_Primes : list (option Z);
  rk_Dp : option Z; rk_Dq : option Z; rk_Qinv : option Z }.

Definition BitLen (z : Z) : Z := if z =? 0 then 0 else Z.log2 (Z.abs z) + 1.
Definition keySizeBytes (n : Z) : Z := (BitLen n + 7) /i 8.

(** crypto/rsa and crypto/x509: OAEP with SHA-256 draws on [crypto/rand], which
    is part of the world. *)
Class RSA := {
  rsa_Precompute : PrivateKey → PrivateKey;
  EncryptOAEP : option Z → Z → list byte → World → result (list byte) * World;
  DecryptOAEP : PrivateKey → list byte → result (list byte);
  MarshalPKIXPublicKey : option Z → Z → result (list byte) }.

(** [rsa_valid] is what [PrivateKey.Validate] checks: the exponents invert each
    other. Decryption then inverts encryption, a ciphertext is as long as the
    modulus, and precomputation adds nothing but the derived values. *)
Class RSALaws `{RSA} := {
  rsa_valid : PrivateKey → Prop;
  oaep_roundtrip : ∀ key m w c w', rsa_valid key → EncryptOAEP (rk_N key) (rk_E key) m w = (Ok c, w') → DecryptOAEP key c = Ok m;
  oaep_length : ∀ n e m w c w', EncryptOAEP (Some n) e m w = (Ok c, w') → len c = keySizeBytes n;
  precompute_valid : ∀ key, rsa_valid key → rsa_valid (rsa_Precompute key);
  precompute_N : ∀ key, rk_N (rsa_Precompute key) = rk_N key }.

Record RSAKEKManager := mkRSA {
  rm_providerName : string; rm_privateKey : PrivateKey; rm_keyID : string; rm_keyVersion : Z; rm_closed : bool }.

Definition RSAKEKOption := RSAKEKManager → RSAKEKManager.
Definition WithRSAProvider (name : string) : RSAKEKOption := λ m,
  if decide (name ≠ "") then mkRSA name (rm_privateKey m) (rm_keyID m) (rm_keyVersion m) (rm_closed m) else m.

(** Both moduli are the same field. *)
Definition modulusMismatch (key : PrivateKey) : bool := negb (bool_decide (rk_N key = rk_N key)).

Definition zeroBigInt (bi : option Z) : option Z :=
  match bi with None => None | Some z => if BitLen z =? 0 then Some z else Some 0 end.
Definition zeroKey (key : PrivateKey) : PrivateKey :=
  mkKey (rk_N key) (rk_E key) (zeroBigInt (rk_D key)) (zeroBigInt <$> rk_Primes key)
    (zeroBigInt (rk_Dp key)) (zeroBigInt (rk_Dq key)) (zeroBigInt (rk_Qinv key)).

Section rsa.
Context `{RSA, SHA256}.

Definition NewRSAKEKManager (privateKey : option PrivateKey) (version : Z) (opts : list RSAKEKOption) : result RSAKEKManager :=
  match privateKey with
  | None => Err (Errorf "keymanager/self-contained-rsa: private key must not be nil")
  | Some key =>
      match rk_N key with
      | None => Err (Errorf "keymanager/self-contained-rsa: public key modulus is nil")
      | Some n =>
          let key := rsa_Precompute key in
          if keySizeBytes n <? 256 then Err (Errorf "keymanager/self-contained-rsa: minimum key size is 2048 bits, got %d bits")
          else if modulusMismatch key then Err (Errorf "keymanager/self-contained-rsa: public and private key modulus mismatch")
          else match MarshalPKIXPublicKey (rk_N key) (rk_E key) with
               | Err e => Err (Wrapf "keymanager/self-contained-rsa: failed to marshal public key: %w" e)
               | Ok pubDER =>
                   let keyID := "self-contained-rsa-" +:+ hex_encode (take 8 (sha256 pubDER)) in
                   let version := if version <? 1 then 1 else version in
                   Ok (foldl (λ m o, o m) (mkRSA "self_contained" key keyID version false) opts)
               end
      end
  end.

Definition rsa_WrapKey (plaintext : list byte) (md : gomap) (m : RSAKEKManager) (w : World)
    : result KeyEnvelope * RSAKEKManager * World :=
  let '(cerr, w) := ctx_err w in
  match cerr with
  | Some e => (Err (Wrapf "keymanager/self-contained-rsa: %w" e), m, w)
  | None =>
      if rm_closed m then (Err ErrProviderUnavailable, m, w)
      else let '(r, w) := EncryptOAEP (rk_N (rm_privateKey m)) (rk_E (rm_privateKey m)) plaintext w in
           match r with
           | Err e => (Err (Wrapf "keymanager/self-contained-rsa: wrap failed: %w" e), m, w)
           | Ok ciphertext =>
               let '(t, w) := time_now w in
               (Ok (mkEnvelope (rm_keyID m) (rm_keyVersion m) (rm_providerName m) ciphertext t), m, w)
           end
  end.

(** The error of the library fills in the message. *)
Definition rsa_UnwrapKey (envelope : option KeyEnvelope) (md : gomap) (m : RSAKEKManager) (w : World)
    : result (list byte) * RSAKEKManager * World :=
  let '(cerr, w) := ctx_err w in
  match cerr with
  | Some e => (Err (Wrapf "keymanager/self-contained-rsa: %w" e), m, w)
  | None =>
      match envelope with
      | None => (Err (Wrapf "%w: envelope is nil" ErrInvalidEnvelope), m, w)
      | Some env =>
          if len (env_Ciphertext env) =? 0 then (Err (Wrapf "%w: ciphertext is empty" ErrInvalidEnvelope), m, w)
          else if rm_closed m then (Err ErrProviderUnavailable, m, w)
          else match DecryptOAEP (rm_privateKey m) (env_Ciphertext env) with
               | Err _ => (Err (Wrapf "%w: %w" ErrUnwrapFailed), m, w)
               | Ok plaintext => (Ok plaintext, m, w)
               end
      end
  end.

Definition rsa_ActiveKeyVersion (m : RSAKEKManager) (w : World) : result Z * RSAKEKManager * World :=
  (if rm_closed m then Err ErrProviderUnavailable else Ok (rm_keyVersion m), m, w).

(** The constructor refuses a nil key, so the check for it is not modelled. *)
Definition rsa_HealthCheck (m : RSAKEKManager) (w : World) : option error * RSAKEKManager * World :=
  (if rm_closed m then Some ErrProviderUnavailable
   else match rk_N (rm_privateKey m) with
        | None => Some (Errorf "keymanager/self-contained-rsa: key modulus is nil")
        | Some _ => if modulusMismatch (rm_privateKey m)
                    then Some (Errorf "keymanager/self-contained-rsa: public and private key modulus mismatch") else None
        end, m, w).

Definition rsa_Close (m : RSAKEKManager) (w : World) : option error * RSAKEKManager * World :=
  if rm_closed m then (None, m, w)
  else (None, mkRSA (rm_providerName m) (zeroKey (rm_privateKey m)) (rm_keyID m) (rm_keyVersion m) true, w).

#[export] Instance rsa_km : KeyManager RSAKEKManager := {|
  Provider := rm_providerName; WrapKey := rsa_WrapKey; UnwrapKey := rsa_UnwrapKey;
  ActiveKeyVersion := rsa_ActiveKeyVersion; HealthCheck := rsa_HealthCheck; km_Close := rsa_Close |}.
End rsa.

(** ** The factory

    Configuration values as YAML gives them; a [float64] by its integer part. *)

Inductive any :=
| AStr (s : string) | AInt (z : Z) | AFloat (z : Z) | AList (l : list any) | AMap (m : list (string * any)) | AOther.
Abbreviation config := (list (string * any)).

Fixpoint cfg_lookup (cfg : config) (k : string) : option any :=
  match cfg with
  | [] => None
  | (k', v) :: cfg => if decide (k' = k) then Some v else cfg_lookup cfg k
  end.
(** [cfg[k].(string)] with its [ok]. *)
Definition cfg_string (cfg : config) (k : string) : option string :=
  match cfg_lookup cfg k with Some (AStr s) => Some s | _ => None end.

Definition parseIntEntry (m : config) (key : string) : result Z :=
  match cfg_lookup m key with
  | None => Err (Errorf "missing key %q")
  | Some (AFloat v) | Some (AInt v) => Ok v
  | Some _ => Err (Errorf "key %q must be a number")
  end.

(** The process environment, files, and the PEM and X.509 parsers, which give
    [None] for a key that is not RSA and, as documented, validate RSA keys. *)
Class Host := {
  os_Getenv : string → string; os_ReadFile : string → result (list byte);
  pem_Decode : list byte → option (string * list byte);
  ParsePKCS1PrivateKey : list byte → result PrivateKey; ParsePKCS8PrivateKey : list byte → result (option PrivateKey) }.
Class HostLaws `{Host, RSALaws} : Prop := {
  pkcs1_valid : ∀ der key, ParsePKCS1PrivateKey der = Ok key → rsa_valid key;
  pkcs8_valid : ∀ der key, ParsePKCS8PrivateKey der = Ok (Some key) → rsa_valid key }.

Definition TrimSpace (s : string) : string := string_of_bytes (TrimSpaceB (bytes_of_string s)).
Definition StdDecodeString (s : string) : result (list byte) :=
  match DecodeString std_alphabet true s with Some b => Ok b | None => Err (Errorf "illegal base64 data at input byte %d") end.

Section factory.
Context `{Ciphers, MapOrder, RSA, SHA256, Host}.

Definition resolveSelfContainedAESKey (src : string) : result (list byte) :=
  if HasPrefix src "env:" then
    let val := os_Getenv (TrimPrefix src "env:") in
    if decide (val = "") then Err (Errorf "environment variable %q is empty or unset") else StdDecodeString (TrimSpace val)
  else if HasPrefix src "base64:" then StdDecodeString (TrimSpace (TrimPrefix src "base64:"))
  else if HasPrefix src "file:" then
    data ← wrapErr "failed to read key file %q: %w" (os_ReadFile (TrimPrefix src "file:"));
    let trimmed := TrimSpace (string_of_bytes data) in
    if decide (trimmed = "") then Err (Errorf "key file %q is empty") else StdDecodeString trimmed
  else
    let raw := bytes_of_string src in
    if negb (len raw =? 32) then Err (Errorf "invalid key material: must be 32 bytes (got %d bytes)") else Ok raw.

Definition resolveSelfContainedRSAKey (src : string) : result PrivateKey :=
  pemData ← (if HasPrefix src "env:" then
               let val := os_Getenv (TrimPrefix src "env:") in
               if decide (val = "") then Err (Errorf "environment variable %q is empty or unset") else Ok (bytes_of_string val)
             else if HasPrefix src "file:" then wrapErr "failed to read private key file %q: %w" (os_ReadFile (TrimPrefix src "file:"))
             else Ok (bytes_of_string src));
  match pem_Decode pemData with
  | None => Err (Errorf "failed to decode PEM block")
  | Some (type, der) =>
      if decide (type = "RSA PRIVATE KEY") then ParsePKCS1PrivateKey der
      else if decide (type = "PRIVATE KEY") then
        key ← wrapErr "failed to parse PKCS8 private key: %w" (ParsePKCS8PrivateKey der);
        match key with Some key => Ok key | None => Err (Errorf "PEM block is not an RSA private key (type: %T)") end
      else Err (Errorf "unsupported PEM block type %q (expected RSA PRIVATE KEY or PRIVATE KEY)")
  end.

(** One entry of [keys]. *)
Definition addConfiguredKey (keys : gmap Z (list byte)) (raw : any) : result (gmap Z (list byte)) :=
  match raw with
  | AMap entry =>
      version ← wrapErr "keymanager/self-contained/aes: keys[%d].version: %w" (parseIntEntry entry "version");
      if version <? 1 then Err (Errorf "keymanager/self-contained/aes: keys[%d].version must be positive") else
      match cfg_string entry "key_source" with
      | None | Some "" => Err (Errorf "keymanager/self-contained/aes: keys[%d].key_source is required")
      | Some keySource =>
          material ← wrapErr "keymanager/self-contained/aes: keys[%d]: %w" (resolveSelfContainedAESKey keySource);
          match keys !! version with
          | Some _ => Err (Errorf "keymanager/self-contained/aes: duplicate version %d in keys")
          | None => Ok (<[version := material]> keys)
          end
      end
  | _ => Err (Errorf "keymanager/self-contained/aes: keys[%d] is not a map")
  end.

Definition highestVersion (keys : gmap Z (list byte)) : Z :=
  foldl (λ active v, if active <? v then v else active) 0 (map_order (map_to_list keys).*1).

Definition aesOptions (cfg : config) : list AESKEKOption :=
  match cfg_string cfg "provider" with Some p => if decide (p ≠ "") then [WithAESProvider p] else [] | None => [] end.

Definition newAESKEKManagerFromConfig (cfg : config) : result AESKEKManager :=
  let opts := aesOptions cfg in
  match cfg_lookup cfg "keys" with
  | Some (AList ((_ :: _) as keysRaw)) =>
      keys ← foldl (λ acc raw, keys ← acc; addConfiguredKey keys raw) (Ok ∅) keysRaw;
      let activeVersion := match parseIntEntry cfg "active_version" with Ok av => av | Err _ => 0 end in
      let activeVersion := if activeVersion <? 1 then highestVersion keys else activeVersion in
      NewAESKEKManager keys activeVersion opts
  | _ => Err (Errorf "keymanager/self-contained/aes: keys is required and must be a non-empty list")
  end.

Definition rsaOptions (cfg : config) : list RSAKEKOption :=
  match cfg_string cfg "provider" with Some p => if decide (p ≠ "") then [WithRSAProvider p] else [] | None => [] end.

Definition newRSAKEKManagerFromConfig (cfg : config) : result RSAKEKManager :=
  let opts := rsaOptions cfg in
  match cfg_string cfg "private_key_source" with
  | None | Some "" => Err (Errorf "keymanager/self-contained/rsa: private_key_source is required")
  | Some privateKeySource =>
      privateKey ← wrapErr "keymanager/self-contained/rsa: %w" (resolveSelfContainedRSAKey privateKeySource);
      let keyVersion := match parseIntEntry cfg "key_version" with Ok kv => kv | Err _ => 1 end in
      NewRSAKEKManager (Some privateKey) keyVersion opts
  end.

(** The manager behind the interface. *)
Inductive SelfContained := SC_AES (m : AESKEKManager) | SC_RSA (m : RSAKEKManager).

Definition selfContainedFactory (cfg : config) : result SelfContained :=
  match cfg_string cfg "type" with
  | None | Some "" => Err (Errorf "keymanager/self-contained: type field is required (must be aes or rsa)")
  | Some typeVal =>
      if decide (ToLower typeVal = "aes") then SC_AES <$> newAESKEKManagerFromConfig cfg
      else if decide (ToLower typeVal = "rsa") then SC_RSA <$> newRSAKEKManagerFromConfig cfg
      else Err (Errorf "keymanager/self-contained: unknown type %q (must be aes or rsa)")
  end.

Definition lift_sc {A S} (f : S → SelfContained) (x : A * S * World) : A * SelfContained * World := (x.1.1, f x.1.2, x.2).

#[export] Instance selfContained_km : KeyManager SelfContained := {|
  Provider k := match k with SC_AES m => Provider m | SC_RSA m => Provider m end;
  WrapKey dek md k w := match k with SC_AES m => lift_sc SC_AES (WrapKey dek md m w) | SC_RSA m => lift_sc SC_RSA (WrapKey dek md m w) end;
  UnwrapKey env md k w := match k with SC_AES m => lift_sc SC_AES (UnwrapKey env md m w) | SC_RSA m => lift_sc SC_RSA (UnwrapKey env md m w) end;
  ActiveKeyVersion k w := match k with SC_AES m => lift_sc SC_AES (ActiveKeyVersion m w) | SC_RSA m => lift_sc SC_RSA (ActiveKeyVersion m w) end;
  HealthCheck k w := match k with SC_AES m => lift_sc SC_AES (HealthCheck m w) | SC_RSA m => lift_sc SC_RSA (HealthCheck m w) end;
  km_Close k w := match k with SC_AES m => lift_sc SC_AES (km_Close m w) | SC_RSA m => lift_sc SC_RSA (km_Close m w) end |}.
End factory.

(** ** The contract of the AES manager *)

Section aes_spec.
Context `{CiphersLaws} `{MapOrder}.

Definition aes_holds (m : AESKEKManager) (env : KeyEnvelope) (p : list byte) : Prop :=
  ak_closed m = false ∧ 0 < KeyVersion env ∧ 28 ≤ len (env_Ciphertext env) ∧
  ∃ kek, ak_keys m !! KeyVersion env = Some kek ∧ aes_tryUnwrap kek (env_Ciphertext env) = Ok p.

Lemma aes_tryUnwrap_seal kek gcm nonce p :
  newAESGCM kek = Ok gcm → length nonce = 12%nat → aes_tryUnwrap kek (nonce ++ Seal gcm nonce p []) = Ok p ∧ len (nonce ++ Seal gcm nonce p []) = 28 + len p.
Proof using All.
  intros Hg Hn. pose proof (newAESGCM_Ok _ _ Hg) as ->. unfold aes_tryUnwrap. rewrite Hg. cbn [mbind result_bind].
  rewrite take_app_le, take_ge, drop_app_ge, Hn, Nat.sub_diag, drop_0 by lia.
  rewrite (aead_open_seal (a := aes_gcm kek)) by done. split; [done|].
  rewrite length_app, (aead_seal_length (a := aes_gcm kek)), Hn by done. lia.
Qed.

Lemma aes_wrap_inv dek md m w r m' w' :
  aes_WrapKey dek md m w = (r, m', w') →
  m' = m ∧ ∀ env, r = Ok env →
    KeyID env = "self-contained-aes-v" +:+ FormatInt (ak_activeVersion m) ∧ KeyVersion env = ak_activeVersion m ∧
    env_Provider env = ak_providerName m ∧ len (env_Ciphertext env) = 28 + len dek ∧ (0 < ak_activeVersion m → aes_holds m env dek).
Proof using All.
  unfold aes_WrapKey. destruct (ctx_err w) as [[e|] w0]; [by intros; simplify_eq|].
  destruct (ak_closed m) eqn:Hc; [by intros; simplify_eq|]. destruct (ak_keys m !! ak_activeVersion m) as [kek|] eqn:Hk; [|by intros; simplify_eq].
  destruct (rand_read 12 w0) as [[nonce|e] w1] eqn:Er; [|by intros; simplify_eq]. apply rand_read_length in Er.
  destruct (newAESGCM kek) as [gcm|e] eqn:Hg; [|by intros; simplify_eq]. destruct (time_now w1) as [t w2]. intros; simplify_eq.
  split; [done|]. intros env [= <-]. cbn [KeyID KeyVersion env_Provider env_Ciphertext]. destruct (aes_tryUnwrap_seal kek gcm nonce dek Hg Er) as [Hu Hl].
  split_and!; [done..|]. intros Ha. unfold aes_holds. cbn [KeyVersion env_Ciphertext]. split_and!; [done..|lia|eauto].
Qed.

Lemma aes_unwrap_holds env p md m w :
  aes_holds m env p →
  aes_UnwrapKey (Some env) md m w =
    match ctx_err w with
    | (Some e, w') => (Err (Wrapf "keymanager/self-contained-aes: %w" e), m, w')
    | (None, w') => (Ok p, m, w')
    end.
Proof using.
  intros (Hc & Hv & Hl & kek & Hk & Hu). unfold aes_UnwrapKey. destruct (ctx_err w) as [[e|] w']; [done|].
  rewrite Hc, (proj2 (Z.ltb_ge _ _)) by lia. unfold aes_candidateVersions. rewrite (proj2 (Z.ltb_lt _ _)) by done.
  cbn [aes_tryVersions]. by rewrite Hk, Hu.
Qed.

Lemma aes_unwrap_state oenv md m w r m' w' : aes_UnwrapKey oenv md m w = (r, m', w') → m' = m.
Proof using. unfold aes_UnwrapKey. intros. repeat case_match; by simplify_eq. Qed.

#[export] Program Instance aes_spec : KeyManagerSpec AESKEKManager := {|
  km_inv m := 0 < ak_activeVersion m; km_holds := aes_holds |}.
Next Obligation. intros dek md m w r m' w' Hl Ha Hr. destruct (aes_wrap_inv dek md m w r m' w' Hr) as [-> Hw]. split_and!; [done| |done]. intros env E. by apply Hw. Qed.
Next Obligation.
  intros oenv md m w r m' w' Ha Hu. cbn in Hu. pose proof (aes_unwrap_state _ _ _ _ _ _ _ Hu) as ->.
  split; [done|]. split; [done|]. intros env p -> Hh. rewrite (aes_unwrap_holds _ _ _ _ _ Hh) in Hu.
  unfold ctx_err in Hu. destruct (w_ctx w) as [|[c|] cs]; cbn in Hu; simplify_eq; try (by left).
  right. eexists. split; [done|]. rewrite rejects_wrap. apply rejects_ctx.
Qed.
Next Obligation. intros m w r m' w' Ha Hc. cbn in Hc. unfold aes_ActiveKeyVersion in Hc. by simplify_eq. Qed.
Next Obligation. intros m w r m' w' Ha Hc. cbn in Hc. unfold aes_HealthCheck in Hc. by simplify_eq. Qed.

Lemma aes_add_keeps version material m r m' env p : aes_AddVersion version material m = (r, m') → aes_holds m env p → aes_holds m' env p.
Proof using.
  intros Hr Hh. unfold aes_AddVersion in Hr. repeat case_match; simplify_eq; try done.
  destruct Hh as (Hc & Hv & Hl & kek & Hk & Hu). split_and!; [done..|]. exists kek. cbn. rewrite lookup_insert_ne; [done|]. congruence.
Qed.

Lemma aes_promote_keeps plan m r m' env p : aes_PromoteActiveVersion plan m = (r, m') → aes_holds m env p → aes_holds m' env p.
Proof using.
  intros Hr Hh. unfold aes_PromoteActiveVersion in Hr. repeat case_match; simplify_eq; try done. destruct Hh as (? & ? & ? & ?). by split_and!.
Qed.
End aes_spec.

(** ** The contract of the RSA manager *)

Section rsa_spec.
Context `{RSALaws, SHA256}.

Definition rsa_holds (m : RSAKEKManager) (env : KeyEnvelope) (p : list byte) : Prop :=
  rm_closed m = false ∧ env_Ciphertext env ≠ [] ∧ DecryptOAEP (rm_privateKey m) (env_Ciphertext env) = Ok p.

(** A key of at least 2048 bits. *)
Definition rsa_inv (m : RSAKEKManager) : Prop :=
  rsa_valid (rm_privateKey m) ∧ ∃ n, rk_N (rm_privateKey m) = Some n ∧ 256 ≤ keySizeBytes n.

Lemma rsa_wrap_inv dek md m w r m' w' :
  rsa_inv m → rsa_WrapKey dek md m w = (r, m', w') →
  m' = m ∧ ∀ env, r = Ok env →
    KeyID env = rm_keyID m ∧ KeyVersion env = rm_keyVersion m ∧ env_Provider env = rm_providerName m ∧
    (∃ n, rk_N (rm_privateKey m) = Some n ∧ len (env_Ciphertext env) = keySizeBytes n ∧ 256 ≤ keySizeBytes n) ∧ rsa_holds m env dek.
Proof using.
  intros (Hv & n & Hn & Hsz). unfold rsa_WrapKey. destruct (ctx_err w) as [[e|] w0]; [by intros; simplify_eq|].
  destruct (rm_closed m) eqn:Hc; [by intros; simplify_eq|].
  destruct (EncryptOAEP _ _ _ _) as [[c|e] w1] eqn:Ee; [|by intros; simplify_eq]. destruct (time_now w1) as [t w2]. intros; simplify_eq.
  split; [done|]. intros env [= <-]. cbn [KeyID KeyVersion env_Provider env_Ciphertext].
  pose proof (oaep_roundtrip _ _ _ _ _ Hv Ee) as Hd. rewrite Hn in Ee. pose proof (oaep_length _ _ _ _ _ _ Ee) as Hl.
  split_and!; [done..|by exists n|]. unfold rsa_holds. cbn [env_Ciphertext]. split_and!; [done| |done]. intros ->. cbn in Hl. lia.
Qed.

Lemma rsa_unwrap_holds env p md m w :
  rsa_holds m env p →
  rsa_UnwrapKey (Some env) md m w =
    match ctx_err w with
    | (Some e, w') => (Err (Wrapf "keymanager/self-contained-rsa: %w" e), m, w')
    | (None, w') => (Ok p, m, w')
    end.
Proof using.
  intros (Hc & Hne & Hd). unfold rsa_UnwrapKey. destruct (ctx_err w) as [[e|] w']; [done|].
  rewrite (proj2 (Z.eqb_neq _ _)), Hc, Hd; [done|]. destruct (env_Ciphertext env); [done|cbn; lia].
Qed.

Lemma rsa_unwrap_state oenv md m w r m' w' : rsa_UnwrapKey oenv md m w = (r, m', w') → m' = m.
Proof using. unfold rsa_UnwrapKey. intros. repeat case_match; by simplify_eq. Qed.

#[export] Program Instance rsa_spec : KeyManagerSpec RSAKEKManager := {| km_inv := rsa_inv; km_holds := rsa_holds |}.
Next Obligation. intros dek md m w r m' w' Hl Hi Hr. destruct (rsa_wrap_inv dek md m w r m' w' Hi Hr) as [-> Hw]. split_and!; [done| |done]. intros env E. by apply Hw. Qed.
Next Obligation.
  intros oenv md m w r m' w' Ha Hu. cbn in Hu. pose proof (rsa_unwrap_state _ _ _ _ _ _ _ Hu) as ->.
  split; [done|]. split; [done|]. intros env p -> Hh. rewrite (rsa_unwrap_holds _ _ _ _ _ Hh) in Hu.
  unfold ctx_err in Hu. destruct (w_ctx w) as [|[c|] cs]; cbn in Hu; simplify_eq; try (by left).
  right. eexists. split; [done|]. rewrite rejects_wrap. apply rejects_ctx.
Qed.
Next Obligation. intros m w r m' w' Ha Hc. cbn in Hc. unfold rsa_ActiveKeyVersion in Hc. by simplify_eq. Qed.
Next Obligation. intros m w r m' w' Ha Hc. cbn in Hc. unfold rsa_HealthCheck in Hc. by simplify_eq. Qed.
End rsa_spec.

(** ** Either manager *)

Section spec.
Context `{CiphersLaws} `{MapOrder} `{RSALaws, SHA256}.

Definition sc_inv (k : SelfContained) : Prop := match k with SC_AES m => km_inv m | SC_RSA m => km_inv m end.
Definition sc_holds (k : SelfContained) : KeyEnvelope → list byte → Prop := match k with SC_AES m => km_holds m | SC_RSA m => km_holds m end.

#[export] Program Instance selfContained_spec : KeyManagerSpec SelfContained := {| km_inv := sc_inv; km_holds := sc_holds |}.
Next Obligation.
  intros dek md [m|m] w r k' w' Hl Hi Hw;
    [change (lift_sc SC_AES (WrapKey dek md m w) = (r, k', w')) in Hw|change (lift_sc SC_RSA (WrapKey dek md m w) = (r, k', w')) in Hw];
    destruct (WrapKey dek md m w) as [[r1 m1] w1] eqn:E; injection Hw as <- <- <-; exact (wrap_spec dek md m w r1 m1 w1 Hl Hi E).
Qed.
Next Obligation.
  intros oenv md [m|m] w r k' w' Hi Hw;
    [change (lift_sc SC_AES (UnwrapKey oenv md m w) = (r, k', w')) in Hw|change (lift_sc SC_RSA (UnwrapKey oenv md m w) = (r, k', w')) in Hw];
    destruct (UnwrapKey oenv md m w) as [[r1 m1] w1] eqn:E; injection Hw as <- <- <-; exact (unwrap_spec oenv md m w r1 m1 w1 Hi E).
Qed.
Next Obligation. intros [m|m] w r k' w' Hi Hw; cbn in Hw; unfold lift_sc in Hw; by simplify_eq/=. Qed.
Next Obligation. intros [m|m] w r k' w' Hi Hw; cbn in Hw; unfold lift_sc in Hw; by simplify_eq/=. Qed.

(** Everything clients and operators do to a manager short of closing it. *)
Inductive selfContained_step : SelfContained → SelfContained → Prop :=
| sc_call c k w k' w' : km_run1 c (k, w) = (k', w') → selfContained_step k k'
| sc_add version material m r m' : aes_AddVersion version material m = (r, m') → selfContained_step (SC_AES m) (SC_AES m')
| sc_promote plan m r m' : aes_PromoteActiveVersion plan m = (r, m') → selfContained_step (SC_AES m) (SC_AES m').

(** No call changes the manager. *)
Lemma sc_call_state c k w k' w' : match k with SC_RSA m => rsa_inv m | _ => True end → km_run1 c (k, w) = (k', w') → k' = k.
Proof using H0.
  intros Hi Hr. destruct k as [m|m], c as [dek md|oenv md| |]; cbn in Hr; unfold lift_sc in Hr; simplify_eq; try done; f_equal; cbn.
  - destruct (aes_WrapKey dek md m w) as [[r m'] w'] eqn:E. by apply aes_wrap_inv in E as [-> _].
  - destruct (aes_UnwrapKey oenv md m w) as [[r m'] w'] eqn:E. by apply aes_unwrap_state in E.
  - destruct (rsa_WrapKey dek md m w) as [[r m'] w'] eqn:E. by apply rsa_wrap_inv in E as [-> _].
  - destruct (rsa_UnwrapKey oenv md m w) as [[r m'] w'] eqn:E. by apply rsa_unwrap_state in E.
Qed.

Definition keeps (env : KeyEnvelope) (p : list byte) (k : SelfContained) : Prop :=
  match k with SC_RSA m => rsa_inv m | _ => True end ∧ km_holds k env p.

Lemma sc_step_keeps k k' env p : selfContained_step k k' → keeps env p k → keeps env p k'.
Proof using All.
  intros Hs [Hi Hh]. destruct Hs as [c k w k' w' Hr|version material m r m' Hr|plan m r m' Hr].
  - by rewrite (sc_call_state c k w k' w' Hi Hr).
  - split; [done|]. by eapply aes_add_keeps.
  - split; [done|]. by eapply aes_promote_keeps.
Qed.

Lemma sc_unwrap_holds (k : SelfContained) env p md w : km_holds k env p → w_ctx w = [] → UnwrapKey (Some env) md k w = (Ok p, k, w).
Proof using All.
  intros Hh Hw. destruct k as [m|m]; cbn; unfold lift_sc.
  - rewrite (aes_unwrap_holds _ _ _ _ _ Hh). unfold ctx_err. by rewrite Hw.
  - rewrite (rsa_unwrap_holds _ _ _ _ _ Hh). unfold ctx_err. by rewrite Hw.
Qed.
End spec.

(** ** What the factory builds *)

Section built.
Context `{CiphersLaws, MapOrder, Host, HostLaws, SHA256}.

Lemma firstKeyError_none l : firstKeyError l = None → ∀ v k, (v, k) ∈ l → aesKeyError k = None.
Proof using.
  induction l as [|[v k] l IH]; cbn; [by intros _ ?? ?%elem_of_nil|]. destruct (aesKeyError k) eqn:E; [done|].
  intros Hl v' k' [[= -> ->]|Hin]%elem_of_cons; [done|by eapply IH].
Qed.

Lemma entries_in (keys : gmap Z (list byte)) v k : keys !! v = Some k → (v, k) ∈ entries keys.
Proof using.
  intros Hk. unfold entries. apply list_elem_of_omap. exists v. rewrite map_order_perm. split; [|by rewrite Hk].
  apply list_elem_of_fmap. exists (v, k). by rewrite elem_of_map_to_list.
Qed.

Lemma aes_options_keys opts m : Forall (λ o, ∃ p, o = WithAESProvider p) opts →
  let m' := foldl (λ m o, o m) m opts in ak_keys m' = ak_keys m ∧ ak_activeVersion m' = ak_activeVersion m ∧ ak_closed m' = ak_closed m.
Proof using.
  intros Ho. revert m. induction Ho as [|o opts [p ->] _ IH]; intros m; [done|]. cbn. destruct (IH (WithAESProvider p m)) as (-> & -> & ->).
  unfold WithAESProvider. by case_decide.
Qed.

Lemma addConfiguredKey_positive keys raw keys' :
  addConfiguredKey keys raw = Ok keys' → (∀ v, is_Some (keys !! v) → 1 ≤ v) → ∀ v, is_Some (keys' !! v) → 1 ≤ v.
Proof using.
  intros Ha Hp v Hv. destruct raw as [| | | |entry|]; try done. cbn in Ha.
  destruct (wrapErr _ (parseIntEntry entry "version")) as [version|]; [|done]. cbn in Ha. destruct (Z.ltb_spec version 1); [done|].
  destruct (cfg_string entry "key_source") as [[|c s]|]; [done| |done]. destruct (wrapErr _ (resolveSelfContainedAESKey _)) as [mat|]; [|done]. cbn in Ha.
  destruct (keys !! version); [done|]. injection Ha as <-. destruct (decide (version = v)) as [<-|Hne]; [lia|]. rewrite lookup_insert_ne in Hv by done. by apply Hp.
Qed.

Lemma configured_positive l : ∀ acc keys,
  (∀ keys, acc = Ok keys → ∀ v, is_Some (keys !! v) → 1 ≤ v) →
  foldl (λ acc raw, keys ← acc; addConfiguredKey keys raw) acc l = Ok keys → ∀ v, is_Some (keys !! v) → 1 ≤ v.
Proof using.
  induction l as [|raw l IH]; intros acc keys Hacc Hr; cbn in Hr; [by eapply Hacc|]. eapply IH; [|exact Hr].
  intros keys1 H1'. destruct acc as [keys0|]; [|done]. cbn in H1'. eapply addConfiguredKey_positive; [done|by apply Hacc].
Qed.

(** A 32-byte key that is not zero under every version, all versions positive,
    one of them active. *)
Definition aes_built (m : AESKEKManager) : Prop :=
  ak_closed m = false ∧ is_Some (ak_keys m !! ak_activeVersion m) ∧ ∀ v k, ak_keys m !! v = Some k → 1 ≤ v ∧ len k = 32 ∧ allZero k = false.
Definition rsa_built (m : RSAKEKManager) : Prop := rm_closed m = false ∧ 1 ≤ rm_keyVersion m ∧ rsa_inv m.

Lemma aes_from_config cfg m : newAESKEKManagerFromConfig cfg = Ok m → aes_built m.
Proof using.
  unfold newAESKEKManagerFromConfig. set (opts := aesOptions cfg).
  assert (Ho : Forall (λ o, ∃ p, o = WithAESProvider p) opts) by (unfold opts, aesOptions; repeat case_match; eauto).
  destruct (cfg_lookup cfg "keys") as [[| | |[|raw l]| |]|]; try done. cbv zeta. intros Hr. apply bind_Ok in Hr as (keys & Hk & Hr).
  pose proof (configured_positive (raw :: l) (Ok ∅) keys ltac:(intros ? [= <-] v [? Hv]; by rewrite lookup_empty in Hv) Hk) as Hpos.
  revert Hr. generalize (if match parseIntEntry cfg "active_version" with Ok av => av | Err _ => 0 end <? 1 then highestVersion keys
    else match parseIntEntry cfg "active_version" with Ok av => av | Err _ => 0 end) as active. intros active Hr.
  unfold NewAESKEKManager in Hr. case_bool_decide; [done|]. destruct (keys !! active) as [kek|] eqn:Ea; [|done].
  destruct (firstKeyError (entries keys)) eqn:Ef; [done|]. injection Hr as <-.
  destruct (aes_options_keys opts (mkAES "self_contained" keys active false) Ho) as (E1 & E2 & E3). unfold aes_built. rewrite E1, E2, E3. cbn [ak_keys ak_activeVersion ak_closed].
  split_and!; [done|by rewrite Ea|]. intros v k Hvk. split; [apply Hpos; by rewrite Hvk|].
  pose proof (firstKeyError_none _ Ef v k (entries_in _ _ _ Hvk)) as He. unfold aesKeyError in He. destruct (Z.eqb_spec (len k) 32); [|done]. cbn in He.
  by destruct (allZero k).
Qed.

Lemma rsa_from_config cfg m : newRSAKEKManagerFromConfig cfg = Ok m → rsa_built m.
Proof using All.
  unfold newRSAKEKManagerFromConfig. set (opts := rsaOptions cfg).
  assert (Ho : ∀ m, let m' := foldl (λ m o, o m) m opts in rm_privateKey m' = rm_privateKey m ∧ rm_keyVersion m' = rm_keyVersion m ∧ rm_closed m' = rm_closed m).
  { intros m0. unfold opts, rsaOptions. repeat case_match; try done. cbn. unfold WithRSAProvider. by case_decide. }
  destruct (cfg_string cfg "private_key_source") as [[|c s]|]; try done. intros Hr. apply bind_Ok in Hr as (key & Hk%wrapErr_Ok & Hr). cbv zeta in Hr.
  assert (Hv : rsa_valid key).
  { unfold resolveSelfContainedRSAKey in Hk. apply bind_Ok in Hk as (pem & _ & Hk). destruct (pem_Decode pem) as [[type der]|]; [|done].
    case_decide; [by eapply pkcs1_valid|]. case_decide; [|done]. apply bind_Ok in Hk as (key' & Hk'%wrapErr_Ok & Hk). destruct key'; [|done].
    injection Hk as ->. by eapply pkcs8_valid. }
  revert Hr. generalize (match parseIntEntry cfg "key_version" with Ok kv => kv | Err _ => 1 end) as version. intros version. unfold NewRSAKEKManager.
  destruct (rk_N key) as [n|] eqn:En; [|done]. cbv zeta. destruct (Z.ltb_spec (keySizeBytes n) 256); [done|]. destruct (modulusMismatch _); [done|].
  destruct (MarshalPKIXPublicKey _ _); [|done]. intros [= <-]. destruct (Ho (mkRSA "self_contained" (rsa_Precompute key)
    ("self-contained-rsa-" +:+ hex_encode (take 8 (sha256 a))) (if version <? 1 then 1 else version) false)) as (E1 & E2 & E3).
  unfold rsa_built, rsa_inv. rewrite E1, E2, E3. cbn [rm_privateKey rm_keyVersion rm_closed]. rewrite precompute_N, En.
  split_and!; [done|destruct (Z.ltb_spec version 1); lia|by apply precompute_valid|by exists n].
Qed.

(** C20: the self-contained managers keep every data key. A manager the factory
    builds is healthy and wraps under a positive version. What it has wrapped it
    unwraps to the same data key after any calls, staged versions and
    promotions: an AES table tries the version of the envelope first and never
    replaces a version, and an RSA key pair that parses decrypts what it
    encrypts. *)
Theorem selfcontained_keeps_keys cfg k :
  selfContainedFactory cfg = Ok k →
  (∀ w, HealthCheck k w = (None, k, w)) ∧ (∃ v, 1 ≤ v ∧ ∀ w, ActiveKeyVersion k w = (Ok v, k, w)) ∧
  ∀ dek md env w k1 w1 k2 md' w2, WrapKey dek md k w = (Ok env, k1, w1) → rtc selfContained_step k1 k2 → w_ctx w2 = [] →
    UnwrapKey (Some env) md' k2 w2 = (Ok dek, k2, w2).
Proof using All.
  intros Hf. assert (Hb : match k with SC_AES m => aes_built m | SC_RSA m => rsa_built m end).
  { unfold selfContainedFactory in Hf. destruct (cfg_string cfg "type") as [[|c s]|]; try done. revert Hf. case_decide; [|case_decide; [|done]].
    - destruct (newAESKEKManagerFromConfig cfg) eqn:E; [|done]. intros [= <-]. by eapply aes_from_config.
    - destruct (newRSAKEKManagerFromConfig cfg) eqn:E; [|done]. intros [= <-]. by eapply rsa_from_config. }
  assert (Hkeep : ∀ dek md env w k1 w1, WrapKey dek md k w = (Ok env, k1, w1) → keeps env dek k1).
  { intros dek md env w k1 w1 Hw. destruct k as [m|m]; cbn in Hw; unfold lift_sc in Hw; cbn in Hw; injection Hw as E <- <-.
    - destruct (aes_WrapKey dek md m w) as [[r m'] w'] eqn:Ew. cbn in E |- *. destruct (aes_wrap_inv _ _ _ _ _ _ _ Ew) as [-> Hh].
      split; [done|]. apply Hh; [done|]. destruct Hb as (_ & [kek Hk] & Hall). destruct (Hall _ _ Hk). lia.
    - destruct (rsa_WrapKey dek md m w) as [[r m'] w'] eqn:Ew. cbn in E |- *. destruct Hb as (_ & _ & Hi).
      destruct (rsa_wrap_inv _ _ _ _ _ _ _ Hi Ew) as [-> Hh]. split; [done|]. by apply Hh. }
  split_and!.
  - intros w. destruct k as [m|m]; cbn; unfold lift_sc; cbn.
    + destruct Hb as (Hc & [kek Hk] & Hall). destruct (Hall _ _ Hk) as (_ & Hl & _). unfold aes_HealthCheck. cbn. by rewrite Hc, Hk, Hl.
    + destruct Hb as (Hc & _ & _ & n & Hn & _). unfold rsa_HealthCheck, modulusMismatch. cbn. by rewrite Hc, Hn, bool_decide_eq_true_2.
  - destruct k as [m|m]; cbn; unfold lift_sc; cbn.
    + destruct Hb as (Hc & [kek Hk] & Hall). destruct (Hall _ _ Hk) as (Hv & _). exists (ak_activeVersion m). split; [done|]. by rewrite Hc.
    + destruct Hb as (Hc & Hv & _). exists (rm_keyVersion m). split; [done|]. by rewrite Hc.
  - intros dek md env w k1 w1 k2 md' w2 Hw Hsteps Hctx. apply sc_unwrap_holds; [|done].
    enough (keeps env dek k2) as [_ ?] by done. apply Hkeep in Hw.
    eapply (rtc_ind_r (keeps env dek) k1); [done| |done]. intros x y _ Hs Hx. by eapply sc_step_keeps.
Qed.
End built.

(** ** Stored envelopes

    What an engine asks of a key manager. Buffered objects also need the
    envelope to be no longer than 1024 bytes, which bounds an RSA modulus to
    8192 bits. *)

Section storable.
Context `{CiphersLaws} `{MapOrder} `{RSALaws, SHA256}.

Definition sc_storing (k : SelfContained) : Prop :=
  match k with
  | SC_AES m => ak_activeVersion m ≤ MaxInt64 ∧ ak_providerName m ≠ "" ∧ ascii_string (ak_providerName m) = true
  | SC_RSA m => 1 ≤ rm_keyVersion m ≤ MaxInt64 ∧ rm_providerName m ≠ "" ∧ ascii_string (rm_providerName m) = true ∧
      rm_keyID m ≠ "" ∧ ascii_string (rm_keyID m) = true ∧ ∀ n, rk_N (rm_privateKey m) = Some n → keySizeBytes n ≤ 1024
  end.

Lemma sc_envelope dek md (k : SelfContained) w env k' w' :
  length dek = 32%nat → km_inv k → sc_storing k → WrapKey dek md k w = (Ok env, k', w') →
  named env ∧ KeyVersion env ≤ MaxInt64 ∧ envelope_ascii (Some env).
Proof using H0.
  intros Hl Hi Hs Hw. destruct k as [m|m]; cbn in Hw; unfold lift_sc in Hw; injection Hw as E <- <-.
  - destruct (aes_WrapKey dek md m w) as [[r m'] w'] eqn:Ew. cbn in E. subst r. destruct (aes_wrap_inv dek md m w _ _ _ Ew) as [_ Hh].
    destruct (Hh env eq_refl) as (E1 & E2 & E3 & E4 & _). destruct Hs as (S1 & S2 & S3). cbn in Hi.
    unfold named, envelope_ascii. rewrite E1, E2, E3, E4, Hl, ascii_app, FormatInt_ascii, S3. split_and!; try done; vm_compute; reflexivity.
  - destruct (rsa_WrapKey dek md m w) as [[r m'] w'] eqn:Ew. cbn in E. subst r. destruct (rsa_wrap_inv dek md m w _ _ _ Hi Ew) as [_ Hh].
    destruct (Hh env eq_refl) as (E1 & E2 & E3 & (n & Hn & E4 & Hn1) & _). destruct Hs as (S1 & S2 & S3 & S4 & S5 & S6). specialize (S6 n Hn).
    unfold named, envelope_ascii. rewrite E1, E2, E3, E4, S3, S5. split_and!; try done; lia.
Qed.

#[export] Program Instance selfContained_storable : StorableEnvelopes SelfContained := {| storing := sc_storing |}.
Next Obligation.
  intros dek md k w env k' w' Hl Hi Hs Hw. destruct (sc_envelope dek md k w env k' w' Hl Hi Hs Hw) as ((_ & _ & ? & ? & ?) & ? & ?).
  split_and!; [lia|done| |done]. intros E. rewrite E in *. cbn in *. lia.
Qed.
Next Obligation. intros [m|m] env p Hh; exact Hh. Qed.

Lemma selfContained_names : names_keys SelfContained.
Proof using H0. intros dek md k w env k' w' Hl Hi Hs Hw. by apply (sc_envelope dek md k w env k' w'). Qed.
End storable.

(** ** The theorem at a concrete input *)

Module SelfContainedWitness.
Import ToyInstances MemoryWitness.
(** An encryption that writes the length and the message into a block as long as the modulus. *)
#[export] Instance block_rsa : RSA := {|
  rsa_Precompute key := key;
  EncryptOAEP n e m w := match n with
    | None => (Err (Errorf "crypto/rsa: missing public modulus"), w)
    | Some n => if (len m <? 256) && (len m <? keySizeBytes n)
                then (Ok (resize (Z.to_nat (keySizeBytes n)) x00 (byte_of (len m) :: m)), w)
                else (Err (Errorf "crypto/rsa: message too long for RSA key size"), w)
    end;
  DecryptOAEP key c := match c with b :: l => Ok (take (Z.to_nat (byte_val b)) l) | [] => Err (Errorf "crypto/rsa: decryption error") end;
  MarshalPKIXPublicKey n e := Ok [x30] |}.
#[export] Program Instance block_rsa_laws : RSALaws := {| rsa_valid _ := True |}.
Next Obligation.
  intros key m w c w' _. cbn. destruct (rk_N key) as [n|]; [|done]. destruct (Z.ltb_spec (len m) 256), (Z.ltb_spec (len m) (keySizeBytes n)); try done.
  cbn. intros [= <- _]. rewrite resize_ge by (cbn; lia). cbn [app]. rewrite byte_val_of, Z.mod_small, Nat2Z.id by lia. by rewrite take_app_length.
Qed.
Next Obligation.
  intros n e m w c w'. cbn. destruct (Z.ltb_spec (len m) 256), (Z.ltb_spec (len m) (keySizeBytes n)); try done.
  cbn. intros [= <- _]. rewrite length_resize. lia.
Qed.
Next Obligation. done. Qed.
Next Obligation. done. Qed.

Definition rsaKey : PrivateKey := mkKey (Some (2 ^ 2047)) 65537 (Some 3) [Some 5; Some 7] None None None.
#[export] Instance one_key : Host := {|
  os_Getenv _ := ""; os_ReadFile _ := Err (Errorf "no such file"); pem_Decode l := Some ("RSA PRIVATE KEY", l);
  ParsePKCS1PrivateKey _ := Ok rsaKey; ParsePKCS8PrivateKey _ := Ok None |}.
#[export] Instance one_key_laws : HostLaws.
Proof. by split. Qed.

Definition aesConfig : config :=
  [("type", AStr "AES"); ("keys", AList [AMap [("version", AInt 1); ("key_source", AStr "0123456789abcdef0123456789abcdef")];
    AMap [("version", AFloat 2); ("key_source", AStr "base64:MTExMTExMTExMTExMTExMTExMTExMTExMTExMTExMTE=")]])].
Definition rsaConfig : config := [("type", AStr "rsa"); ("private_key_source", AStr "pem"); ("key_version", AInt 3)].
Definition rsaManager : RSAKEKManager := mkRSA "self_contained" rsaKey ("self-contained-rsa-" +:+ hex_encode (take 8 (sha256 [x30]))) 3 false.
Definition rsaEnvelope : KeyEnvelope :=
  mkEnvelope (rm_keyID rsaManager) 3 "self_contained" (resize 256 x00 (x20 :: dek)) 100.
End SelfContainedWitness.

Section witness.
Import ToyInstances MemoryWitness SelfContainedWitness.

Lemma selfcontained_keeps_keys_witness :
  (∃ m env m2, selfContainedFactory aesConfig = Ok (SC_AES m) ∧ WrapKey dek [] (SC_AES m) world = (Ok env, SC_AES m, world) ∧ KeyVersion env = 2 ∧
     ak_activeVersion m2 = 1 ∧ UnwrapKey (Some env) [] (SC_AES m2) world = (Ok dek, SC_AES m2, world)) ∧
  (∃ m env, selfContainedFactory rsaConfig = Ok (SC_RSA m) ∧ WrapKey dek [] (SC_RSA m) world = (Ok env, SC_RSA m, world) ∧
     UnwrapKey (Some env) [] (SC_RSA m) world = (Ok dek, SC_RSA m, world)).
Proof.
  split.
  - assert (Hf : ∃ m, selfContainedFactory aesConfig = Ok (SC_AES m) ∧ ak_activeVersion m = 2 ∧ ak_closed m = false ∧ is_Some (ak_keys m !! 1) ∧
      ∃ env, WrapKey dek [] (SC_AES m) world = (Ok env, SC_AES m, world) ∧ KeyVersion env = 2)
      by (eexists; split_and!; [vm_compute; reflexivity|vm_compute; reflexivity|vm_compute; reflexivity|vm_compute; eauto|eexists; split; vm_compute; reflexivity]).
    destruct Hf as (m & Hf & Ha & Hc & [k1 Hk] & env & Hw & Hv).
    exists m, env, (mkAES (ak_providerName m) (ak_keys m) 1 (ak_closed m)). split_and!; [done..|].
    apply (selfcontained_keeps_keys aesConfig (SC_AES m) Hf) with (1 := Hw); [|reflexivity].
    apply rtc_once, (sc_promote (mkPlan 2 1) m None). unfold aes_PromoteActiveVersion. cbn [TargetVersion CurrentVersion]. rewrite Hc, Ha, Hk. reflexivity.
  - assert (Hf : selfContainedFactory rsaConfig = Ok (SC_RSA rsaManager)) by (vm_compute; reflexivity).
    assert (Hw : WrapKey dek [] (SC_RSA rsaManager) world = (Ok rsaEnvelope, SC_RSA rsaManager, world)) by (vm_compute; reflexivity).
    exists rsaManager, rsaEnvelope. split; [exact Hf|]. split; [exact Hw|].
    apply (selfcontained_keeps_keys rsaConfig (SC_RSA rsaManager) Hf) with (1 := Hw); [apply rtc_refl|reflexivity].
Defined.
End witness.
