(* ===== verification/AwsChunked.v ===== *)
(** * AWS-chunked request bodies ([internal/api/aws_chunked_reader.go])

    S3 clients send streaming uploads as a sequence of chunks, each with its
    size in hexadecimal and, in the signed modes, a signature chained to the
    previous one. [verifyAWSChunkedContext] decodes the whole body into a sink
    before anything is forwarded. A chunk is staged in a temporary file and
    reaches the sink only after its signature has been accepted.

    HMAC-SHA256 and SHA-256 are parameters. The environment of a run is the
    list of answers of the request context's polls and of the temporary-file
    operations, in the order the code makes them: [true] is "canceled" and
    "the operation fails". *)
From S2P Require Import Prelude GoStd GoIO GoText Primitives Spool.
Local Open Scope Z_scope.
Local Open Scope go_scope.

Definition ErrStreamingFraming : error := Sentinel "invalid AWS-chunked framing".
Definition ErrStreamingLength : error := Sentinel "decoded payload length mismatch".
Definition ErrStreamingTrailer : error := Sentinel "invalid AWS-chunked trailer".
Definition ErrStreamingTrailingData : error := Sentinel "data follows AWS-chunked message".
Definition ErrIncompleteBody : error := Sentinel "incomplete AWS-chunked request body".
Definition ErrStreamingCanceled : error := Sentinel "AWS-chunked request canceled".
Definition ErrStreamingSpool : error := Sentinel "AWS-chunked spool I/O failed".
Definition ErrSignatureMismatch : error := Sentinel "signature validation failed".

Inductive streamingPayloadMode :=
| streamingNone | streamingSignedPayload | streamingSignedPayloadTrailer | streamingUnsignedPayloadTrailer.
#[export] Instance streamingPayloadMode_eq_dec : EqDecision streamingPayloadMode.
Proof. solve_decision. Defined.

(** HMAC over SHA-256 and SHA-1 ([crypto/hmac]). *)
Class HMAC := {
  hmac_sha256 : bytes → bytes → bytes;
  hmac_sha1 : bytes → bytes → bytes }.
Class HMACLaws `{HMAC} : Prop := { hmac_sha256_length : ∀ k m, length (hmac_sha256 k m) = 32%nat }.

Record V4SigningContext := mkSigning {
  sc_timestamp : bytes; sc_credentialScope : bytes; sc_signingKey : bytes; sc_seedSignature : bytes;
  sc_mode : streamingPayloadMode; sc_expectedPayloadHash : bytes; sc_verifyPayload : bool; sc_closed : bool }.

Definition clearAuthBytes (l : bytes) : bytes := (λ _, x00) <$> l.
(** [V4SigningContext.Close]. *)
Definition SigningClose (c : V4SigningContext) : V4SigningContext :=
  if sc_closed c then c
  else mkSigning (sc_timestamp c) (sc_credentialScope c) [] (clearAuthBytes (sc_seedSignature c)) (sc_mode c)
         (clearAuthBytes (sc_expectedPayloadHash c)) false true.

(** ** Text helpers *)

Definition maxAWSChunkHeaderBytes : Z := Z.shiftl 8 10.
Definition maxAWSChunkBytes : Z := Z.shiftl 64 20.
Definition copy_block : Z := Z.shiftl 32 10.
Definition crlf : bytes := ["013"; "010"]%byte.
Definition marker : bytes := bytes_of_string ";chunk-signature=".

Definition validLowerHex (s : bytes) (width : Z) : bool :=
  if negb (len s =? width) then false else forallb is_lower_hex s.

Definition decodeSignature (dst s : bytes) : option error * bytes :=
  if negb (validLowerHex s 64) || negb (len dst =? 32) then (Some ErrStreamingFraming, dst)
  else match hex_decode s with Some b => (None, b) | None => (Some ErrStreamingFraming, dst) end.

Fixpoint index_from (sub s : bytes) (i : Z) : Z :=
  if decide (take (length sub) s = sub) then i
  else match s with [] => -1 | _ :: s => index_from sub s (i + 1) end.
Definition indexByteString (s sub : bytes) : Z := index_from sub s 0.

(** [readAWSLine]: the loop over [ReadSlice]; every part but the last fills
    the reader's buffer, so one turn per buffered block is enough. *)
Fixpoint readAWSLine_loop (fuel : nat) (s : Source) (limit : Z) (line : bytes) : option (result bytes * Source) :=
  match fuel with
  | O => None
  | S f =>
      let '(part, err, s) := ReadSlice s "010" in
      let line := line ++ part in
      if len line >? limit then Some (Err ErrStreamingFraming, s)
      else match err with
      | None => Some (Ok line, s)
      | Some e => if decide (e = ErrBufferFull) then readAWSLine_loop f s limit line else Some (Err e, s)
      end
  end.
Definition readAWSLine (s : Source) (limit : Z) : option (result bytes * Source) :=
  readAWSLine_loop (S (length (src_data s))) s limit [].

Definition expectCRLF (s : Source) : option error * Source :=
  let a := ReadByte s in let s := advance1 s in
  let b := ReadByte s in let s := advance1 s in
  match a, b with
  | inl a, inl b => if chr_eqb a "013" && chr_eqb b "010" then (None, s) else (Some ErrStreamingFraming, s)
  | _, _ => (Some ErrStreamingFraming, s)
  end.

(** ** The environment and the sink *)

Record Env := mkEnv { ev_done : list bool; ev_io : list bool }.
(** [select { case <-done: ... default: }]. *)
Definition poll_done (e : Env) : bool * Env :=
  match ev_done e with [] => (false, e) | b :: l => (b, mkEnv l (ev_io e)) end.
(** One operation of [streamingSpoolOps]: does it fail? *)
Definition io_op (e : Env) : bool * Env :=
  match ev_io e with [] => (false, e) | b :: l => (b, mkEnv (ev_done e) l) end.

(** The [io.Writer] the decoded body goes to. A write appends a prefix of its
    argument, all of it when it reports no error; [sink_room w n] promises
    that the next [n] bytes will be accepted. *)
Class Sink (W : Type) := {
  sink_write : W → bytes → option error * W;
  sink_data : W → bytes;
  sink_room : W → Z → Prop;
  sink_append : ∀ w p oe w', sink_write w p = (oe, w') →
    ∃ k, sink_data w' = sink_data w ++ take k p ∧ (oe = None → (length p ≤ k)%nat);
  sink_accepts : ∀ w p n, sink_room w n → len p ≤ n →
    ∃ w', sink_write w p = (None, w') ∧ sink_room w' (n - len p);
  sink_room_mono : ∀ w n n', sink_room w n → 0 ≤ n' ≤ n → sink_room w n' }.

(** ** Staging a chunk *)

(** [copyChunk] into the staging file: the file's contents so far are [acc]. *)
Fixpoint copyChunk_loop (fuel : nat) (e : Env) (s : Source) (size : Z) (acc : bytes)
    : option (option error * bytes * Env * Source) :=
  if decide (size ≤ 0) then Some (None, acc, e, s)
  else match fuel with
  | O => None
  | S f =>
      let '(canceled, e) := poll_done e in
      if (canceled : bool) then Some (Some ErrStreamingCanceled, acc, e, s) else
      let n := Z.min copy_block size in
      let '(got, err, s) := ReadFull s (Z.to_nat n) in
      let '(failed, e) := match got with [] => (false, e) | _ => io_op e end in
      if (failed : bool) then Some (Some (Sentinel "write"), acc, e, s) else
      match err with
      | Some x => Some (Some (if decide (x = ContextCanceled) then ErrStreamingCanceled else ErrIncompleteBody), acc ++ got, e, s)
      | None => copyChunk_loop f e s (size - len got) (acc ++ got)
      end
  end.
Definition copyChunk (e : Env) (s : Source) (size : Z) : option (option error * bytes * Env * Source) :=
  copyChunk_loop (Z.to_nat (size / copy_block + 1)) e s size [].

(** [copySpoolFile]: reads of the staging file fill the buffer, the last one
    reports the end of the file. *)
Fixpoint copySpoolFile `{Sink W} (e : Env) (blocks : list bytes) (dst : W) : option error * Env * W :=
  let '(failed, e) := io_op e in
  if (failed : bool) then (Some (Sentinel "read"), e, dst)
  else match blocks with
  | [] => (None, e, dst)
  | b :: blocks =>
      match sink_write dst b with
      | (Some x, dst) => (Some x, e, dst)
      | (None, dst) => copySpoolFile e blocks dst
      end
  end.

(** ** Signatures *)

Section verify.
Context `{SHA256, HMAC}.

(** The string a chunk's signature covers. *)
Definition chunkStringToSign (c : V4SigningContext) (previous dataHash : bytes) : bytes :=
  bytes_of_string "AWS4-HMAC-SHA256-PAYLOAD" ++ ["010"%byte] ++ sc_timestamp c ++ ["010"%byte] ++
  sc_credentialScope c ++ ["010"%byte] ++ hex_bytes previous ++ ["010"%byte] ++
  hex_bytes (sha256 []) ++ ["010"%byte] ++ hex_bytes dataHash.

Definition verifyChunkSignatureHash (c : option V4SigningContext) (previous supplied dataHash : bytes) : option error :=
  match c with
  | None => Some ErrSignatureMismatch
  | Some c =>
      if negb (validLowerHex supplied 64) then Some ErrSignatureMismatch
      else if sc_closed c || (len (sc_signingKey c) =? 0) then Some ErrSignatureMismatch
      else match hex_decode supplied with
      | None => Some ErrSignatureMismatch
      | Some provided =>
          let expected := hmac_sha256 (sc_signingKey c) (chunkStringToSign c previous dataHash) in
          if decide (expected = provided) then None else Some ErrSignatureMismatch
      end
  end.
Definition verifyChunkSignature (c : option V4SigningContext) (previous supplied data : bytes) : option error :=
  verifyChunkSignatureHash c previous supplied (sha256 data).

(** ** The chunk loop *)

Definition verifyChunkSignatures (signing : option V4SigningContext) : bool :=
  match signing with
  | None => false
  | Some c => bool_decide (sc_mode c ≠ streamingUnsignedPayloadTrailer)
  end.

(** The header line without its CRLF: size text and supplied signature. *)
Definition parseChunkHeader (signing : option V4SigningContext) (line : bytes) : result (bytes * bytes) :=
  let i := indexByteString line marker in
  let rest := drop (Z.to_nat (i + len marker)) line in
  '(sizeText, supplied) ←
    (if verifyChunkSignatures signing then
       if (i <? 1) || (indexByteString rest [";"%byte] >=? 0) then Err ErrStreamingFraming
       else if negb (validLowerHex rest 64) then Err ErrStreamingFraming
       else Ok (take (Z.to_nat i) line, rest)
     else if bool_decide (signing = None) && (i >=? 1) then
       if (indexByteString rest [";"%byte] >=? 0) || negb (validLowerHex rest 64) then Err ErrStreamingFraming
       else Ok (take (Z.to_nat i) line, [])
     else if indexByteString line [";"%byte] >=? 0 then Err ErrStreamingFraming
     else Ok (line, []));
  if (len sizeText =? 0) || (len sizeText >? 16) then Err ErrStreamingFraming
  else if (len sizeText >? 1) && bool_decide (head sizeText = Some "0"%byte) then Err ErrStreamingFraming
  else if negb (validLowerHex sizeText (len sizeText)) then Err ErrStreamingFraming
  else Ok (sizeText, supplied).

(** What a run leaves behind: decoded length, final chain signature, error,
    and the states of the environment, the source and the sink. *)
Record outcome (W : Type) := mkOut {
  o_total : Z; o_final : bytes; o_err : option error; o_env : Env; o_src : Source; o_dst : W }.
Arguments mkOut {W} _ _ _ _ _ _.
Arguments o_total {W} _.
Arguments o_final {W} _.
Arguments o_err {W} _.
Arguments o_env {W} _.
Arguments o_src {W} _.
Arguments o_dst {W} _.

(** After the zero-size chunk: without trailers the body ends here, or after
    one CRLF. *)
Definition finalCRLF (s : Source) : option error * Source :=
  match ReadByte s with
  | inr x => if decide (x = EOF) then (None, s) else (Some ErrStreamingTrailingData, s)
  | inl b =>
      let s := advance1 s in
      if negb (chr_eqb b "013") then (Some ErrStreamingTrailingData, s)
      else match ReadByte s with
      | inr _ => (Some ErrStreamingTrailingData, s)
      | inl b =>
          let s := advance1 s in
          if negb (chr_eqb b "010") then (Some ErrStreamingTrailingData, s)
          else match ReadByte s with
          | inr x => if decide (x = EOF) then (None, s) else (Some ErrStreamingTrailingData, s)
          | inl _ => (Some ErrStreamingTrailingData, advance1 s)
          end
      end
  end.

Context {W : Type} `{Sink W}.

(** The zero-size chunk. *)
Definition finishChunks (signing : option V4SigningContext) (decodedLength : Z) (trailers : bool)
    (e : Env) (s : Source) (dst : W) (previous supplied : bytes) (total : Z) : outcome W :=
  let fail p x := mkOut total p (Some x) e s dst in
  match (if verifyChunkSignatures signing then verifyChunkSignature signing previous supplied [] else None) with
  | Some x => fail previous x
  | None =>
      let previous := if verifyChunkSignatures signing then (decodeSignature previous supplied).2 else previous in
      if (decodedLength >=? 0) && negb (total =? decodedLength) then
        fail previous (if total <? decodedLength then ErrIncompleteBody else ErrStreamingLength)
      else if trailers then mkOut total previous None e s dst
      else let '(err, s) := finalCRLF s in mkOut total previous err e s dst
  end.

(** One data chunk: staged, followed by CRLF, its signature checked, and only
    then copied to the sink. The result is the error or the new signature. *)
Definition stageChunk (signing : option V4SigningContext) (e : Env) (s : Source) (dst : W)
    (previous supplied : bytes) (size : Z) : option (result bytes * Env * Source * W) :=
  let '(f1, e) := io_op e in
  if (f1 : bool) then Some (Err ErrStreamingSpool, e, s, dst) else
  let '(f2, e) := io_op e in
  if (f2 : bool) then Some (Err ErrStreamingSpool, e, s, dst) else
  match copyChunk e s size with
  | None => None
  | Some (Some x, _, e, s) => Some (Err x, e, s, dst)
  | Some (None, data, e, s) =>
      match expectCRLF s with
      | (Some _, s) => Some (Err ErrStreamingFraming, e, s, dst)
      | (None, s) =>
          match (if verifyChunkSignatures signing
                 then verifyChunkSignatureHash signing previous supplied (sha256 data) else None) with
          | Some x => Some (Err x, e, s, dst)
          | None =>
              let previous := if verifyChunkSignatures signing then (decodeSignature previous supplied).2 else previous in
              let '(f3, e) := io_op e in
              if (f3 : bool) then Some (Err ErrStreamingSpool, e, s, dst)
              else match copySpoolFile e (chunks_of (Z.to_nat copy_block) data) dst with
              | (Some _, e, dst) => Some (Err ErrStreamingSpool, e, s, dst)
              | (None, e, dst) => Some (Ok previous, e, s, dst)
              end
          end
      end
  end.

Fixpoint chunkLoop (fuel : nat) (signing : option V4SigningContext) (decodedLength : Z) (trailers : bool)
    (e : Env) (s : Source) (dst : W) (previous : bytes) (total : Z) : option (outcome W) :=
  match fuel with
  | O => None
  | S f =>
      let fail e s dst x := Some (mkOut total previous (Some x) e s dst) in
      let '(canceled, e) := poll_done e in
      if (canceled : bool) then fail e s dst ErrStreamingCanceled else
      match readAWSLine s maxAWSChunkHeaderBytes with
      | None => None
      | Some (Err x, s) => fail e s dst (if decide (x = EOF) then ErrIncompleteBody else ErrStreamingFraming)
      | Some (Ok line, s) =>
          let n := (length line - 2)%nat in
          if (len line <? 3) || negb (bool_decide (drop n line = crlf)) then fail e s dst ErrStreamingFraming else
          match parseChunkHeader signing (take n line) with
          | Err x => fail e s dst x
          | Ok (sizeText, supplied) =>
              match ParseHex sizeText with
              | None => fail e s dst ErrStreamingFraming
              | Some size =>
                  if size =? 0 then
                    Some (finishChunks signing decodedLength trailers e s dst previous supplied total)
                  else if size >? maxAWSChunkBytes then fail e s dst ErrStreamingLength
                  else if (decodedLength >=? 0) &&
                          ((decodedLength -i total <? 0) || (size >? wrap_u64 (decodedLength -i total))) then
                    fail e s dst ErrStreamingLength
                  else match stageChunk signing e s dst previous supplied size with
                  | None => None
                  | Some (Err x, e, s, dst) => fail e s dst x
                  | Some (Ok previous, e, s, dst) =>
                      chunkLoop f signing decodedLength trailers e s dst previous (total +i size)
                  end
              end
          end
      end
  end.

Definition zero32 : bytes := replicate 32 x00.

(** [verifyAWSChunkedContext]: a closed or keyless context is refused at
    once, and the final signature is erased on every error. *)
Definition verifyAWSChunkedContext (fuel : nat) (signing : option V4SigningContext) (decodedLength : Z)
    (trailers : bool) (e : Env) (s : Source) (dst : W) : option (outcome W) :=
  let clear o := match o_err o with
    | None => o
    | Some x => mkOut (o_total o) (clearAuthBytes (o_final o)) (Some x) (o_env o) (o_src o) (o_dst o)
    end in
  match signing with
  | Some c =>
      if verifyChunkSignatures signing && (sc_closed c || (len (sc_signingKey c) =? 0)) then
        Some (mkOut 0 zero32 (Some ErrSignatureMismatch) e s dst)
      else clear <$> chunkLoop fuel signing decodedLength trailers e s dst
                       (if verifyChunkSignatures signing then sc_seedSignature c else zero32) 0
  | None => clear <$> chunkLoop fuel signing decodedLength trailers e s dst zero32 0
  end.
End verify.
Arguments mkOut {W} _ _ _ _ _ _.
Arguments o_total {W} _.
Arguments o_final {W} _.
Arguments o_err {W} _.
Arguments o_env {W} _.
Arguments o_src {W} _.
Arguments o_dst {W} _.
