(* ===== verification/AwsChunkedSpec.v ===== *)
(** * What the AWS-chunked decoder accepts

    [chain] and [framed] are the wire format: every data chunk as its
    canonical hexadecimal size, in the signed modes the signature chained to
    the previous one, CRLF, the data, CRLF; then the zero-size chunk. The
    lemmas relate each helper of the decoder to it. *)
From S2P Require Import Prelude GoStd GoIO GoText Primitives Spool AwsChunked.
Local Open Scope Z_scope.

Section spec.
Context `{SHA256, HMAC}.

Definition chunk_sig (c : V4SigningContext) (prev data : bytes) : bytes :=
  hmac_sha256 (sc_signingKey c) (chunkStringToSign c prev (sha256 data)).
Definition live_context (c : V4SigningContext) : Prop := sc_closed c = false ∧ sc_signingKey c ≠ [].

(** A chunk's header line, without CRLF, after the chain value [prev]; the
    last argument is the next chain value. Without a signing context a
    well-formed signature is skipped. *)
Inductive header (signing : option V4SigningContext) (prev data : bytes) : bytes → bytes → Prop :=
| header_signed c :
    signing = Some c → sc_mode c ≠ streamingUnsignedPayloadTrailer → live_context c →
    header signing prev data (hexn (len data) ++ marker ++ hex_bytes (chunk_sig c prev data)) (chunk_sig c prev data)
| header_plain :
    verifyChunkSignatures signing = false → header signing prev data (hexn (len data)) prev
| header_skipped sg :
    signing = None → validLowerHex sg 64 = true →
    header signing prev data (hexn (len data) ++ marker ++ sg) prev.

(** Data chunks, from chain value [prev] to the last argument. *)
Inductive chain (signing : option V4SigningContext) (prev : bytes) : list bytes → bytes → bytes → Prop :=
| chain_nil : chain signing prev [] [] prev
| chain_cons c cs line prev' wire last :
    c ≠ [] → len c ≤ maxAWSChunkBytes → header signing prev c line prev' →
    chain signing prev' cs wire last →
    chain signing prev (c :: cs) (line ++ crlf ++ c ++ crlf ++ wire) last.

(** A complete chunk sequence. *)
Inductive framed (signing : option V4SigningContext) (prev : bytes) (cs : list bytes) : bytes → bytes → Prop :=
| framed_intro wire last line final :
    chain signing prev cs wire last → header signing last [] line final →
    framed signing prev cs (wire ++ line ++ crlf) final.

(** What may follow the zero-size chunk: the trailer section, or nothing but
    an optional CRLF. *)
Definition body_end (trailers : bool) (tail : bytes) (s' : Source) : Prop :=
  if trailers then tail = [] else src_data s' = [] ∧ src_end s' = EOF ∧ (tail = [] ∨ tail = crlf).

(** The request context stays alive and every file operation succeeds. *)
Definition quiet (e : Env) : Prop := Forall (eq false) (ev_done e) ∧ Forall (eq false) (ev_io e).
End spec.

(** ** Text helpers *)

Lemma index_from_found sub s i r :
  0 ≤ i → index_from sub s i = r → r ≠ -1 → ∃ pre post, s = pre ++ sub ++ post ∧ r = i + len pre.
Proof.
  revert i. induction s as [|b s IH]; intros i Hi; cbn [index_from]; case_decide as E.
  - intros <- _. rewrite take_nil in E. subst sub. exists [], []. cbn. split; [done|lia].
  - intros <-. done.
  - intros <- _. exists [], (drop (length sub) (b :: s)). cbn [app length]. split; [|lia].
    by rewrite <-E at 1; rewrite take_drop.
  - intros Hr Hne. destruct (IH (i + 1) ltac:(lia) Hr Hne) as (pre & post & -> & ->).
    exists (b :: pre), post. cbn [app length]. split; [done|lia].
Qed.
Lemma indexByteString_found s sub :
  indexByteString s sub ≠ -1 → ∃ pre post, s = pre ++ sub ++ post ∧ indexByteString s sub = len pre.
Proof.
  intros Hne. destruct (index_from_found sub s 0 _ ltac:(lia) eq_refl Hne) as (pre & post & -> & E).
  exists pre, post. split; [done|]. unfold indexByteString. rewrite E. lia.
Qed.

Lemma index_from_absent d sub s i :
  Forall (λ b, b ≠ d) s → index_from (d :: sub) s i = -1.
Proof.
  intros Hs. revert i. induction Hs as [|b s Hb Hs IH]; intros i; cbn [index_from];
    (rewrite decide_False; [try done|by intros [=]]).
Qed.
Lemma index_from_first d sub pre post i :
  Forall (λ b, b ≠ d) pre → index_from (d :: sub) (pre ++ (d :: sub) ++ post) i = i + len pre.
Proof.
  intros Hp. revert i. induction Hp as [|b pre Hb Hp IH]; intros i; cbn [app length index_from].
  - rewrite decide_True; [lia|]. exact (take_app_length (d :: sub) post).
  - rewrite decide_False by (by intros [=]). etransitivity; [apply IH|lia].
Qed.

Lemma lower_hex_ne d s : is_lower_hex d = false → forallb is_lower_hex s = true → Forall (λ b, b ≠ d) s.
Proof.
  intros Hd Hs. apply Forall_forall. intros b Hb ->. rewrite forallb_forall in Hs.
  rewrite (Hs d) in Hd; [done|]. by apply list_elem_of_In.
Qed.

Lemma validLowerHex_iff s w : validLowerHex s w = true ↔ len s = w ∧ forallb is_lower_hex s = true.
Proof.
  unfold validLowerHex. destruct (len s =? w) eqn:E; cbn [negb]; zbool; naive_solver.
Qed.
Lemma validLowerHex_len s : forallb is_lower_hex s = true → validLowerHex s (len s) = true.
Proof. intros. by apply validLowerHex_iff. Qed.

(** A valid signature text is the encoding of 32 bytes. *)
Lemma signature_text s : validLowerHex s 64 = true →
  ∃ r, hex_decode s = Some r ∧ hex_bytes r = s ∧ length r = 32%nat.
Proof.
  intros [Hl Hs]%validLowerHex_iff.
  destruct (hex_decode_lower s Hs) as (r & Hr & Hrs); [exists 32%nat; lia|].
  exists r. split_and!; [done|done|]. rewrite <-Hrs, length_hex_bytes in Hl. lia.
Qed.

(** ** Reading a line *)

Lemma readAWSLine_loop_ok fuel s limit acc line s' :
  readAWSLine_loop fuel s limit acc = Some (Ok line, s') →
  ∃ part, line = acc ++ part ∧ src_data s = part ++ src_data s' ∧ src_end s' = src_end s ∧ part ≠ [].
Proof.
  revert s acc. induction fuel as [|f IH]; intros s acc; cbn [readAWSLine_loop]; [done|].
  destruct (ReadSlice s "010") as [[part err] s1] eqn:ER. apply ReadSlice_app in ER as (Hd & He & Hn & _).
  case_match; [done|]. destruct err as [x|].
  - case_decide; [|done]. intros (part' & -> & Hd' & He' & Hne)%IH. exists (part ++ part').
    rewrite Hd, Hd', !(assoc_L (++)), He', He. split_and!; [done..|]. by destruct part.
  - intros [= <- <-]. destruct (Hn eq_refl) as (q & -> & _). eexists. split_and!; [done..|]. by destruct q.
Qed.
Lemma readAWSLine_ok s limit line s' :
  readAWSLine s limit = Some (Ok line, s') →
  src_data s = line ++ src_data s' ∧ src_end s' = src_end s ∧ line ≠ [].
Proof. intros (part & -> & ? & ? & ?)%readAWSLine_loop_ok. done. Qed.

(** A line that fits the buffer is read in one piece. *)
Lemma readAWSLine_line s limit q rest :
  src_data s = (q ++ ["010"%byte]) ++ rest → Forall (λ b, b ≠ "010"%byte) q →
  (length q < bufio_size)%nat → len q < limit →
  readAWSLine s limit = Some (Ok (q ++ ["010"%byte]), mkSource rest (src_end s)).
Proof.
  intros Hd Hq Hb Hl. unfold readAWSLine. cbn [readAWSLine_loop]. unfold ReadSlice. rewrite Hd.
  rewrite take_app, take_ge by (rewrite length_app; cbn; lia).
  rewrite <-(assoc_L (++)). cbn [app]. rewrite upto_app by done.
  rewrite drop_app_length, Z.gtb_ltb, (proj2 (Z.ltb_ge _ _)) by (rewrite length_app; cbn; lia). done.
Qed.

(** Reading a line always comes to an end. *)
Lemma readAWSLine_total s limit : src_end s ≠ ErrBufferFull → readAWSLine s limit ≠ None.
Proof.
  unfold readAWSLine. generalize (@nil byte). intros acc He.
  remember (S (length (src_data s))) as fuel eqn:Ef.
  assert (Hf : (length (src_data s) < fuel)%nat) by lia. clear Ef. revert s acc He Hf.
  induction fuel as [|f IH]; intros s acc He Hf; [lia|]. cbn [readAWSLine_loop].
  destruct (ReadSlice s "010") as [[part err] s1] eqn:ER.
  apply ReadSlice_app in ER as (Hd & He' & _ & Hfull).
  case_match; [done|]. destruct err as [x|]; [|done]. case_decide; [|done]. subst.
  apply IH; [by rewrite He'|]. specialize (Hfull eq_refl He).
  assert (0 < bufio_size)%nat by (unfold bufio_size; lia).
  rewrite Hd, length_app, Hfull in Hf. lia.
Qed.

Lemma expectCRLF_ok s s' : expectCRLF s = (None, s') → src_data s = crlf ++ src_data s' ∧ src_end s' = src_end s.
Proof.
  unfold expectCRLF, ReadByte, advance1. destruct s as [[|a [|b d]] x]; cbn; try done.
  destruct (chr_eqb a "013") eqn:Ea, (chr_eqb b "010") eqn:Eb; cbn; try done.
  apply Byte.byte_dec_bl in Ea, Eb. subst. by intros [= <-].
Qed.
Lemma expectCRLF_crlf rest x : expectCRLF (mkSource (crlf ++ rest) x) = (None, mkSource rest x).
Proof. done. Qed.

(** ** Headers *)

(** The size text the decoder lets through: what [FormatUint] prints. *)
Definition size_text (l : bytes) : Prop :=
  canonical_hex l ∧ forallb is_lower_hex l = true ∧ (length l ≤ 16)%nat.

Lemma size_text_hexn z : 0 ≤ z ≤ MaxUint64 → size_text (hexn z).
Proof. intros Hz. by destruct (hexn_spec z Hz) as (_ & ? & ? & ?). Qed.
Lemma size_text_inv l : size_text l → l = hexn (hexval l) ∧ ParseHex l = Some (hexval l) ∧ 0 ≤ hexval l.
Proof.
  intros (Hc & Hl & Hn). rewrite hexn_canonical by done. split_and!; [done| |].
  - apply ParseHex_lower; [by destruct l|done|done].
  - by apply hexval_range.
Qed.

(** The size checks at the end of [parseChunkHeader]. *)
Lemma size_checks (l : bytes) (A : Type) (a : A) :
  (if (len l =? 0) || (len l >? 16) then Err ErrStreamingFraming
   else if (len l >? 1) && bool_decide (head l = Some "0"%byte) then Err ErrStreamingFraming
   else if negb (validLowerHex l (len l)) then Err ErrStreamingFraming
   else Ok a) = Ok a ↔ size_text l.
Proof.
  unfold size_text, validLowerHex. rewrite Z.eqb_refl. cbn [negb].
  destruct l as [|b [|c l]].
  - split; [done|]. by intros [? _].
  - cbn. rewrite andb_true_r. destruct (is_lower_hex b); cbn; [|naive_solver].
    split; [|done]. intros _. split_and!; [done|done|lia].
  - cbn [head canonical_hex]. rewrite !Z.gtb_ltb.
    rewrite (proj2 (Z.eqb_neq _ 0)), (proj2 (Z.ltb_lt 1 _)) by (cbn [length]; lia). cbn [orb andb].
    destruct (16 <? _) eqn:E; zbool; [split; [done|intros (_ & _ & ?); cbn [length] in *; lia]|].
    case_bool_decide as Hb; [split; [done|]; intros [Hne _]; congruence|].
    destruct (forallb is_lower_hex _) eqn:Ef; cbn [negb]; [|naive_solver].
    split; [|done]. intros _. split_and!; [congruence|done|cbn [length] in *; lia].
Qed.

Lemma size_text_no_semicolon l : size_text l → Forall (λ b, b ≠ ";"%byte) l.
Proof. intros (_ & Hl & _). by apply lower_hex_ne. Qed.

Lemma marker_cons : marker = ";"%byte :: bytes_of_string "chunk-signature=".
Proof. done. Qed.

Lemma index_marker l r : Forall (λ b, b ≠ ";"%byte) l → indexByteString (l ++ marker ++ r) marker = len l.
Proof. intros Hl. unfold indexByteString. rewrite marker_cons, index_from_first by done. lia. Qed.
Lemma index_no_semicolon sub l : Forall (λ b, b ≠ ";"%byte) l → indexByteString l (";"%byte :: sub) = -1.
Proof. intros. by apply index_from_absent. Qed.

Section headers.
Context `{SHA256, HMAC}.

(** The shape of an accepted header line. *)
Definition header_shape (signing : option V4SigningContext) (line sizeText supplied : bytes) : Prop :=
  size_text sizeText ∧
  if verifyChunkSignatures signing then line = sizeText ++ marker ++ supplied ∧ validLowerHex supplied 64 = true
  else supplied = [] ∧
    (line = sizeText ∨ (signing = None ∧ ∃ sg, validLowerHex sg 64 = true ∧ line = sizeText ++ marker ++ sg)).

Lemma split_at_marker line i :
  i = indexByteString line marker → 1 ≤ i →
  line = take (Z.to_nat i) line ++ marker ++ drop (Z.to_nat (i + len marker)) line.
Proof.
  intros -> Hi. destruct (indexByteString_found line marker) as (pre & post & E & Ei); [lia|].
  rewrite Ei, E. rewrite <-Nat2Z.inj_add, !Nat2Z.id, take_app_length.
  rewrite (assoc_L (++)) at 2. rewrite <-length_app, drop_app_length. done.
Qed.

Lemma parseChunkHeader_sound signing line sizeText supplied :
  parseChunkHeader signing line = Ok (sizeText, supplied) → header_shape signing line sizeText supplied.
Proof.
  unfold parseChunkHeader, header_shape. intros Hp. apply bind_Ok in Hp as ([st sp] & Hs & Hc).
  assert (size_text st ∧ st = sizeText ∧ sp = supplied) as (? & -> & ->).
  { assert (Hc' : Ok (st, sp) = Ok (sizeText, supplied)).
    { rewrite <-Hc. cbn. repeat case_match; done. }
    injection Hc' as -> ->. split; [|done]. by eapply size_checks. }
  split; [done|]. destruct (verifyChunkSignatures signing).
  - destruct (_ || _) eqn:E1; [done|]. destruct (validLowerHex _ 64) eqn:E2; [|done]. zbool.
    injection Hs as <- <-. split; [|done]. apply split_at_marker; [done|lia].
  - destruct (_ && _) eqn:E1.
    + apply andb_prop in E1 as [E1%bool_decide_eq_true_1 E1']. zbool.
      destruct (_ || _) eqn:E2; [done|]. zbool. injection Hs as <- <-. split; [done|]. right.
      split; [done|]. eexists. split; [done|]. apply split_at_marker; [done|lia].
    + destruct (_ >=? 0); [done|]. injection Hs as <- <-. auto.
Qed.

Lemma parseChunkHeader_complete signing line sizeText supplied :
  header_shape signing line sizeText supplied → parseChunkHeader signing line = Ok (sizeText, supplied).
Proof.
  intros [Hst Hshape]. pose proof (size_text_no_semicolon _ Hst) as Hns.
  unfold parseChunkHeader. apply bind_Ok. exists (sizeText, supplied). split; [|by apply size_checks].
  assert (Hmark : ∀ sg, take (Z.to_nat (len sizeText)) (sizeText ++ marker ++ sg) = sizeText ∧
    drop (Z.to_nat (len sizeText + len marker)) (sizeText ++ marker ++ sg) = sg ∧ 1 ≤ len sizeText).
  { intros sg. rewrite <-Nat2Z.inj_add, !Nat2Z.id, take_app_length, <-length_app, (assoc_L (++)), drop_app_length.
    split_and!; [done|done|]. destruct Hst as [Hst _]. destruct sizeText; [done|cbn; lia]. }
  assert (Hsg : ∀ sg, validLowerHex sg 64 = true → (indexByteString sg [";"%byte] >=? 0) = false).
  { intros sg [_ Hsg]%validLowerHex_iff. rewrite index_no_semicolon; [done|]. by apply lower_hex_ne. }
  destruct (verifyChunkSignatures signing).
  - destruct Hshape as [-> Hv]. rewrite index_marker by done. destruct (Hmark supplied) as (-> & -> & ?).
    rewrite Hsg, Hv, (proj2 (Z.ltb_ge _ _)) by done. done.
  - destruct Hshape as [-> [->|(-> & sg & Hv & ->)]].
    + pose proof (index_no_semicolon _ _ Hns : indexByteString sizeText marker = -1) as ->.
      change (-1 >=? 1) with false. rewrite andb_false_r, index_no_semicolon by done. done.
    + rewrite index_marker by done. destruct (Hmark sg) as (-> & -> & ?).
      rewrite bool_decide_eq_true_2, Hsg, Hv, Z.geb_leb, (proj2 (Z.leb_le _ _)) by done. done.
Qed.
End headers.
