(* ===== verification/AwsChunkedCorrect.v ===== *)
(** * Correctness of the AWS-chunked decoder

    Soundness for every environment, completeness when nothing fails, and
    termination. *)
From S2P Require Import Prelude GoStd GoIO GoText Primitives Spool AwsChunked AwsChunkedSpec.
Local Open Scope Z_scope.
Local Open Scope go_scope.

(** ** The environment *)

Lemma poll_quiet e : quiet e → ∃ e', poll_done e = (false, e') ∧ quiet e'.
Proof.
  intros [Hd Hi]. unfold poll_done. destruct (ev_done e) as [|b l] eqn:E; [eexists; split; [done|by split; rewrite ?E]|].
  apply Forall_cons in Hd as [<- Hd]. eexists. split; [done|]. by split.
Qed.
Lemma io_quiet e : quiet e → ∃ e', io_op e = (false, e') ∧ quiet e'.
Proof.
  intros [Hd Hi]. unfold io_op. destruct (ev_io e) as [|b l] eqn:E; [eexists; split; [done|by split; rewrite ?E]|].
  apply Forall_cons in Hi as [<- Hi]. eexists. split; [done|]. by split.
Qed.

(** ** Staging *)

Lemma copy_block_pos : (0 < Z.to_nat copy_block)%nat.
Proof. assert (0 < copy_block) by done. lia. Qed.

Lemma copyChunk_loop_sound fuel e s size acc data e' s' :
  0 ≤ size → copyChunk_loop fuel e s size acc = Some (None, data, e', s') →
  ∃ d, data = acc ++ d ∧ len d = size ∧ src_data s = d ++ src_data s' ∧ src_end s' = src_end s.
Proof.
  revert e s size acc. induction fuel as [|f IH]; intros e s size acc Hsz; cbn [copyChunk_loop];
    (case_decide; [intros [= <- <- <-]; exists []; rewrite app_nil_r; split_and!; [done|cbn; lia|done|done]|]); [done|].
  destruct (poll_done e) as [[] e1]; [done|]. destruct (ReadFull _ _) as [[got err] s1] eqn:ER.
  apply ReadFull_app in ER as (Hd & He & Hle & Hn & _).
  destruct (match got with [] => _ | _ => _ end) as [[] e2]; [done|]. destruct err; [done|].
  specialize (Hn eq_refl). assert (0 < copy_block) by done.
  intros (d & -> & Hl & Hd' & He')%IH; [|lia]. exists (got ++ d).
  rewrite Hd, Hd', He', He, !(assoc_L (++)), length_app. split_and!; [done|lia|done|done].
Qed.
Lemma copyChunk_sound e s size data e' s' :
  0 ≤ size → copyChunk e s size = Some (None, data, e', s') →
  len data = size ∧ src_data s = data ++ src_data s' ∧ src_end s' = src_end s.
Proof. intros Hs (d & -> & ? & ? & ?)%copyChunk_loop_sound; done. Qed.

Lemma copyChunk_loop_complete fuel e s d rest acc :
  quiet e → src_data s = d ++ rest → len d ≤ Z.of_nat fuel * copy_block →
  ∃ e', copyChunk_loop fuel e s (len d) acc = Some (None, acc ++ d, e', mkSource rest (src_end s)) ∧ quiet e'.
Proof.
  revert e s d acc. induction fuel as [|f IH]; intros e s d acc Hq Hd Hf; cbn [copyChunk_loop].
  { assert (d = []) as -> by (destruct d; cbn in *; [done|lia]). cbn. rewrite app_nil_r. exists e.
    by destruct s; cbn in *; subst. }
  case_decide as Hz.
  { assert (d = []) as -> by (destruct d; cbn in *; [done|lia]). rewrite app_nil_r. exists e.
    by destruct s; cbn in *; subst. }
  destruct (poll_quiet e Hq) as (e1 & -> & Hq1). cbn [fst snd].
  set (n := Z.to_nat (Z.min copy_block (len d))).
  assert (0 < copy_block) by done.
  assert (Hn : (n ≤ length d)%nat ∧ (0 < n)%nat ∧ (n = Z.to_nat copy_block ∨ n = length d)) by lia.
  rewrite ReadFull_enough by (rewrite Hd, length_app; lia).
  rewrite Hd, take_app_le, drop_app_le by lia.
  destruct (io_quiet e1 Hq1) as (e2 & Hio & Hq2).
  assert (Hm : (match take n d with [] => (false, e1) | _ :: _ => io_op e1 end) = (false, e2)).
  { rewrite Hio. destruct (take n d) eqn:E; [|done]. apply (f_equal length) in E. rewrite length_take in E. cbn in E. lia. }
  rewrite Hm. replace (len d - len (take n d)) with (len (drop n d)) by (rewrite length_drop, length_take; lia).
  destruct (IH e2 (mkSource (drop n d ++ rest) (src_end s)) (drop n d) (acc ++ take n d)) as (e' & -> & Hq'); [done|done| |].
  - rewrite length_drop. lia.
  - exists e'. rewrite <-(assoc_L (++)), take_drop. done.
Qed.
Lemma copyChunk_complete e s d rest :
  quiet e → src_data s = d ++ rest →
  ∃ e', copyChunk e s (len d) = Some (None, d, e', mkSource rest (src_end s)) ∧ quiet e'.
Proof.
  intros Hq Hd. apply (copyChunk_loop_complete _ e s d rest []); [done|done|].
  assert (0 < copy_block) by done. pose proof (Z.div_pos (len d) copy_block).
  rewrite Z2Nat.id by lia. pose proof (Z.mod_pos_bound (len d) copy_block ltac:(lia)).
  pose proof (Z_div_mod_eq_full (len d) copy_block). lia.
Qed.

Lemma copyChunk_total e s size : copyChunk e s size ≠ None.
Proof.
  unfold copyChunk. generalize (@nil byte). intros acc.
  assert (Hf : size ≤ Z.of_nat (Z.to_nat (size / copy_block + 1)) * copy_block).
  { assert (0 < copy_block) by done. pose proof (Z.mod_pos_bound size copy_block ltac:(lia)).
    pose proof (Z_div_mod_eq_full size copy_block). destruct (decide (0 ≤ size / copy_block)); nia. }
  revert Hf. generalize (Z.to_nat (size / copy_block + 1)). intros fuel.
  revert e s size acc. induction fuel as [|f IH]; intros e s size acc Hf; cbn [copyChunk_loop];
    (case_decide; [done|]); [lia|].
  destruct (poll_done e) as [[] e1]; [done|]. destruct (ReadFull _ _) as [[got err] s1] eqn:ER.
  apply ReadFull_app in ER as (_ & _ & _ & Hn & _).
  destruct (match got with [] => _ | _ => _ end) as [[] e2]; [done|]. destruct err; [done|].
  specialize (Hn eq_refl). assert (0 < copy_block) by done. apply IH. lia.
Qed.

Section copy.
Context {W : Type} `{Sink W}.

Lemma copySpoolFile_append e blocks (dst : W) oe e' dst' :
  copySpoolFile e blocks dst = (oe, e', dst') →
  ∃ k, sink_data dst' = sink_data dst ++ take k (concat blocks) ∧ (oe = None → (length (concat blocks) ≤ k)%nat).
Proof.
  revert e dst. induction blocks as [|b blocks IH]; intros e dst; cbn [copySpoolFile];
    (destruct (io_op e) as [[] e1]; [intros [= <- <- <-]; exists 0%nat; by rewrite take_0, app_nil_r|]).
  - intros [= <- <- <-]. exists 0%nat. by rewrite app_nil_r.
  - destruct (sink_write dst b) as [[x|] dst1] eqn:Ew; apply sink_append in Ew as (k & Hk & Hall).
    + intros [= <- <- <-]. exists (k `min` length b)%nat. split; [|done]. cbn [concat].
      rewrite take_app_le by lia. rewrite Hk. f_equal.
      destruct (decide (k ≤ length b)%nat); [by rewrite Nat.min_l|]. by rewrite Nat.min_r, !take_ge by lia.
    + intros (k' & Hk' & Hall')%IH. specialize (Hall eq_refl). rewrite take_ge in Hk by done.
      exists (length b + k')%nat. cbn [concat]. rewrite take_app_add', Hk', Hk, <-(assoc_L (++)) by done.
      split; [done|]. intros Ho. rewrite length_app. specialize (Hall' Ho). lia.
Qed.

Lemma copySpoolFile_accepts e blocks (dst : W) n :
  quiet e → sink_room dst n → len (concat blocks) ≤ n →
  ∃ e' dst', copySpoolFile e blocks dst = (None, e', dst') ∧ quiet e' ∧ sink_room dst' (n - len (concat blocks)).
Proof.
  revert e dst n. induction blocks as [|b blocks IH]; intros e dst n Hq Hr Hn; cbn [copySpoolFile concat] in *;
    destruct (io_quiet e Hq) as (e1 & -> & Hq1).
  - exists e1, dst. cbn. by rewrite Z.sub_0_r.
  - rewrite length_app in *. destruct (sink_accepts dst b n Hr ltac:(lia)) as (dst1 & -> & Hr1).
    destruct (IH e1 dst1 (n - len b) Hq1 Hr1 ltac:(lia)) as (e' & dst' & -> & Hq' & Hr').
    exists e', dst'. split_and!; [done|done|]. by replace (n - _) with (n - len b - len (concat blocks)) by lia.
Qed.
End copy.

(** ** Headers and signatures *)

Section chunks.
Context `{SHA256, HMAC}.

(** The signature check of a chunk, and the chain value after it. *)
Definition sig_check (signing : option V4SigningContext) (previous supplied data : bytes) : option error :=
  if verifyChunkSignatures signing then verifyChunkSignatureHash signing previous supplied (sha256 data) else None.
Definition next_sig (signing : option V4SigningContext) (previous supplied : bytes) : bytes :=
  if verifyChunkSignatures signing then (decodeSignature previous supplied).2 else previous.

Lemma verifyChunkSignatures_inv signing :
  verifyChunkSignatures signing = true → ∃ c, signing = Some c ∧ sc_mode c ≠ streamingUnsignedPayloadTrailer.
Proof. destruct signing as [c|]; cbn; [|done]. intros ?%bool_decide_eq_true_1. eauto. Qed.

Lemma next_sig_length signing previous supplied :
  length previous = 32%nat → length (next_sig signing previous supplied) = 32%nat.
Proof.
  intros Hp. unfold next_sig, decodeSignature. destruct (verifyChunkSignatures _); [|done].
  destruct (validLowerHex supplied 64) eqn:E; [|done]. rewrite Hp. cbn [negb orb Z.eqb].
  apply signature_text in E as (r & -> & _ & ?). done.
Qed.

Lemma header_of_shape signing prev line st sup data :
  length prev = 32%nat → header_shape signing line st sup → len data = hexval st →
  sig_check signing prev sup data = None → header signing prev data line (next_sig signing prev sup).
Proof.
  intros Hp [Hst Hsh] Hlen Hsig. destruct (size_text_inv _ Hst) as (Est & _ & _).
  unfold sig_check, next_sig in *. destruct (verifyChunkSignatures signing) eqn:Ev.
  - destruct Hsh as [-> Hv]. destruct (verifyChunkSignatures_inv _ Ev) as (c & -> & Hm).
    unfold verifyChunkSignatureHash in Hsig. rewrite Hv in Hsig. cbn [negb] in Hsig.
    destruct (_ || _) eqn:El; [done|]. zbool.
    destruct (signature_text sup Hv) as (r & Hr & Hrs & _). rewrite Hr in Hsig.
    case_decide as Hs; [|done]. unfold decodeSignature. rewrite Hv, Hr, Hp. cbn [negb orb Z.eqb snd].
    rewrite Est, <-Hlen, <-Hrs, <-Hs. apply header_signed; [done|done|].
    split; [done|]. intros E. by rewrite E in *.
  - rewrite Est, <-Hlen in Hsh. destruct Hsh as [-> [->|(-> & sg & Hv & ->)]]; by constructor.
Qed.

Lemma shape_of_header `{!HMACLaws} signing prev data line prev' :
  length prev = 32%nat → len data ≤ maxAWSChunkBytes → header signing prev data line prev' →
  ∃ sup, header_shape signing line (hexn (len data)) sup ∧ sig_check signing prev sup data = None ∧
         next_sig signing prev sup = prev'.
Proof.
  intros Hp Hd Hh. assert (Hst : size_text (hexn (len data))).
  { apply size_text_hexn. assert (maxAWSChunkBytes ≤ MaxUint64) by (by vm_compute). lia. }
  unfold header_shape, sig_check, next_sig. destruct Hh as [c -> Hm [Hl Hk]|Hv|sg -> Hv].
  - exists (hex_bytes (chunk_sig c prev data)). cbn. rewrite bool_decide_eq_true_2 by done.
    assert (Hv : validLowerHex (hex_bytes (chunk_sig c prev data)) 64 = true).
    { apply validLowerHex_iff. rewrite length_hex_bytes, hex_bytes_lower. unfold chunk_sig.
      by rewrite hmac_sha256_length. }
    unfold decodeSignature. rewrite Hv, Hl, Hp, hex_decode_bytes. cbn [negb orb Z.eqb snd].
    destruct (_ =? 0) eqn:E; zbool; [exfalso; apply Hk, length_zero_iff_nil; lia|].
    rewrite decide_True by done. auto.
  - exists []. rewrite Hv. split_and!; [apply Hst..|done|by left|done|done].
  - exists []. cbn. split_and!; [apply Hst..|done|right; split; [done|by exists sg]|done|done].
Qed.

(** Header lines are short and hold no newline. *)
Lemma header_line_short `{!HMACLaws} signing prev data line prev' :
  length prev = 32%nat → len data ≤ maxAWSChunkBytes → header signing prev data line prev' →
  (length line ≤ 97)%nat ∧ (0 < length line)%nat ∧ Forall (λ b, b ≠ "010"%byte) line.
Proof.
  intros Hp Hd Hh. destruct (shape_of_header _ _ _ _ _ Hp Hd Hh) as (sup & [(Hc & Hlow & Hn) Hsh] & _).
  assert (Hne : (0 < length (hexn (len data)))%nat) by (destruct (hexn (len data)); [done|cbn; lia]).
  assert (Hm : length marker = 17%nat ∧ Forall (λ b, b ≠ "010"%byte) marker).
  { split; [done|]. by vm_compute; repeat constructor. }
  destruct Hm as [Hml Hmf]. pose proof (lower_hex_ne "010" _ eq_refl Hlow) as Hst.
  assert (Hsg : ∀ sg, validLowerHex sg 64 = true → length sg = 64%nat ∧ Forall (λ b, b ≠ "010"%byte) sg).
  { intros sg [? ?]%validLowerHex_iff. split; [lia|]. by apply lower_hex_ne. }
  assert (Happ : ∀ sg, validLowerHex sg 64 = true → line = hexn (len data) ++ marker ++ sg →
    (length line ≤ 97)%nat ∧ (0 < length line)%nat ∧ Forall (λ b, b ≠ "010"%byte) line).
  { intros sg [Hs1 Hs2]%Hsg ->. rewrite !length_app, Hml, Hs1. split_and!; [lia|lia|].
    by rewrite !Forall_app. }
  destruct (verifyChunkSignatures signing); [destruct Hsh as [-> Hv]; by eapply Happ|].
  destruct Hsh as [_ [->|(_ & sg & Hv & ->)]]; [split_and!; [lia|lia|done]|by eapply Happ].
Qed.

Context {W : Type} `{Sink W}.

(** ** One chunk *)

(** Nothing reaches the sink without a valid signature. *)
Lemma stageChunk_sound signing e s (dst : W) previous supplied size r e' s' dst' :
  0 ≤ size → stageChunk signing e s dst previous supplied size = Some (r, e', s', dst') →
  (sink_data dst' = sink_data dst ∧ ∃ x, r = Err x) ∨
  ∃ data k, len data = size ∧ src_data s = data ++ crlf ++ src_data s' ∧ src_end s' = src_end s ∧
    sig_check signing previous supplied data = None ∧
    sink_data dst' = sink_data dst ++ take k data ∧
    (∀ p, r = Ok p → p = next_sig signing previous supplied ∧ (length data ≤ k)%nat).
Proof.
  intros Hs. unfold stageChunk. destruct (io_op e) as [[] e1]; [intros [= <- <- <- <-]; eauto|].
  destruct (io_op e1) as [[] e2]; [intros [= <- <- <- <-]; eauto|].
  destruct (copyChunk e2 s size) as [[[[[x|] data] e3] s3]|] eqn:Ec; [intros [= <- <- <- <-]; eauto| |done].
  apply copyChunk_sound in Ec as (Hl & Hd & He); [|done].
  destruct (expectCRLF s3) as [[x|] s4] eqn:EC; [intros [= <- <- <- <-]; eauto|].
  apply expectCRLF_ok in EC as [Hd' He'].
  fold (sig_check signing previous supplied data).
  destruct (sig_check _ _ _ _) eqn:Es; [intros [= <- <- <- <-]; eauto|].
  fold (next_sig signing previous supplied).
  destruct (io_op e3) as [[] e4]; [intros [= <- <- <- <-]; eauto|].
  destruct (copySpoolFile _ _ _) as [[oe e5] dst5] eqn:EF. apply copySpoolFile_append in EF as (k & Hk & Hall).
  pose proof copy_block_pos.
  rewrite concat_chunks_of in Hk, Hall by done.
  intros Hr. right. exists data, k.
  destruct oe; injection Hr as <- <- <- <-;
    (split_and!; [done|by rewrite Hd, Hd'|by rewrite He', He|done|done|]); [done|].
  intros p [= <-]. auto.
Qed.

Lemma stageChunk_complete signing e s (dst : W) previous supplied data rest n :
  quiet e → src_data s = data ++ crlf ++ rest → sig_check signing previous supplied data = None →
  sink_room dst n → len data ≤ n →
  ∃ e' dst', stageChunk signing e s dst previous supplied (len data) =
    Some (Ok (next_sig signing previous supplied), e', mkSource rest (src_end s), dst') ∧
    quiet e' ∧ sink_room dst' (n - len data) ∧ sink_data dst' = sink_data dst ++ data.
Proof.
  intros Hq Hd Hs Hr Hn. unfold stageChunk.
  destruct (io_quiet e Hq) as (e1 & -> & Hq1). destruct (io_quiet e1 Hq1) as (e2 & -> & Hq2).
  destruct (copyChunk_complete e2 s data (crlf ++ rest) Hq2 Hd) as (e3 & -> & Hq3).
  rewrite expectCRLF_crlf. fold (sig_check signing previous supplied data). rewrite Hs.
  fold (next_sig signing previous supplied).
  destruct (io_quiet e3 Hq3) as (e4 & -> & Hq4).
  pose proof copy_block_pos.
  destruct (copySpoolFile_accepts e4 (chunks_of (Z.to_nat copy_block) data) dst n) as (e5 & dst5 & EF & Hq5 & Hr5);
    [done|done|by rewrite concat_chunks_of|].
  rewrite EF. apply copySpoolFile_append in EF as (k & Hk & Hall).
  rewrite concat_chunks_of in Hr5, Hk, Hall by done. rewrite take_ge in Hk by auto. eauto 6.
Qed.

Lemma stageChunk_total signing e s (dst : W) previous supplied size :
  stageChunk signing e s dst previous supplied size ≠ None.
Proof.
  unfold stageChunk. pose proof (copyChunk_total).
  repeat case_match; try done; naive_solver.
Qed.

(** ** The end of the body *)

Lemma finalCRLF_ok s s' : finalCRLF s = (None, s') →
  ∃ tail, src_data s = tail ++ src_data s' ∧ src_end s' = src_end s ∧ body_end false tail s'.
Proof.
  unfold finalCRLF, ReadByte, advance1, body_end. destruct s as [d x]. cbn.
  destruct d as [|a d]; cbn; [case_decide; [|done]; intros [= <-]; exists []; cbn; by eauto 6|].
  destruct (chr_eqb a "013") eqn:Ea; cbn; [|done]. apply Byte.byte_dec_bl in Ea as ->.
  destruct d as [|b d]; cbn; [done|]. destruct (chr_eqb b "010") eqn:Eb; cbn; [|done].
  apply Byte.byte_dec_bl in Eb as ->. destruct d as [|c d]; cbn; [|done].
  case_decide; [|done]. intros [= <-]. exists crlf. cbn. by eauto 6.
Qed.
Lemma finalCRLF_end s tail : src_data s = tail → src_end s = EOF → tail = [] ∨ tail = crlf →
  finalCRLF s = (None, mkSource [] EOF).
Proof. destruct s as [d x]. cbn. intros -> -> [->| ->]; done. Qed.

Lemma finishChunks_sound signing dl trailers e s (dst : W) previous supplied total o :
  finishChunks signing dl trailers e s dst previous supplied total = o →
  o_dst o = dst ∧ o_total o = total ∧
  (o_err o = None → sig_check signing previous supplied [] = None ∧
     o_final o = next_sig signing previous supplied ∧ (0 ≤ dl → total = dl) ∧
     ∃ tail, src_data s = tail ++ src_data (o_src o) ∧ src_end (o_src o) = src_end s ∧
       body_end trailers tail (o_src o)).
Proof.
  intros <-. unfold finishChunks, verifyChunkSignature. fold (sig_check signing previous supplied []).
  destruct (sig_check _ _ _ _); [done|]. fold (next_sig signing previous supplied).
  destruct (_ && _) eqn:E; [done|].
  assert (0 ≤ dl → total = dl).
  { intros Hdl. apply andb_false_iff in E as [E|E]; zbool; lia. }
  destruct trailers; [cbn; split_and!; try done; []; intros _; split_and!; [done..|by exists []]|].
  destruct (finalCRLF s) as [err s'] eqn:EF. cbn. split_and!; [done|done|]. intros ->.
  split_and!; [done..|]. by apply finalCRLF_ok.
Qed.

(** ** The loop *)

Lemma line_split (line : bytes) :
  (len line <? 3) || negb (bool_decide (drop (length line - 2) line = crlf)) = false →
  line = take (length line - 2) line ++ crlf ∧ take (length line - 2) line ≠ [].
Proof.
  intros [E1 E2]%orb_false_elim. zbool. apply bool_decide_eq_true_1 in E2. split.
  - by rewrite <-E2, take_drop.
  - intros E%(f_equal length). rewrite length_take in E. cbn in E. lia.
Qed.
Lemma line_join line : line ≠ [] →
  (len (line ++ crlf) <? 3) || negb (bool_decide (drop (length (line ++ crlf) - 2) (line ++ crlf) = crlf)) = false ∧
  take (length (line ++ crlf) - 2) (line ++ crlf) = line.
Proof.
  intros Hne. rewrite length_app. cbn [length crlf]. rewrite Nat.add_sub, take_app_length, drop_app_length.
  rewrite bool_decide_eq_true_2 by done. split; [|done].
  rewrite orb_false_r. apply Z.ltb_ge. destruct line; [done|cbn [length]; lia].
Qed.

(** Everything a run tells: the data chunks it authenticated, what reached
    the sink, and, when it succeeds, that the body was exactly framed. *)
Record run_spec (signing : option V4SigningContext) (dl : Z) (trailers : bool) (s : Source) (dst : W)
    (prev : bytes) (total : Z) (o : outcome W) (cs : list bytes) (k : nat) : Prop := {
  run_rest : ∃ wire last rest, chain signing prev cs wire last ∧ src_data s = wire ++ rest ∧
    (o_err o = None → ∃ line tail, header signing last [] line (o_final o) ∧
       rest = line ++ crlf ++ tail ++ src_data (o_src o) ∧ src_end (o_src o) = src_end s ∧
       body_end trailers tail (o_src o));
  run_sink : sink_data (o_dst o) = sink_data dst ++ take k (concat cs);
  run_ok : o_err o = None → (length (concat cs) ≤ k)%nat ∧ o_total o = total + len (concat cs) ∧
    (0 ≤ dl → o_total o = dl) }.

Lemma run_spec_fail signing dl trailers s (dst : W) prev total o x :
  o_err o = Some x → sink_data (o_dst o) = sink_data dst →
  run_spec signing dl trailers s dst prev total o [] 0.
Proof.
  intros Ho Hd. split; [|by rewrite Hd, app_nil_r|by rewrite Ho].
  exists [], prev, (src_data s). split_and!; [constructor|done|by rewrite Ho].
Qed.

Lemma run_spec_cons signing dl trailers s s1 s2 (dst dst1 : W) prev prev' total o cs k c line :
  c ≠ [] → len c ≤ maxAWSChunkBytes → header signing prev c line prev' →
  src_data s = line ++ crlf ++ src_data s1 → src_data s1 = c ++ crlf ++ src_data s2 →
  src_end s2 = src_end s → sink_data dst1 = sink_data dst ++ c →
  run_spec signing dl trailers s2 dst1 prev' (total + len c) o cs k →
  run_spec signing dl trailers s dst prev total o (c :: cs) (length c + k).
Proof.
  intros Hc Hmax Hh Hs Hs1 He Hd [(wire & last & rest & Hch & Hs2 & Hok) Hk Hrun]. split.
  - exists (line ++ crlf ++ c ++ crlf ++ wire), last, rest. split_and!; [by econstructor| |].
    by rewrite Hs, Hs1, Hs2, <-!(assoc_L (++)). by rewrite <-He.
  - cbn [concat]. by rewrite take_app_add', Hk, Hd, <-(assoc_L (++)).
  - intros (? & ? & ?)%Hrun. cbn [concat]. rewrite length_app. split_and!; [lia|lia|done].
Qed.

(** One turn of the loop on an accepted header line. *)
Lemma header_line_inv signing line sizeText supplied size :
  parseChunkHeader signing line = Ok (sizeText, supplied) → ParseHex sizeText = Some size →
  header_shape signing line sizeText supplied ∧ size = hexval sizeText ∧ 0 ≤ size.
Proof.
  intros Hp%parseChunkHeader_sound Hs. pose proof Hp as [Hst _].
  destruct (size_text_inv _ Hst) as (_ & E & ?). rewrite E in Hs. injection Hs as <-. auto.
Qed.

Lemma chunkLoop_sound fuel signing dl trailers e s (dst : W) prev total o :
  length prev = 32%nat → 0 ≤ total → total + len (src_data s) ≤ MaxInt64 →
  chunkLoop fuel signing dl trailers e s dst prev total = Some o →
  ∃ cs k, run_spec signing dl trailers s dst prev total o cs k.
Proof.
  revert e s dst prev total. induction fuel as [|f IH]; intros e s dst prev total Hp Ht Hb; cbn [chunkLoop]; [done|].
  assert (Hfail : ∀ e' s' dst' x o, sink_data dst' = sink_data dst →
    Some (mkOut total prev (Some x) e' s' dst') = Some o →
    ∃ cs k, run_spec signing dl trailers s dst prev total o cs k).
  { intros e' s' dst' x o' Hd [= <-]. exists [], 0%nat. by eapply run_spec_fail. }
  destruct (poll_done e) as [[] e1]; [by apply Hfail|].
  destruct (readAWSLine s maxAWSChunkHeaderBytes) as [[[line|x] s1]|] eqn:EL; [|by apply Hfail|done].
  apply readAWSLine_ok in EL as (Hs & He & _).
  destruct (_ || _) eqn:Eline in |- *; [by apply Hfail|]. apply line_split in Eline as [Hline _].
  destruct (parseChunkHeader signing _) as [[st sup]|x] eqn:EP; [|by apply Hfail].
  destruct (ParseHex st) as [size|] eqn:ES; [|by apply Hfail].
  destruct (header_line_inv _ _ _ _ _ EP ES) as (Hshape & -> & Hpos). clear EP ES.
  set (hdr := take (length line - 2) line) in *. rewrite Hline, <-(assoc_L (++)) in Hs.
  destruct (hexval st =? 0) eqn:Ez; zbool.
  { intros [= Ho]. apply finishChunks_sound in Ho as (Hd & Htot & Hok). exists [], 0%nat. split.
    - exists [], prev, (src_data s). split_and!; [constructor|done|].
      intros (Hsig & Hfin & _ & tail & Hs1 & Hse & Hend)%Hok. exists hdr, tail. rewrite Hfin.
      split_and!; [|by rewrite Hs, Hs1|by rewrite Hse, He|done]. eapply header_of_shape; [done|done|cbn; lia|done].
    - by rewrite Hd, app_nil_r.
    - intros (_ & _ & Hdl & _)%Hok. cbn. rewrite Htot. split_and!; [lia|lia|done]. }
  destruct (_ >? _) eqn:Emax; [by apply Hfail|]. destruct (_ && _); [by apply Hfail|]. zbool.
  destruct (stageChunk _ _ _ _ _ _ _) as [[[[r e2] s2] dst2]|] eqn:EC; [|done].
  apply stageChunk_sound in EC as [[Hd [x ->]]|(data & k & Hl & Hs1 & He2 & Hsig & Hd & Hr)]; [by apply Hfail| |done].
  assert (Hh : header signing prev data hdr (next_sig signing prev sup)) by (by eapply header_of_shape).
  assert (Hne : data ≠ []) by (intros ->; cbn in *; lia).
  destruct r as [prev'|x].
  - destruct (Hr prev' eq_refl) as [-> Hk]. rewrite take_ge in Hd by done.
    assert (Hlen : len (src_data s) = len hdr + 2 + (len data + 2 + len (src_data s2))).
    { rewrite Hs, Hs1, !length_app. cbn [length crlf]. lia. }
    unfold MaxInt64 in *. rewrite wrap_i64_id by lia.
    intros (cs & k' & Hrun)%IH; [|by apply next_sig_length|lia|unfold MaxInt64; lia].
    exists (data :: cs), (length data + k')%nat. rewrite <-Hl in Hrun. eapply run_spec_cons; eauto; [lia|by rewrite He2, He].
  - intros [= <-]. exists [data], k. split; [|by cbn; rewrite app_nil_r|done].
    exists (hdr ++ crlf ++ data ++ crlf ++ []), (next_sig signing prev sup), (src_data s2).
    split_and!; [|by rewrite Hs, Hs1, <-!(assoc_L (++))|done].
    eapply chain_cons; [done|lia|done|constructor].
Qed.

(** Termination: every turn consumes at least a header line. *)
Lemma chunkLoop_total fuel signing dl trailers e s (dst : W) prev total :
  src_end s ≠ ErrBufferFull → (length (src_data s) < fuel)%nat →
  chunkLoop fuel signing dl trailers e s dst prev total ≠ None.
Proof.
  revert e s dst prev total. induction fuel as [|f IH]; intros e s dst prev total He Hf; [lia|].
  cbn [chunkLoop]. destruct (poll_done e) as [[] e1]; [done|].
  destruct (readAWSLine s maxAWSChunkHeaderBytes) as [[[line|x] s1]|] eqn:EL; [|done|by apply readAWSLine_total in EL].
  apply readAWSLine_ok in EL as (Hs & He1 & Hne).
  destruct (_ || _) in |- *; [done|].
  destruct (parseChunkHeader signing _) as [[st sup]|x] eqn:EP; [|done].
  destruct (ParseHex st) as [size|] eqn:ES; [|done].
  destruct (header_line_inv _ _ _ _ _ EP ES) as (_ & _ & Hpos).
  destruct (size =? 0); [done|]. destruct (_ >? _); [done|]. destruct (_ && _); [done|].
  destruct (stageChunk _ _ _ _ _ _ _) as [[[[r e2] s2] dst2]|] eqn:EC; [|by apply stageChunk_total in EC].
  destruct r as [p|x]; [|done].
  apply stageChunk_sound in EC as [[_ [x Hx]]|(data & k & _ & Hs1 & He2 & _)]; [done| |done].
  apply IH; [by rewrite He2, He1|].
  assert (0 < length line)%nat by (destruct line; cbn; [done|lia]).
  rewrite Hs, Hs1, !length_app in Hf. cbn [length crlf] in Hf. lia.
Qed.

Lemma chain_final_length `{!HMACLaws} signing prev cs wire last :
  length prev = 32%nat → chain signing prev cs wire last → length last = 32%nat.
Proof.
  intros Hp Hch. induction Hch as [|prev c cs line prev' wire last Hc Hmax Hh Hch IH]; [done|].
  apply IH. destruct (shape_of_header _ _ _ _ _ Hp Hmax Hh) as (sup & _ & _ & <-). by apply next_sig_length.
Qed.

(** Reading the header of a chunk the format allows. *)
Lemma read_header `{!HMACLaws} signing prev data line prev' s rest :
  length prev = 32%nat → len data ≤ maxAWSChunkBytes → header signing prev data line prev' →
  src_data s = line ++ crlf ++ rest →
  ∃ sup, readAWSLine s maxAWSChunkHeaderBytes = Some (Ok (line ++ crlf), mkSource rest (src_end s)) ∧
    (len (line ++ crlf) <? 3) || negb (bool_decide (drop (length (line ++ crlf) - 2) (line ++ crlf) = crlf)) = false ∧
    parseChunkHeader signing (take (length (line ++ crlf) - 2) (line ++ crlf)) = Ok (hexn (len data), sup) ∧
    ParseHex (hexn (len data)) = Some (len data) ∧ sig_check signing prev sup data = None ∧
    next_sig signing prev sup = prev'.
Proof.
  intros Hp Hmax Hh Hs. destruct (shape_of_header _ _ _ _ _ Hp Hmax Hh) as (sup & Hshape & Hsig & Hnext).
  destruct (header_line_short _ _ _ _ _ Hp Hmax Hh) as (Hlen & Hpos & Hnl).
  destruct (line_join line) as [Hj1 Hj2]; [by intros ->; cbn in *; lia|].
  exists sup. rewrite Hj2. split_and!; [|done|by apply parseChunkHeader_complete| |done|done].
  - replace (line ++ crlf) with ((line ++ ["013"%byte]) ++ ["010"%byte]) by (by rewrite <-(assoc_L (++))).
    apply readAWSLine_line.
    + by rewrite Hs, <-!(assoc_L (++)).
    + apply Forall_app. split; [done|]. by repeat constructor.
    + rewrite length_app. cbn [length]. unfold bufio_size. lia.
    + rewrite length_app. cbn [length]. change maxAWSChunkHeaderBytes with 8192. lia.
  - destruct Hshape as [Hst _]. destruct (size_text_inv _ Hst) as (_ & -> & _). f_equal.
    apply hexn_spec. assert (maxAWSChunkBytes ≤ MaxUint64) by (by vm_compute). lia.
Qed.

(** What is left of the source after an accepted body. *)
Definition rest_ok (trailers : bool) (rest : bytes) (s s' : Source) : Prop :=
  if trailers then s' = mkSource rest (src_end s)
  else (rest = [] ∨ rest = crlf) ∧ src_end s = EOF ∧ s' = mkSource [] EOF.

Lemma chunkLoop_complete `{!HMACLaws} fuel signing dl trailers e s s' (dst : W) prev total cs wire last line final rest :
  chain signing prev cs wire last → header signing last [] line final →
  length prev = 32%nat → quiet e → src_data s = wire ++ line ++ crlf ++ rest → rest_ok trailers rest s s' →
  0 ≤ total → total + len (concat cs) ≤ MaxInt64 → (dl < 0 ∨ dl = total + len (concat cs)) →
  sink_room dst (len (concat cs)) → (length cs < fuel)%nat →
  ∃ e' dst', chunkLoop fuel signing dl trailers e s dst prev total =
    Some (mkOut (total + len (concat cs)) final None e' s' dst') ∧ sink_data dst' = sink_data dst ++ concat cs.
Proof.
  intros Hch Hend. revert fuel e s dst total.
  induction Hch as [prev|prev c cs hline prev' wire last Hc Hmax Hh Hch IH];
    intros fuel e s dst total Hp Hq Hs Hrest Ht Hb Hdl Hroom Hf; (destruct fuel as [|f]; [lia|]); cbn [chunkLoop];
    destruct (poll_quiet e Hq) as (e1 & -> & Hq1).
  - destruct (read_header signing prev [] line final s rest) as (sup & -> & -> & -> & -> & Hsig & Hnext);
      [done|by vm_compute|done|done|].
    cbn [length concat] in *. rewrite Z.add_0_r in *. rewrite Z.eqb_refl. exists e1, dst.
    split; [|by rewrite app_nil_r]. unfold finishChunks, verifyChunkSignature.
    fold (sig_check signing prev sup []). rewrite Hsig. fold (next_sig signing prev sup). rewrite Hnext.
    replace (_ && _) with false; [|symmetry; apply andb_false_iff; destruct Hdl as [?| ->];
      [left; rewrite Z.geb_leb; apply Z.leb_gt; lia|right; by rewrite Z.eqb_refl]].
    unfold rest_ok in Hrest. destruct trailers; [by subst s'|]. destruct Hrest as (Hr & He & ->).
    by rewrite (finalCRLF_end _ rest).
  - destruct (read_header signing prev c hline prev' s (c ++ crlf ++ wire ++ line ++ crlf ++ rest))
      as (sup & -> & -> & -> & -> & Hsig & Hnext); [done|done|done|by rewrite Hs, <-!(assoc_L (++))|].
    cbn [concat] in *. rewrite length_app, Nat2Z.inj_add in *. unfold MaxInt64 in *.
    assert (0 < len c) by (destruct c; cbn; [done|lia]).
    rewrite (proj2 (Z.eqb_neq _ _)), Z.gtb_ltb, (proj2 (Z.ltb_ge _ _)) by lia.
    replace (_ && _) with false; [|symmetry; apply andb_false_iff; destruct Hdl as [?| ->];
      [left; rewrite Z.geb_leb; apply Z.leb_gt; lia|right; nowrap; apply orb_false_iff; split;
       [apply Z.ltb_ge; lia|rewrite Z.gtb_ltb; apply Z.ltb_ge; lia]]].
    destruct (stageChunk_complete signing e1 (mkSource (c ++ crlf ++ wire ++ line ++ crlf ++ rest) (src_end s)) dst
      prev sup c (wire ++ line ++ crlf ++ rest) (len c + len (concat cs))) as (e2 & dst2 & -> & Hq2 & Hr2 & Hd2);
      [done|done|done|done|lia|].
    rewrite Hnext, wrap_i64_id by lia. cbn [src_end].
    destruct (IH Hend f e2 (mkSource (wire ++ line ++ crlf ++ rest) (src_end s)) dst2 (total + len c))
      as (e' & dst' & -> & Hd'); try done; try lia.
    + rewrite <-Hnext. by apply next_sig_length.
    + by replace (len c + len (concat cs) - len c) with (len (concat cs)) in Hr2 by lia.
    + cbn [length] in Hf. lia.
    + exists e', dst'. rewrite Hd', Hd2, <-(assoc_L (++)), Z.add_assoc. done.
Qed.
End chunks.
