(* ===== verification/AwsTrailer.v ===== *)
(** * Trailers of AWS-chunked bodies ([internal/api/aws_chunked_trailer.go])

    In the trailer modes the body is followed by declared checksum headers
    and, in the signed mode, a signature over them chained to the last chunk.
    CRC-32 is computed as [hash/crc32] does; SHA-1 and the third-party
    CRC-64/NVME are parameters. Text is ASCII: [strings.TrimSpace] and
    [strings.ToLower] act on ASCII blanks and letters. *)
From S2P Require Import Prelude GoStd GoIO GoText Http Primitives Spool AwsChunked AwsChunkedSpec AwsChunkedCorrect.
Local Open Scope Z_scope.

Definition maxAWSTrailerBytes : Z := Z.shiftl 64 10.
Definition maxAWSTrailerCount : Z := 64.

(** ** Checksums *)

(** [hash/crc32]: reflected polynomial, one bit at a time. *)
Fixpoint crc_shift (poly : Z) (n : nat) (c : Z) : Z :=
  match n with
  | O => c
  | S n => crc_shift poly n (if Z.odd c then Z.lxor (Z.shiftr c 1) poly else Z.shiftr c 1)
  end.
Definition crc32 (poly : Z) (l : bytes) : Z :=
  Z.lxor (foldl (λ c b, crc_shift poly 8 (Z.lxor c (byte_val b))) MaxUint32 l) MaxUint32.
Definition crc32_IEEE : Z := 3988292384.
Definition crc32_Castagnoli : Z := 2197175160.

Class Checksums := { sha1 : bytes → bytes; crc64nvme : bytes → bytes }.

(** ** Text *)

Definition token_chars : bytes := txt "!#$%&'*+-.^_`|~".
Definition validTrailerToken (s : bytes) : bool :=
  negb (bool_decide (s = [])) &&
  forallb (λ c, ((97 <=? byte_val c) && (byte_val c <=? 122)) || is_digit c || bool_decide (c ∈ token_chars)) s.

Definition forbiddenTrailers : list bytes :=
  txt <$> ["content-length"; "transfer-encoding"; "authorization"; "x-amz-content-sha256"; "x-amz-trailer"].
Definition allowedChecksums : list bytes :=
  txt <$> ["x-amz-checksum-crc32"; "x-amz-checksum-crc32c"; "x-amz-checksum-crc64nvme";
           "x-amz-checksum-sha1"; "x-amz-checksum-sha256"].
Definition trailerSignature : bytes := txt "x-amz-trailer-signature".

(** The declared names, checked one by one. *)
Fixpoint declareTrailers (decl set : list bytes) : option (list bytes) :=
  match decl with
  | [] => Some set
  | name :: decl =>
      if bool_decide (name ≠ ToLowerB name) || bool_decide (name = []) || bool_decide (name ∈ set) ||
         bool_decide (name ∈ forbiddenTrailers) || negb (bool_decide (name ∈ allowedChecksums)) ||
         negb (validTrailerToken name)
      then None else declareTrailers decl (set ++ [name])
  end.

(** [map[string]string] of the received trailers, in order of arrival. *)
Abbreviation tmap := (list (bytes * bytes)).
Fixpoint tget (m : tmap) (k : bytes) : option bytes :=
  match m with [] => None | (k', v) :: m => if decide (k' = k) then Some v else tget m k end.

(** ** Reading the trailer section *)

Definition trailerLine (set : list bytes) (mode : streamingPayloadMode) (values : tmap) (line : bytes) : option tmap :=
  let n := (length line - 2)%nat in
  if (len line <? 3) || negb (bool_decide (drop n line = crlf)) then None
  else match cut ":" (take n line) with
  | None => None
  | Some (name, raw) =>
      if (negb (bool_decide (name ∈ set)) &&
          negb (bool_decide (mode = streamingSignedPayloadTrailer) && bool_decide (name = trailerSignature))) ||
         bool_decide (name ∈ values.*1) then None
      else if bool_decide (name ≠ ToLowerB name) || negb (validTrailerToken name) then None
      else let value := TrimSpaceB raw in
        if bool_decide (value = []) || bool_decide ("013"%byte ∈ value) || bool_decide ("010"%byte ∈ value) then None
        else Some (values ++ [(name, value)])
  end.

Fixpoint readTrailers (fuel : nat) (s : Source) (set : list bytes) (mode : streamingPayloadMode)
    (values : tmap) (used : Z) : option (option tmap * Source) :=
  match fuel with
  | O => None
  | S f =>
      match readAWSLine s (maxAWSTrailerBytes - used) with
      | None => None
      | Some (Err _, s) => Some (None, s)
      | Some (Ok line, s) =>
          if len line >? maxAWSTrailerBytes - used then Some (None, s)
          else if decide (line = crlf) then Some (Some values, s)
          else match trailerLine set mode values line with
          | None => Some (None, s)
          | Some values => readTrailers f s set mode values (used + len line)
          end
      end
  end.

Section trailers.
Context `{SHA256, HMAC, Checksums}.

(** One declared checksum against the staged body. *)
Definition checksum_of (name body : bytes) : option bytes :=
  if decide (name = txt "x-amz-checksum-sha256") then Some (sha256 body)
  else if decide (name = txt "x-amz-checksum-sha1") then Some (sha1 body)
  else if decide (name = txt "x-amz-checksum-crc32") then Some (be_encode 4 (crc32 crc32_IEEE body))
  else if decide (name = txt "x-amz-checksum-crc32c") then Some (be_encode 4 (crc32 crc32_Castagnoli body))
  else if decide (name = txt "x-amz-checksum-crc64nvme") then Some (crc64nvme body)
  else None.
(** [base64.StdEncoding.DecodeString] and a constant-time comparison. *)
Definition checksumMatches (values : tmap) (name got : bytes) (size : Z) : bool :=
  match tget values name with
  | None => true
  | Some v =>
      match b64_decode std_alphabet true (strip_newlines v) with
      | None => false
      | Some want => (len want =? size) && bool_decide (want = got)
      end
  end.

(** The staged file is read in blocks, the last read reports its end. *)
Fixpoint readBlocks (e : Env) (blocks : list bytes) : bool * Env :=
  let '(failed, e) := io_op e in
  if (failed : bool) then (true, e) else match blocks with [] => (false, e) | _ :: bs => readBlocks e bs end.

Definition verifyTrailerChecksums (e : Env) (body : bytes) (values : tmap) : option error * Env :=
  if bool_decide (values = []) then (Some ErrStreamingTrailer, e)
  else if bool_decide (Forall (λ kv, take 15 kv.1 ≠ txt "x-amz-checksum-") values) then (Some ErrStreamingTrailer, e)
  else
    let '(f1, e) := io_op e in
    if (f1 : bool) then (Some (Wrapf "%w: rewind body for trailer checksum: %v" ErrStreamingSpool), e) else
    let '(f2, e) := readBlocks e (chunks_of (Z.to_nat copy_block) body) in
    if (f2 : bool) then (Some (Wrapf "%w: read body for trailer checksum: %v" ErrStreamingSpool), e) else
    let m name size := match checksum_of (txt name) body with
                       | Some got => checksumMatches values (txt name) got size | None => true end in
    if negb (m "x-amz-checksum-sha256" 32) then (Some ErrSignatureMismatch, e)
    else if negb (m "x-amz-checksum-sha1" 20) then (Some ErrSignatureMismatch, e)
    else if negb (m "x-amz-checksum-crc32" 4) then (Some ErrSignatureMismatch, e)
    else if negb (m "x-amz-checksum-crc32c" 4) then (Some ErrSignatureMismatch, e)
    else if negb (m "x-amz-checksum-crc64nvme" 8) then (Some ErrSignatureMismatch, e)
    else (None, e).

Definition canonicalTrailers (values : tmap) : bytes :=
  concat ((λ n, n ++ [":"%byte] ++ default [] (tget values n) ++ ["010"%byte]) <$>
          sort_bytes (filter (λ n, n ≠ trailerSignature) values.*1)).
Definition trailerStringToSign (c : V4SigningContext) (final : bytes) (values : tmap) : bytes :=
  txt "AWS4-HMAC-SHA256-TRAILER" ++ ["010"%byte] ++ sc_timestamp c ++ ["010"%byte] ++ sc_credentialScope c ++
  ["010"%byte] ++ hex_bytes final ++ ["010"%byte] ++ hex_bytes (sha256 (canonicalTrailers values)).

(** The signature line of the signed mode, and its absence in the others. *)
Definition checkTrailerSignature (signing : option V4SigningContext) (mode : streamingPayloadMode)
    (final : bytes) (values : tmap) : option error :=
  if decide (mode = streamingSignedPayloadTrailer) then
    match tget values trailerSignature, signing with
    | Some sig, Some c =>
        if negb (validLowerHex sig 64) then Some ErrSignatureMismatch
        else match hex_decode sig with
        | None => Some ErrSignatureMismatch
        | Some supplied =>
            if decide (hmac_sha256 (sc_signingKey c) (trailerStringToSign c final values) = supplied) then None
            else Some ErrSignatureMismatch
        end
    | _, _ => Some ErrSignatureMismatch
    end
  else match tget values trailerSignature with Some _ => Some ErrStreamingTrailer | None => None end.

Definition is_trailer_mode (mode : streamingPayloadMode) : bool :=
  bool_decide (mode = streamingSignedPayloadTrailer) || bool_decide (mode = streamingUnsignedPayloadTrailer).
Definition boolInt (b : bool) : Z := if b then 1 else 0.

Definition verifyAWSTrailers (fuel : nat) (e : Env) (s : Source) (body declaration : bytes)
    (signing : option V4SigningContext) (mode : streamingPayloadMode) (final : bytes) : option (option error * Env) :=
  let ret x := Some (Some x, e) in
  let signed := bool_decide (mode = streamingSignedPayloadTrailer) in
  if is_trailer_mode mode && bool_decide (declaration = []) then ret ErrStreamingTrailer
  else if signed && (match signing with None => true | Some c => len (sc_signingKey c) =? 0 end) then ret ErrSignatureMismatch
  else let decl := split_bytes "," declaration [] in
  if bool_decide (head decl = Some []) || (len decl >? maxAWSTrailerCount) then ret ErrStreamingTrailer
  else match declareTrailers decl [] with
  | None => ret ErrStreamingTrailer
  | Some set =>
      if signed && (len set =? 0) then ret ErrStreamingTrailer
      else match readTrailers fuel s set mode [] 0 with
      | None => None
      | Some (None, _) => ret ErrStreamingTrailer
      | Some (Some values, s) =>
          if negb (len values =? len set + boolInt signed) then ret ErrStreamingTrailer
          else if negb (forallb (λ name, bool_decide (name ∈ values.*1)) set) then ret ErrStreamingTrailer
          else match verifyTrailerChecksums e body values with
          | (Some x, e) => Some (Some x, e)
          | (None, e) =>
              match checkTrailerSignature signing mode final values with
              | Some x => Some (Some x, e)
              | None =>
                  match ReadByte s with
                  | inl _ => Some (Some ErrStreamingTrailingData, e)
                  | inr x =>
                      if decide (x = EOF) then
                        let '(f, e) := io_op e in
                        if (f : bool) then Some (Some (Wrapf "%w: rewind body after trailer verification: %v" ErrStreamingSpool), e)
                        else Some (None, e)
                      else Some (Some ErrStreamingTrailingData, e)
                  end
              end
          end
      end
  end.
End trailers.

Example crc32_check : crc32 crc32_IEEE (txt "123456789") = 3421780262 ∧ crc32 crc32_Castagnoli (txt "123456789") = 3808858755.
Proof. by vm_compute. Qed.
