(* ===== verification/AwsBody.v ===== *)
(** * Verified request bodies ([internal/api/verified_aws_body.go])

    A request body is decoded, verified and staged in a temporary file whose
    bytes are charged to the spool manager; handlers only ever read the
    staged file. [verifyAndSpoolAWSBody] handles the streaming modes,
    [verifyAndSpoolV4Payload] a body with a concrete signed SHA-256. *)
From S2P Require Import Prelude GoStd GoIO GoText Http Primitives Spool AwsChunked AwsChunkedSpec AwsChunkedCorrect AwsTrailer.
Local Open Scope Z_scope.
Local Open Scope go_scope.

Definition ErrUnsupportedStreamingMode : error := Sentinel "unsupported SigV4 streaming payload mode".

(** ** Streaming modes ([auth.go]) *)

Definition classifyStreamingPayloadMode (value : bytes) : result streamingPayloadMode :=
  if eqs value "STREAMING-AWS4-HMAC-SHA256-PAYLOAD" then Ok streamingSignedPayload
  else if eqs value "STREAMING-AWS4-HMAC-SHA256-PAYLOAD-TRAILER" then Ok streamingSignedPayloadTrailer
  else if eqs value "STREAMING-UNSIGNED-PAYLOAD-TRAILER" then Ok streamingUnsignedPayloadTrailer
  else if eqs value "" || eqs value "UNSIGNED-PAYLOAD" then Ok streamingNone
  else if (len value =? 64) && bool_decide (is_Some (hex_decode value)) && bool_decide (ToLowerB value = value)
  then Ok streamingNone
  else Err ErrUnsupportedStreamingMode.

Definition validAWSContentEncoding (value : bytes) : bool :=
  let parts := SplitB "," value in
  (len parts =? 1) && eqs (TrimSpaceB (first parts)) "aws-chunked".

(** The errors wrap both [ErrInvalidStreamingHeaders], which is the format
    here and recognised by it, and the sentinel given. *)
Definition invalidStreamingHeaders : string := "invalid SigV4 streaming request headers: %w".
Definition is_invalidStreamingHeaders (e : error) : bool :=
  match e with Wrapf f _ => bool_decide (f = invalidStreamingHeaders) | _ => false end.
Definition validateStreamingRequestHeaders (r : Request) (mode : streamingPayloadMode) : option error :=
  let bad x := Some (Wrapf invalidStreamingHeaders x) in
  if decide (mode = streamingNone) then None
  else if negb (len (HValues r "X-Amz-Content-Sha256") =? 1) || negb (len (HValues r "Content-Encoding") =? 1) ||
          negb (len (HValues r "X-Amz-Decoded-Content-Length") =? 1) then bad ErrStreamingFraming
  else if bool_decide (","%byte ∈ HGet r "X-Amz-Content-Sha256") then bad ErrStreamingFraming
  else if negb (validAWSContentEncoding (HGet r "Content-Encoding")) then bad ErrStreamingFraming
  else if (len (HValues r "X-Amz-Trailer") >? 1) ||
          (eqs (HGet r "X-Amz-Trailer") "" && is_trailer_mode mode) then bad ErrStreamingTrailer
  else None.

(** ** The staged file *)

(** The file behind a charging writer, with the manager it charges;
    [sk_takes] lists how many bytes each file write accepts before failing,
    every byte once the list is exhausted. *)
Record spoolSink := mkSink {
  sk_writer : reservingWriter; sk_data : bytes; sk_manager : spoolManager; sk_takes : list nat }.

Definition sinkWrite (k : spoolSink) (p : bytes) : option error * spoolSink :=
  let takes := default (length p) (head (sk_takes k)) in
  let '(oe, bs, w, m) := rwWrite takes (sk_writer k) p (sk_manager k) in
  (oe, mkSink w (sk_data k ++ bs) m (tail (sk_takes k))).

(** The next [n] bytes are already reserved. *)
Definition sinkRoom (k : spoolSink) (n : Z) : Prop :=
  sk_takes k = [] ∧ 0 ≤ n ≤ rw_remaining (sk_writer k) ∧ rw_remaining (sk_writer k) ≤ MaxInt64 ∧
  0 ≤ sp_current (sk_manager k) ≤ sp_capacity (sk_manager k) ∧ sp_capacity (sk_manager k) ≤ MaxInt64 ∧
  ∃ r, sp_reservations (sk_manager k) !! rw_reservation (sk_writer k) = Some r ∧
       sr_released r = false ∧ 0 ≤ sr_used r ≤ sr_limit r ∧ sr_limit r ≤ MaxInt64.

Lemma sinkWrite_append k p oe k' : sinkWrite k p = (oe, k') →
  ∃ n, sk_data k' = sk_data k ++ take n p ∧ (oe = None → (length p ≤ n)%nat).
Proof.
  unfold sinkWrite, rwWrite. destruct (writer_charge _ _) as [extra rem].
  destruct (_ || _); [intros [= <- <-]; exists 0%nat; by rewrite take_0|].
  destruct (Grow _ _ _) as [[e|] m]; [intros [= <- <-]; exists 0%nat; by rewrite take_0|].
  intros [= <- <-]. eexists. split; [done|]. by case_decide.
Qed.

Lemma Grow_zero i r m :
  sp_reservations m !! i = Some r → sr_released r = false → 0 ≤ sr_used r ≤ sr_limit r → sr_limit r ≤ MaxInt64 →
  0 ≤ sp_current m ≤ sp_capacity m → sp_capacity m ≤ MaxInt64 →
  ∃ m', Grow i 0 m = (None, m') ∧ sp_current m' = sp_current m ∧ sp_capacity m' = sp_capacity m ∧
        sp_reservations m' !! i = Some r.
Proof.
  unfold MaxInt64. intros Hr Hrel Hu Hl Hc Hcap. unfold Grow. rewrite Hr, Hrel. cbn [Z.ltb Z.compare].
  rewrite !Z.sub_0_r, !Z.add_0_r. rewrite (wrap_i64_id (sr_limit r - sr_used r)), (wrap_i64_id (sr_limit r)),
    (wrap_i64_id (sp_capacity m)), (wrap_i64_id (sr_used r)), (wrap_i64_id (sp_current m)) by lia.
  rewrite !Z.gtb_ltb, !(proj2 (Z.ltb_ge _ _)) by lia. cbn [orb]. eexists. split; [done|].
  cbn. rewrite list_lookup_insert_eq by (by eapply lookup_lt_Some). destruct r; cbn in *; by subst.
Qed.

Lemma sinkWrite_accepts k p n : sinkRoom k n → len p ≤ n →
  ∃ k', sinkWrite k p = (None, k') ∧ sinkRoom k' (n - len p).
Proof.
  intros (Ht & Hn & Hrem & Hcur & Hcap & r & Hr & Hrel & Hu & Hl) Hp. unfold sinkWrite, rwWrite, writer_charge.
  rewrite Ht. cbn [head default]. rewrite Z.geb_leb, (proj2 (Z.leb_le _ _)) by lia.
  destruct (Grow_zero _ r (sk_manager k) Hr Hrel Hu Hl Hcur Hcap) as (m' & Hg & Hc' & Hcap' & Hr').
  cbn [Z.ltb Z.compare orb]. change (0 >? MaxInt64) with false. cbn [orb]. rewrite Hg.
  rewrite decide_True by (cbn; lia). unfold MaxInt64 in *. rewrite wrap_i64_id by lia.
  eexists. split; [done|]. unfold sinkRoom, MaxInt64. cbn. rewrite Hc', Hcap'.
  split_and!; try done; try lia. eauto 7.
Qed.

Lemma sinkRoom_mono k n n' : sinkRoom k n → 0 ≤ n' ≤ n → sinkRoom k n'.
Proof. intros (? & ? & Hk) Hn. split_and!; try done; try lia; apply Hk. Qed.

#[export] Instance spool_sink : Sink spoolSink := {|
  sink_write := sinkWrite; sink_data := sk_data; sink_room := sinkRoom;
  sink_append := sinkWrite_append; sink_accepts := sinkWrite_accepts; sink_room_mono := sinkRoom_mono |}.

(** ** Staging a request body *)

(** What the handlers read. *)
Record verifiedAWSFile := mkVerified { vf_data : bytes; vf_length : Z; vf_reservation : nat }.

Definition max64 (a b : Z) : Z := if a >? b then a else b.

(** [x-amz-decoded-content-length], -1 when it is absent or empty. *)
Definition decodedLengthOf (r : Request) : result Z :=
  let v := HGet r "X-Amz-Decoded-Content-Length" in
  if eqs v "" then Ok (-1)
  else match ParseInt_bytes v with
  | Some n => if n <? 0 then Err ErrStreamingFraming else Ok n
  | None => Err ErrStreamingFraming
  end.

(** The checks before anything is reserved: the mode and the declared length. *)
Definition bodyPreconditions (r : Request) (signing : option V4SigningContext) : result (streamingPayloadMode * Z) :=
  mode ← classifyStreamingPayloadMode (HGet r "X-Amz-Content-Sha256");
  let streaming := bool_decide (mode ≠ streamingNone) in
  if streaming && (match signing with Some c => bool_decide (sc_mode c ≠ mode) | None => false end) then Err ErrStreamingFraming
  else if streaming && negb (validAWSContentEncoding (HGet r "Content-Encoding")) &&
          negb (bool_decide (signing = None) && eqs (HGet r "Content-Encoding") "") then Err ErrStreamingFraming
  else if streaming && negb (len (HValues r "X-Amz-Decoded-Content-Length") =? 1) then Err ErrStreamingFraming
  else decoded ← decodedLengthOf r; Ok (mode, decoded).

(** Errors of the decoder that are returned as they are. *)
Definition passthrough (x : error) : bool :=
  bool_decide (x ∈ [ErrStreamingCanceled; ErrIncompleteBody; ErrStreamingFraming; ErrStreamingLength;
                    ErrStreamingTrailer; ErrStreamingTrailingData; ErrSignatureMismatch]).

Section body.
Context `{SHA256, HMAC, Checksums}.

(** From the open temporary file to the verified body; the error, the data
    and the manager. *)
Definition spoolBody (e : Env) (takes : list nat) (r : Request) (signing : option V4SigningContext)
    (mode : streamingPayloadMode) (decoded : Z) (i : nat) (m : spoolManager)
    : option (result (bytes * Z) * spoolManager) :=
  let '(canceled, e) := poll_done e in
  if (canceled : bool) then Some (Err ErrStreamingCanceled, m) else
  let fuel := S (length (src_data (Body r))) in
  let dst := mkSink (mkWriter i (max64 decoded 0)) [] m takes in
  match verifyAWSChunkedContext fuel signing decoded (is_trailer_mode mode) e (Body r) dst with
  | None => None
  | Some o =>
      let m := sk_manager (o_dst o) in
      match o_err o with
      | Some x => Some (Err (if passthrough x then x else Wrapf "%w: %v" ErrStreamingSpool), m)
      | None =>
          let body := sk_data (o_dst o) in
          match (if is_trailer_mode mode then
                   verifyAWSTrailers fuel (o_env o) (o_src o) body (HGet r "X-Amz-Trailer") signing mode (o_final o)
                 else Some (None, o_env o)) with
          | None => None
          | Some (Some x, _) => Some (Err x, m)
          | Some (None, e) =>
              let '(failed, e) := io_op e in
              if (failed : bool) then Some (Err (Wrapf "%w: %v" ErrStreamingSpool), m)
              else Some (Ok (body, o_total o), m)
          end
      end
  end.

(** [verifyAndSpoolAWSBody]: every error path after the reservation removes
    the file and releases it. *)
Definition verifyAndSpoolAWSBody (e : Env) (takes : list nat) (ctxErr : option error) (limit : Z) (r : Request)
    (signing : option V4SigningContext) (m : spoolManager) : option (result verifiedAWSFile * spoolManager) :=
  match bodyPreconditions r signing with
  | Err x => Some (Err x, m)
  | Ok (mode, decoded) =>
      match Acquire ctxErr (max64 decoded 0) limit m with
      | (Err x, m) =>
          Some (Err (if error_is x ContextCanceled || error_is x ContextDeadlineExceeded then ErrStreamingCanceled else x), m)
      | (Ok i, m) =>
          let '(f1, e) := io_op e in
          if (f1 : bool) then Some (Err (Wrapf "%w: create temporary body: %v" ErrStreamingSpool), Release i m) else
          let '(f2, e) := io_op e in
          if (f2 : bool) then Some (Err (Wrapf "%w: chmod temporary body: %v" ErrStreamingSpool), Release i m) else
          match spoolBody e takes r signing mode decoded i m with
          | None => None
          | Some (Err x, m) => Some (Err x, Release i m)
          | Some (Ok (body, length), m) => Some (Ok (mkVerified body length i), m)
          end
      end
  end.

(** The copy loop of [verifyAndSpoolV4Payload]: [blocks] are what the
    successive reads of the request body return, the last one reports
    [endErr]. *)
Fixpoint v4CopyLoop (e : Env) (blocks : list bytes) (endErr : error) (declared : Z) (i : nat)
    (acc : bytes) (m : spoolManager) : result (bytes * Env) * spoolManager :=
  let '(canceled, e) := poll_done e in
  if (canceled : bool) then (Err ErrStreamingCanceled, m) else
  match blocks with
  | [] => if decide (endErr = EOF) then (Ok (acc, e), m) else (Err (Wrapf "%w: read request body" ErrStreamingSpool), m)
  | b :: blocks =>
      let '(extra, declared) := v4_charge declared (len b) in
      match (if extra >? 0 then Grow i extra m else (None, m)) with
      | (Some x, m) => (Err x, m)
      | (None, m) =>
          let '(failed, e) := io_op e in
          if (failed : bool) then (Err (Wrapf "%w: write temporary body" ErrStreamingSpool), m)
          else v4CopyLoop e blocks endErr declared i (acc ++ b) m
      end
  end.

Definition verifyAndSpoolV4Payload (e : Env) (ctxErr : option error) (limit : Z) (r : Request) (blocks : list bytes)
    (signing : option V4SigningContext) (m : spoolManager) : result verifiedAWSFile * spoolManager :=
  match signing with
  | None => (Err (Errorf "invalid concrete SigV4 payload verification request"), m)
  | Some c =>
      if negb (sc_verifyPayload c) then (Err (Errorf "invalid concrete SigV4 payload verification request"), m) else
      let declared := if ContentLength r <? 0 then 0 else ContentLength r in
      match Acquire ctxErr declared limit m with
      | (Err x, m) =>
          (Err (if error_is x ContextCanceled || error_is x ContextDeadlineExceeded then ErrStreamingCanceled else x), m)
      | (Ok i, m) =>
          let '(f1, e) := io_op e in
          if (f1 : bool) then (Err (Wrapf "%w: create temporary body: %v" ErrStreamingSpool), Release i m) else
          let '(f2, e) := io_op e in
          if (f2 : bool) then (Err (Wrapf "%w: chmod temporary body: %v" ErrStreamingSpool), Release i m) else
          match v4CopyLoop e blocks (src_end (Body r)) declared i [] m with
          | (Err x, m) => (Err x, Release i m)
          | (Ok (body, e), m) =>
              if negb (bool_decide (sha256 body = sc_expectedPayloadHash c)) then (Err ErrSignatureMismatch, Release i m)
              else let '(f3, e) := io_op e in
                if (f3 : bool) then (Err (Wrapf "%w: seek temporary body" ErrStreamingSpool), Release i m)
                else (Ok (mkVerified body (len body) i), m)
          end
      end
  end.
End body.

(** [verifiedAWSFile.Close]: idempotent; the reservation is released even when
    closing or removing the file fails. [closed] is the file's flag. *)
Definition CloseVerified (e : Env) (closed : bool) (f : verifiedAWSFile) (m : spoolManager)
    : option error * bool * Env * spoolManager :=
  if closed then (None, true, e, m)
  else
    let '(closeFails, e) := io_op e in
    let '(removeFails, e) := io_op e in
    let err := if (closeFails : bool) then Some (Wrapf "%w: close temporary body: %v" ErrStreamingSpool)
               else if (removeFails : bool) then Some (Wrapf "%w: remove temporary body: %v" ErrStreamingSpool) else None in
    (err, true, e, Release (vf_reservation f) m).

(** [spoolOptions]: the last option of each kind wins. *)
Inductive spoolOption := OptManager (name : string) | OptLimit (n : Z) | OptLimits (l : SpoolLimits) | OptSource (l : SpoolLimits).
Definition spoolOptions (options : list spoolOption) : option string * Z :=
  foldl (λ st o, match o with
    | OptManager m => (Some m, st.2)
    | OptLimit n => (st.1, n)
    | OptLimits l | OptSource l => (st.1, Global l)
    end) (None, Z.shiftl 5 30) options.
