(* ===== verification/AwsTheorems.v ===== *)
(** * Theorems about verified request bodies *)
From S2P Require Import Prelude GoStd GoIO GoText Http Primitives Spool AwsChunked AwsChunkedSpec AwsChunkedCorrect AwsTrailer AwsBody.
Local Open Scope Z_scope.

Section decoder.
Context `{SHA256, HMAC, !HMACLaws} {W : Type} `{Sink W}.

(** The chain value a body starts from. *)
Definition seed (signing : option V4SigningContext) : bytes :=
  match signing with
  | Some c => if verifyChunkSignatures signing then sc_seedSignature c else zero32
  | None => zero32
  end.
Definition usable (signing : option V4SigningContext) : Prop :=
  ∀ c, signing = Some c → verifyChunkSignatures signing = true → live_context c ∧ length (sc_seedSignature c) = 32%nat.

Lemma seed_length signing : usable signing → length (seed signing) = 32%nat.
Proof.
  intros Hu. unfold seed. destruct signing as [c|]; [|done].
  destruct (verifyChunkSignatures (Some c)) eqn:E; [|done]. by apply (Hu c).
Qed.

(** On a usable context the decoder is its loop; only the final signature of
    a failed run is erased. *)
Lemma verify_loop fuel signing dl trailers e s (dst : W) o :
  verifyAWSChunkedContext fuel signing dl trailers e s dst = Some o →
  (o_err o = Some ErrSignatureMismatch ∧ o_dst o = dst) ∨
  ∃ o', chunkLoop fuel signing dl trailers e s dst (seed signing) 0 = Some o' ∧
    o_err o = o_err o' ∧ o_dst o = o_dst o' ∧ (o_err o' = None → o = o').
Proof.
  unfold verifyAWSChunkedContext, seed. destruct signing as [c|].
  - destruct (_ && _) in |- *; [intros [= <-]; by left|]. intros Ho. right.
    destruct (chunkLoop _ _ _ _ _ _ _ _ _) as [o'|]; [|done]. cbn in Ho. injection Ho as <-. exists o'.
    by destruct (o_err o') eqn:E.
  - intros Ho. right. destruct (chunkLoop _ _ _ _ _ _ _ _ _) as [o'|]; [|done]. cbn in Ho. injection Ho as <-.
    exists o'. by destruct (o_err o') eqn:E.
Qed.
Lemma loop_verify fuel signing dl trailers e s (dst : W) o :
  usable signing → chunkLoop fuel signing dl trailers e s dst (seed signing) 0 = Some o → o_err o = None →
  verifyAWSChunkedContext fuel signing dl trailers e s dst = Some o.
Proof.
  unfold verifyAWSChunkedContext, seed. intros Hu Ho He. destruct signing as [c|].
  - destruct (verifyChunkSignatures (Some c)) eqn:Ev; cbn [andb].
    + destruct (Hu c eq_refl Ev) as [[-> Hk] _]. cbn [orb].
      destruct (_ =? 0) eqn:E; zbool; [exfalso; apply Hk, length_zero_iff_nil; lia|].
      rewrite Ho. cbn. by rewrite He.
    + rewrite Ho. cbn. by rewrite He.
  - rewrite Ho. cbn. by rewrite He.
Qed.

Lemma chain_length signing prev cs wire last :
  chain signing prev cs wire last → (length cs + length (concat cs) ≤ length wire)%nat.
Proof.
  induction 1 as [|prev c cs line prev' wire last Hc Hmax Hh Hch IH]; [done|].
  cbn [length concat]. rewrite !length_app. cbn [length crlf]. lia.
Qed.

(** C16: when nothing fails, the decoder accepts exactly the bodies the wire
    format allows: it returns without error, with decoded bytes [out], chain
    value [final] and the source left at [s'], if and only if the body is a
    chain of chunks with canonical sizes, each data chunk at most 64 MiB and
    correctly signed over the previous signature, followed by a correctly
    signed zero-size chunk and a proper end, whose data is [out] and has the
    declared length. *)
Theorem aws_chunked_exact signing dl trailers e s (dst : W) out final s' :
  quiet e → usable signing → len (src_data s) ≤ MaxInt64 → sink_room dst (len (src_data s)) →
  (∃ o, verifyAWSChunkedContext (S (length (src_data s))) signing dl trailers e s dst = Some o ∧ o_err o = None ∧
     o_final o = final ∧ o_src o = s' ∧ sink_data (o_dst o) = sink_data dst ++ out) ↔
  (∃ cs wire tail, framed signing (seed signing) cs wire final ∧ src_data s = wire ++ tail ++ src_data s' ∧
     src_end s' = src_end s ∧ body_end trailers tail s' ∧ out = concat cs ∧ (dl < 0 ∨ dl = len out)).
Proof.
  intros Hq Hu Hb Hroom. pose proof (seed_length _ Hu) as Hseed. split.
  - intros (o & Ho & He & <- & <- & Hd).
    apply verify_loop in Ho as [[Hx _]|(o' & Ho & Hee & _ & Heq)]; [congruence|].
    rewrite Heq in * by congruence. clear Heq Hee.
    apply chunkLoop_sound in Ho as (cs & k & [(wire & last & rest & Hch & Hs & Hok) Hk Hrun]); [|done|lia|lia].
    destruct (Hok He) as (line & tail & Hh & -> & Hse & Hend). destruct (Hrun He) as (Hkk & Htot & Hdl).
    exists cs, (wire ++ line ++ crlf), tail. rewrite take_ge in Hk by done.
    assert (out = concat cs) as -> by (rewrite Hd in Hk; by apply app_inv_head in Hk).
    split_and!; [by econstructor|by rewrite Hs, <-!(assoc_L (++))|done|done|done|lia].
  - intros (cs & wire' & tail & [wire last line final' Hch Hh] & Hs & Hse & Hend & -> & Hdl).
    pose proof (chain_length _ _ _ _ _ Hch) as Hlen.
    assert (Hls : (length cs + length (concat cs) ≤ length (src_data s))%nat) by (rewrite Hs, !length_app; lia).
    destruct (chunkLoop_complete (S (length (src_data s))) signing dl trailers e s s' dst (seed signing) 0
      cs wire last line final' (tail ++ src_data s') Hch Hh Hseed Hq) as (e' & dst' & Hrun & Hd);
      [by rewrite Hs, <-!(assoc_L (++))| |lia|lia|lia|eapply sink_room_mono; [done|lia]|lia|].
    + unfold rest_ok, body_end in *. destruct trailers; subst; cbn.
      * rewrite <-Hse. by destruct s'.
      * destruct Hend as (Hd' & He' & Ht). rewrite Hd', app_nil_r. split_and!; [done|congruence|].
        rewrite <-Hd', <-He'. by destruct s'.
    + eexists. split_and!; [by apply loop_verify|done|done|done|done].
Qed.

(** Whatever happens during a run (cancellation, file errors, a refusing
    sink, any input), only authenticated data reaches the sink: what was
    added to it is a prefix of the data of a chain of chunks that starts the
    body and carries valid signatures. *)
Theorem aws_chunked_staged fuel signing dl trailers e s (dst : W) o :
  usable signing → len (src_data s) ≤ MaxInt64 →
  verifyAWSChunkedContext fuel signing dl trailers e s dst = Some o →
  ∃ cs wire last added, chain signing (seed signing) cs wire last ∧ wire `prefix_of` src_data s ∧
    sink_data (o_dst o) = sink_data dst ++ added ∧ added `prefix_of` concat cs ∧
    (o_err o = None → added = concat cs ∧ o_total o = len added ∧ (0 ≤ dl → o_total o = dl)).
Proof.
  intros Hu Hb Ho. pose proof (seed_length _ Hu) as Hseed.
  apply verify_loop in Ho as [[Hx Hd]|(o' & Ho & Hee & Hdd & Heq)].
  - exists [], [], (seed signing), []. rewrite Hd, app_nil_r, Hx.
    split_and!; [constructor|apply prefix_nil|done|apply prefix_nil|done].
  - apply chunkLoop_sound in Ho as (cs & k & [(wire & last & rest & Hch & Hs & _) Hk Hrun]); [|done|lia|lia].
    exists cs, wire, last, (take k (concat cs)). rewrite Hdd, Hee.
    split_and!; [done|by exists rest|done|by exists (drop k (concat cs)); rewrite take_drop|].
    intros He. rewrite (Heq He). destruct (Hrun He) as (Hkk & Htot & Hdl).
    rewrite take_ge by done. split_and!; [done|lia|done].
Qed.

(** The decoder terminates: with one unit of fuel more than the body has
    bytes it returns, whatever the input, the signing context, the
    environment and the sink. *)
Theorem aws_chunked_terminates signing dl trailers e s (dst : W) :
  src_end s ≠ ErrBufferFull →
  ∃ o, verifyAWSChunkedContext (S (length (src_data s))) signing dl trailers e s dst = Some o.
Proof.
  intros He. unfold verifyAWSChunkedContext.
  pose proof (chunkLoop_total (S (length (src_data s))) signing dl trailers e s dst) as Ht.
  destruct signing as [c|]; [case_match; [eauto|]|];
    (destruct (chunkLoop _ _ _ _ _ _ _ _ _) as [o|] eqn:E; [by eexists|]; exfalso; eapply Ht; [done|lia|exact E]).
Qed.
End decoder.

(** ** Trailers *)

Section trailers.
Context `{SHA256, HMAC, Checksums}.

(** What an accepted trailer section proves about the body: every declared
    checksum was received and matches, and in the signed mode the section is
    signed over the final chain value. *)
Definition trailers_ok (declaration body : bytes) (signing : option V4SigningContext) (mode : streamingPayloadMode)
    (final : bytes) : Prop :=
  ∃ set tm, declareTrailers (split_bytes "," declaration []) [] = Some set ∧ set ≠ [] ∧
    (∀ name, name ∈ set → ∃ v got, tget tm name = Some v ∧ checksum_of name body = Some got ∧
       b64_decode std_alphabet true (strip_newlines v) = Some got) ∧
    (mode = streamingSignedPayloadTrailer → ∃ c, signing = Some c ∧ sc_signingKey c ≠ [] ∧
       tget tm trailerSignature = Some (hex_bytes (hmac_sha256 (sc_signingKey c) (trailerStringToSign c final tm)))).

Lemma declareTrailers_spec decl set set' :
  declareTrailers decl set = Some set' →
  (∃ new, set' = set ++ new ∧ length new = length decl) ∧
  (Forall (λ n, n ∈ allowedChecksums) set → Forall (λ n, n ∈ allowedChecksums) set').
Proof.
  revert set. induction decl as [|n decl IH]; intros set; cbn [declareTrailers].
  - intros [= <-]. split; [exists []; by rewrite app_nil_r|done].
  - destruct (_ || _) eqn:E in |- *; [done|]. repeat (apply orb_false_elim in E as [E ?]). zbool.
    intros [(new & -> & Hl) Ha]%IH. split; [exists (n :: new); rewrite <-(assoc_L (++)); cbn; by rewrite Hl|].
    intros Hs. apply Ha, Forall_app. split; [done|]. constructor; [|done].
    by match goal with Hx : bool_decide (_ ∈ allowedChecksums) = true |- _ => apply bool_decide_eq_true_1 in Hx end.
Qed.

Lemma tget_Some m k : k ∈ m.*1 → ∃ v, tget m k = Some v.
Proof.
  induction m as [|[k' v] m IH]; cbn; [by intros ?%not_elem_of_nil|].
  intros Hk. case_decide; [eauto|]. apply elem_of_cons in Hk as [->|Hk]; [done|auto].
Qed.

(** Every allowed checksum name is one the verifier compares. *)
Lemma allowed_checksum name body m :
  name ∈ allowedChecksums → ∀ e e', verifyTrailerChecksums e body m = (None, e') →
  ∃ got size, checksum_of name body = Some got ∧ checksumMatches m name got size = true.
Proof.
  intros Hn e e'. unfold verifyTrailerChecksums. case_bool_decide; [done|]. case_bool_decide; [done|].
  destruct (io_op e) as [[] e1]; [done|]. destruct (readBlocks e1 _) as [[] e2]; [done|]. cbv zeta.
  repeat match goal with |- context [negb ?b] => destruct b eqn:?; cbn [negb]; [|discriminate] end. intros _.
  assert (Hs : is_Some (checksum_of name body)).
  { unfold checksum_of. repeat (case_decide; [done|]). unfold allowedChecksums in Hn. cbn [fmap list_fmap] in Hn.
    by repeat (apply elem_of_cons in Hn as [->|Hn]; [done|]); apply not_elem_of_nil in Hn. }
  destruct Hs as [got Hg]. unfold allowedChecksums in Hn. cbn [fmap list_fmap] in Hn.
  repeat (apply elem_of_cons in Hn as [->|Hn]); [..|by apply not_elem_of_nil in Hn];
    match goal with Hx : match checksum_of ?n _ with _ => _ end = true, Hg : checksum_of ?n _ = _ |- _ =>
      rewrite Hg in Hx; eauto end.
Qed.

Lemma aws_trailers_sound fuel e s body declaration signing mode final e' :
  is_trailer_mode mode = true →
  verifyAWSTrailers fuel e s body declaration signing mode final = Some (None, e') →
  trailers_ok declaration body signing mode final.
Proof.
  intros Hmode. unfold verifyAWSTrailers. destruct (_ && _) eqn:E1 in |- *; [done|].
  destruct (_ && _) eqn:E2 in |- *; [done|]. destruct (_ || _) eqn:E3 in |- *; [done|].
  destruct (declareTrailers _ _) as [set|] eqn:ED; [|done]. destruct (_ && _) eqn:E4 in |- *; [done|].
  destruct (readTrailers _ _ _ _ _ _) as [[[tm|] s1]|] eqn:ER; [|done..].
  destruct (negb _) eqn:E5 in |- *; [done|]. destruct (negb (forallb _ _)) eqn:E6; [done|].
  destruct (verifyTrailerChecksums e body tm) as [[x|] e1] eqn:EV; [done|].
  destruct (checkTrailerSignature _ _ _ _) eqn:ES; [done|]. intros _.
  apply declareTrailers_spec in ED as Hspec. destruct Hspec as [(new & Hset & Hlen) Hall].
  specialize (Hall (Forall_nil_2 _)). cbn in Hset. subst new. exists set, tm. split_and!; [done| | |].
  - intros ->. by apply (split_bytes_nonempty "," declaration []), length_zero_iff_nil.
  - intros name Hn. zbool. rewrite forallb_forall in E6. apply list_elem_of_In in Hn as Hin.
    apply E6, bool_decide_eq_true_1, tget_Some in Hin as [v Hv].
    rewrite Forall_forall in Hall. destruct (allowed_checksum name body tm (Hall name Hn) _ _ EV) as (got & size & Hg & Hm).
    exists v, got. split_and!; [done|done|]. unfold checksumMatches in Hm. rewrite Hv in Hm.
    destruct (b64_decode _ _ _); [|done]. apply andb_prop in Hm as [_ Hm]. apply bool_decide_eq_true_1 in Hm. by subst.
  - intros ->. unfold checkTrailerSignature in ES. rewrite decide_True in ES by done.
    destruct (tget tm trailerSignature) as [sig|] eqn:Esig; [|done]. destruct signing as [c|]; [|done].
    destruct (validLowerHex sig 64) eqn:Ev; [|done]. cbn [negb] in ES.
    destruct (signature_text sig Ev) as (rr & Hr & Hrs & _). rewrite Hr in ES. case_decide as Heq; [|done].
    exists c. split_and!; [done| |by rewrite Heq, Hrs].
    intros Hk. rewrite bool_decide_eq_true_2, Hk in E2 by done. done.
Qed.
End trailers.

(** ** Whole requests *)

Section bodies.
Context `{SHA256, HMAC, !HMACLaws, Checksums}.

(** The file starts empty, so what the decoder added is its contents. *)
Lemma spoolBody_sound e takes r signing mode decoded i m body n m' :
  usable signing → len (src_data (Body r)) ≤ MaxInt64 →
  spoolBody e takes r signing mode decoded i m = Some (Ok (body, n), m') →
  ∃ cs wire rest final, framed signing (seed signing) cs wire final ∧ src_data (Body r) = wire ++ rest ∧
    body = concat cs ∧ n = len body ∧ (0 ≤ decoded → n = decoded) ∧
    (is_trailer_mode mode = true → trailers_ok (HGet r "X-Amz-Trailer") body signing mode final).
Proof.
  intros Hu Hb. unfold spoolBody. destruct (poll_done e) as [[] e1]; [done|].
  destruct (verifyAWSChunkedContext _ _ _ _ _ _ _) as [o|] eqn:EO; [|done].
  apply verify_loop in EO as [[Hx _]|(o' & Ho & Hee & _ & Heq)]; [by rewrite Hx|].
  destruct (o_err o) as [x|] eqn:Eo; [done|]. rewrite Heq by congruence. clear Heq.
  apply chunkLoop_sound in Ho as (cs & k & [(wire & last & rest & Hch & Hs & Hok) Hk Hrun]); [|by apply seed_length|lia|lia].
  symmetry in Hee. destruct (Hok Hee) as (line & tail & Hh & Hrest & _). destruct (Hrun Hee) as (Hkk & Htot & Hdl).
  rewrite take_ge in Hk by done. cbn in Hk. rewrite Hk in *.
  destruct (if is_trailer_mode mode then _ else _) as [[[x|] e2]|] eqn:ET; [done| |done].
  destruct (io_op e2) as [[] e3]; [done|]. intros [= <- <- <-].
  exists cs, (wire ++ line ++ crlf), (tail ++ src_data (o_src o')), (o_final o').
  split_and!; [by econstructor|by rewrite Hs, Hrest, <-!(assoc_L (++))|done|lia|done|].
  intros Hm. rewrite Hm in ET. by eapply aws_trailers_sound.
Qed.

End bodies.

(** ** The quota *)

(** A property every write keeps holds of the sink after any run. *)
Section sink_inv.
Context `{SHA256, HMAC} {W : Type} `{Sink W}.
Context (P : W → Prop) (HP : ∀ w p oe w', P w → sink_write w p = (oe, w') → P w').

Lemma copySpoolFile_keeps e blocks (dst : W) oe e' dst' :
  P dst → copySpoolFile e blocks dst = (oe, e', dst') → P dst'.
Proof using HP.
  revert e dst. induction blocks as [|b blocks IH]; intros e dst Hd; cbn [copySpoolFile];
    (destruct (io_op e) as [[] e1]; [by intros [= <- <- <-]|]); [by intros [= <- <- <-]|].
  destruct (sink_write dst b) as [[x|] dst1] eqn:Ew; [intros [= <- <- <-]|intros ?%IH]; eauto.
Qed.
Lemma stageChunk_keeps signing e s (dst : W) prev sup size r e' s' dst' :
  P dst → stageChunk signing e s dst prev sup size = Some (r, e', s', dst') → P dst'.
Proof using HP.
  intros Hd. unfold stageChunk.
  repeat case_match; intros; simplify_eq; try done; eauto using copySpoolFile_keeps.
Qed.
Lemma chunkLoop_keeps fuel signing dl trailers e s (dst : W) prev total o :
  P dst → chunkLoop fuel signing dl trailers e s dst prev total = Some o → P (o_dst o).
Proof using HP.
  revert e s dst prev total. induction fuel as [|f IH]; intros e s dst prev total Hd; cbn [chunkLoop]; [done|].
  destruct (poll_done e) as [[] e1]; [by intros [= <-]|].
  destruct (readAWSLine _ _) as [[[line|x] s1]|]; [|by intros [= <-]|done].
  destruct (_ || _) in |- *; [by intros [= <-]|].
  destruct (parseChunkHeader signing _) as [[st sup]|x]; [|by intros [= <-]].
  destruct (ParseHex st) as [size|]; [|by intros [= <-]].
  destruct (size =? 0); [intros [= Ho]; by apply finishChunks_sound in Ho as [-> _]|].
  destruct (_ >? _); [by intros [= <-]|]. destruct (_ && _) in |- *; [by intros [= <-]|].
  destruct (stageChunk _ _ _ _ _ _ _) as [[[[r e2] s2] dst2]|] eqn:EC; [|done].
  apply stageChunk_keeps in EC; [|done]. destruct r; [eauto|by intros [= <-]].
Qed.
End sink_inv.

(** The manager after one reservation has been added to [m0] and charged. *)
Definition charged (m0 m : spoolManager) : Prop :=
  ∃ r, sp_reservations m = sp_reservations m0 ++ [r] ∧ sr_released r = false ∧
    sp_current m = sp_current m0 + sr_used r ∧ 0 ≤ sr_used r ≤ sr_limit r ∧ sr_limit r ≤ MaxInt64 ∧ within_budget m.

Lemma charged_grow m0 m delta oe m' :
  charged m0 m → delta ≤ MaxInt64 → Grow (length (sp_reservations m0)) delta m = (oe, m') → charged m0 m'.
Proof.
  intros (r & Hres & Hrel & Hcur & Hu & Hl & Hb) Hd HG.
  assert (Hr : sp_reservations m !! length (sp_reservations m0) = Some r)
    by (rewrite Hres; by apply list_lookup_middle).
  destruct oe as [x|].
  - apply Grow_Err in HG as [->|[reason ->]]; exists r; (split_and!; [done|done|done|lia|lia|done|exact Hb]).
  - eapply Grow_Ok in HG as (? & _ & ? & ? & ->); [|done..]. unfold within_budget in Hb.
    exists (mkReservation (sr_limit r) (sr_used r + delta) false). unfold within_budget. cbn.
    rewrite Hres, insert_app_r_alt, Nat.sub_diag by done. cbn. split_and!; try done; lia.
Qed.

Lemma charged_release m0 m :
  charged m0 m → 0 ≤ sp_current m0 → sp_current (Release (length (sp_reservations m0)) m) = sp_current m0 ∧
    live_used (sp_reservations (Release (length (sp_reservations m0)) m)) = live_used (sp_reservations m0).
Proof.
  intros (r & Hres & Hrel & Hcur & Hu & Hl & Hb) H0. unfold within_budget, MaxInt64 in Hb.
  assert (Hr : sp_reservations m !! length (sp_reservations m0) = Some r)
    by (rewrite Hres; by apply list_lookup_middle).
  unfold Release. rewrite Hr, Hrel. cbn [observeLocked sp_current sp_reservations].
  rewrite wrap_i64_id by lia. split; [lia|].
  rewrite (live_used_insert _ _ r), Hres, live_used_app, Hrel by done. cbn. lia.
Qed.

Lemma sinkWrite_charged m0 k p oe k' :
  charged m0 (sk_manager k) ∧ rw_reservation (sk_writer k) = length (sp_reservations m0) →
  sinkWrite k p = (oe, k') → charged m0 (sk_manager k') ∧ rw_reservation (sk_writer k') = length (sp_reservations m0).
Proof.
  intros [Hc Hi]. unfold sinkWrite, rwWrite. destruct (writer_charge _ _) as [extra rem].
  destruct (_ || _) eqn:E; [by intros [= <- <-]|]. zbool. rewrite Hi.
  destruct (Grow _ extra _) as [[x|] m'] eqn:EG; apply charged_grow in EG; try done; by intros [= <- <-].
Qed.

(** Closing a verified body gives its charge back whatever the file system
    answers, and a second close changes nothing. *)
Lemma CloseVerified_releases e f m0 m :
  charged m0 m → 0 ≤ sp_current m0 → vf_reservation f = length (sp_reservations m0) →
  let '(_, closed, e', m') := CloseVerified e false f m in
  closed = true ∧ sp_current m' = sp_current m0 ∧ CloseVerified e' closed f m' = (None, true, e', m').
Proof.
  intros Hc H0 Hf. unfold CloseVerified. destruct (io_op e) as [f1 e1]. destruct (io_op e1) as [f2 e2].
  rewrite Hf. destruct (charged_release m0 m Hc H0). by split_and!.
Qed.

Section quota.
Context `{SHA256, HMAC, Checksums}.

Lemma spoolBody_charged e takes r signing mode decoded m0 m x m' :
  charged m0 m → spoolBody e takes r signing mode decoded (length (sp_reservations m0)) m = Some (x, m') → charged m0 m'.
Proof.
  intros Hc. unfold spoolBody. destruct (poll_done e) as [[] e1]; [by intros [= <- <-]|].
  destruct (verifyAWSChunkedContext _ _ _ _ _ _ _) as [o|] eqn:EO; [|done].
  assert (Ho : charged m0 (sk_manager (o_dst o))).
  { apply verify_loop in EO as [[_ ->]|(o' & Ho & _ & -> & _)]; [done|].
    eapply (chunkLoop_keeps (λ k, charged m0 (sk_manager k) ∧ rw_reservation (sk_writer k) = length (sp_reservations m0)))
      in Ho as [? _]; [done| |done].
    intros k p oe k'. apply sinkWrite_charged. }
  repeat case_match; intros; by simplify_eq.
Qed.

(** Staging a body never leaks quota: if it fails, on whatever path, the
    manager's account is what it was before the request and no reservation is
    left charged; if it succeeds, exactly the reservation handed out with the
    file is charged, and the budget is respected. *)
Theorem aws_body_quota e takes ctxErr limit r signing m res m' :
  within_budget m → is_i64 limit → verifyAndSpoolAWSBody e takes ctxErr limit r signing m = Some (res, m') →
  match res with
  | Err _ => sp_current m' = sp_current m ∧ live_used (sp_reservations m') = live_used (sp_reservations m)
  | Ok f => vf_reservation f = length (sp_reservations m) ∧ charged m m'
  end.
Proof.
  intros Hb Hlim. unfold verifyAndSpoolAWSBody.
  destruct (bodyPreconditions r signing) as [[mode decoded]|x] eqn:EP; [|by intros [= <- <-]].
  destruct (Acquire ctxErr (max64 decoded 0) limit m) as [[i|x] m1] eqn:EA; last first.
  { unfold Acquire in EA. repeat case_match; simplify_eq; by intros [= <- <-]. }
  assert (charged m m1 ∧ i = length (sp_reservations m)) as [Hc ->].
  { unfold Acquire in EA. match type of EA with (if ?b then _ else _) = _ => destruct b eqn:E1; [done|] end. destruct ctxErr; [done|]. zbool.
    unfold within_budget, is_i64, MaxInt64 in *. rewrite (wrap_i64_id (sp_capacity m - _)) in EA by lia.
    match type of EA with (if ?b then _ else _) = _ => destruct b eqn:E2; [done|] end. zbool.
    injection EA as <- <-. split; [|done].
    exists (mkReservation limit (max64 decoded 0) false). unfold within_budget, MaxInt64. cbn.
    rewrite wrap_i64_id by lia. split_and!; try done; lia. }
  assert (0 ≤ sp_current m) by apply Hb.
  destruct (io_op e) as [[] e1]; [intros [= <- <-]; by apply charged_release|].
  destruct (io_op e1) as [[] e2]; [intros [= <- <-]; by apply charged_release|].
  destruct (spoolBody _ _ _ _ _ _ _ _) as [[[[body n]|x] m2]|] eqn:ES; [| |done];
    apply spoolBody_charged in ES; try done; intros [= <- <-]; [done|by apply charged_release].
Qed.
End quota.

(** ** A concrete upload *)

Module AwsToy.
Import ToyInstances.
#[export] Instance toy_hmac : HMAC := {|
  hmac_sha256 k m := be_encode 32 (Toy.checksum (k ++ m)); hmac_sha1 k m := be_encode 20 (Toy.checksum (k ++ m)) |}.
#[export] Instance toy_hmac_laws : HMACLaws.
Proof. split. intros k m. apply length_be_encode. Qed.
#[export] Instance toy_checksums : Checksums := {|
  sha1 m := be_encode 20 (Toy.checksum m); crc64nvme m := be_encode 8 (Toy.checksum m) |}.

Definition ctx (mode : streamingPayloadMode) : V4SigningContext :=
  mkSigning (txt "20260101T000000Z") (txt "20260101/us-east-1/s3/aws4_request") (txt "key") (be_encode 32 7)
    mode [] false false.
(** What a client sends. *)
Definition chunk_wire (c : V4SigningContext) (prev data : bytes) : bytes :=
  hexn (len data) ++ marker ++ hex_bytes (chunk_sig c prev data) ++ crlf.
Fixpoint upload (c : V4SigningContext) (prev : bytes) (cs : list bytes) : bytes * bytes :=
  match cs with
  | [] => (chunk_wire c prev [], chunk_sig c prev [])
  | d :: cs => let '(w, final) := upload c (chunk_sig c prev d) cs in (chunk_wire c prev d ++ d ++ crlf ++ w, final)
  end.
Definition chunks : list bytes := [txt "hello "; txt "world"].

Lemma usable_ctx mode : usable (Some (ctx mode)).
Proof. intros c [= <-] _. split; [by split|apply length_be_encode]. Qed.

(** The client's encoding is framed. *)
Lemma upload_framed c prev cs :
  sc_mode c ≠ streamingUnsignedPayloadTrailer → live_context c →
  Forall (λ d, d ≠ [] ∧ len d ≤ maxAWSChunkBytes) cs →
  framed (Some c) prev cs (upload c prev cs).1 (upload c prev cs).2.
Proof.
  intros Hm Hl Hcs. revert prev. induction Hcs as [|d cs [Hd Hmax] _ IH]; intros prev; cbn [upload].
  - unfold chunk_wire. cbn [fst snd].
    replace (hexn (len (@nil byte)) ++ marker ++ hex_bytes (chunk_sig c prev []) ++ crlf)
      with ([] ++ (hexn (len (@nil byte)) ++ marker ++ hex_bytes (chunk_sig c prev [])) ++ crlf)
      by (cbn [app]; by rewrite <-!(assoc_L (++))).
    econstructor; [constructor|by constructor].
  - specialize (IH (chunk_sig c prev d)). destruct (upload c (chunk_sig c prev d) cs) as [w final]. cbn [fst snd] in *.
    destruct IH as [wire last line final Hch Hh]. unfold chunk_wire.
    replace ((hexn (len d) ++ marker ++ hex_bytes (chunk_sig c prev d) ++ crlf) ++ d ++ crlf ++ wire ++ line ++ crlf)
      with (((hexn (len d) ++ marker ++ hex_bytes (chunk_sig c prev d)) ++ crlf ++ d ++ crlf ++ wire) ++ line ++ crlf)
      by (by rewrite <-!(assoc_L (++))).
    econstructor; [|done]. econstructor; [done|done|by constructor|done].
Qed.

Definition sink0 : spoolSink :=
  mkSink (mkWriter 0 4096) [] (mkSpool 4096 8192 [mkReservation 4096 4096 false] []) [].
Definition wire : bytes := (upload (ctx streamingSignedPayload) (be_encode 32 7) chunks).1.
Definition request : Request :=
  mkRequest (txt "PUT") (txt "/b/k") (txt "/b/k") [] (txt "localhost") (len wire)
    [(txt "X-Amz-Content-Sha256", [txt "STREAMING-AWS4-HMAC-SHA256-PAYLOAD"]);
     (txt "Content-Encoding", [txt "aws-chunked"]); (txt "X-Amz-Decoded-Content-Length", [txt "11"])] (src_of wire).
End AwsToy.
Import ToyInstances AwsToy.

Lemma aws_chunked_exact_witness :
  ∃ o, verifyAWSChunkedContext (S (length wire)) (Some (ctx streamingSignedPayload)) 11 false (mkEnv [] []) (src_of wire) sink0 = Some o ∧
    o_err o = None ∧ sink_data (o_dst o) = txt "hello world".
Proof.
  assert (Hlen : length wire = 267%nat) by (vm_compute; reflexivity).
  destruct (proj2 (aws_chunked_exact (Some (ctx streamingSignedPayload)) 11 false (mkEnv [] []) (src_of wire) sink0
    (txt "hello world") (upload (ctx streamingSignedPayload) (be_encode 32 7) chunks).2 (mkSource [] EOF)
    ltac:(by split) (usable_ctx _) ltac:(cbn [src_data src_of]; rewrite Hlen; by vm_compute)
    ltac:(cbn [src_data src_of]; rewrite Hlen; unfold sinkRoom, MaxInt64; cbn; split_and!; try done; try lia;
          eexists; split_and!; try done; cbn; lia))) as (o & Ho & He & _ & _ & Hd).
  - exists chunks, wire, []. cbn [src_data src_of]. rewrite app_nil_r. split_and!.
    + apply upload_framed; [done|by split|]. by repeat constructor.
    + done.
    + done.
    + by split_and!; [| |left].
    + by vm_compute.
    + by right; vm_compute.
  - exists o. by split_and!.
Defined.

Lemma aws_chunked_staged_witness :
  ∃ o cs last added, verifyAWSChunkedContext (S (length wire)) (Some (ctx streamingSignedPayload)) 11 false
      (mkEnv [] [false; false; false; false; false; false; true]) (src_of wire) sink0 = Some o ∧
    o_err o = Some ErrStreamingSpool ∧ (∃ w, chain (Some (ctx streamingSignedPayload)) (be_encode 32 7) cs w last) ∧
    sk_data (o_dst o) = added ∧ added `prefix_of` concat cs ∧ added = txt "hello ".
Proof.
  destruct (verifyAWSChunkedContext (S (length wire)) (Some (ctx streamingSignedPayload)) 11 false
    (mkEnv [] [false; false; false; false; false; false; true]) (src_of wire) sink0) as [o|] eqn:E; [|by vm_compute in E].
  assert (Hlen : len (src_data (src_of wire)) ≤ MaxInt64) by (by vm_compute).
  destruct (aws_chunked_staged (S (length wire)) (Some (ctx streamingSignedPayload)) 11 false
    (mkEnv [] [false; false; false; false; false; false; true]) (src_of wire) sink0 o (usable_ctx _) Hlen E)
    as (cs & w & last & added & Hch & _ & Hd & Hp & _).
  assert (Ho : o_err o = Some ErrStreamingSpool ∧ sk_data (o_dst o) = txt "hello ").
  { vm_compute in E. injection E as <-. by split. }
  destruct Ho as [He Hdata]. exists o, cs, last, added. cbn in Hd.
  split_and!; [done|done|by exists w|done|done|congruence].
Defined.

Lemma aws_chunked_terminates_witness :
  ∃ o, verifyAWSChunkedContext (S (length (txt "junk"))) None (-1) false (mkEnv [] []) (src_of (txt "junk")) sink0 = Some o.
Proof. apply (aws_chunked_terminates None (-1) false (mkEnv [] []) (src_of (txt "junk")) sink0). done. Defined.


Lemma aws_body_quota_witness :
  ∃ x m', verifyAndSpoolAWSBody (mkEnv [] [false; false; false; true]) [] None 100 request (Some (ctx streamingSignedPayload))
      (NewSpoolManager 1000) = Some (Err x, m') ∧ sp_current m' = 0 ∧ live_used (sp_reservations m') = 0.
Proof.
  destruct (verifyAndSpoolAWSBody (mkEnv [] [false; false; false; true]) [] None 100 request (Some (ctx streamingSignedPayload))
    (NewSpoolManager 1000)) as [[[f|x] m']|] eqn:E; [by vm_compute in E| |by vm_compute in E].
  exists x, m'. split; [done|].
  exact (aws_body_quota (mkEnv [] [false; false; false; true]) [] None 100 request (Some (ctx streamingSignedPayload))
    (NewSpoolManager 1000) (Err x) m' ltac:(by split_and!) ltac:(by split) E).
Defined.
