(* ===== verification/AmzTime.v ===== *)
(** * Timestamps of signed requests

    [time.Parse] with the layout ["20060102T150405Z"] and the part of
    [time.Time] request validation uses. An instant is its number of
    nanoseconds since the Unix epoch; a [time.Duration] is a 64-bit number of
    nanoseconds and [Sub] saturates. *)
From S2P Require Import Prelude GoStd GoIO GoText Http.
Local Open Scope Z_scope.

Definition Second : Z := 1000000000.
Definition Minute : Z := 60 * Second.

(** ** Civil dates *)

Definition is_leap (y : Z) : bool :=
  (y `mod` 4 =? 0) && (negb (y `mod` 100 =? 0) || (y `mod` 400 =? 0)).
Definition days_in (m y : Z) : Z :=
  if (m =? 2) then (if is_leap y then 29 else 28)
  else if (m =? 4) || (m =? 6) || (m =? 9) || (m =? 11) then 30 else 31.
(** Days since 1 January 1970 in the proleptic Gregorian calendar. *)
Definition days_from_civil (y m d : Z) : Z :=
  let y := if m <=? 2 then y - 1 else y in
  let era := y / 400 in
  let yoe := y - era * 400 in
  let doy := (153 * (m + (if m >? 2 then -3 else 9)) + 2) / 5 + d - 1 in
  let doe := yoe * 365 + yoe / 4 - yoe / 100 + doy in
  era * 146097 + doe - 719468.

Record AmzTime := mkTime { t_year : Z; t_month : Z; t_day : Z; t_hour : Z; t_min : Z; t_sec : Z; t_nsec : Z }.
(** Nanoseconds since the epoch. *)
Definition instant (t : AmzTime) : Z :=
  ((days_from_civil (t_year t) (t_month t) (t_day t) * 24 + t_hour t) * 3600 + t_min t * 60 + t_sec t) * Second + t_nsec t.

(** ** Parsing *)

(** Exactly [n] decimal digits. *)
Definition digits (n : nat) (l : bytes) : option (Z * bytes) :=
  if decide (length (take n l) = n) then
    if forallb is_digit (take n l) then Some (digits_val (take n l), drop n l) else None
  else None.
(** A fraction is accepted after the seconds even though the layout has none;
    digits beyond the ninth are ignored. *)
Definition fraction (l : bytes) : Z * bytes :=
  match l with
  | c :: r =>
      if (chr_eqb c "." || chr_eqb c ",") && negb (bool_decide (digit_run r = [])) then
        let ds := digit_run r in
        let ds9 := take 9 ds in
        (digits_val ds9 * 10 ^ (9 - len ds9), drop (length ds) r)
      else (0, l)
  | [] => (0, l)
  end.
Definition ParseAmzDate (l : bytes) : option AmzTime :=
  '(y, l) ← digits 4 l;
  '(mo, l) ← digits 2 l;
  if (mo <? 1) || (mo >? 12) then None else
  '(d, l) ← digits 2 l;
  match l with
  | "T"%byte :: l =>
      '(h, l) ← digits 2 l;
      if h >? 23 then None else
      '(mi, l) ← digits 2 l;
      if mi >? 59 then None else
      '(s, l) ← digits 2 l;
      if s >? 59 then None else
      let '(ns, l) := fraction l in
      if negb (bool_decide (l = ["Z"%byte])) then None
      else if (d <? 1) || (d >? days_in mo y) then None
      else Some (mkTime y mo d h mi s ns)
  | _ => None
  end.

(** [t.Format("20060102")]. *)
Definition pad (n : nat) (z : Z) : bytes :=
  let l := FormatInt_bytes z in replicate (n - length l) "0"%byte ++ l.
Definition FormatDate (t : AmzTime) : bytes := pad 4 (t_year t) ++ pad 2 (t_month t) ++ pad 2 (t_day t).

(** ** Durations *)

Definition clampDuration (z : Z) : Z :=
  if z >? MaxInt64 then MaxInt64 else if z <? - MaxInt64 - 1 then - MaxInt64 - 1 else z.
(** [u.Sub(t)] and [Abs]. *)
Definition TimeSub (u t : Z) : Z := clampDuration (u - t).
Definition DurationAbs (d : Z) : Z := if d >=? 0 then d else if d =? - MaxInt64 - 1 then MaxInt64 else - d.

Example parse_epoch : instant <$> ParseAmzDate (txt "19700101T000000Z") = Some 0.
Proof. by vm_compute. Qed.
Example parse_day : instant <$> ParseAmzDate (txt "20260301T120000Z") = Some (1772366400 * Second).
Proof. by vm_compute. Qed.
Example parse_leap : ParseAmzDate (txt "20250229T000000Z") = None.
Proof. by vm_compute. Qed.

(** Saturation does not hide a difference beyond the tolerance. *)
Lemma skew_abs u t skew :
  0 < skew < MaxInt64 → (DurationAbs (TimeSub u t) >? skew) = false → - skew ≤ u - t ≤ skew.
Proof.
  unfold DurationAbs, TimeSub, clampDuration, MaxInt64. intros Hs H.
  repeat match type of H with context [if ?b then _ else _] => destruct b eqn:? end; zbool; lia.
Qed.
Lemma skew_future u t skew : 0 < skew < MaxInt64 → (TimeSub u t >? skew) = false → u - t ≤ skew.
Proof.
  unfold TimeSub, clampDuration, MaxInt64. intros Hs H.
  repeat match type of H with context [if ?b then _ else _] => destruct b eqn:? end; zbool; lia.
Qed.
