(* ===== verification/SigV4.v ===== *)
(** * Request signatures ([internal/api/auth.go])

    AWS Signature Version 4 in its header and presigned forms, and the legacy
    Version 2. HMAC and SHA-256 are parameters; the current time is an
    argument. [time.Parse] of RFC 1123 dates, used by Version 2 only, is a
    parameter as well. *)
From S2P Require Import Prelude GoStd GoIO GoText Http Primitives AmzTime Spool AwsChunked AwsTrailer AwsBody.
Local Open Scope Z_scope.
Local Open Scope go_scope.

Definition ErrRequestTimeTooSkewed : error := Sentinel "request timestamp outside clock skew window".
Definition ErrRequestExpired : error := Sentinel "presigned url expired".
Definition ErrInvalidPresignedExpiry : error := Sentinel "invalid presigned url expiry".
Definition defaultClockSkew : Z := 5 * Minute.

(** ** Canonical requests *)

(** [uriEncode]: [url.QueryEscape] with blanks as ["%20"]. *)
Definition uriEncode (l : bytes) : bytes :=
  QueryEscape l ≫= λ b, if chr_eqb b "+" then txt "%20" else [b].
Definition encodePath (path : bytes) : bytes := JoinB (txt "/") (uriEncode <$> SplitB "/" path).

Definition canonicalURI (r : Request) : bytes := if bool_decide (URLPath r = []) then txt "/" else URLPath r.

(** The query parameters that are signed, sorted by name and then by value. *)
Definition canonicalQuery (r : Request) : list (bytes * bytes) :=
  let query := Query r in
  sort_bytes (filter (λ k, k ≠ txt "X-Amz-Signature") query.*1) ≫=
    λ k, (λ v, (k, v)) <$> sort_bytes (default [] (vget query k)).
Definition queryItem (kv : bytes * bytes) : bytes := uriEncode kv.1 ++ txt "=" ++ uriEncode kv.2.

(** The header map by lower-case name, with the host and a known length
    added when the transport left them out. *)
Definition headerByLower (h : values) (lk : bytes) : option (list bytes) :=
  snd <$> find (λ kv, bool_decide (ToLowerB kv.1 = lk)) h.
Definition canonicalHeader (r : Request) (lk : bytes) : option (list bytes) :=
  match headerByLower (Header r) lk with
  | Some vs => Some vs
  | None =>
      if eqs lk "host" && negb (bool_decide (Host r = [])) then Some [Host r]
      else if eqs lk "content-length" && (ContentLength r >=? 0) then Some [FormatInt_bytes (ContentLength r)]
      else None
  end.
Definition headerLine (r : Request) (h : bytes) : option (bytes * bytes) :=
  vs ← canonicalHeader r (ToLowerB h); Some (ToLowerB h, JoinB (txt ",") (TrimSpaceB <$> vs)).
Definition headerText (kv : bytes * bytes) : bytes := kv.1 ++ txt ":" ++ kv.2.

Definition payloadHash (r : Request) (isPresigned : bool) : bytes :=
  if negb isPresigned && negb (bool_decide (HGet r "X-Amz-Content-Sha256" = [])) then HGet r "X-Amz-Content-Sha256"
  else txt "UNSIGNED-PAYLOAD".

Definition nl : byte := "010".
Definition createCanonicalRequest (r : Request) (isPresigned : bool) (signedHeaders : list bytes) : bytes :=
  let sh := sort_bytes signedHeaders in
  Method r ++ [nl] ++ encodePath (canonicalURI r) ++ [nl] ++
  JoinB (txt "&") (queryItem <$> canonicalQuery r) ++ [nl] ++
  concat ((λ kv, headerText kv ++ [nl]) <$> omap (headerLine r) sh) ++ [nl] ++
  JoinB (txt ";") sh ++ [nl] ++ payloadHash r isPresigned.

(** [time.Parse(time.RFC1123, s)], as an instant. *)
Class RFC1123 := { parseRFC1123 : bytes → option Z }.

Section sigv4.
Context `{SHA256, HMAC}.

Definition createStringToSign (timestamp credentialScope canonicalRequest : bytes) : bytes :=
  JoinB [nl] [txt "AWS4-HMAC-SHA256"; timestamp; credentialScope; hex_bytes (sha256 canonicalRequest)].
Definition sign (key data : bytes) : bytes := hmac_sha256 key data.
Definition deriveSignatureKey (secret date region service : bytes) : bytes :=
  sign (sign (sign (sign (txt "AWS4" ++ secret) date) region) service) (txt "aws4_request").

(** ** Presigned lifetimes *)

Definition presignedExpiry (vs : list bytes) : result Z :=
  match vs with
  | [v] =>
      if bool_decide (v = []) || negb (forallb is_digit v) then Err ErrInvalidPresignedExpiry
      else match ParseUint_bytes v with
      | None => Err ErrInvalidPresignedExpiry
      | Some seconds =>
          if seconds <? 1 then Err ErrInvalidPresignedExpiry
          else if seconds >? 604800 then
            Err (Wrapf "%w: presigned url expiry exceeds maximum allowed duration" ErrInvalidPresignedExpiry)
          else Ok (seconds *i Second)
      end
  | _ => Err ErrInvalidPresignedExpiry
  end.

(** ** Validation *)

(** What a request says about its signature. *)
Record sigParams := mkSigParams {
  sp_signature : bytes; sp_signedHeaders : list bytes; sp_credential : bytes; sp_timestamp : bytes }.

Definition authParams (rest : bytes) : values :=
  foldl (λ m p, match cut "=" (TrimSpaceB p) with
    | Some (k, v) => if decide (is_Some (vget m k)) then (λ kv, if decide (kv.1 = k) then (k, [v]) else kv) <$> m else m ++ [(k, [v])]
    | None => m
    end) [] (SplitB "," rest).

Definition isPresignedV4 (r : Request) : bool := eqs (Get (Query r) "X-Amz-Algorithm") "AWS4-HMAC-SHA256".
Definition v4Params (r : Request) : result sigParams :=
  if isPresignedV4 r then
    let q := Query r in
    Ok (mkSigParams (Get q "X-Amz-Signature") (SplitB ";" (Get q "X-Amz-SignedHeaders"))
          (Get q "X-Amz-Credential") (Get q "X-Amz-Date"))
  else
    let auth := HGet r "Authorization" in
    if negb (HasPrefixB auth (txt "AWS4-HMAC-SHA256 ")) then Err (Errorf "missing or invalid Authorization header")
    else
      let params := authParams (drop 17 auth) in
      let date := HGet r "X-Amz-Date" in
      Ok (mkSigParams (Get params "Signature") (SplitB ";" (Get params "SignedHeaders")) (Get params "Credential")
            (if bool_decide (date = []) then HGet r "Date" else date)).

(** The payload hash a header-signed request commits to. *)
Definition concretePayload (r : Request) (isPresigned : bool) (mode : streamingPayloadMode) : option bytes :=
  if negb isPresigned && bool_decide (mode = streamingNone) then
    let ph := HGet r "X-Amz-Content-Sha256" in
    if len ph =? 64 then
      match hex_decode ph with
      | Some h => if len h =? 32 then Some h else None
      | None => None
      end
    else None
  else None.

Definition zeroHash : bytes := replicate 32 x00.

Definition validateSignatureV4At (r : Request) (secretKey : bytes) (clockSkew now : Z) : result V4SigningContext :=
  let clockSkew := if clockSkew <=? 0 then defaultClockSkew else clockSkew in
  let isPresigned := isPresignedV4 r in
  p ← v4Params r;
  match SplitB "/" (sp_credential p) with
  | [_; date; region; service; terminal] =>
      let credentialScope := JoinB (txt "/") [date; region; service; terminal] in
      if bool_decide (sp_signature p = []) then Err (Errorf "missing signature")
      else if bool_decide (sp_timestamp p = []) then Err (Errorf "missing timestamp")
      else match ParseAmzDate (sp_timestamp p) with
      | None => Err (Errorf "invalid timestamp format")
      | Some t =>
          let outsideSkew :=
            if isPresigned then TimeSub (instant t) now >? clockSkew
            else DurationAbs (TimeSub now (instant t)) >? clockSkew in
          if outsideSkew then Err ErrRequestTimeTooSkewed
          else match SplitB "/" credentialScope with
          | [date; region; service; _] =>
              if negb (bool_decide (date = FormatDate t)) then Err (Errorf "credential date mismatch")
              else
                let stringToSign := createStringToSign (sp_timestamp p) credentialScope
                  (createCanonicalRequest r isPresigned (sp_signedHeaders p)) in
                let signingKey := deriveSignatureKey secretKey date region service in
                let calculated := sign signingKey stringToSign in
                if negb (match hex_decode (sp_signature p) with
                         | Some provided => (len provided =? 32) && bool_decide (calculated = provided)
                         | None => false
                         end) then Err ErrSignatureMismatch
                else
                  _ ← (if isPresigned then
                         expires ← presignedExpiry (vals (Query r) "X-Amz-Expires");
                         if now >? instant t + expires then Err ErrRequestExpired else Ok tt
                       else Ok tt);
                  mode ← classifyStreamingPayloadMode (HGet r "X-Amz-Content-Sha256");
                  match validateStreamingRequestHeaders r mode with
                  | Some e => Err e
                  | None =>
                      let payload := concretePayload r isPresigned mode in
                      Ok (mkSigning (sp_timestamp p) credentialScope signingKey calculated mode
                            (default zeroHash payload) (bool_decide (is_Some payload)) false)
                  end
          | _ => Err (Errorf "invalid credential scope")
          end
      end
  | _ => Err (Errorf "invalid credential format")
  end.

(** ** Signature Version 2 *)

Context `{RFC1123}.

Definition sigV2CanonicalResourceParams : list bytes :=
  txt <$> ["acl"; "analytics"; "cors"; "delete"; "encryption"; "intelligent-tiering"; "inventory"; "legal-hold";
    "lifecycle"; "location"; "logging"; "notification"; "object-lock"; "partNumber"; "policy"; "replication";
    "requestPayment"; "response-cache-control"; "response-content-disposition"; "response-content-encoding";
    "response-content-language"; "response-content-type"; "response-expires"; "restore"; "retention"; "select";
    "select-type"; "tagging"; "torrent"; "uploadId"; "uploads"; "versionId"; "versioning"; "versions"; "website"].

Definition buildV2CanonicalizedResource (r : Request) : result bytes :=
  let resource := if bool_decide (URLEscapedPath r = []) then txt "/" else URLEscapedPath r in
  let '(vs, bad) := ParseQuery (URLRawQuery r) in
  if (bad : bool) then Err (Errorf "invalid SigV2 query: %w")
  else
    let sub := filter (λ kv : bytes * list bytes, kv.1 ∈ sigV2CanonicalResourceParams) vs in
    if existsb (λ kv, len kv.2 >? 1) sub then Err (Errorf "duplicate SigV2 subresource parameter %q")
    else
      let item n := let v := first (default [] (vget vs n)) in
                    if bool_decide (v = []) then n else n ++ txt "=" ++ v in
      let items := item <$> sort_bytes sub.*1 in
      Ok (resource ++ match items with [] => [] | _ => txt "?" ++ JoinB (txt "&") items end).

(** The date line: the Date header, else X-Amz-Date, else the Expires query
    parameter. *)
Definition v2Date (r : Request) : bytes :=
  let date := HGet r "Date" in
  let date := if bool_decide (date = []) then HGet r "X-Amz-Date" else date in
  if bool_decide (date = []) then Get (Query r) "Expires" else date.

Definition amzHeaders (h : values) : list bytes :=
  sort_bytes (omap (λ kv, if HasPrefixB (ToLowerB kv.1) (txt "x-amz-")
                          then Some (ToLowerB kv.1 ++ txt ":" ++ TrimSpaceB (JoinB (txt ",") kv.2)) else None) h).

Definition buildV2StringToSign (r : Request) : result bytes :=
  resource ← buildV2CanonicalizedResource r;
  Ok (Method r ++ [nl] ++ HGet r "Content-Md5" ++ [nl] ++ HGet r "Content-Type" ++ [nl] ++ v2Date r ++ [nl] ++
      concat ((λ h, h ++ [nl]) <$> amzHeaders (Header r)) ++ resource).

Definition hmacSHA1 (key data : bytes) : bytes := hmac_sha1 key data.

(** The comparison with the supplied signature, in base64. *)
Definition checkV2 (r : Request) (secretKey signature : bytes) : option error :=
  match buildV2StringToSign r with
  | Err e => Some e
  | Ok s => if bool_decide (signature = b64_encode std_alphabet true (hmacSHA1 secretKey s)) then None
            else Some ErrSignatureMismatch
  end.

(** [now] in nanoseconds; [time.Now().Unix()] is its second. *)
Definition ValidateSignatureV2 (r : Request) (secretKey : bytes) (clockSkew now : Z) : option error :=
  let clockSkew := if clockSkew <=? 0 then defaultClockSkew else clockSkew in
  let q := Query r in
  let skewed date := match parseRFC1123 date with
    | None => Some (Errorf "invalid date format")
    | Some t => if DurationAbs (TimeSub now t) >? clockSkew then Some (Errorf "request timestamp outside clock skew window") else None
    end in
  if negb (bool_decide (Get q "AWSAccessKeyId" = [])) && negb (bool_decide (Get q "Signature" = [])) then
    let early :=
      if negb (bool_decide (Get q "Expires" = [])) then
        match ParseInt_bytes (Get q "Expires") with
        | None => Some (Errorf "invalid Expires format")
        | Some expires =>
            if expires -i now / Second >? 604800 then Some (Errorf "presigned url expiry exceeds maximum allowed duration")
            else if now / Second >? expires then Some (Errorf "request has expired") else None
        end
      else if bool_decide (Get q "Date" = []) then Some (Errorf "missing Date/Expires parameter")
      else skewed (Get q "Date") in
    match early with Some e => Some e | None => checkV2 r secretKey (Get q "Signature") end
  else
    let auth := HGet r "Authorization" in
    if HasPrefixB auth (txt "AWS ") then
      match cut ":" (drop 4 auth) with
      | None => Some (Errorf "invalid V2 authorization header format")
      | Some (_, signature) =>
          let date := HGet r "Date" in
          let date := if bool_decide (date = []) then HGet r "X-Amz-Date" else date in
          if bool_decide (date = []) then Some (Errorf "missing Date header")
          else match skewed date with Some e => Some e | None => checkV2 r secretKey signature end
      end
    else Some (Errorf "no V2 signature found").
End sigv4.
