(* ===== verification/SigV4Theorems.v ===== *)
(** * Theorems about request signatures *)
From S2P Require Import Prelude GoStd GoIO GoText Http Primitives AmzTime Spool AwsChunked AwsChunkedSpec AwsTrailer AwsBody AwsTheorems SigV4.
Local Open Scope Z_scope.

(** ** Joining and splitting *)

Abbreviation without c l := (Forall (λ b : byte, b ≠ c) l).

Lemma chr_eqb_false c (l : bytes) : without c l → Forall (λ b, chr_eqb b c = false) l.
Proof.
  intros Hl. eapply Forall_impl; [exact Hl|]. intros b Hb. cbv beta in *. destruct (chr_eqb b c) eqn:E; [|done]. by apply Byte.byte_dec_bl in E.
Qed.

Lemma Split_Join c l : l ≠ [] → Forall (λ x, without c x) l → SplitB c (JoinB [c] l) = l.
Proof.
  intros Hne Hl. unfold SplitB. induction Hl as [|x l Hx Hl IH]; [done|]. destruct l as [|y l].
  - cbn. by rewrite split_bytes_none by (by apply chr_eqb_false).
  - change (JoinB [c] (x :: y :: l)) with (x ++ c :: JoinB [c] (y :: l)).
    rewrite split_bytes_app by (by apply chr_eqb_false). by rewrite IH.
Qed.

Lemma Join_cons c x l : l ≠ [] → JoinB [c] (x :: l) = x ++ c :: JoinB [c] l.
Proof. by destruct l. Qed.

Lemma Join_split_bytes c l cur : JoinB [c] (split_bytes c l cur) = cur ++ l.
Proof.
  revert cur. induction l as [|b l IH]; intros cur; cbn [split_bytes]; [by cbn; rewrite app_nil_r|].
  destruct (chr_eqb b c) eqn:E.
  - apply Byte.byte_dec_bl in E as ->. rewrite Join_cons by apply split_bytes_nonempty. by rewrite IH.
  - by rewrite IH, <-(assoc_L (++)).
Qed.
Lemma Join_Split c l : JoinB [c] (SplitB c l) = l.
Proof. apply Join_split_bytes. Qed.

Lemma split_bytes_without c l cur : without c cur → Forall (λ x, without c x) (split_bytes c l cur).
Proof.
  revert cur. induction l as [|b l IH]; intros cur Hc; cbn [split_bytes]; [by repeat constructor|].
  destruct (chr_eqb b c) eqn:E; [constructor; [done|by apply IH]|].
  apply IH, Forall_app. split; [done|]. constructor; [|done]. intros ->. by destruct c.
Qed.
Lemma Split_without c l : Forall (λ x, without c x) (SplitB c l).
Proof. by apply split_bytes_without. Qed.

Lemma Join_inj c l1 l2 :
  l1 ≠ [] → l2 ≠ [] → Forall (λ x, without c x) l1 → Forall (λ x, without c x) l2 →
  JoinB [c] l1 = JoinB [c] l2 → l1 = l2.
Proof. intros ? ? H1 H2 E. by rewrite <-(Split_Join c l1), E, Split_Join. Qed.

Lemma cut_inj (c : byte) p1 q1 p2 q2 : without c p1 → without c p2 → p1 ++ c :: q1 = p2 ++ c :: q2 → p1 = p2 ∧ q1 = q2.
Proof.
  intros H1 H2. revert p2 H2. induction H1 as [|b p1 Hb H1 IH]; intros p2 H2 E; destruct p2 as [|b' p2]; cbn in E.
  - by injection E.
  - injection E as -> _. by apply Forall_inv in H2.
  - injection E as -> _. done.
  - injection E as -> E. apply Forall_cons in H2 as [_ H2]. by destruct (IH p2 H2 E) as [-> ->].
Qed.

(** ** URI encoding *)

Lemma percent_not_plus b : percent b ≫= (λ b, if chr_eqb b "+" then txt "%20" else [b]) = percent b.
Proof.
  destruct (nibble_range b) as [Hh Hl]. unfold percent.
  assert (Hp : ∀ v, 0 ≤ v < 16 → chr_eqb (upper_hex v) "+" = false).
  { intros v Hv. destruct (chr_eqb _ _) eqn:E; [|done]. apply Byte.byte_dec_bl in E.
    apply (f_equal hex_val) in E. by rewrite upper_hex_val in E. }
  cbn [mbind list_bind]. by rewrite !Hp.
Qed.

(** Every byte is itself or its percent encoding. *)
Definition enc1 (b : byte) : bytes := if unreserved b then [b] else percent b.
Lemma uriEncode_alt l : uriEncode l = l ≫= enc1.
Proof.
  unfold uriEncode, QueryEscape. induction l as [|b l IH]; [done|]. cbn [mbind list_bind].
  change (list_bind _ _ ?f l) with (l ≫= f). rewrite bind_app. f_equal; [|exact IH]. unfold enc1.
  destruct (unreserved b) eqn:Eu.
  - destruct (unreserved_plain b Eu) as [_ Hp]. cbn. destruct (chr_eqb b "+") eqn:E; [|done].
    by apply Byte.byte_dec_bl in E.
  - destruct (chr_eqb b " ") eqn:Es; [apply Byte.byte_dec_bl in Es as ->; done|apply percent_not_plus].
Qed.

Lemma uriEncode_cons b l : uriEncode (b :: l) = enc1 b ++ uriEncode l.
Proof. by rewrite !uriEncode_alt. Qed.

Lemma QueryUnescape_uriEncode l : QueryUnescape (uriEncode l) = Some l.
Proof.
  induction l as [|b l IH]; [done|]. rewrite uriEncode_cons. unfold enc1. destruct (unreserved b) eqn:Eu.
  - destruct (unreserved_plain b Eu). cbn [app]. rewrite QueryUnescape_plain by done. by rewrite IH.
  - rewrite QueryUnescape_percent. by rewrite IH.
Qed.
#[export] Instance uriEncode_inj : Inj (=) (=) uriEncode.
Proof. intros a b E%(f_equal QueryUnescape). rewrite !QueryUnescape_uriEncode in E. by injection E. Qed.

(** No reserved character other than ["%"] survives the encoding. *)
Lemma uriEncode_without c l : unreserved c = false → c ≠ "%"%byte → without c (uriEncode l).
Proof.
  intros Hu Hp. induction l as [|b l IH]; [constructor|]. rewrite uriEncode_cons. apply Forall_app. split; [|done].
  unfold enc1. destruct (unreserved b) eqn:Eu; [constructor; [by intros ->; congruence|done]|].
  destruct (nibble_range b) as [Hh Hl].
  assert (Hx : ∀ v, 0 ≤ v < 16 → upper_hex v ≠ c).
  { intros v Hv <-. assert (Hall : forallb (λ i, unreserved (upper_hex (Z.of_nat i))) (seq 0 16) = true) by (vm_compute; reflexivity).
    rewrite forallb_forall in Hall. specialize (Hall (Z.to_nat v)). rewrite in_seq, Z2Nat.id in Hall by lia.
    rewrite Hall in Hu by lia. done. }
  repeat constructor; auto.
Qed.

Lemma encodePath_inj p q : encodePath p = encodePath q → p = q.
Proof.
  unfold encodePath. intros E. apply Join_inj in E.
  - apply (inj (fmap uriEncode)) in E. by rewrite <-(Join_Split "/" p), E, Join_Split.
  - intros Hn%fmap_nil_inv. by apply split_bytes_nonempty in Hn.
  - intros Hn%fmap_nil_inv. by apply split_bytes_nonempty in Hn.
  - apply Forall_fmap, Forall_true. intros x. by apply uriEncode_without.
  - apply Forall_fmap, Forall_true. intros x. by apply uriEncode_without.
Qed.

Lemma Join_without c sep l : sep ≠ c → Forall (λ x, without c x) l → without c (JoinB [sep] l).
Proof.
  intros Hs Hl. induction Hl as [|x l Hx Hl IH]; [constructor|]. destruct l as [|y l]; [done|].
  rewrite Join_cons by done. apply Forall_app. split; [done|]. by constructor.
Qed.

Lemma queryItem_without c kv : unreserved c = false → c ≠ "%"%byte → c ≠ "="%byte → without c (queryItem kv).
Proof.
  intros Hu Hp He. unfold queryItem. rewrite !Forall_app. split_and!; [by apply uriEncode_without| |by apply uriEncode_without].
  by repeat constructor.
Qed.

Lemma queryItems_inj l1 l2 :
  JoinB (txt "&") (queryItem <$> l1) = JoinB (txt "&") (queryItem <$> l2) → l1 = l2.
Proof.
  assert (Hi : Inj (=) (=) queryItem).
  { intros [k1 v1] [k2 v2] E. unfold queryItem in E. cbn in E.
    apply cut_inj in E as [E1%(inj uriEncode) E2%(inj uriEncode)]; [by subst|by apply uriEncode_without..]. }
  assert (Hne : ∀ l, l ≠ [] → JoinB (txt "&") (queryItem <$> l) ≠ []).
  { intros [|kv l] Hl; [done|]. cbn. unfold queryItem. destruct (uriEncode kv.1); destruct (_ <$> l); by cbn. }
  intros E. destruct (decide (l1 = [])) as [->|H1], (decide (l2 = [])) as [->|H2]; try done.
  - symmetry in E. by apply Hne in E.
  - by apply Hne in E.
  - apply (inj (fmap queryItem)). apply (Join_inj "&"); [by intros ?%fmap_nil_inv..| | |done];
      apply Forall_fmap, Forall_true; intros kv; by apply queryItem_without.
Qed.

(** ** Canonical requests *)

Lemma Join_lines c ls rest :
  rest ≠ [] → JoinB [c] (ls ++ rest) = concat ((λ x, x ++ [c]) <$> ls) ++ JoinB [c] rest.
Proof.
  intros Hr. induction ls as [|x ls IH]; [done|]. cbn [app fmap list_fmap concat].
  rewrite Join_cons by (by destruct ls). change (list_fmap _ _ (λ x, x ++ [c]) ls) with ((λ x, x ++ [c]) <$> ls).
  by rewrite IH, <-!(assoc_L (++)).
Qed.

(** The canonical request is these lines. *)
Definition canonicalLines (r : Request) (isPresigned : bool) (sh : list bytes) : list bytes :=
  [Method r; encodePath (canonicalURI r); JoinB (txt "&") (queryItem <$> canonicalQuery r)] ++
  (headerText <$> omap (headerLine r) (sort_bytes sh)) ++
  [[]; JoinB (txt ";") (sort_bytes sh); payloadHash r isPresigned].
Lemma canonical_lines r p sh : createCanonicalRequest r p sh = JoinB [nl] (canonicalLines r p sh).
Proof.
  unfold canonicalLines, createCanonicalRequest. rewrite !Join_lines by (by try (intros ?%app_eq_nil; naive_solver)).
  cbn [fmap list_fmap concat JoinB app]. rewrite <-!(assoc_L (++)), app_nil_l, <-list_fmap_compose. done.
Qed.

(** What HTTP already guarantees of a request, and that the list of signed
    headers is not empty: newlines occur nowhere, header names hold no
    separator. *)
Record clean (r : Request) (isPresigned : bool) (sh : list bytes) : Prop := {
  clean_method : without nl (Method r);
  clean_values : ∀ h kv, h ∈ sh → headerLine r h = Some kv → without nl kv.2;
  clean_names : Forall (λ h, without nl h ∧ without ":"%byte h ∧ without ";"%byte h) sh;
  clean_some : sh ≠ [];
  clean_payload : without nl (payloadHash r isPresigned) }.

Lemma insert_sorted_perm x l : insert_sorted x l ≡ₚ x :: l.
Proof.
  induction l as [|y l IH]; cbn; [done|]. case_match; [done|]. rewrite IH. apply Permutation_swap.
Qed.
Lemma sort_bytes_perm l : sort_bytes l ≡ₚ l.
Proof. induction l as [|x l IH]; cbn; [done|]. by rewrite insert_sorted_perm, IH. Qed.

Lemma ToLowerB_without c l : (c = nl ∨ c = ":"%byte) → without c l → without c (ToLowerB l).
Proof.
  intros Hc Hl. apply Forall_fmap. eapply Forall_impl; [exact Hl|]. intros b Hb. cbn in *.
  destruct Hc as [-> | ->]; intros E; apply Hb; revert E; destruct b; by vm_compute.
Qed.

Lemma headerLine_name r h kv : headerLine r h = Some kv → kv.1 = ToLowerB h.
Proof. unfold headerLine. destruct (canonicalHeader _ _); cbn; [|done]. by intros [= <-]. Qed.
Lemma headerLine_lower r h h' : ToLowerB h = ToLowerB h' → headerLine r h = headerLine r h'.
Proof. unfold headerLine. by intros ->. Qed.

Lemma canonicalLines_clean r p sh : clean r p sh → Forall (λ x, without nl x) (canonicalLines r p sh).
Proof.
  intros [Hm Hv Hn Hs Hp]. unfold canonicalLines. apply Forall_app. split.
  { repeat constructor; [done| |].
    - apply Join_without; [done|]. apply Forall_fmap, Forall_true. intros x. by apply uriEncode_without.
    - apply Join_without; [done|]. apply Forall_fmap, Forall_true. intros kv. by apply queryItem_without. }
  apply Forall_app. split.
  - apply Forall_fmap, Forall_forall. intros kv (h & Hh & Hkv)%list_elem_of_omap.
    rewrite sort_bytes_perm in Hh. cbn. unfold headerText. rewrite !Forall_app. split_and!.
    + rewrite (headerLine_name _ _ _ Hkv). apply ToLowerB_without; [by left|].
      rewrite Forall_forall in Hn. by apply Hn.
    + by repeat constructor.
    + by eapply Hv.
  - repeat constructor; [|done]. apply Join_without; [done|]. rewrite sort_bytes_perm.
    eapply Forall_impl; [exact Hn|]. by intros h [? _].
Qed.

Lemma header_lines_inj r1 r2 (sh : list bytes) :
  Forall (λ h, without nl h ∧ without ":"%byte h ∧ without ";"%byte h) sh →
  headerText <$> omap (headerLine r1) sh = headerText <$> omap (headerLine r2) sh →
  omap (headerLine r1) sh = omap (headerLine r2) sh.
Proof.
  intros Hn E.
  assert (Hall : ∀ r kv, kv ∈ omap (headerLine r) sh → without ":"%byte kv.1).
  { intros r kv (h & Hh & Hkv)%list_elem_of_omap. rewrite (headerLine_name _ _ _ Hkv).
    apply ToLowerB_without; [by right|]. rewrite Forall_forall in Hn. by apply Hn. }
  specialize (Hall r1) as H1. specialize (Hall r2) as H2. clear Hall.
  revert E H1 H2. generalize (omap (headerLine r1) sh) (omap (headerLine r2) sh). intros l1.
  induction l1 as [|[k1 v1] l1 IH]; intros [|[k2 v2] l2] E H1 H2; try done.
  cbn in E. injection E as E El. unfold headerText in E. cbn in E.
  apply cut_inj in E as [-> ->]; [|by apply (H1 (k1, v1)); left|by apply (H2 (k2, v2)); left].
  f_equal. apply IH; [done|intros kv ?; apply H1; by right|intros kv ?; apply H2; by right].
Qed.

Lemma omap_lines_eq r1 r2 (sh : list bytes) h :
  omap (headerLine r1) sh = omap (headerLine r2) sh → h ∈ sh → headerLine r1 h = headerLine r2 h.
Proof.
  assert (G : ∀ r1 r2 kv, omap (headerLine r1) sh = omap (headerLine r2) sh → h ∈ sh →
    headerLine r1 h = Some kv → headerLine r2 h = Some kv).
  { intros r1' r2' kv E Hh Hkv. assert (Hin : kv ∈ omap (headerLine r1') sh) by (apply list_elem_of_omap; eauto).
    rewrite E in Hin. apply list_elem_of_omap in Hin as (h' & _ & Hkv').
    rewrite <-Hkv'. apply headerLine_lower. by rewrite <-(headerLine_name _ _ _ Hkv), <-(headerLine_name _ _ _ Hkv'). }
  intros E Hh. destruct (headerLine r1 h) as [kv|] eqn:E1; [symmetry; by eapply G|].
  destruct (headerLine r2 h) as [kv|] eqn:E2; [|done]. symmetry in E. by rewrite (G _ _ _ E Hh E2) in E1.
Qed.


(** ** Acceptance *)

Section accept.
Context `{SHA256, HMAC, !HMACLaws}.

Lemma presignedExpiry_bounds vs d : presignedExpiry vs = Ok d → ∃ secs, 1 ≤ secs ≤ 604800 ∧ d = secs * Second.
Proof.
  unfold presignedExpiry. destruct vs as [|v [|? ?]]; [done| |done]. destruct (_ || _); [done|].
  destruct (ParseUint_bytes v) as [secs|]; [|done]. destruct (secs <? 1) eqn:E1; [done|].
  destruct (secs >? 604800) eqn:E2; [done|]. zbool. intros [= <-]. exists secs. split; [lia|].
  unfold Second. by rewrite wrap_i64_id by lia.
Qed.

(** The instants at which a request dated [t] may be accepted. *)
Definition timely (r : Request) (t now skew : Z) : Prop :=
  if isPresignedV4 r then
    t - now ≤ skew ∧ ∃ secs, 1 ≤ secs ≤ 604800 ∧ presignedExpiry (vals (Query r) "X-Amz-Expires") = Ok (secs * Second) ∧
      now ≤ t + secs * Second
  else - skew ≤ now - t ≤ skew.

(** C21: an accepted request carries a valid and timely signature: the
    supplied signature is the HMAC, under the key derived from the secret and
    the credential scope, of the string to sign over the request's own
    canonical form; the scope's date is the timestamp's; a header-signed
    request is within the clock skew on either side, a presigned one is not
    from the future beyond the skew and not past its signed deadline, which
    is between one second and seven days after its timestamp and never
    extended by the skew. The resulting signing context is one the body
    verifier can use, seeded with that signature. *)
Theorem sigv4_accepts_signed r secret clockSkew now c :
  clockSkew < MaxInt64 → validateSignatureV4At r secret clockSkew now = Ok c →
  ∃ p t ak date region service terminal,
    v4Params r = Ok p ∧ SplitB "/" (sp_credential p) = [ak; date; region; service; terminal] ∧
    ParseAmzDate (sp_timestamp p) = Some t ∧ date = FormatDate t ∧
    timely r (instant t) now (if clockSkew <=? 0 then defaultClockSkew else clockSkew) ∧
    hex_decode (sp_signature p) = Some (sc_seedSignature c) ∧
    sc_seedSignature c = sign (sc_signingKey c) (createStringToSign (sp_timestamp p)
      (JoinB (txt "/") [date; region; service; terminal]) (createCanonicalRequest r (isPresignedV4 r) (sp_signedHeaders p))) ∧
    sc_signingKey c = deriveSignatureKey secret date region service ∧ usable (Some c).
Proof.
  intros Hskew. unfold validateSignatureV4At, timely.
  set (skew := if clockSkew <=? 0 then defaultClockSkew else clockSkew).
  assert (Hs : 0 < skew < MaxInt64).
  { unfold skew. destruct (clockSkew <=? 0) eqn:E; zbool; [by vm_compute|lia]. }
  intros Hv. apply bind_Ok in Hv as (p & Hp & Hv).
  destruct (SplitB "/" (sp_credential p)) as [|ak [|date [|region [|service [|terminal [|]]]]]] eqn:Ecred; try done.
  destruct (bool_decide _) eqn:E1; [done|]. destruct (bool_decide (sp_timestamp p = [])) eqn:E2; [done|].
  destruct (ParseAmzDate (sp_timestamp p)) as [t|] eqn:Et; [|done].
  destruct (if isPresignedV4 r then _ else _) eqn:Eskew in Hv; [done|].
  pose proof (Split_without "/" (sp_credential p)) as Hw. rewrite Ecred in Hw.
  change (txt "/") with ["/"%byte] in Hv.
  rewrite Split_Join in Hv; [|done|by apply Forall_cons in Hw as [_ Hw]].
  destruct (bool_decide (date = FormatDate t)) eqn:E4; [|done]. apply bool_decide_eq_true_1 in E4. cbn [negb] in Hv.
  destruct (hex_decode (sp_signature p)) as [provided|] eqn:E5; [|done].
  destruct (_ && _) eqn:E6 in Hv; [|done]. cbn [negb] in Hv.
  apply andb_prop in E6 as [_ E6]. apply bool_decide_eq_true_1 in E6.
  apply bind_Ok in Hv as ([] & Hexp & Hv). apply bind_Ok in Hv as (mode & _ & Hv).
  destruct (validateStreamingRequestHeaders r mode); [done|]. injection Hv as <-. cbn [sc_seedSignature sc_signingKey].
  exists p, t, ak, date, region, service, terminal. change (txt "/") with ["/"%byte].
  split_and!; try done.
  - destruct (isPresignedV4 r); [|by apply skew_abs].
    split; [by apply skew_future|]. apply bind_Ok in Hexp as (d & Hd & Hexp).
    destruct (now >? _) eqn:E7; [done|]. zbool. apply presignedExpiry_bounds in Hd as Hb.
    destruct Hb as (secs & Hb & ->). exists secs. split_and!; [lia|lia|done|lia].
  - rewrite E5. f_equal. symmetry. exact E6.
  - intros c' [= <-] _. unfold live_context. cbn. split_and!; [done| |apply hmac_sha256_length].
    unfold deriveSignatureKey, sign. intros E. pose proof (hmac_sha256_length (hmac_sha256 (hmac_sha256
      (hmac_sha256 (txt "AWS4" ++ secret) date) region) service) (txt "aws4_request")) as Hl. by rewrite E in Hl.
Qed.
End accept.

(** ** Version 2 *)

Section v2.
Context `{SHA256, HMAC, RFC1123}.

(** C40: the deadline of a Version 2 query signature is not covered by the
    signature when the request also has a Date header: whatever a client once
    signed in an Authorization header is accepted again at any later time
    [now], past every clock-skew window, by anyone who moves the signature
    into the query string next to an Expires of his own choice. *)
Theorem sigv2_deadline_unsigned r r' secret clockSkew now0 now rest key sig expires :
  ValidateSignatureV2 r secret clockSkew now0 = None →
  Get (Query r) "AWSAccessKeyId" = [] →
  HGet r "Authorization" = txt "AWS " ++ rest → cut ":" rest = Some (key, sig) → sig ≠ [] →
  Method r' = Method r → Header r' = Header r →
  buildV2CanonicalizedResource r' = buildV2CanonicalizedResource r →
  Get (Query r') "AWSAccessKeyId" ≠ [] → Get (Query r') "Signature" = sig →
  Get (Query r') "Expires" = FormatInt_bytes expires →
  0 ≤ now / Second ≤ expires → expires ≤ now / Second + 604800 → expires ≤ MaxInt64 →
  ValidateSignatureV2 r' secret clockSkew now = None.
Proof.
  intros Hv Hq Hauth Hcut Hsig Hm Hh Hres Hk Hs He Hnow Hexp Hmax. unfold ValidateSignatureV2 in *.
  rewrite Hq, Hauth in Hv. cbn [negb andb bool_decide] in Hv. rewrite (bool_decide_eq_true_2 ([] = [])) in Hv by done.
  cbn [negb andb] in Hv.
  assert (Hpre : HasPrefixB (txt "AWS " ++ rest) (txt "AWS ") = true) by (by apply bool_decide_eq_true_2).
  rewrite Hpre in Hv. change (drop 4 (txt "AWS " ++ rest)) with rest in Hv. rewrite Hcut in Hv.
  set (date := if bool_decide (HGet r "Date" = []) then HGet r "X-Amz-Date" else HGet r "Date") in *.
  destruct (bool_decide (date = [])) eqn:Ed; [done|].
  destruct (match parseRFC1123 date with Some _ => _ | None => _ end); [done|].
  rewrite (bool_decide_eq_false_2 _ Hk), Hs, (bool_decide_eq_false_2 _ Hsig), He. cbn [negb andb].
  assert (Hne : FormatInt_bytes expires ≠ []).
  { intros E. pose proof (ParseInt_FormatInt expires ltac:(lia)) as Hp. by rewrite E in Hp. }
  rewrite (bool_decide_eq_false_2 _ Hne), ParseInt_FormatInt by lia. cbn [negb]. unfold MaxInt64 in Hmax.
  rewrite wrap_i64_id, !Z.gtb_ltb, !(proj2 (Z.ltb_ge _ _)) by lia.
  unfold checkV2 in *. replace (buildV2StringToSign r') with (buildV2StringToSign r); [done|].
  unfold buildV2StringToSign, v2Date, HGet. rewrite Hres, Hm, Hh. fold (HGet r "Date") (HGet r "X-Amz-Date").
  fold date. rewrite Ed. done.
Qed.
End v2.

(** ** Concrete requests *)

Module SigToy.
Import ToyInstances AwsToy.
Definition secret : bytes := txt "secret".
Definition scope : bytes := txt "20260301/us-east-1/s3/aws4_request".
Definition signed : list bytes := [txt "host"; txt "x-amz-date"].
Definition hdrs : values := [(txt "X-Amz-Date", [txt "20260301T120000Z"]); (txt "X-Amz-Content-Sha256", [txt "UNSIGNED-PAYLOAD"])].
Definition req (extra : values) (q : string) : Request :=
  mkRequest (txt "GET") (txt "/bucket/a b") (txt "/bucket/a%20b") (txt q) (txt "gw.local") 0 (hdrs ++ extra) (src_of []).
Definition sig4 : bytes :=
  hex_bytes (sign (deriveSignatureKey secret (txt "20260301") (txt "us-east-1") (txt "s3"))
    (createStringToSign (txt "20260301T120000Z") scope (createCanonicalRequest (req [] "versionId=1") false signed))).
Definition auth4 : bytes :=
  txt "AWS4-HMAC-SHA256 Credential=AK/" ++ scope ++ txt ", SignedHeaders=host;x-amz-date, Signature=" ++ sig4.
Definition req4 : Request := req [(txt "Authorization", [auth4])] "versionId=1".
Definition noon : Z := 1772366400 * Second.

Definition v2date : bytes := txt "Thu, 01 Jan 2026 00:00:00 GMT".
#[export] Instance toy_rfc1123 : RFC1123 := {|
  parseRFC1123 s := if decide (s = v2date) then Some (1767225600 * Second) else None |}.
Definition hdrs2 (auth : bytes) : values := [(txt "Date", [v2date]); (txt "Authorization", [auth])].
Definition req2 (auth : bytes) (q : bytes) : Request :=
  mkRequest (txt "GET") (txt "/bucket/key") (txt "/bucket/key") q (txt "gw.local") 0 (hdrs2 auth) (src_of []).
Definition sig2 : bytes :=
  match buildV2StringToSign (req2 [] []) with
  | Ok s => b64_encode std_alphabet true (hmacSHA1 secret s)
  | Err _ => []
  end.
Definition auth2 : bytes := txt "AWS AK:" ++ sig2.
(** Two years later. *)
Definition replay : bytes := txt "AWSAccessKeyId=AK&Signature=" ++ QueryEscape sig2 ++ txt "&Expires=1830297601".
End SigToy.
Import ToyInstances AwsToy SigToy.

Lemma req_clean extra q : headerByLower (hdrs ++ extra) (txt "host") = None → clean (req extra q) false signed.
Proof.
  intros Hhost. split.
  - by vm_compute; repeat constructor.
  - intros h kv Hh. unfold signed in Hh. apply elem_of_cons in Hh as [->|Hh]; [|apply elem_of_cons in Hh as [->|Hh]; [|by apply not_elem_of_nil in Hh]].
    + unfold headerLine, canonicalHeader. change (ToLowerB (txt "host")) with (txt "host").
      cbn [Header req]. rewrite Hhost. cbn -[txt]. intros [= <-]. by vm_compute; repeat constructor.
    + intros [= <-]. by vm_compute; repeat constructor.
  - by vm_compute; repeat constructor.
  - done.
  - by vm_compute; repeat constructor.
Qed.


Lemma sigv4_accepts_signed_witness :
  ∃ c t, validateSignatureV4At req4 secret 0 (noon + 60 * Second) = Ok c ∧
    timely req4 (instant t) (noon + 60 * Second) defaultClockSkew ∧ usable (Some c).
Proof.
  destruct (validateSignatureV4At req4 secret 0 (noon + 60 * Second)) as [c|e] eqn:E; [|by vm_compute in E].
  destruct (sigv4_accepts_signed req4 secret 0 (noon + 60 * Second) c ltac:(by vm_compute) E)
    as (p & t & ak & date & region & service & terminal & _ & _ & _ & _ & Ht & _ & _ & _ & Hu).
  exists c, t. by split_and!.
Defined.

Lemma sigv2_deadline_unsigned_witness :
  ValidateSignatureV2 (req2 auth2 []) secret 0 (1767225600 * Second) = None ∧
  ValidateSignatureV2 (req2 auth2 []) secret 0 (1830297600 * Second) ≠ None ∧
  ValidateSignatureV2 (req2 auth2 replay) secret 0 (1830297600 * Second) = None.
Proof.
  assert (E : ValidateSignatureV2 (req2 auth2 []) secret 0 (1767225600 * Second) = None) by (by vm_compute).
  split_and!; [exact E|by vm_compute|].
  apply (sigv2_deadline_unsigned (req2 auth2 []) (req2 auth2 replay) secret 0 (1767225600 * Second)
    (1830297600 * Second) (txt "AK:" ++ sig2) (txt "AK") sig2 1830297601 E); try (by vm_compute).
Defined.
