(* ===== verification/Credentials.v ===== *)
(** * Gateway credentials ([internal/api/credential_store.go], [session_auth.go], [credentials.go],
    and their validation in [internal/config/config.go])

    The credential table the gateway authenticates clients against: its
    validation and resolution from the configuration, the compiled bucket
    scopes, the atomically replaced snapshot, session tokens, and the
    extraction of the access key from a request. The process environment is
    the argument [getenv]. *)
From S2P Require Import Prelude GoStd GoIO GoText Http Primitives AmzTime AwsChunked.
Local Open Scope Z_scope.

Definition ErrUnknownAccessKey : error := Sentinel "unknown access key".
Definition ErrMissingCredentials : error := Sentinel "missing or incomplete credentials".
Definition ErrInvalidToken : error := Sentinel "invalid session token".
Definition ErrExpiredToken : error := Sentinel "expired session token".

(** ** Configuration *)

Definition ObjectPermissionReadOnly : bytes := txt "ro".
Definition ObjectPermissionReadWrite : bytes := txt "rw".
Definition BucketPermissionCreate : bytes := txt "create".
Definition BucketPermissionDelete : bytes := txt "delete".
Definition BucketPermissionManage : bytes := txt "manage".

(** A [time.Time]: instant, year and zone offset; the zero time is
    1 January of year 1. *)
Record Deadline := mkDeadline { dl_instant : Z; dl_year : Z; dl_offset : Z }.
Definition zeroInstant : Z := - 62135596800 * Second.

Record GatewayCredential := mkGateway {
  gc_AccessKey : bytes; gc_SecretKey : bytes; gc_SecretKeyEnv : bytes;
  gc_SessionToken : bytes; gc_SessionTokenEnv : bytes; gc_ExpiresAt : option Deadline; gc_Label : bytes;
  gc_Buckets : option (list bytes); gc_Permissions : option bytes; gc_BucketPermissions : list bytes }.

Definition star : bytes := txt "*".
Definition count_star (l : bytes) : nat := length (filter (λ b, b = "*"%byte) l).
Definition HasSuffixB (l p : bytes) : bool := bool_decide (drop (length l - length p) l = p).
Definition TrimSuffixB (l p : bytes) : bytes := if HasSuffixB l p then take (length l - length p) l else l.

(** An exact name, a name followed by one star, or a single star. *)
Definition validPattern (p : bytes) : bool :=
  negb (bool_decide (p = []) || existsb is_space p ||
        (negb (bool_decide (p = star)) &&
         ((1 <? Z.of_nat (count_star p)) || (bool_decide ("*"%byte ∈ p) && negb (HasSuffixB p star))))).

Definition validDeadline (d : option Deadline) : option error :=
  match d with
  | Some d =>
      if (dl_instant d =? zeroInstant) || (dl_year d <? 1) || (dl_year d >? 9999) then
        Some (Errorf "auth.credentials[%d]: session credentials require a valid expires_at")
      else if negb (dl_offset d =? 0) then Some (Errorf "auth.credentials[%d]: expires_at must be GMT")
      else None
  | None => Some (Errorf "auth.credentials[%d]: session credentials require a valid expires_at")
  end.

(** The first check that fails decides. *)
Definition fails (b : bool) (msg : string) : option error := if b then Some (Errorf msg) else None.
Fixpoint first_error (l : list (option error)) : option error :=
  match l with [] => None | Some e :: _ => Some e | None :: l => first_error l end.

(** Entries that must each be valid and not repeat an earlier one. *)
Fixpoint validateList (valid : bytes → bool) (bad dup : string) (seen l : list bytes) : option error :=
  match l with
  | [] => None
  | x :: l =>
      if negb (valid x) then Some (Errorf bad)
      else if bool_decide (x ∈ seen) then Some (Errorf dup)
      else validateList valid bad dup (x :: seen) l
  end.

(** The checks of one entry; [seen] are the access keys before it. *)
Definition sessionTokenOf (getenv : bytes → bytes) (c : GatewayCredential) : bytes :=
  if bool_decide (gc_SessionTokenEnv c = []) then gc_SessionToken c else getenv (gc_SessionTokenEnv c).
Definition validateCredential (getenv : bytes → bytes) (requireSecret : bool) (seen : list bytes)
    (c : GatewayCredential) : option error :=
  let token := sessionTokenOf getenv c in
  let buckets := default [] (gc_Buckets c) in
  let grants := gc_BucketPermissions c in
  first_error [
    fails (bool_decide (gc_AccessKey c = [])) "auth.credentials[%d]: access_key is required";
    fails (bool_decide (gc_SecretKey c = []) && (requireSecret || bool_decide (gc_SecretKeyEnv c = [])))
      "auth.credentials[%d]: either secret_key or secret_key_env is required";
    fails (negb (bool_decide (gc_SessionToken c = [])) && negb (bool_decide (gc_SessionTokenEnv c = [])))
      "auth.credentials[%d]: session token sources are mutually exclusive";
    fails (negb (bool_decide (gc_SessionTokenEnv c = [])) && bool_decide (token = []))
      "auth.credentials[%d]: session token environment source is empty";
    (if bool_decide (token = []) then
       fails (bool_decide (is_Some (gc_ExpiresAt c))) "auth.credentials[%d]: static credentials cannot have expires_at"
     else if (len token >? 16 * 1024) || existsb (λ b, bool_decide (b ∈ ["000"; "013"; "010"]%byte)) token then
       Some (Errorf "auth.credentials[%d]: invalid session token")
     else validDeadline (gc_ExpiresAt c));
    fails (bool_decide (gc_AccessKey c ∈ seen)) "auth.credentials[%d]: duplicate access_key %q";
    match gc_Permissions c with
    | Some p =>
        first_error [
          fails (bool_decide (p = [])) "auth.credentials[%d]: permissions cannot be empty";
          fails (negb (bool_decide (p = ObjectPermissionReadOnly)) && negb (bool_decide (p = ObjectPermissionReadWrite)))
            "auth.credentials[%d]: permissions must be ro or rw"]
    | None => None
    end;
    validateList validPattern "auth.credentials[%d]: invalid bucket pattern %q"
      "auth.credentials[%d]: duplicate bucket pattern %q" [] buckets;
    validateList (λ g, bool_decide (g ∈ [BucketPermissionCreate; BucketPermissionDelete; BucketPermissionManage]))
      "auth.credentials[%d]: invalid bucket permission %q" "auth.credentials[%d]: duplicate bucket permission %q" [] grants].

Fixpoint validateFrom (getenv : bytes → bytes) (requireSecret : bool) (seen : list bytes) (cs : list GatewayCredential)
    : option error :=
  match cs with
  | [] => None
  | c :: cs =>
      match validateCredential getenv requireSecret seen c with
      | Some e => Some e
      | None => validateFrom getenv requireSecret (gc_AccessKey c :: seen) cs
      end
  end.
Definition ValidateGatewayCredentials (getenv : bytes → bytes) (cs : list GatewayCredential) (requireSecret : bool) : option error :=
  match cs with
  | [] => Some (Errorf "auth.credentials must not be empty; at least one credential is required")
  | _ => validateFrom getenv requireSecret [] cs
  end.

(** [ResolvedCredentials]: environment sources replace inline material; an
    empty secret variable leaves the inline secret. *)
Definition resolveCredential (getenv : bytes → bytes) (c : GatewayCredential) : GatewayCredential :=
  let viaEnv := negb (bool_decide (gc_SessionTokenEnv c = [])) in
  let secret := getenv (gc_SecretKeyEnv c) in
  mkGateway (gc_AccessKey c)
    (if negb (bool_decide (gc_SecretKeyEnv c = [])) && negb (bool_decide (secret = [])) then secret else gc_SecretKey c)
    (gc_SecretKeyEnv c)
    (if viaEnv then getenv (gc_SessionTokenEnv c) else gc_SessionToken c)
    (if viaEnv then [] else gc_SessionTokenEnv c)
    (gc_ExpiresAt c) (gc_Label c) (gc_Buckets c) (gc_Permissions c) (gc_BucketPermissions c).
Definition ResolvedCredentials (getenv : bytes → bytes) (cs : list GatewayCredential) : list GatewayCredential :=
  resolveCredential getenv <$> cs.

(** ** Principals *)

Record bucketMatcher := mkMatcher { bm_all : bool; bm_exact : bytes; bm_prefix : bytes }.
Record AuthorizationPolicy := mkPolicy {
  ap_Buckets : option (list bytes); ap_Permissions : bytes; ap_BucketPermissions : list bytes;
  ap_matchers : option (list bucketMatcher) }.
Record Credential := mkCredential {
  cr_AccessKey : bytes; cr_SecretKey : bytes; cr_Label : bytes; cr_Policy : AuthorizationPolicy;
  cr_SessionToken : bytes; cr_ExpiresAt : option Z }.

Definition matches (m : bucketMatcher) (bucket : bytes) : bool :=
  bm_all m || bool_decide (bm_exact m = bucket) ||
  (negb (bool_decide (bm_prefix m = [])) && HasPrefixB bucket (bm_prefix m)).
(** One pattern of the uncompiled scope. *)
Definition matchesPattern (p bucket : bytes) : bool :=
  if bool_decide (p = star) then true
  else if HasSuffixB p star then HasPrefixB bucket (TrimSuffixB p star)
  else bool_decide (bucket = p).
Definition AllowsBucket (c : Credential) (bucket : bytes) : bool :=
  match ap_matchers (cr_Policy c) with
  | Some ms => existsb (λ m, matches m bucket) ms
  | None =>
      match ap_Buckets (cr_Policy c) with
      | None => true
      | Some ps => existsb (λ p, matchesPattern p bucket) ps
      end
  end.
Definition CanWrite (c : Credential) : bool := bool_decide (ap_Permissions (cr_Policy c) = ObjectPermissionReadWrite).
Definition HasBucketPermission (c : Credential) (p : bytes) : bool :=
  existsb (λ g, bool_decide (g = p)) (ap_BucketPermissions (cr_Policy c)).

Definition compileBucketMatcher (p : bytes) : bucketMatcher :=
  if bool_decide (p = star) then mkMatcher true [] []
  else if HasSuffixB p star then mkMatcher false [] (TrimSuffixB p star)
  else mkMatcher false p [].
Definition compileBucketMatchers (ps : option (list bytes)) : option (list bucketMatcher) :=
  match ps with None => None | Some ps => Some (compileBucketMatcher <$> ps) end.

(** ** The store *)

Abbreviation snapshot := (list (bytes * Credential)).
Fixpoint snap_get (m : snapshot) (k : bytes) : option Credential :=
  match m with [] => None | (k', c) :: m => if decide (k' = k) then Some c else snap_get m k end.

Definition compileCredential (c : GatewayCredential) : Credential :=
  mkCredential (gc_AccessKey c) (gc_SecretKey c) (gc_Label c)
    (mkPolicy (gc_Buckets c) (default ObjectPermissionReadWrite (gc_Permissions c)) (gc_BucketPermissions c)
       (compileBucketMatchers (gc_Buckets c)))
    (gc_SessionToken c) (dl_instant <$> gc_ExpiresAt c).
Fixpoint compileFrom (cs : list GatewayCredential) (m : snapshot) : result snapshot :=
  match cs with
  | [] => Ok m
  | c :: cs =>
      if bool_decide (gc_AccessKey c = []) || bool_decide (gc_SecretKey c = []) then
        Err (Errorf "credential entry is missing access key or secret key")
      else match snap_get m (gc_AccessKey c) with
      | Some _ => Err (Errorf "duplicate credential access key %q")
      | None => compileFrom cs (m ++ [(gc_AccessKey c, compileCredential c)])
      end
  end.
Definition compileCredentialSnapshot (getenv : bytes → bytes) (cs : list GatewayCredential) : result snapshot :=
  match ValidateGatewayCredentials getenv cs true with
  | Some e => Err e
  | None =>
      let cs := ResolvedCredentials getenv cs in
      match ValidateGatewayCredentials getenv cs true with
      | Some e => Err e
      | None => compileFrom cs []
      end
  end.

(** The published snapshot; [None] before the first. *)
Definition Replace (getenv : bytes → bytes) (cs : list GatewayCredential) (st : option snapshot) : option error * option snapshot :=
  match compileCredentialSnapshot getenv cs with
  | Err e => (Some e, st)
  | Ok m => (None, Some m)
  end.
(** The copy handed out: copying an empty matcher list yields the nil list. *)
Definition LookupCredential (st : option snapshot) (accessKey : bytes) : result Credential :=
  match st with
  | None => Err ErrUnknownAccessKey
  | Some m =>
      match snap_get m accessKey with
      | None => Err ErrUnknownAccessKey
      | Some c =>
          let p := cr_Policy c in
          let ms := match ap_matchers p with Some [] => None | ms => ms end in
          Ok (mkCredential (cr_AccessKey c) (cr_SecretKey c) (cr_Label c)
                (mkPolicy (ap_Buckets p) (ap_Permissions p) (ap_BucketPermissions p) ms)
                (cr_SessionToken c) (cr_ExpiresAt c))
      end
  end.

(** ** Session tokens *)

Section session.
Context `{SHA256}.

(** Tokens are compared by digest and length. *)
Definition validateSessionCredentialAt (c : Credential) (supplied : bytes) (now : Z) : option error :=
  if bool_decide (cr_SessionToken c = []) then
    if negb (bool_decide (supplied = [])) || bool_decide (is_Some (cr_ExpiresAt c)) then Some ErrInvalidToken else None
  else match cr_ExpiresAt c with
  | None => Some ErrInvalidToken
  | Some deadline =>
      if negb (now <? deadline) then Some ErrExpiredToken
      else if negb (bool_decide (sha256 (cr_SessionToken c) = sha256 supplied) &&
                    bool_decide (be_encode 8 (len (cr_SessionToken c)) = be_encode 8 (len supplied))) ||
              bool_decide (supplied = []) then Some ErrInvalidToken
      else None
  end.
End session.

Definition EqualFoldB (a b : bytes) : bool := bool_decide (ToLowerB a = ToLowerB b).
Definition tokenName : bytes := txt "x-amz-security-token".

(** The signed-header lists of an Authorization header, and whether one names
    the token. *)
Definition signedHeaderLists (auth : bytes) : list (list bytes) :=
  omap (λ c, match cut "=" (TrimSpaceB c) with
    | Some (k, v) => if eqs k "SignedHeaders" then Some (SplitB ";" v) else None
    | None => None
    end) (SplitB "," (TrimPrefixB auth (txt "AWS4-HMAC-SHA256 "))).

Definition sessionTokenFromRequest (r : Request) : result bytes :=
  let '(query, bad) := ParseQuery (URLRawQuery r) in
  if (bad : bool) then Err ErrInvalidToken else
  let hs := filter (λ kv : bytes * list bytes, EqualFoldB kv.1 tokenName = true) (Header r) in
  let qs := filter (λ kv : bytes * list bytes, EqualFoldB kv.1 tokenName = true) query in
  if existsb (λ kv, negb (eqs kv.1 "X-Amz-Security-Token")) qs then Err ErrInvalidToken
  else
    let headerPresent := negb (bool_decide (hs = [])) in
    let queryPresent := negb (bool_decide (qs = [])) in
    if headerPresent && queryPresent then Err ErrInvalidToken
    else if negb headerPresent && negb queryPresent then Ok []
    else
      let auth := HGet r "Authorization" in
      let presigned := eqs (Get query "X-Amz-Algorithm") "AWS4-HMAC-SHA256" in
      let transportOk :=
        if presigned then queryPresent && bool_decide (auth = [])
        else headerPresent && HasPrefixB auth (txt "AWS4-HMAC-SHA256 ") &&
             match signedHeaderLists auth with [names] => bool_decide (tokenName ∈ names) | _ => false end in
      let tokens := concat ((if presigned then qs else hs).*2) in
      if negb transportOk then Err ErrInvalidToken
      else match tokens with
      | [t] => if bool_decide (t = []) || (len t >? 16 * 1024) || existsb (λ b, bool_decide (b ∈ ["000"; "013"; "010"]%byte)) t
               then Err ErrInvalidToken else Ok t
      | _ => Err ErrInvalidToken
      end.

(** ** Extraction ([credentials.go]) *)

(** [strings.Index]. *)
Definition IndexB (l sub : bytes) : Z := indexByteString l sub.
Fixpoint upto_any (stop : list byte) (l : bytes) : bytes :=
  match l with [] => [] | b :: l => if bool_decide (b ∈ stop) then [] else b :: upto_any stop l end.
(** [strings.Fields] on ASCII. *)
Fixpoint fields_from (l cur : bytes) : list bytes :=
  match l with
  | [] => if bool_decide (cur = []) then [] else [cur]
  | b :: l => if is_space b then (if bool_decide (cur = []) then fields_from l [] else cur :: fields_from l [])
              else fields_from l (cur ++ [b])
  end.

Definition headerAccessKey (auth : bytes) : bytes :=
  if bool_decide (auth = []) then []
  else if HasPrefixB auth (txt "AWS4-HMAC-SHA256") || HasPrefixB auth (txt "AWS ") then
    let i := IndexB auth (txt "Credential=") in
    if negb (i =? -1) then
      first (SplitB "/" (upto_any [","; " "]%byte (drop (Z.to_nat (i + 11)) auth)))
    else match fields_from auth [] with
    | a :: b :: _ => if HasPrefixB a (txt "AWS") then first (SplitB ":" b) else []
    | _ => []
    end
  else [].
Definition ExtractCredentials (r : Request) : result bytes :=
  let q := Query r in
  let k1 := first (SplitB "/" (Get q "X-Amz-Credential")) in
  let k2 := if bool_decide (k1 = []) then Get q "AWSAccessKeyId" else k1 in
  let k3 := if bool_decide (k2 = []) then headerAccessKey (HGet r "Authorization") else k2 in
  if bool_decide (k3 = []) then Err (Errorf "no credentials found in request") else Ok k3.

Definition HasCredentials (r : Request) : bool :=
  negb (bool_decide (Get (Query r) "X-Amz-Credential" = [])) || negb (bool_decide (Get (Query r) "AWSAccessKeyId" = [])) ||
  negb (bool_decide (HGet r "Authorization" = [])).
Definition IsSignatureV4Request (r : Request) : bool :=
  eqs (Get (Query r) "X-Amz-Algorithm") "AWS4-HMAC-SHA256" || HasPrefixB (HGet r "Authorization") (txt "AWS4-HMAC-SHA256").
Definition IsSignatureV2Request (r : Request) : bool :=
  HasPrefixB (HGet r "Authorization") (txt "AWS ") ||
  (negb (bool_decide (Get (Query r) "AWSAccessKeyId" = [])) && negb (bool_decide (Get (Query r) "Signature" = []))).

(** ** The store and its configuration *)

(** The scope a configuration entry means. *)
Definition inScope (c : GatewayCredential) (bucket : bytes) : bool :=
  match gc_Buckets c with None => true | Some ps => existsb (λ p, matchesPattern p bucket) ps end.

Lemma HasSuffixB_take p s : HasSuffixB p s = true → p = TrimSuffixB p s ++ s.
Proof.
  intros Hs. unfold TrimSuffixB. rewrite Hs. apply bool_decide_eq_true_1 in Hs.
  rewrite <-(take_drop (length p - length s) p) at 1. by rewrite Hs.
Qed.

(** Compiling a pattern does not change what it matches. *)
Lemma compileBucketMatcher_ok p bucket : bucket ≠ [] → matches (compileBucketMatcher p) bucket = matchesPattern p bucket.
Proof.
  intros Hb. unfold compileBucketMatcher, matchesPattern. case_bool_decide as Hs; [done|].
  destruct (HasSuffixB p star) eqn:E; unfold matches; cbn [bm_all bm_exact bm_prefix orb].
  - rewrite bool_decide_eq_false_2 by (by intros <-). cbn [orb].
    rewrite bool_decide_eq_false_2; [done|]. intros Hn. apply Hs. rewrite (HasSuffixB_take _ _ E), Hn. done.
  - rewrite (bool_decide_eq_true_2 ([] = [])) by done. rewrite orb_false_r. apply bool_decide_ext. naive_solver.
Qed.

Lemma compileBucketMatchers_ok ps bucket : bucket ≠ [] →
  existsb (λ m, matches m bucket) (compileBucketMatcher <$> ps) = existsb (λ p, matchesPattern p bucket) ps.
Proof.
  intros Hb. induction ps as [|p ps IH]; [done|]. cbn. by rewrite compileBucketMatcher_ok, <-IH.
Qed.

Lemma snap_get_app m m' k : snap_get (m ++ m') k = match snap_get m k with Some c => Some c | None => snap_get m' k end.
Proof. induction m as [|[k' c] m IH]; cbn; [done|]. by case_decide. Qed.

Lemma compileFrom_spec cs m m' :
  compileFrom cs m = Ok m' →
  (∀ k, snap_get m' k = match snap_get m k with
     | Some c => Some c
     | None => compileCredential <$> find (λ c, bool_decide (gc_AccessKey c = k)) cs end) ∧
  Forall (λ c, gc_AccessKey c ≠ [] ∧ gc_SecretKey c ≠ []) cs.
Proof.
  revert m. induction cs as [|c cs IH]; intros m; cbn [compileFrom].
  - intros [= <-]. split; [|constructor]. intros k. cbn. by destruct (snap_get m k).
  - destruct (_ || _) eqn:E; [done|]. apply orb_false_elim in E as [E1%bool_decide_eq_false_1 E2%bool_decide_eq_false_1].
    destruct (snap_get m (gc_AccessKey c)) eqn:E3; [done|]. intros [Hg Hf]%IH. split; [|by constructor].
    intros k. rewrite Hg, snap_get_app. cbn [snap_get find]. destruct (snap_get m k) eqn:E4; [done|].
    case_decide as Hk; [by rewrite bool_decide_eq_true_2|by rewrite bool_decide_eq_false_2].
Qed.

Lemma validateFrom_keys getenv rs seen cs :
  validateFrom getenv rs seen cs = None →
  Forall (λ c, gc_AccessKey c ∉ seen) cs ∧ NoDup (gc_AccessKey <$> cs) ∧
  Forall (λ c, gc_AccessKey c ≠ [] ∧ (rs = true → gc_SecretKey c ≠ [])) cs.
Proof.
  revert seen. induction cs as [|c cs IH]; intros seen; cbn [validateFrom].
  { intros _. split_and!; constructor. }
  destruct (validateCredential getenv rs seen c) eqn:E; [done|]. intros (Hs & Hn & Hf)%IH.
  assert (gc_AccessKey c ∉ seen ∧ gc_AccessKey c ≠ [] ∧ (rs = true → gc_SecretKey c ≠ [])) as (H1 & H2 & H3).
  { unfold validateCredential in E. cbn [first_error] in E.
    repeat match type of E with (match ?m with Some _ => _ | None => _ end) = None => destruct m eqn:?; [done|] end.
    unfold fails in *. repeat case_match; simplify_eq; try done.
    all: repeat match goal with Hb : bool_decide _ = false |- _ => apply bool_decide_eq_false_1 in Hb end.
    all: split_and!; try done.
    all: intros -> Hsec; rewrite Hsec in *; cbn in *; congruence. }
  split_and!.
  - constructor; [done|]. eapply Forall_impl; [exact Hs|]. intros c' Hc'. cbn in *. by apply not_elem_of_cons in Hc' as [_ ?].
  - cbn. apply NoDup_cons. split; [|done]. intros (c' & Hk & Hin)%list_elem_of_fmap.
    rewrite Forall_forall in Hs. specialize (Hs c' Hin). rewrite Hk in Hs. apply Hs. by left.
  - by constructor.
Qed.

Lemma compileFrom_total cs m :
  Forall (λ c, gc_AccessKey c ≠ [] ∧ gc_SecretKey c ≠ []) cs → NoDup (gc_AccessKey <$> cs) →
  Forall (λ c, snap_get m (gc_AccessKey c) = None) cs → ∃ m', compileFrom cs m = Ok m'.
Proof.
  revert m. induction cs as [|c cs IH]; intros m Hf Hn Hm; cbn [compileFrom]; [eauto|].
  apply Forall_cons in Hf as [[H1 H2] Hf]. apply Forall_cons in Hm as [H3 Hm]. cbn in Hn. apply NoDup_cons in Hn as [H4 Hn].
  rewrite !bool_decide_eq_false_2, H3 by done. cbn [orb]. apply IH; [done|done|].
  apply Forall_forall. intros c' Hc'. rewrite Forall_forall in Hm. rewrite snap_get_app, (Hm c' Hc'). cbn.
  rewrite decide_False; [done|]. intros E. apply H4. rewrite E. by apply list_elem_of_fmap_2.
Qed.

(** Only validation can refuse a table. *)
Lemma Replace_succeeds getenv cs st :
  ValidateGatewayCredentials getenv cs true = None →
  ValidateGatewayCredentials getenv (ResolvedCredentials getenv cs) true = None →
  ∃ m, Replace getenv cs st = (None, Some m).
Proof.
  intros H1 H2. unfold Replace, compileCredentialSnapshot. rewrite H1, H2.
  unfold ValidateGatewayCredentials in H2. destruct (ResolvedCredentials getenv cs) as [|c l]; [done|].
  apply validateFrom_keys in H2 as (_ & Hn & Hf).
  destruct (compileFrom_total (c :: l) []) as [m ->]; [|done|by apply Forall_true|by exists m].
  eapply Forall_impl; [exact Hf|]. intros x [? Hx]. split; [done|by apply Hx].
Qed.

(** C24: replacing the credential table is atomic and exact. A rejected
    configuration leaves the published table as it was. An accepted one is
    published whole: looking up an access key returns a principal exactly
    when a configured (and environment-resolved) entry has that key, with the
    entry's non-empty secret, its permission ("rw" when omitted), its bucket
    grants and its session data, and the compiled scope admits a bucket
    exactly when the entry's patterns do; in particular an empty pattern list
    admits none. *)
Theorem credential_store_exact getenv cs st err st' :
  Replace getenv cs st = (err, st') →
  match err with
  | Some _ => st' = st
  | None => ∀ k,
      match LookupCredential st' k with
      | Err e => e = ErrUnknownAccessKey ∧ ∀ c, c ∈ ResolvedCredentials getenv cs → gc_AccessKey c ≠ k
      | Ok cr => ∃ c, c ∈ ResolvedCredentials getenv cs ∧ gc_AccessKey c = k ∧ cr_AccessKey cr = k ∧
          cr_SecretKey cr = gc_SecretKey c ∧ gc_SecretKey c ≠ [] ∧
          ap_Permissions (cr_Policy cr) = default ObjectPermissionReadWrite (gc_Permissions c) ∧
          ap_BucketPermissions (cr_Policy cr) = gc_BucketPermissions c ∧
          cr_SessionToken cr = gc_SessionToken c ∧ cr_ExpiresAt cr = dl_instant <$> gc_ExpiresAt c ∧
          ∀ bucket, bucket ≠ [] → AllowsBucket cr bucket = inScope c bucket
      end
  end.
Proof.
  unfold Replace, compileCredentialSnapshot.
  destruct (ValidateGatewayCredentials getenv cs true); [by intros [= <- <-]|].
  destruct (ValidateGatewayCredentials getenv (ResolvedCredentials getenv cs) true) eqn:EV; [by intros [= <- <-]|].
  destruct (compileFrom _ _) as [m|e] eqn:EC; [|by intros [= <- <-]]. intros [= <- <-] k.
  apply compileFrom_spec in EC as [Hg Hf]. cbn [snap_get] in Hg. unfold LookupCredential. rewrite Hg.
  destruct (find _ _) as [c|] eqn:EF; cbn [fmap option_fmap option_map].
  - apply find_some in EF as [Hin%list_elem_of_In Hk%bool_decide_eq_true_1].
    rewrite Forall_forall in Hf. destruct (Hf c Hin) as [_ Hsec].
    exists c. split_and!; try done. intros bucket Hb. unfold AllowsBucket, inScope, compileCredential. cbn.
    destruct (gc_Buckets c) as [[|p ps]|]; [done| |done]. cbn [compileBucketMatchers].
    exact (compileBucketMatchers_ok (p :: ps) bucket Hb).
  - split; [done|]. intros c Hc Hk. apply list_elem_of_In in Hc.
    eapply find_none in EF; [|exact Hc]. by apply bool_decide_eq_false_1 in EF.
Qed.

Module CredWitness.
Definition env : bytes → bytes := λ n, if eqs n "APP_SECRET" then txt "s3cr3t" else [].
Definition creds : list GatewayCredential :=
  [mkGateway (txt "AK") (txt "inline") (txt "APP_SECRET") [] [] None [] (Some [txt "logs-*"; txt "data"]) (Some (txt "ro")) [];
   mkGateway (txt "DENY") (txt "x") [] [] [] None [] (Some []) None [txt "manage"]].
End CredWitness.
Import CredWitness.

Lemma credential_store_exact_witness :
  ∃ cr, LookupCredential (Replace env creds None).2 (txt "AK") = Ok cr ∧ cr_SecretKey cr = txt "s3cr3t" ∧
    AllowsBucket cr (txt "logs-2026") = true ∧ AllowsBucket cr (txt "other") = false ∧
    ∃ d, LookupCredential (Replace env creds None).2 (txt "DENY") = Ok d ∧ AllowsBucket d (txt "data") = false.
Proof.
  destruct (Replace env creds None) as [err st'] eqn:E.
  assert (err = None) as -> by (vm_compute in E; by injection E as <- <-).
  pose proof (credential_store_exact env creds None None st' E) as Hx. cbn [snd].
  specialize (Hx (txt "AK")) as H1. specialize (Hx (txt "DENY")) as H2. clear Hx.
  vm_compute in E. injection E as <-. eexists. split; [vm_compute; reflexivity|].
  split_and!; [by vm_compute..|]. eexists. split; [vm_compute; reflexivity|]. by vm_compute.
Defined.
