(* ===== verification/Authn.v ===== *)
(** * Authentication of requests ([internal/api/auth_middleware.go])

    The middleware every request passes before authorization and routing. A
    request either bypasses authentication (system endpoints, credential-free
    CORS preflights), is rejected with an error, or is handed on with the
    principal it authenticated as. The browser-form branch is decided by the
    POST policy validator, whose outcome is the argument [post]; the verdict
    of [mime.ParseMediaType] and the boundary check is the parameter
    [multipartForm]. *)
From S2P Require Import Prelude GoStd GoIO GoText Http Primitives AmzTime Spool AwsChunked AwsTrailer AwsBody AwsTheorems SigV4 SigV4Theorems Credentials.
Local Open Scope Z_scope.

Definition systemEndpoints : list bytes :=
  txt <$> ["/health"; "/ready"; "/live"; "/metrics"; "/healthz"; "/readyz"; "/livez"; "/minio/health/live";
           "/minio/health/ready"; "/health/live"; "/health/ready"].
Definition isSystemEndpoint (path : bytes) : bool := bool_decide (path ∈ systemEndpoints).

Definition authMaterial : list bytes :=
  txt <$> ["awsaccesskeyid"; "signature"; "expires"; "date"; "x-amz-algorithm"; "x-amz-signature"; "x-amz-credential";
           "x-amz-date"; "x-amz-expires"; "x-amz-signedheaders"; "x-amz-security-token"].
Definition hasAuthenticationMaterial (r : Request) : bool :=
  HasCredentials r || existsb (λ kv, bool_decide (ToLowerB kv.1 ∈ authMaterial)) (Query r).

Definition isUnauthenticatedCORSPreflight (r : Request) : bool :=
  eqs (Method r) "OPTIONS" &&
  negb (bool_decide (TrimSpaceB (HGet r "Origin") = [])) &&
  negb (bool_decide (TrimSpaceB (HGet r "Access-Control-Request-Method") = [])) &&
  negb (hasAuthenticationMaterial r) &&
  (let path := TrimPrefixB (URLPath r) (txt "/") in
   match cut "/" path with
   | Some (bucket, key) => negb (bool_decide (bucket = [])) && negb (bool_decide (key = []))
   | None => negb (bool_decide (path = []))
   end).

(** ** Browser forms ([post_form.go]) *)

(** [mime.ParseMediaType] reports multipart/form-data with a usable boundary. *)
Class MediaTypes := { multipartForm : bytes → bool }.

Definition postContentType (h : values) : option bytes :=
  match concat ((filter (λ kv : bytes * list bytes, EqualFoldB kv.1 (txt "Content-Type") = true) h).*2) with
  | [v] => Some v
  | _ => None
  end.
(** [ForceQuery] (a bare trailing "?") is the argument. *)
Definition isPostObjectRequest `{MediaTypes} (forceQuery : bool) (r : Request) : bool :=
  eqs (Method r) "POST" && bool_decide (URLRawQuery r = []) && negb forceQuery &&
  (let path := URLPath r in
   HasPrefixB path (txt "/") &&
   (let trimmed := TrimSuffixB path (txt "/") in
    negb (bool_decide (trimmed = [])) && negb (HasSuffixB trimmed (txt "/")) &&
    (Z.of_nat (length (filter (λ b, b = "/"%byte) trimmed)) =? 1) && (indexByteString trimmed (txt "//") =? -1) &&
    negb (bool_decide ("?"%byte ∈ trimmed)) && negb (bool_decide ("#"%byte ∈ trimmed)))) &&
  match postContentType (Header r) with
  | Some ct => negb (existsb (λ b, bool_decide (b ∈ ["013"; "010"; "000"]%byte)) ct) && multipartForm ct
  | None => false
  end.

(** ** Spool limits by operation ([spool_manager.go]) *)

(** The query without signature transport parameters ([authorization.go]). *)
Definition transportParam (k : bytes) : bool :=
  eqs k "AWSAccessKeyId" || eqs k "Signature" || eqs k "Expires" || eqs k "x-id" || HasPrefixB (ToLowerB k) (txt "x-amz-").
Definition operationQuery (r : Request) : values :=
  filter (λ kv : bytes * list bytes, transportParam kv.1 = false) (Query r).

Definition isUploadPartSpoolRequest (query : values) : bool :=
  (len query =? 2) && negb (bool_decide (first (vals query "uploadId") = [])) && negb (len (vals query "partNumber") =? 0) &&
  (let pn := first (vals query "partNumber") in
   negb (bool_decide (pn = [])) && forallb is_digit pn &&
   match ParseUint_bytes pn with Some n => n <=? MaxUint32 | None => false end).

Definition spoolLimitForRequest `{MediaTypes} (forceQuery : bool) (r : Request) (global part : Z) : Z :=
  let global := if global <=? 0 then Z.shiftl 5 30 else global in
  let query := operationQuery r in
  let path := TrimPrefixB (URLPath r) (txt "/") in
  let objectRoute := bool_decide ("/"%byte ∈ path) && negb (HasSuffixB path (txt "/")) in
  if eqs (Method r) "PUT" && isUploadPartSpoolRequest query then minSpoolLimit global part
  else if eqs (Method r) "PUT" && objectRoute && bool_decide (HGet r "X-Amz-Copy-Source" = []) &&
          ((len query =? 0) || ((len query =? 1) && (len (vals query "versionId") >? 0))) then global
  else if isPostObjectRequest forceQuery r then global
  else minSpoolLimit global (Z.shiftl 1 20).

(** ** The middleware *)

Inductive authDecision :=
| Bypass
| Reject (e : error)
| Admit (principal : Credential) (signing : option V4SigningContext) (body : option verifiedAWSFile).

(** The error a client sees for a failed signature check. *)
Definition clientAuthError (e : error) : error :=
  if error_is e ErrUnsupportedStreamingMode || is_invalidStreamingHeaders e then e
  else if error_is e ErrSignatureMismatch then ErrSignatureMismatch
  else if error_is e ErrRequestTimeTooSkewed || error_is e ErrRequestExpired || error_is e ErrInvalidPresignedExpiry then e
  else ErrSignatureMismatch.

Section middleware.
Context `{SHA256, HMAC, RFC1123, MediaTypes}.

(** The settings of the running middleware, and the request's environment:
    the current time, the file operations and the reads of the body. *)
Record authEnv := mkAuthEnv {
  ae_store : option snapshot; ae_clockSkew : Z; ae_allowSigV2 : bool; ae_global : Z; ae_part : Z;
  ae_now : Z; ae_io : Env; ae_ctxErr : option error; ae_blocks : list bytes; ae_forceQuery : bool;
  ae_post : result Credential }.

(** Step 3: the signature; [None] is a Version 2 request, which has no
    signing context. *)
Definition checkSignature (a : authEnv) (r : Request) (c : Credential) : result (option V4SigningContext) :=
  if IsSignatureV4Request r then
    match validateSignatureV4At r (cr_SecretKey c) (ae_clockSkew a) (ae_now a) with
    | Ok ctx => Ok (Some ctx)
    | Err e => Err (clientAuthError e)
    end
  else if IsSignatureV2Request r then
    if negb (bool_decide (cr_SessionToken c = [])) || bool_decide (is_Some (cr_ExpiresAt c)) then Err ErrInvalidToken
    else if negb (ae_allowSigV2 a) then Err ErrSignatureMismatch
    else match ValidateSignatureV2 r (cr_SecretKey c) (ae_clockSkew a) (ae_now a) with
    | None => Ok None
    | Some e => Err (clientAuthError e)
    end
  else Err ErrMissingCredentials.

Definition checkSession (a : authEnv) (r : Request) (c : Credential) : option error :=
  if IsSignatureV4Request r then
    match sessionTokenFromRequest r with
    | Err e => Some e
    | Ok token => validateSessionCredentialAt c token (ae_now a)
    end
  else None.

(** [AuthMiddleware]. The verified body, when the signature commits to a
    payload hash, replaces the request body. *)
Definition AuthMiddleware (a : authEnv) (r : Request) (m : spoolManager) : authDecision * spoolManager :=
  if isSystemEndpoint (URLPath r) then (Bypass, m)
  else if isUnauthenticatedCORSPreflight r then (Bypass, m)
  else if isPostObjectRequest (ae_forceQuery a) r then
    (match ae_post a with Ok c => Admit c None None | Err e => Reject e end, m)
  else match ExtractCredentials r with
  | Err _ => (Reject ErrMissingCredentials, m)
  | Ok accessKey =>
      match LookupCredential (ae_store a) accessKey with
      | Err _ => (Reject ErrUnknownAccessKey, m)
      | Ok c =>
          match checkSignature a r c with
          | Err e => (Reject e, m)
          | Ok signing =>
              match checkSession a r c with
              | Some e => (Reject e, m)
              | None =>
                  match signing with
                  | Some ctx =>
                      if sc_verifyPayload ctx then
                        let limit := spoolLimitForRequest (ae_forceQuery a) r (ae_global a) (ae_part a) in
                        match verifyAndSpoolV4Payload (ae_io a) (ae_ctxErr a) limit r (ae_blocks a) (Some ctx) m with
                        | (Err e, m) => (Reject e, m)
                        | (Ok f, m) => (Admit c (Some ctx) (Some f), m)
                        end
                      else (Admit c (Some ctx) None, m)
                  | None => (Admit c None None, m)
                  end
              end
          end
      end
  end.
End middleware.

Section theorems.
Context `{SHA256, HMAC, RFC1123, MediaTypes}.

Lemma v4CopyLoop_sound e blocks endErr declared i acc m body e' m' :
  v4CopyLoop e blocks endErr declared i acc m = (Ok (body, e'), m') → body = acc ++ concat blocks ∧ endErr = EOF.
Proof.
  revert e declared acc m. induction blocks as [|b blocks IH]; intros e declared acc m; cbn [v4CopyLoop concat];
    (destruct (poll_done e) as [[] e1]; [done|]).
  - case_decide; [|done]. intros [= <- <- <-]. by rewrite app_nil_r.
  - destruct (v4_charge _ _) as [extra d]. destruct (if extra >? 0 then _ else _) as [[x|] m1]; [done|].
    destruct (io_op e1) as [[] e2]; [done|]. intros [-> ->]%IH. by rewrite <-(assoc_L (++)).
Qed.

Lemma verifyAndSpoolV4Payload_sound e ctxErr limit r blocks c m f m' :
  verifyAndSpoolV4Payload e ctxErr limit r blocks (Some c) m = (Ok f, m') →
  sha256 (vf_data f) = sc_expectedPayloadHash c ∧ vf_data f = concat blocks ∧ vf_length f = len (vf_data f).
Proof.
  unfold verifyAndSpoolV4Payload. destruct (negb _); [done|].
  destruct (Acquire _ _ _ _) as [[i|x] m1]; [|done].
  destruct (io_op e) as [[] e1]; [done|]. destruct (io_op e1) as [[] e2]; [done|].
  destruct (v4CopyLoop _ _ _ _ _ _ _) as [[[body e3]|x] m2] eqn:EL; [|done].
  apply v4CopyLoop_sound in EL as [-> _]. case_bool_decide as Hh; [|done]. cbn [negb].
  destruct (io_op e3) as [[] e4]; [done|]. by intros [= <- <-].
Qed.

(** What a Version 4 context says about the payload. *)
Lemma v4_payload_hash r secret skew now c :
  validateSignatureV4At r secret skew now = Ok c → sc_verifyPayload c = true →
  isPresignedV4 r = false ∧ hex_decode (payloadHash r false) = Some (sc_expectedPayloadHash c).
Proof.
  unfold validateSignatureV4At. intros Hv. apply bind_Ok in Hv as (p & _ & Hv).
  destruct (SplitB "/" (sp_credential p)) as [|? [|? [|? [|? [|? [|]]]]]]; try done.
  destruct (bool_decide _); [done|]. destruct (bool_decide _); [done|]. destruct (ParseAmzDate _); [|done].
  destruct (if isPresignedV4 r then _ else _) in Hv; [done|].
  destruct (SplitB "/" (JoinB _ _)) as [|? [|? [|? [|? [|]]]]]; try done.
  destruct (negb _) in Hv; [done|]. destruct (negb _) in Hv; [done|].
  apply bind_Ok in Hv as (_ & _ & Hv). apply bind_Ok in Hv as (mode & _ & Hv).
  destruct (validateStreamingRequestHeaders r mode); [done|]. injection Hv as <-. cbn.
  unfold concretePayload, payloadHash. destruct (isPresignedV4 r); cbn; [done|].
  destruct (bool_decide (mode = streamingNone)); cbn; [|done].
  destruct (len _ =? 64) eqn:E64; cbn; [|done]. zbool.
  destruct (hex_decode (HGet r "X-Amz-Content-Sha256")) as [h|] eqn:Eh; [|done].
  destruct (len h =? 32); [|done]. intros _. split; [done|].
  rewrite bool_decide_eq_false_2; [done|]. intros E. by rewrite E in E64.
Qed.

End theorems.

(** ** A signed upload *)

Module AuthnToy.
Import ToyInstances AwsToy SigToy.
#[export] Instance toy_media : MediaTypes := {| multipartForm _ := false |}.
Definition body : list bytes := [txt "hello "; txt "world"].
Definition putHeaders : values :=
  [(txt "X-Amz-Date", [txt "20260301T120000Z"]); (txt "X-Amz-Content-Sha256", [hex_bytes (sha256 (concat body))])].
Definition put (extra : values) : Request :=
  mkRequest (txt "PUT") (txt "/data/k") (txt "/data/k") [] (txt "gw.local") 11 (putHeaders ++ extra) (src_of (concat body)).
Definition sigPut : bytes :=
  hex_bytes (sign (deriveSignatureKey (txt "s3cr3t") (txt "20260301") (txt "us-east-1") (txt "s3"))
    (createStringToSign (txt "20260301T120000Z") scope (createCanonicalRequest (put []) false signed))).
Definition request : Request :=
  put [(txt "Authorization", [txt "AWS4-HMAC-SHA256 Credential=AK/" ++ scope ++
         txt ", SignedHeaders=host;x-amz-date, Signature=" ++ sigPut])].
Definition settings : authEnv :=
  mkAuthEnv (Replace CredWitness.env CredWitness.creds None).2 0 false 0 1024 noon (mkEnv [] []) None body false (Err ErrMissingCredentials).
End AuthnToy.
Import ToyInstances AwsToy SigToy AuthnToy.

