(* ===== verification/Authz.v ===== *)
(** * Authorization of requests ([internal/api/authorization.go])

    After authentication every request is classified into an operation and a
    bucket, and the principal's policy decides. Maps are lists in the order
    the runtime iterates them, so every statement holds for every iteration
    order. The middleware wraps the router, so no mux route is attached to
    the request when it runs; [route] is the route's name when there is one. *)
From S2P Require Import Prelude GoStd GoIO GoText Http Primitives AmzTime Spool AwsChunked AwsTrailer AwsBody SigV4 Credentials Authn.
Local Open Scope Z_scope.

Inductive authorizationOperation :=
| authorizationUnknown | authorizationRead | authorizationWrite | authorizationCreateBucket
| authorizationDeleteBucket | authorizationManageBucket | authorizationListBuckets.
#[export] Instance authorizationOperation_eq_dec : EqDecision authorizationOperation.
Proof. solve_decision. Defined.

Definition reads : list string :=
  ["HeadBucket"; "ListObjects"; "GetObject"; "HeadObject"; "ListParts"; "ListMultipartUploads"; "GetObjectRetention";
   "GetObjectLegalHold"; "GetObjectTagging"; "GetObjectACL"; "SelectObjectContent"; "CORSPreflight";
   "GetObjectLockConfiguration"; "GetBucketLifecycle"; "GetBucketPolicy"; "GetBucketCors"; "GetBucketVersioning";
   "GetBucketEncryption"; "GetBucketACL"; "GetBucketLocation"; "GetBucketNotification"; "GetBucketReplication";
   "GetBucketLogging"; "GetBucketRequestPayment"; "GetBucketWebsite"; "GetBucketInventory"; "GetBucketAnalytics"].
Definition writes : list string :=
  ["PutObject"; "PostObject"; "CopyObject"; "DeleteObject"; "DeleteObjects"; "CreateMultipartUpload"; "UploadPart";
   "UploadPartCopy"; "CompleteMultipartUpload"; "AbortMultipartUpload"; "PutObjectRetention"; "PutObjectLegalHold";
   "PutObjectTagging"; "DeleteObjectTagging"; "PutObjectACL"; "RestoreObject"].
Definition manages : list string :=
  ["PutObjectLockConfiguration"; "PutBucketLifecycle"; "DeleteBucketLifecycle"; "PutBucketPolicy"; "DeleteBucketPolicy";
   "PutBucketCors"; "DeleteBucketCors"; "PutBucketVersioning"; "PutBucketEncryption"; "DeleteBucketEncryption";
   "PutBucketACL"; "PutBucketNotification"; "PutBucketReplication"; "DeleteBucketReplication"; "PutBucketLogging";
   "PutBucketRequestPayment"; "PutBucketWebsite"; "DeleteBucketWebsite"; "PutBucketInventory"; "DeleteBucketInventory";
   "PutBucketIntelligentTiering"].
Definition operationPermission (name : bytes) : option authorizationOperation :=
  if eqs name "ListBuckets" then Some authorizationListBuckets
  else if eqs name "CreateBucket" then Some authorizationCreateBucket
  else if eqs name "DeleteBucket" then Some authorizationDeleteBucket
  else if bool_decide (name ∈ txt <$> reads) then Some authorizationRead
  else if bool_decide (name ∈ txt <$> writes) then Some authorizationWrite
  else if bool_decide (name ∈ txt <$> manages) then Some authorizationManageBucket
  else None.

Definition oneOf (k : bytes) (l : list string) : bool := bool_decide (k ∈ txt <$> l).

Definition listObjectsParams : list string :=
  ["list-type"; "prefix"; "marker"; "delimiter"; "max-keys"; "continuation-token"; "start-after"; "encoding-type"; "fetch-owner"].
Definition listMultipartUploadsParams : list string :=
  ["uploads"; "prefix"; "delimiter"; "encoding-type"; "key-marker"; "upload-id-marker"; "max-uploads"].
Definition listPartsParams : list string := ["uploadId"; "max-parts"; "part-number-marker"].
Definition bucketReadSelectors : list string :=
  ["acl"; "analytics"; "cors"; "encryption"; "inventory"; "lifecycle"; "location"; "logging"; "notification"; "object-lock";
   "policy"; "replication"; "requestPayment"; "uploads"; "versioning"; "website"].
Definition bucketPutSelectors : list string :=
  ["acl"; "cors"; "encryption"; "intelligent-tiering"; "inventory"; "lifecycle"; "logging"; "notification"; "object-lock";
   "policy"; "replication"; "requestPayment"; "versioning"; "website"].
Definition bucketDeleteSelectors : list string :=
  ["lifecycle"; "policy"; "cors"; "encryption"; "replication"; "website"; "inventory"].
Definition inventoryIDSelectors : list string := ["inventory"; "analytics"; "intelligent-tiering"].

Definition queryHasAllKeys (query : values) (allowed : list string) : bool := forallb (λ kv, oneOf kv.1 allowed) query.
Definition queryValueNonEmpty (query : values) (key : bytes) : bool :=
  match vget query key with Some (v :: _) => negb (bool_decide (v = [])) | _ => false end.

(** The loop of [classifyBucketSelectorQuery]: the selector found, or nothing
    when the query is ambiguous or unknown. *)
Fixpoint selectorLoop (query : values) (selectors : list string) (selector : bytes) : option bytes :=
  match query with
  | [] => Some selector
  | (key, vs) :: query =>
      if oneOf key selectors then
        if negb (bool_decide (selector = [])) then None
        else if negb (len vs =? 0) && negb (bool_decide (first vs = [])) then None
        else selectorLoop query selectors key
      else if negb (eqs key "id") then None
      else selectorLoop query selectors selector
  end.
Definition classifyBucketSelectorQuery (query : values) (selectors idSelectors : list string)
    (base : authorizationOperation) : authorizationOperation :=
  match selectorLoop query selectors [] with
  | None => authorizationUnknown
  | Some selector =>
      if bool_decide (selector = []) then authorizationUnknown
      else if has query "id" && negb (oneOf selector idSelectors) then authorizationUnknown
      else base
  end.

(** ** Objects *)

Definition objectGetParam (query : values) (key : bytes) : bool :=
  if oneOf key ["acl"; "retention"; "legal-hold"; "tagging"] then negb (queryValueNonEmpty query key)
  else oneOf key ["versionId"; "partNumber"; "response-cache-control"; "response-content-disposition";
    "response-content-encoding"; "response-content-language"; "response-content-type"; "response-expires"].
Definition objectPutParam (query : values) (key : bytes) : bool :=
  if oneOf key ["acl"; "retention"; "legal-hold"; "tagging"] then negb (queryValueNonEmpty query key)
  else oneOf key ["versionId"; "partNumber"; "uploadId"].
Definition objectDeleteParam (query : values) (key : bytes) : bool :=
  if eqs key "tagging" then negb (queryValueNonEmpty query key) else eqs key "versionId".

(** The keys beside the select keys: the first one the iteration meets
    decides. *)
Fixpoint selectLoop (query : values) : option authorizationOperation :=
  match query with
  | [] => None
  | (key, _) :: query =>
      if negb (eqs key "select") && negb (eqs key "select-type") then
        if oneOf key ["uploads"; "uploadId"; "restore"] then Some authorizationWrite else Some authorizationUnknown
      else selectLoop query
  end.

Definition classifyObjectPost (query : values) : authorizationOperation :=
  if len query =? 0 then authorizationUnknown
  else if has query "select" || has query "select-type" then
    match selectLoop query with
    | Some op => op
    | None =>
        if has query "select-type" && negb (eqs (first (vals query "select-type")) "2") then authorizationUnknown
        else if has query "select" && queryValueNonEmpty query (txt "select") then authorizationUnknown
        else authorizationRead
    end
  else if has query "uploads" then
    if negb (len query =? 1) || queryValueNonEmpty query (txt "uploads") then authorizationUnknown else authorizationWrite
  else if has query "uploadId" then
    if negb (len query =? 1) || negb (queryValueNonEmpty query (txt "uploadId")) then authorizationUnknown else authorizationWrite
  else if has query "restore" then
    if negb (len query =? 1) || queryValueNonEmpty query (txt "restore") then authorizationUnknown else authorizationWrite
  else authorizationUnknown.

Definition isGetOrHead (r : Request) : bool := eqs (Method r) "GET" || eqs (Method r) "HEAD".

Definition classifyObjectAuthorizationOperation (r : Request) : authorizationOperation :=
  let query := operationQuery r in
  if eqs (Method r) "OPTIONS" then authorizationRead
  else if isGetOrHead r then
    if has query "uploadId" then
      if negb (queryHasAllKeys query listPartsParams) then authorizationUnknown
      else if negb (queryValueNonEmpty query (txt "uploadId")) then authorizationUnknown
      else authorizationRead
    else if forallb (λ kv, objectGetParam query kv.1) query then authorizationRead else authorizationUnknown
  else if eqs (Method r) "PUT" then
    if has query "partNumber" && negb (has query "uploadId") then authorizationUnknown
    else if has query "uploadId" &&
            (negb (queryValueNonEmpty query (txt "uploadId")) ||
             negb (forallb (λ kv, oneOf kv.1 ["uploadId"; "partNumber"]) query)) then authorizationUnknown
    else if forallb (λ kv, objectPutParam query kv.1) query then authorizationWrite else authorizationUnknown
  else if eqs (Method r) "DELETE" then
    if has query "uploadId" then
      if negb (len query =? 1) || negb (queryValueNonEmpty query (txt "uploadId")) then authorizationUnknown
      else authorizationWrite
    else if forallb (λ kv, objectDeleteParam query kv.1) query then authorizationWrite else authorizationUnknown
  else if eqs (Method r) "POST" then classifyObjectPost query
  else authorizationUnknown.

(** ** Buckets *)

Definition classifyBucketOperation (r : Request) : authorizationOperation :=
  let query := operationQuery r in
  if eqs (Method r) "OPTIONS" then authorizationRead
  else if len query =? 0 then
    if isGetOrHead r then authorizationRead
    else if eqs (Method r) "PUT" then authorizationCreateBucket
    else if eqs (Method r) "DELETE" then authorizationDeleteBucket
    else authorizationUnknown
  else if isGetOrHead r then
    if queryHasAllKeys query listObjectsParams then authorizationRead
    else if queryHasAllKeys query listMultipartUploadsParams then
      (if has query "uploads" then authorizationRead else authorizationUnknown)
    else classifyBucketSelectorQuery query bucketReadSelectors inventoryIDSelectors authorizationRead
  else if eqs (Method r) "PUT" then classifyBucketSelectorQuery query bucketPutSelectors inventoryIDSelectors authorizationManageBucket
  else if eqs (Method r) "DELETE" then classifyBucketSelectorQuery query bucketDeleteSelectors inventoryIDSelectors authorizationManageBucket
  else if eqs (Method r) "POST" then
    if negb (len query =? 1) then authorizationUnknown
    else if negb (has query "delete") || queryValueNonEmpty query (txt "delete") then authorizationUnknown
    else authorizationWrite
  else authorizationUnknown.

(** ** Browser forms *)

(** What the authorizer reads of the parsed upload in the request context. *)
Record postUpload := mkUpload {
  pu_bucket : bytes; pu_key : bytes; pu_fields : option values; pu_hasFile : bool; pu_hasFileRead : bool;
  pu_authenticatedAccessKey : bytes }.
(** [postFormField(fields, name, "")]: names are compared in lower case; the
    first field the iteration meets. *)
Definition postFormField (fields : values) (name : string) : option bytes :=
  (λ kv, first kv.2) <$> find (λ kv, eqs (ToLowerB kv.1) name) fields.
Definition TrimSlashes (l : bytes) : bytes :=
  let fix go (l : bytes) : bytes := match l with "/"%byte :: l => go l | l => l end in
  reverse (go (reverse (go l))).

Section authz.
Context `{MediaTypes}.

Definition authorizationPostObjectOperation (forceQuery : bool) (r : Request) (upload : option postUpload)
    (principal : option Credential) : authorizationOperation * bytes :=
  match upload, principal with
  | Some u, Some c =>
      match pu_fields u with
      | Some fields =>
          if negb (isPostObjectRequest forceQuery r) || bool_decide (pu_authenticatedAccessKey u = []) ||
             negb (bool_decide (pu_authenticatedAccessKey u = cr_AccessKey c)) || bool_decide (pu_bucket u = []) ||
             negb (bool_decide (pu_bucket u = TrimSlashes (URLPath r))) || negb (pu_hasFile u) || negb (pu_hasFileRead u)
          then (authorizationUnknown, [])
          else match postFormField fields "key", postFormField fields "x-amz-credential" with
          | Some k, Some cred =>
              if negb (bool_decide (k = pu_key u)) || negb (HasPrefixB cred (cr_AccessKey c ++ txt "/")) then (authorizationUnknown, [])
              else match postFormField fields "bucket" with
              | Some b => if bool_decide (b = pu_bucket u) then (authorizationWrite, pu_bucket u) else (authorizationUnknown, [])
              | None => (authorizationWrite, pu_bucket u)
              end
          | _, _ => (authorizationUnknown, [])
          end
      | None => (authorizationUnknown, [])
      end
  | _, _ => (authorizationUnknown, [])
  end.

(** ** Classification *)

(** What the middleware knows beside the request. *)
Record authzContext := mkAuthz {
  az_forceQuery : bool; az_route : option bytes; az_upload : option postUpload; az_principal : option Credential }.

Definition classifyAuthorizationOperation (z : authzContext) (r : Request) : authorizationOperation * bytes :=
  let fallback :=
    let path := TrimPrefixB (URLPath r) (txt "/") in
    let parts := SplitB "/" path in
    if bool_decide (path = []) then
      (if eqs (Method r) "GET" && (len (operationQuery r) =? 0) then (authorizationListBuckets, []) else (authorizationUnknown, []))
    else
      let bucket := first parts in
      let object := (len parts >? 1) && negb (bool_decide (JoinB (txt "/") (drop 1 parts) = [])) in
      if eqs (Method r) "POST" && isPostObjectRequest (az_forceQuery z) r then
        authorizationPostObjectOperation (az_forceQuery z) r (az_upload z) (az_principal z)
      else if object then (classifyObjectAuthorizationOperation r, bucket)
      else (classifyBucketOperation r, bucket) in
  match az_route z with
  | Some name =>
      if eqs name "PostObject" then authorizationPostObjectOperation (az_forceQuery z) r (az_upload z) (az_principal z)
      else match operationPermission name with
      | Some op => (op, name)
      | None => fallback
      end
  | None => fallback
  end.

(** ** Copies *)

(** [url.PathUnescape]: a plus sign is literal. *)
Fixpoint PathUnescape (l : bytes) : option bytes :=
  match l with
  | [] => Some []
  | "%"%byte :: a :: b :: l =>
      va ← hex_val a; vb ← hex_val b; r ← PathUnescape l; Some (byte_of (va * 16 + vb) :: r)
  | "%"%byte :: _ => None
  | b :: l => r ← PathUnescape l; Some (b :: r)
  end.
Definition versionMarker : bytes := txt "?versionId=".
(** [ParseCopySource]: bucket, key and version. *)
Definition ParseCopySource (copySource : bytes) : result (bytes * bytes * option bytes) :=
  let i := indexByteString copySource versionMarker in
  let path := if i =? -1 then copySource else take (Z.to_nat i) copySource in
  let rawVersion := if i =? -1 then [] else drop (Z.to_nat (i + len versionMarker)) copySource in
  match PathUnescape path with
  | None => Err (Errorf "invalid copy source path: %w")
  | Some decoded =>
      match cut "/" (TrimPrefixB decoded (txt "/")) with
      | None => Err (Errorf "invalid copy source format")
      | Some (bucket, key) =>
          if bool_decide (bucket = []) || bool_decide (key = []) then Err (Errorf "invalid copy source format")
          else if bool_decide (rawVersion = []) then Ok (bucket, key, None)
          else match PathUnescape rawVersion with
          | None => Err (Errorf "invalid copy source version: %w")
          | Some v => Ok (bucket, key, Some v)
          end
      end
  end.

Definition copyBucketsAuthorized (c : Credential) (dstBucket srcBucket proxiedBucket : bytes) : bool :=
  if negb (AllowsBucket c dstBucket) || negb (AllowsBucket c srcBucket) then false
  else bool_decide (proxiedBucket = []) || (bool_decide (dstBucket = proxiedBucket) && bool_decide (srcBucket = proxiedBucket)).

Definition isCopyAuthorizationRoute (r : Request) : bool :=
  if negb (eqs (Method r) "PUT") then false
  else
    let query := operationQuery r in
    (len query =? 0) ||
    (has query "uploadId" && ((len query =? 1) || ((len query =? 2) && has query "partNumber"))).

(** ** The middleware *)

Inductive authzDecision := Allowed | Denied (reason : string) | InvalidCopySource.

Definition permitted (c : Credential) (op : authorizationOperation) : option string :=
  match op with
  | authorizationWrite => if CanWrite c then None else Some "read_only"
  | authorizationCreateBucket => if HasBucketPermission c BucketPermissionCreate then None else Some "bucket_create"
  | authorizationDeleteBucket => if HasBucketPermission c BucketPermissionDelete then None else Some "bucket_delete"
  | authorizationManageBucket => if HasBucketPermission c BucketPermissionManage then None else Some "bucket_manage"
  | _ => None
  end.

Definition AuthorizationMiddleware (proxiedBucket : bytes) (z : authzContext) (r : Request) : authzDecision :=
  if isSystemEndpoint (URLPath r) then Allowed
  else if isUnauthenticatedCORSPreflight r then
    let bucket := upto_any ["/"%byte] (TrimPrefixB (URLPath r) (txt "/")) in
    if negb (bool_decide (proxiedBucket = [])) && negb (bool_decide (bucket = proxiedBucket)) then Denied "bucket_scope" else Allowed
  else match az_principal z with
  | None => Denied "unknown_operation"
  | Some c =>
      let '(op, bucket) := classifyAuthorizationOperation z r in
      if decide (op = authorizationUnknown) then Denied "unknown_operation"
      else if decide (op = authorizationListBuckets) then
        if negb (bool_decide (ap_Permissions (cr_Policy c) = ObjectPermissionReadOnly)) &&
           negb (bool_decide (ap_Permissions (cr_Policy c) = ObjectPermissionReadWrite)) then Denied "read_only" else Allowed
      else if bool_decide (bucket = []) || negb (AllowsBucket c bucket) ||
              (negb (bool_decide (proxiedBucket = [])) && negb (bool_decide (bucket = proxiedBucket))) then Denied "bucket_scope"
      else match permitted c op with
      | Some reason => Denied reason
      | None =>
          let copySource := HGet r "X-Amz-Copy-Source" in
          if bool_decide (op = authorizationWrite) && isCopyAuthorizationRoute r && negb (bool_decide (copySource = [])) then
            match ParseCopySource copySource with
            | Err _ => InvalidCopySource
            | Ok (sourceBucket, _, _) =>
                if copyBucketsAuthorized c bucket sourceBucket proxiedBucket then Allowed else Denied "bucket_scope"
            end
          else Allowed
      end
  end.

(** [authorizeCopyOperation] of the copy handlers. *)
Definition ErrAccessDenied : error := Sentinel "access denied".
Definition authorizeCopyOperation (proxiedBucket : bytes) (principal : option Credential) (dstBucket copySource : bytes) : option error :=
  let parsed := ParseCopySource copySource in
  match principal with
  | None => match parsed with Err e => Some e | Ok _ => None end
  | Some c =>
      if negb (CanWrite c) then Some ErrAccessDenied
      else match parsed with
      | Err e => Some e
      | Ok (srcBucket, _, _) => if copyBucketsAuthorized c dstBucket srcBucket proxiedBucket then None else Some ErrAccessDenied
      end
  end.
End authz.

(** ** What the classification means *)

Definition safeMethod (r : Request) : Prop :=
  Method r = txt "GET" ∨ Method r = txt "HEAD" ∨ Method r = txt "OPTIONS".
(** SelectObjectContent: the only read with a body. *)
Definition selectOnly (r : Request) : Prop :=
  Method r = txt "POST" ∧ operationQuery r ≠ [] ∧
  Forall (λ kv, kv.1 = txt "select" ∨ kv.1 = txt "select-type") (operationQuery r).

(** What an operation says about the request it was read from. *)
Definition op_meaning (r : Request) (op : authorizationOperation) : Prop :=
  match op with
  | authorizationUnknown => True
  | authorizationRead | authorizationListBuckets => safeMethod r ∨ selectOnly r
  | authorizationWrite => Method r = txt "PUT" ∨ Method r = txt "DELETE" ∨ Method r = txt "POST"
  | authorizationCreateBucket => Method r = txt "PUT" ∧ operationQuery r = []
  | authorizationDeleteBucket => Method r = txt "DELETE" ∧ operationQuery r = []
  | authorizationManageBucket => (Method r = txt "PUT" ∨ Method r = txt "DELETE") ∧ operationQuery r ≠ []
  end.

Lemma eqs_true b s : eqs b s = true → b = txt s.
Proof. apply bool_decide_eq_true_1. Qed.

Lemma selector_cases query sel ids base :
  classifyBucketSelectorQuery query sel ids base = authorizationUnknown ∨
  classifyBucketSelectorQuery query sel ids base = base.
Proof. unfold classifyBucketSelectorQuery. repeat case_match; auto. Qed.

Lemma len_zero {A} (l : list A) : (len l =? 0) = true → l = [].
Proof. intros ?%Z.eqb_eq. apply length_zero_iff_nil. lia. Qed.
Lemma len_nonzero {A} (l : list A) : (len l =? 0) = false → l ≠ [].
Proof. intros ?%Z.eqb_neq ->. by cbn in *. Qed.

Lemma selectLoop_None query : selectLoop query = None →
  Forall (λ kv, kv.1 = txt "select" ∨ kv.1 = txt "select-type") query.
Proof.
  induction query as [|[k v] query IH]; [constructor|]. cbn [selectLoop].
  destruct (_ && _) eqn:E; [by case_match|]. intros ?%IH. constructor; [|done]. cbn.
  apply andb_false_iff in E as [E|E]; zbool; apply eqs_true in E; auto.
Qed.
Lemma selectLoop_Some query op : selectLoop query = Some op → op = authorizationWrite ∨ op = authorizationUnknown.
Proof.
  induction query as [|[k v] query IH]; [done|]. cbn [selectLoop]. repeat case_match; intros; simplify_eq; auto.
Qed.

Lemma classifyObjectPost_meaning r : Method r = txt "POST" → op_meaning r (classifyObjectPost (operationQuery r)).
Proof.
  intros Hm. unfold classifyObjectPost. destruct (len (operationQuery r) =? 0) eqn:E0; [done|].
  destruct (has _ "select" || has _ "select-type").
  - destruct (selectLoop (operationQuery r)) as [op|] eqn:Es.
    + apply selectLoop_Some in Es as [->| ->]; cbn; auto.
    + repeat case_match; cbn; auto. right. split_and!; [done|by apply len_nonzero|by apply selectLoop_None].
  - repeat case_match; cbn; auto.
Qed.

Ltac methods :=
  repeat match goal with
  | H : eqs _ _ = true |- _ => apply eqs_true in H
  | H : isGetOrHead _ = true |- _ => unfold isGetOrHead in H; apply orb_prop in H as [H|H]
  end.

Lemma classifyObject_meaning r : op_meaning r (classifyObjectAuthorizationOperation r).
Proof.
  unfold classifyObjectAuthorizationOperation. cbv zeta.
  destruct (eqs (Method r) "OPTIONS") eqn:E1; [methods; left; unfold safeMethod; auto|].
  destruct (isGetOrHead r) eqn:E2; [repeat case_match; try done; methods; left; unfold safeMethod; auto|].
  destruct (eqs (Method r) "PUT") eqn:E3; [repeat case_match; try done; methods; cbn; auto|].
  destruct (eqs (Method r) "DELETE") eqn:E4; [repeat case_match; try done; methods; cbn; auto|].
  destruct (eqs (Method r) "POST") eqn:E5; [|done]. methods. by apply classifyObjectPost_meaning.
Qed.

Lemma classifyBucket_meaning r : op_meaning r (classifyBucketOperation r).
Proof.
  unfold classifyBucketOperation. cbv zeta.
  destruct (eqs (Method r) "OPTIONS") eqn:E1; [methods; left; unfold safeMethod; auto|].
  destruct (len (operationQuery r) =? 0) eqn:E0.
  { apply len_zero in E0. destruct (isGetOrHead r) eqn:E2; [methods; left; unfold safeMethod; auto|].
    destruct (eqs (Method r) "PUT") eqn:E3; [methods; by split|].
    destruct (eqs (Method r) "DELETE") eqn:E4; [methods; by split|done]. }
  apply len_nonzero in E0.
  destruct (isGetOrHead r) eqn:E2.
  { assert (op_meaning r authorizationRead) by (methods; left; unfold safeMethod; auto).
    destruct (queryHasAllKeys _ listObjectsParams); [done|].
    destruct (queryHasAllKeys _ listMultipartUploadsParams); [by case_match|].
    destruct (selector_cases (operationQuery r) bucketReadSelectors inventoryIDSelectors authorizationRead) as [-> | ->]; done. }
  destruct (eqs (Method r) "PUT") eqn:E3.
  { methods. destruct (selector_cases (operationQuery r) bucketPutSelectors inventoryIDSelectors authorizationManageBucket)
      as [-> | ->]; [done|]. split; auto. }
  destruct (eqs (Method r) "DELETE") eqn:E4.
  { methods. destruct (selector_cases (operationQuery r) bucketDeleteSelectors inventoryIDSelectors authorizationManageBucket)
      as [-> | ->]; [done|]. split; auto. }
  destruct (eqs (Method r) "POST") eqn:E5; [|done]. methods. repeat case_match; cbn; auto.
Qed.

(** The bucket of a path-style request: its first segment. *)
Definition pathBucket (r : Request) : bytes := first (SplitB "/" (TrimPrefixB (URLPath r) (txt "/"))).

Section theorems.
Context `{MediaTypes}.

Lemma classify_meaning z r op bucket :
  az_route z = None → isPostObjectRequest (az_forceQuery z) r = false →
  classifyAuthorizationOperation z r = (op, bucket) →
  op_meaning r op ∧ (op = authorizationListBuckets → Method r = txt "GET" ∧ operationQuery r = []) ∧
  (op ≠ authorizationUnknown → op ≠ authorizationListBuckets → bucket = pathBucket r).
Proof.
  intros Hr Hp. unfold classifyAuthorizationOperation, pathBucket. rewrite Hr, Hp, andb_false_r.
  destruct (bool_decide _) eqn:E1.
  - destruct (_ && _) eqn:E2; intros [= <- <-]; [|done]. apply andb_prop in E2 as [E2 E3].
    apply eqs_true in E2. apply len_zero in E3. split_and!; [left; by left|done|done].
  - destruct (_ && _) eqn:E2; intros [= <- <-].
    + pose proof (classifyObject_meaning r) as Hm. split_and!; [done| |done]. intros E.
      exfalso. clear Hm. unfold classifyObjectAuthorizationOperation, classifyObjectPost in E. cbv zeta in E.
      repeat case_match; try done. by match goal with Hs : selectLoop _ = Some _ |- _ => apply selectLoop_Some in Hs as [-> | ->] end.
    + pose proof (classifyBucket_meaning r) as Hm. split_and!; [done| |done]. intros E.
      exfalso. clear Hm. unfold classifyBucketOperation in E. cbv zeta in E.
      repeat match type of E with (if ?b then _ else _) = _ => destruct b end; try done;
        match type of E with classifyBucketSelectorQuery ?q ?s ?i ?b = _ =>
          destruct (selector_cases q s i b) as [E'|E']; rewrite E' in E; done end.
Qed.

(** The right a bucket-level or object-level request needs. *)
Definition entitled (c : Credential) (r : Request) : Prop :=
  safeMethod r ∨ selectOnly r ∨ CanWrite c = true ∨
  (Method r = txt "PUT" ∧ operationQuery r = [] ∧ HasBucketPermission c BucketPermissionCreate = true) ∨
  (Method r = txt "DELETE" ∧ operationQuery r = [] ∧ HasBucketPermission c BucketPermissionDelete = true) ∨
  ((Method r = txt "PUT" ∨ Method r = txt "DELETE") ∧ operationQuery r ≠ [] ∧
   HasBucketPermission c BucketPermissionManage = true).

Lemma entitled_of_op c r op :
  op_meaning r op → op ≠ authorizationUnknown → permitted c op = None → entitled c r.
Proof.
  unfold entitled. destruct op; cbn [op_meaning permitted]; intros Hm Hu Hp; try done.
  - destruct Hm; auto.
  - destruct (CanWrite c); [auto|done].
  - destruct Hm. destruct (HasBucketPermission c BucketPermissionCreate); [auto 8|done].
  - destruct Hm. destruct (HasBucketPermission c BucketPermissionDelete); [auto 8|done].
  - destruct Hm. destruct (HasBucketPermission c BucketPermissionManage); [|done]. auto 9.
  - destruct Hm; auto.
Qed.

Lemma scope_ok (proxied b : bytes) :
  negb (bool_decide (proxied = [])) && negb (bool_decide (b = proxied)) = false → proxied = [] ∨ b = proxied.
Proof.
  intros E. apply andb_false_iff in E as [E|E]; zbool; apply bool_decide_eq_true_1 in E; auto.
Qed.

End theorems.

Module AuthzToy.
Import AuthnToy.
Definition reader : Credential :=
  match LookupCredential (Replace CredWitness.env CredWitness.creds None).2 (txt "AK") with
  | Ok c => c
  | Err _ => mkCredential [] [] [] (mkPolicy (Some []) [] [] None) [] None
  end.
Definition req (m path q : string) : Request :=
  mkRequest (txt m) (txt path) (txt path) (txt q) (txt "gw.local") 0 [] (src_of []).
Definition z : authzContext := mkAuthz false None None (Some reader).
End AuthzToy.
Import AuthnToy AuthzToy.

