(* ===== verification/Policy.v ===== *)
(** * Bucket policies ([internal/config/policy.go], [internal/api/object_read_policy.go])

    Per-bucket overrides: loading from files and from indexed environment
    variables, the atomic replacement of the whole set, the decisions the
    handlers take from the first matching policy. The file system and the
    YAML decoder are the record [PolicyWorld]; the glob matcher of go-glob is the
    class [BucketGlob]; the process environment is an association list, so
    that the unbounded loop over [GW_POLICY_n_ID] can be shown to end. *)
From S2P Require Import Prelude GoStd GoText Http Primitives.
Local Open Scope Z_scope.

(** ** Data *)

(** The fields policies override; everything else of the configuration
    structs is kept in one value. *)
Record KeyManagerConfig := mkKMConfig { kmc_Enabled : bool; kmc_Provider : bytes; kmc_rest : bytes }.
Record EncryptionConfig := mkEncConfig {
  ec_Password : bytes; ec_PreferredAlgorithm : bytes; ec_KeyManager : KeyManagerConfig; ec_rest : bytes }.
Record RateLimitConfig := mkRateLimit { rl_Enabled : bool; rl_Limit : Z; rl_Window : Z }.
Record Config := mkConfig { cfg_Encryption : EncryptionConfig; cfg_RateLimit : RateLimitConfig; cfg_rest : bytes }.
Definition zeroEncryption : EncryptionConfig := mkEncConfig [] [] (mkKMConfig false [] []) [].

Record PolicyConfig := mkPolicyConfig {
  pol_ID : bytes; pol_Buckets : list bytes; pol_Encryption : option EncryptionConfig; pol_RateLimit : option RateLimitConfig;
  pol_RequireEncryption : bool; pol_DisableEncryption : bool; pol_DisallowLockBypass : bool;
  pol_EncryptMultipartUploads : option bool }.

Record PolicyManager := mkManager { pm_policies : list PolicyConfig }.
Definition NewPolicyManager : PolicyManager := mkManager [].

Class BucketGlob := { Glob : bytes → bytes → bool }.

(** ** Loading *)

Record PolicyWorld := mkPolicyWorld {
  pw_glob : bytes → result (list bytes); pw_ReadFile : bytes → result bytes; pw_Unmarshal : bytes → result PolicyConfig;
  pw_ParseDuration : bytes → option Z; pw_environ : list (bytes * bytes) }.

Definition Getenv (w : PolicyWorld) (name : bytes) : bytes :=
  default [] (snd <$> find (λ kv, bool_decide (kv.1 = name)) (pw_environ w)).

(** The validation of a policy that was parsed from a file. *)
Definition checkPolicy (p : PolicyConfig) : option error :=
  if bool_decide (pol_ID p = []) then Some (Errorf "policy in file %s must have an ID")
  else if bool_decide (pol_Buckets p = []) then Some (Errorf "policy %s must specify at least one bucket pattern")
  else if pol_DisableEncryption p && pol_RequireEncryption p
  then Some (Errorf "policy %q: disable_encryption and require_encryption are mutually exclusive")
  else None.

Fixpoint loadFiles (w : PolicyWorld) (files : list bytes) (policies : list PolicyConfig) : result (list PolicyConfig) :=
  match files with
  | [] => Ok policies
  | f :: files =>
      match pw_ReadFile w f with
      | Err e => Err (Wrapf "failed to read policy file %s: %w" e)
      | Ok data =>
          match pw_Unmarshal w data with
          | Err e => Err (Wrapf "failed to parse policy file %s: %w" e)
          | Ok p =>
              match checkPolicy p with
              | Some e => Err e
              | None => loadFiles w files (policies ++ [p])
              end
          end
      end
  end.
Fixpoint loadPatterns (w : PolicyWorld) (patterns : list bytes) (policies : list PolicyConfig) : result (list PolicyConfig) :=
  match patterns with
  | [] => Ok policies
  | pattern :: patterns =>
      match pw_glob w pattern with
      | Err e => Err (Wrapf "failed to glob pattern %s: %w" e)
      | Ok files =>
          match loadFiles w files policies with
          | Err e => Err e
          | Ok policies => loadPatterns w patterns policies
          end
      end
  end.

Definition PolicySnapshot := list PolicyConfig.
Definition ReplaceSnapshot (snapshot : PolicySnapshot) (pm : PolicyManager) : PolicyManager := mkManager snapshot.

Definition LoadPolicies (w : PolicyWorld) (patterns : list bytes) (pm : PolicyManager) : option error * PolicyManager :=
  match loadPatterns w patterns [] with
  | Err e => (Some e, pm)
  | Ok policies => (None, ReplaceSnapshot policies pm)
  end.

(** *** Environment *)

Definition splitTrimmed (s : bytes) (sep : byte) : list bytes := TrimSpaceB <$> SplitB sep s.

Definition policyVar (i : Z) (field : string) : bytes := txt "GW_POLICY_" ++ FormatInt_bytes i ++ txt ("_" ++ field)%string.
Definition truthy (v : bytes) : bool := eqs v "true" || eqs v "1".
Definition isSet (v : bytes) : bool := negb (bool_decide (v = [])).

Definition envRateLimit (w : PolicyWorld) (enabled req win : bytes) : RateLimitConfig :=
  mkRateLimit (truthy enabled)
    (match ParseInt_bytes req with Some n => if n >? 0 then n else 0 | None => 0 end)
    (default 0 (pw_ParseDuration w win)).

Definition envPolicy (w : PolicyWorld) (i : Z) (id : bytes) : result PolicyConfig :=
  let var f := Getenv w (policyVar i f) in
  if negb (isSet (var "BUCKETS")) then Err (Errorf "GW_POLICY_%d_BUCKETS must specify at least one pattern")
  else
    let disable := isSet (var "DISABLE_ENCRYPTION") && truthy (var "DISABLE_ENCRYPTION") in
    let require := isSet (var "REQUIRE_ENCRYPTION") && truthy (var "REQUIRE_ENCRYPTION") in
    let bypass := isSet (var "DISALLOW_LOCK_BYPASS") && truthy (var "DISALLOW_LOCK_BYPASS") in
    let mpu := if isSet (var "ENCRYPT_MULTIPART_UPLOADS") then Some (truthy (var "ENCRYPT_MULTIPART_UPLOADS")) else None in
    let pwd := var "ENCRYPTION_PASSWORD" in
    let alg := var "ENCRYPTION_ALGORITHM" in
    let enc := if isSet pwd || isSet alg then Some (mkEncConfig pwd alg (mkKMConfig false [] []) []) else None in
    let rlEnabled := var "RATE_LIMIT_ENABLED" in
    let rlReq := var "RATE_LIMIT_REQUESTS" in
    let rlWin := var "RATE_LIMIT_WINDOW" in
    let rl := if isSet rlEnabled || isSet rlReq || isSet rlWin then Some (envRateLimit w rlEnabled rlReq rlWin) else None in
    if disable && require then Err (Errorf "GW_POLICY_%d (%q): disable_encryption and require_encryption are mutually exclusive")
    else Ok (mkPolicyConfig id (splitTrimmed (var "BUCKETS") ",") enc rl require disable bypass mpu).

(** The loop over [i]; [None] means that the fuel was used up. *)
Fixpoint envLoop (fuel : nat) (w : PolicyWorld) (i : Z) (policies : list PolicyConfig) : option (result (list PolicyConfig)) :=
  match fuel with
  | O => None
  | S f =>
      let id := Getenv w (policyVar i "ID") in
      if negb (isSet id) then Some (Ok policies)
      else match envPolicy w i id with
      | Err e => Some (Err e)
      | Ok p => envLoop f w (i + 1) (policies ++ [p])
      end
  end.
Definition LoadPoliciesFromEnv (w : PolicyWorld) (pm : PolicyManager) : option (option error * PolicyManager) :=
  match envLoop (S (length (pw_environ w))) w 0 [] with
  | None => None
  | Some (Err e) => Some (Some e, pm)
  | Some (Ok policies) => Some (None, mkManager (pm_policies pm ++ policies))
  end.

(** *** Snapshots and live reload *)

Definition loadPolicySnapshot (w : PolicyWorld) (patterns : list bytes) : option (result PolicySnapshot) :=
  match LoadPolicies w patterns NewPolicyManager with
  | (Some e, _) => Some (Err (Wrapf "load policy files: %w" e))
  | (None, candidate) =>
      match LoadPoliciesFromEnv w candidate with
      | None => None
      | Some (Some e, _) => Some (Err (Wrapf "load environment policies: %w" e))
      | Some (None, candidate) => Some (Ok (pm_policies candidate))
      end
  end.
Definition ReloadPolicies (w : PolicyWorld) (patterns : list bytes) (pm : PolicyManager) : option (option error * PolicyManager) :=
  match loadPolicySnapshot w patterns with
  | None => None
  | Some (Err e) => Some (Some e, pm)
  | Some (Ok snapshot) => Some (None, ReplaceSnapshot snapshot pm)
  end.
Definition ResetPolicies (pm : PolicyManager) : PolicyManager := mkManager [].

(** ** Decisions *)

Section decisions.
Context `{BucketGlob}.

Definition matchesBucket (bucket : bytes) (p : PolicyConfig) : bool := existsb (λ pat, Glob pat bucket) (pol_Buckets p).
Definition GetPolicyForBucket (pm : PolicyManager) (bucket : bytes) : option PolicyConfig :=
  find (matchesBucket bucket) (pm_policies pm).
Definition BucketRequiresEncryption (pm : option PolicyManager) (bucket : bytes) : bool :=
  match pm with
  | None => false
  | Some pm => match GetPolicyForBucket pm bucket with Some p => pol_RequireEncryption p | None => false end
  end.
Definition BucketDisablesEncryption (pm : option PolicyManager) (bucket : bytes) : bool :=
  match pm with
  | None => false
  | Some pm => match GetPolicyForBucket pm bucket with Some p => pol_DisableEncryption p | None => false end
  end.
Definition BucketEncryptsMultipart (pm : option PolicyManager) (bucket : bytes) : bool :=
  match pm with
  | None => true
  | Some pm =>
      match GetPolicyForBucket pm bucket with
      | None => true
      | Some p => if pol_DisableEncryption p then false else default true (pol_EncryptMultipartUploads p)
      end
  end.
Definition AnyPolicyRequiresMPUEncryption (pm : option PolicyManager) : bool :=
  match pm with
  | None => false
  | Some pm => existsb (λ p, match pol_EncryptMultipartUploads p with None => true | Some b => b end) (pm_policies pm)
  end.
(** Any matching policy, not only the first one. *)
Definition BucketDisallowsLockBypass (pm : PolicyManager) (bucket : bytes) : bool :=
  existsb (λ p, existsb (λ b, Glob b bucket && pol_DisallowLockBypass p) (pol_Buckets p)) (pm_policies pm).

Definition ApplyToConfig (p : PolicyConfig) (base : Config) : Config :=
  let c := match pol_Encryption p with
    | Some e =>
        let enc := cfg_Encryption base in
        mkConfig (mkEncConfig (if isSet (ec_Password e) then ec_Password e else ec_Password enc)
          (if isSet (ec_PreferredAlgorithm e) then ec_PreferredAlgorithm e else ec_PreferredAlgorithm enc)
          (if kmc_Enabled (ec_KeyManager e) || isSet (kmc_Provider (ec_KeyManager e)) then ec_KeyManager e else ec_KeyManager enc)
          (ec_rest enc)) (cfg_RateLimit base) (cfg_rest base)
    | None => base
    end in
  match pol_RateLimit p with
  | Some rl => mkConfig (cfg_Encryption c) rl (cfg_rest c)
  | None => c
  end.

Definition errPlaintextReadForbidden : error := Sentinel "plaintext object read forbidden by bucket encryption policy".
Definition enforceObjectReadPolicy (pm : option PolicyManager) (bucket : bytes) (encrypted : bool) : option error :=
  if negb encrypted && BucketRequiresEncryption pm bucket then Some errPlaintextReadForbidden else None.

End decisions.

(** ** Well-formed policies *)

(** What the rest of the gateway relies on. *)
Definition wf_policy (p : PolicyConfig) : Prop :=
  pol_ID p ≠ [] ∧ pol_Buckets p ≠ [] ∧ ¬ (pol_DisableEncryption p = true ∧ pol_RequireEncryption p = true).

Lemma checkPolicy_wf p : checkPolicy p = None ↔ wf_policy p.
Proof.
  unfold checkPolicy, wf_policy. repeat case_bool_decide; try (split; naive_solver).
  destruct (pol_DisableEncryption p), (pol_RequireEncryption p); cbn; split; naive_solver.
Qed.

(** ** Loading files *)

Section load.
Context (w : PolicyWorld).

(** A file that can be read, decodes to the policy, and is valid. *)
Definition policy_file (f : bytes) (p : PolicyConfig) : Prop :=
  (∃ data, pw_ReadFile w f = Ok data ∧ pw_Unmarshal w data = Ok p) ∧ wf_policy p.

Lemma bad_file f files new :
  Forall2 policy_file (f :: files) new →
  ∃ data p, pw_ReadFile w f = Ok data ∧ pw_Unmarshal w data = Ok p ∧ wf_policy p.
Proof. intros (p & new' & ((data & Hd & Hp) & Hw) & _ & _)%Forall2_cons_inv_l. eauto. Qed.

Lemma loadFiles_spec files acc ps :
  loadFiles w files acc = Ok ps ↔ ∃ new, ps = acc ++ new ∧ Forall2 policy_file files new.
Proof.
  revert acc. induction files as [|f files IH]; intros acc; cbn.
  - split; [intros [= <-]; exists []; by rewrite app_nil_r|].
    intros (new & -> & ->%Forall2_nil_inv_l). by rewrite app_nil_r.
  - destruct (pw_ReadFile w f) as [data|e] eqn:Hr; [|split; [done|]; intros (new & _ & Hn); apply bad_file in Hn as (? & ? & ? & ? & ?); congruence].
    destruct (pw_Unmarshal w data) as [p|e] eqn:Hu; [|split; [done|]; intros (new & _ & Hn); apply bad_file in Hn as (? & ? & ? & ? & ?); congruence].
    destruct (checkPolicy p) eqn:Hc.
    { split; [done|]. intros (new & _ & Hn). apply bad_file in Hn as (d & q & Hd & Hq & Hw%checkPolicy_wf). congruence. }
    apply checkPolicy_wf in Hc. rewrite IH. split.
    + intros (new & -> & Hn). exists (p :: new). rewrite <- app_assoc. split; [done|]. constructor; [|done]. split; eauto.
    + intros (new & -> & (p' & new' & ((data' & Hd & Hp) & Hw) & Hn' & ->)%Forall2_cons_inv_l). simplify_eq. exists new'. split; [|done]. rewrite <- app_assoc. cbn. congruence.
Qed.

Lemma loadPatterns_spec patterns acc ps :
  loadPatterns w patterns acc = Ok ps ↔
  ∃ fss new, Forall2 (λ pat fs, pw_glob w pat = Ok fs) patterns fss ∧ ps = acc ++ new ∧ Forall2 policy_file (concat fss) new.
Proof.
  revert acc. induction patterns as [|pat patterns IH]; intros acc; cbn.
  - split; [intros [= <-]; exists [], []; rewrite app_nil_r; repeat constructor|].
    intros (fss & new & ->%Forall2_nil_inv_l & -> & ->%Forall2_nil_inv_l). by rewrite app_nil_r.
  - destruct (pw_glob w pat) as [fs|e] eqn:Hg; [|split; [done|]; intros (? & ? & (? & ? & ? & _ & _)%Forall2_cons_inv_l & _); congruence].
    destruct (loadFiles w fs acc) as [ps1|e] eqn:Hf.
    + apply loadFiles_spec in Hf as (n1 & -> & H1). rewrite IH. split.
      * intros (fss & n2 & Hp & -> & H2). exists (fs :: fss), (n1 ++ n2). rewrite app_assoc. split; [by constructor|]. split; [done|].
        by apply Forall2_app.
      * intros (fss & new & Hp & -> & Hn). apply Forall2_cons_inv_l in Hp as (fs' & fss' & Hg' & Hp' & ->). rewrite Hg in Hg'. injection Hg' as <-. cbn in Hn.
        apply Forall2_app_inv_l in Hn as (m1 & m2 & Hm1 & Hm2 & ->).
        assert (m1 = n1) as ->.
        { assert (loadFiles w fs acc = Ok (acc ++ m1)) as E1 by (apply loadFiles_spec; by eexists).
          assert (loadFiles w fs acc = Ok (acc ++ n1)) as E2 by (apply loadFiles_spec; by eexists).
          rewrite E1 in E2. injection E2 as E2. by apply app_inv_head in E2. }
        exists fss', m2. split; [done|]. split; [|done]. by rewrite app_assoc.
    + split; [done|]. intros (fss & new & Hp & -> & Hn). apply Forall2_cons_inv_l in Hp as (fs' & fss' & Hg' & Hp' & ->). rewrite Hg in Hg'. injection Hg' as <-. cbn in Hn.
      apply Forall2_app_inv_l in Hn as (m1 & m2 & Hm1 & Hm2 & ->).
      assert (loadFiles w fs acc = Ok (acc ++ m1)) by (apply loadFiles_spec; by eexists). congruence.
Qed.

(** ** Loading the environment *)

Lemma Getenv_bound name : Getenv w name ≠ [] → name ∈ (pw_environ w).*1.
Proof.
  unfold Getenv. destruct (find _ _) as [[k v]|] eqn:Hf; [|done]. intros _.
  apply find_some in Hf as [Hin%list_elem_of_In Hk%bool_decide_eq_true]. cbn in Hk. subst. apply list_elem_of_fmap. by exists (name, v).
Qed.

Lemma policyVar_inj i j f : 0 ≤ i ≤ MaxInt64 → 0 ≤ j ≤ MaxInt64 → policyVar i f = policyVar j f → i = j.
Proof.
  intros Hi Hj E. unfold policyVar in E. apply app_inv_head, app_inv_tail in E.
  apply (f_equal ParseInt_bytes) in E. rewrite !ParseInt_FormatInt in E by done. congruence.
Qed.

Lemma envLoop_out_of_fuel fuel i acc :
  envLoop fuel w i acc = None → ∀ j, (j < fuel)%nat → Getenv w (policyVar (i + Z.of_nat j) "ID") ≠ [].
Proof.
  revert i acc. induction fuel as [|fuel IH]; intros i acc; [lia|]. cbn [envLoop]. unfold isSet.
  case_bool_decide as Hid; cbn; [done|].
  destruct (envPolicy w i _) as [p|e]; [|done]. intros Hl j Hj. destruct j as [|j]; [by rewrite Z.add_0_r|].
  replace (i + Z.of_nat (S j)) with (i + 1 + Z.of_nat j) by lia. apply (IH _ _ Hl). lia.
Qed.

Lemma envLoop_terminates acc :
  len (pw_environ w) < MaxInt64 → envLoop (S (length (pw_environ w))) w 0 acc ≠ None.
Proof.
  intros Hlen Hl. pose proof (envLoop_out_of_fuel _ _ _ Hl) as Hset. clear Hl.
  set (names := (λ j, policyVar (Z.of_nat j) "ID") <$> seq 0 (S (length (pw_environ w)))).
  assert (NoDup names) as Hnd.
  { apply NoDup_fmap_2_strong; [|apply NoDup_seq]. intros a b [_ Ha]%elem_of_seq [_ Hb]%elem_of_seq E.
    apply Nat2Z.inj. apply (policyVar_inj (Z.of_nat a) (Z.of_nat b) "ID"); [lia..|exact E]. }
  assert (names ⊆+ (pw_environ w).*1) as Hsub.
  { apply NoDup_submseteq; [done|]. intros x (j & -> & [_ Hj]%elem_of_seq)%list_elem_of_fmap. apply Getenv_bound.
    specialize (Hset j). rewrite Z.add_0_l in Hset. apply Hset. lia. }
  apply submseteq_length in Hsub. unfold names in Hsub. rewrite !length_fmap, length_seq in Hsub. lia.
Qed.

(** The policies of the variables from index [i] up to the first missing one. *)
Definition env_policies (i : Z) (ps : list PolicyConfig) : Prop :=
  Getenv w (policyVar (i + len ps) "ID") = [] ∧
  ∀ j p, ps !! j = Some p → let i := i + Z.of_nat j in
    Getenv w (policyVar i "ID") ≠ [] ∧ envPolicy w i (Getenv w (policyVar i "ID")) = Ok p.

Lemma envLoop_spec fuel i acc ps :
  envLoop fuel w i acc = Some (Ok ps) → ∃ new, ps = acc ++ new ∧ env_policies i new.
Proof.
  revert i acc. induction fuel as [|fuel IH]; intros i acc; [done|]. cbn [envLoop]. unfold isSet.
  case_bool_decide as Hid; cbn.
  - intros [= <-]. exists []. rewrite app_nil_r. split; [done|]. split; [by rewrite Z.add_0_r|]. intros j p. by rewrite lookup_nil.
  - destruct (envPolicy w i _) as [p|e] eqn:Hp; [|done]. intros (new & -> & Hend & Hnew)%IH.
    exists (p :: new). rewrite <- app_assoc. split; [done|]. split.
    + rewrite <- Hend. do 2 f_equal. cbn [length]. lia.
    + intros [|j] q Hq; cbn in Hq |- *; simplify_eq; [rewrite Z.add_0_r; done|].
      destruct (Hnew j q Hq) as [H1 H2]. replace (i + Z.of_nat (S j)) with (i + 1 + Z.of_nat j) by lia. by split; [exact H1|exact H2].
Qed.

Lemma envPolicy_wf i id p : id ≠ [] → envPolicy w i id = Ok p → wf_policy p.
Proof.
  intros Hid. unfold envPolicy. destruct (negb _); [done|].
  destruct (isSet (Getenv w (policyVar i "DISABLE_ENCRYPTION")) && _) eqn:Hd,
    (isSet (Getenv w (policyVar i "REQUIRE_ENCRYPTION")) && _) eqn:Hr; cbn [andb]; intros [= <-];
    (split; [done|]; split; [|cbn; naive_solver]); cbn; unfold splitTrimmed, SplitB;
    destruct (split_bytes _ _ _) eqn:E; try done; exfalso; revert E; apply split_bytes_nonempty.
Qed.

Lemma env_policies_wf i ps : env_policies i ps → Forall wf_policy ps.
Proof.
  intros [_ Hps]. apply Forall_lookup. intros j p Hj. destruct (Hps j p Hj) as [Hid Hp]. by eapply envPolicy_wf.
Qed.

End load.
#[global] Arguments policyVar : simpl never.
#[global] Arguments envPolicy : simpl never.

(** ** Reload and reachable policy sets *)

Lemma LoadPolicies_wf w patterns pm err pm' :
  LoadPolicies w patterns pm = (err, pm') → Forall wf_policy (pm_policies pm) → Forall wf_policy (pm_policies pm').
Proof.
  unfold LoadPolicies. destruct (loadPatterns w patterns []) as [ps|e] eqn:Hl; intros [= <- <-]; [|done]. intros _.
  apply loadPatterns_spec in Hl as (fss & new & _ & -> & Hn). cbn.
  apply Forall_lookup. intros j p Hj. destruct (Forall2_lookup_r _ _ _ _ _ Hn Hj) as (f & _ & _ & Hw). exact Hw.
Qed.

Lemma LoadPoliciesFromEnv_wf w pm err pm' :
  LoadPoliciesFromEnv w pm = Some (err, pm') → Forall wf_policy (pm_policies pm) → Forall wf_policy (pm_policies pm').
Proof.
  unfold LoadPoliciesFromEnv. destruct (envLoop _ _ _ _) as [[ps|e]|] eqn:Hl; intros [= <- <-] Hw; [|done].
  apply envLoop_spec in Hl as (new & -> & Hn). apply Forall_app. split; [done|]. by eapply env_policies_wf.
Qed.

Lemma loadPolicySnapshot_wf w patterns snapshot :
  loadPolicySnapshot w patterns = Some (Ok snapshot) → Forall wf_policy snapshot.
Proof.
  unfold loadPolicySnapshot. destruct (LoadPolicies w patterns NewPolicyManager) as [[e|] pm] eqn:Hl; [done|].
  destruct (LoadPoliciesFromEnv w pm) as [[[e|] pm']|] eqn:He; intros [= <-].
  apply (LoadPoliciesFromEnv_wf _ _ _ _ He). apply (LoadPolicies_wf _ _ _ _ _ Hl). constructor.
Qed.

(** Everything that changes the live set, each time with files and
    environment of that moment. *)
Inductive policy_step : PolicyManager → PolicyManager → Prop :=
| step_load w patterns pm err pm' : LoadPolicies w patterns pm = (err, pm') → policy_step pm pm'
| step_env w pm err pm' : LoadPoliciesFromEnv w pm = Some (err, pm') → policy_step pm pm'
| step_reload w patterns pm err pm' : ReloadPolicies w patterns pm = Some (err, pm') → policy_step pm pm'
| step_publish w patterns snapshot pm :
    loadPolicySnapshot w patterns = Some (Ok snapshot) → policy_step pm (ReplaceSnapshot snapshot pm)
| step_reset pm : policy_step pm (ResetPolicies pm).

Lemma policy_step_wf pm pm' : policy_step pm pm' → Forall wf_policy (pm_policies pm) → Forall wf_policy (pm_policies pm').
Proof.
  intros [w ? ? ? ? Hl|w ? ? ? Hl|w ? ? ? ? Hl|w ? ? ? Hl|?] Hw.
  - by eapply LoadPolicies_wf.
  - by eapply LoadPoliciesFromEnv_wf.
  - unfold ReloadPolicies in Hl. destruct (loadPolicySnapshot _ _) as [[s|e]|] eqn:Hs; simplify_eq; [|done].
    by apply loadPolicySnapshot_wf in Hs.
  - by apply loadPolicySnapshot_wf in Hl.
  - constructor.
Qed.

Lemma reachable_wf pm : rtc policy_step NewPolicyManager pm → Forall wf_policy (pm_policies pm).
Proof.
  intros Hr. assert (Forall wf_policy (pm_policies NewPolicyManager)) as H0 by constructor.
  revert H0. induction Hr as [|??? Hs _ IH]; [done|]. intros H0. apply IH. by eapply policy_step_wf.
Qed.

(** ** Theorems *)

Section theorems.
Context `{BucketGlob}.

Lemma GetPolicyForBucket_first pm b p :
  GetPolicyForBucket pm b = Some p → ∃ pre post, pm_policies pm = pre ++ p :: post ∧ matchesBucket b p = true ∧
    Forall (λ q, matchesBucket b q = false) pre.
Proof.
  unfold GetPolicyForBucket. induction (pm_policies pm) as [|q ps IH]; cbn; [done|].
  destruct (matchesBucket b q) eqn:Hm; [intros [= ->]; exists [], ps; auto|].
  intros (pre & post & -> & Hp & Hpre)%IH. exists (q :: pre), post. auto.
Qed.

Lemma find_app_none {A} (f : A → bool) (l k : list A) :
  Forall (λ x, f x = false) l → find f (l ++ k) = find f k.
Proof. induction 1 as [|x l Hx _ IH]; cbn; [done|]. by rewrite Hx. Qed.

Lemma first_match_unique {A} (f : A → bool) (l1 l2 k1 k2 : list A) x y :
  l1 ++ x :: k1 = l2 ++ y :: k2 → f x = true → Forall (λ z, f z = false) l1 → f y = true →
  Forall (λ z, f z = false) l2 → l1 = l2 ∧ x = y.
Proof.
  revert l2. induction l1 as [|a l1 IH]; intros [|b l2] E Hx H1 Hy H2; cbn in E; injection E as E0 E.
  - done.
  - apply Forall_cons in H2 as [? _]. congruence.
  - apply Forall_cons in H1 as [? _]. congruence.
  - apply Forall_cons in H1 as [_ H1], H2 as [_ H2]. subst b. by destruct (IH l2 E Hx H1 Hy H2) as [-> ->].
Qed.

(** C29: whatever sequence of loads, reloads, published snapshots and resets
    the process goes through, successful or not, every live policy has an
    identifier, at least one bucket pattern, and does not both require and
    disable encryption. Hence no bucket is ever required and forbidden to be
    encrypted at once, a bucket without encryption never gets encrypted
    multipart uploads, plaintext reads are refused exactly where the first
    matching policy demands encryption, and the start-up check is
    conservative: when it finds no policy asking for encrypted multipart
    uploads, no bucket governed by a policy gets them. *)
Theorem policy_set_wellformed pm :
  rtc policy_step NewPolicyManager pm →
  Forall wf_policy (pm_policies pm) ∧ ∀ bucket,
    ¬ (BucketRequiresEncryption (Some pm) bucket = true ∧ BucketDisablesEncryption (Some pm) bucket = true) ∧
    (BucketDisablesEncryption (Some pm) bucket = true → BucketEncryptsMultipart (Some pm) bucket = false) ∧
    (enforceObjectReadPolicy (Some pm) bucket false = Some errPlaintextReadForbidden ↔
       ∃ pre p post, pm_policies pm = pre ++ p :: post ∧ matchesBucket bucket p = true ∧
         Forall (λ q, matchesBucket bucket q = false) pre ∧ pol_RequireEncryption p = true) ∧
    (AnyPolicyRequiresMPUEncryption (Some pm) = false → ∀ p, GetPolicyForBucket pm bucket = Some p →
       BucketEncryptsMultipart (Some pm) bucket = false).
Proof.
  intros Hw%reachable_wf. split; [done|]. intros bucket.
  unfold BucketRequiresEncryption, BucketDisablesEncryption, BucketEncryptsMultipart, enforceObjectReadPolicy. cbn [negb andb].
  destruct (GetPolicyForBucket pm bucket) as [p|] eqn:Hg.
  - apply GetPolicyForBucket_first in Hg as (pre & post & E & Hm & Hpre). rewrite E in Hw.
    apply Forall_app in Hw as [_ [(_ & _ & Hx) _]%Forall_cons].
    split; [naive_solver|]. split; [by intros ->|]. split.
    + unfold BucketRequiresEncryption, GetPolicyForBucket. rewrite E, find_app_none by done. cbn. rewrite Hm.
      destruct (pol_RequireEncryption p) eqn:Hq; split; try done; [by exists pre, p, post|].
      intros (pre' & p' & post' & E' & Hm' & Hpre' & Hq').
      destruct (first_match_unique _ _ _ _ _ _ _ E' Hm Hpre Hm' Hpre') as [_ ->]. congruence.
    + unfold AnyPolicyRequiresMPUEncryption. rewrite E, existsb_app. cbn. intros [_ [Hp _]%orb_false_elim]%orb_false_elim q [= <-].
      destruct (pol_DisableEncryption p); [done|]. destruct (pol_EncryptMultipartUploads p); by simplify_eq/=.
  - unfold BucketRequiresEncryption. rewrite Hg. split; [naive_solver|]. split; [done|]. split; [|done].
    split; [done|]. intros (pre & p & post & E & Hm & _). unfold GetPolicyForBucket in Hg.
    apply find_none with (x := p) in Hg; [congruence|]. rewrite E. apply in_elt.
Qed.

End theorems.

(** C30: a live reload always returns, and is all or nothing. The loop over the
    numbered environment variables ends after at most as many rounds as there
    are variables. On any error, in globbing, reading, decoding or
    validation of files or variables, the live set is unchanged; on success
    it is exactly the policies of all matched files, in the order of the
    patterns and matches, followed by the policies of the variables
    0, 1, 2, ... up to the first one without an identifier. *)
Theorem policy_reload_exact w patterns pm :
  len (pw_environ w) < MaxInt64 →
  ∃ err pm', ReloadPolicies w patterns pm = Some (err, pm') ∧
    match err with
    | Some _ => pm' = pm
    | None => ∃ fss files envs, Forall2 (λ pat fs, pw_glob w pat = Ok fs) patterns fss ∧
        Forall2 (policy_file w) (concat fss) files ∧ env_policies w 0 envs ∧ pm' = mkManager (files ++ envs)
    end.
Proof.
  intros Hlen. unfold ReloadPolicies, loadPolicySnapshot, LoadPolicies, LoadPoliciesFromEnv.
  destruct (loadPatterns w patterns []) as [files|e] eqn:Hl; [|by eexists _, _].
  apply loadPatterns_spec in Hl as (fss & new & Hg & -> & Hf).
  pose proof (envLoop_terminates w [] Hlen) as Ht.
  destruct (envLoop _ w 0 []) as [[envs|e]|] eqn:He; [|by eexists _, _|done].
  apply envLoop_spec in He as (envs' & -> & He).
  eexists None, _. split; [reflexivity|]. by exists fss, new, envs'.
Qed.

(** *** Witnesses *)

Module witness.
Definition file_policy : PolicyConfig := mkPolicyConfig (txt "prod") [txt "prod-*"] None None true false false None.
Definition world : PolicyWorld := mkPolicyWorld
  (λ p, Ok [txt "prod.yaml"]) (λ f, Ok (txt "...")) (λ d, Ok file_policy) (λ d, None)
  [(txt "GW_POLICY_0_ID", txt "raw"); (txt "GW_POLICY_0_BUCKETS", txt "logs, tmp");
   (txt "GW_POLICY_0_DISABLE_ENCRYPTION", txt "1")].
Definition live : PolicyManager := mkManager
  [file_policy; mkPolicyConfig (txt "raw") [txt "logs"; txt "tmp"] None None false true false None].
(** A pattern with a final star matches by prefix. *)
#[local] Instance prefix_glob : BucketGlob := {| Glob p b :=
  if bool_decide (last p = Some "*"%byte) then HasPrefixB b (take (length p - 1) p) else bool_decide (p = b) |}.

Lemma policy_reload_exact_witness :
  ReloadPolicies world [txt "*.yaml"] NewPolicyManager = Some (None, live) ∧
  ∃ err pm', ReloadPolicies world [txt "*.yaml"] NewPolicyManager = Some (err, pm') ∧
    match err with
    | Some _ => pm' = NewPolicyManager
    | None => ∃ fss files envs, Forall2 (λ pat fs, pw_glob world pat = Ok fs) [txt "*.yaml"] fss ∧
        Forall2 (policy_file world) (concat fss) files ∧ env_policies world 0 envs ∧ pm' = mkManager (files ++ envs)
    end.
Proof. split; [vm_compute; reflexivity|]. apply (policy_reload_exact world [txt "*.yaml"] NewPolicyManager). vm_compute. reflexivity. Defined.

Lemma policy_set_wellformed_witness :
  BucketRequiresEncryption (Some live) (txt "prod-eu") = true ∧ BucketDisablesEncryption (Some live) (txt "tmp") = true ∧
  BucketEncryptsMultipart (Some live) (txt "tmp") = false ∧ Forall wf_policy (pm_policies live).
Proof.
  split; [vm_compute; reflexivity|]. split; [vm_compute; reflexivity|].
  assert (rtc policy_step NewPolicyManager live) as Hr.
  { apply rtc_once. apply (step_reload world [txt "*.yaml"] NewPolicyManager None live). vm_compute. reflexivity. }
  destruct (policy_set_wellformed live Hr) as [Hw Hb]. split; [|exact Hw].
  apply (proj1 (proj2 (Hb (txt "tmp")))). vm_compute. reflexivity.
Defined.
End witness.
