(* ===== verification/ObjectWrite.v ===== *)
(** * Metadata of written objects ([internal/api/object_write.go])

    What the handlers accept from a client as the metadata of a new object or
    copy, what they hand to the engine, and what is finally stored beside the
    object. *)
From S2P Require Import Prelude GoStd Http Metadata ObjectFormat ObjectMeta.
Local Open Scope Z_scope.

(** An [http.Header]; [h.Get(name)] for a name in canonical form. *)
Abbreviation header := (list (string * list string)).
Definition header_get (h : header) (name : string) : string :=
  match find (λ kv, bool_decide (kv.1 = name)) h with Some (_, v :: _) => v | _ => "" end.

Record writeMetadata := mkWriteMeta { wm_User : gomap; wm_Standard : Standard }.

Definition userPrefix : string := "x-amz-meta-".

Fixpoint userMetadata (h : header) (user : gomap) : result gomap :=
  match h with
  | [] => Ok user
  | (k, values) :: h =>
      let lk := ToLower k in
      match values with
      | v :: _ =>
          if negb (HasPrefix lk userPrefix) then userMetadata h user
          else if IsGatewayReservedKey lk then Err (Errorf "InvalidArgument")
          else userMetadata h (map_set user lk v)
      | [] => userMetadata h user
      end
  end.
Definition parseWriteMetadata (h : header) : result writeMetadata :=
  user ← userMetadata h []; Ok (mkWriteMeta user (FromHeader h)).

(** The user entries of a copied object's metadata. *)
Definition copyUser (user source : gomap) : gomap :=
  foldl (λ user kv, if HasPrefix (ToLower kv.1) userPrefix && negb (IsGatewayReservedKey kv.1)
                    then map_set user (ToLower kv.1) kv.2 else user) user source.

Definition defaultContentType (s : Standard) : Standard :=
  if decide (st_ContentType s = "") then Standard_Set s "Content-Type" "application/octet-stream" else s.

(** [Meta] and [Decrypted] of the source. The directive is compared without
    regard to case, which for these words is what upper-casing amounts to. *)
Definition resolveCopyWriteMetadata (h : header) (meta decrypted : gomap) : result writeMetadata :=
  let directive := TrimSpaceB (bytes_of_string (header_get h "X-Amz-Metadata-Directive")) in
  let given d := bool_decide (ToLowerB directive = txt d) in
  if given "" || given "copy" then
    let user := copyUser (copyUser [] meta) decrypted in
    let standard := (objectmeta_Split meta).1 in
    let standard := foldl (λ s name, if decide (mget decrypted name ≠ "") then Standard_Set s name (mget decrypted name) else s)
                      standard Names in
    Ok (mkWriteMeta user (defaultContentType standard))
  else if negb (given "replace") then Err (Errorf "InvalidArgument")
  else m ← parseWriteMetadata h; Ok (mkWriteMeta (wm_User m) (defaultContentType (wm_Standard m))).

Definition engineInput (m : writeMetadata) (plainLen : Z) (haveLen : bool) : gomap :=
  let out := foldl (λ out kv, map_set out kv.1 kv.2) [] (wm_User m) in
  let out := ApplyTo (wm_Standard m) out in
  if haveLen then map_set out "Content-Length" (FormatInt plainLen) else out.

Record persistPlan := mkPersist { pp_Metadata : gomap; pp_Native : Standard }.

Definition responseOnly (k : string) : bool :=
  EqualFold k "content-length" || EqualFold k "etag" || EqualFold k "last-modified".
Definition buildPersistPlan (encMeta : gomap) (encrypted : bool) (filterKeys : list string) : persistPlan :=
  let kept := foldl (λ out kv, if existsb (EqualFold kv.1) filterKeys then out else map_set out kv.1 kv.2) [] encMeta in
  let '(standard, remainder) := objectmeta_Split kept in
  mkPersist (filter (λ kv, negb (responseOnly kv.1)) remainder) (if encrypted then zeroStandard else standard).

(** ** Lemmas *)

#[local] Arguments ToLower : simpl never.
#[local] Arguments IsGatewayReservedKey : simpl never.
#[local] Arguments IsStandard : simpl never.
#[local] Arguments responseOnly : simpl never.

Lemma lower_idemp b : lower (lower b) = lower b.
Proof. by destruct b; vm_compute. Qed.
Lemma ToLower_idemp s : ToLower (ToLower s) = ToLower s.
Proof.
  unfold ToLower. rewrite bytes_of_string_of_bytes. f_equal. rewrite map_map. apply map_ext. apply lower_idemp.
Qed.

Lemma reserved_fold k k' : ToLower k = ToLower k' → IsGatewayReservedKey k = IsGatewayReservedKey k'.
Proof. intros E. unfold IsGatewayReservedKey, EqualFold. by rewrite E, (LookupMetaKey_fold _ _ E). Qed.

Lemma keys_fold_set (Q : string → Prop) (m out : gomap) :
  (∀ k, k ∈ out.*1 → Q k) → (∀ k, k ∈ m.*1 → Q k) → ∀ k, k ∈ (foldl (λ out kv, map_set out kv.1 kv.2) out m).*1 → Q k.
Proof.
  revert out. induction m as [|[k v] m IH]; intros out Ho Hm; [done|]. cbn. apply IH.
  - apply map_set_keys_Q; [|done]. apply Hm. by left.
  - intros k' Hk'. apply Hm. by right.
Qed.

(** No gateway key among the keys. *)
Definition unreserved_keys (m : gomap) : Prop := ∀ k, k ∈ m.*1 → IsGatewayReservedKey k = false.

Lemma unreserved_set m k v : IsGatewayReservedKey k = false → unreserved_keys m → unreserved_keys (map_set m k v).
Proof. intros Hk Hm. exact (map_set_keys_Q (λ k, IsGatewayReservedKey k = false) m k v Hk Hm). Qed.

Lemma names_unreserved : Forall (λ n, IsGatewayReservedKey n = false) ("Content-Length" :: Names).
Proof.
  assert (forallb (λ n, negb (IsGatewayReservedKey n)) ("Content-Length" :: Names) = true) as Hn by (vm_compute; reflexivity).
  apply Forall_forall. intros n Hin. apply forallb_forall with (x := n) in Hn; [by apply negb_true_iff|by apply list_elem_of_In].
Qed.

Lemma userMetadata_clean h user user' : userMetadata h user = Ok user' → unreserved_keys user → unreserved_keys user'.
Proof.
  revert user. induction h as [|[k [|v vs]] h IH]; intros user; cbn; [by intros [= <-]|apply IH|].
  destruct (HasPrefix (ToLower k) userPrefix); cbn [negb]; [|apply IH].
  destruct (IsGatewayReservedKey (ToLower k)) eqn:Hr; [done|]. intros Hu Hc. apply (IH _ Hu). by apply unreserved_set.
Qed.

Lemma userMetadata_refuses h user :
  (∃ e, userMetadata h user = Err e) ↔
  ∃ k v vs, (k, v :: vs) ∈ h ∧ HasPrefix (ToLower k) userPrefix = true ∧ IsGatewayReservedKey (ToLower k) = true.
Proof.
  revert user. induction h as [|[k vals] h IH]; intros user; cbn.
  - split; [by intros [e He]|]. intros (k & v & vs & Hin & _). by apply elem_of_nil in Hin.
  - assert (Hskip : ¬ (∃ v vs, vals = v :: vs ∧ HasPrefix (ToLower k) userPrefix = true ∧ IsGatewayReservedKey (ToLower k) = true) →
      ∀ u, (∃ e, userMetadata h u = Err e) ↔ ∃ k' v vs, (k', v :: vs) ∈ (k, vals) :: h ∧
        HasPrefix (ToLower k') userPrefix = true ∧ IsGatewayReservedKey (ToLower k') = true).
    { intros Hn u. rewrite IH. split; intros (k' & v & vs & Hin & Hp & Hr).
      - exists k', v, vs. split; [by right|done].
      - apply elem_of_cons in Hin as [[= -> <-]|Hin]; [|by exists k', v, vs]. destruct Hn. by exists v, vs. }
    destruct vals as [|v vs]; [apply Hskip; by intros (? & ? & ? & _)|].
    destruct (HasPrefix (ToLower k) userPrefix) eqn:Hp; cbn [negb]; [|apply Hskip; by intros (? & ? & _ & ? & _)].
    destruct (IsGatewayReservedKey (ToLower k)) eqn:Hr; [|apply Hskip; by intros (? & ? & _ & _ & ?)].
    split; [intros _|by eexists]. exists k, v, vs. split; [by left|done].
Qed.

Lemma copyUser_clean user src : unreserved_keys user → unreserved_keys (copyUser user src).
Proof.
  unfold copyUser. revert user. induction src as [|[k v] src IH]; intros user Hc; [done|]. cbn. apply IH.
  destruct (HasPrefix (ToLower k) userPrefix && negb (IsGatewayReservedKey k)) eqn:E; [|done].
  apply andb_true_iff in E as [_ E%negb_true_iff]. apply unreserved_set; [|done].
  by rewrite (reserved_fold _ k (ToLower_idemp k)).
Qed.

Lemma ApplyTo_clean s m : unreserved_keys m → unreserved_keys (ApplyTo s m).
Proof.
  unfold ApplyTo. intros Hm. assert (Hn : Forall (λ n, IsGatewayReservedKey n = false) Names) by (pose proof names_unreserved as Hn; by inversion Hn).
  revert m Hm. induction Names as [|n names IH]; intros m Hm; [done|]. cbn. apply Forall_cons in Hn as [Hn Hns].
  apply (IH Hns). case_decide; [|done]. by apply unreserved_set.
Qed.

Lemma engineInput_clean m n b : unreserved_keys (wm_User m) → unreserved_keys (engineInput m n b).
Proof.
  intros Hu. unfold engineInput.
  assert (unreserved_keys (ApplyTo (wm_Standard m) (foldl (λ out kv, map_set out kv.1 kv.2) [] (wm_User m)))) as Ha.
  { apply ApplyTo_clean. intros k. apply (keys_fold_set (λ k, IsGatewayReservedKey k = false)); [|done].
    intros k' Hk'. by apply elem_of_nil in Hk'. }
  destruct b; [|done]. apply unreserved_set; [|done]. pose proof names_unreserved as Hn. by inversion Hn.
Qed.

Lemma Split_keys meta s r k :
  k ∈ (foldl (λ '(s, remainder) kv, if IsStandard kv.1 then (Standard_Set s kv.1 kv.2, remainder)
    else (s, map_set remainder kv.1 kv.2)) (s, r) meta).2.*1 → k ∈ r.*1 ∨ (k ∈ meta.*1 ∧ IsStandard k = false).
Proof.
  revert s r. induction meta as [|[k' v] meta IH]; intros s r; cbn; [auto|].
  destruct (IsStandard k') eqn:E; intros [Hr|[Hm Hs]]%IH; try (right; split; [by right|done]); [by left|].
  apply map_set_keys in Hr as [->|Hr]; [|by left]. right. split; [by left|done].
Qed.

Lemma persist_keys encMeta encrypted filterKeys k :
  k ∈ (pp_Metadata (buildPersistPlan encMeta encrypted filterKeys)).*1 →
  IsStandard k = false ∧ responseOnly k = false ∧ existsb (EqualFold k) filterKeys = false ∧ k ∈ encMeta.*1.
Proof.
  unfold buildPersistPlan, objectmeta_Split. set (kept := foldl _ [] encMeta).
  destruct (foldl _ (zeroStandard, []) kept) as [s r] eqn:Hs. cbn [pp_Metadata].
  intros ([k' v] & -> & [Hro Hr]%list_elem_of_filter)%list_elem_of_fmap. cbn in *. apply Is_true_true, negb_true_iff in Hro.
  assert (k' ∈ r.*1) as Hk by (apply list_elem_of_fmap; by exists (k', v)).
  pose proof (Split_keys kept zeroStandard [] k') as Hsp. rewrite Hs in Hsp. cbn in Hsp.
  destruct (Hsp Hk) as [Hn|[Hin Hst]]; [by apply elem_of_nil in Hn|]. split_and!; [done..| |].
  all: assert (Hkept : ∀ out, k' ∈ (foldl (λ out kv, if existsb (EqualFold kv.1) filterKeys then out else map_set out kv.1 kv.2) out encMeta).*1 →
    k' ∈ out.*1 ∨ (k' ∈ encMeta.*1 ∧ existsb (EqualFold k') filterKeys = false)).
  all: try (clear; induction encMeta as [|[a b] m IH]; intros out; cbn; [auto|];
    destruct (existsb (EqualFold a) filterKeys) eqn:E; intros [Ho|[Hm He]]%IH; try (right; split; [by right|done]); [by left|];
    apply map_set_keys in Ho as [->|Ho]; [right; split; [by left|done]|by left]).
  all: destruct (Hkept [] Hin) as [Hn|[? ?]]; [by apply elem_of_nil in Hn|done].
Qed.


Module write_witness.
Definition upload : header := [("X-Amz-Meta-Owner", ["me"]); ("Content-Type", ["text/plain"])].
Definition forged : header := [("X-Amz-Meta-Encrypted", ["true"])].
Definition uploaded : writeMetadata := mkWriteMeta [("x-amz-meta-owner", "me")] (mkStandard "text/plain" "" "" "" "" "").

End write_witness.
