(* ===== verification/MPUHandlers.v ===== *)
(** * The multipart handlers ([internal/api/handlers.go], [internal/s3/seekable_body.go])

    Creating an upload, uploading a part, completing and aborting: the calls
    the handlers make to the policy, the state store (MPUState.v), the key
    manager (KeyManager.v), the part encrypter (MPUStream.v) and the backend,
    in their order and with their error paths. The backend's answers are
    arguments; the calls made to it are recorded. Each store operation comes
    with its own network accesses, in which other gateways may change the
    upload's state. The current policy is asked for more than once in a
    request, so it is an argument per reading. *)
From S2P Require Import Prelude GoStd GoText GoIO Http Primitives ObjectAAD ChunkLayout MPUManifest MPUStream MPUCorrect KeyManager MemoryKeyManager MPUState Spool.
From S2P Require Import Metadata ObjectFormat ObjectMeta ObjectWrite Policy.
Local Open Scope Z_scope.
Local Open Scope go_scope.

(** ** Buffered bodies *)

Definition ErrPartTooLarge : error := Sentinel "seekable_body: part exceeds maximum buffer size".

(** [NewSeekableBody]: [io.ReadAll] of a [LimitReader] of [maxBytes + 1]. *)
Definition NewSeekableBody (src : Source) (maxBytes : Z) : result (list byte) :=
  let n := maxBytes +i 1 in
  let data := take (Z.to_nat n) (src_data src) in
  let err := if len (src_data src) <? n then src_end src else EOF in
  if decide (err ≠ EOF) then Err (Wrapf "seekable_body: read: %w" err)
  else if len data >? maxBytes then Err ErrPartTooLarge
  else Ok data.

(** ** ETags and the completion request *)

Definition etagChar (b : byte) : bool :=
  let v := byte_val b in
  ((48 <=? v) && (v <=? 57)) || ((97 <=? v) && (v <=? 102)) || ((65 <=? v) && (v <=? 70)) || (v =? 45).
Definition isValidETag (etag : bytes) : bool :=
  if (len etag <? 2) || negb (bool_decide (head etag = Some dquote)) || negb (bool_decide (last etag = Some dquote)) then false
  else let inner := take (length etag - 2) (drop 1 etag) in forallb etagChar inner && (len inner >? 0).
Definition normalizeETag (etag : bytes) : option bytes :=
  if (2 <=? len etag) && bool_decide (head etag = Some dquote) && bool_decide (last etag = Some dquote) then
    if isValidETag etag then Some etag else None
  else if (len etag =? 0) || bool_decide (dquote ∈ etag) then None
  else let quoted := [dquote] ++ etag ++ [dquote] in if isValidETag quoted then Some quoted else None.

Definition errInvalidArgument : error := Sentinel "InvalidArgument".
Definition errInvalidPartOrder : error := Sentinel "InvalidPartOrder".

(** The loop over the parts: numbers seen so far, the last number ([-1]
    before the first part), the canonical parts so far. *)
Fixpoint validateParts (parts : list SelectedPart) (seen : list Z) (lastPartNumber : Z) (out : list SelectedPart)
    : result (list SelectedPart) :=
  match parts with
  | [] => Ok out
  | p :: parts =>
      let n := sp_PartNumber p in
      if (n <? 1) || (n >? 10000) then Err errInvalidArgument
      else if bool_decide (n ∈ seen) then Err errInvalidArgument
      else match normalizeETag (bytes_of_string (sp_ETag p)) with
      | None => Err errInvalidArgument
      | Some canonical =>
          if negb (bool_decide (out = [])) && (n <? lastPartNumber) then Err errInvalidPartOrder
          else validateParts parts (n :: seen) n (out ++ [mkSelected n (string_of_bytes canonical)])
      end
  end.
Definition validateCompleteMultipartUploadRequest (parts : list SelectedPart) : result (list SelectedPart) :=
  if bool_decide (parts = []) then Err errInvalidArgument
  else if len parts >? 10000 then Err errInvalidArgument
  else validateParts parts [] (-1) [].

(** The response code of a request that was not accepted. *)
Definition requestCode (e : error) : string :=
  if decide (e = errInvalidArgument) then "InvalidArgument"
  else if decide (e = errInvalidPartOrder) then "InvalidPartOrder" else "MalformedXML".

(** [sortedPartRecords]: insertion sort by part number. *)
Fixpoint insertPart (p : PartRecord) (l : list PartRecord) : list PartRecord :=
  match l with
  | [] => [p]
  | q :: l => if pr_PartNumber p <? pr_PartNumber q then p :: q :: l else q :: insertPart p l
  end.
Definition sortedPartRecords (parts : list PartRecord) : list PartRecord := foldl (λ l p, insertPart p l) [] parts.

(** ** The handler *)

(** [encoding/json] of a key envelope. *)
Class EnvelopeJSON := { env_marshal : KeyEnvelope → string; env_unmarshal : string → result KeyEnvelope }.

Record MPUHandler := mkMPUHandler {
  mh_store : option ValkeyStateStore; mh_allowUntracked : bool; mh_disableMultipart : bool; mh_maxPartBuffer : Z;
  mh_reservationLease : Z; mh_filterKeys : list string; mh_preferredAlgorithm : string; mh_fips : bool }.

Definition effectiveMaxPartBuffer (h : MPUHandler) : Z :=
  if mh_maxPartBuffer h >? 0 then mh_maxPartBuffer h else DefaultMaxPartBuffer.

(** Calls to the backend. *)
Inductive backendCall :=
| CreateUpload (metadata : gomap)
| AbortUpload (uploadID : string)
| SendPart (partNumber : Z) (data : list byte)
| PutCompanion (key : string) (data : list byte)
| CompleteUpload (parts : list SelectedPart).

(** The S3 error code of a failed request. *)
Abbreviation code := string.

Section handlers.
Context {K : Type} `{KeyManager K} `{HKDF} `{!HKDFLaws} `{Ciphers} `{!CiphersLaws} `{SHA256} `{HMAC} `{StateJSON} `{MapOrder}.
Context `{EnvelopeJSON} `{MPUManifestJSON} `{BucketGlob} (h : MPUHandler).

(** What a request changes: the upload's hash, the key manager (nil or not)
    and the environment. *)
Record hstate := mkHState { hs_km : option K; hs_db : db; hs_world : World }.

Definition bucketEncryptsMPU (pm : option PolicyManager) (bucket : string) : bool :=
  match pm with
  | None => false
  | Some _ => BucketEncryptsMultipart pm (bytes_of_string bucket)
  end.

Definition uploadState (a : access) (s : hstate) : result (option UploadState) * hstate :=
  match mh_store h with
  | None => (Ok None, s)
  | Some store =>
      let '(r, d) := redis_get store a (hs_db s) in
      let s := mkHState (hs_km s) d (hs_world s) in
      match r with
      | Ok st => (Ok (Some st), s)
      | Err e =>
          if error_is e ErrUploadNotFound then
            if mh_allowUntracked h then (Ok None, s) else (Err ErrUploadNotFound, s)
          else (Err e, s)
      end
  end.
Definition missingStateCode (e : error) : code := if error_is e ErrUploadNotFound then "NoSuchUpload" else "ServiceUnavailable".

Definition validateMPURouteIdentity (st : UploadState) (bucket key : string) : bool :=
  bool_decide (uc_Bucket (us_core st) = bucket) && bool_decide (uc_Key (us_core st) = key).

Definition mpuEncryptionReady (s : hstate) : bool := bool_decide (is_Some (mh_store h)) && bool_decide (is_Some (hs_km s)).
Definition mpuGuardMisconfig (pm : option PolicyManager) (s : hstate) (bucket : string) : bool :=
  bucketEncryptsMPU pm bucket && negb (mpuEncryptionReady s).

(** ** Creating an upload *)

Definition encodeBinding (b : list byte) : string := EncodeToString url_alphabet false b.

Definition initMPUEncryptionState (store : ValkeyStateStore) (uploadID bucket key : string) (bindingID : list byte)
    (a : access) (s : hstate) : option error * hstate :=
  let w := hs_world s in
  match rand_read 32 w with
  | (Err e, w) => (Some (Wrapf "failed to generate DEK: %w" e), mkHState (hs_km s) (hs_db s) w)
  | (Ok dek, w) =>
      match rand_read 12 w with
      | (Err e, w) => (Some (Wrapf "failed to generate IV prefix: %w" e), mkHState (hs_km s) (hs_db s) w)
      | (Ok ivPrefix, w) =>
          let s := mkHState (hs_km s) (hs_db s) w in
          if zero_binding bindingID then (Some (Errorf "invalid zero MPU binding ID"), s)
          else match hs_km s with
          | None => (Some (Errorf "encrypted multipart uploads require a KeyManager; none is configured"), s)
          | Some k =>
              let '(r, k, w) := WrapKey dek [("bucket", bucket); ("key", key); ("uploadId", uploadID)] k w in
              let s := mkHState (Some k) (hs_db s) w in
              match r with
              | Err e => (Some (Wrapf "failed to wrap DEK: %w" e), s)
              | Ok envelope =>
                  let algorithm := if decide (mh_preferredAlgorithm h = "") then AlgorithmAES256GCM else mh_preferredAlgorithm h in
                  let '(now, w) := time_now w in
                  let core := mkUploadCore uploadID bucket key (encodeBinding bindingID)
                    (EncodeToString url_alphabet true (UploadIDHash uploadID)) (env_marshal envelope) (hex_encode ivPrefix)
                    algorithm DefaultChunkSize (KeyID envelope) (env_Provider envelope) (KeyVersion envelope) true now in
                  let '(err, d, w) := Create store (mkUploadState core [] CurrentStateVersion UploadPhaseOpen 1) a (hs_db s) w in
                  (err, mkHState (hs_km s) d w)
              end
          end
      end
  end.

(** The markers of an encrypted upload, frozen into its metadata. *)
Definition markEncryptedMPU (metadata : gomap) (bindingID : list byte) (key : string) : gomap :=
  let m := map_set metadata MetaMPUEncrypted "v2" in
  let m := map_set m MetaObjectBindingID (encodeBinding bindingID) in
  let m := map_set m MetaFallbackMode "mpu" in
  map_set m MetaFallbackPointer (key +:+ MPUManifestSuffix).

(** The state record of a new upload; [encrypts] is the third reading of the
    policy. *)
Definition recordUpload (store : ValkeyStateStore) (encrypts : bool) (uploadID bucket key : string) (metadata : gomap)
    (a : access) (s : hstate) : option error * hstate :=
  if encrypts then
    match DecodeString url_alphabet false (mget metadata MetaObjectBindingID) with
    | Some b => if len b =? 16 then initMPUEncryptionState store uploadID bucket key b a s
                else (Some (Errorf "invalid MPU binding metadata"), s)
    | None => (Some (Errorf "invalid MPU binding metadata"), s)
    end
  else
    let '(now, w) := time_now (hs_world s) in
    let core := mkUploadCore uploadID bucket key "" "" "" "" "" 0 "" "" 0 false now in
    let '(err, d, w) := Create store (mkUploadState core [] CurrentStateVersion UploadPhaseOpen 1) a (hs_db s) w in
    (err, mkHState (hs_km s) d w).

(** [sse] and [client] are the results of [rejectSSECustomerCopyOrMPU] and
    [getS3Client]; [backend] is the answer of the backend; [pm] gives the
    policy manager at each of its three readings. *)
Definition handleCreateMultipartUpload (pm : nat → option PolicyManager) (sse client : option code) (bucket key : string)
    (hdr : header) (backend : result string) (a : access) (s : hstate)
    : (code + string) * list backendCall * hstate :=
  match sse with
  | Some c => (inl c, [], s)
  | None =>
  if bool_decide (bucket = "") || bool_decide (key = "") then (inl "InvalidRequest", [], s)
  else if mh_disableMultipart h then (inl "NotImplemented", [], s)
  else if mpuGuardMisconfig (pm 0%nat) s bucket then (inl "ServiceUnavailable", [], s)
  else match parseWriteMetadata hdr with
  | Err _ => (inl "InvalidArgument", [], s)
  | Ok writeMeta =>
  let metadata := engineInput writeMeta 0 false in
  let metadata := if decide (mget metadata "Content-Type" = "") then map_set metadata "Content-Type" "application/octet-stream" else metadata in
  match client with
  | Some c => (inl c, [], s)
  | None =>
  let '(marked, s) :=
    if bucketEncryptsMPU (pm 1%nat) bucket then
      match rand_read 16 (hs_world s) with
      | (Err _, w) => (None, mkHState (hs_km s) (hs_db s) w)
      | (Ok bindingID, w) => (Some (markEncryptedMPU metadata bindingID key), mkHState (hs_km s) (hs_db s) w)
      end
    else (Some metadata, s) in
  match marked with
  | None => (inl "InternalError", [], s)
  | Some metadata =>
  let persist := buildPersistPlan metadata false (mh_filterKeys h) in
  let metadata := ApplyTo (pp_Native persist) (pp_Metadata persist) in
  let calls := [CreateUpload metadata] in
  match backend with
  | Err _ => (inl "BackendError", calls, s)
  | Ok uploadID =>
  match mh_store h with
  | None => (inr uploadID, calls, s)
  | Some store =>
      match recordUpload store (bucketEncryptsMPU (pm 2%nat) bucket) uploadID bucket key metadata a s with
      | (Some _, s) => (inl "ServiceUnavailable", calls ++ [AbortUpload uploadID], s)
      | (None, s) => (inr uploadID, calls, s)
      end
  end end end end end end.

(** ** Uploading a part *)

Definition unwrapMPUDEK (st : UploadState) (bucket uploadID : string) (s : hstate) : result (list byte) * hstate :=
  match ValidateEncryptedCryptoMaterial (Some st) with
  | Some e => (Err e, s)
  | None =>
      match hs_km s with
      | None => (Err (Errorf "cannot decrypt MPU part: no KeyManager configured"), s)
      | Some k =>
          match env_unmarshal (uc_WrappedDEK (us_core st)) with
          | Err e => (Err (Wrapf "unmarshal key envelope: %w" e), s)
          | Ok env =>
              let '(r, k, w) := UnwrapKey (Some env) [("bucket", bucket); ("uploadId", uploadID)] k (hs_world s) in
              (r, mkHState (Some k) (hs_db s) w)
          end
      end
  end.

Definition IVPrefixFromHex (s : string) : result (list byte) :=
  match hex_decode (bytes_of_string s) with
  | None => Err (Errorf "encoding/hex")
  | Some b => if negb (len b =? 12) then Err (Errorf "mpu: iv prefix must be 12 bytes, got %d") else Ok b
  end.

Definition encryptMPUPartWithState (bucket key uploadID : string) (partNumber : Z) (body : Source) (plainLen : Z)
    (st : UploadState) (s : hstate) : result (mpuEncReader * Z) * hstate :=
  match IVPrefixFromHex (uc_IVPrefixHex (us_core st)) with
  | Err e => (Err (Wrapf "encryptMPUPart: decode iv prefix: %w" e), s)
  | Ok ivPrefix =>
      match unwrapMPUDEK st bucket uploadID s with
      | (Err e, s) => (Err (Wrapf "encryptMPUPart: unwrap DEK: %w" e), s)
      | (Ok dek, s) =>
          match BindingIDBytes (us_core st) with
          | Err e => (Err (Wrapf "encryptMPUPart: invalid binding ID: %w" e), s)
          | Ok None => (Err (Errorf "encryptMPUPart: legacy MPU state cannot encrypt a new part"), s)
          | Ok (Some bindingID) =>
              (match NewMPUPartEncryptReader (mh_fips h) (mkObject bucket key) bindingID body dek (UploadIDHash uploadID)
                       ivPrefix partNumber (uc_ChunkSize (us_core st)) plainLen (uc_Algorithm (us_core st)) with
               | Err e => Err (Wrapf "encryptMPUPart: build encrypter: %w" e)
               | Ok r => Ok r
               end, s)
          end
      end
  end.

(** What [reserveEncryptedMPUPart] returns: the store's claim and
    reservation, absent without a store, and the buffered plaintext. *)
Record partReservation := mkPartRes { pv_claim : option (PartClaim * Reservation); pv_plain : list byte }.

Definition reserveCode (e : error) : code :=
  if error_is e ErrPartContentMismatch || error_is e ErrPartInProgress || error_is e ErrInvalidStateVersion ||
     error_is e ErrInvalidPhase then "OperationAborted" else "ServiceUnavailable".
Definition bodyCode (e : error) : code := if decide (e = ErrPartTooLarge) then "EntityTooLarge" else "InternalError".

Definition reserveEncryptedMPUPart (bucket uploadID : string) (partNumber : Z) (body : Source) (st : UploadState)
    (net : nat → access) (s : hstate) : (code + partReservation) * hstate :=
  match NewSeekableBody body (effectiveMaxPartBuffer h) with
  | Err e => (inl (bodyCode e), s)
  | Ok plain =>
      match mh_store h with
      | None => (inr (mkPartRes None plain), s)
      | Some store =>
          match unwrapMPUDEK st bucket uploadID s with
          | (Err _, s) => (inl "InternalError", s)
          | (Ok dek, s) =>
              match ComputePartClaim dek partNumber (len plain) plain EOF with
              | Err _ => (inl "InternalError", s)
              | Ok claimBytes =>
                  match rand_read 16 (hs_world s) with
                  | (Err _, w) => (inl "InternalError", mkHState (hs_km s) (hs_db s) w)
                  | (Ok tokenBytes, w) =>
                      let claim := mkPartClaim partNumber (EncodeToString url_alphabet false claimBytes) (len plain) ""
                                     (EncodeToString url_alphabet false tokenBytes) "" 0 0 in
                      let '(r, d, w) := ReservePart store claim net (hs_db s) w in
                      let s := mkHState (hs_km s) d w in
                      match r with
                      | Err e => (inl (reserveCode e), s)
                      | Ok reservation => (inr (mkPartRes (Some (claim, reservation)) plain), s)
                      end
                  end
              end
          end
      end
  end.

(** The network accesses of a part upload, one family per store operation. *)
Record partNet := mkPartNet {
  pn_get : access; pn_reserve : nat → access; pn_renew : nat → access; pn_commit : nat → access; pn_release : nat → access }.

(** The deferred release of a reservation whose part was not sent; its error
    is dropped. *)
Definition giveUp (claim : option (PartClaim * Reservation)) (net : partNet) (s : hstate) : hstate :=
  match mh_store h, claim with
  | Some store, Some (c, r) =>
      let '(_, d, w) := ReleasePart store (pc_PartNumber c) (rv_Token r) (pn_release net) (hs_db s) (hs_world s) in
      mkHState (hs_km s) d w
  | _, _ => s
  end.

(** Records the part after the backend took it. *)
Definition commitUploaded (claim : option (PartClaim * Reservation)) (plainLen encLen : Z) (etag : string)
    (net : partNet) (s : hstate) : option code * hstate :=
  match ChunkedDataChunkCount plainLen DefaultChunkSize with
  | Err _ => (Some "InternalError", s)
  | Ok n =>
      if n >? MaxInt32 then (Some "InternalError", s)
      else match mh_store h, claim with
      | Some store, Some (c, _) =>
          let c := mkPartClaim (pc_PartNumber c) (pc_Claim c) (pc_PlainLen c) (pc_Status c) (pc_Token c) etag encLen n in
          let '(r, d, w) := CommitPart store c (pn_commit net) (hs_db s) (hs_world s) in
          let s := mkHState (hs_km s) d w in
          match r with
          | Err _ => (Some "ServiceUnavailable", s)
          | Ok _ => (None, s)
          end
      | _, _ => (None, s)
      end
  end.

Definition leaseOf : Z := if mh_reservationLease h >? 0 then mh_reservationLease h else 2 * 60 * 1000000000.

Definition renewIfSlow (claim : option (PartClaim * Reservation)) (duration : Z) (net : partNet) (s : hstate) : option code * hstate :=
  if duration >=? Z.quot leaseOf 4 then
    match mh_store h, claim with
    | Some store, Some (c, r) =>
        let '(r, d, w) := RenewPart store (pc_PartNumber c) (rv_Token r) (pn_renew net) (hs_db s) (hs_world s) in
        let s := mkHState (hs_km s) d w in
        match r with Err _ => (Some "ServiceUnavailable", s) | Ok _ => (None, s) end
    | _, _ => (None, s)
    end
  else (None, s).

(** The encrypted branch. [fuel] and [sz] are how [io.ReadAll] drains the
    encrypting reader; [None] means that the fuel was used up. *)
Definition uploadEncrypted (fuel : nat) (sz : nat → nat) (bucket key uploadID : string) (partNumber : Z) (body : Source)
    (st : UploadState) (backend : result string) (net : partNet) (s : hstate)
    : option ((code + string) * list backendCall * hstate) :=
  if negb (validateMPURouteIdentity st bucket key) then Some (inl "NoSuchUpload", [], s)
  else match reserveEncryptedMPUPart bucket uploadID partNumber body st (pn_reserve net) s with
  | (inl c, s) => Some (inl c, [], s)
  | (inr res, s) =>
      let done := match pv_claim res with
                  | Some (_, r) => if rv_AlreadyDone r then Some (rv_CommittedETag r) else None
                  | None => None
                  end in
      match done with
      | Some etag => Some (inr etag, [], s)
      | None =>
          let plain := pv_plain res in
          let '(encryptStart, w) := time_now (hs_world s) in
          let '(r, s) := encryptMPUPartWithState bucket key uploadID partNumber (mkSource plain EOF) (len plain) st
                           (mkHState (hs_km s) (hs_db s) w) in
          let '(encryptEnd, w) := time_now (hs_world s) in
          let s := mkHState (hs_km s) (hs_db s) w in
          match r with
          | Err _ => Some (inl "InternalError", [], giveUp (pv_claim res) net s)
          | Ok (reader, encLen) =>
              match drain fuel sz reader with
              | None => None
              | Some (cipher, e) =>
                  match NewSeekableBody (mkSource cipher e) (effectiveMaxPartBuffer h) with
                  | Err e => Some (inl (bodyCode e), [], giveUp (pv_claim res) net s)
                  | Ok cipher =>
                      match renewIfSlow (pv_claim res) (encryptEnd - encryptStart) net s with
                      | (Some c, s) => Some (inl c, [], giveUp (pv_claim res) net s)
                      | (None, s) =>
                          let calls := [SendPart partNumber cipher] in
                          match backend with
                          | Err _ => Some (inl "BackendError", calls, s)
                          | Ok etag =>
                              match commitUploaded (pv_claim res) (len plain) encLen etag net s with
                              | (Some c, s) => Some (inl c, calls, s)
                              | (None, s) => Some (inr etag, calls, s)
                              end
                          end
                      end
                  end
              end
          end
      end
  end.

Definition uploadPlain (partNumber : Z) (body : Source) (backend : result string) (s : hstate)
    : option ((code + string) * list backendCall * hstate) :=
  match NewSeekableBody body (effectiveMaxPartBuffer h) with
  | Err e => Some (inl (bodyCode e), [], s)
  | Ok data =>
      Some (match backend with Err _ => inl "BackendError" | Ok etag => inr etag end, [SendPart partNumber data], s)
  end.

(** [body] is the request body after the verification of a streamed payload
    (AwsBody.v), or its error. *)
Definition handleUploadPart (fuel : nat) (sz : nat → nat) (pm : option PolicyManager) (sse client : option code)
    (bucket key uploadID partNumberStr : string) (body : result Source) (backend : result string) (net : partNet) (s : hstate)
    : option ((code + string) * list backendCall * hstate) :=
  let fail c := Some (inl c, [], s) in
  match sse with
  | Some c => fail c
  | None =>
  if bool_decide (bucket = "") || bool_decide (key = "") || bool_decide (uploadID = "") || bool_decide (partNumberStr = "")
  then fail "InvalidRequest"
  else if mh_disableMultipart h then fail "NotImplemented"
  else if mpuGuardMisconfig pm s bucket then fail "ServiceUnavailable"
  else match ParseInt partNumberStr with
  | None => fail "InvalidArgument"
  | Some partNumber =>
  if (partNumber >? MaxInt32) || (partNumber <? 1) then fail "InvalidArgument"
  else match body with
  | Err _ => fail "StreamingPayloadError"
  | Ok body =>
  match client with
  | Some c => fail c
  | None =>
  match uploadState (pn_get net) s with
  | (Err e, s) => Some (inl (missingStateCode e), [], s)
  | (Ok (Some st), s) =>
      if uc_EncryptMultipartUploads (us_core st)
      then uploadEncrypted fuel sz bucket key uploadID partNumber body st backend net s
      else uploadPlain partNumber body backend s
  | (Ok None, s) => uploadPlain partNumber body backend s
  end end end end end.

(** ** Completing an upload *)

(** The parts of the manifest, with the running plaintext total. *)
Fixpoint manifestParts (parts : list PartRecord) (total : Z) (out : list MPUPartRecord) : result (list MPUPartRecord * Z) :=
  match parts with
  | [] => Ok (out, total)
  | p :: parts =>
      if (pr_PlainLen p <? 0) || (pr_PlainLen p >? MaxInt64 -i total)
      then Err (Errorf "writeMPUManifest: invalid or overflowing plaintext total")
      else manifestParts parts (total +i pr_PlainLen p)
             (out ++ [mkPart (pr_PartNumber p) (MPUState.pr_ETag p) (pr_PlainLen p) (pr_EncLen p) (pr_ChunkCount p)])
  end.
Definition buildMPUManifest (st : UploadState) (bucket key : string) : result MultipartManifest :=
  '(parts, total) ← manifestParts (sortedPartRecords (us_Parts st)) 0 [];
  let c := us_core st in
  Ok (mkMPUManifest 2 bucket key bucket (key +:+ MPUManifestSuffix) (uc_BindingID c) (uc_Algorithm c) (uc_ChunkSize c)
        (uc_IVPrefixHex c) (uc_UploadIDHash c) (uc_WrappedDEK c) (uc_KMSKeyID c) (uc_KMSProvider c) (uc_KMSKeyVersion c)
        parts "" total).

(** [seal] is the manifest encryption of the bucket's engine
    ([EncryptMPUManifest] of Engine.v), [put] the backend's answer. *)
Definition writeMPUManifestObject (seal : ObjectContext → list byte → list byte → World → result (list byte) * World)
    (engine put : option error) (bucket key : string) (st : UploadState) (s : hstate)
    : option error * list backendCall * hstate :=
  match (m ← buildMPUManifest st bucket key; Marshal m) with
  | Err e => (Some e, [], s)
  | Ok manifestJSON =>
      match engine with
      | Some e => (Some (Wrapf "writeMPUManifest: get engine: %w" e), [], s)
      | None =>
          match DecodeString url_alphabet false (uc_BindingID (us_core st)) with
          | None => (Some (Errorf "writeMPUManifest: invalid binding ID"), [], s)
          | Some b =>
              if negb (len b =? 16) then (Some (Errorf "writeMPUManifest: invalid binding ID"), [], s)
              else
                let companion := key +:+ MPUManifestSuffix in
                let '(r, w) := seal (mkObject bucket companion) b manifestJSON (hs_world s) in
                let s := mkHState (hs_km s) (hs_db s) w in
                match r with
                | Err e => (Some (Wrapf "writeMPUManifest: encrypt manifest: %w" e), [], s)
                | Ok enc => (put, [PutCompanion companion enc], s)
                end
          end
      end
  end.

Record completeNet := mkCompleteNet {
  cn_get : access; cn_begin : nat → access; cn_reopen : nat → access; cn_finalize : nat → access; cn_delete : access }.

(** [Reopen] after a failure; its error is dropped. *)
Definition reopen (store : ValkeyStateStore) (revision : Z) (net : nat → access) (s : hstate) : hstate :=
  let '(_, d, w) := Reopen store revision net (hs_db s) (hs_world s) in mkHState (hs_km s) d w.
Definition deleteState (a : access) (s : hstate) : hstate :=
  let '(_, d) := Delete a (hs_db s) in mkHState (hs_km s) d (hs_world s).
Definition lifecycleCode (e : error) : code := if error_is e ErrRevisionConflict then "OperationAborted" else "ServiceUnavailable".

(** [parts] is the decoded request, [lock] the result of the lock headers,
    [backend] the answer to the completion. The reply of a successful
    completion is the ETag and the recorded plaintext size. *)
Definition handleCompleteMultipartUpload (seal : ObjectContext → list byte → list byte → World → result (list byte) * World)
    (engine put : option error) (pm : option PolicyManager) (sse client lock : option code) (bucket key uploadID : string)
    (parts : result (list SelectedPart)) (backend : result string) (net : completeNet) (s : hstate)
    : (code + string * option Z) * list backendCall * hstate :=
  let fail c := (inl c, [], s) in
  match sse with
  | Some c => fail c
  | None =>
  if bool_decide (bucket = "") || bool_decide (key = "") || bool_decide (uploadID = "") then fail "InvalidRequest"
  else if mh_disableMultipart h then fail "NotImplemented"
  else if mpuGuardMisconfig pm s bucket then fail "ServiceUnavailable"
  else match client with
  | Some c => fail c
  | None =>
  match parts ≫= validateCompleteMultipartUploadRequest with
  | Err e => fail (requestCode e)
  | Ok parts =>
  match lock with
  | Some c => fail c
  | None =>
  match uploadState (cn_get net) s, mh_store h with
  | (Err e, s), _ => (inl (missingStateCode e), [], s)
  | (Ok (Some st), s), Some store =>
      let size (st : UploadState) := Some (foldl (λ t p, t +i pr_PlainLen p) 0 (us_Parts st)) in
      if uc_EncryptMultipartUploads (us_core st) then
        if negb (validateMPURouteIdentity st bucket key) then (inl "NoSuchUpload", [], s)
        else
          let '(r, d, w) := BeginComplete store parts (cn_begin net) (hs_db s) (hs_world s) in
          let s := mkHState (hs_km s) d w in
          match r with
          | Err e =>
              (inl (if error_is e ErrInvalidPhase || error_is e ErrInvalidStateVersion || error_is e ErrRevisionConflict
                    then "OperationAborted" else "InvalidPart"), [], s)
          | Ok (st, _) =>
              match writeMPUManifestObject seal engine put bucket key st s with
              | (Some _, calls, s) => (inl "InternalError", calls, reopen store (us_Revision st) (cn_reopen net) s)
              | (None, calls, s) =>
                  let calls := calls ++ [CompleteUpload parts] in
                  match backend with
                  | Err _ => (inl "BackendError", calls, reopen store (us_Revision st) (cn_reopen net) s)
                  | Ok etag =>
                      let '(err, d, w) := FinalizeComplete store (us_Revision st) (cn_finalize net) (hs_db s) (hs_world s) in
                      let s := mkHState (hs_km s) d w in
                      match err with
                      | Some e => (inl (lifecycleCode e), calls, s)
                      | None => (inr (etag, size st), calls, deleteState (cn_delete net) s)
                      end
                  end
              end
          end
      else
        match backend with
        | Err _ => (inl "BackendError", [CompleteUpload parts], s)
        | Ok etag => (inr (etag, size st), [CompleteUpload parts], deleteState (cn_delete net) s)
        end
  | (Ok _, s), _ =>
      match backend with
      | Err _ => (inl "BackendError", [CompleteUpload parts], s)
      | Ok etag => (inr (etag, None), [CompleteUpload parts], s)
      end
  end end end end end.

(** ** Aborting an upload *)

Definition handleAbortMultipartUpload (pm : option PolicyManager) (sse client : option code) (bucket key uploadID : string)
    (backend : option error) (net : completeNet) (s : hstate) : option code * list backendCall * hstate :=
  let fail c := (Some c, [], s) in
  let abort := [AbortUpload uploadID] in
  match sse with
  | Some c => fail c
  | None =>
  if bool_decide (bucket = "") || bool_decide (key = "") || bool_decide (uploadID = "") then fail "InvalidRequest"
  else if mh_disableMultipart h then fail "NotImplemented"
  else if mpuGuardMisconfig pm s bucket then fail "ServiceUnavailable"
  else match client with
  | Some c => fail c
  | None =>
  match uploadState (cn_get net) s, mh_store h with
  | (Err e, s), Some _ => (Some (missingStateCode e), [], s)
  | (Ok (Some st), s), Some store =>
      if uc_EncryptMultipartUploads (us_core st) then
        let '(r, d, w) := BeginAbort store (cn_begin net) (hs_db s) (hs_world s) in
        let s := mkHState (hs_km s) d w in
        match r with
        | Err _ => (Some "OperationAborted", [], s)
        | Ok revision =>
            match backend with
            | Some _ => (Some "BackendError", abort, reopen store revision (cn_reopen net) s)
            | None =>
                let '(err, d, w) := FinalizeAbort store revision (cn_finalize net) (hs_db s) (hs_world s) in
                let s := mkHState (hs_km s) d w in
                match err with
                | Some e =>
                    if error_is e ErrUploadNotFound then (None, abort, deleteState (cn_delete net) s)
                    else (Some (lifecycleCode e), abort, s)
                | None => (None, abort, deleteState (cn_delete net) s)
                end
            end
        end
      else
        match backend with
        | Some _ => (Some "BackendError", abort, s)
        | None => (None, abort, deleteState (cn_delete net) s)
        end
  | (_, s), _ => (match backend with Some _ => Some "BackendError" | None => None end, abort, s)
  end end end.

End handlers.
