(* ===== verification/MPUHandlersTheorems.v ===== *)
(** * Theorems on the multipart handlers

    What reaches the backend when a part is uploaded, how a new upload is
    routed, and what a failed completion leaves behind. *)
From S2P Require Import Prelude GoStd GoText GoIO Http Primitives ObjectAAD ChunkLayout MPUManifest MPUStream MPUCorrect MPUTheorems KeyManager MemoryKeyManager MPUState Spool MPUStateSafe.
From stdpp Require Import sorting.
From S2P Require Import Metadata ObjectFormat ObjectMeta EngineMeta ObjectWrite Policy MPUHandlers.
Local Open Scope Z_scope.
Local Open Scope go_scope.

(** A buffered body is the whole body, or there is none. *)
Lemma seekable_exact src m d :
  0 ≤ m < MaxInt64 → NewSeekableBody src m = Ok d ↔ src_end src = EOF ∧ d = src_data src ∧ len d ≤ m.
Proof.
  intros Hm. unfold NewSeekableBody. rewrite (wrap_i64_id (m + 1)) by (unfold is_i64, MaxInt64 in *; lia).
  destruct (Z.ltb_spec (len (src_data src)) (m + 1)) as [Hl|Hl].
  - rewrite take_ge by lia. case_decide as He; [split; [done|]; intros (? & _); done|].
    rewrite Z.gtb_ltb. rewrite (proj2 (Z.ltb_ge _ _)) by lia. split; [|by intros (_ & -> & _)].
    intros [= <-]. split_and!; [done..|lia].
  - rewrite decide_False by (by intros []). rewrite length_take, Z.gtb_ltb.
    rewrite (proj2 (Z.ltb_lt _ _)) by lia. split; [done|]. intros (_ & -> & ?). lia.
Qed.

Section parts.
Context {K : Type} `{KeyManagerSpec K} `{HKDF} `{!HKDFLaws} `{Ciphers} `{!CiphersLaws} `{SHA256} `{HMAC} `{StateJSON} `{MapOrder}.
Context `{EnvelopeJSON} `{BucketGlob} (h : MPUHandler).

(** ** Uploading a part *)

(** The key manager of a request state keeps its invariant and its keys. *)
Definition km_keeps (k : K) (s : hstate (K := K)) : Prop :=
  ∃ k', hs_km s = Some k' ∧ km_inv k' ∧ ∀ env p, km_holds k env p → km_holds k' env p.

Lemma unwrapMPUDEK_spec k st bucket uploadID s r s' :
  km_keeps k s → unwrapMPUDEK st bucket uploadID s = (r, s') →
  km_keeps k s' ∧ hs_db s' = hs_db s ∧
  ∀ dek env p, r = Ok dek → env_unmarshal (uc_WrappedDEK (us_core st)) = Ok env → km_holds k env p → dek = p.
Proof.
  intros (k1 & Hk & Hi & Hh) Hu. unfold unwrapMPUDEK in Hu.
  destruct (ValidateEncryptedCryptoMaterial _); [injection Hu as <- <-; split_and!; [by exists k1|done|done]|].
  rewrite Hk in Hu. destruct (env_unmarshal _) as [env|e]; [|injection Hu as <- <-; split_and!; [by exists k1|done|done]].
  destruct (UnwrapKey _ _ _ _) as [[r1 k2] w1] eqn:E. injection Hu as <- <-.
  destruct (unwrap_spec _ _ _ _ _ _ _ Hi E) as (Hi' & Hh' & Hr). split_and!; [exists k2; split_and!; auto|done|].
  intros dek env' p -> [= <-] Hp. destruct (Hr env p eq_refl (Hh _ _ Hp)) as [[= ->]|(e & ? & _)]; done.
Qed.

(** The ciphertext opens to the plaintext with the upload's parameters. *)
Definition sealed_part (bucket key uploadID : string) (st : UploadState) (dek : list byte) (n : Z) (plain data : list byte) : Prop :=
  let c := us_core st in
  ∃ iv bid, IVPrefixFromHex (uc_IVPrefixHex c) = Ok iv ∧ BindingIDBytes c = Ok (Some bid) ∧
    DecryptMPUPartRange (mh_fips h) (mkObject bucket key) bid data dek (UploadIDHash uploadID) iv n (uc_ChunkSize c) 0 (uc_Algorithm c)
      = Ok plain.

(** The store granted a reservation for exactly this content. *)
Definition reserved_part (store : ValkeyStateStore) (dek : list byte) (n : Z) (plain : list byte) (net : nat → access) : Prop :=
  ∃ claim token d w r d' w', ComputePartClaim dek n (len plain) plain EOF = Ok claim ∧
    ReservePart store (mkPartClaim n (EncodeToString url_alphabet false claim) (len plain) "" token "" 0 0) net d w = (Ok r, d', w') ∧
    rv_AlreadyDone r = false.

Lemma reserveEncryptedMPUPart_spec store k bucket uploadID n src st net s r s' :
  mh_store h = Some store → km_keeps k s → reserveEncryptedMPUPart h bucket uploadID n src st net s = (r, s') →
  km_keeps k s' ∧ ∀ res, r = inr res → NewSeekableBody src (effectiveMaxPartBuffer h) = Ok (pv_plain res) ∧
    ∃ c rv, pv_claim res = Some (c, rv) ∧ (rv_AlreadyDone rv = false →
      ∀ env p, env_unmarshal (uc_WrappedDEK (us_core st)) = Ok env → km_holds k env p → reserved_part store p n (pv_plain res) net).
Proof.
  intros Hs Hk. unfold reserveEncryptedMPUPart. rewrite Hs.
  destruct (NewSeekableBody src _) as [plain|e]; [|by intros [= <- <-]].
  destruct (unwrapMPUDEK st bucket uploadID s) as [[dek|e] s1] eqn:Hu;
    destruct (unwrapMPUDEK_spec _ _ _ _ _ _ _ Hk Hu) as (Hk1 & _ & Hd); [|by intros [= <- <-]].
  destruct (ComputePartClaim _ _ _ _ _) as [claim|e] eqn:Hc; [|by intros [= <- <-]].
  destruct (rand_read 16 _) as [[token|e] w]; [|by intros [= <- <-]].
  destruct (ReservePart _ _ _ _ _) as [[[rv|e] d] w'] eqn:Hr; [|by intros [= <- <-]].
  intros [= <- <-]. split; [done|]. intros res [= <-]. split; [done|]. eexists _, _. split; [reflexivity|].
  intros Hdone env p He Hp. rewrite (Hd dek env p eq_refl He Hp) in Hc. by eexists _, _, _, _, _, _, _.
Qed.

Lemma BindingIDBytes_length c b : BindingIDBytes c = Ok (Some b) → len b = 16.
Proof. unfold BindingIDBytes. repeat case_match; intros E; simplify_eq; by zbool. Qed.

Lemma encryptMPUPartWithState_spec k bucket key uploadID n plain st s r s' :
  km_keeps k s → len plain < MaxInt64 →
  encryptMPUPartWithState h bucket key uploadID n (mkSource plain EOF) (len plain) st s = (r, s') →
  km_keeps k s' ∧ ∀ reader encLen, r = Ok (reader, encLen) → ∃ C, sr_rem reader C EOF ∧ len C ≤ 17 * len plain ∧ len C = encLen ∧
    ∀ env p, env_unmarshal (uc_WrappedDEK (us_core st)) = Ok env → km_holds k env p →
      sealed_part bucket key uploadID st p n plain C.
Proof.
  intros Hk Hlen. unfold encryptMPUPartWithState. destruct (IVPrefixFromHex _) as [iv|e] eqn:Hiv; [|by intros [= <- <-]].
  destruct (unwrapMPUDEK st bucket uploadID s) as [[dek|e] s1] eqn:Hu;
    destruct (unwrapMPUDEK_spec _ _ _ _ _ _ _ Hk Hu) as (Hk1 & _ & Hd); [|by intros [= <- <-]].
  destruct (BindingIDBytes (us_core st)) as [[bid|]|e] eqn:Hb; [|by intros [= <- <-]..].
  destruct (NewMPUPartEncryptReader _ _ _ _ _ _ _ _ _ _ _) as [[rd el]|e] eqn:Hw; intros [= <- <-]; [|done]. split; [done|].
  intros reader encLen [= <- <-].
  assert (is_i64 (len plain)) as Hi by (unfold is_i64, MaxInt64 in *; lia).
  destruct (part_written _ _ _ _ _ _ _ _ _ _ _ _ _ Hi (BindingIDBytes_length _ _ Hb) eq_refl Hw)
    as (Hrem & HC & H17 & Hdec).
  eexists. split; [exact Hrem|]. split; [done|]. split; [done|]. intros env p He Hp. rewrite <- (Hd dek env p eq_refl He Hp).
  exists iv, bid. split; [done|]. split; [done|]. specialize (Hdec 0%nat). rewrite Nat.mul_0_l, !drop_0 in Hdec. apply Hdec.
  assert (0 < partChunkSize (uc_ChunkSize (us_core st))) by (unfold partChunkSize; destruct (Z.leb_spec (uc_ChunkSize (us_core st)) 0); [done|lia]).
  pose proof (nchunks_bounds (len plain) (partChunkSize (uc_ChunkSize (us_core st)))). lia.
Qed.

(** The outcome of the encrypted branch: nothing is sent, or exactly one
    part that meets [Q]. *)
Definition sends_only (n : Z) (Q : list byte → Prop) (o : option ((code + string) * list backendCall * hstate (K := K))) : Prop :=
  ∃ reply calls s', o = Some (reply, calls, s') ∧ (calls = [] ∨ ∃ data, calls = [SendPart n data] ∧ Q data).

Lemma uploadEncrypted_spec fuel sz store k bucket key uploadID n src st backend net s :
  0 ≤ effectiveMaxPartBuffer h < MaxInt64 → (∀ i, 0 < sz i)%nat → mh_store h = Some store → km_keeps k s →
  (17 * length (src_data src) < fuel)%nat →
  sends_only n (λ data, uc_Bucket (us_core st) = bucket ∧ uc_Key (us_core st) = key ∧ src_end src = EOF ∧
      ∀ env p, env_unmarshal (uc_WrappedDEK (us_core st)) = Ok env → km_holds k env p →
        sealed_part bucket key uploadID st p n (src_data src) data ∧ reserved_part store p n (src_data src) (pn_reserve net))
    (uploadEncrypted h fuel sz bucket key uploadID n src st backend net s).
Proof.
  intros Hmax Hsz Hs Hk Hf. unfold uploadEncrypted.
  destruct (validateMPURouteIdentity st bucket key) eqn:Hid; cbn [negb]; [|by eexists _, _, _; eauto].
  apply andb_true_iff in Hid as [Hb%bool_decide_eq_true Hkey%bool_decide_eq_true].
  destruct (reserveEncryptedMPUPart _ _ _ _ _ _ _ _) as [[c|res] s1] eqn:Hr; [by eexists _, _, _; eauto|].
  destruct (reserveEncryptedMPUPart_spec _ _ _ _ _ _ _ _ _ _ _ Hs Hk Hr) as (Hk1 & Hres).
  destruct (Hres res eq_refl) as (Hplain & cl & rv & Hcl & Hgrant). rewrite Hcl.
  apply seekable_exact in Hplain as (Hend & Hpl & Hle); [|done].
  destruct (rv_AlreadyDone rv) eqn:Hdone; [by eexists _, _, _; eauto|].
  destruct (time_now (hs_world s1)) as [t0 w0].
  destruct (encryptMPUPartWithState _ _ _ _ _ _ _ _ _) as [r s2] eqn:He.
  apply (encryptMPUPartWithState_spec k) in He as (Hk2 & Hreader); [|done|lia].
  destruct (time_now (hs_world s2)) as [t1 w1].
  destruct r as [[reader encLen]|e]; [|by eexists _, _, _; eauto].
  destruct (Hreader reader encLen eq_refl) as (C & Hrem & H17 & HC & Hsealed).
  rewrite (drain_rem _ _ _ _ Hsz Hrem) by (rewrite Hpl in H17; lia).
  destruct (NewSeekableBody (mkSource C EOF) _) as [data|e] eqn:Hc; [|by eexists _, _, _; eauto].
  apply seekable_exact in Hc as (_ & -> & _); [|done]. cbn [src_data].
  destruct (renewIfSlow _ _ _ _ _) as [[c|] s3]; [by eexists _, _, _; eauto|].
  assert (Hok : uc_Bucket (us_core st) = bucket ∧ uc_Key (us_core st) = key ∧ src_end src = EOF ∧
      ∀ env p, env_unmarshal (uc_WrappedDEK (us_core st)) = Ok env → km_holds k env p →
        sealed_part bucket key uploadID st p n (src_data src) C ∧ reserved_part store p n (src_data src) (pn_reserve net)).
  { split_and!; [done..|]. intros env p Henv Hp. rewrite <- Hpl. split; [by eapply Hsealed|by eapply Hgrant]. }
  destruct backend as [etag|e]; [|by eexists _, _, _; eauto].
  destruct (commitUploaded _ _ _ _ _ _ _) as [[c|] s4]; by eexists _, _, _; eauto.
Qed.

End parts.

(** ** Creating an upload *)

#[local] Arguments IsStandard : simpl never.
#[local] Arguments responseOnly : simpl never.
#[local] Arguments EqualFold : simpl never.

Lemma lookup_absent (m : gomap) k : k ∉ m.*1 → map_lookup m k = None.
Proof.
  induction m as [|[a v] m IH]; intros Hk; [done|]. cbn. rewrite decide_False; [|intros ->; apply Hk; by left].
  apply IH. intros Hin. apply Hk. by right.
Qed.

Lemma wf_set m k v : wf_map m → wf_map (map_set m k v).
Proof.
  unfold wf_map. induction m as [|[a b] m IH]; intros Hm; cbn [map_set]; [repeat constructor; by apply not_elem_of_nil|].
  apply NoDup_cons in Hm as [Ha Hm]. case_decide as E; subst; [by constructor|]. constructor; [|by apply IH].
  cbn. rewrite map_set_keys. by intros [->|?].
Qed.

Lemma lookup_fold_set (P : string → bool) (m out : gomap) k :
  wf_map m →
  map_lookup (foldl (λ out kv, if P kv.1 then out else map_set out kv.1 kv.2) out m) k =
  if P k then map_lookup out k else match map_lookup m k with Some v => Some v | None => map_lookup out k end.
Proof.
  revert out. induction m as [|[a v] m IH]; intros out Hm; cbn; [by destruct (P k)|].
  apply NoDup_cons in Hm as [Ha Hm]. rewrite IH by done.
  destruct (P a) eqn:Ea, (P k) eqn:Ek, (decide (a = k)) as [->|Hne]; try congruence; try done;
    rewrite map_lookup_set; [by rewrite decide_False|rewrite decide_True by done|by rewrite decide_False].
  by rewrite (lookup_absent m k Ha).
Qed.

Lemma Split_lookup (m : gomap) k : wf_map m → IsStandard k = false → map_lookup (objectmeta_Split m).2 k = map_lookup m k.
Proof.
  intros Hm Hk. pose proof (lookup_fold_set IsStandard m [] k Hm) as Hl. rewrite Hk in Hl. cbn in Hl.
  transitivity (map_lookup (foldl (λ out kv, if IsStandard kv.1 then out else map_set out kv.1 kv.2) [] m) k).
  - f_equal. unfold objectmeta_Split. generalize zeroStandard. generalize (@nil (string * string)).
    clear. induction m as [|[a v] m IH]; intros out s; [done|]. cbn. destruct (IsStandard a); apply IH.
  - rewrite Hl. by destruct (map_lookup m k).
Qed.

Lemma ApplyTo_lookup st m k : IsStandard k = false → map_lookup (ApplyTo st m) k = map_lookup m k.
Proof.
  unfold ApplyTo. intros Hk. assert (Hn : Forall (λ n, n ≠ k) Names).
  { apply Forall_forall. intros n Hn ->. revert Hk. unfold IsStandard. intros E.
    apply not_true_iff_false in E. apply E. apply existsb_exists. exists k. split; [by apply list_elem_of_In|]. by apply EqualFold_spec. }
  revert m. induction Names as [|n ns IH]; intros m; [done|]. apply Forall_cons in Hn as [Hn Hns]. cbn.
  rewrite (IH Hns). case_decide; [|done]. by rewrite map_lookup_set, decide_False.
Qed.

Lemma wf_fold_set P (m out : gomap) : wf_map out → wf_map (foldl (λ out kv, if P kv.1 : bool then out else map_set out kv.1 kv.2) out m).
Proof.
  revert out. induction m as [|[a v] m IH]; intros out Ho; [done|]. cbn. apply IH. destruct (P a); [done|]. by apply wf_set.
Qed.

(** A gateway field survives the persist plan of an upload. *)
Lemma persist_lookup m filters k :
  wf_map m → IsStandard k = false → responseOnly k = false → existsb (EqualFold k) filters = false →
  map_lookup (ApplyTo (pp_Native (buildPersistPlan m false filters)) (pp_Metadata (buildPersistPlan m false filters))) k = map_lookup m k.
Proof.
  intros Hm Hs Hr Hf. rewrite ApplyTo_lookup by done. unfold buildPersistPlan.
  set (kept := foldl _ [] m). destruct (objectmeta_Split kept) as [st r] eqn:E. cbn [pp_Metadata].
  rewrite (map_lookup_filter (λ k, negb (responseOnly k))), Hr. cbn [negb].
  replace r with (objectmeta_Split kept).2 by (by rewrite E). rewrite Split_lookup; [|apply (wf_fold_set (λ a, existsb (EqualFold a) filters)); constructor|done].
  unfold kept. rewrite (lookup_fold_set (λ a, existsb (EqualFold a) filters)) by done. rewrite Hf. cbn. by destruct (map_lookup m k).
Qed.

Lemma wf_ApplyTo st m : wf_map m → wf_map (ApplyTo st m).
Proof.
  unfold ApplyTo. revert m. induction Names as [|n ns IH]; intros m Hm; [done|]. cbn. apply IH. case_decide; [by apply wf_set|done].
Qed.

Lemma wf_engineInput m n b : wf_map (engineInput m n b).
Proof.
  unfold engineInput. assert (wf_map (ApplyTo (wm_Standard m) (foldl (λ out kv, map_set out kv.1 kv.2) [] (wm_User m)))) as Hw.
  { apply wf_ApplyTo. apply (wf_fold_set (λ _, false)). constructor. }
  destruct b; [by apply wf_set|done].
Qed.

(** The metadata of the upload before the markers. *)
Definition baseMetadata (m : writeMetadata) : gomap :=
  let metadata := engineInput m 0 false in
  if decide (mget metadata "Content-Type" = "") then map_set metadata "Content-Type" "application/octet-stream" else metadata.

Lemma baseMetadata_clean hdr m k :
  parseWriteMetadata hdr = Ok m → wf_map (baseMetadata m) ∧ (IsGatewayReservedKey k = true → map_lookup (baseMetadata m) k = None).
Proof.
  intros Hp. unfold parseWriteMetadata in Hp. destruct (userMetadata hdr []) as [u|] eqn:Hu; [|done]. cbn in Hp.
  assert (Hc : unreserved_keys (wm_User m)).
  { injection Hp as <-. apply (userMetadata_clean _ _ _ Hu). intros k' Hk'. by apply elem_of_nil in Hk'. }
  assert (Hb : unreserved_keys (baseMetadata m)).
  { unfold baseMetadata. case_decide; [|by apply engineInput_clean]. apply unreserved_set; [by vm_compute|by apply engineInput_clean]. }
  split; [unfold baseMetadata; case_decide; [apply wf_set|]; apply wf_engineInput|].
  intros Hk. apply lookup_absent. intros Hin. apply Hb in Hin. congruence.
Qed.

Definition mpuMarkers : list string := [MetaMPUEncrypted; MetaObjectBindingID; MetaFallbackPointer].

Lemma markers_checked :
  forallb (λ k, IsGatewayReservedKey k && negb (IsStandard k) && negb (responseOnly k)) mpuMarkers = true.
Proof. vm_compute. reflexivity. Qed.

Lemma marker_props k : k ∈ mpuMarkers → IsGatewayReservedKey k = true ∧ IsStandard k = false ∧ responseOnly k = false.
Proof.
  intros Hk. pose proof markers_checked as Hc. rewrite forallb_forall in Hc. specialize (Hc k (proj1 (list_elem_of_In _ _) Hk)).
  apply andb_true_iff in Hc as [[? ?%negb_true_iff]%andb_true_iff ?%negb_true_iff]. done.
Qed.

Lemma marked_lookup m b key :
  map_lookup (markEncryptedMPU m b key) MetaMPUEncrypted = Some "v2" ∧
  map_lookup (markEncryptedMPU m b key) MetaObjectBindingID = Some (encodeBinding b) ∧
  map_lookup (markEncryptedMPU m b key) MetaFallbackPointer = Some (key +:+ MPUManifestSuffix).
Proof. unfold markEncryptedMPU. rewrite !map_lookup_set. split_and!; repeat (rewrite decide_False by done || rewrite decide_True by done); done. Qed.

(** The markers of an encrypted upload, or none of them. *)
Definition has_markers (enc : bool) (key : string) (m : gomap) : Prop :=
  if enc then
    ∃ b, len b = 16 ∧ mget m MetaMPUEncrypted = "v2" ∧ mget m MetaObjectBindingID = encodeBinding b ∧
      mget m MetaFallbackPointer = key +:+ MPUManifestSuffix
  else ∀ k, k ∈ mpuMarkers → mget m k = "".

Lemma persisted_markers enc key m filters :
  Forall (λ k, existsb (EqualFold k) filters = false) mpuMarkers → wf_map m → has_markers enc key m →
  has_markers enc key (ApplyTo (pp_Native (buildPersistPlan m false filters)) (pp_Metadata (buildPersistPlan m false filters))).
Proof.
  intros Hfilter Hwf. set (md := ApplyTo _ _).
  assert (Hget : ∀ k, k ∈ mpuMarkers → mget md k = mget m k).
  { intros k Hk. unfold mget, md. destruct (marker_props k Hk) as (_ & Hs & Hr). rewrite persist_lookup; [done..|].
    rewrite Forall_forall in Hfilter. by apply Hfilter. }
  unfold has_markers. destruct enc.
  - intros (b & Hb & Hm). exists b. split; [done|]. rewrite !Hget by (unfold mpuMarkers; set_solver). exact Hm.
  - intros Hm k Hk. rewrite Hget by done. exact (Hm k Hk).
Qed.

Lemma marked_markers m b key : wf_map m → len b = 16 →
  wf_map (markEncryptedMPU m b key) ∧ has_markers true key (markEncryptedMPU m b key).
Proof.
  intros Hm Hb. split; [unfold markEncryptedMPU; by repeat apply wf_set|].
  exists b. split; [done|]. unfold mget. destruct (marked_lookup m b key) as (-> & -> & ->). done.
Qed.

Section create.
Context {K : Type} `{KeyManager K} `{HKDF} `{!HKDFLaws} `{Ciphers} `{!CiphersLaws} `{SHA256} `{StateJSON} `{MapOrder}.
Context `{EnvelopeJSON} `{BucketGlob} (h : MPUHandler).

(** The record of the new upload was created with these routing data. *)
Definition recorded (store : ValkeyStateStore) (encrypted : bool) (uploadID bucket key binding : string) (a : access)
    (s s' : hstate (K := K)) : Prop :=
  ∃ core w w', uc_UploadID core = uploadID ∧ uc_Bucket core = bucket ∧ uc_Key core = key ∧
    uc_EncryptMultipartUploads core = encrypted ∧ (encrypted = true → uc_BindingID core = binding) ∧
    Create store (mkUploadState core [] CurrentStateVersion UploadPhaseOpen 1) a (hs_db s) w = (None, hs_db s', w').

Lemma recordUpload_spec store encrypts uploadID bucket key metadata a s err s' :
  recordUpload h store encrypts uploadID bucket key metadata a s = (err, s') → err = None →
  (encrypts = true → ∃ b, DecodeString url_alphabet false (mget metadata MetaObjectBindingID) = Some b ∧ len b = 16 ∧
     is_Some (hs_km s) ∧ recorded store true uploadID bucket key (encodeBinding b) a s s') ∧
  (encrypts = false → recorded store false uploadID bucket key "" a s s').
Proof.
  intros Hr ->. unfold recordUpload in Hr. destruct encrypts.
  - split; [intros _|done]. destruct (DecodeString _ _ _) as [b|]; [|done]. destruct (Z.eqb_spec (len b) 16) as [Hb|]; [|done].
    exists b. split; [done|]. split; [done|]. unfold initMPUEncryptionState in Hr.
    destruct (rand_read 32 _) as [[dek|e] w1]; [|done]. destruct (rand_read 12 w1) as [[iv|e] w2]; [|done].
    destruct (zero_binding b); [done|]. cbn [hs_km hs_db hs_world] in Hr. destruct (hs_km s) as [k|]; [|done].
    destruct (WrapKey _ _ _ _) as [[[env|e] k1] w3]; [|done]. destruct (time_now w3) as [now w4].
    destruct (Create _ _ _ _ _) as [[err d] w5] eqn:Hc. injection Hr as -> <-. split; [by eexists|].
    cbn [hs_db] in Hc. by eexists _, _, _; split_and!; [..|exact Hc].
  - split; [done|intros _]. destruct (time_now _) as [now w1]. destruct (Create _ _ _ _ _) as [[err d] w2] eqn:Hc. injection Hr as -> <-.
    by eexists _, _, _; split_and!; [..|exact Hc].
Qed.

(** The metadata of the upload when its markers have been set. *)
Lemma marked_metadata hdr wm (enc : bool) key (s : hstate (K := K)) m s1 :
  parseWriteMetadata hdr = Ok wm →
  (if enc then
     match rand_read 16 (hs_world s) with
     | (Err _, w) => (None, mkHState (hs_km s) (hs_db s) w)
     | (Ok bindingID, w) => (Some (markEncryptedMPU (baseMetadata wm) bindingID key), mkHState (hs_km s) (hs_db s) w)
     end
   else (Some (baseMetadata wm), s)) = (Some m, s1) →
  wf_map m ∧ hs_db s1 = hs_db s ∧ has_markers enc key m.
Proof.
  intros Hwm Hmark. destruct (baseMetadata_clean hdr wm "" Hwm) as [Hwf _]. destruct enc.
  - destruct (rand_read 16 (hs_world s)) as [[b|e] w] eqn:Hb; [|done]. injection Hmark as <- <-.
    destruct (marked_markers (baseMetadata wm) b key Hwf) as [? ?]; [by rewrite (rand_read_length _ _ _ _ Hb)|done].
  - injection Hmark as <- <-. split_and!; [done..|]. intros k Hk. destruct (marker_props k Hk) as [Hr _].
    unfold mget. by rewrite (proj2 (baseMetadata_clean hdr wm k Hwm) Hr).
Qed.

(** C14: how a new upload is routed. A failed request leaves no upload behind:
    if the backend had created one it is aborted. A successful one has
    created exactly one upload. Its metadata has the markers of an encrypted
    upload exactly if the policy asked for encryption at its second reading,
    and the state store has its record exactly as the policy says at the third
    reading, under the binding in the metadata; an encrypted record never
    comes without the markers. Markers and record therefore agree if the
    policy is not reloaded in between; if it is, an upload whose metadata
    declares it encrypted can get a record that routes its parts in clear.
    Without a state store no upload is created that the policy wanted
    encrypted at the first reading. *)
Theorem mpu_create_routing pm sse client bucket key hdr backend a s reply calls s' :
  Forall (λ k, existsb (EqualFold k) (mh_filterKeys h) = false) mpuMarkers →
  handleCreateMultipartUpload h pm sse client bucket key hdr backend a s = (reply, calls, s') →
  match reply with
  | inl _ => ∀ uploadID, backend = Ok uploadID → calls = [] ∨ ∃ metadata, calls = [CreateUpload metadata; AbortUpload uploadID]
  | inr uploadID =>
      backend = Ok uploadID ∧ ∃ metadata, calls = [CreateUpload metadata] ∧
      (if bucketEncryptsMPU (pm 1%nat) bucket then
         ∃ b, len b = 16 ∧ mget metadata MetaMPUEncrypted = "v2" ∧ mget metadata MetaObjectBindingID = encodeBinding b ∧
           mget metadata MetaFallbackPointer = key +:+ MPUManifestSuffix
       else ∀ k, k ∈ mpuMarkers → mget metadata k = "") ∧
      match mh_store h with
      | None => bucketEncryptsMPU (pm 0%nat) bucket = false
      | Some store =>
          if bucketEncryptsMPU (pm 2%nat) bucket
          then bucketEncryptsMPU (pm 1%nat) bucket = true ∧
               recorded store true uploadID bucket key (mget metadata MetaObjectBindingID) a s s'
          else recorded store false uploadID bucket key "" a s s'
      end
  end.
Proof.
  intros Hfilter. unfold handleCreateMultipartUpload.
  destruct sse as [c|]; [intros [= <- <- <-]; by left|].
  destruct (bool_decide (bucket = "") || _); [intros [= <- <- <-]; by left|].
  destruct (mh_disableMultipart h); [intros [= <- <- <-]; by left|].
  destruct (mpuGuardMisconfig h (pm 0%nat) s bucket) eqn:Hguard; [intros [= <- <- <-]; by left|].
  destruct (parseWriteMetadata hdr) as [wm|e] eqn:Hwm; [|intros [= <- <- <-]; by left]. fold (baseMetadata wm).
  destruct client as [c|]; [intros [= <- <- <-]; by left|].
  set (enc1 := bucketEncryptsMPU (pm 1%nat) bucket). set (enc2 := bucketEncryptsMPU (pm 2%nat) bucket).
  destruct (if enc1 then _ else _) as [[m|] s1] eqn:Hmark; [|intros [= <- <- <-]; by left].
  destruct (marked_metadata hdr wm enc1 key s m s1 Hwm Hmark) as (Hwf & Hdb & Hm). set (md := ApplyTo _ _).
  assert (Hmarked : has_markers enc1 key md) by (by apply persisted_markers). unfold has_markers in Hmarked.
  destruct backend as [uploadID|e]; [|intros [= <- <- <-] ? [=]].
  destruct (mh_store h) as [store|] eqn:Hst.
  - destruct (recordUpload h store enc2 uploadID bucket key md a s1) as [[err|] s2] eqn:Hrec; intros [= <- <- <-].
    + intros ? [= <-]. right. by eexists.
    + split; [done|]. exists md. split; [done|]. split; [done|].
      destruct (recordUpload_spec _ _ _ _ _ _ _ _ _ _ Hrec eq_refl) as [Ht Hf].
      unfold recorded in *. rewrite Hdb in *. destruct enc2; [|by apply Hf].
      destruct (Ht eq_refl) as (b & Hdec & Hb & _ & Hr). destruct enc1.
      * split; [done|]. destruct Hmarked as (b' & Hb' & _ & Hbind & _). rewrite Hbind in Hdec |- *.
        unfold encodeBinding in Hdec. rewrite DecodeString_EncodeToString in Hdec by apply url_alphabet_ok. injection Hdec as ->. exact Hr.
      * exfalso. rewrite (Hmarked MetaObjectBindingID ltac:(right; left)) in Hdec.
        assert (DecodeString url_alphabet false "" = Some []) as E by reflexivity. rewrite E in Hdec. injection Hdec as <-. done.
  - intros [= <- <- <-]. split; [done|]. exists md. split; [done|]. split; [done|].
    unfold mpuGuardMisconfig, mpuEncryptionReady in Hguard. rewrite Hst in Hguard. cbn in Hguard.
    by rewrite andb_true_r in Hguard.
Qed.
End create.

(** ** Completing an upload *)

(** The parts a request may name: increasing numbers in range, canonical ETags. *)
Definition proper_selection (ps : list SelectedPart) : Prop :=
  StronglySorted Z.lt (sp_PartNumber <$> ps) ∧
  Forall (λ p, 1 ≤ sp_PartNumber p ≤ 10000 ∧ ∃ b, sp_ETag p = string_of_bytes b ∧ isValidETag b = true) ps.

Lemma normalizeETag_valid e c : normalizeETag e = Some c → isValidETag c = true.
Proof.
  unfold normalizeETag. destruct (_ && _ && _); [by destruct (isValidETag e) eqn:E; intros [= <-]|].
  destruct (_ || _); [done|]. by destruct (isValidETag _) eqn:E; intros [= <-].
Qed.

Lemma sorted_snoc l n : StronglySorted Z.lt l → Forall (λ x, x < n) l → StronglySorted Z.lt (l ++ [n]).
Proof.
  induction 1 as [|a l Hl IH Ha]; intros Hn; cbn; [repeat constructor|]. apply Forall_cons in Hn as [Hn Hns].
  constructor; [by apply IH|]. apply Forall_app. split; [done|]. by repeat constructor.
Qed.

Lemma request_parts_spec parts seen last out res :
  proper_selection out → (∀ n, n ∈ seen ↔ n ∈ sp_PartNumber <$> out) → Forall (λ n, n ≤ last) (sp_PartNumber <$> out) →
  validateParts parts seen last out = Ok res →
  proper_selection res ∧ sp_PartNumber <$> res = (sp_PartNumber <$> out) ++ (sp_PartNumber <$> parts).
Proof.
  revert seen last out. induction parts as [|p parts IH]; intros seen last out [Hs Hp] Hseen Hlast; cbn [validateParts].
  - intros [= <-]. by rewrite fmap_nil, app_nil_r.
  - destruct (_ || _) eqn:Hr; [done|]. zbool. case_bool_decide as Hin; [done|].
    destruct (normalizeETag _) as [c|] eqn:Hc; [|done]. apply normalizeETag_valid in Hc.
    destruct (negb _ && _) eqn:Ho; [done|]. intros Hv. apply IH in Hv as [Hok ->].
    + split; [done|]. by rewrite fmap_app, <-app_assoc.
    + assert (Forall (λ x, x < sp_PartNumber p) (sp_PartNumber <$> out)) as Hlt.
      { apply Forall_forall. intros x Hx. rewrite Hseen in Hin. rewrite Forall_forall in Hlast. pose proof (Hlast x Hx).
        apply andb_false_iff in Ho as [Ho|Ho].
        - apply negb_false_iff, bool_decide_eq_true in Ho. subst out. by apply elem_of_nil in Hx.
        - assert (x ≠ sp_PartNumber p) by (by intros ->). zbool. lia. }
      split; [rewrite fmap_app; by apply sorted_snoc|]. apply Forall_app. split; [done|]. constructor; [|constructor]. cbn. split; [lia|eauto].
    + intros n. rewrite fmap_app, elem_of_cons, elem_of_app, Hseen. cbn. rewrite list_elem_of_singleton. tauto.
    + rewrite fmap_app. apply Forall_app. split; [|by repeat constructor].
      apply Forall_forall. intros x Hx. rewrite Forall_forall in Hlast. pose proof (Hlast x Hx).
      apply andb_false_iff in Ho as [Ho|Ho]; [|zbool; lia].
      apply negb_false_iff, bool_decide_eq_true in Ho. subst out. by apply elem_of_nil in Hx.
Qed.

Lemma validate_request parts ps : validateCompleteMultipartUploadRequest parts = Ok ps →
  proper_selection ps ∧ sp_PartNumber <$> ps = sp_PartNumber <$> parts ∧ 0 < len ps ≤ 10000.
Proof.
  unfold validateCompleteMultipartUploadRequest. case_bool_decide as Hne; [done|]. destruct (len parts >? 10000) eqn:Hl; [done|]. zbool.
  intros [Hok E]%request_parts_spec; [| |done|constructor].
  - split; [done|]. split; [done|]. change (sp_PartNumber <$> ps = sp_PartNumber <$> parts) in E. apply (f_equal length) in E.
    rewrite !length_fmap in E. destruct parts; [done|]. cbn [length] in *. lia.
  - split; constructor.
Qed.

Section complete.
Context {K : Type} `{Ciphers} `{StateJSON} `{MapOrder} `{MPUManifestJSON} `{BucketGlob} (h : MPUHandler).

(** C15: the order of effects of a completion. The backend is asked to complete
    an upload only for a request that names increasing part numbers with
    canonical ETags; for an upload whose record says that it is encrypted,
    only after the store has moved the upload to completing with exactly
    these parts, and after the sealed manifest of those parts has been
    written to the companion of the object's key. That write is not undone
    when the backend then refuses the completion: the companion of an
    encrypted object already stored under that key is gone, although the
    object itself was not replaced. *)
Theorem mpu_complete_order seal engine put pm sse client lock bucket key uploadID parts backend net s store reply calls s' ps :
  mh_store h = Some store →
  handleCompleteMultipartUpload (K := K) h seal engine put pm sse client lock bucket key uploadID parts backend net s = (reply, calls, s') →
  CompleteUpload ps ∈ calls →
  proper_selection ps ∧ 0 < len ps ≤ 10000 ∧
  ∃ ost s1, uploadState h (cn_get net) s = (Ok ost, s1) ∧
    ∀ st, ost = Some st → uc_EncryptMultipartUploads (us_core st) = true →
      put = None ∧ uc_Bucket (us_core st) = bucket ∧ uc_Key (us_core st) = key ∧
      ∃ st' rev d w m json b enc w',
        BeginComplete store ps (cn_begin net) (hs_db s1) (hs_world s1) = (Ok (st', rev), d, w) ∧
        buildMPUManifest st' bucket key = Ok m ∧ Marshal m = Ok json ∧
        seal (mkObject bucket (key +:+ MPUManifestSuffix)) b json w = (Ok enc, w') ∧
        calls = [PutCompanion (key +:+ MPUManifestSuffix) enc; CompleteUpload ps] ∧
        (∀ e, backend = Err e → reply = inl "BackendError").
Proof.
  intros Hst. unfold handleCompleteMultipartUpload. rewrite Hst.
  assert (Hnil : CompleteUpload ps ∈ [] → False) by (by intros ?%elem_of_nil).
  destruct sse; [by intros [= <- <- <-] ?%Hnil|]. destruct (_ || _ || _); [by intros [= <- <- <-] ?%Hnil|].
  destruct (mh_disableMultipart h); [by intros [= <- <- <-] ?%Hnil|].
  destruct (mpuGuardMisconfig _ _ _ _); [by intros [= <- <- <-] ?%Hnil|]. destruct client; [by intros [= <- <- <-] ?%Hnil|].
  destruct parts as [parts|e]; cbn [mbind result_bind]; [|by intros [= <- <- <-] ?%Hnil].
  destruct (validateCompleteMultipartUploadRequest parts) as [qs|e] eqn:Hv; [|by intros [= <- <- <-] ?%Hnil].
  destruct lock; [by intros [= <- <- <-] ?%Hnil|]. apply validate_request in Hv as (Hq & _ & Hlen).
  destruct (uploadState h (cn_get net) s) as [[ost|e] s1] eqn:Hu; [|by intros [= <- <- <-] ?%Hnil].
  assert (Hone : CompleteUpload ps ∈ [CompleteUpload qs] → ps = qs) by (by intros [= ->]%list_elem_of_singleton).
  destruct ost as [st|].
  2: { destruct backend; intros [= <- <- <-] ->%Hone; (split; [done|]); (split; [done|]); by exists None, s1. }
  destruct (uc_EncryptMultipartUploads (us_core st)) eqn:Hen.
  2: { destruct backend; intros [= <- <- <-] ->%Hone; (split; [done|]); (split; [done|]); exists (Some st), s1;
       (split; [done|]); intros ? [= <-]; congruence. }
  destruct (validateMPURouteIdentity st bucket key) eqn:Hid; cbn [negb]; [|by intros [= <- <- <-] ?%Hnil].
  apply andb_true_iff in Hid as [Hb%bool_decide_eq_true Hky%bool_decide_eq_true].
  destruct (BeginComplete store qs _ _ _) as [[[[st' rev]|e] d] w] eqn:Hbc; [|by intros [= <- <- <-] ?%Hnil].
  unfold writeMPUManifestObject. destruct (buildMPUManifest st' bucket key) as [m|e] eqn:Hm; cbn [mbind result_bind]; [|by intros [= <- <- <-] ?%Hnil].
  destruct (Marshal m) as [json|e] eqn:Hj; [|by intros [= <- <- <-] ?%Hnil]. destruct engine; [by intros [= <- <- <-] ?%Hnil|].
  destruct (DecodeString _ _ _) as [b|]; [|by intros [= <- <- <-] ?%Hnil]. destruct (negb _); [by intros [= <- <- <-] ?%Hnil|].
  cbn [hs_world hs_km hs_db]. destruct (seal _ b json w) as [[enc|e] w'] eqn:Hs; [|by intros [= <- <- <-] ?%Hnil].
  destruct put as [e|]; [intros [= <- <- <-] ?%list_elem_of_singleton; done|]. cbn [app].
  assert (Hgoal : ∀ reply' : code + string * option Z, (∀ e, backend = Err e → reply' = inl "BackendError") → CompleteUpload ps ∈ [PutCompanion (key +:+ MPUManifestSuffix) enc; CompleteUpload qs] →
    proper_selection ps ∧ 0 < len ps ≤ 10000 ∧ ∃ ost s2, (Ok (Some st), s1) = (Ok ost, s2) ∧ ∀ st0, ost = Some st0 →
      uc_EncryptMultipartUploads (us_core st0) = true → @None error = None ∧ uc_Bucket (us_core st0) = bucket ∧ uc_Key (us_core st0) = key ∧
      ∃ st' rev d w m json b enc' w', BeginComplete store ps (cn_begin net) (hs_db s2) (hs_world s2) = (Ok (st', rev), d, w) ∧
        buildMPUManifest st' bucket key = Ok m ∧ Marshal m = Ok json ∧
        seal (mkObject bucket (key +:+ MPUManifestSuffix)) b json w = (Ok enc', w') ∧
        [PutCompanion (key +:+ MPUManifestSuffix) enc; CompleteUpload qs] = [PutCompanion (key +:+ MPUManifestSuffix) enc'; CompleteUpload ps] ∧
        (∀ e, backend = Err e → reply' = inl "BackendError")).
  { intros reply' Hrep Hin. apply elem_of_cons in Hin as [[=]|Hin]. apply Hone in Hin as ->. split; [done|]. split; [done|].
    exists (Some st), s1. split; [done|]. intros st0 [= <-] _. split_and!; [done..|]. by eexists st', rev, d, w, m, json, b, enc, w'. }
  destruct backend as [etag|e]; [|intros [= <- <- <-]; by apply Hgoal].
  destruct (FinalizeComplete _ _ _ _ _) as [[[e|] d2] w2]; intros [= <- <- <-]; by apply Hgoal.
Qed.
End complete.

(** ** The theorems at concrete inputs *)

Section witnesses.
Import ToyInstances MPUStateWitness MemoryWitness.

Definition w_create : World :=
  mkWorld 100 [] [Ok (replicate 16 x07); Ok dek; Ok (replicate 12 x05)] [].
Definition handler : MPUHandler := mkMPUHandler (Some s0) false false 0 0 [] "" false.
Definition fresh : hstate := mkHState (Some manager) None w_create.
Definition wrapped : KeyEnvelope :=
  match (WrapKey dek [] manager world).1.1 with Ok e => e | Err _ => mkEnvelope "" 0 "" [] 0 end.
#[local] Instance fixed_envelope : EnvelopeJSON := {| env_marshal _ := "env"; env_unmarshal _ := Ok wrapped |}.
#[local] Instance toy_mac : HMAC := {| hmac_sha256 k m := be_encode 32 (Toy.checksum (k ++ m)) |}.
#[local] Instance every_bucket : BucketGlob := {| Glob _ _ := true |}.
#[local] Instance no_manifest : MPUManifestJSON := {| json_marshal_mpu _ := [x01]; json_unmarshal_mpu _ := None |}.

(** A policy set without entries encrypts uploads; the other one opts out. *)
Definition encrypting : option PolicyManager := Some (mkManager []).
Definition opted_out : option PolicyManager := Some (mkManager [mkPolicyConfig (txt "p") [txt "*"] None None false false false (Some false)]).
Definition create (pm : nat → option PolicyManager) :=
  handleCreateMultipartUpload handler pm None None "bucket" "key" [] (Ok "up-1") (quiet 0) fresh.
(** The policy is reloaded between the second and the third reading. *)
Definition reloaded (i : nat) : option PolicyManager := if (i <? 2)%nat then encrypting else opted_out.

Lemma mpu_create_routing_witness :
  ∃ md s', create reloaded = (inr "up-1", [CreateUpload md], s') ∧ mget md MetaMPUEncrypted = "v2" ∧
    recorded s0 false "up-1" "bucket" "key" "" (quiet 0) fresh s'.
Proof.
  assert (E : ∃ md s', create reloaded = (inr "up-1", [CreateUpload md], s')) by (eexists _, _; vm_compute; reflexivity).
  destruct E as (md & s' & E). exists md, s'. split; [exact E|].
  assert (Forall (λ k, existsb (EqualFold k) (mh_filterKeys handler) = false) mpuMarkers) as Hf by (repeat constructor).
  destruct (mpu_create_routing handler reloaded None None "bucket" "key" [] (Ok "up-1") (quiet 0) fresh _ _ _ Hf E)
    as (_ & md' & Emd & (b & _ & Hm & _) & Hr).
  injection Emd as ->. split; [exact Hm|exact Hr].
Defined.

Definition opened : hstate := (create (λ _, encrypting)).2.
Definition net0 : partNet := mkPartNet (quiet 0) (λ _, quiet 0) (λ _, quiet 0) (λ _, quiet 0) (λ _, quiet 0).
Definition hello : Source := mkSource (txt "hello") EOF.

Lemma manager_ready : km_inv manager.
Proof. change (0 < im_activeVersion manager). reflexivity. Qed.

Lemma wrapped_held : km_holds manager wrapped dek.
Proof.
  assert (E : WrapKey dek [] manager world = (Ok wrapped, manager, world)) by (vm_compute; reflexivity).
  destruct (wrap_spec dek [] manager world (Ok wrapped) manager world eq_refl manager_ready E) as (_ & Hh & _). exact (Hh wrapped eq_refl).
Qed.


Definition uploaded : hstate :=
  match handleUploadPart handler 100 (λ _, 7%nat) encrypting None None "bucket" "key" "up-1" "1" (Ok hello) (Ok "abcd") net0 opened with
  | Some (_, _, s) => s
  | None => opened
  end.
Definition seal0 (_ : ObjectContext) (_ _ : list byte) (w : World) : result (list byte) * World := (Ok [x09], w).
Definition net1 : completeNet := mkCompleteNet (quiet 0) (λ _, quiet 0) (λ _, quiet 0) (λ _, quiet 0) (quiet 0).
Definition refuse : error := Sentinel "EntityTooSmall".

(** The backend refuses the completion; the companion has been written. *)
Lemma mpu_complete_order_witness :
  ∃ ps enc s', handleCompleteMultipartUpload handler seal0 None None encrypting None None None "bucket" "key" "up-1"
      (Ok [mkSelected 1 "abcd"]) (Err refuse) net1 uploaded
      = (inl "BackendError", [PutCompanion "key.mpu-manifest" enc; CompleteUpload ps], s') ∧
    proper_selection ps ∧ ∃ st s1, uploadState handler (quiet 0) uploaded = (Ok (Some st), s1) ∧ uc_Bucket (us_core st) = "bucket".
Proof.
  assert (E : ∃ ps enc s', handleCompleteMultipartUpload handler seal0 None None encrypting None None None "bucket" "key" "up-1"
      (Ok [mkSelected 1 "abcd"]) (Err refuse) net1 uploaded = (inl "BackendError", [PutCompanion "key.mpu-manifest" enc; CompleteUpload ps], s'))
    by (eexists _, _, _; vm_compute; reflexivity).
  destruct E as (ps & enc & s' & E). exists ps, enc, s'. split; [exact E|].
  assert (CompleteUpload ps ∈ [PutCompanion "key.mpu-manifest" enc; CompleteUpload ps]) as Hin by (right; left).
  destruct (mpu_complete_order handler seal0 None None encrypting None None None "bucket" "key" "up-1" (Ok [mkSelected 1 "abcd"]) (Err refuse)
    net1 uploaded s0 _ _ _ ps eq_refl E Hin) as (Hp & _ & ost & s1 & U & Hq). split; [exact Hp|].
  assert (U' : ∃ st s1, uploadState handler (quiet 0) uploaded = (Ok (Some st), s1) ∧ uc_EncryptMultipartUploads (us_core st) = true)
    by (eexists _, _; split; [vm_compute; reflexivity|reflexivity]).
  destruct U' as (st & s2 & U' & Hen). exists st, s2. split; [exact U'|]. cbn [net1 cn_get] in U. rewrite U' in U.
  injection U as <- <-. exact (proj1 (proj2 (Hq st eq_refl Hen))).
Defined.
End witnesses.
