(* ===== verification/Retry.v ===== *)
(** * Backend retries ([internal/s3/retry.go], [internal/s3/client.go], [internal/config/config.go])

    The retry policy of the backend client: defaults and validation of its
    configuration, the four back-off algorithms on wrapping 64-bit durations,
    the classification of errors, the per-operation rules and the retryer the
    client factory installs, with the metrics it emits. Durations are
    nanoseconds. The SDK's own classifier and what [errors.As] finds in an
    error are fields of [backendError]; each random number is an argument. *)
From S2P Require Import Prelude GoStd GoIO GoText Http KeyManager.
Local Open Scope Z_scope.
Local Open Scope go_scope.

(** ** Configuration ([config.go]) *)

Definition Millisecond : Z := 1000000.
Definition Second : Z := 1000000000.
Definition Minute : Z := 60 * Second.

(** [PerOperation] is the map in the order it is ranged over. *)
Record BackendRetryConfig := mkRetryConfig {
  rc_Mode : string; rc_MaxAttempts : Z; rc_InitialBackoff : Z; rc_MaxBackoff : Z; rc_Jitter : string;
  rc_PerOperation : list (string * Z); rc_SafeCopyObject : option bool }.

Definition DefaultBackendRetryMode : string := "standard".
Definition DefaultBackendRetryMaxAttempts : Z := 3.
Definition DefaultBackendRetryInitialBackoff : Z := 100 * Millisecond.
Definition DefaultBackendRetryMaxBackoff : Z := 20 * Second.
Definition DefaultBackendRetryJitter : string := "full".

Definition knownOperationNames : list string :=
  ["PutObject"; "GetObject"; "HeadObject"; "UploadPart"; "CompleteMultipartUpload"; "CreateMultipartUpload";
   "AbortMultipartUpload"; "ListParts"; "CopyObject"; "UploadPartCopy"; "DeleteObject"; "DeleteObjects";
   "ListObjectsV2"; "ListObjects"; "PutObjectRetention"; "GetObjectRetention"; "PutObjectLegalHold";
   "GetObjectLegalHold"; "PutObjectLockConfiguration"; "GetObjectLockConfiguration"].

Definition NormalizeRetry (r : BackendRetryConfig) : BackendRetryConfig :=
  mkRetryConfig
    (if bool_decide (rc_Mode r = "") then DefaultBackendRetryMode else rc_Mode r)
    (if rc_MaxAttempts r <=? 0 then DefaultBackendRetryMaxAttempts else rc_MaxAttempts r)
    (if rc_InitialBackoff r <=? 0 then DefaultBackendRetryInitialBackoff else rc_InitialBackoff r)
    (if rc_MaxBackoff r <=? 0 then DefaultBackendRetryMaxBackoff else rc_MaxBackoff r)
    (if bool_decide (rc_Jitter r = "") then DefaultBackendRetryJitter else rc_Jitter r)
    (rc_PerOperation r)
    (Some (default true (rc_SafeCopyObject r))).

Fixpoint validatePerOperation (ops : list (string * Z)) : option error :=
  match ops with
  | [] => None
  | (op, attempts) :: ops =>
      if negb (bool_decide (op ∈ knownOperationNames)) then Some (Errorf "backend.retry.per_operation: unknown operation %q")
      else if attempts <? 1 then Some (Errorf "backend.retry.per_operation[%q] must be >= 1 (got %d)")
      else if attempts >? 10 then Some (Errorf "backend.retry.per_operation[%q] must be <= 10 (got %d)")
      else validatePerOperation ops
  end.

Definition ValidateRetry (r : BackendRetryConfig) : option error :=
  if negb (bool_decide (rc_Mode r ∈ ["standard"; "adaptive"; "off"])) then Some (Errorf "backend.retry.mode must be standard, adaptive, or off (got %q)")
  else if rc_MaxAttempts r <? 1 then Some (Errorf "backend.retry.max_attempts must be >= 1 (got %d)")
  else if rc_MaxAttempts r >? 10 then Some (Errorf "backend.retry.max_attempts must be <= 10 to prevent runaway retries (got %d)")
  else if rc_InitialBackoff r <? Millisecond then Some (Errorf "backend.retry.initial_backoff must be >= 1ms (got %s)")
  else if rc_MaxBackoff r <? rc_InitialBackoff r then Some (Errorf "backend.retry.max_backoff (%s) must be >= initial_backoff (%s)")
  else if rc_MaxBackoff r >? 5 * Minute then Some (Errorf "backend.retry.max_backoff must be <= 5m (got %s)")
  else if negb (bool_decide (rc_Jitter r ∈ ["full"; "decorrelated"; "equal"; "none"])) then Some (Errorf "backend.retry.jitter must be full, decorrelated, equal, or none (got %q)")
  else validatePerOperation (rc_PerOperation r).

(** ** Back-off ([retry.go]) *)

(** [raw] is the 64-bit random number the call draws. *)
Definition cryptoRandInt63n (raw n : Z) : Z := if n <=? 0 then 0 else wrap_u64 raw `mod` n.

Inductive backoffCalculator :=
| fullJitter (initial max : Z)
| decorrelatedJitter (initial max : Z)
| equalJitter (initial max : Z)
| noJitter (initial max : Z).

(** The doubling loop the three exponential algorithms share. *)
Fixpoint capLoop (n : nat) (exp max : Z) : Z :=
  match n with
  | O => if exp >? max then max else exp
  | S n => let exp := exp *i 2 in if (exp >? max) || (exp <=? 0) then max else capLoop n exp max
  end.

Definition Next (b : backoffCalculator) (raw attempt prev : Z) : Z :=
  match b with
  | fullJitter initial max =>
      let cap := capLoop (Z.to_nat attempt) initial max in cryptoRandInt63n raw (cap +i 1)
  | decorrelatedJitter initial max =>
      let prev := if prev <=? 0 then initial else prev in
      let window := 3 *i prev in
      let window := if window <? 0 then max else window in
      let delay := cryptoRandInt63n raw (window +i 1) +i initial in
      if delay >? max then max else delay
  | equalJitter initial max =>
      let half := capLoop (Z.to_nat attempt) initial max /i 2 in
      if half >? 0 then half +i cryptoRandInt63n raw (half +i 1) else half
  | noJitter initial max => capLoop (Z.to_nat attempt) initial max
  end.

Definition newBackoffCalculator (jitter : string) (initial max : Z) : backoffCalculator :=
  if bool_decide (jitter = "decorrelated") then decorrelatedJitter initial max
  else if bool_decide (jitter = "equal") then equalJitter initial max
  else if bool_decide (jitter = "none") then noJitter initial max
  else fullJitter initial max.

(** ** Classification of errors *)

Inductive retryReasonLabel :=
| reasonTimeout | reasonConnReset | reasonThrottle429 | reasonThrottle503 | reasonInternal500
| reasonDNS | reasonTLS | reasonSDKGeneric | reasonNonRetry.

(** What the classifier looks for in an error: the chain of sentinels, the
    HTTP response it carries (status and [Retry-After] header), the network
    errors and the answer of the SDK's classifier. *)
Record backendError := mkBackendError {
  be_err : error; be_response : option (Z * bytes); be_connReset : bool; be_dnsTemporary : bool;
  be_opTemporary : bool; be_timeout : bool; be_sdkRetryable : bool }.

Definition classifyNetwork (e : backendError) : retryReasonLabel * bool :=
  if be_connReset e then (reasonConnReset, true)
  else if be_dnsTemporary e then (reasonDNS, true)
  else if be_opTemporary e then (reasonConnReset, true)
  else if be_timeout e then (reasonTimeout, true)
  else if be_sdkRetryable e then (reasonSDKGeneric, true)
  else (reasonNonRetry, false).

Definition definite4xx : list Z := [400; 401; 403; 404; 405; 409; 411; 412; 413; 415; 416; 422].

Definition classifyStatus (code : Z) : option (retryReasonLabel * bool) :=
  if bool_decide (code ∈ definite4xx) then Some (reasonNonRetry, false)
  else if code =? 429 then Some (reasonThrottle429, true)
  else if code =? 503 then Some (reasonThrottle503, true)
  else if code =? 500 then Some (reasonInternal500, true)
  else if (code =? 502) || (code =? 504) then Some (reasonThrottle503, true)
  else if code =? 408 then Some (reasonTimeout, true)
  else None.

Definition isCanceled (e : error) : bool := error_is e ContextCanceled || error_is e ContextDeadlineExceeded.
Definition isCryptoError (e : error) : bool :=
  error_is e ErrInvalidEnvelope || error_is e ErrUnwrapFailed || error_is e ErrKeyNotFound || error_is e ErrProviderUnavailable.

Definition classify (err : option backendError) : retryReasonLabel * bool :=
  match err with
  | None => (reasonNonRetry, false)
  | Some e =>
      if isCanceled (be_err e) then (reasonNonRetry, false)
      else if isCryptoError (be_err e) then (reasonNonRetry, false)
      else match be_response e ≫= λ r, classifyStatus r.1 with
      | Some c => c
      | None => classifyNetwork e
      end
  end.

Definition retryAfterSeconds (err : option backendError) : Z :=
  match err ≫= be_response with
  | None => 0
  | Some (_, header) =>
      if bool_decide (header = []) then 0
      else match ParseInt_bytes (TrimSpaceB header) with
      | None => 0
      | Some n => if n <? 0 then 0 else n
      end
  end.

(** ** The retryer *)

(** The metrics calls of the callbacks. *)
Inductive metric :=
| BackendRetry (op : string) (reason : retryReasonLabel) (mode : string)
| BackendRetryBackoff (delay : Z)
| BackendAttemptsPerRequest (op : string) (attempts : Z)
| BackendRetryGiveUp (op : string) (reason : retryReasonLabel).

Record retryer := mkRetryer {
  rt_cfg : BackendRetryConfig; rt_op : string; rt_backoff : backoffCalculator; rt_prevDelay : Z; rt_retries : Z;
  rt_onAttempt : option (string → Z → retryReasonLabel → Z → list metric);
  rt_onGiveUp : option (string → Z → retryReasonLabel → option backendError → list metric) }.

Definition newRetryer (cfg : BackendRetryConfig) onAttempt onGiveUp : retryer :=
  mkRetryer cfg "" (newBackoffCalculator (rc_Jitter cfg) (rc_InitialBackoff cfg) (rc_MaxBackoff cfg)) 0 0 onAttempt onGiveUp.
Definition cloneRetryer (r : retryer) (op : string) : retryer :=
  mkRetryer (rt_cfg r) op (rt_backoff r) 0 0 (rt_onAttempt r) (rt_onGiveUp r).

Fixpoint perOperation (ops : list (string * Z)) (op : string) : option Z :=
  match ops with
  | [] => None
  | (o, n) :: ops => if bool_decide (o = op) then Some n else perOperation ops op
  end.

Definition MaxAttempts (r : retryer) : Z :=
  match perOperation (rc_PerOperation (rt_cfg r)) (rt_op r) with
  | Some n => n
  | None => if bool_decide (rt_op r = "CompleteMultipartUpload") then 1 else rc_MaxAttempts (rt_cfg r)
  end.

Definition IsErrorRetryable (r : retryer) (err : option backendError) : bool :=
  if negb (classify err).2 then false
  else negb (bool_decide (rt_op r = "CopyObject") && negb (default false (rc_SafeCopyObject (rt_cfg r)))).

Definition RetryDelay (raw attempt : Z) (opErr : option backendError) (r : retryer) : Z * list metric * retryer :=
  let delay := Next (rt_backoff r) raw attempt (rt_prevDelay r) in
  let r := mkRetryer (rt_cfg r) (rt_op r) (rt_backoff r) delay (rt_retries r) (rt_onAttempt r) (rt_onGiveUp r) in
  let ra := retryAfterSeconds opErr in
  let delay :=
    if ra >? 0 then
      let raDelay := ra *i Second in
      if raDelay >? delay then
        if raDelay >? rc_MaxBackoff (rt_cfg r) *i 2 then rc_MaxBackoff (rt_cfg r) *i 2 else raDelay
      else delay
    else delay in
  (delay, match rt_onAttempt r with Some f => f (rt_op r) attempt (classify opErr).1 delay | None => [] end, r).

(** The token bucket is the SDK's; the gateway counts the calls. *)
Definition GetRetryToken (r : retryer) : retryer :=
  mkRetryer (rt_cfg r) (rt_op r) (rt_backoff r) (rt_prevDelay r) (wrap_i32 (rt_retries r + 1)) (rt_onAttempt r) (rt_onGiveUp r).

(** What the release of a token emits. *)
Definition makeTrackedRelease (r : retryer) (opErr : option backendError) : list metric :=
  if rt_retries r =? 0 then []
  else match rt_onGiveUp r with
  | None => []
  | Some f =>
      let totalAttempts := rt_retries r +i 1 in
      match opErr with
      | Some _ => f (rt_op r) totalAttempts (classify opErr).1 opErr
      | None => f (rt_op r) totalAttempts reasonSDKGeneric None
      end
  end.

Definition BuildRetryer (cfg : BackendRetryConfig) (op : string) onAttempt onGiveUp : retryer :=
  cloneRetryer (newRetryer cfg onAttempt onGiveUp) op.

(** The sink of [retry.go]: an attempt count for every request, a give-up only
    for a failed one. *)
Definition sink_onGiveUp (op : string) (attempts : Z) (reason : retryReasonLabel) (err : option backendError) : list metric :=
  BackendAttemptsPerRequest op attempts :: match err with Some _ => [BackendRetryGiveUp op reason] | None => [] end.

(** ** The client factory ([client.go]) *)

(** The retryer the SDK gets, [None] for the SDK's no-retry one; [metrics]
    says whether the factory was given a metrics sink. *)
Definition installedRetryer (retry : BackendRetryConfig) (metrics : bool) : option retryer :=
  let rc := NormalizeRetry retry in
  if bool_decide (rc_Mode rc = "off") then None
  else
    let onAttempt := if metrics then
      Some (λ op (_ : Z) reason delay, [BackendRetry op reason (rc_Mode rc); BackendRetryBackoff delay]) else None in
    let onGiveUp := if metrics then
      Some (λ op attempts reason (_ : option backendError), [BackendAttemptsPerRequest op attempts; BackendRetryGiveUp op reason]) else None in
    Some (BuildRetryer rc "" onAttempt onGiveUp).

Fixpoint adaptiveWarnings (ops : list (string * Z)) (maxAttempts : Z) : list string :=
  match ops with
  | [] => []
  | (_, n) :: ops =>
      (if n >? maxAttempts then ["backend.retry.mode=adaptive with per_operation > max_attempts: adaptive mode may emit fewer retries"] else [])
        ++ adaptiveWarnings ops maxAttempts
  end.
Definition ValidationWarnings (cfg : BackendRetryConfig) : list string :=
  (if bool_decide (rc_Jitter cfg = "none") then ["backend.retry.jitter=none disables jitter; this is unsafe under contention and is for debug use only"] else [])
    ++ (if bool_decide (rc_Mode cfg = "adaptive") then adaptiveWarnings (rc_PerOperation cfg) (rc_MaxAttempts cfg) else []).

(** ** Correctness *)

(** The delays of the retries of one operation; each call is its random
    number, its attempt number and the error it follows. *)
Fixpoint retryDelays (r : retryer) (calls : list (Z * Z * option backendError)) : list Z :=
  match calls with
  | [] => []
  | (raw, attempt, opErr) :: calls =>
      let '(delay, _, r) := RetryDelay raw attempt opErr r in delay :: retryDelays r calls
  end.

(** The documented exponential: [min(maxBackoff, initialBackoff * 2^attempt)]. *)
Definition idealCap (rc : BackendRetryConfig) (attempt : Z) : Z :=
  Z.min (rc_MaxBackoff rc) (rc_InitialBackoff rc * 2 ^ attempt).

(** The values each algorithm may produce. *)
Definition jitterRange (rc : BackendRetryConfig) (attempt delay : Z) : Prop :=
  if bool_decide (rc_Jitter rc = "decorrelated") then rc_InitialBackoff rc ≤ delay ≤ rc_MaxBackoff rc
  else if bool_decide (rc_Jitter rc = "equal") then idealCap rc attempt / 2 ≤ delay ≤ idealCap rc attempt
  else if bool_decide (rc_Jitter rc = "none") then delay = idealCap rc attempt
  else 0 ≤ delay ≤ idealCap rc attempt.

Definition valid_retry (rc : BackendRetryConfig) : Prop :=
  1 ≤ rc_MaxAttempts rc ≤ 10 ∧ Millisecond ≤ rc_InitialBackoff rc ≤ rc_MaxBackoff rc ∧ rc_MaxBackoff rc ≤ 5 * Minute ∧
  Forall (λ p, p.1 ∈ knownOperationNames ∧ 1 ≤ p.2 ≤ 10) (rc_PerOperation rc).

#[local] Arguments bool_decide : simpl never.
#[local] Arguments wrap_i64 : simpl never.
#[local] Arguments Z.mul : simpl never.

Lemma validatePerOperation_valid ops :
  validatePerOperation ops = None → Forall (λ p, p.1 ∈ knownOperationNames ∧ 1 ≤ p.2 ≤ 10) ops.
Proof.
  induction ops as [|[op n] ops IH]; simpl; [constructor|].
  case_bool_decide; simpl; [|discriminate].
  repeat case_match; try discriminate. zbool. intros Hops. constructor; [simpl; split; [done|lia]|auto].
Qed.

Lemma ValidateRetry_valid rc : ValidateRetry rc = None → valid_retry rc.
Proof.
  unfold ValidateRetry, valid_retry. intros H.
  repeat match goal with
  | H : (if ?b then Some _ else _) = None |- _ => let E := fresh "E" in destruct b eqn:E; [discriminate H|]
  end.
  zbool. apply validatePerOperation_valid in H. repeat split; try lia; done.
Qed.

Lemma capLoop_exact n exp max :
  0 < exp ≤ max → max ≤ 5 * Minute → capLoop n exp max = Z.min max (exp * 2 ^ Z.of_nat n).
Proof.
  unfold Minute, Second. revert exp. induction n as [|n IH]; intros exp Hexp Hmax; simpl.
  - case_match; zbool; lia.
  - rewrite wrap_i64_id by lia. rewrite Nat2Z.inj_succ, Z.pow_succ_r by lia.
    assert (0 < 2 ^ Z.of_nat n) as Hp by (apply Z.pow_pos_nonneg; lia).
    destruct (exp * 2 >? max) eqn:E1; simpl; zbool; [nia|].
    destruct (exp * 2 <=? 0) eqn:E2; simpl; zbool; [lia|].
    rewrite IH by lia. f_equal. lia.
Qed.

Lemma cryptoRandInt63n_range raw n : 0 < n → 0 ≤ cryptoRandInt63n raw n < n.
Proof. intros Hn. unfold cryptoRandInt63n. case_match; zbool; [lia|]. apply Z.mod_pos_bound. lia. Qed.

Section delays.
Context (rc : BackendRetryConfig) (Hrc : valid_retry rc).

Lemma cap_ideal attempt :
  0 ≤ attempt → capLoop (Z.to_nat attempt) (rc_InitialBackoff rc) (rc_MaxBackoff rc) = idealCap rc attempt.
Proof.
  destruct Hrc as (_ & Hi & Hm & _). intros Ha. unfold Millisecond in *.
  rewrite capLoop_exact by lia. by rewrite Z2Nat.id.
Qed.

Lemma idealCap_range attempt : 0 ≤ attempt → 0 < idealCap rc attempt ≤ rc_MaxBackoff rc.
Proof.
  destruct Hrc as (_ & Hi & Hm & _). unfold idealCap, Millisecond in *. intros Ha.
  assert (0 < 2 ^ attempt) by (apply Z.pow_pos_nonneg; lia). nia.
Qed.

(** Every algorithm stays in its documented range, without overflow. *)
Lemma Next_range raw attempt prev :
  0 ≤ attempt → 0 ≤ prev ≤ rc_MaxBackoff rc →
  let d := Next (newBackoffCalculator (rc_Jitter rc) (rc_InitialBackoff rc) (rc_MaxBackoff rc)) raw attempt prev in
  jitterRange rc attempt d ∧ 0 ≤ d ≤ rc_MaxBackoff rc.
Proof.
  intros Ha Hp. pose proof (idealCap_range attempt Ha) as Hc.
  pose proof Hrc as (_ & Hi & Hm & _). unfold Minute, Second, Millisecond in *.
  unfold newBackoffCalculator, jitterRange.
  case_bool_decide; [|case_bool_decide; [|case_bool_decide]]; cbn -[Z.mul]; rewrite ?cap_ideal by done.
  - set (p := if prev <=? 0 then rc_InitialBackoff rc else prev).
    assert (0 < p ≤ rc_MaxBackoff rc) as Hpp by (unfold p; case_match; zbool; lia).
    rewrite (wrap_i64_id (3 * p)) by lia.
    destruct (3 * p <? 0) eqn:E; zbool; [lia|]. rewrite (wrap_i64_id (3 * p + 1)) by lia.
    pose proof (cryptoRandInt63n_range raw (3 * p + 1) ltac:(lia)) as Hr.
    rewrite wrap_i64_id by lia. case_match; zbool; lia.
  - rewrite Z.quot_div_nonneg by lia.
    assert (0 ≤ idealCap rc attempt / 2 ∧ 2 * (idealCap rc attempt / 2) ≤ idealCap rc attempt) as [Hh0 Hh2].
    { split; [apply Z.div_pos; lia|apply Z.mul_div_le; lia]. }
    rewrite (wrap_i64_id (idealCap rc attempt / 2)) by lia. case_match; zbool.
    + rewrite (wrap_i64_id (_ + 1)) by lia.
      pose proof (cryptoRandInt63n_range raw (idealCap rc attempt / 2 + 1) ltac:(lia)) as Hr.
      rewrite wrap_i64_id by lia. lia.
    + lia.
  - lia.
  - rewrite wrap_i64_id by lia.
    pose proof (cryptoRandInt63n_range raw (idealCap rc attempt + 1) ltac:(lia)). lia.
Qed.

(** The [Retry-After] header in whole seconds is representable. *)
Definition retryAfter_ok (err : option backendError) : Prop := retryAfterSeconds err ≤ 9223372036.

Lemma retryAfterSeconds_nonneg err : 0 ≤ retryAfterSeconds err.
Proof. unfold retryAfterSeconds. repeat case_match; zbool; try lia. Qed.

Lemma RetryDelay_spec raw attempt opErr r :
  rt_cfg r = rc → rt_backoff r = newBackoffCalculator (rc_Jitter rc) (rc_InitialBackoff rc) (rc_MaxBackoff rc) →
  0 ≤ rt_prevDelay r ≤ rc_MaxBackoff rc → 0 ≤ attempt →
  ∃ base r' ms d, RetryDelay raw attempt opErr r = (d, ms, r') ∧ jitterRange rc attempt base ∧
    base ≤ d ≤ 2 * rc_MaxBackoff rc ∧ 0 ≤ d ∧
    (retryAfter_ok opErr → d = Z.max base (Z.min (retryAfterSeconds opErr * Second) (2 * rc_MaxBackoff rc))) ∧
    rt_cfg r' = rc ∧ rt_backoff r' = rt_backoff r ∧ rt_prevDelay r' = base ∧ 0 ≤ base ≤ rc_MaxBackoff rc.
Proof.
  intros Hcfg Hb Hp Ha. pose proof (Next_range raw attempt _ Ha Hp) as [Hj Hd]. rewrite <-Hb in Hj, Hd.
  pose proof Hrc as (_ & Hi & Hm & _). unfold Minute, Millisecond in *. unfold retryAfter_ok.
  pose proof (retryAfterSeconds_nonneg opErr) as Hra.
  unfold RetryDelay. cbn -[Z.mul]. rewrite Hcfg.
  set (base := Next (rt_backoff r) raw attempt (rt_prevDelay r)) in *.
  set (ra := retryAfterSeconds opErr) in *.
  eexists base, _, _, _. split; [reflexivity|]. split; [exact Hj|].
  unfold Second in *. rewrite (wrap_i64_id (rc_MaxBackoff rc * 2)) by lia.
  assert (ra ≤ 9223372036 → ra *i 1000000000 = ra * 1000000000) as Hexact by (intros; apply wrap_i64_id; lia).
  set (rd := ra *i 1000000000) in *.
  repeat split; cbn; try reflexivity; try exact Hcfg; try lia;
    try (intros Hok; specialize (Hexact Hok)); repeat case_match; zbool; lia.
Qed.

Lemma retryDelays_spec calls r :
  rt_cfg r = rc → rt_backoff r = newBackoffCalculator (rc_Jitter rc) (rc_InitialBackoff rc) (rc_MaxBackoff rc) →
  0 ≤ rt_prevDelay r ≤ rc_MaxBackoff rc → Forall (λ call, 0 ≤ call.1.2) calls →
  Forall2 (λ call d, 0 ≤ d ≤ 2 * rc_MaxBackoff rc ∧ ∃ base, jitterRange rc call.1.2 base ∧ base ≤ d ∧
    (retryAfter_ok call.2 → d = Z.max base (Z.min (retryAfterSeconds call.2 * Second) (2 * rc_MaxBackoff rc))))
    calls (retryDelays r calls).
Proof.
  revert r. induction calls as [|[[raw attempt] opErr] calls IH]; intros r Hcfg Hb Hp Hf; cbn [retryDelays]; [constructor|].
  apply Forall_cons in Hf as [Ha Hf]. simpl in Ha.
  destruct (RetryDelay_spec raw attempt opErr r Hcfg Hb Hp Ha) as (base & r' & ms & d & E & Hj & Hd & H0 & Hex & Hc' & Hb' & Hp' & Hbase).
  rewrite E. constructor.
  - split; [lia|]. exists base. split; [exact Hj|]. split; [lia|exact Hex].
  - apply IH; [exact Hc'|by rewrite Hb'|lia|exact Hf].
Qed.
End delays.

Lemma perOperation_valid ops op n : Forall (λ p, p.1 ∈ knownOperationNames ∧ 1 ≤ p.2 ≤ 10) ops →
  perOperation ops op = Some n → op ∈ knownOperationNames ∧ 1 ≤ n ≤ 10.
Proof.
  induction 1 as [|[o m] ops [Hk Hr] _ IH]; simpl; [discriminate|].
  case_bool_decide as Ho; [|exact IH]. intros [= <-]. subst o. split; [exact Hk|exact Hr].
Qed.


Lemma iter_GetRetryToken k r :
  rt_retries r = 0 → Z.of_nat k < 2 ^ 31 →
  rt_retries (Nat.iter k GetRetryToken r) = Z.of_nat k ∧ rt_op (Nat.iter k GetRetryToken r) = rt_op r ∧
  rt_onGiveUp (Nat.iter k GetRetryToken r) = rt_onGiveUp r.
Proof.
  change (2 ^ 31) with 2147483648. intros H0. induction k as [|k IH]; intros Hk; [simpl; auto|].
  destruct (IH ltac:(lia)) as (IHr & IHo & IHg).
  change (Nat.iter (S k) GetRetryToken r) with (GetRetryToken (Nat.iter k GetRetryToken r)). cbn [GetRetryToken rt_retries rt_op rt_onGiveUp].
  rewrite IHr. split; [rewrite wrap_i32_id; lia|auto].
Qed.

(** The callbacks and the empty operation name of the installed retryer. *)
Lemma installedRetryer_shape c r : installedRetryer c true = Some r →
  rt_cfg r = NormalizeRetry c ∧ rt_op r = "" ∧ rt_retries r = 0 ∧
  rt_onGiveUp r = Some (λ op attempts reason (_ : option backendError),
    [BackendAttemptsPerRequest op attempts; BackendRetryGiveUp op reason]).
Proof. unfold installedRetryer. case_bool_decide; [discriminate|]. intros [= <-]. auto. Qed.

Lemma classify_final e :
  isCanceled (be_err e) = true ∨ isCryptoError (be_err e) = true ∨
    (∃ code ra, be_response e = Some (code, ra) ∧ code ∈ definite4xx) → (classify (Some e)).2 = false.
Proof.
  intros He. unfold classify.
  destruct (isCanceled (be_err e)) eqn:E1; [reflexivity|]. destruct (isCryptoError (be_err e)) eqn:E2; [reflexivity|].
  destruct He as [He|[He|(code & ra & He & Hin)]]; [discriminate He|discriminate He|].
  rewrite He. cbn. unfold classifyStatus. rewrite bool_decide_eq_true_2 by exact Hin. reflexivity.
Qed.

Lemma perOperation_empty ops :
  Forall (λ p, p.1 ∈ knownOperationNames ∧ 1 ≤ p.2 ≤ 10) ops → perOperation ops "" = None.
Proof.
  intros Hops. destruct (perOperation ops "") as [n|] eqn:E; [|reflexivity].
  apply perOperation_valid in E as [E _]; [|exact Hops].
  exfalso. revert E. apply (bool_decide_eq_false ("" ∈ knownOperationNames)). vm_compute. reflexivity.
Qed.

(** C32: The retryer installed in the SDK never retries a cancelled request, a
    key-management failure or a definite client error, but it is built for
    the empty operation name: the limit of one attempt for
    [CompleteMultipartUpload], the per-operation overrides and the opt-out for
    [CopyObject] that a retryer built for the operation applies have no
    effect, and a request that succeeds after a retry is counted as given up. *)
Theorem retry_installed_policy c r :
  ValidateRetry (NormalizeRetry c) = None → installedRetryer c true = Some r →
  let rc := NormalizeRetry c in
  (∀ e, isCanceled (be_err e) = true ∨ isCryptoError (be_err e) = true ∨
        (∃ code ra, be_response e = Some (code, ra) ∧ code ∈ definite4xx) → IsErrorRetryable r (Some e) = false) ∧
  MaxAttempts r = rc_MaxAttempts rc ∧
  MaxAttempts (BuildRetryer rc "CompleteMultipartUpload" None None) =
    default 1 (perOperation (rc_PerOperation rc) "CompleteMultipartUpload") ∧
  (∀ err, IsErrorRetryable r err = (classify err).2) ∧
  (rc_SafeCopyObject c = Some false → ∀ err, IsErrorRetryable (BuildRetryer rc "CopyObject" None None) err = false) ∧
  (∀ n, 0 < n < 2 ^ 31 → makeTrackedRelease (Nat.iter (Z.to_nat n) GetRetryToken r) None =
     [BackendAttemptsPerRequest "" (n + 1); BackendRetryGiveUp "" reasonSDKGeneric]).
Proof.
  intros Hv Hr rc. apply ValidateRetry_valid in Hv as (_ & _ & _ & Hops).
  apply installedRetryer_shape in Hr as (Hcfg & Hop & H0 & Hg).
  assert (Hclass : ∀ err, IsErrorRetryable r err = (classify err).2).
  { intros err. unfold IsErrorRetryable. rewrite Hop. destruct (classify err) as [? []]; reflexivity. }
  split; [intros e He; rewrite Hclass; exact (classify_final e He)|].
  split; [unfold MaxAttempts; rewrite Hop, Hcfg, perOperation_empty by exact Hops; reflexivity|].
  split; [unfold MaxAttempts; cbn -[perOperation]; destruct (perOperation _ _); reflexivity|].
  split; [exact Hclass|]. split.
  - intros Hs err. unfold IsErrorRetryable. cbn -[classify]. rewrite Hs. destruct (classify err) as [? []]; reflexivity.
  - intros n Hn. change (2 ^ 31) with 2147483648 in Hn. destruct (iter_GetRetryToken (Z.to_nat n) r H0 ltac:(change (2 ^ 31) with 2147483648; lia)) as (Hn' & Ho' & Hg').
    rewrite Z2Nat.id in Hn' by lia. unfold makeTrackedRelease. rewrite Hn', Hg', Hg, Ho', Hop.
    destruct (n =? 0) eqn:E; zbool; [lia|]. rewrite wrap_i64_id by lia. reflexivity.
Qed.

(** *** Witnesses *)

Module retry_witness.
Definition cfg : BackendRetryConfig := mkRetryConfig "" 5 0 0 "equal" [("CompleteMultipartUpload", 1)] (Some false).
Definition throttled : backendError := mkBackendError (Errorf "slow down") (Some (503, txt "7")) false false false false false.
Definition installed : retryer := default (BuildRetryer cfg "" None None) (installedRetryer cfg true).


Lemma retry_installed_policy_witness :
  MaxAttempts (BuildRetryer (NormalizeRetry cfg) "CompleteMultipartUpload" None None) = 1 ∧
  MaxAttempts installed = rc_MaxAttempts (NormalizeRetry cfg) ∧ IsErrorRetryable installed (Some throttled) = true.
Proof.
  split; [vm_compute; reflexivity|].
  destruct (retry_installed_policy cfg installed ltac:(vm_compute; reflexivity) ltac:(vm_compute; reflexivity))
    as (_ & Hm & _ & Hc & _). split; [exact Hm|]. rewrite Hc. vm_compute. reflexivity.
Defined.
End retry_witness.
