(* ===== verification/MPURange.v ===== *)
(** * Range reads of multipart objects ([internal/api/object_stream.go], [internal/api/handlers.go])

    A ranged GET of an encrypted multipart object fetches the backend bytes
    the manifest names and decrypts them one chunk at a time with
    [mpuPlaintextRangeReader], which clips the first and the last chunk to the
    requested range. *)
From S2P Require Import Prelude GoStd GoIO Primitives ObjectAAD ChunkLayout MPUManifest MPUStream MPUCorrect.
Local Open Scope Z_scope.
Local Open Scope go_scope.
#[local] Arguments Validate : simpl never.

(** ** The reader *)

(** [rg_decrypt] is the plan's chunk decryptor with the object, the key, the
    upload hash and the nonce prefix applied: ciphertext, part number, chunk
    size, chunk index. *)
Record mpuPlaintextRangeReader := mkRangeReader {
  rg_ciphertext : Source; rg_manifest : MultipartManifest; rg_rangeResult : MPURangeResult;
  rg_rangeStart : Z; rg_rangeEnd : Z; rg_plainOffset : Z; rg_partIndex : Z; rg_chunkIndex : Z;
  rg_decrypt : list byte → Z → Z → Z → result (list byte);
  rg_pending : list byte; rg_done : bool }.

Definition rg_set_pending (p : list byte) (r : mpuPlaintextRangeReader) : mpuPlaintextRangeReader :=
  mkRangeReader (rg_ciphertext r) (rg_manifest r) (rg_rangeResult r) (rg_rangeStart r) (rg_rangeEnd r)
    (rg_plainOffset r) (rg_partIndex r) (rg_chunkIndex r) (rg_decrypt r) p (rg_done r).

Definition rg_finished (r : mpuPlaintextRangeReader) : bool :=
  rg_done r || (rg_partIndex r >? PartEndIdx (rg_rangeResult r)).

(** The length of the plaintext of the current chunk. *)
Definition chunkPlainLen (cs chunkIndex : Z) (part : MPUPartRecord) : Z :=
  if chunkIndex =? wrap_i32 (ChunkCount part - 1) then PlainLen part -i (chunkIndex *i cs) else cs.

(** The part of a decrypted chunk inside the range. *)
Definition clip (rangeStart rangeEnd chunkStart : Z) (plain : list byte) : list byte :=
  let chunkEnd := chunkStart +i len plain -i 1 in
  let writeStart := if rangeStart <? chunkStart then chunkStart else rangeStart in
  let writeEnd := if rangeEnd >? chunkEnd then chunkEnd else rangeEnd in
  if writeStart <=? writeEnd
  then take (Z.to_nat (writeEnd -i writeStart +i 1)) (drop (Z.to_nat (writeStart -i chunkStart)) plain)
  else [].

(** One turn of the [Read] loop; an index outside the manifest would panic. *)
Definition rg_advance (r : mpuPlaintextRangeReader) : mpuPlaintextRangeReader * option error :=
  let m := rg_manifest r in
  let rr := rg_rangeResult r in
  match mm_Parts m !! Z.to_nat (rg_partIndex r) with
  | None => (r, Some (Errorf "index out of range"))
  | Some part =>
      let plainLen := chunkPlainLen (mm_ChunkSize m) (rg_chunkIndex r) part in
      let '(ciphertext, err, src) := ReadFull (rg_ciphertext r) (Z.to_nat (plainLen +i 16)) in
      let r := mkRangeReader src m rr (rg_rangeStart r) (rg_rangeEnd r) (rg_plainOffset r) (rg_partIndex r)
                 (rg_chunkIndex r) (rg_decrypt r) (rg_pending r) (rg_done r) in
      match err with
      | Some e => (r, Some e)
      | None =>
          match rg_decrypt r ciphertext (PartNumber part) (mm_ChunkSize m) (rg_chunkIndex r) with
          | Err e => (r, Some e)
          | Ok plain =>
              let '(partIndex, chunkIndex, done) :=
                if (rg_chunkIndex r =? ChunkEnd rr) && (rg_partIndex r =? PartEndIdx rr)
                then (rg_partIndex r, rg_chunkIndex r, true)
                else if rg_chunkIndex r =? wrap_i32 (ChunkCount part - 1)
                then (rg_partIndex r + 1, if rg_partIndex r + 1 <=? PartEndIdx rr then 0 else rg_chunkIndex r, rg_done r)
                else (rg_partIndex r, wrap_i32 (rg_chunkIndex r + 1), rg_done r) in
              (mkRangeReader (rg_ciphertext r) m rr (rg_rangeStart r) (rg_rangeEnd r) (rg_plainOffset r +i plainLen)
                 partIndex chunkIndex (rg_decrypt r)
                 (clip (rg_rangeStart r) (rg_rangeEnd r) (rg_plainOffset r) plain) done, None)
          end
      end
  end.

(** ** The planned read ([serveMPURangedGetPlanned]) *)

(** [mpuChunkDecryptor], applied to what [serveMPURangedGetPlanned] passes. *)
Definition mpuChunkDecryptor `{HKDF} `{Ciphers} (fips isV2 : bool) (bindingID : list byte) (algorithm : string)
    (object : ObjectContext) (dek uploadIDHash ivPrefix : list byte)
    (ciphertext : list byte) (partNumber chunkSize chunkIndex : Z) : result (list byte) :=
  if isV2
  then DecryptMPUPartRange fips object bindingID ciphertext dek uploadIDHash ivPrefix partNumber chunkSize chunkIndex algorithm
  else DecryptMPUPartRangeV1 fips object ciphertext dek uploadIDHash ivPrefix partNumber chunkSize chunkIndex algorithm.

(** [cryptoRangeHeader] as the bytes the backend returns for it. *)
Definition backendRange (stored : list byte) (rr : MPURangeResult) : list byte :=
  take (Z.to_nat (EncEnd rr - EncStart rr + 1)) (drop (Z.to_nat (EncStart rr)) stored).

(** The reader and the number of bytes the preflight insists on. *)
Definition newMPURangeReader (manifest : MultipartManifest) (rr : MPURangeResult) (pStart pEnd : Z) (objReader : Source)
    (decrypt : list byte → Z → Z → Z → result (list byte)) : result (mpuPlaintextRangeReader * Z) :=
  match mm_Parts manifest !! Z.to_nat (PartStartIdx rr) with
  | None => Err (Errorf "index out of range")
  | Some firstPart =>
      let plaintextOffset := foldl (λ off part, off +i PlainLen part) 0 (take (Z.to_nat (PartStartIdx rr)) (mm_Parts manifest)) in
      let plaintextOffset := plaintextOffset +i (ChunkStart rr *i mm_ChunkSize manifest) in
      let firstChunkPlainLen := chunkPlainLen (mm_ChunkSize manifest) (ChunkStart rr) firstPart in
      let firstChunkEnd := plaintextOffset +i firstChunkPlainLen -i 1 in
      let firstWriteStart := Z.max pStart plaintextOffset in
      let firstWriteEnd := if pEnd >? firstChunkEnd then firstChunkEnd else pEnd in
      Ok (mkRangeReader objReader manifest rr pStart pEnd plaintextOffset (PartStartIdx rr) (ChunkStart rr) decrypt [] false,
          firstWriteEnd -i firstWriteStart +i 1)
  end.

(** ** [Read] *)

(** A chunk of a part that has chunks is in range; a part without chunks is
    never left, which [rg_ok] has to allow. *)
Definition rg_ok (r : mpuPlaintextRangeReader) : Prop :=
  layout_ok (rg_manifest r) ∧ 0 ≤ rg_partIndex r ∧
  (rg_partIndex r ≤ PartEndIdx (rg_rangeResult r) →
   ∀ part, mm_Parts (rg_manifest r) !! Z.to_nat (rg_partIndex r) = Some part →
     0 < ChunkCount part → 0 ≤ rg_chunkIndex r < ChunkCount part).

Lemma chunkPlainLen_range m p i :
  layout_ok m → p ∈ mm_Parts m → (0 < ChunkCount p → 0 ≤ i < ChunkCount p) →
  0 < chunkPlainLen (mm_ChunkSize m) i p ≤ mm_ChunkSize m ∧ mm_ChunkSize m ≤ MaxChunkSize.
Proof.
  intros Hok Hin Hi. pose proof (chunk_size_bounds m Hok p Hin) as Hcs. split; [|lia].
  pose proof Hok as (Hf & _). pose proof (proj1 (Forall_forall _ _) Hf p Hin) as (_ & Hpl & Hcc & Hmax & _).
  pose proof (nchunks_bounds (PlainLen p) (mm_ChunkSize m) ltac:(lia) Hpl) as Hnb.
  unfold chunkPlainLen, MaxChunkSize, MaxInt32 in *. rewrite (wrap_i32_id (ChunkCount p - 1)) by lia.
  destruct (Z.eqb_spec i (ChunkCount p - 1)) as [Ei|]; [|lia].
  pose proof (proj1 (nchunks_iff (PlainLen p) (mm_ChunkSize m) (ChunkCount p) ltac:(lia)) (eq_sym Hcc)) as Hn.
  assert (PlainLen p ≤ mm_ChunkSize m * ChunkCount p) by lia.
  rewrite (wrap_i64_id (i * _)), wrap_i64_id by nia. nia.
Qed.

Lemma rg_advance_ok r r' :
  rg_ok r → rg_finished r = false → rg_advance r = (r', None) →
  rg_ok r' ∧ (length (src_data (rg_ciphertext r')) < length (src_data (rg_ciphertext r)))%nat.
Proof.
  intros (Hok & Hp0 & Hci) Hfin. unfold rg_finished in Hfin. apply orb_false_elim in Hfin as [Hd Hpi]. zbool.
  unfold rg_advance. destruct (mm_Parts (rg_manifest r) !! _) as [part|] eqn:Hp; [|done].
  specialize (Hci ltac:(lia) part eq_refl). pose proof (list_elem_of_lookup_2 _ _ _ Hp) as Hin.
  destruct (chunkPlainLen_range _ _ _ Hok Hin Hci) as [Hcp Hcs]. unfold MaxChunkSize in *.
  set (plainLen := chunkPlainLen _ _ _) in *. rewrite (wrap_i64_id (plainLen + 16)) by lia.
  destruct (ReadFull _ _) as [[bs err] src] eqn:ER. apply ReadFull_app in ER as (Hsrc & _ & _ & Hn & _).
  destruct err; [done|]. specialize (Hn eq_refl). cbn [rg_decrypt rg_chunkIndex rg_partIndex rg_done].
  destruct (rg_decrypt r _ _ _ _) as [plain|]; [|done].
  destruct (if _ && _ then _ else _) as [[pi ci] dn] eqn:Enext. intros [= <-].
  cbn [rg_ciphertext]. split; [|rewrite Hsrc, length_app; lia].
  unfold rg_ok. cbn [rg_manifest rg_partIndex rg_chunkIndex rg_rangeResult].
  pose proof Hok as (Hf & _). pose proof (proj1 (Forall_forall _ _) Hf part Hin) as (_ & _ & _ & Hmax & _).
  unfold MaxInt32 in Hmax. revert Enext. repeat case_match; intros; simplify_eq; zbool; (split; [done|]); (split; [lia|]);
    intros Hle part' Hp' Hc'; try lia.
  - assert (part' = part) as -> by congruence. auto.
  - assert (part' = part) as -> by congruence. rewrite (wrap_i32_id (ChunkCount part - 1)) in * by lia.
    specialize (Hci Hc'). rewrite wrap_i32_id by lia. lia.
Qed.

#[global] Program Instance rg_pull : Pull mpuPlaintextRangeReader := {|
  pl_pending := rg_pending; pl_set_pending := rg_set_pending; pl_finished := rg_finished;
  pl_advance := rg_advance; pl_measure r := length (src_data (rg_ciphertext r)); pl_ok := rg_ok |}.
Next Obligation. done. Qed.
Next Obligation. done. Qed.
Next Obligation. by intros []. Qed.
Next Obligation. done. Qed.
Next Obligation. done. Qed.
Next Obligation. done. Qed.
Next Obligation. intros r r' Hok _ Hd Ha. by apply rg_advance_ok. Qed.

(** [mpuPlaintextRangeReader.Read]. *)
Definition rg_Read (r : mpuPlaintextRangeReader) (n : nat) : option (list byte * option error * mpuPlaintextRangeReader) :=
  if decide (n = 0)%nat then Some ([], None, r) else pull_one (S (pl_measure r)) r n.

#[global] Program Instance rg_stream : StreamReader mpuPlaintextRangeReader := {|
  sr_read := rg_Read; sr_rem r O e := rg_ok r ∧ pulls r O e |}.
Next Obligation.
  intros r O e n [Hok Hp] Hn. unfold rg_Read. rewrite decide_False by lia.
  destruct (pull_one_law (S (pl_measure r)) r O e n) as (bs & oe & r' & -> & Hl & Hc); [done..|cbn; lia|].
  destruct Hc as [(-> & Hne & O' & -> & ? & ?)|(-> & ->)].
  - exists bs, None, r'. split_and!; [done|done|]. left. eauto 6.
  - exists O, (Some e), r'. split_and!; [done|done|by right].
Qed.

(** ** Correctness *)

Section correct.
Context `{HKDF} `{!HKDFLaws} `{Ciphers}.
Context (P : MPUParams) (HP : mpu_ok P) (dek : list byte) (m : MultipartManifest) (Hok : layout_ok m).

(** The stored ciphertext of the parts. *)
Definition stored_parts (parts : list MPUPartRecord) (pts : list (list byte)) : list byte :=
  concat (zip_with (λ p pt, mpu_part P dek (PartNumber p) (mm_ChunkSize m) pt) parts pts).

Notation cs := (mm_ChunkSize m).

(** Backend and plaintext offset of chunk [c] of part [k]. *)
Definition encPos (k c : Z) : Z := total EncLen (take (Z.to_nat k) (mm_Parts m)) + c * (cs + 16).
Definition plainPos (k c : Z) : Z := total PlainLen (take (Z.to_nat k) (mm_Parts m)) + c * cs.

Lemma length_mpu_part p pt :
  0 < cs → part_ok cs p → PlainLen p = len pt → len (mpu_part P dek (PartNumber p) cs pt) = EncLen p.
Proof using All.
  intros Hcs (_ & _ & Hcc & _ & ->) Hl. unfold mpu_part.
  rewrite (length_records _ 16 (length_mpu_record P HP dek _)), concat_chunks_of by lia.
  rewrite Nat2Z.inj_add, Nat2Z.inj_mul, length_chunks_of, Z2Nat.id by lia. fold (nchunks (len pt) cs). rewrite Hcc, Hl. lia.
Qed.

(** A part inside the object. *)
Lemma stored_split parts pts (k : nat) p :
  0 < cs → Forall (part_ok cs) parts → Forall2 (λ p pt, PlainLen p = len pt) parts pts → parts !! k = Some p →
  ∃ pt A B A' B', pts !! k = Some pt ∧ PlainLen p = len pt ∧
    stored_parts parts pts = A ++ mpu_part P dek (PartNumber p) cs pt ++ B ∧ len A = total EncLen (take k parts) ∧
    concat pts = A' ++ pt ++ B' ∧ len A' = total PlainLen (take k parts).
Proof using All.
  intros Hcs Hf Hpts. revert k. induction Hpts as [|q qt parts pts Hq Hpts IH]; intros k Hk; [done|].
  apply Forall_cons in Hf as [Hqok Hf]. destruct k as [|k]; cbn in Hk.
  - injection Hk as ->. exists qt, [], (stored_parts parts pts), [], (concat pts). split_and!; done.
  - destruct (IH Hf k Hk) as (pt & A & B & A' & B' & Hl & Hp & HA & HlA & HA' & HlA').
    exists pt, (mpu_part P dek (PartNumber q) cs qt ++ A), B, (qt ++ A'), B'. split_and!; [done|done| |..].
    + unfold stored_parts in *. cbn [zip_with concat]. by rewrite HA, (assoc_L (++)).
    + rewrite length_app, Nat2Z.inj_add, HlA, (length_mpu_part q qt) by done. done.
    + cbn [concat]. by rewrite HA', (assoc_L (++)).
    + rewrite length_app, Nat2Z.inj_add, HlA', <-Hq. done.
Qed.

(** The record and the plaintext at a position. *)
Lemma at_position pts k c p :
  Forall2 (λ p pt, PlainLen p = len pt) (mm_Parts m) pts → 0 ≤ k → mm_Parts m !! Z.to_nat k = Some p → 0 ≤ c < ChunkCount p →
  ∃ chunk, let L := chunkPlainLen cs c p in
    len chunk = L ∧ 0 < L ≤ cs ∧
    take (Z.to_nat (L + 16)) (drop (Z.to_nat (encPos k c)) (stored_parts (mm_Parts m) pts)) = mpu_record P dek (PartNumber p) c chunk ∧
    take (Z.to_nat L) (drop (Z.to_nat (plainPos k c)) (concat pts)) = chunk ∧
    L = (if c =? ChunkCount p - 1 then PlainLen p - c * cs else cs).
Proof using All.
  intros Hpts Hk Hp Hc. pose proof (list_elem_of_lookup_2 _ _ _ Hp) as Hin.
  pose proof (chunk_size_bounds m Hok p Hin) as Hcs. pose proof Hok as (Hf & _).
  pose proof (proj1 (Forall_forall _ _) Hf p Hin) as (_ & Hpl & Hcc & Hmax & _).
  pose proof (proj1 (nchunks_iff (PlainLen p) cs (ChunkCount p) ltac:(lia)) (eq_sym Hcc)) as Hn.
  destruct (stored_split (mm_Parts m) pts (Z.to_nat k) p ltac:(lia) Hf Hpts Hp) as (pt & A & B & A' & B' & _ & Hpt & HA & HlA & HA' & HlA').
  destruct (chunkPlainLen_range m p c Hok Hin ltac:(lia)) as [HL _].
  assert (HLe : chunkPlainLen cs c p = if c =? ChunkCount p - 1 then PlainLen p - c * cs else cs).
  { unfold chunkPlainLen, MaxInt32, MaxChunkSize in *. rewrite (wrap_i32_id (ChunkCount p - 1)) by lia.
    destruct (Z.eqb_spec c (ChunkCount p - 1)); [|done]. rewrite (wrap_i64_id (c * cs)), wrap_i64_id by nia. done. }
  set (c' := Z.to_nat cs). assert (Hc' : (0 < c')%nat) by (unfold c'; lia).
  set (rest := drop (Z.to_nat c * c') pt). set (chunk := take c' rest).
  assert (Hrl : len rest = PlainLen p - c * cs) by (unfold rest, c'; rewrite length_drop; nia).
  assert (Hcl : len chunk = chunkPlainLen cs c p).
  { unfold chunk. rewrite length_take, HLe. destruct (Z.eqb_spec c (ChunkCount p - 1)); unfold c'; nia. }
  assert (Hrne : rest ≠ []) by (intros E; rewrite E in Hrl; cbn in Hrl; nia).
  exists chunk. cbn zeta. split_and!; [done|lia|lia| | |done].
  - rewrite HA. unfold encPos. rewrite <-HlA.
    replace (Z.to_nat (len A + c * (cs + 16))) with (length A + Z.to_nat c * (c' + 16))%nat by (unfold c'; nia).
    rewrite <-drop_drop, drop_app_length. rewrite drop_app_le.
    2: { apply Nat2Z.inj_le. rewrite (length_mpu_part p pt) by (done || lia || by apply (proj1 (Forall_forall _ _) Hf)).
         pose proof (proj1 (Forall_forall _ _) Hf p Hin) as (_ & _ & _ & _ & ->). unfold c'. nia. }
    unfold mpu_part at 1. fold c'. rewrite (drop_records _ 16 (length_mpu_record P HP dek _) c' Hc'), Z.add_0_l, Z2Nat.id by lia.
    fold rest. rewrite (chunks_of_step c' rest) by done. cbn [records]. fold chunk. rewrite <-(assoc_L (++)).
    replace (Z.to_nat (chunkPlainLen cs c p + 16)) with (length (mpu_record P dek (PartNumber p) c chunk)).
    + apply take_app_length.
    + rewrite (length_mpu_record P HP dek). lia.
  - rewrite HA'. unfold plainPos. rewrite <-HlA'.
    replace (Z.to_nat (len A' + c * cs)) with (length A' + Z.to_nat c * c')%nat by (unfold c'; nia).
    rewrite <-drop_drop, drop_app_length, drop_app_le by (unfold c'; nia). fold rest.
    rewrite take_app_le by (rewrite <-Hcl; unfold chunk; rewrite length_take; lia).
    unfold chunk. destruct (decide (c' ≤ length rest)%nat).
    + f_equal. unfold chunk in Hcl. rewrite length_take in Hcl. lia.
    + unfold chunk in Hcl. rewrite length_take in Hcl. rewrite !take_ge by lia. done.
Qed.
Lemma stored_length parts pts :
  0 < cs → Forall (part_ok cs) parts → Forall2 (λ p pt, PlainLen p = len pt) parts pts →
  len (stored_parts parts pts) = total EncLen parts.
Proof using All.
  intros Hcs Hf. induction 1 as [|p pt parts pts Hp Hpts IH]; [done|]. apply Forall_cons in Hf as [Hpok Hf].
  unfold stored_parts in *. cbn [zip_with concat]. rewrite length_app, Nat2Z.inj_add, IH, (length_mpu_part p pt) by done. done.
Qed.

(** Positions in reading order. *)
Definition pos_le (k c k2 c2 : Z) : Prop := k < k2 ∨ (k = k2 ∧ c ≤ c2).

Lemma pos_mono k c p k2 c2 p2 :
  0 ≤ k → 0 ≤ k2 → mm_Parts m !! Z.to_nat k = Some p → mm_Parts m !! Z.to_nat k2 = Some p2 →
  0 ≤ c < ChunkCount p → 0 ≤ c2 < ChunkCount p2 → pos_le k c k2 c2 →
  encPos k c ≤ encPos k2 c2 ∧ plainPos k c ≤ plainPos k2 c2.
Proof using Hok.
  intros Hk Hk2 Hp Hp2 Hc Hc2 Hle. unfold encPos, plainPos.
  pose proof (list_elem_of_lookup_2 _ _ _ Hp) as Hin. pose proof (chunk_size_bounds m Hok p Hin) as Hcs.
  destruct Hle as [Hlt|[-> Hcc]]; [|nia]. pose proof Hok as (Hf & _).
  pose proof (proj1 (Forall_forall _ _) Hf p Hin) as (_ & Hpl & Hcc & _ & He).
  pose proof (proj1 (nchunks_iff (PlainLen p) cs (ChunkCount p) ltac:(lia)) (eq_sym Hcc)) as Hn.
  assert (Hnn : Forall (λ q, 0 ≤ PlainLen q) (mm_Parts m)) by (eapply Forall_impl; [exact Hf|]; by intros q (_ & ? & _)).
  assert (Hnne : Forall (λ q, 0 ≤ EncLen q) (mm_Parts m)).
  { eapply Forall_impl; [exact Hf|]. intros q (_ & ? & Hq & _ & ?).
    pose proof (nchunks_bounds (PlainLen q) cs ltac:(lia) ltac:(lia)). cbn. lia. }
  pose proof (total_take_mono m PlainLen (Z.to_nat k) (Z.to_nat k2) p Hnn ltac:(lia) Hp).
  pose proof (total_take_mono m EncLen (Z.to_nat k) (Z.to_nat k2) p Hnne ltac:(lia) Hp). nia.
Qed.

Lemma total_take_S f (k : nat) p : mm_Parts m !! k = Some p → total f (take (S k) (mm_Parts m)) = total f (take k (mm_Parts m)) + f p.
Proof using. intros Hp. rewrite (take_S_r _ _ _ Hp). apply total_snoc. Qed.

(** The position after a chunk. *)
Definition nextPos (k c : Z) (p : MPUPartRecord) : Z * Z := if c =? ChunkCount p - 1 then (k + 1, 0) else (k, c + 1).

Lemma next_pos k c p :
  0 ≤ k → mm_Parts m !! Z.to_nat k = Some p → 0 ≤ c < ChunkCount p →
  let L := if c =? ChunkCount p - 1 then PlainLen p - c * cs else cs in
  encPos (nextPos k c p).1 (nextPos k c p).2 = encPos k c + L + 16 ∧
  plainPos (nextPos k c p).1 (nextPos k c p).2 = plainPos k c + L.
Proof using Hok.
  intros Hk Hp Hc. unfold nextPos, encPos, plainPos. pose proof Hok as (Hf & _).
  pose proof (proj1 (Forall_forall _ _) Hf p (list_elem_of_lookup_2 _ _ _ Hp)) as (_ & _ & _ & _ & He).
  destruct (Z.eqb_spec c (ChunkCount p - 1)) as [Ec|]; cbn [fst snd]; [|lia].
  replace (Z.to_nat (k + 1)) with (S (Z.to_nat k)) by lia. rewrite !(total_take_S _ _ _ Hp). nia.
Qed.

(** Bytes [a..b] of a plaintext. *)
Definition slice (a b : Z) (l : list byte) : list byte := take (Z.to_nat (b + 1 - a)) (drop (Z.to_nat a) l).

Lemma slice_split a b c (l : list byte) : 0 ≤ a ≤ b → b ≤ c + 1 → slice a c l = slice a (b - 1) l ++ slice b c l.
Proof using.
  intros Hab Hbc. unfold slice. replace (Z.to_nat (c + 1 - a)) with (Z.to_nat (b - 1 + 1 - a) + Z.to_nat (c + 1 - b))%nat by lia.
  rewrite take_add_drop, drop_drop. do 3 f_equal. lia.
Qed.

(** The clipped chunk is the part of the range it covers. *)
Lemma clip_slice s e po (plain chunk : list byte) :
  0 ≤ po → 0 ≤ s → po + len chunk ≤ MaxInt64 → s < po + len chunk → po ≤ e → s ≤ e → 0 < len chunk →
  take (length chunk) (drop (Z.to_nat po) plain) = chunk →
  clip s e po chunk = slice (Z.max s po) (Z.min e (po + len chunk - 1)) plain.
Proof using.
  intros Hpo Hs Hmax Hse Hpe Hse' Hl Hch. unfold clip, slice, MaxInt64 in *.
  rewrite (wrap_i64_id (po + len chunk)), (wrap_i64_id (_ - 1)) by lia.
  replace (if s <? po then po else s) with (Z.max s po) by (destruct (Z.ltb_spec s po); lia).
  replace (if e >? po + len chunk - 1 then po + len chunk - 1 else e) with (Z.min e (po + len chunk - 1))
    by (rewrite Z.gtb_ltb; destruct (Z.ltb_spec (po + len chunk - 1) e); lia).
  rewrite (proj2 (Z.leb_le _ _)) by lia.
  rewrite (wrap_i64_id (Z.min _ _ - _)), (wrap_i64_id (_ + 1)), (wrap_i64_id (Z.max s po - po)) by lia.
  set (n := Z.to_nat (Z.max s po - po)). replace (drop n chunk) with (drop n (take (length chunk) (drop (Z.to_nat po) plain))) by (by rewrite Hch).
  rewrite skipn_firstn_comm, take_take, drop_drop. f_equal; [unfold n; lia|]. f_equal. unfold n. lia.
Qed.
(** The reader from any position of the range on: it yields the rest of the
    range. [D] agrees with the stored object up to the last needed byte. *)
Context (rr : MPURangeResult) (pts : list (list byte)) (s e : Z) (p2 : MPUPartRecord).
Context (decrypt : list byte → Z → Z → Z → result (list byte)).

Record range_setting : Prop := mkSetting {
  st_pts : Forall2 (λ p pt, PlainLen p = len pt) (mm_Parts m) pts;
  st_plain : len (concat pts) ≤ MaxInt64;
  st_s : 0 ≤ s ≤ e;
  st_last : 0 ≤ PartEndIdx rr ∧ mm_Parts m !! Z.to_nat (PartEndIdx rr) = Some p2 ∧ 0 ≤ ChunkEnd rr < ChunkCount p2;
  st_e : plainPos (PartEndIdx rr) (ChunkEnd rr) ≤ e < plainPos (PartEndIdx rr) (ChunkEnd rr) + chunkPlainLen cs (ChunkEnd rr) p2;
  st_encEnd : EncEnd rr + 1 = encPos (PartEndIdx rr) (ChunkEnd rr) + chunkPlainLen cs (ChunkEnd rr) p2 + 16;
  st_nonempty : ∀ k p, PartStartIdx rr < k < PartEndIdx rr → mm_Parts m !! Z.to_nat k = Some p → 0 < ChunkCount p;
  st_decrypt : ∀ p c chunk, p ∈ mm_Parts m → 0 ≤ c < ChunkCount p → 0 < len chunk ≤ cs →
    decrypt (mpu_record P dek (PartNumber p) c chunk) (PartNumber p) cs c = Ok chunk }.
Context (Hset : range_setting).

(** One turn at a position of the range. *)
Lemma rg_advance_at k c p D x :
  0 ≤ k → mm_Parts m !! Z.to_nat k = Some p → 0 ≤ c < ChunkCount p → pos_le k c (PartEndIdx rr) (ChunkEnd rr) →
  s < plainPos k c + chunkPlainLen cs c p →
  take (Z.to_nat (EncEnd rr + 1 - encPos k c)) D =
    take (Z.to_nat (EncEnd rr + 1 - encPos k c)) (drop (Z.to_nat (encPos k c)) (stored_parts (mm_Parts m) pts)) →
  (Z.to_nat (EncEnd rr + 1 - encPos k c) ≤ length D)%nat →
  let L := chunkPlainLen cs c p in
  let isLast := (c =? ChunkEnd rr) && (k =? PartEndIdx rr) in
  let next := if isLast then (k, c) else if c =? ChunkCount p - 1 then (k + 1, if k + 1 <=? PartEndIdx rr then 0 else c) else (k, c + 1) in
  encPos k c + L + 16 ≤ EncEnd rr + 1 ∧
  rg_advance (mkRangeReader (mkSource D x) m rr s e (plainPos k c) k c decrypt [] false) =
    (mkRangeReader (mkSource (drop (Z.to_nat (L + 16)) D) x) m rr s e (plainPos k c + L) next.1 next.2 decrypt
       (slice (Z.max s (plainPos k c)) (Z.min e (plainPos k c + L - 1)) (concat pts)) isLast, None).
Proof using All.
  intros Hk Hp Hc Hle Hs HD HlD L isLast next. pose proof Hset as [Hpts Hplain Hse (Hk2 & Hp2 & Hc2) He Hend _ Hdec].
  pose proof (list_elem_of_lookup_2 _ _ _ Hp) as Hin. pose proof (chunk_size_bounds m Hok p Hin) as Hcs.
  destruct (at_position pts k c p Hpts Hk Hp Hc) as (chunk & Hcl & HL & Hrec & Hch & HLe). fold L in Hcl, HL, Hrec, Hch, HLe.
  destruct (pos_mono k c p _ _ p2 Hk Hk2 Hp Hp2 Hc Hc2 Hle) as [Hem Hpm].
  destruct (next_pos k c p Hk Hp Hc) as [Hne _]. cbn zeta in Hne. rewrite <-HLe in Hne.
  assert (Hfits : encPos k c + L + 16 ≤ EncEnd rr + 1).
  { destruct (chunkPlainLen_range m p2 (ChunkEnd rr) Hok (list_elem_of_lookup_2 _ _ _ Hp2) ltac:(lia)) as [HL2 _].
    destruct Hle as [Hlt|[E Hcc]].
    - pose proof Hok as (Hf & _). pose proof (proj1 (Forall_forall _ _) Hf p Hin) as (_ & Hpl & Hccp & _ & Henc).
      assert (Hnne : Forall (λ q, 0 ≤ EncLen q) (mm_Parts m)).
      { eapply Forall_impl; [exact Hf|]. intros q (_ & ? & Hq & _ & ?).
        pose proof (nchunks_bounds (PlainLen q) cs ltac:(lia) ltac:(lia)). cbn. lia. }
      pose proof (total_take_mono m EncLen (Z.to_nat k) (Z.to_nat (PartEndIdx rr)) p Hnne ltac:(lia) Hp).
      pose proof (proj1 (nchunks_iff (PlainLen p) cs (ChunkCount p) ltac:(lia)) (eq_sym Hccp)).
      unfold encPos in *. destruct (Z.eqb_spec c (ChunkCount p - 1)); nia.
    - subst k. assert (p2 = p) as -> by congruence. destruct (decide (c = ChunkEnd rr)) as [->|]; [unfold L in *; lia|].
      unfold encPos in *. destruct (Z.eqb_spec c (ChunkCount p - 1)); nia. }
  split; [exact Hfits|].
  assert (Htake : take (Z.to_nat (L + 16)) D = mpu_record P dek (PartNumber p) c chunk).
  { rewrite <-Hrec. apply (f_equal (take (Z.to_nat (L + 16)))) in HD. rewrite !take_take, !Nat.min_l in HD by lia. exact HD. }
  unfold rg_advance. cbn [rg_manifest rg_rangeResult rg_partIndex rg_chunkIndex rg_ciphertext].
  rewrite Hp. fold L. unfold MaxChunkSize in *. rewrite (wrap_i64_id (L + 16)) by lia.
  rewrite ReadFull_enough by (cbn [src_data]; lia).
  cbn [src_data src_end rg_decrypt rg_chunkIndex rg_partIndex rg_done rg_rangeStart rg_rangeEnd rg_plainOffset rg_ciphertext].
  rewrite Htake, Hdec by (done || lia).
  assert (Hpo : 0 ≤ plainPos k c).
  { unfold plainPos. destruct (total_nonneg cs (take (Z.to_nat k) (mm_Parts m))) as [Ht _]; [lia|apply Forall_take, Hok|]. nia. }
  assert (Hpl : plainPos k c + L ≤ MaxInt64).
  { apply (f_equal length) in Hch. rewrite length_take, length_drop in Hch. lia. }
  rewrite (clip_slice s e (plainPos k c) (concat pts) chunk) by (rewrite ?Hcl; (lia || (rewrite <-Hch at 2; f_equal; lia))).
  rewrite Hcl. unfold MaxInt64 in Hpl. rewrite (wrap_i64_id (plainPos k c + L)) by lia.
  pose proof Hok as (Hf & _). pose proof (proj1 (Forall_forall _ _) Hf p Hin) as (_ & _ & _ & Hmax & _). unfold MaxInt32 in Hmax.
  rewrite (wrap_i32_id (ChunkCount p - 1)), (wrap_i32_id (c + 1)) by lia.
  unfold next, isLast. destruct ((c =? ChunkEnd rr) && (k =? PartEndIdx rr)); [done|].
  destruct (c =? ChunkCount p - 1); done.
Qed.
(** The successor of a position before the last one is again in the range. *)
Lemma next_in_range k c p :
  PartStartIdx rr ≤ k → 0 ≤ k → mm_Parts m !! Z.to_nat k = Some p → 0 ≤ c < ChunkCount p →
  pos_le k c (PartEndIdx rr) (ChunkEnd rr) → (c =? ChunkEnd rr) && (k =? PartEndIdx rr) = false →
  let next := if c =? ChunkCount p - 1 then (k + 1, if k + 1 <=? PartEndIdx rr then 0 else c) else (k, c + 1) in
  next = nextPos k c p ∧ k ≤ next.1 ∧ pos_le next.1 next.2 (PartEndIdx rr) (ChunkEnd rr) ∧
  ∃ p', mm_Parts m !! Z.to_nat next.1 = Some p' ∧ 0 ≤ next.2 < ChunkCount p'.
Proof using Hset.
  intros Hst Hk Hp Hc Hle Hlast next. pose proof Hset as [_ _ _ (Hk2 & Hp2 & Hc2) _ _ Hne _]. unfold next, nextPos, pos_le in *.
  assert (Hstep : k = PartEndIdx rr → c < ChunkEnd rr).
  { intros ->. rewrite Z.eqb_refl, andb_true_r in Hlast. zbool. lia. }
  destruct (Z.eqb_spec c (ChunkCount p - 1)) as [Ec|Ec]; cbn [fst snd].
  - assert (k < PartEndIdx rr).
    { destruct Hle as [|[-> Hcc]]; [done|]. assert (p2 = p) as -> by congruence. lia. }
    rewrite (proj2 (Z.leb_le (k + 1) _)) by lia. split; [done|]. split; [lia|]. split; [lia|].
    destruct (decide (k + 1 = PartEndIdx rr)) as [->|]; [exists p2; split; [done|lia]|].
    pose proof (lookup_lt_Some _ _ _ Hp2). destruct (lookup_lt_is_Some_2 (mm_Parts m) (Z.to_nat (k + 1))) as [p' Hp']; [lia|].
    exists p'. split; [done|]. pose proof (Hne (k + 1) p' ltac:(lia) Hp'). lia.
  - split; [done|]. split; [lia|]. split; [|exists p; split; [done|lia]].
    destruct Hle as [|[-> Hcc]]; [by left|right]. split; [done|]. specialize (Hstep eq_refl). lia.
Qed.

Lemma rg_pulls n k c p D x :
  EncEnd rr + 1 - encPos k c ≤ Z.of_nat n → PartStartIdx rr ≤ k → 0 ≤ k →
  mm_Parts m !! Z.to_nat k = Some p → 0 ≤ c < ChunkCount p → pos_le k c (PartEndIdx rr) (ChunkEnd rr) →
  s < plainPos k c + chunkPlainLen cs c p →
  take (Z.to_nat (EncEnd rr + 1 - encPos k c)) D =
    take (Z.to_nat (EncEnd rr + 1 - encPos k c)) (drop (Z.to_nat (encPos k c)) (stored_parts (mm_Parts m) pts)) →
  (Z.to_nat (EncEnd rr + 1 - encPos k c) ≤ length D)%nat →
  pulls (mkRangeReader (mkSource D x) m rr s e (plainPos k c) k c decrypt [] false) (slice (Z.max s (plainPos k c)) e (concat pts)) EOF.
Proof using All.
  revert k c p D. induction n as [|n IH]; intros k c p D Hn Hst Hk Hp Hc Hle Hs HD HlD;
    destruct (rg_advance_at k c p D x Hk Hp Hc Hle Hs HD HlD) as [Hfits Hadv];
    destruct (chunkPlainLen_range m p c Hok (list_elem_of_lookup_2 _ _ _ Hp) ltac:(lia)) as [HL _]; [lia|].
  pose proof Hset as [Hpts Hplain Hse (Hk2 & Hp2 & Hc2) He Hend _ _].
  destruct (pos_mono k c p _ _ p2 Hk Hk2 Hp Hp2 Hc Hc2 Hle) as [_ Hpm].
  assert (Hfin : rg_finished (mkRangeReader (mkSource D x) m rr s e (plainPos k c) k c decrypt [] false) = false).
  { unfold rg_finished. cbn. rewrite Z.gtb_ltb. apply Z.ltb_ge. destruct Hle as [|[-> _]]; lia. }
  set (L := chunkPlainLen cs c p) in *. eapply pulls_step; [done|exact Hfin|exact Hadv|].
  destruct ((c =? ChunkEnd rr) && (k =? PartEndIdx rr)) eqn:El.
  { apply pulls_done; [done|]. cbn [pl_pending rg_pull rg_pending]. zbool. subst c k.
    assert (p2 = p) as -> by congruence. fold L in He. rewrite Z.min_l by lia. done. }
  destruct (next_in_range k c p Hst Hk Hp Hc Hle El) as (Hnx & Hst' & Hle' & p' & Hp' & Hc').
  destruct (at_position pts k c p Hpts Hk Hp Hc) as (_ & _ & _ & _ & _ & HLe). fold L in HLe.
  destruct (next_pos k c p Hk Hp Hc) as [Hne Hnp]. cbn zeta in Hne, Hnp. rewrite <-HLe in Hne, Hnp.
  set (next := if c =? ChunkCount p - 1 then _ else _) in *. rewrite <-Hnx in Hne, Hnp.
  destruct (chunkPlainLen_range m p' next.2 Hok (list_elem_of_lookup_2 _ _ _ Hp') ltac:(lia)) as [HL' _].
  assert (Hpo : 0 ≤ plainPos k c).
  { unfold plainPos. destruct (total_nonneg cs (take (Z.to_nat k) (mm_Parts m))) as [Ht _]; [|apply Forall_take, Hok|]; [lia|nia]. }
  destruct (pos_mono next.1 next.2 p' _ _ p2 ltac:(lia) Hk2 Hp' Hp2 Hc' Hc2 Hle') as [_ Hpm'].
  rewrite (slice_split (Z.max s (plainPos k c)) (plainPos k c + L) e) by lia. rewrite Z.min_r by lia.
  refine (pulls_set_pending (slice (Z.max s (plainPos k c)) (plainPos k c + L - 1) (concat pts))
    (mkRangeReader (mkSource (drop (Z.to_nat (L + 16)) D) x) m rr s e (plainPos k c + L) next.1 next.2 decrypt [] false) (slice (plainPos k c + L) e (concat pts)) EOF _).
  cbn [pl_set_pending rg_pull]. unfold rg_set_pending. cbn.
  assert (Hdrop : ∀ l : list byte, drop (Z.to_nat (L + 16)) (drop (Z.to_nat (encPos k c)) l) = drop (Z.to_nat (encPos k c + L + 16)) l).
  { intros l. rewrite drop_drop. f_equal. assert (0 ≤ encPos k c) by (unfold encPos; destruct (total_nonneg cs (take (Z.to_nat k) (mm_Parts m))) as [_ Ht]; [|apply Forall_take, Hok|]; [lia|nia]). lia. }
  rewrite <-Hnp. replace (plainPos next.1 next.2) with (Z.max s (plainPos next.1 next.2)) at 2 by lia.
  apply (IH next.1 next.2 p'); try done; try lia.
  - rewrite Hne, <-Hdrop. apply (f_equal (drop (Z.to_nat (L + 16)))) in HD. rewrite !skipn_firstn_comm in HD.
    replace (Z.to_nat (EncEnd rr + 1 - encPos k c) - Z.to_nat (L + 16))%nat with (Z.to_nat (EncEnd rr + 1 - (encPos k c + L + 16))) in HD by lia.
    exact HD.
  - rewrite length_drop, Hne. lia.
Qed.
End correct.

Section theorem.
Context `{HKDF} `{!HKDFLaws} `{Ciphers} `{!CiphersLaws}.

(** Decrypting one record of a part. *)
Lemma mpuChunkDecryptor_record fips (isV2 : bool) obj bid alg dek hash prefix aead pn cs c chunk :
  Validate obj = Ok tt → len bid = 16 → (isV2 = true → zero_binding bid = false) → createMPUAEADCipher fips alg dek = Ok aead →
  1 ≤ pn ≤ 10000 → 0 < cs ≤ MaxChunkSize → 0 ≤ c < MaxInt32 → 0 < len chunk ≤ cs →
  let P := mkMPUParams aead hash prefix obj (if isV2 then bid else repeat x00 16) isV2 in
  mpu_ok P ∧ mpuChunkDecryptor fips isV2 bid alg obj dek hash prefix (mpu_record P dek pn c chunk) pn cs c = Ok chunk.
Proof.
  intros Hv Hb Hz Ha Hpn Hcs Hc Hl P. pose proof (createMPUAEADCipher_laws fips alg dek aead Ha) as Hlaws.
  assert (HP : mpu_ok P).
  { split; [exact Hlaws|]. cbn. intros ->. done. }
  split; [exact HP|].
  assert (Hone : chunks_of (Z.to_nat cs) chunk = [chunk]) by (apply chunks_of_small; lia).
  pose proof (decryptRun_Ok P HP dek pn cs chunk c (length (mpu_record P dek pn c chunk)) [] Hcs Hpn ltac:(lia)) as Hrun.
  rewrite Hone in Hrun. cbn [records] in Hrun. rewrite app_nil_r in Hrun. cbn [app length] in Hrun.
  specialize (Hrun ltac:(unfold MaxInt32 in *; lia) ltac:(lia)).
  assert (Hd : decryptMPUPartRange fips obj (if isV2 then bid else repeat x00 16) (mpu_record P dek pn c chunk) dek hash prefix pn cs c alg isV2 = Ok chunk).
  { unfold decryptMPUPartRange. rewrite Hv. cbn [mbind result_bind]. unfold MaxChunkSize, MaxInt32 in *.
    rewrite (proj2 (Z.leb_gt cs 0)), (proj2 (Z.ltb_ge pn 1)), (proj2 (Z.ltb_ge 10000 pn)), (proj2 (Z.ltb_ge c 0)), (proj2 (Z.ltb_ge _ cs)) by lia.
    cbn [orb]. rewrite Ha. cbn [mbind result_bind]. rewrite aead_overhead. unfold tagSize. rewrite (wrap_i64_id (cs + 16)), (wrap_u32_id c) by lia. exact Hrun. }
  unfold mpuChunkDecryptor. destruct isV2; [unfold DecryptMPUPartRange; rewrite Hv; cbn [mbind result_bind]; rewrite (Hz eq_refl)|]; exact Hd.
Qed.

(** The first plaintext offset of the reader, without overflow. *)
Lemma first_offset m k : layout_ok m →
  foldl (λ off part, off +i PlainLen part) 0 (take k (mm_Parts m)) = total PlainLen (take k (mm_Parts m)).
Proof.
  intros (Hf & _ & HtP & _ & Hc & _).
  assert (G : ∀ ps acc, Forall (part_ok (mm_ChunkSize m)) ps → 0 ≤ acc → acc + total PlainLen ps ≤ MaxInt64 →
    foldl (λ off part, off +i PlainLen part) acc ps = acc + total PlainLen ps).
  { induction ps as [|p ps IH]; intros acc Hfp Ha Hb; cbn [foldl]; [cbn; lia|].
    apply Forall_cons in Hfp as [(Hpn & Hpl & _) Hfp].
    assert (0 ≤ total PlainLen ps).
    { clear -Hfp. induction Hfp as [|q qs (_ & ? & _) _ IHq]; [done|].
      change (total PlainLen (q :: qs)) with (PlainLen q + total PlainLen qs). lia. }
    change (total PlainLen (p :: ps)) with (PlainLen p + total PlainLen ps) in *. unfold MaxInt64 in *.
    rewrite wrap_i64_id by lia. rewrite IH by (done || lia). lia. }
  rewrite G; [lia|by apply Forall_take|lia|].
  assert (Hsplit : total PlainLen (mm_Parts m) = total PlainLen (take k (mm_Parts m)) + total PlainLen (drop k (mm_Parts m)))
    by (by rewrite <-total_app, take_drop).
  destruct (decide (mm_Parts m = [])) as [->|Hne]; [rewrite take_nil; cbn; unfold MaxInt64; lia|].
  destruct (total_nonneg (mm_ChunkSize m) (drop k (mm_Parts m))) as [Hd _]; [apply Hc, Hne|by apply Forall_drop|]. lia.
Qed.

Lemma concat_total parts (pts : list (list byte)) :
  Forall2 (λ p pt, PlainLen p = len pt) parts pts → len (concat pts) = total PlainLen parts.
Proof.
  induction 1 as [|p pt parts pts Hp _ IH]; [done|]. cbn [concat]. rewrite length_app, Nat2Z.inj_add, IH, <-Hp. done.
Qed.

Section setup.
Context (P : MPUParams) (HP : mpu_ok P) (dek : list byte) (m : MultipartManifest) (Hok : layout_ok m).
Context (pts : list (list byte)) (Hpts : Forall2 (λ p pt, PlainLen p = len pt) (mm_Parts m) pts).
Context (rr : MPURangeResult) (s e : Z) (Hse : 0 ≤ s ≤ e).

Lemma range_is_setting o2 p2 decrypt :
  located m e (PartEndIdx rr) (ChunkEnd rr) o2 p2 →
  EncEnd rr + 1 = total EncLen (take (Z.to_nat (PartEndIdx rr)) (mm_Parts m)) +
    Z.min ((ChunkEnd rr + 1) * (mm_ChunkSize m + 16)) (EncLen p2) →
  (∀ k p, PartStartIdx rr < k < PartEndIdx rr → mm_Parts m !! Z.to_nat k = Some p → PlainLen p ≠ 0) →
  (∀ p c chunk, p ∈ mm_Parts m → 0 ≤ c < ChunkCount p → 0 < len chunk ≤ mm_ChunkSize m →
    decrypt (mpu_record P dek (PartNumber p) c chunk) (PartNumber p) (mm_ChunkSize m) c = Ok chunk) →
  range_setting P dek m rr pts s e p2 decrypt.
Proof using All.
  intros Hl2 Hend Hne Hdec. pose proof (located_enc m Hok _ _ _ _ _ Hl2) as (Hcs & Hp2ok & _).
  destruct Hl2 as (Hp2 & Hk2 & He & Ho2 & Hc2 & Hlt2).
  destruct (at_position P HP dek m Hok pts _ _ p2 Hpts Hk2 Hp2 Hc2) as (_ & _ & HL2 & _ & _ & HLe2).
  apply mkSetting; [done|rewrite (concat_total _ _ Hpts); apply Hok|done|split_and!; done || lia| | | |exact Hdec].
  - unfold plainPos. rewrite HLe2. destruct (Z.eqb_spec (ChunkEnd rr) (ChunkCount p2 - 1)); lia.
  - unfold encPos. rewrite Hend, HLe2. destruct Hp2ok as (_ & Hpl & Hcc & _ & ->).
    pose proof (proj1 (nchunks_iff (PlainLen p2) (mm_ChunkSize m) (ChunkCount p2) ltac:(lia)) (eq_sym Hcc)).
    destruct (Z.eqb_spec (ChunkEnd rr) (ChunkCount p2 - 1)); nia.
  - intros k p Hk Hp. pose proof (proj1 (Forall_forall _ _) (proj1 Hok) p (list_elem_of_lookup_2 _ _ _ Hp)) as (_ & Hpl & Hcc & _).
    specialize (Hne k p Hk Hp). pose proof (proj1 (nchunks_iff (PlainLen p) (mm_ChunkSize m) (ChunkCount p) ltac:(lia)) (eq_sym Hcc)). nia.
Qed.

(** The reader as built: at the position of the range's first byte. *)
Lemma newMPURangeReader_Ok o1 p1 src decrypt :
  located m s (PartStartIdx rr) (ChunkStart rr) o1 p1 → e < len (concat pts) →
  let po := plainPos m (PartStartIdx rr) (ChunkStart rr) in
  let L := chunkPlainLen (mm_ChunkSize m) (ChunkStart rr) p1 in
  po ≤ s < po + L ∧ po + L ≤ len (concat pts) ∧
  newMPURangeReader m rr s e src decrypt =
    Ok (mkRangeReader src m rr s e po (PartStartIdx rr) (ChunkStart rr) decrypt [] false, Z.min e (po + L - 1) - s + 1).
Proof using All.
  intros Hl1 He po L. pose proof (located_enc m Hok _ _ _ _ _ Hl1) as (Hcs & _). destruct Hl1 as (Hp1 & Hk1 & Hs & Ho1 & Hc1 & Hlt1).
  destruct (at_position P HP dek m Hok pts _ _ p1 Hpts Hk1 Hp1 Hc1) as (ch1 & Hch1 & HL1 & _ & Htk1 & HLe1).
  fold L in Hch1, HL1, Htk1, HLe1.
  assert (Hpo : po ≤ s < po + L).
  { unfold po, plainPos. rewrite HLe1. destruct (Z.eqb_spec (ChunkStart rr) (ChunkCount p1 - 1)); lia. }
  assert (HpoL : po + L ≤ len (concat pts)).
  { apply (f_equal length) in Htk1. fold po in Htk1. rewrite length_take, length_drop in Htk1. lia. }
  assert (Hpo0 : 0 ≤ po ∧ 0 ≤ total PlainLen (take (Z.to_nat (PartStartIdx rr)) (mm_Parts m))).
  { unfold po, plainPos. destruct (total_nonneg (mm_ChunkSize m) (take (Z.to_nat (PartStartIdx rr)) (mm_Parts m))) as [Ht _]; [lia|apply Forall_take, Hok|]. nia. }
  assert (Hplain : len (concat pts) ≤ MaxInt64) by (rewrite (concat_total _ _ Hpts); apply Hok).
  split; [exact Hpo|]. split; [exact HpoL|]. unfold newMPURangeReader. rewrite Hp1, (first_offset m _ Hok). unfold MaxInt64, MaxChunkSize in *.
  rewrite (wrap_i64_id (ChunkStart rr * _)) by (unfold po, plainPos in *; nia).
  fold (plainPos m (PartStartIdx rr) (ChunkStart rr)). fold po. fold L.
  rewrite (wrap_i64_id po), (wrap_i64_id (po + L)), (wrap_i64_id (po + L - 1)) by lia. rewrite (Z.max_l s po) by lia.
  replace (if e >? po + L - 1 then po + L - 1 else e) with (Z.min e (po + L - 1))
    by (rewrite Z.gtb_ltb; destruct (Z.ltb_spec (po + L - 1) e); lia).
  rewrite (wrap_i64_id (_ - s)), (wrap_i64_id (_ + 1)) by lia. done.
Qed.
End setup.

(** C10: range reads of multipart objects. For every range inside the object
    the manifest names the backend bytes to fetch, and the reader over them
    (and over anything the backend sends beyond them) yields exactly the
    requested bytes of the plaintext and then [EOF], for every sequence of
    buffer sizes and for both versions of the format; the preflight before
    the response headers asks for at least one byte and never for more than
    the range. No part strictly inside the range may be empty: the reader
    does not skip such a part, unlike the reader of the whole object. *)
Theorem mpu_range_read fips (isV2 : bool) obj bid alg dek hash prefix aead m pts s e extra x sz :
  typed_manifest m → validateLayout m = Ok tt → Validate obj = Ok tt → len bid = 16 → (isV2 = true → zero_binding bid = false) →
  createMPUAEADCipher fips alg dek = Ok aead → Forall2 (λ p pt, PlainLen p = len pt) (mm_Parts m) pts →
  0 ≤ s ≤ e → e < mm_TotalPlainSize m → (∀ k, 0 < sz k)%nat →
  let P := mkMPUParams aead hash prefix obj (if isV2 then bid else repeat x00 16) isV2 in
  let decrypt := mpuChunkDecryptor fips isV2 bid alg obj dek hash prefix in
  ∃ rr, EncRangeForPlaintextRange m s e = Ok rr ∧
    ((∀ k p, PartStartIdx rr < k < PartEndIdx rr → mm_Parts m !! Z.to_nat k = Some p → PlainLen p ≠ 0) →
     ∃ r limit, newMPURangeReader m rr s e (mkSource (backendRange (stored_parts P dek m (mm_Parts m) pts) rr ++ extra) x) decrypt = Ok (r, limit) ∧
       0 < limit ≤ e + 1 - s ∧
       ∀ fuel, (Z.to_nat (e + 1 - s) < fuel)%nat →
         drain fuel sz r = Some (take (Z.to_nat (e + 1 - s)) (drop (Z.to_nat s) (concat pts)), EOF)).
Proof.
  intros Hty Hvl Hv Hb Hz Ha Hpts Hse Het Hsz P decrypt. pose proof (proj1 (validateLayout_spec m Hty) Hvl) as [Hok _].
  destruct (range_located m s e Hty Hvl Hse Het) as (rr & o1 & o2 & p1 & p2 & Hrr & _ & _ & Hl1 & Hl2 & _ & Hstart & Hend & Hee & Hett).
  exists rr. split; [exact Hrr|]. intros Hne.
  pose proof (located_mono m Hok s e _ _ _ _ _ _ _ _ ltac:(lia) Hl1 Hl2) as [Hk12 Hc12].
  pose proof (located_enc m Hok _ _ _ _ _ Hl1) as (Hcs & _).
  assert (HP : mpu_ok P) by (split; [exact (createMPUAEADCipher_laws fips alg dek aead Ha)|cbn; by intros ->]).
  assert (Hset : range_setting P dek m rr pts s e p2 decrypt).
  { apply (range_is_setting P HP dek m Hok pts Hpts rr s e Hse o2 p2 decrypt Hl2 Hend Hne).
    intros p c chunk Hin Hc Hl. pose proof (proj1 (Forall_forall _ _) (proj1 Hok) p Hin) as (Hpn & _ & _ & Hmax & _).
    apply (mpuChunkDecryptor_record fips isV2 obj bid alg dek hash prefix aead); done || lia. }
  set (D := backendRange (stored_parts P dek m (mm_Parts m) pts) rr ++ extra).
  assert (Hlen : e < len (concat pts)) by (rewrite (concat_total _ _ Hpts); destruct Hok as (_ & <- & _); exact Het).
  destruct (newMPURangeReader_Ok P HP dek m Hok pts Hpts rr s e Hse o1 p1 (mkSource D x) decrypt Hl1 Hlen) as (Hpo & HpoL & Hnew).
  destruct Hl1 as (Hp1 & Hk1 & _ & _ & Hc1 & _). set (po := plainPos m _ _) in *.
  eexists _, _. split; [exact Hnew|]. split; [lia|]. intros fuel Hf.
  assert (HDl : length (backendRange (stored_parts P dek m (mm_Parts m) pts) rr) = Z.to_nat (EncEnd rr + 1 - EncStart rr)).
  { unfold backendRange. rewrite length_take, length_drop.
    pose proof (stored_length P HP dek m Hok (mm_Parts m) pts ltac:(lia) (proj1 Hok) Hpts). lia. }
  fold (encPos m (PartStartIdx rr) (ChunkStart rr)) in Hstart.
  apply drain_rem; [done| |rewrite length_take, length_drop; lia]. split.
  { split_and!; [exact Hok|done|]. intros _ p Hp _. cbn in Hp |- *. assert (p = p1) as -> by congruence. exact Hc1. }
  replace (take (Z.to_nat (e + 1 - s)) (drop (Z.to_nat s) (concat pts))) with (slice (Z.max s po) e (concat pts))
    by (unfold slice; by rewrite (Z.max_l s po) by lia).
  apply (rg_pulls P HP dek m Hok rr pts s e p2 decrypt Hset (Z.to_nat (EncEnd rr + 1 - EncStart rr)) _ _ p1); try done; rewrite <-?Hstart; try lia.
  - unfold pos_le. destruct (decide (PartStartIdx rr = PartEndIdx rr)); [right; auto|left; lia].
  - unfold D. rewrite take_app_le by lia. unfold backendRange. rewrite take_take. f_equal. lia.
  - unfold D. rewrite length_app. lia.
Qed.
End theorem.

(** ** The theorem at concrete inputs *)

Section witnesses.
Import ToyInstances MPUWitness.

Definition toy_key : list byte := repeat x07 32.
Definition toy_parts : list (list byte) := [bytes_of_string "the quick brown fox jumps"; bytes_of_string " over d"].
Definition toy_decrypt := mpuChunkDecryptor false true (repeat x04 16) "AES256-GCM" (mkObject "bucket" "key") toy_key [x08] [x09].
Definition toy_params : MPUParams := mkMPUParams (Toy.aead toy_key) [x08] [x09] (mkObject "bucket" "key") (repeat x04 16) true.

Lemma mpu_range_read_witness :
  let rr := mkMPURange 26 95 0 1 1 0 in
  ∃ r limit, newMPURangeReader manifest rr 12 27
      (mkSource (backendRange (stored_parts toy_params toy_key manifest (mm_Parts manifest) toy_parts) rr ++ [x00]) EOF) toy_decrypt = Ok (r, limit) ∧
    0 < limit ≤ 16 ∧ drain 40 (λ _, 3%nat) r = Some (bytes_of_string "own fox jumps ov", EOF).
Proof.
  intros rr.
  destruct (mpu_range_read false true (mkObject "bucket" "key") (repeat x04 16) "AES256-GCM" toy_key [x08] [x09] (Toy.aead toy_key)
    manifest toy_parts 12 27 [x00] EOF (λ _, 3%nat)) as (rr' & Hrr & Hread); try reflexivity; try lia.
  - apply manifest_typed.
  - repeat constructor.
  - rewrite range_example in Hrr. injection Hrr as <-. destruct Hread as (r & limit & Hnew & Hlim & Hdrain).
    + intros k p Hk. cbn in Hk. lia.
    + exists r, limit. split; [exact Hnew|]. split; [lia|]. apply (Hdrain 40%nat). vm_compute. lia.
Defined.

(** An empty part inside the range: the manifest is valid and the whole
    object can be read, but the range reader asks for a full record there. *)
Example range_over_empty_part :
  let m := mkMPUManifest 2 "b" "k" "b" "c" "" "AES256-GCM" 4 "" "" "" "" "" 0
    [mkPart 1 "e1" 4 20 1; mkPart 2 "e2" 0 0 0; mkPart 3 "e3" 4 20 1] "" 8 in
  let pts := [bytes_of_string "abcd"; []; bytes_of_string "efgh"] in
  validateLayout m = Ok tt ∧
  match EncRangeForPlaintextRange m 2 5 with
  | Ok rr =>
      match newMPURangeReader m rr 2 5 (mkSource (backendRange (stored_parts toy_params toy_key m (mm_Parts m) pts) rr) EOF) toy_decrypt with
      | Ok (r, _) => drain 40 (λ _, 3%nat) r = Some (bytes_of_string "cd", Errorf "mpu_encrypter: chunk %d auth failure in part %d: %w")
      | Err _ => False
      end
  | Err _ => False
  end.
Proof. vm_compute. split; reflexivity. Qed.

(** A backend that ends after a whole record: the reader reports [EOF]. *)
Example truncated_range_ends_clean :
  match newMPURangeReader manifest (mkMPURange 26 95 0 1 1 0) 12 27
      (mkSource (take 26 (drop 26 (stored_parts toy_params toy_key manifest (mm_Parts manifest) toy_parts))) EOF) toy_decrypt with
  | Ok (r, _) => drain 40 (λ _, 3%nat) r = Some (bytes_of_string "own fox ", EOF)
  | Err _ => False
  end.
Proof. vm_compute. reflexivity. Qed.
End witnesses.
