(* ===== verification/RangeHeader.v ===== *)
(** * Range headers of GET requests ([internal/api/object_response.go], [handlers.go])

    The gateway reads a [Range] header twice: the planner's [parseObjectRange]
    finds the range to announce, and for objects that are decrypted as a whole
    [applyRangeRequest] cuts the bytes out. The two are shown to agree. *)
From S2P Require Import Prelude GoStd GoIO GoText Http Primitives ObjectAAD ChunkLayout RangeReader MPUManifest KeyManager Metadata ObjectFormat ObjectMeta Policy Engine EngineRead.
Local Open Scope Z_scope.
Local Open Scope go_scope.
#[local] Arguments ToLower : simpl never.
#[local] Arguments bytes_of_string : simpl never.

(** ** Ranges *)

Definition bytesUnit : bytes := txt "bytes=".

(** [parseObjectRange]: an explicit end beyond the object is clamped before
    the shared parser sees the header. *)
Definition clampRangeHeader (rangeHeader : string) (totalSize : Z) : string :=
  let h := bytes_of_string rangeHeader in
  if (totalSize >? 0) && HasPrefixB h bytesUnit then
    let spec := drop 6 h in
    if HasPrefixB spec (txt "-") then rangeHeader
    else match SplitB "-" spec with
    | [p0; p1] =>
        if bool_decide (p1 = []) then rangeHeader
        else match ParseInt_bytes p1 with
        | Some end_ =>
            if end_ >=? totalSize
            then string_of_bytes (bytesUnit ++ p0 ++ txt "-" ++ FormatInt_bytes (totalSize -i 1))
            else rangeHeader
        | None => rangeHeader
        end
    | _ => rangeHeader
    end
  else rangeHeader.
Definition parseObjectRange (rangeHeader : string) (totalSize : Z) : result (Z * Z) :=
  ParseHTTPRangeHeader (clampRangeHeader rangeHeader totalSize) totalSize.

(** Indexing the empty specification panics. *)
Definition IndexPanic : error := Sentinel "runtime error: index out of range".

(** [applyRangeRequest], on decrypted data. *)
Definition rangeOfSpec (rangeSpec : bytes) (dataLen : Z) : result (Z * Z) :=
  match rangeSpec with
  | [] => Err IndexPanic
  | "-"%byte :: suffixText =>
      match ParseInt_bytes suffixText with
      | None => Err (Errorf "invalid suffix range: %w")
      | Some suffix => let start := dataLen -i suffix in Ok (if start <? 0 then 0 else start, dataLen -i 1)
      end
  | _ =>
      match SplitB "-" rangeSpec with
      | [p0; p1] =>
          match ParseInt_bytes p0 with
          | None => Err (Errorf "invalid start: %w")
          | Some start =>
              match p1 with
              | [] => Ok (start, dataLen -i 1)
              | _ => match ParseInt_bytes p1 with
                     | None => Err (Errorf "invalid end: %w")
                     | Some end_ => Ok (start, end_)
                     end
              end
          end
      | _ => Err (Errorf "invalid range format")
      end
  end.
Definition applyRangeRequest (data : list byte) (rangeHeader : string) : result (list byte) :=
  let h := bytes_of_string rangeHeader in
  if negb (HasPrefixB h bytesUnit) then Err (Errorf "invalid range header format")
  else
    '(start, end_) ← rangeOfSpec (drop 6 h) (len data);
    if (start <? 0) || (start >=? len data) then Err (Errorf "range not satisfiable: %d-%d (size: %d)")
    else
      let end_ := if end_ >=? len data then len data -i 1 else end_ in
      if end_ <? start then Err (Errorf "range not satisfiable: %d-%d (size: %d)")
      else Ok (take (Z.to_nat (end_ +i 1 -i start)) (drop (Z.to_nat start) data)).

(** [clampEncryptedRangeEnd]. *)
Definition clampEncryptedRangeEnd (start end_ : Z) (contentLength : string) : result Z :=
  if (start <? 0) || (end_ <? start) then Err (Errorf "invalid encrypted range %d-%d")
  else if bool_decide (contentLength = "") then Ok end_
  else match ParseInt contentLength with
  | None => Err (Errorf "invalid ciphertext content length %q")
  | Some ciphertextSize =>
      if ciphertextSize <=? 0 then Err (Errorf "invalid ciphertext content length %q")
      else if start >=? ciphertextSize then Err (Errorf "encrypted range starts beyond object size: %d >= %d")
      else Ok (if end_ >=? ciphertextSize then ciphertextSize -i 1 else end_)
  end.

Definition formatRange (start end_ : Z) : string := "bytes=" +:+ FormatInt start +:+ "-" +:+ FormatInt end_.

(** ** The two parsers agree *)

Lemma split_bytes_two sep l p0 p1 :
  split_bytes sep l [] = [p0; p1] → l = p0 ++ sep :: p1 ∧ Forall (λ b, chr_eqb b sep = false) p0 ∧ Forall (λ b, chr_eqb b sep = false) p1.
Proof.
  assert (Hone : ∀ l cur p, split_bytes sep l cur = [p] → p = cur ++ l ∧ Forall (λ b, chr_eqb b sep = false) l).
  { clear. induction l as [|b l IH]; intros cur p; cbn; [intros [= <-]; by rewrite app_nil_r|].
    destruct (chr_eqb b sep) eqn:E; [intros [= _ ?]; by destruct (split_bytes_nonempty sep l [])|].
    intros [-> Hl]%IH. rewrite <-(assoc_L (++)). by split; [|constructor]. }
  assert (Htwo : ∀ l cur, split_bytes sep l cur = [p0; p1] → ∃ q, p0 = cur ++ q ∧ l = q ++ sep :: p1 ∧
    Forall (λ b, chr_eqb b sep = false) q ∧ Forall (λ b, chr_eqb b sep = false) p1).
  { clear l. induction l as [|b l IH]; intros cur; cbn; [done|]. destruct (chr_eqb b sep) eqn:E.
    - intros [= <- Hs]. apply Hone in Hs as [-> Hl]. cbn in *. exists []. rewrite app_nil_r. split_and!; [done| |constructor|done].
      by apply Byte.byte_dec_bl in E as ->.
    - intros (q & -> & -> & Hq & Hp)%IH. exists (b :: q). rewrite <-(assoc_L (++)). split_and!; [done|done|by constructor|done]. }
  intros (q & -> & -> & ? & ?)%Htwo. done.
Qed.

(** The header [parseObjectRange] passes on has the prefix of the one it got,
    and a specification whose end is clamped. *)
Definition clampEnd (n : Z) (r : result (Z * Z)) : result (Z * Z) := '(s, e) ← r; Ok (s, Z.min e (n - 1)).

Lemma parse_clamped p0 p1 n end_ :
  0 < n ≤ MaxInt64 → p0 ≠ [] → Forall (λ b, chr_eqb b "-" = false) p0 → Forall (λ b, chr_eqb b "-" = false) p1 →
  ParseInt_bytes p1 = Some end_ → p1 ≠ [] →
  parseRangeSpec (p0 ++ "-"%byte :: (if end_ >=? n then FormatInt_bytes (n - 1) else p1)) n =
  clampEnd n (match ParseInt_bytes p0 with None => Err (Errorf "invalid start: %w") | Some s => Ok (s, end_) end).
Proof.
  intros Hn Hne H0 H1 He Hp1. set (q := if end_ >=? n then FormatInt_bytes (n - 1) else p1).
  assert (Hq : Forall (λ b, chr_eqb b "-" = false) q ∧ q ≠ [] ∧ ParseInt_bytes q = Some (Z.min end_ (n - 1))).
  { unfold q. destruct (Z.geb_spec end_ n).
    - destruct (FormatInt_digits (n - 1) ltac:(lia)) as [Hd ?]. rewrite ParseInt_FormatInt by lia.
      split_and!; [by apply digits_no_dash|done|f_equal; lia].
    - split_and!; [done..|]. rewrite He. f_equal. lia. }
  destruct Hq as (Hqd & Hqn & Hqp). unfold parseRangeSpec.
  assert (Hs : split_bytes "-" (p0 ++ "-"%byte :: q) [] = [p0; q]) by (by rewrite split_bytes_app, split_bytes_none).
  destruct p0 as [|b p0]; [done|]. inversion H0 as [|?? Hb _]; subst. rewrite <-app_comm_cons in Hs |- *. rewrite Hs.
  assert (Hm : ∀ A (x y : A) (f : Z → A), match q with [] => x | _ => match ParseInt_bytes q with None => y | Some e => f e end end = f (Z.min end_ (n - 1)))
    by (intros; rewrite Hqp; by destruct q).
  destruct (ParseInt_bytes (b :: p0)); [rewrite Hm|]; by destruct b.
Qed.

Lemma rangeOfSpec_split b spec n :
  b ≠ "-"%byte →
  rangeOfSpec (b :: spec) n = match split_bytes "-" (b :: spec) [] with
    | [p0; p1] => match ParseInt_bytes p0 with None => Err (Errorf "invalid start: %w") | Some start =>
        match p1 with [] => Ok (start, n -i 1) | _ => match ParseInt_bytes p1 with None => Err (Errorf "invalid end: %w") | Some e => Ok (start, e) end end end
    | _ => Err (Errorf "invalid range format") end.
Proof. by destruct b. Qed.

Lemma rangeOfSpec_i64 spec n s e : rangeOfSpec spec n = Ok (s, e) → is_i64 s ∧ is_i64 e.
Proof.
  destruct spec as [|b spec]; [done|]. destruct (decide (b = "-"%byte)) as [->|Hb].
  - cbn. destruct (ParseInt_bytes spec); [|done]. case_match; intros; simplify_eq; split; eauto using wrap_i64_range. by unfold is_i64.
  - rewrite rangeOfSpec_split by done. destruct (split_bytes _ _ _) as [|p0 [|p1 [|]]]; try done.
    destruct (ParseInt_bytes p0) eqn:E0; [|done]. destruct p1 as [|c p1]; [intros; simplify_eq; eauto using wrap_i64_range, ParseInt_range|].
    destruct (ParseInt_bytes (c :: p1)) eqn:E1; intros; simplify_eq. eauto using ParseInt_range.
Qed.

Lemma clamped_spec spec n :
  0 < n ≤ MaxInt64 → spec ≠ [] →
  ∃ spec', clampRangeHeader (string_of_bytes (bytesUnit ++ spec)) n = string_of_bytes (bytesUnit ++ spec') ∧
    parseRangeSpec spec' n = clampEnd n (rangeOfSpec spec n).
Proof.
  intros Hn Hne. assert (Hn1 : n -i 1 = n - 1) by (unfold MaxInt64 in Hn; by nowrap).
  unfold clampRangeHeader. rewrite bytes_of_string_of_bytes.
  assert (Hp : HasPrefixB (bytesUnit ++ spec) bytesUnit = true) by (unfold HasPrefixB; by rewrite take_app_length, bool_decide_eq_true_2).
  rewrite Hp, Z.gtb_ltb, (proj2 (Z.ltb_lt 0 n)) by lia. cbn [andb].
  change (drop 6 (bytesUnit ++ spec)) with spec. rewrite Hn1.
  destruct spec as [|b spec]; [done|]. clear Hne Hp.
  assert (Hd : HasPrefixB (b :: spec) (txt "-") = bool_decide (b = "-"%byte)) by (unfold HasPrefixB; by destruct b).
  rewrite Hd. case_bool_decide as Hb.
  { subst b. exists ("-"%byte :: spec). split; [done|]. unfold parseRangeSpec, rangeOfSpec. rewrite (proj2 (Z.leb_gt n 0)) by lia. rewrite Hn1.
    destruct (ParseInt_bytes spec); cbn; [|done]. do 2 f_equal. lia. }
  pose proof (rangeOfSpec_split b spec n Hb) as Hr. rewrite Hn1 in Hr.
  assert (Hq : parseRangeSpec (b :: spec) n = match split_bytes "-" (b :: spec) [] with
    | [p0; p1] => match ParseInt_bytes p0 with None => Err (Errorf "invalid start: %w") | Some start =>
        match p1 with [] => Ok (start, n - 1) | _ => match ParseInt_bytes p1 with None => Err (Errorf "invalid end: %w") | Some e => Ok (start, e) end end end
    | _ => Err (Errorf "invalid range format") end)
    by (unfold parseRangeSpec; rewrite (proj2 (Z.leb_gt n 0)), Hn1 by lia; by destruct b).
  rewrite Hr. unfold SplitB. destruct (split_bytes "-" (b :: spec) []) as [|p0 [|p1 [|]]] eqn:Es; try (eexists; split; [done|]; by rewrite Hq).
  apply split_bytes_two in Es as (E & H0 & H1). case_bool_decide as E1.
  { subst p1. eexists. split; [done|]. rewrite Hq. destruct (ParseInt_bytes p0); cbn; [|done]. do 2 f_equal. lia. }
  destruct (ParseInt_bytes p1) as [e|] eqn:Ee.
  2: { eexists. split; [done|]. rewrite Hq. destruct (ParseInt_bytes p0), p1; done. }
  exists (p0 ++ "-"%byte :: (if e >=? n then FormatInt_bytes (n - 1) else p1)). split; [destruct (e >=? n); [done|by rewrite E]|].
  assert (p0 ≠ []) by (intros ->; cbn in E; congruence). rewrite (parse_clamped p0 p1 n e) by done. destruct (ParseInt_bytes p0), p1; done.
Qed.

(** The prefix test of the two parsers. *)
Lemma range_prefix h :
  (strlen h <? 6) || negb (bool_decide (take 6 (bytes_of_string h) = bytes_of_string "bytes=")) = negb (HasPrefixB (bytes_of_string h) bytesUnit) ∧
  (HasPrefixB (bytes_of_string h) bytesUnit = true → h = string_of_bytes (bytesUnit ++ drop 6 (bytes_of_string h))).
Proof.
  unfold HasPrefixB. change (length bytesUnit) with 6%nat. change (bytes_of_string "bytes=") with bytesUnit. split.
  - case_bool_decide as E; [|by rewrite orb_true_r]. rewrite orb_false_r. apply Z.ltb_ge.
    rewrite <-len_bytes_of_string. apply (f_equal length) in E. rewrite length_take in E. change (length bytesUnit) with 6%nat in E. lia.
  - intros E%bool_decide_eq_true. rewrite <-E, take_drop. symmetry. apply string_of_bytes_of_string.
Qed.

Lemma clamp_other h n : HasPrefixB (bytes_of_string h) bytesUnit = false → clampRangeHeader h n = h.
Proof. intros E. unfold clampRangeHeader. by rewrite E, andb_false_r. Qed.

(** The planner's range and the bytes a buffered read cuts out agree: for every
    header other than the bare unit, [applyRangeRequest] answers exactly when
    [parseObjectRange] does, and with the bytes of the range it found. *)
Lemma range_parsers_agree data h :
  0 < len data ≤ MaxInt64 → h ≠ "bytes=" →
  match parseObjectRange h (len data) with
  | Ok (s, e) => 0 ≤ s ≤ e ∧ e < len data ∧ applyRangeRequest data h = Ok (slice data s e)
  | Err _ => ∃ err, applyRangeRequest data h = Err err
  end.
Proof.
  intros Hn Hh. unfold parseObjectRange, applyRangeRequest. destruct (range_prefix h) as [Hpre Hstr].
  destruct (HasPrefixB (bytes_of_string h) bytesUnit) eqn:Ep; cbn [negb].
  2: { rewrite clamp_other by done. unfold ParseHTTPRangeHeader. rewrite Hpre. cbn. eauto. }
  specialize (Hstr eq_refl). set (spec := drop 6 (bytes_of_string h)) in *. set (n := len data) in *.
  assert (Hne : spec ≠ []) by (intros E; rewrite E in Hstr; by rewrite Hstr in Hh).
  destruct (clamped_spec spec n Hn Hne) as (spec' & Hc & Hparse). rewrite Hstr, Hc. unfold ParseHTTPRangeHeader.
  destruct (range_prefix (string_of_bytes (bytesUnit ++ spec'))) as [Hpre' _]. rewrite Hpre', bytes_of_string_of_bytes.
  assert (HasPrefixB (bytesUnit ++ spec') bytesUnit = true) as -> by (unfold HasPrefixB; by rewrite take_app_length, bool_decide_eq_true_2).
  cbn [negb]. change (drop 6 (bytesUnit ++ spec')) with spec'. rewrite Hparse. unfold clampEnd.
  pose proof (rangeOfSpec_i64 spec n) as Hi.
  destruct (rangeOfSpec spec n) as [[s e]|err]; cbn -[Z.ltb Z.leb Z.geb Z.min]; [|eauto].
  destruct (Hi s e eq_refl) as [Hs He]. unfold is_i64, MaxInt64 in *. replace (n -i 1) with (n - 1) by (by nowrap).
  rewrite (proj2 (Z.ltb_lt 0 n)), !Z.geb_leb by lia. cbn [andb].
  destruct (Z.ltb_spec s 0); cbn [orb]; [eauto|]. destruct (Z.leb_spec n s); [destruct (Z.ltb_spec (Z.min e (n - 1)) s); cbn [orb]; eauto|].
  assert (He' : (if n <=? e then n - 1 else e) = Z.min e (n - 1)) by (destruct (Z.leb_spec n e); lia). rewrite He'.
  destruct (Z.ltb_spec (Z.min e (n - 1)) s); [eauto|]. cbn [orb]. rewrite (proj2 (Z.leb_gt n _)) by lia.
  split_and!; [lia..|]. unfold slice. rewrite (wrap_i64_id (Z.min e (n - 1) + 1)), (wrap_i64_id (_ - s)) by (unfold is_i64; lia).
  do 3 f_equal. lia.
Qed.
