(* ===== verification/ObjectResponse.v ===== *)
(** * Response headers of objects ([internal/api/object_response.go])

    The headers of a GET or HEAD answer are built in one place, from what is
    known of the object and from the shape of the request. *)
From S2P Require Import Prelude GoStd GoText Http Metadata ObjectFormat ObjectMeta ObjectWrite EngineMeta.
Local Open Scope Z_scope.
Local Open Scope go_scope.
#[local] Arguments ToLower : simpl never.
#[local] Arguments FormatInt : simpl never.
#[local] Arguments bytes_of_string : simpl never.

Record byteRange := mkByteRange { br_Start : Z; br_End : Z }.
Record responseShape := mkShape {
  sh_Method : string; sh_Range : option byteRange; sh_VersionID : string; sh_Overrides : gomap;
  sh_UnsatisfiedRangeTotal : Z; sh_HasUnsatisfiedRange : bool }.
Record objectResponseSource := mkRespSource {
  rs_Class : ObjectClass; rs_Meta : gomap; rs_Decrypted : gomap; rs_PlainSize : Z; rs_BackendETag : string;
  rs_SSECustomer : bool; rs_Method : string; rs_VersionID : string; rs_Overrides : gomap }.

Definition overrideNames : list string :=
  ["response-content-type"; "response-content-language"; "response-expires"; "response-cache-control";
   "response-content-disposition"; "response-content-encoding"].
(** [query] is [r.URL.Query().Get]. *)
Definition parseResponseOverrides (query : string → string) : gomap :=
  foldl (λ out name, if decide (query name = "") then out else map_set out name (query name)) [] overrideNames.

(** The exact name first, then any spelling of it. *)
Definition headerValue (meta : gomap) (name : string) : string :=
  match map_lookup meta name with Some v => v | None => metadataValueFold meta name end.

Definition isSSECustomerBackendObject (metadata : gomap) : bool :=
  negb (bool_decide (TrimSpaceB (bytes_of_string (headerValue metadata "x-amz-server-side-encryption-customer-algorithm")) = [])).
Definition responseUsesSSECustomer (src : objectResponseSource) : bool :=
  rs_SSECustomer src || isSSECustomerBackendObject (rs_Meta src).

Definition quote : string := string_of_bytes [x22].
Definition quoteETag (etag : string) : string :=
  let l := bytes_of_string etag in
  if bool_decide (etag = "") || (HasPrefixB l [x22] && bool_decide (drop (length l - 1) l = [x22])) then etag
  else quote +:+ etag +:+ quote.

Definition isProjectedSSEHeader (name : string) : bool :=
  bool_decide (ToLower name ∈
    ["x-amz-server-side-encryption"; "x-amz-server-side-encryption-aws-kms-key-id";
     "x-amz-server-side-encryption-bucket-key-enabled"; "x-amz-server-side-encryption-customer-algorithm";
     "x-amz-server-side-encryption-customer-key-md5"]).

(** [projectedReservedMetadataKeys]. *)
Definition projectedReserved : list string :=
  filter (λ k, HasPrefix k userPrefix = true) (metaKeyRegistry ≫= λ spec, ToLower <$> Canonical spec :: Compact spec :: Legacy spec)
  ++ ["x-amz-meta-original-content-length"].

(** [setProjectedHeader]: every header of the answer has one value. *)
Definition setProjectedHeader (h : gomap) (key value : string) : gomap := map_set h (CanonicalHeaderKey key) value.

Definition firstHeaderValue (meta : gomap) (names : list string) : string :=
  default "" (head (filter (λ v, v ≠ "") (headerValue meta <$> names))).
Definition projectedStandardValue (header : string) (src : objectResponseSource) : string :=
  let native := headerValue (rs_Meta src) header in
  if oc_Encrypted (rs_Class src) then
    match find (λ p, bool_decide (p.1 = header)) (zip Names ProtectedStandardKeys) with
    | Some (_, spec) =>
        let value := headerValue (rs_Decrypted src) header in
        if decide (value ≠ "") then value else
        let value := firstHeaderValue (rs_Meta src) (Canonical spec :: Compact spec :: Legacy spec) in
        if decide (value ≠ "") then value else native
    | None => native
    end
  else native.

(** Headers of the stored object that are passed on under their own name. *)
Definition passedHeader (lk : string) : bool :=
  HasPrefix lk "x-amz-object-lock-" ||
  bool_decide (lk ∈ ["last-modified"; "x-amz-storage-class"; "x-amz-mp-parts-count"; "x-amz-expiration"; "x-amz-website-redirect-location"]) ||
  isProjectedSSEHeader lk.
Definition projectEntry (h : gomap) (kv : string * string) : gomap :=
  let lk := ToLower kv.1 in
  if HasPrefix lk userPrefix then
    if bool_decide (lk ∈ projectedReserved) then h
    else let h := setProjectedHeader h lk kv.2 in
         if passedHeader lk then setProjectedHeader h kv.1 kv.2 else h
  else if passedHeader lk then setProjectedHeader h kv.1 kv.2 else h.

Definition overrideHeader (name : string) : option string :=
  if decide (name = "response-content-type") then Some "Content-Type"
  else if decide (name = "response-content-language") then Some "Content-Language"
  else if decide (name = "response-expires") then Some "Expires"
  else if decide (name = "response-cache-control") then Some "Cache-Control"
  else if decide (name = "response-content-disposition") then Some "Content-Disposition"
  else if decide (name = "response-content-encoding") then Some "Content-Encoding"
  else None.

Definition projectedETag (src : objectResponseSource) (meta : gomap) : string :=
  let original := headerValue meta MetaOriginalETag in
  let original := if decide (original = "" ∧ oc_Encrypted (rs_Class src) = true) then headerValue (rs_Decrypted src) "ETag" else original in
  if bool_decide (original ≠ "") && negb (responseUsesSSECustomer src) then quoteETag original else rs_BackendETag src.

Definition projectedLength (src : objectResponseSource) (shape : responseShape) (h : gomap) : gomap :=
  let h := if 0 <=? rs_PlainSize src then setProjectedHeader h "Content-Length" (FormatInt (rs_PlainSize src)) else h in
  let h := match sh_Range shape with
    | Some r =>
        let h := setProjectedHeader h "Content-Range"
          ("bytes " +:+ FormatInt (br_Start r) +:+ "-" +:+ FormatInt (br_End r) +:+ "/" +:+ FormatInt (rs_PlainSize src)) in
        setProjectedHeader h "Content-Length" (FormatInt (br_End r -i br_Start r +i 1))
    | None => h
    end in
  if sh_HasUnsatisfiedRange shape
  then setProjectedHeader h "Content-Range" ("bytes */" +:+ FormatInt (sh_UnsatisfiedRangeTotal shape)) else h.

(** The headers that come from the object, and those set after its length. *)
Definition projectedBase (src : objectResponseSource) (shape : responseShape) : gomap :=
  let meta := if oc_Encrypted (rs_Class src) && negb (bool_decide (rs_Decrypted src = []))
              then map_merge (map_merge [] (rs_Meta src)) (rs_Decrypted src) else rs_Meta src in
  let h := foldl (λ h n, let v := projectedStandardValue n src in if decide (v ≠ "") then setProjectedHeader h n v else h) [] Names in
  let h := foldl projectEntry h meta in
  let etag := projectedETag src meta in
  let h := if decide (etag ≠ "") then setProjectedHeader h "ETag" etag else h in
  let backendVersion := headerValue meta "x-amz-version-id" in
  if decide (backendVersion ≠ "") then setProjectedHeader h "x-amz-version-id" backendVersion
  else if decide (sh_VersionID shape ≠ "") then setProjectedHeader h "x-amz-version-id" (sh_VersionID shape) else h.
Definition projectedRest (src : objectResponseSource) (shape : responseShape) (h : gomap) : gomap :=
  let h := if decide (sh_Method shape = "GET")
           then foldl (λ h kv, match overrideHeader kv.1 with Some n => setProjectedHeader h n kv.2 | None => h end) h (sh_Overrides shape)
           else h in
  let h := if responseUsesSSECustomer src then setProjectedHeader h "Cache-Control" "no-store" else h in
  setProjectedHeader h "Accept-Ranges" "bytes".
Definition projectedHeaders (src : objectResponseSource) (shape : responseShape) : gomap :=
  projectedRest src shape (projectedLength src shape (projectedBase src shape)).

(** The values are kept in a buffer that is allocated before the decrypted
    metadata is merged, with 16 places more than there are stored headers: the
    first new header past its end panics. Headers are only added, so the number
    of them in the end decides. *)
Definition SlicePanic : error := Sentinel "runtime error: slice bounds out of range".
Definition projectObjectHeaders (src : objectResponseSource) (shape : responseShape) : result gomap :=
  let h := projectedHeaders src shape in
  if len (rs_Meta src) + 16 <? len h then Err SlicePanic else Ok h.

(** ** What an answer says *)

Lemma raise_lower b : lower (raise b) = lower b.
Proof. destruct b; vm_compute; done. Qed.

Lemma canonical_lower k : ToLower (CanonicalHeaderKey k) = ToLower k.
Proof.
  unfold CanonicalHeaderKey. destruct (forallb _ _); [|done]. unfold ToLower. rewrite bytes_of_string_of_bytes. f_equal.
  generalize true as up. induction (bytes_of_string k) as [|b l IH]; intros up; [done|]. cbn [canonical_bytes fmap list_fmap].
  rewrite IH. f_equal. destruct up; [apply raise_lower|apply header_byte].
Qed.

(** The names of gateway fields, in lower case. *)
Definition reservedNames : list string :=
  ToLower originalContentLength :: (metaKeyRegistry ≫= λ spec, ToLower <$> Canonical spec :: Compact spec :: Legacy spec).
Lemma reserved_named k : IsGatewayReservedKey k = true → ToLower k ∈ reservedNames.
Proof.
  unfold IsGatewayReservedKey. destruct (EqualFold k originalContentLength) eqn:Eo; [apply EqualFold_spec in Eo; rewrite Eo; by left|].
  intros Hr. right. destruct (LookupMetaKey k) as [s|] eqn:El'; [|done]. pose proof (LookupMetaKey_in _ _ El') as Hs.
  apply find_some in El' as [_ Hm]. apply list_elem_of_bind. exists s. split; [|done]. apply list_elem_of_fmap.
  unfold matches in Hm. apply orb_prop in Hm as [[Hm|Hm]%orb_prop|Hm].
  - apply bool_decide_eq_true in Hm. eexists. split; [by symmetry|]. by left.
  - apply bool_decide_eq_true in Hm. eexists. split; [by symmetry|]. by right; left.
  - apply existsb_exists in Hm as (l & Hl & Hm). apply bool_decide_eq_true in Hm. eexists. split; [by symmetry|].
    do 2 right. by apply list_elem_of_In.
Qed.

Lemma reserved_projected k : HasPrefix (ToLower k) userPrefix = true → IsGatewayReservedKey k = true → ToLower k ∈ projectedReserved.
Proof.
  intros Hp [->|Hr]%reserved_named%elem_of_cons; apply elem_of_app.
  - right. apply list_elem_of_singleton. vm_compute. reflexivity.
  - left. by apply list_elem_of_filter.
Qed.

(** Names an answer may have from the object's metadata: no gateway field, and
    none of the headers that describe the body. *)
Definition bodyNames : list string := ["content-length"; "content-range"].
Definition projectable (k : string) : Prop := IsGatewayReservedKey k = false ∧ ToLower k ∉ bodyNames.

Lemma projectable_fold k k' : ToLower k = ToLower k' → projectable k → projectable k'.
Proof. intros E [H1 H2]. unfold projectable. by rewrite <-(IsGatewayReservedKey_fold _ _ E), <-E. Qed.

Lemma user_not_body lk : HasPrefix lk userPrefix = true → lk ∉ bodyNames.
Proof.
  intros Hp Hin. repeat (apply elem_of_cons in Hin as [->|Hin]); [..|by apply elem_of_nil in Hin]; vm_compute in Hp; done.
Qed.

(** Every gateway field but the legacy ones has the prefix of user metadata. *)
Lemma reserved_checked : forallb (λ k, HasPrefix k userPrefix || HasPrefix k "encryption-" || bool_decide (k = "")) reservedNames = true.
Proof. vm_compute. reflexivity. Qed.
Lemma reserved_shape k : IsGatewayReservedKey k = true →
  HasPrefix (ToLower k) userPrefix = true ∨ HasPrefix (ToLower k) "encryption-" = true ∨ ToLower k = "".
Proof.
  intros Hin%reserved_named%list_elem_of_In. pose proof reserved_checked as Hall. rewrite forallb_forall in Hall.
  apply Hall in Hin. apply orb_prop in Hin as [[?|?]%orb_prop|?%bool_decide_eq_true]; auto.
Qed.

Lemma prefix_clash s p q n :
  HasPrefix s p = true → HasPrefix s q = true → (n ≤ String.length p)%nat → (n ≤ String.length q)%nat →
  take n (bytes_of_string p) = take n (bytes_of_string q).
Proof.
  unfold HasPrefix. intros <-%bool_decide_eq_true <-%bool_decide_eq_true ??. rewrite !take_take. by rewrite !Nat.min_l.
Qed.

Lemma passed_spec k : passedHeader (ToLower k) = true → projectable k.
Proof.
  intros Hp. assert (Hn : ∀ l, forallb (λ n, negb (HasPrefix n userPrefix || HasPrefix n "encryption-" || bool_decide (n = "")) &&
    negb (bool_decide (n ∈ bodyNames))) l = true → ToLower k ∈ l → projectable k).
  { intros l Hl Hin%list_elem_of_In. rewrite forallb_forall in Hl. apply Hl, andb_prop in Hin as [H1%negb_true_iff H2%negb_true_iff].
    apply bool_decide_eq_false in H2. split; [|done]. apply orb_false_elim in H1 as [[H1 H3]%orb_false_elim H4%bool_decide_eq_false].
    destruct (IsGatewayReservedKey k) eqn:E; [|done]. apply reserved_shape in E as [E|[E|E]]; congruence. }
  unfold passedHeader, isProjectedSSEHeader in Hp. apply orb_prop in Hp as [[Hp|Hp]%orb_prop|Hp].
  2: { apply bool_decide_eq_true in Hp. eapply Hn; [|exact Hp]. vm_compute. reflexivity. }
  2: { apply bool_decide_eq_true in Hp. rewrite ToLower_idemp in Hp. eapply Hn; [|exact Hp]. vm_compute. reflexivity. }
  split.
  - destruct (IsGatewayReservedKey k) eqn:E; [|done]. exfalso. apply reserved_shape in E as [E|[E|E]].
    + pose proof (prefix_clash _ _ _ 7 Hp E ltac:(cbn; lia) ltac:(cbn; lia)) as H. vm_compute in H. done.
    + pose proof (prefix_clash _ _ _ 1 Hp E ltac:(cbn; lia) ltac:(cbn; lia)) as H. vm_compute in H. done.
    + rewrite E in Hp. vm_compute in Hp. done.
  - intros Hin. repeat (apply elem_of_cons in Hin as [Hin|Hin]); [..|by apply elem_of_nil in Hin]; rewrite Hin in Hp; vm_compute in Hp; done.
Qed.

(** Entries that become headers, and under which name. *)
Definition projected (k : string) : bool :=
  (HasPrefix (ToLower k) userPrefix && negb (bool_decide (ToLower k ∈ projectedReserved))) || passedHeader (ToLower k).
Definition slot (k : string) : string := CanonicalHeaderKey (if HasPrefix (ToLower k) userPrefix then ToLower k else k).

Lemma user_not_passed lk : HasPrefix lk userPrefix = true → passedHeader lk = false.
Proof.
  intros Hu. destruct (passedHeader lk) eqn:Hp; [|done]. exfalso. unfold passedHeader, isProjectedSSEHeader in Hp.
  assert (Hn : ∀ l n, forallb (λ n, negb (HasPrefix (ToLower n) userPrefix)) l = true → n ∈ l → ToLower n = ToLower lk → False).
  { intros l n Hl Hin%list_elem_of_In E. rewrite forallb_forall in Hl. apply Hl in Hin. rewrite E in Hin.
    unfold HasPrefix in Hu, Hin. apply bool_decide_eq_true in Hu. apply negb_true_iff, bool_decide_eq_false in Hin. apply Hin.
    rewrite ToLower_bytes, <-fmap_take, Hu. vm_compute. reflexivity. }
  apply orb_prop in Hp as [[Hp|Hp%bool_decide_eq_true]%orb_prop|Hp%bool_decide_eq_true].
  - pose proof (prefix_clash _ _ _ 7 Hp Hu ltac:(cbn; lia) ltac:(cbn; lia)) as H. vm_compute in H. done.
  - eapply Hn; [|exact Hp|done]. vm_compute. reflexivity.
  - eapply Hn; [|exact Hp|apply ToLower_idemp]. vm_compute. reflexivity.
Qed.

Lemma projectEntry_keys (Q : string → Prop) h kv :
  (projected kv.1 = true → Q (slot kv.1)) → (∀ k, k ∈ h.*1 → Q k) → ∀ k, k ∈ (projectEntry h kv).*1 → Q k.
Proof.
  intros Hkv Hh. unfold projectEntry, projected, slot in *. destruct (HasPrefix (ToLower kv.1) userPrefix) eqn:Hu.
  - rewrite (user_not_passed _ Hu) in Hkv |- *. case_bool_decide; [done|]. by apply map_set_keys_Q; [apply Hkv|].
  - destruct (passedHeader _); [|done]. by apply map_set_keys_Q; [apply Hkv|].
Qed.

Lemma projected_projectable k : projected k = true → projectable (slot k).
Proof.
  unfold projected, slot. destruct (HasPrefix (ToLower k) userPrefix) eqn:Hu; cbn [andb orb].
  - rewrite (user_not_passed _ Hu), orb_false_r. intros Hr%negb_true_iff%bool_decide_eq_false.
    apply (projectable_fold k); [by rewrite canonical_lower, ToLower_idemp|]. split; [|by apply user_not_body].
    destruct (IsGatewayReservedKey k) eqn:E; [|done]. by apply reserved_projected in E.
  - intros Hp%passed_spec. eapply projectable_fold; [|exact Hp]. by rewrite canonical_lower.
Qed.

(** The fixed headers of an answer, with the names they are stored under. *)
Definition fixedNames : list string := Names ++ ["ETag"; "x-amz-version-id"; "Accept-Ranges"].
Lemma fixed_checked :
  forallb (λ n, negb (IsGatewayReservedKey n) && bool_decide (ToLower n ∉ bodyNames)) fixedNames = true ∧
  forallb (λ n, negb (IsGatewayReservedKey n) && bool_decide (CanonicalHeaderKey n = n)) ["Content-Length"; "Content-Range"] = true ∧
  forallb (λ n, bool_decide (CanonicalHeaderKey n ≠ "Content-Length" ∧ CanonicalHeaderKey n ≠ "Content-Range")) fixedNames = true.
Proof. vm_compute. done. Qed.

Lemma fixed_projectable n : n ∈ fixedNames → projectable (CanonicalHeaderKey n).
Proof.
  intros Hn. apply (projectable_fold n); [by rewrite canonical_lower|]. destruct fixed_checked as [Hall _]. rewrite forallb_forall in Hall.
  apply list_elem_of_In, Hall, andb_prop in Hn as [H1 H2]. apply negb_true_iff in H1. apply bool_decide_eq_true in H2. done.
Qed.

Lemma lookup_fixed h n v k :
  n ∈ fixedNames → k ∈ ["Content-Length"; "Content-Range"] → map_lookup (setProjectedHeader h n v) k = map_lookup h k.
Proof.
  intros Hn Hk. unfold setProjectedHeader. rewrite map_lookup_set, decide_False; [done|].
  destruct fixed_checked as (_ & _ & Hall). rewrite forallb_forall in Hall. apply list_elem_of_In, Hall in Hn.
  apply bool_decide_eq_true in Hn as [H1 H2]. repeat (apply elem_of_cons in Hk as [->|Hk]); [done..|by apply elem_of_nil in Hk].
Qed.

Lemma in_fixed n : bool_decide (n ∈ fixedNames) = true → n ∈ fixedNames.
Proof. apply bool_decide_eq_true. Qed.
#[local] Hint Extern 1 (_ ∈ fixedNames) => apply in_fixed; vm_compute; reflexivity : core.

Lemma names_fixed n : n ∈ Names → n ∈ fixedNames.
Proof. intros ?. by apply elem_of_app; left. Qed.

Lemma override_fixed name n : overrideHeader name = Some n → n ∈ fixedNames.
Proof. unfold overrideHeader. repeat case_decide; intros; simplify_eq; auto. Qed.

Definition mergedMeta (src : objectResponseSource) : gomap :=
  if oc_Encrypted (rs_Class src) && negb (bool_decide (rs_Decrypted src = [])) then map_merge (map_merge [] (rs_Meta src)) (rs_Decrypted src) else rs_Meta src.

Section keys.
Context (Q : string → Prop) (Hfixed : ∀ n, n ∈ fixedNames → Q (CanonicalHeaderKey n)) (src : objectResponseSource) (shape : responseShape).

Lemma set_fixed h n v : n ∈ fixedNames → (∀ k, k ∈ h.*1 → Q k) → ∀ k, k ∈ (setProjectedHeader h n v).*1 → Q k.
Proof using Hfixed. intros Hn Hh. apply map_set_keys_Q; auto. Qed.

Lemma projectedBase_Q :
  (∀ k, k ∈ (mergedMeta src).*1 → projected k = true → Q (slot k)) → ∀ k, k ∈ (projectedBase src shape).*1 → Q k.
Proof using Hfixed.
  intros Hq. unfold projectedBase. fold (mergedMeta src). cbv zeta.
  set (h0 := foldl _ [] Names). set (h1 := foldl projectEntry h0 (mergedMeta src)). set (h2 := if decide (projectedETag src (mergedMeta src) ≠ "") then _ else h1).
  assert (H0 : ∀ k, k ∈ h0.*1 → Q k).
  { apply foldl_keys; [|by intros k ?%elem_of_nil]. intros out n Hn Hout. case_decide; [|done]. apply set_fixed; [by apply names_fixed|done]. }
  assert (H1 : ∀ k, k ∈ h1.*1 → Q k).
  { apply foldl_keys; [|done]. intros out kv Hkv. apply projectEntry_keys. apply Hq. by apply list_elem_of_fmap_2. }
  assert (H2 : ∀ k, k ∈ h2.*1 → Q k) by (unfold h2; case_decide; [apply set_fixed; auto|done]).
  repeat case_decide; [apply set_fixed; auto..|done].
Qed.

Lemma projectedRest_Q h : (∀ k, k ∈ h.*1 → Q k) → ∀ k, k ∈ (projectedRest src shape h).*1 → Q k.
Proof using Hfixed.
  intros Hh. unfold projectedRest. cbv zeta. apply set_fixed; [auto|].
  assert (Ho : ∀ k, k ∈ (if decide (sh_Method shape = "GET") then foldl (λ h kv, match overrideHeader kv.1 with
    Some n => setProjectedHeader h n kv.2 | None => h end) h (sh_Overrides shape) else h).*1 → Q k).
  { case_decide; [|done]. apply foldl_keys; [|done]. intros out kv _ Hout. destruct (overrideHeader kv.1) eqn:E; [|done].
    apply set_fixed; [by eapply override_fixed|done]. }
  destruct (responseUsesSSECustomer src); [apply set_fixed; auto|done].
Qed.

Lemma projectedHeaders_Q :
  Q "Content-Length" → Q "Content-Range" → (∀ k, k ∈ (mergedMeta src).*1 → projected k = true → Q (slot k)) →
  ∀ k, k ∈ (projectedHeaders src shape).*1 → Q k.
Proof using Hfixed.
  intros HL HR Hq. unfold projectedHeaders. apply projectedRest_Q. pose proof (projectedBase_Q Hq) as Hb. unfold projectedLength.
  destruct fixed_checked as (_ & Hall & _). repeat case_match; repeat (apply map_set_keys_Q; [by vm_compute (CanonicalHeaderKey _)|]); done.
Qed.
End keys.

Lemma projectedBase_keys src shape k : k ∈ (projectedBase src shape).*1 → projectable k.
Proof. apply projectedBase_Q; [apply fixed_projectable|]. intros ? _. apply projected_projectable. Qed.

Lemma projectedRest_lookup src shape h k :
  k ∈ ["Content-Length"; "Content-Range"] → map_lookup (projectedRest src shape h) k = map_lookup h k.
Proof.
  intros Hk. unfold projectedRest. cbv zeta. rewrite lookup_fixed by auto.
  assert (Ho : ∀ l h, map_lookup (foldl (λ h kv, match overrideHeader kv.1 with
    Some n => setProjectedHeader h n kv.2 | None => h end) h l) k = map_lookup h k).
  { clear h. intros l. induction l as [|kv l IH]; intros h; [done|]. cbn [foldl]. rewrite IH.
    destruct (overrideHeader kv.1) eqn:E; [|done]. rewrite lookup_fixed; [done|by eapply override_fixed|done]. }
  destruct (responseUsesSSECustomer src); rewrite ?lookup_fixed by auto; case_decide; by rewrite ?Ho.
Qed.

Lemma map_lookup_key m k v : map_lookup m k = Some v → k ∈ m.*1.
Proof. induction m as [|[k' v'] m IH]; cbn; [done|]. case_decide as E; [subst k'; by left|right; auto]. Qed.

Lemma projectedBase_lookup src shape k : k ∈ ["Content-Length"; "Content-Range"] → map_lookup (projectedBase src shape) k = None.
Proof.
  intros Hk. destruct (map_lookup _ _) as [v|] eqn:E; [|done]. exfalso.
  apply map_lookup_key in E. apply projectedBase_keys in E as [_ Hn]. apply Hn.
  repeat (apply elem_of_cons in Hk as [->|Hk]); [..|by apply elem_of_nil in Hk]; apply (bool_decide_unpack _); vm_compute; reflexivity.
Qed.

Lemma projected_exact src shape :
  let h := projectedHeaders src shape in
  (∀ k, k ∈ h.*1 → IsGatewayReservedKey k = false) ∧
  (∀ r, sh_Range shape = Some r →
     map_lookup h "Content-Length" = Some (FormatInt (br_End r -i br_Start r +i 1)) ∧
     (sh_HasUnsatisfiedRange shape = false → map_lookup h "Content-Range" =
        Some ("bytes " +:+ FormatInt (br_Start r) +:+ "-" +:+ FormatInt (br_End r) +:+ "/" +:+ FormatInt (rs_PlainSize src)))) ∧
  (sh_Range shape = None →
     map_lookup h "Content-Length" = (if 0 <=? rs_PlainSize src then Some (FormatInt (rs_PlainSize src)) else None) ∧
     map_lookup h "Content-Range" = (if sh_HasUnsatisfiedRange shape then Some ("bytes */" +:+ FormatInt (sh_UnsatisfiedRangeTotal shape)) else None)).
Proof.
  intros h. assert (Hset : ∀ m n v k, n ∈ ["Content-Length"; "Content-Range"] → k ∈ ["Content-Length"; "Content-Range"] →
    map_lookup (setProjectedHeader m n v) k = if decide (n = k) then Some v else map_lookup m k).
  { intros m n v k Hn _. unfold setProjectedHeader. rewrite map_lookup_set. destruct fixed_checked as (_ & Hall & _).
    rewrite forallb_forall in Hall. apply list_elem_of_In, Hall, andb_prop in Hn as [_ Hn%bool_decide_eq_true]. by rewrite Hn. }
  assert (HL : "Content-Length" ∈ ["Content-Length"; "Content-Range"]) by (by left).
  assert (HR : "Content-Range" ∈ ["Content-Length"; "Content-Range"]) by (by right; left).
  split_and!.
  - apply projectedHeaders_Q; [intros n Hn; by apply fixed_projectable|vm_compute; reflexivity..|]. intros k _ Hk. by apply projected_projectable.
  - intros r Hr. unfold h, projectedHeaders. rewrite !projectedRest_lookup by done. unfold projectedLength. rewrite Hr.
    split; [|intros ->; by rewrite !Hset by done]. destruct (sh_HasUnsatisfiedRange shape); by rewrite !Hset by done.
  - intros Hr. unfold h, projectedHeaders. rewrite !projectedRest_lookup by done. unfold projectedLength. rewrite Hr.
    split; destruct (sh_HasUnsatisfiedRange shape), (0 <=? rs_PlainSize src); rewrite ?Hset by done; cbn [decide]; try done;
      by apply projectedBase_lookup.
Qed.

(** There is room for every header when the decrypted metadata brings no new one. *)
Definition covers (m decrypted : gomap) : Prop := ∀ k, k ∈ decrypted.*1 → projected k = true → k ∈ m.*1.

Lemma map_set_distinct m k v : NoDup m.*1 → NoDup (map_set m k v).*1.
Proof.
  induction m as [|[k' v'] m IH]; cbn; [by intros _; apply NoDup_singleton|]. intros [Hn Hd]%NoDup_cons. case_decide as E; cbn.
  - subst k'. by constructor.
  - constructor; [|by apply IH]. by intros [->|?]%map_set_keys.
Qed.

Lemma foldl_distinct {A} (f : gomap → A → gomap) l out :
  (∀ out x, NoDup out.*1 → NoDup (f out x).*1) → NoDup out.*1 → NoDup (foldl f out l).*1.
Proof. intros Hf. revert out. induction l as [|x l IH]; intros out Hout; cbn; auto. Qed.

Lemma projectedHeaders_distinct src shape : NoDup (projectedHeaders src shape).*1.
Proof.
  unfold projectedHeaders, projectedRest. cbv zeta. apply map_set_distinct. set (hl := projectedLength _ _ _).
  assert (Hl : NoDup hl.*1).
  { unfold hl, projectedLength, projectedBase, setProjectedHeader. cbv zeta. set (h0 := foldl _ [] Names).
    assert (NoDup h0.*1) by (apply foldl_distinct; [intros; case_decide; auto using map_set_distinct|constructor]).
    set (h1 := foldl projectEntry h0 _). assert (NoDup h1.*1).
    { apply foldl_distinct; [|done]. intros out kv Hout. unfold projectEntry, setProjectedHeader. repeat case_match; auto using map_set_distinct. }
    repeat case_match; repeat apply map_set_distinct; done. }
  set (ho := if decide (sh_Method shape = "GET") then _ else hl).
  assert (NoDup ho.*1).
  { unfold ho. case_decide; [|done]. apply foldl_distinct; [|done]. intros out kv Hout. case_match; [by apply map_set_distinct|done]. }
  destruct (responseUsesSSECustomer src); [by apply map_set_distinct|done].
Qed.

Lemma projected_room src shape : covers (rs_Meta src) (rs_Decrypted src) → projectObjectHeaders src shape = Ok (projectedHeaders src shape).
Proof.
  intros Hc. unfold projectObjectHeaders. set (h := projectedHeaders src shape).
  set (room := (CanonicalHeaderKey <$> fixedNames) ++ ["Content-Length"; "Content-Range"] ++ (slot <$> (rs_Meta src).*1)).
  assert (Hin : ∀ k, k ∈ h.*1 → k ∈ room).
  { apply projectedHeaders_Q; unfold room; intros; rewrite !elem_of_app.
    - left. by apply list_elem_of_fmap_2.
    - right. left. by left.
    - right. left. by right; left.
    - right. right. apply list_elem_of_fmap_2. unfold mergedMeta in *. destruct (_ && _); [|done].
      apply map_merge_keys in H as [[?%elem_of_nil|?]%map_merge_keys|?]; [done..|by apply Hc]. }
  pose proof (submseteq_length _ _ (NoDup_submseteq _ _ (projectedHeaders_distinct src shape) Hin)) as Hlen.
  unfold room in Hlen. rewrite !length_app, !length_fmap in Hlen. change (length fixedNames) with 9%nat in Hlen. cbn [length] in Hlen. fold h in Hlen.
  rewrite (proj2 (Z.ltb_ge _ _)) by lia. done.
Qed.

(** C27: the headers of an object's answer. No gateway field, under any of its
    names, is among them, whatever the stored and the decrypted metadata hold.
    The length and the range are those the handler decided: a range is
    announced with its bounds and its length, whatever overrides the request
    asks for; otherwise the length is that of the plaintext, and when it is not
    known no length is given at all, in particular not that of the ciphertext.
    There are headers at all when every entry of the decrypted metadata that
    becomes one is also stored; otherwise the only other outcome is a panic. *)
Theorem response_headers_exact src shape :
  (∀ h, projectObjectHeaders src shape = Ok h →
     (∀ k, k ∈ h.*1 → IsGatewayReservedKey k = false) ∧
     (∀ r, sh_Range shape = Some r →
        map_lookup h "Content-Length" = Some (FormatInt (br_End r -i br_Start r +i 1)) ∧
        (sh_HasUnsatisfiedRange shape = false → map_lookup h "Content-Range" =
           Some ("bytes " +:+ FormatInt (br_Start r) +:+ "-" +:+ FormatInt (br_End r) +:+ "/" +:+ FormatInt (rs_PlainSize src)))) ∧
     (sh_Range shape = None →
        map_lookup h "Content-Length" = (if 0 <=? rs_PlainSize src then Some (FormatInt (rs_PlainSize src)) else None) ∧
        map_lookup h "Content-Range" = (if sh_HasUnsatisfiedRange shape then Some ("bytes */" +:+ FormatInt (sh_UnsatisfiedRangeTotal shape)) else None))) ∧
  (covers (rs_Meta src) (rs_Decrypted src) → ∃ h, projectObjectHeaders src shape = Ok h) ∧
  (∀ e, projectObjectHeaders src shape = Err e → e = SlicePanic).
Proof.
  split_and!.
  - intros h Hh. unfold projectObjectHeaders in Hh. destruct (_ <? _); [done|]. injection Hh as <-. apply projected_exact.
  - intros Hc. eexists. by apply projected_room.
  - intros e. unfold projectObjectHeaders. destruct (_ <? _); by intros [= <-].
Qed.

Module ResponseWitness.
Definition meta : gomap :=
  [("x-amz-meta-encrypted", "true"); ("X-Amz-Meta-E", "true"); ("x-amz-meta-color", "blue"); ("Content-Length", "1056"); ("x-amz-storage-class", "STANDARD")].
Definition source : objectResponseSource := mkRespSource (mkClass FormatChunkedV2 true 65536 [] "") meta [("Content-Type", "text/plain")] 1000 "abc" false "GET" "" [].
Definition shape : responseShape := mkShape "GET" (Some (mkByteRange 10 19)) "" [("response-content-type", "text/html")] 0 false.
(** An object of the buffered fallback format: its user metadata is in the body. *)
Definition fallback (n : nat) : objectResponseSource :=
  mkRespSource (mkClass FormatBufferedFallback true 0 [] "") [("x-amz-meta-encrypted", "true"); ("x-amz-meta-encryption-fallback", "true")]
    ((λ i, ("x-amz-meta-k" +:+ FormatInt (Z.of_nat i), "v")) <$> seq 0 n) 1000 "abc" false "GET" "" [].
End ResponseWitness.

Example projected_headers :
  projectObjectHeaders ResponseWitness.source ResponseWitness.shape =
    Ok [("Content-Type", "text/html"); ("X-Amz-Meta-Color", "blue"); ("X-Amz-Storage-Class", "STANDARD"); ("Etag", "abc");
     ("Content-Length", "10"); ("Content-Range", "bytes 10-19/1000"); ("Accept-Ranges", "bytes")].
Proof. vm_compute. reflexivity. Qed.

(** Twenty small user entries restored from the body are too many. *)
Example projection_panics : projectObjectHeaders (ResponseWitness.fallback 20) (mkShape "GET" None "" [] 0 false) = Err SlicePanic.
Proof. vm_compute. reflexivity. Qed.

Lemma response_headers_exact_witness :
  ∃ h, projectObjectHeaders ResponseWitness.source ResponseWitness.shape = Ok h ∧ map_lookup h "Content-Range" = Some "bytes 10-19/1000".
Proof.
  destruct (response_headers_exact ResponseWitness.source ResponseWitness.shape) as (Hr & Hc & _).
  destruct Hc as [h Hh]; [intros k [->|?%elem_of_nil]%elem_of_cons Hp; [vm_compute in Hp|]; done|]. exists h. split; [done|].
  destruct (Hr h Hh) as (_ & Hx & _). destruct (Hx (mkByteRange 10 19) eq_refl) as [_ Hcr]. rewrite (Hcr eq_refl). vm_compute. reflexivity.
Defined.
