(* ===== verification/ObjectPlan.v ===== *)
(** * Planning and serving object reads ([internal/api/object_stream.go], [object_size.go], [object_view.go], [object_read_policy.go], [mpu_manifest_loader.go])

    A GET is planned before anything is sent: the stored metadata is expanded
    and classified, the bucket's policy is enforced, the plaintext size is
    established (for chunked-v2 objects from the authenticated terminal), and
    the range, the bytes to fetch and the way to decrypt them are chosen. The
    plan is then executed. Computations run in the engine's monad; the backend
    is a parameter. *)
From S2P Require Import Prelude GoStd GoIO GoText Http Primitives ObjectAAD ChunkLayout ChunkedStream RangeReader MPUManifest KeyManager Metadata ObjectFormat ObjectMeta Kdf PasswordKeyManager Policy.
From S2P Require Import Engine EngineRead EngineBodies RangeHeader ObjectResponse.
Local Open Scope Z_scope.
Local Open Scope go_scope.
#[local] Arguments ToLower : simpl never.
#[local] Arguments bytes_of_string : simpl never.
#[local] Arguments FormatInt : simpl never.

(** ** Data *)

Inductive EncryptionEngine := FullEngine (e : engine) | PassthroughEngine.

(** The S3 service behind the gateway, for the objects of one bucket: by key,
    version and, for GET, range header. *)
Record Backend := mkBackend {
  be_HeadObject : string → option string → result gomap;
  be_GetObject : string → option string → option string → result (Source * gomap) }.

(** What the read path uses of a [Handler]. [rh_engine] is
    [getEncryptionEngine]; [rh_notFound] is [isS3NotFoundError], which looks
    into errors of the SDK. *)
Record ReadHandler := mkReadHandler {
  rh_policies : option PolicyManager; rh_engine : string → result EncryptionEngine; rh_notFound : error → bool }.

Record objectView := mkView {
  vw_Bucket : string; vw_Key : string; vw_VersionID : option string; vw_Raw : gomap; vw_Expanded : gomap; vw_Class : ObjectClass }.

Record plaintextSize := mkSize { ps_Size : Z; ps_Exact : bool; ps_Source : string }.
Definition unknownSize : plaintextSize := mkSize (-1) false "".

Record loadedMPUManifest := mkLoaded { lm_Manifest : MultipartManifest; lm_BindingID : list byte; lm_IsV2 : bool }.

Inductive objectReadMode :=
| objectReadFull | objectReadMPUFull | objectReadPassthroughRange | objectReadBufferedRange | objectReadOptimizedRange | objectReadMPURange.
#[export] Instance objectReadMode_eq_dec : EqDecision objectReadMode.
Proof. solve_decision. Defined.

Record objectReadPlan := mkPlan {
  pl_Mode : objectReadMode; pl_Class : ObjectClass; pl_View : objectView; pl_Source : objectResponseSource;
  pl_Size : plaintextSize; pl_BackendRange : option string;
  pl_RangeStart : Z; pl_RangeEnd : Z; pl_RangeTotal : Z;
  pl_ResponseStatus : Z; pl_ResponseRange : option byteRange; pl_RangeHeader : option string;
  pl_MPUManifest : option loadedMPUManifest; pl_MPURange : option MPURangeResult; pl_MPURangeError : option error;
  pl_PreflightBody : bool }.

Definition statusOK : Z := 200.
Definition statusPartialContent : Z := 206.
Definition statusRangeNotSatisfiable : Z := 416.

Definition ErrMissingMPUManifest : error := Sentinel "mpu: missing manifest".
Definition errBackend (e : error) : error := Wrapf "backend: %w" e.
(** A policy refusal keeps its identity through the backend wrapper. *)
Definition backendObjectError (e : error) : error := if error_is e errPlaintextReadForbidden then e else errBackend e.

Section handler.
Context `{Ciphers, HKDF, SHA256, MD5, PasswordKDF, BuildTags, ManifestJSON, MapJSON, KeyManager K, BucketGlob, MPUManifestJSON}.
Context (h : ReadHandler) (be : Backend) (bucket : string).

(** ** Views *)

Definition expandMetadataForAPI (metadata : gomap) : result gomap :=
  engine ← rh_engine h bucket;
  match engine with
  | FullEngine e => APIExpandedMetadata e metadata
  | PassthroughEngine => Ok (ExpandMetadataForAPI metadata)
  end.

Definition loadObjectView (key : string) (versionID : option string) (raw : gomap) : result objectView :=
  expanded ← expandMetadataForAPI raw;
  class ← ClassifyObject key expanded;
  Ok (mkView bucket key versionID raw expanded class).

Definition loadReadableObjectView (key : string) (versionID : option string) (raw : gomap) : result objectView :=
  view ← loadObjectView key versionID raw;
  match enforceObjectReadPolicy (rh_policies h) (bytes_of_string bucket) (oc_Encrypted (vw_Class view)) with
  | Some err => Err err
  | None => Ok view
  end.

(** [readableParentClient.GetObject]: the parent's metadata is checked again. *)
Definition readableGetObject (parent key : string) (versionID byteRange : option string) : result (Source * gomap) :=
  r ← be_GetObject be key versionID byteRange;
  if decide (key ≠ parent) then Ok r
  else _ ← loadReadableObjectView key versionID r.2; Ok r.

(** ** Reading streams to the end *)

Definition errFuel : error := Sentinel "out of fuel".
Definition streamOf (fuel : nat) (o : DecOut) : result (list byte * error) :=
  match drain fuel (λ _, 512%nat) o with Some r => Ok r | None => Err errFuel end.
(** [io.ReadAll], and [io.Copy] to [io.Discard] for the error only. *)
Definition ReadAllFrom (fuel : nat) (o : DecOut) : result (list byte) :=
  '(bs, err) ← streamOf fuel o; if decide (err = EOF) then Ok bs else Err err.

Definition engineDecrypt (ctx : Ctx) (engine : EncryptionEngine) (key : string) (r : Source) (metadata : gomap) : M K (DecOut * gomap) :=
  match engine with
  | FullEngine e => Decrypt ctx e (mkObject bucket key) r metadata
  | PassthroughEngine => '(s, m) ← lift (passthrough_Decrypt r metadata); mret (DecAsIs s, m)
  end.

(** ** Manifests of multipart objects *)

Definition loadMPUManifest (fuel : nat) (ctx : Ctx) (parent parentKey : string) (class : ObjectClass) : M K loadedMPUManifest :=
  if decide (oc_Format class ≠ FormatMPUV1 ∧ oc_Format class ≠ FormatMPUV2) then throw (Errorf "not an MPU object") else
  let manifestKey := oc_ManifestKey class in
  '(r, meta) ← lift (match readableGetObject parent manifestKey None None with
    | Ok r => Ok r
    | Err e => Err (if rh_notFound h e then Wrapf "%w: %s" ErrMissingMPUManifest else Wrapf "fetch manifest: %w" (backendObjectError e))
    end);
  raw ← lift (match ReadAll r with Ok raw => Ok raw | Err e => Err (Wrapf "read manifest: %w" (backendObjectError e)) end);
  engine ← lift (wrapErr "get engine: %w" (rh_engine h bucket));
  let isV2 := bool_decide (oc_Format class = FormatMPUV2) in
  let bindingID := if isV2 then oc_BindingID class else zeroBinding in
  raw ← (if isV2 then
           if decide (mget meta MetaMPUManifestVersion ≠ "2") then throw (Errorf "invalid companion marker") else
           wrapM "decrypt manifest: %w"
             match engine with
             | FullEngine e => DecryptMPUManifest e (mkObject bucket manifestKey) bindingID raw meta
             | PassthroughEngine => throw (Errorf "mpu manifest crypto unavailable")
             end
         else
           '(plain, _) ← wrapM "decrypt manifest: %w" (engineDecrypt ctx engine manifestKey (src_of raw) meta);
           lift (wrapErr "read manifest plaintext: %w" (ReadAllFrom fuel plain)));
  manifest ← lift (wrapErr "parse manifest: %w" (UnmarshalMultipartManifest raw));
  _ ← lift (if isV2 then ValidateFor manifest (mkObject bucket parentKey) (mkObject bucket manifestKey) bindingID else Ok tt);
  mret (mkLoaded manifest bindingID isV2).

(** ** The terminal of chunked objects *)

Definition formatVersionOrLegacy (expanded : gomap) : result Z :=
  match ChunkedFormatVersion expanded with
  | Ok v => Ok v
  | Err e => if decide (mget expanded MetaManifest = "") then Ok ChunkedFormatV1 else Err e
  end.

Definition preflightChunkedTerminal (ctx : Ctx) (key : string) (versionID : option string) (metadata : gomap) : M K ChunkedObjectInfo :=
  expanded ← lift (expandMetadataForAPI metadata);
  version ← lift (formatVersionOrLegacy expanded);
  engine ← lift (rh_engine h bucket);
  match engine with
  | PassthroughEngine => mret (mkInfo 0 0 0 false)
  | FullEngine e =>
      let length := mget expanded "Content-Length" in
      if version =? ChunkedFormatV1 then
        if decide (length = "") then mret (mkInfo version 0 0 false) else
        match ParseInt length with
        | None => throw (Wrapf "%w: invalid ciphertext size" ErrChunkedObjectIncomplete)
        | Some ciphertextSize =>
            if ciphertextSize <? 0 then throw (Wrapf "%w: invalid ciphertext size" ErrChunkedObjectIncomplete) else
            '(plain, count) ← lift (PlaintextSizeForCiphertext expanded ciphertextSize);
            if plain <? 0 then throw (Wrapf "%w: negative plaintext size" ErrChunkedObjectIncomplete)
            else mret (mkInfo version count (wrap_u64 plain) false)
        end
      else
        match ParseInt length with
        | None => throw (Wrapf "%w: invalid ciphertext size" ErrChunkedObjectIncomplete)
        | Some ciphertextSize =>
            if ciphertextSize <? 0 then throw (Wrapf "%w: invalid ciphertext size" ErrChunkedObjectIncomplete) else
            if ciphertextSize <? ChunkedTerminalSize then throw (Wrapf "%w: short ciphertext" ErrChunkedObjectIncomplete) else
            let first := ciphertextSize -i ChunkedTerminalSize in
            '(trailer, _) ← lift (match be_GetObject be key versionID (Some (formatRange first (ciphertextSize -i 1))) with
              | Ok r => Ok r | Err err => Err (backendObjectError err) end);
            AuthenticateChunkedTrailer ctx e (mkObject bucket key) trailer metadata ciphertextSize
        end
  end.

Definition preflightChunkedCompleteness (fuel : nat) (ctx : Ctx) (parent key : string) (versionID : option string) (metadata : gomap)
    : M K ChunkedObjectInfo :=
  expanded ← lift (expandMetadataForAPI metadata);
  if decide (mget expanded MetaFallbackVersion = "2" ∨ mget expanded MetaFallbackMode = "true")
  then mret (mkInfo ChunkedFormatV2 0 0 false) else
  match map_lookup expanded MetaManifest with
  | None =>
      if decide (mget expanded MetaObjectFormatVersion = "chunked-v2") then
        '(reader, raw) ← lift (match readableGetObject parent key versionID None with
          | Ok r => Ok r | Err err => Err (backendObjectError err) end);
        engine ← lift (rh_engine h bucket);
        '(decrypted, _) ← engineDecrypt ctx engine key reader raw;
        _ ← lift (ReadAllFrom fuel decrypted);
        mret (mkInfo ChunkedFormatV2 0 0 false)
      else mret (mkInfo ChunkedFormatV1 0 0 false)
  | Some manifest =>
      if decide (manifest = "") then throw (Errorf "chunked manifest is present but empty") else
      version ← lift (wrapErr "invalid chunked manifest: %w" (ChunkedFormatVersion expanded));
      if version =? ChunkedFormatV1 then mret (mkInfo version 0 0 false)
      else preflightChunkedTerminal ctx key versionID metadata
  end.

(** ** The plaintext size *)

Definition metadataSize (meta : gomap) (source : string) : plaintextSize :=
  match ParseInt (mget meta "Content-Length") with
  | Some n => if n <? 0 then unknownSize else mkSize n true source
  | None => unknownSize
  end.

Definition originalSize (meta : gomap) (msg : string) : result plaintextSize :=
  let value := mget meta MetaOriginalSize in
  if decide (value = "") then Ok unknownSize else
  match ParseInt value with
  | Some n => if n <? 0 then Err (Errorf msg) else Ok (mkSize n true "original-size")
  | None => Err (Errorf msg)
  end.

Definition legacyAEADSize (meta : gomap) : plaintextSize :=
  match ParseInt (mget meta "Content-Length"), AEADOverheadForAlgorithm (mget meta MetaAlgorithm) with
  | Some n, Ok overhead => if overhead <=? n then mkSize (n -i overhead) true "legacy-aead" else unknownSize
  | _, _ => unknownSize
  end.

Definition resolvePlaintextSize (fuel : nat) (ctx : Ctx) (parent : string) (view : objectView) : M K plaintextSize :=
  let meta := vw_Expanded view in
  let format := oc_Format (vw_Class view) in
  if negb (oc_Encrypted (vw_Class view)) then mret (metadataSize meta "backend") else
  if decide (format = FormatMPUV1 ∨ format = FormatMPUV2) then
    loaded ← loadMPUManifest fuel ctx parent (vw_Key view) (vw_Class view);
    mret (mkSize (mm_TotalPlainSize (lm_Manifest loaded)) true "mpu-manifest")
  else if decide (format = FormatBufferedFallback) then lift (originalSize meta "invalid fallback original plaintext size")
  else if decide (format = FormatChunkedV1 ∨ format = FormatChunkedV2) then
    authenticated ← (if decide (format = FormatChunkedV2) then
                       info ← preflightChunkedCompleteness fuel ctx parent (vw_Key view) (vw_VersionID view) (vw_Raw view);
                       mret (if ci_PlaintextSize info <=? MaxInt64
                             then Some (mkSize (wrap_i64 (ci_PlaintextSize info)) true "chunked-terminal") else None)
                     else mret None);
    match authenticated with
    | Some size => mret size
    | None =>
        let value := mget (vw_Raw view) "Content-Length" in
        if decide (value ≠ "") then
          match ParseInt value with
          | Some n =>
              if n <? 0 then throw (Errorf "invalid chunked ciphertext size") else
              '(plain, _) ← lift (PlaintextSizeForCiphertext meta n);
              mret (mkSize plain true "chunked-formula")
          | None => throw (Errorf "invalid chunked ciphertext size")
          end
        else if decide (format = FormatChunkedV1) then mret unknownSize
        else lift (originalSize meta "invalid original plaintext size")
    end
  else
    size ← lift (originalSize meta "invalid original plaintext size");
    if decide (mget meta MetaOriginalSize ≠ "") then mret size else mret (legacyAEADSize meta).

(** ** Plans *)

Definition with_mode (m : objectReadMode) (p : objectReadPlan) : objectReadPlan :=
  let '(mkPlan _ c v s z b rs re rt st rr rh mm mr me pf) := p in mkPlan m c v s z b rs re rt st rr rh mm mr me pf.
Definition with_source (s : objectResponseSource) (p : objectReadPlan) : objectReadPlan :=
  let '(mkPlan m c v _ z b rs re rt st rr rh mm mr me pf) := p in mkPlan m c v s z b rs re rt st rr rh mm mr me pf.
(** The size, also as the length of the response. *)
Definition with_size (z : plaintextSize) (p : objectReadPlan) : objectReadPlan :=
  let '(mkPlan m c v s _ b rs re rt st rr rh mm mr me pf) := p in mkPlan m c v s z b rs re rt st rr rh mm mr me pf.
Definition with_backend (b : option string) (p : objectReadPlan) : objectReadPlan :=
  let '(mkPlan m c v s z _ rs re rt st rr rh mm mr me pf) := p in mkPlan m c v s z b rs re rt st rr rh mm mr me pf.
Definition with_range (rs re rt : Z) (p : objectReadPlan) : objectReadPlan :=
  let '(mkPlan m c v s z b _ _ _ st rr rh mm mr me pf) := p in mkPlan m c v s z b rs re rt st rr rh mm mr me pf.
Definition with_response (st : Z) (rr : option byteRange) (p : objectReadPlan) : objectReadPlan :=
  let '(mkPlan m c v s z b rs re rt _ _ rh mm mr me pf) := p in mkPlan m c v s z b rs re rt st rr rh mm mr me pf.
Definition with_mpu (mm : option loadedMPUManifest) (mr : option MPURangeResult) (me : option error) (p : objectReadPlan) : objectReadPlan :=
  let '(mkPlan m c v s z b rs re rt st rr rh _ _ _ pf) := p in mkPlan m c v s z b rs re rt st rr rh mm mr me pf.
Definition with_preflight (pf : bool) (p : objectReadPlan) : objectReadPlan :=
  let '(mkPlan m c v s z b rs re rt st rr rh mm mr me _) := p in mkPlan m c v s z b rs re rt st rr rh mm mr me pf.
Definition src_with_size (n : Z) (s : objectResponseSource) : objectResponseSource :=
  let '(mkRespSource c m d _ t u me v o) := s in mkRespSource c m d n t u me v o.
Definition src_with_decrypted (d : gomap) (s : objectResponseSource) : objectResponseSource :=
  let '(mkRespSource c m _ n t u me v o) := s in mkRespSource c m d n t u me v o.
Definition src_with_etag (t : string) (s : objectResponseSource) : objectResponseSource :=
  let '(mkRespSource c m d n _ u me v o) := s in mkRespSource c m d n t u me v o.
Definition src_with_customer (u : bool) (s : objectResponseSource) : objectResponseSource :=
  let '(mkRespSource c m d n t _ me v o) := s in mkRespSource c m d n t u me v o.
Definition src_with_request (me v : string) (o : gomap) (s : objectResponseSource) : objectResponseSource :=
  let '(mkRespSource c m d n t u _ _ _) := s in mkRespSource c m d n t u me v o.

Definition planSource (class : ObjectClass) (meta : gomap) (etag : string) : objectResponseSource :=
  mkRespSource class meta [] 0 etag false "" "" [].
Definition newPlan (view : objectView) (rangeHeader : option string) : objectReadPlan :=
  mkPlan objectReadFull (vw_Class view) view (planSource (vw_Class view) (vw_Expanded view) (mget (vw_Expanded view) "ETag")) (mkSize 0 false "") None 0 0 (-1)
    statusOK None rangeHeader None None None (bool_decide (rangeHeader = None) && oc_Encrypted (vw_Class view)).
Definition bufferedPlan (p : objectReadPlan) : objectReadPlan := with_mode objectReadBufferedRange (with_backend None p).

(** The raw metadata under the canonical name or, if there is nothing, the compact one. *)
Definition rawMetadataValue (metadata : gomap) (canonical : string) : string :=
  if decide (mget metadata canonical ≠ "") then mget metadata canonical else
  match LookupMetaKey canonical with
  | Some spec => if decide (Compact spec = "") then "" else mget metadata (Compact spec)
  | None => ""
  end.
Definition missingOriginalSize (raw : gomap) : bool :=
  bool_decide (rawMetadataValue raw MetaOriginalSize = "") || bool_decide (rawMetadataValue raw MetaChunkCount = "").

(** A multipart object read as a whole is planned from a fresh HEAD. *)
Definition planMPUHead (key : string) (versionID : option string) (raw : gomap) (view : objectView) : result (objectView * objectResponseSource) :=
  headMetadata ← (match be_HeadObject be key versionID with Ok m => Ok m | Err e => Err (errBackend e) end);
  headView ← loadReadableObjectView key versionID headMetadata;
  if decide (oc_Format (vw_Class headView) ≠ oc_Format (vw_Class view) ∨
             (mget raw "ETag" ≠ "" ∧ mget headMetadata "ETag" ≠ "" ∧ mget raw "ETag" ≠ mget headMetadata "ETag"))
  then Err (Errorf "MPU HEAD metadata does not match object metadata")
  else Ok (headView, planSource (vw_Class headView) (vw_Expanded headView) (mget headMetadata "ETag")).

Definition planMPU (fuel : nat) (ctx : Ctx) (key : string) (versionID : option string) (raw : gomap) (rangeHeader : option string)
    (view : objectView) : M K objectReadPlan :=
  let plan := newPlan view rangeHeader in
  '(view, source) ← lift (match rangeHeader with
    | None => planMPUHead key versionID raw view
    | Some _ => Ok (view, pl_Source plan)
    end);
  loaded ← loadMPUManifest fuel ctx key key (vw_Class view);
  let total := mm_TotalPlainSize (lm_Manifest loaded) in
  let '(mkPlan _ _ _ _ _ b rs re rt st rr rh _ mr me pf) := plan in
  let plan := mkPlan objectReadMPUFull (vw_Class view) view (src_with_size total source) (mkSize total true "mpu-manifest") b rs re rt st rr rh (Some loaded) mr me pf in
  match rangeHeader with
  | None => mret plan
  | Some rng =>
      let plan := with_mode objectReadMPURange plan in
      let plan := with_source (src_with_decrypted (plaintextMetadataView (vw_Expanded view) (-1) "") (pl_Source plan)) plan in
      match parseObjectRange rng total with
      | Err rangeErr => mret (with_response statusRangeNotSatisfiable None (with_mpu (Some loaded) None (Some rangeErr) plan))
      | Ok (start, end_) =>
          plannedRange ← lift (EncRangeForPlaintextRange (lm_Manifest loaded) start end_);
          mret (with_backend (Some (formatRange (EncStart plannedRange) (EncEnd plannedRange)))
            (with_mpu (Some loaded) (Some plannedRange) None
              (with_response statusPartialContent (Some (mkByteRange start end_)) (with_range start end_ total plan))))
      end
  end.

(** The encrypted range of a plaintext range, cut at the end of the object. *)
Definition optimizedRange (expanded raw : gomap) (start end_ : Z) : result (Z * Z) :=
  '(encryptedStart, encryptedEnd) ← CalculateEncryptedRangeForPlaintextRange expanded start end_;
  encryptedEnd ← clampEncryptedRangeEnd encryptedStart encryptedEnd (mget raw "Content-Length");
  Ok (encryptedStart, encryptedEnd).

(** Ranges of objects other than multipart ones, once the size is known. *)
Definition planRange (raw : gomap) (rng : string) (view : objectView) (size : plaintextSize) (plan : objectReadPlan) : objectReadPlan :=
  let plan := with_mode objectReadBufferedRange plan in
  let size := if negb (ps_Exact size) && (0 <=? ps_Size size) then mkSize (ps_Size size) true (ps_Source size) else size in
  let plan := with_backend (Some rng) (with_size size plan) in
  let plan := if ps_Exact size then
                match parseObjectRange rng (ps_Size size) with
                | Ok (start, end_) => with_response statusPartialContent (Some (mkByteRange start end_)) (with_range start end_ (ps_Size size) plan)
                | Err _ => plan
                end
              else plan in
  if negb (oc_Encrypted (vw_Class view)) then
    if ps_Exact size && (0 <? ps_Size size) && (0 <=? pl_RangeTotal plan)
    then with_response statusPartialContent (Some (mkByteRange (pl_RangeStart plan) (pl_RangeEnd plan))) (with_mode objectReadPassthroughRange plan)
    else plan
  else
  let plan := if (pl_RangeTotal plan <? 0) && (0 <=? ps_Size size) then
                match parseObjectRange rng (ps_Size size) with
                | Ok (start, end_) => with_range start end_ (ps_Size size) plan
                | Err _ => plan
                end
              else plan in
  if decide (oc_Format (vw_Class view) ≠ FormatChunkedV1 ∧ oc_Format (vw_Class view) ≠ FormatChunkedV2) then bufferedPlan plan else
  if missingOriginalSize raw || bool_decide (mget (vw_Expanded view) MetaManifest = "")
     || bool_decide (TrimSpaceB (bytes_of_string rng) = txt "bytes=0-") || negb (ps_Exact size) then bufferedPlan plan else
  if (pl_RangeTotal plan <? 0) || ((pl_RangeStart plan =? 0) && (pl_RangeEnd plan =? ps_Size size -i 1)) then bufferedPlan plan else
  match optimizedRange (vw_Expanded view) raw (pl_RangeStart plan) (pl_RangeEnd plan) with
  | Err _ => plan
  | Ok (encryptedStart, encryptedEnd) =>
      with_preflight true (with_response statusPartialContent (Some (mkByteRange (pl_RangeStart plan) (pl_RangeEnd plan)))
        (with_mode objectReadOptimizedRange (with_backend (Some (formatRange encryptedStart encryptedEnd)) plan)))
  end.

Definition planObjectRead (fuel : nat) (ctx : Ctx) (key : string) (versionID : option string) (raw : gomap) (rangeHeader : option string)
    : M K objectReadPlan :=
  if decide (bucket = "" ∨ key = "") then throw (Errorf "object read plan requires bucket and key") else
  view ← lift (loadReadableObjectView key versionID raw);
  let plan := newPlan view rangeHeader in
  if decide (oc_Format (vw_Class view) = FormatMPUV1 ∨ oc_Format (vw_Class view) = FormatMPUV2)
  then planMPU fuel ctx key versionID raw rangeHeader view else
  if bool_decide (rangeHeader ≠ None) && bool_decide (oc_Format (vw_Class view) = FormatChunkedV1) && missingOriginalSize raw
  then mret (bufferedPlan (with_size unknownSize plan)) else
  size ← resolvePlaintextSize fuel ctx key view;
  let plan := with_source (src_with_size (ps_Size size) (pl_Source plan)) (with_size size plan) in
  match rangeHeader with
  | None => mret plan
  | Some rng => mret (planRange raw rng view size plan)
  end.

(** [optimizedDecryptAvailable] says whether the engine has the operation. *)
Definition planGetObjectRange (fuel : nat) (ctx : Ctx) (key : string) (versionID : option string) (rng : string) (optimizedDecryptAvailable : bool)
    : M K objectReadPlan :=
  metadata ← lift (match be_HeadObject be key versionID with Ok m => Ok m | Err e => Err (errBackend e) end);
  plan ← planObjectRead fuel ctx key versionID metadata (Some rng);
  let plan := with_source (src_with_request "" (default "" versionID) [] (src_with_customer (isSSECustomerBackendObject metadata) (pl_Source plan))) plan in
  mret (if bool_decide (pl_Mode plan = objectReadOptimizedRange) && negb optimizedDecryptAvailable then bufferedPlan plan else plan).
End handler.
