(* ===== verification/ObjectServe.v ===== *)
(** * Serving planned reads ([internal/api/object_stream.go])

    The execution of a read plan: the bytes fetched from the backend, the
    decryption the plan asks for, the cut of a buffered range, the first read
    that precedes the success headers, and the headers. A response is the
    status, the headers and the bytes sent, with a flag that tells a complete
    body from one that broke off after the headers were sent. Metrics, audit
    records and the capture for the object cache have no part in it. *)
From S2P Require Import Prelude GoStd GoIO GoText Http Primitives ObjectAAD ChunkLayout ChunkedStream RangeReader MPUManifest MPUStream MPUCorrect KeyManager Metadata ObjectFormat ObjectMeta Kdf PasswordKeyManager Policy.
From S2P Require Import MPUHandlers MPURange.
From S2P Require Import Engine EngineRead EngineBodies RangeHeader ObjectResponse ObjectPlan.
Local Open Scope Z_scope.
Local Open Scope go_scope.
#[local] Arguments ToLower : simpl never.
#[local] Arguments bytes_of_string : simpl never.
#[local] Arguments FormatInt : simpl never.

Record ObjectResponse := mkResponse { or_Status : Z; or_Headers : gomap; or_Body : list byte; or_Complete : bool }.

(** What is read of the request: method, [versionId], the response overrides
    and whether it carries a customer key. *)
Record GetRequest := mkGetRequest { gr_Method : string; gr_VersionID : string; gr_Overrides : gomap; gr_SSECustomer : bool }.

Definition errInvalidRange : error := Sentinel "InvalidRange".
Definition errIntegrity (e : error) : error := Wrapf "integrity: %w" e.

(** ** Plans at execution time *)

Definition resolveReadRange (plan : objectReadPlan) (rangeHeader : string) (actualPlainSize : Z) : objectReadPlan :=
  if 0 <=? pl_RangeTotal plan then plan else
  match parseObjectRange rangeHeader actualPlainSize with
  | Ok (start, end_) => with_range start end_ actualPlainSize plan
  | Err _ => plan
  end.
Definition withDecryptedRange (actualPlainSize : Z) (plan : objectReadPlan) : objectReadPlan :=
  match pl_RangeHeader plan with
  | None => plan
  | Some rng =>
      let plan := resolveReadRange plan rng actualPlainSize in
      with_response statusPartialContent (Some (mkByteRange (pl_RangeStart plan) (pl_RangeEnd plan))) plan
  end.

Definition src_with_meta (m : gomap) (s : objectResponseSource) : objectResponseSource :=
  let '(mkRespSource c _ d n t u me v o) := s in mkRespSource c m d n t u me v o.
Definition withExecutionResponse (r : GetRequest) (decrypted : gomap) (plainSize : Z) (backendETag : string) (plan : objectReadPlan) : objectReadPlan :=
  let s := src_with_meta (vw_Expanded (pl_View plan)) (pl_Source plan) in
  let s := src_with_customer (rs_SSECustomer s || isSSECustomerBackendObject (rs_Meta s) || gr_SSECustomer r) s in
  let s := src_with_etag backendETag (src_with_size plainSize (src_with_decrypted decrypted s)) in
  let s := if decide (rs_Method s = "") then src_with_request (gr_Method r) (gr_VersionID r) (gr_Overrides r) s else s in
  with_source s plan.

(** ** The body *)

Definition DefaultPreflight : Z := DefaultChunkSize.

(** [io.ReadFull] of [n] bytes from a body that yields [bs] and then [err]. *)
Definition preflightError (n : Z) (bs : list byte) (err : error) : option error :=
  if n <=? len bs then None
  else Some (if decide (err = EOF) then if len bs =? 0 then EOF else ErrUnexpectedEOF else err).

(** The read before the headers: the error it ends the request with. *)
Definition preflight (limit : Z) (bs : list byte) (err : error) : option error :=
  let size := if 0 <? limit then limit else DefaultPreflight in
  let e := preflightError size bs err in
  if (0 <? limit) && (bool_decide (e = Some ErrUnexpectedEOF) || (Z.min (len bs) size <? limit))
  then Some (errIntegrity (default ErrUnexpectedEOF e))
  else match e with
       | None => None
       | Some e => if decide (e = EOF ∨ e = ErrUnexpectedEOF) then None else Some (errIntegrity e)
       end.

(** Of a plan whose body yields [bs] and then [err]. *)
Definition sendBody (r : GetRequest) (plan : objectReadPlan) (limit : Z) (bs : list byte) (err : error) : result ObjectResponse :=
  let source := pl_Source plan in
  let method := if decide (rs_Method source = "") then gr_Method r else rs_Method source in
  let unsatisfied := pl_ResponseStatus plan =? statusRangeNotSatisfiable in
  let shape := mkShape method (if unsatisfied then None else pl_ResponseRange plan) (rs_VersionID source) (rs_Overrides source)
                 (if unsatisfied then ps_Size (pl_Size plan) else 0) unsatisfied in
  headers ← projectObjectHeaders source shape;
  match (if pl_PreflightBody plan then preflight limit bs err else None) with
  | Some e => Err e
  | None => Ok (mkResponse (pl_ResponseStatus plan) headers bs (bool_decide (err = EOF)))
  end.

Definition serveObjectBody (r : GetRequest) (plan : objectReadPlan) (limit : Z) (bs : list byte) (err : error) : result ObjectResponse :=
  match pl_Mode plan, pl_RangeHeader plan with
  | objectReadBufferedRange, Some rng =>
      if negb (bool_decide (err = EOF)) then Err err else
      if oc_Encrypted (pl_Class plan) then
        match applyRangeRequest bs rng with
        | Err _ => Err errInvalidRange
        | Ok output =>
            let plan := withDecryptedRange (len bs) plan in
            let source := pl_Source plan in
            sendBody r (withExecutionResponse r (rs_Decrypted source) (len bs) (rs_BackendETag source) plan) limit output EOF
        end
      else
        let source := pl_Source plan in
        sendBody r (withExecutionResponse r (rs_Decrypted source) (len bs) (rs_BackendETag source) plan) limit bs EOF
  | _, _ => sendBody r plan limit bs err
  end.

Section handler.
Context `{Ciphers, HKDF, SHA256, MD5, PasswordKDF, BuildTags, ManifestJSON, MapJSON, KeyManager K, BucketGlob, MPUManifestJSON, EnvelopeJSON}.
Context (h : ReadHandler) (be : Backend) (bucket : string).

(** ** Multipart objects *)

(** The handler's key manager is the engine's. *)
Definition unwrapMPUDEKFromManifest (manifest : MultipartManifest) (key : string) : M K (list byte) :=
  km ← getKeyManager;
  match km with
  | None => throw (Errorf "cannot decrypt MPU object: no KeyManager configured")
  | Some _ =>
      env ← lift (wrapErr "unmarshal key envelope: %w" (env_unmarshal (mm_WrappedDEK manifest)));
      unwrapDataKey env [("bucket", bucket); ("key", key)]
  end.

Definition hexToIVPrefix (s : string) : result (list byte) :=
  match hex_decode (bytes_of_string s) with
  | None => Err (Errorf "decode hex: %w")
  | Some b => if negb (len b =? 12) then Err (Errorf "expected 12 bytes, got %d") else Ok b
  end.

Definition DecodeBase64Loose (s : string) : result (list byte) :=
  match DecodeString std_alphabet true s with
  | Some b => Ok b
  | None => match DecodeString url_alphabet true s with Some b => Ok b | None => Err (Errorf "invalid base64 string: %w") end
  end.
Definition decodeBase64ToFixed32 (s : string) : result (list byte) :=
  b ← DecodeBase64Loose s; if negb (len b =? 32) then Err (Errorf "expected 32 bytes, got %d") else Ok b.

Definition readToEnd {R} `{StreamReader R} (fuel : nat) (r : R) : result (list byte * error) :=
  match drain fuel (λ _, 512%nat) r with Some body => Ok body | None => Err errFuel end.

(** The body of a whole multipart object, read to its end. *)
Definition decryptMPUObjectWithManifest (fuel : nat) (key : string) (reader : Source) (loaded : option loadedMPUManifest) : M K (list byte * error) :=
  match loaded with
  | None => throw ErrMissingMPUManifest
  | Some loaded =>
      let manifest := lm_Manifest loaded in
      let object := mkObject bucket key in
      dek ← wrapM "decryptMPUObject: unwrap DEK: %w" (unwrapMPUDEKFromManifest manifest key);
      ivPrefix ← lift (wrapErr "decryptMPUObject: decode iv prefix: %w" (hexToIVPrefix (mm_IVPrefix manifest)));
      uploadIDHash ← lift (wrapErr "decryptMPUObject: decode upload id hash: %w" (decodeBase64ToFixed32 (mm_UploadIDHash manifest)));
      inner ← lift (wrapErr "decryptMPUObject: create decrypt reader: %w"
        (if lm_IsV2 loaded
         then NewMPUDecryptReader tag_fips object (lm_BindingID loaded) reader manifest dek uploadIDHash ivPrefix (mm_Algorithm manifest)
         else NewMPUDecryptReaderV1 tag_fips object reader manifest dek uploadIDHash ivPrefix (mm_Algorithm manifest)));
      match inner with
      | None => mret ([], EOF)
      | Some inner => lift (readToEnd fuel inner)
      end
  end.

(** A range of a multipart object: the answer to one that cannot be satisfied
    has no body. *)
Definition serveMPURangedGetPlanned (fuel : nat) (r : GetRequest) (key : string) (versionID : option string) (plan : objectReadPlan) : M K ObjectResponse :=
  let source := pl_Source plan in
  match pl_Mode plan, pl_MPUManifest plan, pl_MPURange plan, pl_MPURangeError plan with
  | objectReadMPURange, Some loaded, plannedRange, rangeError =>
      if bool_decide (plannedRange = None) && bool_decide (rangeError = None) then throw (Errorf "object is not an MPU") else
      if pl_ResponseStatus plan =? statusRangeNotSatisfiable then
        lift (serveObjectBody r (withExecutionResponse r (rs_Decrypted source) (ps_Size (pl_Size plan)) (rs_BackendETag source) plan) 0 [] EOF)
      else
      match plannedRange with
      | None => throw (Errorf "invalid memory address or nil pointer dereference")
      | Some rangeResult =>
          let manifest := lm_Manifest loaded in
          '(objReader, fetchedMetadata) ← lift (be_GetObject be key versionID (pl_BackendRange plan));
          _ ← lift (loadReadableObjectView h bucket key versionID fetchedMetadata);
          dek ← unwrapMPUDEKFromManifest manifest key;
          ivPrefix ← lift (hexToIVPrefix (mm_IVPrefix manifest));
          uploadIDHash ← lift (decodeBase64ToFixed32 (mm_UploadIDHash manifest));
          '(body, preflightLimit) ← lift (newMPURangeReader manifest rangeResult (pl_RangeStart plan) (pl_RangeEnd plan) objReader
            (mpuChunkDecryptor tag_fips (lm_IsV2 loaded) (lm_BindingID loaded) (mm_Algorithm manifest) (mkObject bucket key) dek uploadIDHash ivPrefix));
          '(bs, err) ← lift (readToEnd fuel body);
          let plan := withExecutionResponse r (rs_Decrypted source) (ps_Size (pl_Size plan)) (rs_BackendETag source) plan in
          lift (serveObjectBody r (with_preflight true plan) preflightLimit bs err)
      end
  | _, _, _, _ => throw (Errorf "object is not an MPU")
  end.

(** ** The planned read *)

(** The range reader read to its end. *)
Fixpoint rangeToEnd (fuel : nat) (r : rangeReader) : option (list byte * error) :=
  match fuel with
  | O => None
  | S fuel =>
      '(bs, e, r) ← range_Read r 512;
      match e with
      | Some e => Some (bs, e)
      | None => '(rest, e) ← rangeToEnd fuel r; Some (bs ++ rest, e)
      end
  end.

Definition decryptPlannedObject (fuel : nat) (ctx : Ctx) (engine : EncryptionEngine) (plan : objectReadPlan) (key : string)
    (reader : Source) (metadata : gomap) : M K (list byte * error * gomap) :=
  if negb (oc_Encrypted (pl_Class plan)) then mret (src_data reader, src_end reader, metadata) else
  match pl_Mode plan, engine with
  | objectReadOptimizedRange, FullEngine e =>
      '(rd, m) ← DecryptRangeOptimized e (mkObject bucket key) reader metadata (pl_RangeStart plan) (pl_RangeEnd plan);
      body ← lift (match rangeToEnd fuel rd with Some body => Ok body | None => Err errFuel end); mret (body, m)
  | _, _ =>
      '(rd, m) ← engineDecrypt bucket ctx engine key reader metadata;
      body ← lift (streamOf fuel rd); mret (body, m)
  end.

Definition completeGetObjectRead (fuel : nat) (ctx : Ctx) (key : string) (versionID : option string) (r : GetRequest) (metadata : gomap)
    : M K objectReadPlan :=
  completed ← planObjectRead h be bucket fuel ctx key versionID metadata None;
  mret (with_preflight true
    (with_source (src_with_request (gr_Method r) (gr_VersionID r) (gr_Overrides r) (src_with_customer (gr_SSECustomer r) (pl_Source completed))) completed)).

(** The answer once the plan and the stored object are at hand. *)
Definition serveFetched (fuel : nat) (ctx : Ctx) (engine : EncryptionEngine) (r : GetRequest) (plan : objectReadPlan) (key : string)
    (reader : Source) (metadata : gomap) : M K ObjectResponse :=
  let etag := mget metadata "ETag" in
  match pl_Mode plan with
  | objectReadPassthroughRange =>
      lift (serveObjectBody r (withExecutionResponse r [] (pl_RangeTotal plan) etag plan) 0 (src_data reader) (src_end reader))
  | objectReadMPUFull =>
      '(bs, err) ← decryptMPUObjectWithManifest fuel key reader (pl_MPUManifest plan);
      let source := pl_Source plan in
      lift (serveObjectBody r (with_preflight true (withExecutionResponse r (rs_Decrypted source) (ps_Size (pl_Size plan)) (rs_BackendETag source) plan)) 0 bs err)
  | mode =>
      '(bs, err, decMetadata) ← decryptPlannedObject fuel ctx engine plan key reader metadata;
      let full := bool_decide (mode = objectReadFull) && ps_Exact (pl_Size plan) in
      let decMetadata := if full then map_set decMetadata "Content-Length" (FormatInt (ps_Size (pl_Size plan))) else decMetadata in
      let decMetadata := if decide (mget decMetadata "ETag" ≠ "") then map_set decMetadata "ETag" (quoteETag (mget decMetadata "ETag")) else decMetadata in
      match mode with
      | objectReadOptimizedRange =>
          let totalSize := if ps_Exact (pl_Size plan) then ps_Size (pl_Size plan) else -1 in
          lift (serveObjectBody r (withExecutionResponse r decMetadata totalSize etag plan) 0 bs err)
      | _ =>
          if bool_decide (mode = objectReadBufferedRange) && oc_Encrypted (pl_Class plan) then
            if negb (bool_decide (err = EOF)) then throw err
            else lift (serveObjectBody r (withExecutionResponse r decMetadata (len bs) etag plan) 0 bs EOF)
          else lift (serveObjectBody r (withExecutionResponse r decMetadata (if full then ps_Size (pl_Size plan) else -1) etag plan) 0 bs err)
      end
  end.

(** [servePlannedGetObject] of a ranged request. *)
Definition serveRange (fuel : nat) (ctx : Ctx) (engine : EncryptionEngine) (r : GetRequest) (plan : objectReadPlan) (key : string) (versionID : option string)
    : M K ObjectResponse :=
  match pl_Mode plan with
  | objectReadMPURange => serveMPURangedGetPlanned fuel r key versionID plan
  | _ =>
      '(reader, metadata) ← lift (be_GetObject be key versionID (pl_BackendRange plan));
      _ ← lift (loadReadableObjectView h bucket key versionID metadata);
      serveFetched fuel ctx engine r plan key reader metadata
  end.
(** [servePlannedGetObject] of a request for the whole object, whose plan is
    completed after the object was fetched. *)
Definition serveWhole (fuel : nat) (ctx : Ctx) (engine : EncryptionEngine) (r : GetRequest) (key : string) (versionID : option string)
    : M K ObjectResponse :=
  '(reader, metadata) ← lift (be_GetObject be key versionID None);
  _ ← lift (loadReadableObjectView h bucket key versionID metadata);
  plan ← completeGetObjectRead fuel ctx key versionID r metadata;
  serveFetched fuel ctx engine r plan key reader metadata.

Definition isFullEngine (engine : EncryptionEngine) : bool := match engine with FullEngine _ => true | PassthroughEngine => false end.

(** A GET past the client and the cache: [planGetObjectRead], then the plan. *)
Definition getObject (fuel : nat) (ctx : Ctx) (r : GetRequest) (key : string) (versionID rangeHeader : option string) : M K ObjectResponse :=
  engine ← lift (rh_engine h bucket);
  match rangeHeader with
  | None => serveWhole fuel ctx engine r key versionID
  | Some rng =>
      plan ← planGetObjectRange h be bucket fuel ctx key versionID rng (isFullEngine engine);
      let plan := with_source (src_with_request (gr_Method r) (gr_VersionID r) (gr_Overrides r) (src_with_customer (gr_SSECustomer r) (pl_Source plan))) plan in
      serveRange fuel ctx engine r plan key versionID
  end.
End handler.
