(* ===== verification/ObjectHeaders.v ===== *)
(** * Stored objects with the headers of the backend

    A backend returns the headers an object was stored with together with
    headers of its own, of which the gateway uses the length. The engine reads
    such a map as it reads the stored one. *)
From S2P Require Import Prelude GoStd GoIO Primitives ObjectAAD ChunkLayout ChunkRecord ChunkedStream ChunkedCorrect ChunkedTheorems.
From S2P Require Import KeyManager Rotation Metadata ObjectFormat ObjectMeta Kdf PasswordKeyManager.
From S2P Require Import Engine EngineRead EngineMeta EngineSeal EngineFields EngineCorrect EngineBodies EngineHeaders EngineTheorems.
Local Open Scope Z_scope.
#[local] Arguments ToLower : simpl never.
#[local] Arguments EqualFold : simpl never.
#[local] Arguments FormatInt : simpl never.
#[local] Arguments bytes_of_string : simpl never.
#[local] Arguments ascii_string : simpl never.
#[local] Arguments Validate : simpl never.

(** [m] with the header [k], in place of any spelling of it. *)
Definition withHeader (k v : string) (m : gomap) : gomap := (k, v) :: filter (λ kv, negb (EqualFold kv.1 k)) m.

(** ** Other names are not affected *)

Section names.
Context (k v : string) (Hk : foreign k = true).

Lemma foreign_names s : s ∈ metaKeyRegistry → ToLower (Canonical s) ≠ ToLower k ∧ ToLower (Compact s) ≠ ToLower k.
Proof using Hk.
  intros Hs%list_elem_of_In. destruct (foreign_spec k Hk) as [Hl _]. unfold LookupMetaKey in Hl.
  pose proof (find_none _ _ Hl s Hs) as Hm. unfold matches in Hm.
  apply orb_false_elim in Hm as [[H1%bool_decide_eq_false H2%bool_decide_eq_false]%orb_false_elim _]. done.
Qed.
#[local] Opaque metaKeyRegistry LookupMetaKey.

Lemma fold_other n : ToLower n ≠ ToLower k → EqualFold n k = false.
Proof using. intros Hn. destruct (EqualFold n k) eqn:E; [|done]. by apply EqualFold_spec in E. Qed.

Lemma withHeader_value m n : ToLower n ≠ ToLower k → metadataValue (withHeader k v m) n = metadataValue m n.
Proof using.
  intros Hn. unfold withHeader. cbn [metadataValue]. destruct (EqualFold k n) eqn:E; [by apply EqualFold_spec in E|].
  rewrite (metadataValue_filter (λ x, negb (EqualFold x k))).
  - by rewrite fold_other.
  - intros k' E'. unfold EqualFold. by rewrite E'.
Qed.

Lemma withHeader_this m n : ToLower n = ToLower k → metadataValue (withHeader k v m) n = Some v.
Proof using. intros Hn. unfold withHeader. cbn [metadataValue]. by rewrite (proj2 (EqualFold_spec k n)). Qed.

Lemma withHeader_lookup m n : ToLower n ≠ ToLower k → map_lookup (withHeader k v m) n = map_lookup m n.
Proof using.
  intros Hn. unfold withHeader. cbn [map_lookup]. rewrite decide_False by (intros E; by rewrite E in Hn).
  rewrite (map_lookup_filter (λ x, negb (EqualFold x k))). by rewrite fold_other.
Qed.

Lemma withHeader_canonical m s : s ∈ metaKeyRegistry → map_lookup (withHeader k v m) (Canonical s) = map_lookup m (Canonical s).
Proof using Hk. intros Hs. apply withHeader_lookup. by apply foreign_names. Qed.
Lemma withHeader_mget m s : s ∈ metaKeyRegistry → mget (withHeader k v m) (Canonical s) = mget m (Canonical s).
Proof using Hk. intros Hs. unfold mget. by rewrite withHeader_canonical. Qed.
Lemma withHeader_name m n : is_canonical n = true → mget (withHeader k v m) n = mget m n.
Proof using Hk. intros (s & Hs & <-)%is_canonical_spec. by apply withHeader_mget. Qed.

Lemma withHeader_foreign m m' n : (∀ n, foreign n = true → metadataValue m n = metadataValue m' n) → foreign n = true →
  metadataValue (withHeader k v m) n = metadataValue (withHeader k v m') n.
Proof using.
  intros Hm Hn. destruct (decide (ToLower n = ToLower k)) as [E|E]; [by rewrite !withHeader_this|]. rewrite !withHeader_value by done. by apply Hm.
Qed.

Lemma withHeader_clean m : clean m → clean (withHeader k v m).
Proof using Hk.
  intros Hc. destruct (clean_filter (λ kv, negb (EqualFold kv.1 k)) m Hc) as [Hd Hcl]. split.
  - unfold fold_distinct, withHeader. cbn [fmap list_fmap fst]. constructor; [|exact Hd].
    intros (k' & E & (kv & -> & [Hn _]%list_elem_of_filter)%list_elem_of_fmap)%list_elem_of_fmap.
    unfold EqualFold in Hn. rewrite bool_decide_eq_true_2 in Hn by done. done.
  - intros k' s Hin Hl. apply elem_of_cons in Hin as [->|Hin]; [|by apply Hcl]. cbn in Hl.
    by rewrite (proj1 (foreign_spec k Hk)) in Hl.
Qed.

Lemma withHeader_good m : ascii_string k = true → ascii_string v = true → good m → good (withHeader k v m).
Proof using Hk.
  intros Hak Hav [Hc Ha Ho]. split; [by apply withHeader_clean| |].
  - constructor; [cbn; by rewrite Hak, Hav|]. by apply ascii_map_filter.
  - destruct (foreign_spec k Hk) as [_ He]. rewrite withHeader_value; [done|]. intros E. symmetry in E.
    apply EqualFold_spec in E. congruence.
Qed.

(** ** Compaction *)

Lemma filter_set m n x : EqualFold n k = false →
  filter (λ kv, negb (EqualFold kv.1 k)) (map_set m n x) = map_set (filter (λ kv, negb (EqualFold kv.1 k)) m) n x.
Proof using.
  intros Hn. induction m as [|[k' v'] m IH]; cbn [map_set]; [rewrite filter_cons_True by (cbn; by rewrite Hn); done|].
  destruct (decide (k' = n)) as [->|Hne].
  - rewrite !filter_cons_True by (cbn; by rewrite Hn). cbn [map_set]. by rewrite decide_True.
  - destruct (EqualFold k' k) eqn:E.
    + rewrite !filter_cons_False by (cbn; rewrite E; naive_solver). done.
    + rewrite !filter_cons_True by (cbn; by rewrite E). cbn [map_set]. by rewrite decide_False, IH.
Qed.

Lemma withHeader_set m n x : EqualFold n k = false → map_set (withHeader k v m) n x = withHeader k v (map_set m n x).
Proof using.
  intros Hn. unfold withHeader. cbn [map_set]. rewrite decide_False, filter_set; [done|done|]. intros E.
  unfold EqualFold in Hn. by rewrite E, bool_decide_eq_true_2 in Hn.
Qed.

Lemma withHeader_merge m l : (∀ n, n ∈ l.*1 → EqualFold n k = false) → map_merge (withHeader k v m) l = withHeader k v (map_merge m l).
Proof using.
  unfold map_merge. revert m. induction l as [|[n x] l IH]; intros m Hl; [done|]. cbn [foldl fst snd].
  rewrite withHeader_set by (apply Hl; by left). apply IH. intros n' Hn'. apply Hl. by right.
Qed.

Lemma withHeader_kept m :
  filter (λ kv, keptByCompaction kv.1) (withHeader k v m) = withHeader k v (filter (λ kv, keptByCompaction kv.1) m).
Proof using Hk.
  unfold withHeader. rewrite filter_cons_True by (cbn; by rewrite foreign_kept). f_equal. rewrite !list_filter_filter.
  apply list_filter_iff. intros kv. tauto.
Qed.

Lemma withHeader_compact p m :
  known_strategy p → CompactMetadata p (withHeader k v m) = withHeader k v (CompactMetadata p m).
Proof using Hk.
  intros [Hp|Hp]; unfold CompactMetadata, ShouldCompact; rewrite Hp.
  2: { rewrite !bool_decide_eq_true_2 by done. done. }
  rewrite !bool_decide_eq_false_2 by done. cbn [negb]. rewrite withHeader_kept.
  assert (Hst : ∀ s, s ∈ metaKeyRegistry → storedValue (withHeader k v m) s = storedValue m s).
  { intros s Hs. destruct (foreign_names s Hs). unfold storedValue. by rewrite !withHeader_value. }
  rewrite (Hst encryptedSpec encryptedSpec_in).
  assert (Hce : compactEncryptionMetadata p (withHeader k v m) = compactEncryptionMetadata p m).
  { rewrite !(compactEncryptionMetadata_assign p Hp). unfold assign. revert Hst. generalize ([] : gomap) as out.
    induction metaKeyRegistry as [|s l IH]; intros out Hst; [done|]. cbn [foldl].
    assert (compactValue (withHeader k v m) s = compactValue m s) as -> by (unfold compactValue; rewrite Hst by (by left); done).
    apply IH. intros s' Hs'. apply Hst. by right. }
  assert (Hks : ∀ n, n ∈ (compactEncryptionMetadata p m).*1 → EqualFold n k = false).
  { intros n Hn. rewrite (compactEncryptionMetadata_assign p Hp) in Hn. destruct (compact_assign_spec m) as (_ & Hks & _).
    apply Hks in Hn as (s & [Hs _] & -> & _). apply fold_other. by apply foreign_names. }
  rewrite Hce. destruct (storedValue m encryptedSpec); [|by rewrite withHeader_merge].
  rewrite withHeader_set, withHeader_merge; [done|done|]. apply fold_other. apply (foreign_names encryptedSpec encryptedSpec_in).
Qed.
End names.

(** ** Written objects *)

Section written.
Context `{CiphersLaws, HKDFLaws, SHA256, MD5, PasswordKDFLaws, BuildTags, ManifestJSONLaws, MapJSONLaws}.
Context `{StorableEnvelopes K}.
Context (k v : string) (Hk : foreign k = true) (Hak : ascii_string k = true) (Hav : ascii_string v = true).

Lemma carries_with e full h : carries e full h → carries e (withHeader k v full) (withHeader k v h).
Proof using Hk.
  intros (Hc & Hm & Hf & Hx). unfold carries. split_and!; [by apply withHeader_clean| | |].
  - rewrite (withHeader_name k v Hk) by (vm_compute; reflexivity). done.
  - intros n Hn. by apply withHeader_foreign.
  - destruct (en_metadataKey e).
    + destruct Hx as (dm & Hne & Hdec & Hcd & Hkd & Hv). exists dm.
      rewrite (withHeader_mget k v Hk h blobSpec (proj1 blobSpec_in) : mget (withHeader k v h) MetaEncryptedMetadata = mget h MetaEncryptedMetadata).
      split_and!; [done..|]. intros s Ha Hb. rewrite !withHeader_mget by (done || apply Ha). by apply Hv.
    + intros s Ha. rewrite !withHeader_mget by (done || apply Ha). by apply Hx.
Qed.

Lemma blob_with e full h : blob_of e full h → blob_of e (withHeader k v full) (withHeader k v h).
Proof using Hk.
  unfold blob_of. destruct (en_metadataKey e); [|by intros ->]. intros (dm & Hdec & Hv & Hmpu & Hq). exists dm.
  rewrite (withHeader_mget k v Hk h blobSpec (proj1 blobSpec_in) : mget (withHeader k v h) MetaEncryptedMetadata = mget h MetaEncryptedMetadata).
  split_and!; [done| |done|].
  - intros s Hs Hb. rewrite withHeader_canonical by done. by apply Hv.
  - intros s Hs Hb Hn. rewrite !withHeader_mget by done. by apply Hq.
Qed.

Lemma fields_with e m algorithm salt iv bid envelope :
  cipher_fields e m algorithm salt iv bid envelope → cipher_fields e (withHeader k v m) algorithm salt iv bid envelope.
Proof using Hk. apply fields_transfer. intros n Hn. apply withHeader_name; [done|]. by apply fieldName_canonical. Qed.

(** A chunked write is also one of the headers with the backend's own. *)
Lemma chunked_write_with e object md st salt iv bid key envelope full h aead :
  chunked_write e object md st salt iv bid key envelope full h aead →
  chunked_write e object (withHeader k v md) st salt iv bid key envelope (withHeader k v full) (withHeader k v h) aead.
Proof using All.
  intros Hw. pose proof (cw_absent _ _ _ _ _ _ _ _ _ _ _ _ Hw) as Habs. destruct Hw. split; try done.
  - by apply withHeader_good.
  - intros n Hn. by apply withHeader_foreign.
  - by apply fields_with.
  - by rewrite !(withHeader_name k v Hk full) by (vm_compute; reflexivity).
  - by rewrite (withHeader_name k v Hk full) by (vm_compute; reflexivity).
  - by rewrite (withHeader_name k v Hk full) by (vm_compute; reflexivity).
  - intros n Hn. rewrite <-(Habs n Hn). apply withHeader_lookup.
    assert (Hc : is_canonical n = true) by (unfold unsetNames in Hn; repeat (apply elem_of_cons in Hn as [->|Hn]); [vm_compute; reflexivity..|by apply elem_of_nil in Hn]).
    apply is_canonical_spec in Hc as (s & Hs & <-). by apply foreign_names.
  - by apply carries_with.
  - by apply withHeader_good.
  - by apply blob_with.
Qed.
End written.
