(* ===== verification/EngineTrailer.v ===== *)
(** * The terminal of a written object

    Before any byte of a chunked object is served, the handlers authenticate
    the last 32 bytes of it alone. For what the engine wrote this succeeds and
    tells the exact plaintext size. *)
From S2P Require Import Prelude GoStd GoIO Primitives ObjectAAD ChunkLayout ChunkRecord ChunkedStream ChunkedCorrect ChunkedTheorems.
From S2P Require Import KeyManager Rotation Metadata ObjectFormat ObjectMeta Kdf PasswordKeyManager.
From S2P Require Import Engine EngineRead EngineMeta EngineSeal EngineFields EngineCorrect EngineBodies EngineHeaders EngineTheorems ObjectHeaders.
Local Open Scope Z_scope.
#[local] Arguments ToLower : simpl never.
#[local] Arguments EqualFold : simpl never.
#[local] Arguments FormatInt : simpl never.
#[local] Arguments bytes_of_string : simpl never.
#[local] Arguments ascii_string : simpl never.
#[local] Arguments Validate : simpl never.
#[local] Opaque metaKeyRegistry LookupMetaKey.

(** The last 32 bytes. *)
Definition tailOf (C : list byte) : list byte := drop (length C - 32) C.

Section trailer.
Context `{CiphersLaws, HKDFLaws, SHA256, MD5, PasswordKDFLaws, BuildTags, ManifestJSONLaws, MapJSONLaws}.
Context `{StorableEnvelopes K}.

(** ** Outcomes of computations that may need the key manager *)

(** The computation ends with [P], or reports that the key manager could not
    answer. *)
Definition yields {A} (x : result A * EngineState K) (P : A → EngineState K → Prop) : Prop :=
  (∃ a st', x = (Ok a, st') ∧ P a st') ∨ (∃ err st', x = (Err err, st') ∧ es_km st' ≠ None ∧ rejects err = false).

Lemma yields_bind {A B} (m : M K A) (f : A → M K B) st P Q :
  yields (m st) P → (∀ a st', P a st' → yields (f a st') Q) → yields ((m ≫= f) st) Q.
Proof using.
  intros [(a & st' & E & Ha)|(err & st' & E & Hkm & Hr)] Hf; unfold mbind, M_bind; rewrite E; [by apply Hf|].
  right. by eexists _, _.
Qed.
Lemma yields_lift {A B} (r : result A) a (f : A → M K B) st Q : r = Ok a → yields (f a st) Q → yields ((lift r ≫= f) st) Q.
Proof using. by intros ->. Qed.
Lemma yields_Ok {A} (a : A) (st : EngineState K) (P : A → EngineState K → Prop) : P a st → yields (Ok a, st) P.
Proof using. left. by eexists _, _. Qed.
Lemma yields_weaken {A} (x : result A * EngineState K) (P Q : A → EngineState K → Prop) :
  yields x P → (∀ a st, P a st → Q a st) → yields x Q.
Proof using. intros [(a & st' & E & Ha)|He] Hpq; [left; eexists _, _; eauto|by right]. Qed.

Lemma answers_yields {A} (x : result A * EngineState K) (P : A → Prop) : answers x P → yields x (λ a _, P a).
Proof using.
  intros [(a & st' & E & Ha)|(msg & err & st' & E & Hk & Hr)]; [left; by eexists _, _|right; eexists _, _]. split_and!; [done..|].
  by rewrite rejects_wrap.
Qed.

(** ** The key *)

Lemma trailerKey_found e m st salt envelope key :
  holds_key e st salt envelope key → len key = 32 → storable envelope → key_fields e m envelope →
  yields (trailerKey e m salt st) (λ key' st', key' = key ∧ holds_key e st' salt envelope key).
Proof using All.
  intros Hh Hl Hs Hf. unfold trailerKey. change ((getKeyManager ≫= ?f) st) with (f (es_km st) st). cbv beta.
  pose proof Hh as Hh0. unfold holds_key in Hh. destruct (es_km st) as [k|] eqn:Hkm, envelope as [env|]; try done.
  - destruct Hh as [Hi Hh], Hs as (Hv & Hne & _). pose proof Hf as (_ & _ & _ & _ & Hw).
    rewrite decide_True by (split; [by eexists|rewrite Hw; by apply decode_nonempty]).
    eapply yields_lift; [by rewrite Hw, decodeBase64_encode|]. rewrite (storedEnvelope_copy e m env Hf Hv). unfold unwrapDataKey.
    rewrite Hkm. destruct (UnwrapKey (Some (storedCopy env)) m k (es_world st)) as [[r k'] w'] eqn:Hu.
    destruct (unwrap_spec _ m k _ r k' w' Hi Hu) as (Hi' & Hkeep & Hr).
    destruct (Hr (storedCopy env) key eq_refl (holds_storedCopy _ _ _ Hh)) as [->|(err & -> & Hrej)].
    + apply yields_Ok. split; [done|]. unfold holds_key. cbn [es_km]. eauto.
    + right. by eexists _, _.
  - rewrite decide_False by (intros [[? [=]] _]). destruct (deriveKey_stored e salt key Hh) as (params & Hp & Hd), Hf as [Hf _].
    eapply yields_lift; [by rewrite Hf, Hp|]. unfold lift. rewrite Hd. by apply yields_Ok.
Qed.

(** ** The record *)

Lemma readTail_32 ctx (t : list byte) : live ctx → length t = 32%nat → readTail ctx (src_of t) = Ok t.
Proof using.
  intros Hctx Hl. unfold readTail, readChunkedTrailer. destruct (ctx_poll_live ctx Hctx) as (c1 & -> & Hc1). cbn [src_of src_data src_end].
  change (Z.to_nat ChunkedTerminalSize) with 32%nat. rewrite take_ge, drop_ge, decide_True by lia.
  rewrite bool_decide_eq_false_2 by naive_solver. rewrite Hl. cbn [orb negb Z.of_nat].
  destruct (ctx_poll_live c1 Hc1) as (c2 & -> & Hc2). cbn. done.
Qed.

Lemma tail_written P pt :
  params_ok P → cp_version P = ChunkedFormatV2 → tailOf (sealed_object P pt) = sealed_terminal P (len (plain_chunks P pt)) (len pt).
Proof using H2.
  intros HP HV. unfold tailOf, sealed_object. pose proof (sealed_terminal_32 P HP HV (len (plain_chunks P pt)) (len pt)) as Hl.
  rewrite length_app, Hl, Nat.add_sub. by rewrite drop_app_length.
Qed.

Lemma checkTerminal_written a t iv cs object bid pt `{!AEADLaws a, !AEADLaws t} :
  Validate object = Ok tt → len bid = 16 → ctsize (len pt) (clampChunkSize cs) ChunkedFormatV2 ≤ MaxInt64 →
  let P := writer_params a t iv cs object bid in
  checkTerminal t (writer_manifest iv cs) iv (tailOf (sealed_object P pt)) object bid (len (sealed_object P pt)) ChunkedFormatV2 =
    Ok (mkInfo ChunkedFormatV2 (nchunks (len pt) (clampChunkSize cs)) (len pt) true).
Proof using H2.
  intros Hv Hb Hfit P. pose proof (clamp_valid cs) as Hcs. assert (HP : params_ok P) by (by apply bound_params_ok).
  assert (HF : fits P pt) by (by apply fits_bound). pose proof (length_sealed_object P HP pt HF) as Hlen.
  rewrite (tail_written P pt HP eq_refl), Hlen. cbn [P writer_params cp_chunkSize cp_version] in Hlen |- *.
  assert (Hn : len (plain_chunks P pt) = nchunks (len pt) (clampChunkSize cs)).
  { unfold plain_chunks. rewrite length_chunks_of by apply (chunk_size_pos P HP). cbn [P writer_params cp_chunkSize].
    rewrite Z2Nat.id; [done|]. unfold valid_chunk_size, MinChunkSize in Hcs. lia. }
  rewrite Hn. set (n := nchunks (len pt) (clampChunkSize cs)) in *. set (size := ctsize (len pt) (clampChunkSize cs) ChunkedFormatV2) in *.
  assert (Hp : 0 ≤ len pt ≤ MaxInt64) by (split; [lia|apply HF]).
  assert (Hn64 : 0 ≤ n ≤ MaxInt64) by (pose proof (nchunks_bounds (len pt) (clampChunkSize cs)); unfold valid_chunk_size, MinChunkSize in Hcs; lia).
  unfold checkTerminal. rewrite Z.eqb_refl. change (mf_ChunkSize (writer_manifest iv cs)) with (clampChunkSize cs).
  assert (Hsz : ChunkedPlaintextSize size (clampChunkSize cs) ChunkedFormatV2 = Ok (len pt, n))
    by (apply ChunkedPlaintextSize_spec; [done|]; split_and!; [by right|done|lia|done|done]).
  destruct (terminal_args_Ok P n (len pt) HP eq_refl) as (nonce & aad & Hargs & Hnl).
  unfold sealed_terminal. rewrite Hargs. change (cp_terminalAEAD P) with (Some t). change (cp_version P =? ChunkedFormatV2) with true. cbn iota.
  unfold terminal_args in Hargs. cbn [P writer_params cp_baseIV cp_version cp_boundV2 cp_object cp_bindingID] in Hargs.
  apply bind_Ok in Hargs as (nonce' & Hnonce & Hargs). apply bind_Ok in Hargs as (aad' & Haad & Hargs). injection Hargs as -> ->.
  rewrite Hnonce. cbn [mbind result_bind]. rewrite Hsz. cbn [mbind result_bind].
  assert (Hu : wrap_u64 (len pt) = len pt) by (apply wrap_u64_id; unfold MaxInt64 in Hp; lia).
  rewrite Hu, Haad. cbn [mbind result_bind]. rewrite aead_open_seal by done.
  rewrite decode_encode_terminal by (unfold is_u64, MaxInt64 in *; lia). cbn [mbind result_bind].
  rewrite (proj2 (Z.ltb_ge _ _)) by lia.
  rewrite ChunkedCiphertextSize_spec by (done || by right). fold size. rewrite (proj2 (Z.leb_le _ _)) by done.
  rewrite bool_decide_eq_true_2 by done. cbn [negb]. rewrite ChunkedDataChunkCount_Ok by done.
  by rewrite bool_decide_eq_true_2.
Qed.

(** ** The headers *)

(** The fields [AuthenticateChunkedTrailer] and the API find in the headers. *)
Lemma trailer_meta e full h ex :
  carries e full h → reads_like h ex → map_lookup full MetaEncryptedMetadata = None → mget full MetaEncrypted = "true" →
  ∃ m, (let blob := mget ex MetaEncryptedMetadata in
        if decide (blob = "") then Ok ex else protected ← wrapErr "decrypt metadata: %w" (decryptMetadata e blob); Ok (map_merge ex protected)) = Ok m ∧
    ∀ s, aliased s → Canonical s ≠ MetaEncryptedMetadata → mget m (Canonical s) = mget full (Canonical s).
Proof using.
  intros Hcar Hr Habs Hm. pose proof (merge_reads_like e full h ex Hcar Hr) as Hmr. destruct Hr as (Hce & Hg & _).
  pose proof (Hg blobSpec blobSpec_in : mget ex MetaEncryptedMetadata = mget h MetaEncryptedMetadata) as Hb. cbv zeta.
  destruct Hcar as (_ & _ & _ & Hx). destruct (en_metadataKey e) eqn:Hk.
  - destruct Hx as (dm & Hne & Hdec & _). destruct Hmr as (m & dm' & Hmb & Hdec' & _ & Hgm & _). assert (dm' = dm) as -> by congruence.
    unfold mergeBlob in Hmb. rewrite Hk, blobKeyOf_clean, Hb, decide_False, Hdec in Hmb by done. cbn in Hmb. simplify_eq.
    rewrite Hb, decide_False, Hdec by done. cbn. eauto.
  - exists ex. rewrite Hb. rewrite (Hx blobSpec blobSpec_in : mget h MetaEncryptedMetadata = mget full MetaEncryptedMetadata), absent_mget by done.
    rewrite decide_True by done. split; [done|]. by destruct Hmr as (_ & Hgm & _).
Qed.

Lemma fields_named e m full algorithm salt iv bid envelope :
  (∀ s, aliased s → Canonical s ≠ MetaEncryptedMetadata → mget m (Canonical s) = mget full (Canonical s)) →
  (∀ k, bool_decide (k ∈ fieldNames) = true → mget m k = mget full k) ∧
  (cipher_fields e full algorithm salt iv bid envelope → cipher_fields e m algorithm salt iv bid envelope).
Proof using.
  intros Hg. assert (Hk : ∀ k, k ∈ fieldNames → mget m k = mget full k) by (intros k (s & Ha & Hb & _ & <-)%fieldName_spec; by apply Hg).
  split; [intros k Hk'%bool_decide_eq_true; by apply Hk|by apply fields_transfer].
Qed.

Lemma trailer_authenticated ctx e object pt md st0 st raw salt iv bid key envelope full h aead :
  known_strategy (en_compactor e) → live ctx →
  ctsize (len pt) (clampChunkSize (en_chunkSize e)) ChunkedFormatV2 ≤ MaxInt64 →
  chunked_write e object md st0 salt iv bid key envelope full h aead → holds_key e st salt envelope key →
  CompactMetadata (en_compactor e) h ≡ₚ raw →
  let C := chunked_object e object pt iv bid key aead in
  yields (AuthenticateChunkedTrailer ctx e object (src_of (tailOf C)) raw (len C) st)
    (λ info st', info = mkInfo ChunkedFormatV2 (nchunks (len pt) (clampChunkSize (en_chunkSize e))) (len pt) true ∧
                 holds_key e st' salt envelope key).
Proof using All.
  intros Hp Hctx Hfit Hw Hh Hperm C. pose proof (cw_absent _ _ _ _ _ _ _ _ _ _ _ _ Hw MetaEncryptedMetadata ltac:(by do 2 right; left)) as Habs.
  destruct Hw. destruct cw_marked as (M1 & M2 & M3).
  pose proof (expand_reads_like h (en_compactor e) raw Hp (good_clean _ cw_headers) Hperm) as Hrl.
  destruct (createAEADCipher_laws _ _ _ _ cw_cipher) as [Hlaws Hkl].
  destruct (trailer_meta e full h _ cw_carries Hrl Habs M1) as (m & Hopen & Hg).
  destruct (fields_named e m full (en_preferredAlgorithm e) salt iv bid envelope Hg) as [Hm Hcf]. specialize (Hcf cw_fields).
  unfold AuthenticateChunkedTrailer. destruct (ctx_poll_live ctx Hctx) as (c1 & -> & Hc1).
  eapply yields_lift; [done|]. eapply yields_lift; [done|]. cbv zeta. eapply yields_lift; [exact Hopen|].
  assert (Hman : mget m MetaManifest = encodeManifest (writer_manifest iv (en_chunkSize e))) by (by rewrite Hm by reflexivity).
  eapply yields_lift; [unfold ChunkedFormatVersion; by rewrite (manifest_stored m iv _ Hman)|].
  rewrite (bool_decide_eq_true_2 (mget m MetaObjectFormatVersion = _)) by (by rewrite Hm by reflexivity).
  cbn [mf_Version writer_manifest ChunkedFormatV2 ChunkedFormatV1 Z.eqb Pos.eqb andb negb].
  eapply yields_lift; [by rewrite (manifest_stored m iv _ Hman)|].
  eapply yields_lift; [rewrite (cf_bid _ _ _ _ _ _ _ Hcf); by apply parseBinding|].
  set (P := writer_params aead (aes_gcm key) iv (en_chunkSize e) object bid).
  pose proof (clamp_valid (en_chunkSize e)) as Hcs. pose proof (aes_gcm_laws key) as Hgl. assert (HP : params_ok P) by (by apply bound_params_ok).
  pose proof (length_sealed_object P HP pt (fits_bound P pt HP eq_refl Hfit)) as Hlen. change (sealed_object P pt) with C in Hlen.
  assert (Hge : 32 ≤ len C).
  { rewrite Hlen. unfold ctsize, trailer, tagSize, ChunkedTerminalSize. pose proof (nchunks_bounds (len pt) (cp_chunkSize P)) as Hn.
    pose proof (clamp_valid (en_chunkSize e)) as Hc. unfold valid_chunk_size, MinChunkSize in Hc. cbn [P writer_params cp_chunkSize cp_version] in *.
    cbn [ChunkedFormatV2 Z.eqb Pos.eqb]. lia. }
  rewrite (proj2 (Z.ltb_ge (len C) ChunkedTerminalSize)) by (unfold ChunkedTerminalSize; lia).
  eapply yields_lift; [rewrite (cf_salt _ _ _ _ _ _ _ Hcf); apply decodeBase64_encode|].
  eapply yields_lift; [rewrite (cf_iv _ _ _ _ _ _ _ Hcf); apply decodeBase64_encode|].
  eapply yields_bind; [eapply trailerKey_found; [done|done|done|apply Hcf]|]. intros key' st' [-> Hh'].
  eapply yields_lift; [by apply newAESGCM_32|].
  eapply yields_lift; [apply readTail_32; [done|]; unfold tailOf; rewrite length_drop; lia|].
  unfold lift. change (ChunkedFormatV2 `mod` 256) with ChunkedFormatV2.
  pose proof (checkTerminal_written aead (aes_gcm key) iv (en_chunkSize e) object bid pt cw_object cw_bid Hfit) as Hc. cbv zeta in Hc.
  change (sealed_object _ pt) with C in Hc. rewrite Hc. by apply yields_Ok.
Qed.
End trailer.
