(* ===== verification/ObjectReadMeta.v ===== *)
(** * What a backend returns for a written object

    The headers of a HEAD or GET are those the object was stored with and the
    backend's own: the length, the date, the entity tag. What the read path
    finds in them: the fields of the object, the length under its own name, and
    no chunk count. *)
From S2P Require Import Prelude GoStd GoIO GoText Http Primitives ObjectAAD ChunkLayout ChunkRecord ChunkedStream ChunkedCorrect ChunkedTheorems RangeReader MPUManifest.
From S2P Require Import KeyManager Rotation Metadata ObjectFormat ObjectMeta Kdf PasswordKeyManager Policy ObjectWrite.
From S2P Require Import Engine EngineRead EngineMeta EngineSeal EngineFields EngineCorrect EngineBodies EngineHeaders EngineTheorems ObjectHeaders RangeHeader ObjectResponse ObjectPlan.
Local Open Scope Z_scope.
#[local] Arguments ToLower : simpl never.
#[local] Arguments EqualFold : simpl never.
#[local] Arguments FormatInt : simpl never.
#[local] Arguments bytes_of_string : simpl never.
#[local] Arguments ascii_string : simpl never.
#[local] Arguments Validate : simpl never.
#[local] Opaque metaKeyRegistry LookupMetaKey.

(** The backend's headers over the stored ones. *)
Definition returned (own stored : gomap) : gomap := foldr (λ kv m, withHeader kv.1 kv.2 m) stored own.
Definition own_headers (own : gomap) : Prop := Forall (λ kv, foreign kv.1 = true ∧ ascii_string kv.1 = true ∧ ascii_string kv.2 = true) own.

#[export] Instance withHeader_perm k v : Proper ((≡ₚ) ==> (≡ₚ)) (withHeader k v).
Proof. intros m m' E. unfold withHeader. by rewrite E. Qed.
#[export] Instance returned_perm own : Proper ((≡ₚ) ==> (≡ₚ)) (returned own).
Proof. intros m m' E. induction own as [|kv own IH]; cbn; [done|by rewrite IH]. Qed.

Lemma returned_compact p own m : known_strategy p → own_headers own → CompactMetadata p (returned own m) = returned own (CompactMetadata p m).
Proof.
  intros Hp. induction 1 as [|kv own (Hf & _) _ IH]; [done|]. cbn [returned foldr]. fold (returned own m) (returned own (CompactMetadata p m)).
  by rewrite withHeader_compact, IH.
Qed.

Section written.
Context `{CiphersLaws, HKDFLaws, SHA256, MD5, PasswordKDFLaws, BuildTags, ManifestJSONLaws, MapJSONLaws}.
Context `{StorableEnvelopes K}.

Lemma chunked_write_returned own e object md st salt iv bid key envelope full h aead :
  own_headers own → chunked_write e object md st salt iv bid key envelope full h aead →
  chunked_write e object (returned own md) st salt iv bid key envelope (returned own full) (returned own h) aead.
Proof using All. induction 1 as [|kv own (Hf & Hk & Hv) _ IH]; [done|]. intros Hw. apply chunked_write_with; auto. Qed.

(** ** Fields *)

Lemma raw_absent p h raw s :
  known_strategy p → clean h → CompactMetadata p h ≡ₚ raw → aliased s → Canonical s ≠ MetaEncrypted → mget h (Canonical s) = "" →
  mget raw (Canonical s) = "" ∧ mget raw (Compact s) = "".
Proof using.
  intros Hp Hc Hperm Ha Hne Hh. assert (Hv : nonempty (metadataValue h (Canonical s)) = None).
  { unfold mget in Hh. rewrite (clean_lookup h s Hc (proj1 Ha)) in Hh. unfold nonempty. destruct (metadataValue h (Canonical s)); [|done].
    cbn in Hh. by case_decide. }
  assert (Hempty : ∀ m n, no_variant m n → nonempty (metadataValue m n) = None → mget m n = "").
  { intros m n Hn Hm. unfold mget. rewrite lookup_value by done. unfold nonempty in Hm. destruct (metadataValue m n); [|done]. by case_decide. }
  destruct Hp as [Hp|Hp].
  - split; apply absent_mget, lookup_none.
    + rewrite (rt_no_alias p Hp h raw (proj1 Hc) Hperm) by (apply canonical_no_alias, Ha).
      rewrite decide_False, (not_kept_aliased _ s) by (auto || by apply other_canonical; [apply Ha|]). done.
    + rewrite (rt_compacted p Hp h raw (proj1 Hc) Hperm), compacted_value, clean_stored by (done || apply Ha). rewrite Hv.
      rewrite decide_False, (not_kept_aliased _ s) by (auto || (apply (canonical_not_compact encryptedSpec s encryptedSpec_in (proj1 Ha)), Ha)). done.
  - assert (Hr : h ≡ₚ raw) by (unfold CompactMetadata, ShouldCompact in Hperm; by rewrite Hp, bool_decide_eq_true_2 in Hperm).
    split; [|apply absent_mget, lookup_none; rewrite <-(metadataValue_perm h raw) by (apply Hc || done); by apply clean_no_compact; [|apply Ha|apply Ha]].
    apply Hempty; [|by rewrite <-(metadataValue_perm h raw) by (apply Hc || done)].
    intros k Hk. rewrite <-Hr in Hk. by apply (clean_no_variant h s Hc (proj1 Ha)).
Qed.

(** The writer records no chunk count, so every range of its objects is read
    through the whole object. *)
Definition chunkCountSpec : MetaKeySpec := control MetaChunkCount "x-amz-meta-cc".
Lemma chunkCount_found : LookupMetaKey MetaChunkCount = Some chunkCountSpec ∧ aliased chunkCountSpec.
Proof using. split; [vm_compute; reflexivity|]. split; [|done]. apply (bool_decide_unpack _). vm_compute. reflexivity. Qed.

Lemma no_chunk_count e object md st raw salt iv bid key envelope full h aead :
  known_strategy (en_compactor e) → chunked_write e object md st salt iv bid key envelope full h aead →
  CompactMetadata (en_compactor e) h ≡ₚ raw → missingOriginalSize raw = true.
Proof using.
  intros Hp Hw Hperm. destruct chunkCount_found as [Hl Ha].
  assert (Hh : mget h MetaChunkCount = "").
  { apply (header_absent e full h); [apply Hw|apply Hw|apply (bool_decide_unpack _); vm_compute; reflexivity|].
    apply Hw. apply (bool_decide_unpack _). vm_compute. reflexivity. }
  destruct (raw_absent (en_compactor e) h raw chunkCountSpec Hp (good_clean _ (cw_headers _ _ _ _ _ _ _ _ _ _ _ _ Hw)) Hperm Ha) as [H1' H2']; [done|done|].
  unfold missingOriginalSize. apply orb_true_iff. right. apply bool_decide_eq_true_2. unfold rawMetadataValue.
  change (Canonical chunkCountSpec) with MetaChunkCount in H1'. rewrite Hl, H1', H2'. by repeat case_decide.
Qed.

(** ** The expanded headers *)

Lemma expanded_keys raw k :
  fold_distinct raw → (∀ k, k ∈ raw.*1 → ToLower k = ToLower MetaEncrypted → k = MetaEncrypted) →
  k ∈ (expandMetadataForCrypto raw).*1 → foreign k = true → k ∈ raw.*1.
Proof using.
  intros Hd Hm Hk Hf. destruct (ExpandMetadata_full ProviderAWS eq_refl raw Hd Hm) as (_ & Hke & _).
  destruct (foreign_spec k Hf) as [Hl _]. apply Hke in Hk as [[Hk _]|[->|(s & Hs & ->)]]; [done| |];
    [destruct (registry_fact encryptedSpec encryptedSpec_in) as (Hs & _); change (Canonical encryptedSpec) with MetaEncrypted in Hs
    |destruct (registry_fact s Hs) as (Hs' & _)]; congruence.
Qed.

(** Fields without a short name: none appears that the headers do not have. *)
Lemma expand_quiet p h raw s :
  known_strategy p → clean h → CompactMetadata p h ≡ₚ raw → s ∈ metaKeyRegistry → Compact s = "" → Canonical s ≠ MetaEncrypted →
  mget h (Canonical s) = "" → mget (expandMetadataForCrypto raw) (Canonical s) = "".
Proof using.
  intros Hp Hc Hperm Hs Hco Hne. destruct (compacted_clean p h raw Hp Hc Hperm) as (Hdc & Hme & _).
  pose proof (stored_expand p h raw Hp Hc Hperm) as [Hce _]. change (expandMetadataForCrypto raw) with (ExpandMetadata ProviderAWS raw). unfold mget. rewrite (clean_lookup h s Hc Hs), (clean_lookup _ s Hce Hs).
  destruct (ExpandMetadata_full ProviderAWS eq_refl raw Hdc Hme) as (_ & _ & ->).
  assert (Hno : ∀ s', aliased s' → ToLower (Canonical s) ≠ ToLower (Canonical s')) by (intros s' [Hs' Ha'] E; apply (canonical_inj s s' Hs Hs') in E; congruence).
  rewrite (expanded_other ProviderAWS eq_refl), decide_False by (done || by apply other_canonical).
  assert (Hraw : metadataValue raw (Canonical s) = None ∨ metadataValue raw (Canonical s) = metadataValue h (Canonical s)).
  { destruct Hp as [Hp|Hp].
    - rewrite (rt_no_alias p Hp h raw (proj1 Hc) Hperm) by (by apply canonical_no_alias). rewrite decide_False by (by apply other_canonical).
      case_match; auto.
    - right. symmetry. apply metadataValue_perm; [apply Hc|]. unfold CompactMetadata, ShouldCompact in Hperm. by rewrite Hp, bool_decide_eq_true_2 in Hperm. }
  destruct Hraw as [-> | ->]; by case_match.
Qed.

(** The markers of other formats, which a chunked object does not have. *)
Definition otherMarkers : list string := [MetaMPUEncrypted; MetaFallbackPointer].
Lemma otherMarker_spec k : k ∈ otherMarkers →
  ∃ s, s ∈ metaKeyRegistry ∧ Compact s = "" ∧ Canonical s ≠ MetaEncrypted ∧ Canonical s ≠ MetaEncryptedMetadata ∧ Canonical s = k ∧ k ∈ unsetNames.
Proof using.
  intros [->|[->|?%elem_of_nil]%elem_of_cons]%elem_of_cons; [| |done];
    [exists (structural MetaMPUEncrypted "" false)|exists (structural MetaFallbackPointer "" true)];
    (split_and!; [apply (bool_decide_unpack _); vm_compute; reflexivity|done..|apply (bool_decide_unpack _); vm_compute; reflexivity]).
Qed.

Lemma markers_quiet e object md st raw salt iv bid key envelope full h aead k :
  known_strategy (en_compactor e) → chunked_write e object md st salt iv bid key envelope full h aead →
  CompactMetadata (en_compactor e) h ≡ₚ raw → k ∈ otherMarkers → mget (expandMetadataForCrypto raw) k = "".
Proof using.
  intros Hp Hw Hperm (s & Hs & Hco & Hn & Hb & <- & Hu)%otherMarker_spec. destruct Hw.
  apply (expand_quiet (en_compactor e) h); [done|apply cw_headers|done..|]. specialize (cw_absent _ Hu). apply absent_mget in cw_absent.
  unfold blob_of in cw_blob. destruct (en_metadataKey e); [|by subst]. destruct cw_blob as (dm & _ & _ & _ & Hq). by apply Hq.
Qed.

(** The blob of a written object, opened: it holds gateway fields only. *)
Lemma blob_merged e object md st raw salt iv bid key envelope full h aead mk :
  known_strategy (en_compactor e) → chunked_write e object md st salt iv bid key envelope full h aead →
  CompactMetadata (en_compactor e) h ≡ₚ raw → en_metadataKey e = Some mk →
  let ex := expandMetadataForCrypto raw in
  ∃ dm, mget ex MetaEncryptedMetadata ≠ "" ∧ decryptMetadata e (mget ex MetaEncryptedMetadata) = Ok dm ∧ mergeBlob e ex = Ok (map_merge ex dm, Some dm) ∧
    (∀ k, foreign k = true → k ∈ (map_delete (map_merge ex dm) MetaEncryptedMetadata).*1 ↔ k ∈ ex.*1) ∧
    (∀ k, k ∈ otherMarkers → mget (map_delete (map_merge ex dm) MetaEncryptedMetadata) k = mget ex k) ∧
    recovers e full (map_delete (map_merge ex dm) MetaEncryptedMetadata).
Proof using.
  intros Hp Hw Hperm Hk ex. destruct Hw. pose proof (expand_reads_like h (en_compactor e) raw Hp (good_clean _ cw_headers) Hperm : reads_like h ex) as Hrl.
  pose proof (merge_reads_like e full h _ cw_carries Hrl) as Hm. pose proof Hrl as (Hce & Hg & _). rewrite Hk in Hm.
  destruct Hm as (m & dm & Hmb & Hdec & Hcm & Hgm & Hfm). destruct cw_carries as (_ & _ & _ & Hx). rewrite Hk in Hx.
  destruct Hx as (dm' & Hne & Hdec' & Hcd & Hkd & _). assert (dm' = dm) as -> by congruence.
  pose proof (Hg blobSpec blobSpec_in : mget ex MetaEncryptedMetadata = mget h MetaEncryptedMetadata) as Hb.
  assert (m = map_merge ex dm) as ->.
  { unfold mergeBlob in Hmb. rewrite Hk, blobKeyOf_clean in Hmb by done. cbv zeta in Hmb. rewrite Hb in Hmb. rewrite decide_False, Hdec in Hmb by done.
    cbn [wrapErr mbind result_bind] in Hmb. by simplify_eq. }
  exists dm. rewrite Hb. split_and!; [done..| | |by apply delete_recovers].
  2: { intros k (s & Hs & _ & Hnm & Hnb & <- & Hu)%otherMarker_spec. specialize (cw_absent _ Hu). rewrite mget_delete, decide_False by done.
       assert (Hq : map_lookup dm (Canonical s) = None).
       { unfold blob_of in cw_blob. rewrite Hk in cw_blob. destruct cw_blob as (dm' & Hdm & Hl & Hmpu & _). assert (dm' = dm) as -> by congruence.
         destruct (blobMember (Canonical s)) eqn:Ebm; [by rewrite Hl|]. destruct (registry_name s Hs) as (Em & _). rewrite Em in Ebm.
         apply negb_false_iff, bool_decide_eq_true in Ebm. rewrite !elem_of_cons, elem_of_nil in Ebm. destruct Ebm as [?|[?|[Es|?]]]; try done.
         by rewrite Es. }
       unfold mget. rewrite (clean_lookup _ s Hcm Hs), (clean_lookup ex s Hce Hs). destruct (clean_merge ex dm Hce Hcd Hkd) as [_ ->].
       by rewrite <-(clean_lookup dm s Hcd Hs), Hq. }
  intros k Hf. destruct (foreign_spec k Hf) as [Hl _].
  unfold map_delete. rewrite list_elem_of_fmap. split.
  - intros (kv & -> & [_ Hin]%list_elem_of_filter). apply (list_elem_of_fmap_2 fst), map_merge_keys in Hin as [?|[s Hs]%Hkd]; [done|congruence].
  - intros Hin. assert (Hin' : k ∈ (map_merge ex dm).*1) by (apply map_merge_keys; by left). apply list_elem_of_fmap in Hin' as (kv & -> & Hin').
    exists kv. split; [done|]. apply list_elem_of_filter. split; [|done]. intros E. rewrite E in Hf.
    assert (foreign MetaEncryptedMetadata = false) by (vm_compute; reflexivity). congruence.
Qed.

Lemma api_expanded e object md st raw salt iv bid key envelope full h aead :
  known_strategy (en_compactor e) → chunked_write e object md st salt iv bid key envelope full h aead →
  CompactMetadata (en_compactor e) h ≡ₚ raw →
  ∃ m, APIExpandedMetadata e raw = Ok m ∧ recovers e full m ∧ (∀ k, k ∈ otherMarkers → mget m k = "") ∧
    ∀ k, foreign k = true → k ∈ m.*1 ↔ k ∈ (expandMetadataForCrypto raw).*1.
Proof using.
  intros Hp Hw Hperm. pose proof (expand_reads_like h (en_compactor e) raw Hp (good_clean _ (cw_headers _ _ _ _ _ _ _ _ _ _ _ _ Hw)) Hperm) as Hrl.
  pose proof (version_not_3 e full h _ (cw_carries _ _ _ _ _ _ _ _ _ _ _ _ Hw) (cw_blob _ _ _ _ _ _ _ _ _ _ _ _ Hw)
    (cw_absent _ _ _ _ _ _ _ _ _ _ _ _ Hw _ ltac:(by right; left)) Hrl) as Hv3.
  pose proof (merge_reads_like e full h _ (cw_carries _ _ _ _ _ _ _ _ _ _ _ _ Hw) Hrl) as Hm. pose proof (proj1 Hrl) as Hce.
  pose proof (λ k, markers_quiet _ _ _ _ raw _ _ _ _ _ _ _ _ k Hp Hw Hperm) as Hquiet.
  unfold APIExpandedMetadata. cbv zeta. destruct (en_metadataKey e) as [mk|] eqn:Hk; [|exists (expandMetadataForCrypto raw); done].
  destruct (blob_merged _ _ _ _ raw _ _ _ _ _ _ _ _ mk Hp Hw Hperm Hk) as (dm & Hne & Hdec & _ & Hkeys & Hmk & Hrec).
  change (ExpandMetadata ProviderAWS raw) with (expandMetadataForCrypto raw) in *. set (ex := expandMetadataForCrypto raw) in *.
  assert (mget ex MetaEncryptedMetadataCompact = "") as ->.
  { apply absent_mget, lookup_none. apply (clean_no_compact ex blobSpec Hce (proj1 blobSpec_in)). done. }
  rewrite (decide_False (P := "" ≠ "")) by naive_solver. rewrite decide_False, Hdec by done. cbn [wrapErr mbind result_bind].
  rewrite bool_decide_eq_false_2 by done. eexists. split; [done|]. split_and!; [done| |done]. intros k Hin. rewrite Hmk by done. by apply Hquiet.
Qed.

Lemma encrypted_reserved : foreign MetaEncrypted = false.
Proof using. vm_compute. reflexivity. Qed.

(** What the client is shown brings no header that was not stored. *)
Lemma opened_keys e object md st raw salt iv bid key envelope full h aead m :
  known_strategy (en_compactor e) → chunked_write e object md st salt iv bid key envelope full h aead →
  CompactMetadata (en_compactor e) h ≡ₚ raw → openHeader e (expandMetadataForCrypto raw) = Ok m →
  ∀ k, foreign k = true → k ∈ m.*1 → k ∈ (expandMetadataForCrypto raw).*1.
Proof using.
  intros Hp Hw Hperm. pose proof (expand_reads_like h (en_compactor e) raw Hp (good_clean _ (cw_headers _ _ _ _ _ _ _ _ _ _ _ _ Hw)) Hperm) as Hrl.
  pose proof (version_not_3 e full h _ (cw_carries _ _ _ _ _ _ _ _ _ _ _ _ Hw) (cw_blob _ _ _ _ _ _ _ _ _ _ _ _ Hw)
    (cw_absent _ _ _ _ _ _ _ _ _ _ _ _ Hw _ ltac:(by right; left)) Hrl) as Hv3. change (ExpandMetadata ProviderAWS raw) with (expandMetadataForCrypto raw) in *.
  unfold openHeader. rewrite bool_decide_eq_false_2 by done. destruct (en_metadataKey e) as [mk|] eqn:Hk; [|by intros [= ->]].
  destruct (blob_merged _ _ _ _ raw _ _ _ _ _ _ _ _ mk Hp Hw Hperm Hk) as (dm & _ & _ & Hmb & Hkeys & _ & _). rewrite Hmb. cbn [mbind result_bind].
  rewrite blobKeyOf_clean by apply Hrl. set (m0 := map_delete _ _) in *. intros Hm k Hf Hin. apply Hkeys; [done|].
  clearbody m0. injection Hm as <-. destruct (IsEncryptedMetadata m0); [|done]. apply map_set_keys in Hin as [->|?]; [|done].
  by rewrite encrypted_reserved in Hf.
Qed.

Lemma view_keys (m : gomap) k : k ∈ (chunkedView m).*1 → projected k = true → k ∈ m.*1.
Proof using.
  set (Q := λ k, projected k = true → k ∈ m.*1). revert k. change (∀ k, k ∈ (chunkedView m).*1 → Q k).
  assert (Hn : ∀ k, k ∈ Names ++ (Header <$> ProtectedStandardKeys) ++ ["Content-Length"; "ETag"] → Q k).
  { intros k Hin%list_elem_of_In. assert (Hall : forallb (λ k, negb (projected k)) (Names ++ (Header <$> ProtectedStandardKeys) ++ ["Content-Length"; "ETag"]) = true)
      by (vm_compute; reflexivity). rewrite forallb_forall in Hall. apply Hall, negb_true_iff in Hin. unfold Q. congruence. }
  assert (Hset : ∀ out k v, k ∈ Names ++ (Header <$> ProtectedStandardKeys) ++ ["Content-Length"; "ETag"] → (∀ k, k ∈ out.*1 → Q k) → ∀ k', k' ∈ (map_set out k v).*1 → Q k')
    by (intros; eapply map_set_keys_Q; eauto).
  assert (Hin : ∀ k, bool_decide (k ∈ Names ++ (Header <$> ProtectedStandardKeys) ++ ["Content-Length"; "ETag"]) = true →
    k ∈ Names ++ (Header <$> ProtectedStandardKeys) ++ ["Content-Length"; "ETag"]) by (intros k; apply bool_decide_eq_true).
  unfold chunkedView. set (view := plaintextMetadataView m (-1) _).
  assert (Hview : ∀ k, k ∈ view.*1 → Q k).
  { unfold view, plaintextMetadataView. cbv zeta. change (0 <=? -1) with false. cbn iota.
    set (o1 := foldl _ [] m). assert (Ho1 : ∀ k, k ∈ o1.*1 → Q k).
    { apply foldl_keys; [|by intros k ?%elem_of_nil]. intros out kv Hkv Hout. case_match; [done|]. apply map_set_keys_Q; [|done].
      case_match eqn:Es; [|intros _; by apply list_elem_of_fmap_2]. apply Hn, elem_of_app. left. by apply standard_name. }
    set (o2 := foldl _ o1 ProtectedStandardKeys). assert (Ho2 : ∀ k, k ∈ o2.*1 → Q k).
    { apply foldl_keys; [|done]. intros out s Hs Hout. case_match; [|done]. apply Hset; [|done]. rewrite !elem_of_app. right. left. by apply list_elem_of_fmap_2. }
    case_match; [apply Hset; [apply Hin; reflexivity|done]|done]. }
  unfold setIf. cbv zeta. repeat case_match; repeat (apply Hset; [apply Hin; vm_compute; reflexivity|]); done.
Qed.

Lemma projected_foreign k : projected k = true → foreign k = true.
Proof using.
  intros Hp. destruct (projected_projectable k Hp) as [Hr _]. unfold foreign. apply negb_true_iff. rewrite <-Hr. apply IsGatewayReservedKey_fold.
  unfold slot. rewrite canonical_lower. case_match; [by rewrite ToLower_idemp|done].
Qed.

Lemma view_covered e object md st raw salt iv bid key envelope full h aead m ex :
  known_strategy (en_compactor e) → chunked_write e object md st salt iv bid key envelope full h aead →
  CompactMetadata (en_compactor e) h ≡ₚ raw → openHeader e (expandMetadataForCrypto raw) = Ok m → APIExpandedMetadata e raw = Ok ex →
  covers ex (chunkedView m).
Proof using.
  intros Hp Hw Hperm Hopen Hex k Hk Hpk. pose proof (projected_foreign k Hpk) as Hf.
  destruct (api_expanded _ _ _ _ raw _ _ _ _ _ _ _ _ Hp Hw Hperm) as (ex' & Hex' & _ & _ & Hkeys). assert (ex' = ex) as -> by congruence.
  apply Hkeys; [done|]. eapply opened_keys; [done..|]. by apply view_keys.
Qed.
End written.
