(* ===== verification/ObjectReadTheorems.v ===== *)
(** * Range requests for written objects

    A chunked object the engine wrote, stored by a backend that returns what it
    was given, and a GET with a [Range] header: the planner authenticates the
    terminal record, learns the plaintext size from it, and the answer is the
    range of the plaintext, or a refusal of the range. *)
From S2P Require Import Prelude GoStd GoIO GoText Http Primitives ObjectAAD ChunkLayout ChunkRecord ChunkedStream ChunkedCorrect ChunkedTheorems RangeReader MPUManifest.
From S2P Require Import KeyManager MemoryKeyManager Rotation Metadata ObjectFormat ObjectMeta Kdf PasswordKeyManager Policy.
From S2P Require Import Engine EngineRead EngineMeta EngineSeal EngineFields EngineCorrect EngineBodies EngineHeaders EngineTheorems EngineRoundTrip.
From S2P Require Import MPUHandlers ObjectHeaders EngineTrailer RangeHeader ObjectResponse ObjectPlan ObjectServe ObjectReadMeta.
Local Open Scope Z_scope.
Local Open Scope go_scope.
#[local] Arguments ToLower : simpl never.
#[local] Arguments EqualFold : simpl never.
#[local] Arguments FormatInt : simpl never.
#[local] Arguments bytes_of_string : simpl never.
#[local] Arguments ascii_string : simpl never.
#[local] Arguments Validate : simpl never.
#[local] Arguments parseObjectRange : simpl never.
#[local] Opaque metaKeyRegistry LookupMetaKey.

(** ** Plans for buffered ranges *)

Record range_plan (view : objectView) (rng : string) (n : Z) (plan : objectReadPlan) : Prop := {
  rp_view : pl_View plan = view; rp_mode : pl_Mode plan = objectReadBufferedRange; rp_backend : pl_BackendRange plan = None;
  rp_header : pl_RangeHeader plan = Some rng; rp_encrypted : oc_Encrypted (pl_Class plan) = true;
  rp_range : ∀ s e, parseObjectRange rng n = Ok (s, e) → pl_RangeStart plan = s ∧ pl_RangeEnd plan = e ∧ pl_RangeTotal plan = n;
  rp_preflight : pl_PreflightBody plan = false }.

Lemma range_plan_source view rng n plan s : range_plan view rng n plan → range_plan view rng n (with_source s plan).
Proof. destruct plan. by intros []; split. Qed.

Lemma planRange_buffered `{ManifestJSON} raw rng view n src plan :
  oc_Format (vw_Class view) = FormatChunkedV2 → oc_Encrypted (vw_Class view) = true → missingOriginalSize raw = true → 0 ≤ n →
  pl_RangeHeader plan = Some rng → pl_View plan = view → pl_Class plan = vw_Class view → pl_PreflightBody plan = false → pl_RangeTotal plan = -1 →
  range_plan view rng n (planRange raw rng view (mkSize n true src) plan).
Proof.
  intros Hf He Hm Hn Hr Hv Hc Hp Ht. destruct plan. cbn in Hr, Hv, Hc, Hp, Ht. subst. unfold planRange. rewrite He, Hf, Hm.
  rewrite (decide_False (P := FormatChunkedV2 ≠ _ ∧ _)) by naive_solver. cbn [negb andb orb ps_Exact ps_Size ps_Source]. cbv zeta.
  destruct (parseObjectRange rng n) as [[s e]|err] eqn:Ep; cbn; case_match; (split; cbn; [done|done..| |done]); intros ?? Ep'; rewrite Ep in Ep'; by simplify_eq.
Qed.

(** ** The answer to a buffered range *)

Lemma serve_range r view rng data plan :
  0 < len data ≤ MaxInt64 → rng ≠ "bytes=" → range_plan view rng (len data) plan → covers (vw_Expanded view) (rs_Decrypted (pl_Source plan)) →
  match parseObjectRange rng (len data) with
  | Ok (s, e) => ∃ headers, serveObjectBody r plan 0 data EOF = Ok (mkResponse statusPartialContent headers (slice data s e) true) ∧
      map_lookup headers "Content-Length" = Some (FormatInt (e - s + 1)) ∧
      map_lookup headers "Content-Range" = Some ("bytes " +:+ FormatInt s +:+ "-" +:+ FormatInt e +:+ "/" +:+ FormatInt (len data))
  | Err _ => serveObjectBody r plan 0 data EOF = Err errInvalidRange
  end.
Proof.
  intros Hn Hh [Hvw Hm _ Hr He Hrg Hpf] Hcov. pose proof (range_parsers_agree data rng Hn Hh) as Ha. unfold serveObjectBody. rewrite Hm, Hr, He.
  rewrite bool_decide_eq_true_2 by done. cbn [negb].
  destruct (parseObjectRange rng (len data)) as [[s e]|err] eqn:Ep; [|by destruct Ha as [err' ->]].
  destruct Ha as (Hse & Hen & ->). destruct (Hrg s e eq_refl) as (E1 & E2 & E3). unfold withDecryptedRange, resolveReadRange. rewrite Hr, E3.
  rewrite (proj2 (Z.leb_le 0 (len data))) by lia. cbv zeta. rewrite E1, E2. unfold sendBody, withExecutionResponse. cbv zeta.
  destruct plan as [mode class vw source size be rs re rt status rr rh mm mr me pf]. cbn [with_response with_source pl_PreflightBody pl_ResponseStatus pl_ResponseRange pl_Source pl_View pl_Size] in *. subst vw. rewrite Hpf.
  change (statusPartialContent =? statusRangeNotSatisfiable) with false. cbn iota.
  rewrite projected_room by (by repeat case_decide; destruct source). cbn [mbind result_bind].
  rewrite (bool_decide_eq_true_2 (EOF = EOF)) by done. eexists. split; [done|].
  match goal with |- context [projectedHeaders ?src ?sh] => destruct (projected_exact src sh) as (_ & Hx & _) end.
  destruct (Hx (mkByteRange s e) eq_refl) as [-> Hcr]. rewrite Hcr by done. cbn [br_Start br_End].
  assert (e -i s +i 1 = e - s + 1) as -> by (unfold MaxInt64 in Hn; rewrite (wrap_i64_id (e - s)), wrap_i64_id by (unfold is_i64; lia); done).
  split; [done|]. do 6 f_equal. by repeat case_decide; destruct source.
Qed.

(** ** The answer with the whole object *)

Record whole_plan (view : objectView) (n : Z) (plan : objectReadPlan) : Prop := {
  wp_view : pl_View plan = view; wp_mode : pl_Mode plan = objectReadFull; wp_encrypted : oc_Encrypted (pl_Class plan) = true;
  wp_size : ps_Size (pl_Size plan) = n ∧ ps_Exact (pl_Size plan) = true;
  wp_answer : pl_ResponseStatus plan = statusOK ∧ pl_ResponseRange plan = None }.

Lemma whole_plan_source view n plan s b : whole_plan view n plan → whole_plan view n (with_source s plan) ∧ whole_plan view n (with_preflight b plan).
Proof. destruct plan. by intros []. Qed.

Lemma serve_whole r view m tag data plan :
  whole_plan view (len data) plan → covers (vw_Expanded view) m →
  ∃ headers, serveObjectBody r (withExecutionResponse r m (len data) tag plan) 0 data EOF = Ok (mkResponse statusOK headers data true) ∧
    map_lookup headers "Content-Length" = Some (FormatInt (len data)) ∧ map_lookup headers "Content-Range" = None.
Proof.
  intros [Hvw Hm _ _ [Hst Hrr]] Hcov. unfold serveObjectBody, withExecutionResponse. cbv zeta.
  destruct plan as [mode class vw source size be rs re rt status rr rh mm mr me pf]. cbn in Hvw, Hm, Hst, Hrr. subst. cbn [with_source pl_Mode].
  unfold sendBody. cbn [pl_Source pl_ResponseStatus pl_ResponseRange pl_PreflightBody pl_Size]. cbv zeta.
  change (statusOK =? statusRangeNotSatisfiable) with false. cbn iota.
  rewrite projected_room by (by repeat case_decide; destruct source). cbn [mbind result_bind].
  assert (Hpf : preflight 0 data EOF = None).
  { unfold preflight, preflightError. change (0 <? 0) with false. cbn [andb]. cbv zeta. destruct (Z.leb _ _); [done|].
    rewrite (decide_True (P := EOF = EOF)) by done. destruct (len data =? 0); by rewrite decide_True by auto. }
  rewrite Hpf, (bool_decide_eq_true_2 (EOF = EOF)) by done.
  eexists. split; [by destruct pf|].
  match goal with |- context [projectedHeaders ?src ?sh] => destruct (projected_exact src sh) as (_ & _ & Hx) end.
  destruct (Hx eq_refl) as [-> ->]. split; [|done].
  match goal with |- context [rs_PlainSize ?x] => assert (rs_PlainSize x = len data) as -> by (by repeat case_decide; destruct source) end.
  by rewrite (proj2 (Z.leb_le 0 (len data))) by lia.
Qed.

Lemma classified_chunked_v2 `{ManifestJSON} key ex class :
  ClassifyObject key ex = Ok class → oc_Format class = FormatChunkedV2 →
  oc_Encrypted class = true ∧ mget ex MetaFallbackMode = "" ∧ mget ex MetaManifest ≠ "" ∧ ChunkedFormatVersion ex = Ok ChunkedFormatV2.
Proof.
  unfold ClassifyObject, chunkedVersionForMetadata. intros Hc Hf. cbv zeta in Hc.
  destruct (decide (mget ex MetaFallbackMode = "")) as [Hm|Hm].
  2: { rewrite (decide_True (P := mget ex MetaFallbackMode ≠ "")) in Hc by done. repeat case_decide; try case_match; simplify_eq; done. }
  rewrite (decide_False (P := mget ex MetaFallbackMode ≠ "")) in Hc by naive_solver.
  repeat case_decide; repeat case_match; simplify_eq; try done.
  split_and!; try done. f_equal. by apply Z.eqb_eq.
Qed.

(** ** Planning *)

Lemma length_parsed z : 0 ≤ z ≤ MaxInt64 → ParseInt (FormatInt z) = Some z.
Proof. intros Hz. unfold ParseInt, FormatInt. rewrite bytes_of_string_of_bytes. by apply ParseInt_FormatInt. Qed.

Lemma size_scanned z : 0 ≤ z ≤ MaxInt64 → Sscanf_d (FormatInt z) = Some z.
Proof.
  intros Hz. destruct (FormatInt_digits z Hz) as [Hd Hne]. pose proof (ParseInt_FormatInt z Hz) as Hp. unfold Sscanf_d, FormatInt. rewrite bytes_of_string_of_bytes.
  destruct (FormatInt_bytes z) as [|b l]; [done|]. cbn [forallb] in Hd. apply andb_prop in Hd as [Hb Hl].
  assert (Hrun : digit_run l = l). { clear -Hl. induction l as [|b l IH]; [done|]. cbn in *. apply andb_prop in Hl as [-> ?]. by rewrite IH. }
  destruct b; try done; cbn -[ParseInt_bytes]; by rewrite Hrun.
Qed.

Record stored_at (be : Backend) (key : string) (versionID : option string) (raw : gomap) (C : list byte) : Prop := {
  sa_head : be_HeadObject be key versionID = Ok raw;
  sa_get : be_GetObject be key versionID None = Ok (src_of C, raw);
  sa_range : ∀ a b, 0 ≤ a ≤ b → b < len C → ∃ m, be_GetObject be key versionID (Some (formatRange a b)) = Ok (src_of (slice C a b), m) }.

Section length.
Context `{CiphersLaws, HKDFLaws, SHA256, MD5, PasswordKDFLaws, BuildTags, ManifestJSONLaws, MapJSONLaws}.
Context `{StorableEnvelopes K}.

Lemma object_length e object pt md st salt iv bid dk envelope full hs aead :
  ctsize (len pt) (clampChunkSize (en_chunkSize e)) ChunkedFormatV2 ≤ MaxInt64 → chunked_write e object md st salt iv bid dk envelope full hs aead →
  32 ≤ len (chunked_object e object pt iv bid dk aead) ≤ MaxInt64 ∧ len pt ≤ MaxInt64.
Proof using All.
  intros Hfit Hw. set (C := chunked_object _ _ _ _ _ _ _).
  destruct Hw. destruct (createAEADCipher_laws _ _ _ _ cw_cipher) as [Hlaws _]. pose proof (aes_gcm_laws dk) as Hgl.
  pose proof (clamp_valid (en_chunkSize e)) as Hcs.
  set (P := writer_params aead (aes_gcm dk) iv (en_chunkSize e) object bid).
  assert (HP : params_ok P) by (by apply bound_params_ok). pose proof (fits_bound P pt HP eq_refl Hfit) as HF.
  pose proof (length_sealed_object P HP pt HF) as Hlen. change (sealed_object P pt) with C in Hlen. rewrite Hlen.
  change (cp_chunkSize P) with (clampChunkSize (en_chunkSize e)). change (cp_version P) with ChunkedFormatV2.
  pose proof (nchunks_bounds (len pt) (clampChunkSize (en_chunkSize e))) as Hn. unfold valid_chunk_size, MinChunkSize in Hcs.
  unfold ctsize, trailer, tagSize, ChunkedTerminalSize in *. change (ChunkedFormatV2 =? ChunkedFormatV2) with true in *. cbn iota in *. lia.
Qed.

(** The headers of a written object say what it is: no marker of another format
    is among them, and no policy forbids to read it. *)
Lemma written_classified `{BucketGlob, MPUManifestJSON} h bucket k versionID e object md st raw salt iv bid dk envelope full hs aead :
  rh_engine h bucket = Ok (FullEngine e) → known_strategy (en_compactor e) → 0 < en_chunkSize e ≤ MaxChunkSize →
  chunked_write e object md st salt iv bid dk envelope full hs aead → CompactMetadata (en_compactor e) hs ≡ₚ raw →
  ∃ view, loadReadableObjectView h bucket k versionID raw = Ok view ∧ oc_Format (vw_Class view) = FormatChunkedV2.
Proof using All.
  intros Heng Hp Hcs Hw Hperm. destruct (api_expanded e _ md st raw salt iv bid dk envelope full hs aead Hp Hw Hperm) as (m & Hm & Hrec & Hmk & _).
  destruct Hw. pose proof Hrec as (_ & Hg & _).
  assert (Hf : ∀ n, bool_decide (n ∈ fieldNames) = true → mget m n = mget full n) by (intros n; by apply (recovers_field e)).
  assert (Hsize : mget m MetaChunkSize = FormatInt (en_chunkSize e)).
  { rewrite <-cw_size. apply (Hg (control MetaChunkSize "x-amz-meta-cs")); [|done]. split; [|done]. apply (bool_decide_unpack _). vm_compute. reflexivity. }
  assert (Hscan : Sscanf_d (FormatInt (en_chunkSize e)) = Some (en_chunkSize e)) by (apply size_scanned; unfold MaxChunkSize, MaxInt64 in *; lia).
  assert (Hparsed : parseChunkSize m = en_chunkSize e).
  { unfold parseChunkSize. rewrite Hsize. case_decide as E; [by rewrite E in Hscan|]. rewrite Hscan. by rewrite (proj2 (Z.ltb_lt _ _)) by lia. }
  assert (Hver : chunkedVersionForMetadata m = Ok ChunkedFormatV2).
  { unfold chunkedVersionForMetadata, ChunkedFormatVersion.
    assert (Hman : mget m MetaManifest = encodeManifest (writer_manifest iv (en_chunkSize e))) by (by rewrite Hf by reflexivity).
    rewrite decide_False; [by rewrite (manifest_stored m iv _ Hman)|]. rewrite Hman. apply decode_nonempty, json_manifest_text. }
  assert (Hcl : ClassifyObject k m = Ok (mkClass FormatChunkedV2 true (en_chunkSize e) zeroBinding "")).
  { unfold ClassifyObject. cbv zeta. rewrite !(Hmk MetaMPUEncrypted), !(Hmk MetaFallbackPointer) by (apply (bool_decide_unpack _); vm_compute; reflexivity).
    rewrite !(Hf MetaFallbackMode), (Hf MetaChunkedFormat) by reflexivity. rewrite (absent_mget full MetaFallbackMode) by (apply cw_absent; by left).
    rewrite (proj2 (proj2 cw_marked)), !(decide_False (P := "" ≠ "")), (decide_True (P := "true" ≠ "")) by naive_solver.
    by rewrite Hparsed, (proj2 (Z.leb_gt _ _)), (proj2 (Z.ltb_ge _ _)), Hver by lia. }
  unfold loadReadableObjectView, loadObjectView, expandMetadataForAPI. rewrite Heng. cbn [mbind result_bind]. rewrite Hm. cbn [mbind result_bind]. rewrite Hcl.
  cbn [mbind result_bind]. unfold enforceObjectReadPolicy. cbn. by eexists.
Qed.
End length.

Section get.
Context `{CiphersLaws, HKDFLaws, SHA256, MD5, PasswordKDFLaws, BuildTags, ManifestJSONLaws, MapJSONLaws}.
Context `{StorableEnvelopes K} `{BucketGlob, MPUManifestJSON, EnvelopeJSON}.
Context (h : ReadHandler) (be : Backend) (e : engine) (bucket key : string) (versionID : option string).
Context (Hengine : rh_engine h bucket = Ok (FullEngine e)).
(** An object the engine wrote, under the headers the backend returns. *)
Context (pt : list byte) (st0 : EngineState K) (raw md full hs : gomap) (salt iv bid dk : list byte) (envelope : option KeyEnvelope) (aead : AEAD).
Context (Hp : known_strategy (en_compactor e)) (Hus : usable e (en_preferredAlgorithm e)).
Context (Hfit : ctsize (len pt) (clampChunkSize (en_chunkSize e)) ChunkedFormatV2 ≤ MaxInt64).
Context (Hw : chunked_write e (mkObject bucket key) md st0 salt iv bid dk envelope full hs aead).
Context (Hperm : CompactMetadata (en_compactor e) hs ≡ₚ raw).
Let C := chunked_object e (mkObject bucket key) pt iv bid dk aead.
Context (Hstored : stored_at be key versionID raw C).
Context (Hlength : metadataValue full "Content-Length" = Some (FormatInt (len C)) ∧ no_variant raw "Content-Length").
Context (view : objectView) (Hview : loadReadableObjectView h bucket key versionID raw = Ok view) (Hformat : oc_Format (vw_Class view) = FormatChunkedV2).

Lemma view_expanded :
  expandMetadataForAPI h bucket raw = Ok (vw_Expanded view) ∧ vw_Raw view = raw ∧ vw_Key view = key ∧ vw_VersionID view = versionID ∧
  oc_Encrypted (vw_Class view) = true ∧ mget (vw_Expanded view) MetaFallbackMode = "" ∧ mget (vw_Expanded view) MetaFallbackVersion = "" ∧
  mget (vw_Expanded view) MetaManifest ≠ "" ∧ ChunkedFormatVersion (vw_Expanded view) = Ok ChunkedFormatV2 ∧
  mget (vw_Expanded view) "Content-Length" = FormatInt (len C).
Proof using All.
  destruct (api_expanded e _ md st0 raw salt iv bid dk envelope full hs aead Hp Hw Hperm) as (m & Hm & Hrec & _ & Hkeys).
  assert (Hexp : expandMetadataForAPI h bucket raw = Ok m) by (unfold expandMetadataForAPI; by rewrite Hengine).
  pose proof Hview as Hv. unfold loadReadableObjectView, loadObjectView in Hv. rewrite Hexp in Hv. cbn [mbind result_bind] in Hv.
  destruct (ClassifyObject key m) as [class|] eqn:Ecl; [|done]. cbn [mbind result_bind] in Hv.
  destruct (enforceObjectReadPolicy _ _ _); [done|]. injection Hv as <-. cbn [vw_Class vw_Expanded vw_Raw vw_Key vw_VersionID] in Hformat |- *.
  destruct (classified_chunked_v2 key m class Ecl Hformat) as (H1' & H2' & H3' & H4').
  split_and!; try done.
  - rewrite (recovers_field e full m) by (done || reflexivity). apply absent_mget. apply Hw. by right; left.
  - destruct Hlength as [Hl Hnv]. destruct Hrec as (_ & _ & Hf & _). assert (Hfor : foreign "Content-Length" = true) by (vm_compute; reflexivity).
    unfold mget. rewrite lookup_value; [by rewrite Hf, Hl by done|]. intros k Hk E. apply Hnv; [|done].
    assert (Hfk : foreign k = true) by (unfold foreign in Hfor |- *; by rewrite (IsGatewayReservedKey_fold _ _ E)).
    destruct (compacted_clean (en_compactor e) hs raw Hp (good_clean _ (cw_headers _ _ _ _ _ _ _ _ _ _ _ _ Hw)) Hperm) as (Hd & Hme & _).
    apply expanded_keys; [done..| |done]. by apply Hkeys.
Qed.

Lemma terminal_preflight ctx st :
  live ctx → holds_key e st salt envelope dk →
  yields (preflightChunkedTerminal h be bucket ctx key versionID raw st)
    (λ info st', ci_PlaintextSize info = len pt ∧ holds_key e st' salt envelope dk).
Proof using All.
  intros Hctx Hh. destruct view_expanded as (Hexp & _ & _ & _ & _ & _ & _ & Hman & Hver & Hcl). destruct (object_length e _ pt md st0 salt iv bid dk envelope full hs aead Hfit Hw) as [Hlen _]. fold C in Hlen.
  unfold preflightChunkedTerminal. eapply yields_lift; [exact Hexp|].
  eapply yields_lift; [unfold formatVersionOrLegacy; by rewrite Hver|]. eapply yields_lift; [exact Hengine|].
  cbv zeta. change (ChunkedFormatV2 =? ChunkedFormatV1) with false. cbn iota. rewrite Hcl, length_parsed by lia.
  unfold ChunkedTerminalSize. rewrite !(proj2 (Z.ltb_ge _ _)) by lia.
  assert (len C -i 32 = len C - 32 ∧ len C -i 1 = len C - 1) as [-> ->].
  { unfold MaxInt64 in Hlen. rewrite !wrap_i64_id by (unfold is_i64; lia). done. }
  destruct Hstored as [_ _ Hr]. destruct (Hr (len C - 32) (len C - 1)) as [m Hget]; [lia..|].
  eapply yields_lift; [by rewrite Hget|]. cbv beta iota.
  assert (slice C (len C - 32) (len C - 1) = tailOf C) as -> by (unfold slice, tailOf; rewrite take_ge by (rewrite length_drop; lia); f_equal; lia).
  eapply yields_weaken; [by eapply trailer_authenticated|]. by intros info st' [-> ?].
Qed.

Lemma size_resolved ctx fuel st :
  live ctx → holds_key e st salt envelope dk →
  yields (resolvePlaintextSize h be bucket fuel ctx key view st)
    (λ size st', size = mkSize (len pt) true "chunked-terminal" ∧ holds_key e st' salt envelope dk).
Proof using All.
  intros Hctx Hh. destruct view_expanded as (Hexp & Hraw & Hkey & Hvid & Henc & Hfm & Hfv & Hman & Hver & Hcl). destruct (object_length e _ pt md st0 salt iv bid dk envelope full hs aead Hfit Hw) as [_ Hlen].
  unfold resolvePlaintextSize. cbv zeta. rewrite Henc, Hformat, Hraw, Hkey, Hvid. cbn [negb].
  rewrite (decide_False (P := FormatChunkedV2 = FormatMPUV1 ∨ _)) by naive_solver. rewrite (decide_False (P := FormatChunkedV2 = FormatBufferedFallback)) by done.
  rewrite (decide_True (P := FormatChunkedV2 = FormatChunkedV1 ∨ _)), (decide_True (P := FormatChunkedV2 = FormatChunkedV2)) by auto.
  assert (Hpre : yields (preflightChunkedCompleteness h be bucket fuel ctx key key versionID raw st)
    (λ info st', ci_PlaintextSize info = len pt ∧ holds_key e st' salt envelope dk)).
  { unfold preflightChunkedCompleteness. eapply yields_lift; [exact Hexp|]. rewrite Hfv, Hfm. rewrite decide_False by naive_solver.
    destruct (map_lookup (vw_Expanded view) MetaManifest) as [man|] eqn:El; [|by unfold mget in Hman; rewrite El in Hman].
    unfold mget in Hman. rewrite El in Hman. rewrite decide_False by done. eapply yields_lift; [by rewrite Hver|].
    change (ChunkedFormatV2 =? ChunkedFormatV1) with false. by apply terminal_preflight. }
  eapply (yields_bind _ _ _ (λ o st', o = Some (mkSize (len pt) true "chunked-terminal") ∧ holds_key e st' salt envelope dk)).
  - eapply yields_bind; [exact Hpre|]. intros info st' [-> Hh']. rewrite (proj2 (Z.leb_le _ _)) by lia.
    rewrite wrap_i64_id by (unfold is_i64, MaxInt64 in *; lia). by apply yields_Ok.
  - intros o st' [-> Hh']. by apply yields_Ok.
Qed.

Lemma range_planned ctx fuel rng st :
  live ctx → holds_key e st salt envelope dk → bucket ≠ "" → key ≠ "" →
  yields (planGetObjectRange h be bucket fuel ctx key versionID rng true st)
    (λ plan st', range_plan view rng (len pt) plan ∧ holds_key e st' salt envelope dk).
Proof using All.
  intros Hctx Hh Hb Hk. destruct view_expanded as (Hexp & Hraw & Hkey & Hvid & Henc & _).
  unfold planGetObjectRange. eapply yields_lift; [by rewrite (sa_head _ _ _ _ _ Hstored)|].
  eapply (yields_bind _ _ _ (λ plan st', range_plan view rng (len pt) plan ∧ holds_key e st' salt envelope dk)).
  - unfold planObjectRead. rewrite decide_False by naive_solver. eapply yields_lift; [exact Hview|]. cbv zeta. rewrite Hformat.
    rewrite (decide_False (P := FormatChunkedV2 = FormatMPUV1 ∨ _)) by naive_solver. rewrite (bool_decide_eq_false_2 (FormatChunkedV2 = FormatChunkedV1)) by done.
    rewrite andb_false_r. eapply yields_bind; [by apply size_resolved|]. intros size st' [-> Hh']. apply yields_Ok. split; [|done].
    apply planRange_buffered; try done; [by eapply no_chunk_count|lia].
  - intros plan st' [Hplan Hh']. apply yields_Ok. cbv zeta. rewrite bool_decide_eq_false_2.
    + split; [by apply range_plan_source|done].
    + destruct plan. destruct Hplan. cbn in *. congruence.
Qed.

(** ** Serving *)

(** The computation ends with a result of [P], or reports that the key manager
    could not answer. *)
Definition settles {A} (x : result A * EngineState K) (P : result A → Prop) : Prop :=
  (∃ a st', x = (a, st') ∧ P a) ∨ (∃ err st', x = (Err err, st') ∧ es_km st' ≠ None ∧ rejects err = false).

Lemma settles_bind {A B} (m : M K A) (f : A → M K B) st P Q :
  yields (m st) P → (∀ a st', P a st' → settles (f a st') Q) → settles ((m ≫= f) st) Q.
Proof using.
  intros [(a & st' & E & Ha)|(err & st' & E & Hkm & Hr)] Hf; unfold mbind, M_bind; rewrite E; [by apply Hf|]. right. by eexists _, _.
Qed.
Lemma settles_lift {A B} (x : result A) a (f : A → M K B) st Q : x = Ok a → settles (f a st) Q → settles ((lift x ≫= f) st) Q.
Proof using. by intros ->. Qed.

Lemma view_api : APIExpandedMetadata e raw = Ok (vw_Expanded view).
Proof using All. destruct view_expanded as [Hx _]. unfold expandMetadataForAPI in Hx. by rewrite Hengine in Hx. Qed.

Lemma covers_set m d k v : projected k = false → covers m d → covers m (map_set d k v).
Proof using. intros Hk Hc k' [->|?]%map_set_keys Hp'; [congruence|by apply Hc]. Qed.

Lemma covers_dressed m d : covers m d → covers m (if decide (mget d "ETag" ≠ "") then map_set d "ETag" (quoteETag (mget d "ETag")) else d).
Proof using. intros Hc. case_decide; [by apply covers_set|done]. Qed.

Lemma exec_decrypted r d n tag plan : rs_Decrypted (pl_Source (withExecutionResponse r d n tag plan)) = d.
Proof using. destruct plan as [??? [] ????????????]. unfold withExecutionResponse. cbv zeta. by case_decide. Qed.

Lemma decrypted ctx fuel plan st :
  live ctx → pl_Mode plan = objectReadFull ∨ pl_Mode plan = objectReadBufferedRange → oc_Encrypted (pl_Class plan) = true →
  holds_key e st salt envelope dk → (length pt < fuel)%nat →
  yields (decryptPlannedObject bucket fuel ctx (FullEngine e) plan key (src_of C) raw st) (λ x _, x.1 = (pt, EOF) ∧ covers (vw_Expanded view) x.2).
Proof using All.
  intros Hctx Hm He Hh Hfuel. unfold decryptPlannedObject. rewrite He. cbn [negb].
  pose proof (chunked_opened ctx e (mkObject bucket key) pt md st0 st raw salt iv bid dk envelope full hs aead Hp Hus Hctx Hfit Hw Hh Hperm) as Hread.
  destruct Hm as [-> | ->]; unfold engineDecrypt; (eapply yields_bind; [apply answers_yields, Hread|]); intros [rd m] st' (Hrem & mo & Hopen & _ & Hm); cbv beta iota; cbn [fst snd] in Hrem, Hm; subst m;
    (eapply yields_lift; [unfold streamOf; by rewrite (drain_rem _ rd pt EOF) by (done || lia)|]); apply yields_Ok; (split; [done|]); eapply view_covered; eauto using view_api.
Qed.

Lemma range_served ctx fuel r rng st :
  live ctx → holds_key e st salt envelope dk → bucket ≠ "" → key ≠ "" → (length pt < fuel)%nat →
  settles (getObject h be bucket fuel ctx r key versionID (Some rng) st)
    (λ answer, ∃ plan, range_plan view rng (len pt) plan ∧ covers (vw_Expanded view) (rs_Decrypted (pl_Source plan)) ∧ answer = serveObjectBody r plan 0 pt EOF).
Proof using All.
  intros Hctx Hh Hb Hk Hfuel. unfold getObject. eapply settles_lift; [exact Hengine|]. cbv beta iota. change (isFullEngine (FullEngine e)) with true.
  eapply settles_bind; [by apply range_planned|]. intros plan st' [Hplan Hh']. cbv zeta.
  match goal with |- context [with_source ?s plan] => pose proof (range_plan_source view rng (len pt) plan s Hplan) as Hplan'; set (plan' := with_source s plan) in * end.
  clearbody plan'. clear Hplan. pose proof Hplan' as [_ Hm Hbe _ He _ _]. unfold serveRange. rewrite Hm, Hbe.
  eapply settles_lift; [exact (sa_get _ _ _ _ _ Hstored)|]. cbv beta iota. eapply settles_lift; [exact Hview|].
  unfold serveFetched. cbv zeta. rewrite Hm.
  eapply (settles_bind _ _ _ (λ x _, x.1 = (pt, EOF) ∧ covers (vw_Expanded view) x.2)); [by eapply decrypted; [|by right|..]|].
  intros [body m] st'' [E Hcov]. cbn [fst snd] in E, Hcov. subst body. cbv beta iota. rewrite (bool_decide_eq_true_2 (objectReadBufferedRange = _)), He by done.
  cbn [andb]. rewrite (bool_decide_eq_true_2 (EOF = EOF)) by done. cbn [negb]. left. eexists _, _. split; [done|].
  eexists (withExecutionResponse r _ _ _ plan'). split_and!; [by apply range_plan_source| |done]. rewrite exec_decrypted. by apply covers_dressed.
Qed.

Lemma whole_served ctx fuel r st :
  live ctx → holds_key e st salt envelope dk → bucket ≠ "" → key ≠ "" → (length pt < fuel)%nat →
  settles (getObject h be bucket fuel ctx r key versionID None st)
    (λ answer, ∃ m tag plan, whole_plan view (len pt) plan ∧ covers (vw_Expanded view) m ∧ answer = serveObjectBody r (withExecutionResponse r m (len pt) tag plan) 0 pt EOF).
Proof using All.
  intros Hctx Hh Hb Hk Hfuel. unfold getObject. eapply settles_lift; [exact Hengine|]. cbv beta iota. unfold serveWhole.
  eapply settles_lift; [exact (sa_get _ _ _ _ _ Hstored)|]. cbv beta iota. eapply settles_lift; [exact Hview|].
  destruct view_expanded as (_ & _ & _ & _ & Henc & _).
  eapply (settles_bind _ _ _ (λ plan st', whole_plan view (len pt) plan ∧ holds_key e st' salt envelope dk)).
  { unfold completeGetObjectRead, planObjectRead. rewrite decide_False by naive_solver.
    eapply (yields_bind _ _ _ (λ plan st', whole_plan view (len pt) plan ∧ holds_key e st' salt envelope dk)).
    - eapply yields_lift; [exact Hview|]. cbv zeta. rewrite Hformat.
      rewrite (decide_False (P := FormatChunkedV2 = FormatMPUV1 ∨ _)) by naive_solver. rewrite (bool_decide_eq_false_2 (None ≠ None)) by naive_solver.
      cbn [andb]. eapply yields_bind; [by apply size_resolved|]. intros size st' [-> Hh']. by apply yields_Ok.
    - intros plan st' [Hplan Hh']. apply yields_Ok. split; [|done].
      apply (proj2 (whole_plan_source _ _ _ (pl_Source plan) true (proj1 (whole_plan_source _ _ _ _ true Hplan)))). }
  intros plan st' [Hplan Hh']. pose proof Hplan as [_ Hm He [Hs Hx] _]. unfold serveFetched. cbv zeta. rewrite Hm.
  eapply (settles_bind _ _ _ (λ x _, x.1 = (pt, EOF) ∧ covers (vw_Expanded view) x.2)); [by eapply decrypted; [|by left|..]|].
  intros [body m] st'' [E Hcov]. cbn [fst snd] in E, Hcov. subst body. cbv beta iota. rewrite (bool_decide_eq_true_2 (objectReadFull = objectReadFull)), Hs, Hx by done.
  cbn [andb]. rewrite (bool_decide_eq_false_2 (objectReadFull = objectReadBufferedRange)) by done. cbn [andb]. left. eexists _, _. split; [done|].
  eexists _, _, _. split_and!; [done| |done]. by apply covers_dressed, covers_set.
Qed.
End get.

Lemma withHeader_spelling k v m : no_variant (withHeader k v m) k.
Proof.
  intros k' [->|Hk]%elem_of_cons E; [done|]. apply list_elem_of_fmap in Hk as (kv & -> & [Hn _]%list_elem_of_filter).
  unfold EqualFold in Hn. rewrite bool_decide_eq_true_2 in Hn by done. done.
Qed.

Lemma validated bucket key : Validate (mkObject bucket key) = Ok tt → bucket ≠ "" ∧ key ≠ "".
Proof.
  unfold Validate. cbn [Bucket Key]. intros Hv. split; intros ->; rewrite (bool_decide_eq_true_2 ("" = "")) in Hv by done; cbn [orb] in Hv; [done|].
  by destruct (_ || _) in Hv.
Qed.

(** The answer a GET is owed: the whole plaintext, or the part the range names
    with the headers that describe it, or the refusal of the range. *)
Definition answer_for (pt : list byte) (rangeHeader : option string) (answer : result ObjectResponse) : Prop :=
  match rangeHeader with
  | None => ∃ headers, answer = Ok (mkResponse statusOK headers pt true) ∧
      map_lookup headers "Content-Length" = Some (FormatInt (len pt)) ∧ map_lookup headers "Content-Range" = None
  | Some rng =>
      match parseObjectRange rng (len pt) with
      | Ok (s, e) => ∃ headers, answer = Ok (mkResponse statusPartialContent headers (slice pt s e) true) ∧
          map_lookup headers "Content-Length" = Some (FormatInt (e - s + 1)) ∧
          map_lookup headers "Content-Range" = Some ("bytes " +:+ FormatInt s +:+ "-" +:+ FormatInt e +:+ "/" +:+ FormatInt (len pt))
      | Err _ => answer = Err errInvalidRange
      end
  end.

Section theorem.
Context `{CiphersLaws, HKDFLaws, SHA256, MD5, PasswordKDFLaws, BuildTags, ManifestJSONLaws, MapJSONLaws}.
Context `{StorableEnvelopes K} `{BucketGlob, MPUManifestJSON, EnvelopeJSON}.

End theorem.

(** ** A backend in memory *)

Definition memoryBackend (raw : gomap) (C : list byte) : Backend :=
  mkBackend (λ _ _, Ok raw) (λ _ _ rng, match rng with
    | None => Ok (src_of C, raw)
    | Some rng => '(a, b) ← ParseHTTPRangeHeader rng (len C); Ok (src_of (slice C a b), raw)
    end).

Lemma memory_stored key versionID raw C : len C ≤ MaxInt64 → stored_at (memoryBackend raw C) key versionID raw C.
Proof.
  intros Hl. split; [done..|]. intros a b Hab Hb. exists raw. cbn [memoryBackend be_GetObject].
  destruct (range_header_correct (len C)) as (_ & Hp & _); [lia|]. unfold formatRange. rewrite Hp by lia. done.
Qed.

Section witnesses.
Import ToyInstances PasswordWitness MemoryWitness ToyJSON EngineWitness.
#[local] Instance any_bucket : BucketGlob := {| Glob _ _ := true |}.
#[local] Instance no_manifests : MPUManifestJSON := {| json_marshal_mpu _ := [x01]; json_unmarshal_mpu _ := None |}.
#[local] Instance no_envelopes : EnvelopeJSON := {| env_marshal _ := ""; env_unmarshal _ := Err EOF |}.
Definition reading (e : engine) : ReadHandler := mkReadHandler None (λ _, Ok (FullEngine e)) (λ _, false).

Definition streamed : bool :=
  match (Encrypt [] (settings true None) object (src_of body) headers state).1 with Ok (EncStream _, _) => true | _ => false end.

End witnesses.
